(* ===== verification/_CoqProject ===== *)
-Q . S2P
Prelude.v
GoStrings.v
GoFloat.v
GoTime.v
Ast.v
SearchDefs.v
Lexer.v
Parser.v
Printer.v
ParserProofs.v
ParserRoundtrip.v
Binder.v
Compiler.v
CompilerProofs.v
Verification.v
JobPayload.v
GoDuration.v
JobRuns.v
JobTrace.v
JobRunProofs.v
JobTraceProofs.v
Runner.v
GoJson.v
GoJsonText.v
GoSha256.v
GoBase64.v
Sql.v
QueryJson.v
ErrState.v
Request.v
Passwords.v
Settings.v
Managed.v
Supervisor.v
S3Listing.v
Catalog.v
AttributeCatalog.v
Capture.v
Buckets.v
JetStream.v
WorkerRun.v
Relations.v
UpstreamEvents.v
Users.v
Auth.v
AuthProofs.v
Secrets.v
Config.v
AuthLogin.v
Http.v
AuthHttp.v
Security.v
Startup.v
LoginLimit.v
Notifications.v
ObjectStore.v
Collections.v
CollectionsHttp.v
ObjectsHttp.v
ActivityStats.v
JobsHttp.v
BucketsHttp.v
Clients.v
Extract.v
ObjectPlan.v
HeadAttributes.v
HeadPool.v
SyncBucket.v
Scheduler.v
EventIngest.v
EventProcessor.v
SyncPlan.v
SyncBucketProofs.v
SyncTheorems.v
SyncTermination.v
SyncWitnesses.v
ObjectJobs.v
HashPool.v
DetectDuplicates.v
ScanBucket.v
