(* ===== verification/Prelude.v ===== *)
(** * A verification of Pithosys

    Pithosys keeps a catalog of the objects of S3-compatible buckets in PostgreSQL.  Two
    processes share the database: the API (apps/api), which serves buckets, objects, saved
    queries, jobs, settings and users over HTTP, and the worker (apps/worker), which runs
    jobs, ingests the notifications of the upstreams and schedules scans.  This library
    models both, with the packages they share (packages/...), from the sources; it opens
    with this file, the shared vocabulary.

    ** How the program is modelled

    - A Go function that returns an error is a [result] (here); a method that runs
      statements is a computation [M S A] on a state [S] (ErrState), with triples for
      reasoning.  A table is a finite map from its key to its row; a statement is one
      function of the tables with the checks, unique indexes and cascades of the migrations.
    - A job handler runs in a world (SyncBucket.World) in which other workers change the
      database between its statements and any statement, or the upstream, may fail; a
      request of the API (Request.Surroundings) likewise.  Theorems that need nobody else
      to be at work say so ([quiet], [quiet_server]).
    - Goroutines that share memory are transition systems: HeadPool, HashPool, LoginLimit,
      Managed with its two instances, WorkerRun.  A section under a mutex is one step, and
      so is the body of a worker of HashPool; the pass of the event processor and every
      other transaction are one step.
    - Strings are byte strings; an int64 is a [Z] with its bounds where they matter; a
      float64 is a [spec_float]; instants are seconds, nanoseconds and offset (GoTime).

    ** The parts

    - Go's standard library, as far as it is used: GoStrings, GoFloat, GoTime, GoDuration,
      GoJson (trees), GoJsonText (the reader and the writer), GoSha256, GoBase64;
      this file and Sql hold what several components share.
    - PithosysQL (packages/search, packages/storage/pithosysql_compile.go): Ast,
      SearchDefs, Lexer, Parser, Printer (the specification of the parser), Binder,
      Compiler, QueryJson, with ParserProofs, ParserRoundtrip and CompilerProofs.
    - Jobs (packages/storage/job_*.go): JobPayload, JobRuns (the statements), JobTrace,
      with JobRunProofs and JobTraceProofs; Runner (apps/worker/internal/
      runner, tracecompletion).
    - The catalog (packages/storage): Catalog (the tables), Buckets, ObjectStore,
      AttributeCatalog, Capture, Relations, UpstreamEvents, Collections, Settings (with
      the cache of the worker), Users, ActivityStats.
    - The upstreams (packages/upstreams): S3Listing, Extract (the captured fields of a
      HEAD), HeadAttributes (the direct conversions, of the SDK's answers
      and of raw ones), Clients, Notifications.
    - The jobs of the worker (apps/worker/internal/jobs): ObjectPlan, SyncBucket with
      SyncPlan, SyncBucketProofs, SyncTheorems, SyncTermination, SyncWitnesses; HeadPool
      and ObjectJobs (import, refresh, remove); ScanBucket, over Verification
      (packages/verification); HashPool and DetectDuplicates.
    - The loops of the worker: EventIngest (upstreamevents, and jetstreamconsumer/consumer.go);
      Managed, the machine of a loop that keeps named goroutines, with its instances
      Supervisor (supervisor) and JetStream (jetstreamconsumer/manager.go); EventProcessor (upstreamprocessor); Scheduler; and
      WorkerRun, the four components of a worker under one context.
    - The processes: Startup (what is seeded, the registry of the handlers, and [run] of
      both programs).
    - Secrets and users (packages/secrets, packages/auth): Passwords, Secrets, Auth, with
      AuthProofs and AuthLogin; Config, the configuration of both processes.
    - The API (apps/api/internal/httpserver): Request and Http (requests, answers, the
      authentication), Security (the handlers before the routes), LoginLimit, and the
      routes AuthHttp, CollectionsHttp, ObjectsHttp, JobsHttp, BucketsHttp.

    ** What the theorems show

    - Queries: parsing ends and gives well-formed trees (Parse_total, Parse_wf), and reads
      back the text of every printable query (Parse_print); binding accepts exactly the
      well-typed queries and gathers their dependencies (Bind_iff, Bind_dependencies); the
      SQL has the structure of the query (compile_structure), numbered placeholders unless
      an attribute path contains a dollar sign (compile_placeholders), and no literal of
      the query but its intervals, which it writes as a number and a unit
      (compile_parametric); the scope of a bucket
      holds unless the condition is a top-level OR (scope_enforced; scope_bypass shows the
      other case); a stored query is read back (UnmarshalQuery_MarshalQuery), and a saved
      one stays consistent with its text (saved_queries_kept).
    - Jobs: the invariant of the tables over every sequence of statements (reachable_db_ok),
      a bound on executions (executions_bounded), exclusive and oldest-first claims
      (claim_exclusive, ClaimJobRun_oldest), what a run of a handler leaves, whatever the
      handler and others do to the tables (RunOnce_outcome), the end of a round of the
      runner (run_round_ends), and the end of the jobs whose children are done: of the
      newest hundred, up to the first trace that fails (Tick_finalizes).
    - Sync: the jobs planned are the difference of upstream and catalog (sync_plan), none is
      planned twice over any number of attempts (sync_enqueues_once), and an attempt ends
      (Handle_terminates).  Scan: fingerprints match exactly when counts and sizes agree
      (drift_detection), and a scan creates exactly one sync for each sampled partition
      that differs, and no other job (scan_escalates).
    - Concurrency: HeadObjects returns its results in order under every schedule, and
      returns (HeadObjects_sound, HeadObjects_returns); the hash pool may hang when all of
      its workers fail (failing_pool_never_returns); one scheduler of a kind at a time
      (one_worker_per_name); one consumer per bucket, and after a round those enabled
      (consumers_follow_buckets, sync_runs_enabled); a worker returns once its components
      have, with its last failure, and what still runs then belongs to a loop that failed,
      cancelled exactly if the worker was (worker_shutdown, failed_orphans).
    - Processes: any starts keep what users changed (restart_keeps); a worker reaches its
      supervisor and the API its server (run_worker_supervises, run_api_serves).
    - Events: a message is stored once however often it is delivered (delivered_once), it
      is acknowledged only when it is (acknowledged_stored), and a pass of the processor
      settles what it locked (Tick_settles).
    - Users: the tables keep their invariant (auth_tables_kept), a session is accepted only
      when it was issued (resolved_was_issued), only administrators change users
      (users_guarded), the bootstrapped administrator can log in unless disabled (bootstrap_then_login),
      logins are limited (login_rate), and pages of other sites change nothing
      (cross_site_powerless).
    - The API and its stores: settings in force (settings_in_force), captured fields
      (capture_invariant_ops), the answers to a request for a sync (sync_request), patches of
      attributes (patch_user_only), statistics that put every event in its point, in a
      session a whole number of buckets from UTC (event_stats_complete), credentials that
      reach the client of a worker (credentials_reach_client), and platform fields that
      capture what the direct conversion of a HEAD gives (platform_capture_is_conversion).

    ** Fuel and bounds

    The parser has fuel 65 for its nesting limit of 64 and the number of tokens left for
    its loops; the lexer and ParseDuration the length of the text; JSON trees their depth,
    JSON texts the nesting limit 10000 and the length; a notification the length of its
    text and one, since a nested notification is shorter; a listing the number of pages,
    which is bounded when the upstream makes progress; the children of a sync and the
    buckets of the manager their pages of 500; points of activity the span divided by the
    step, and two; a round of the runner the executions that the pending jobs have left.
    Where a definition has fuel, a theorem shows that the fuel named is enough.

    ** Parameters

    Code outside the repository is a parameter with its documented laws: Argon2id, the AEAD,
    the broker of NATS, url.Parse, http.ParseTime, xml.Unmarshal, the constructor and calls
    of the S3 SDK, the OIDC provider, the random source and the clocks, fmt.Sprint and the texts of errors and of float64s, strconv.ParseFloat beyond
    decimals, lower case and white space beyond ASCII where the database decides them, the
    order of a [range] over a map (Catalog.MapOrder), collation, ILIKE, the text of a jsonb
    value, the casts to timestamptz and bigint, the driver's intervals, the time zone of a
    session, and the execution of a compiled query.

    ** Simplifications

    A context is not cancelled within a statement; a nil slice or map is the empty one; the
    strings in jsonb are taken to be UTF-8; UpsertObjects is one statement, and so is the
    summary of a trace; a repository operation of several statements that a route calls is
    given statement by statement with the route (ObjectsHttp).

    ** Not modelled, and why

    The connections to PostgreSQL and NATS, the migration runner, the registration of the
    routes and the description of the API (input and output); the sleeps of the polling
    loops and the deadline of a request; the capture of response headers inside the S3 SDK;
    the demonstration (cmd/demo), the test database and the web application.

    ** What is left

    The crossing of a scan, a sync and the event processor on one bucket, whose handlers are
    verified one by one among arbitrary others. *)

(** ** Shared vocabulary: the error monad, the tactics that take apart monadic computations,
    and generic lemmas on strings and lists. *)
From stdpp Require Export base strings list gmap option.
From Stdlib Require Export ZArith Lia Ascii String.
From Stdlib Require Sorted.
From Stdlib Require Import List.
#[global] Open Scope string_scope.
#[global] Open Scope list_scope.
#[global] Arguments String.append !_ _ : simpl nomatch.
#[global] Arguments String.eqb : simpl never.

(** ** Fallible computations

    A Go function that returns [(T, error)] is a [result E T]: [Ok v] is the
    value with a nil error, [Err e] the error.  [E] is an inductive type with
    one constructor per error the function builds. *)
Inductive result (E A : Type) : Type :=
| Ok (a : A)
| Err (e : E).
Arguments Ok {E A} _.
Arguments Err {E A} _.

#[export] Instance result_ret E : MRet (result E) := fun A a => Ok a.
#[export] Instance result_bind E : MBind (result E) := fun A B f m =>
  match m with Ok a => f a | Err e => Err e end.
#[export] Instance result_fmap E : FMap (result E) := fun A B f m =>
  match m with Ok a => Ok (f a) | Err e => Err e end.

#[export] Instance result_eq_dec E A `{EqDecision E, EqDecision A} : EqDecision (result E A).
Proof. solve_decision. Defined.

(** [wrap_err f r] is the [fmt.Errorf("...: %w", err)] of the sources. *)
Definition wrap_err {E F A} (f : E -> F) (r : result E A) : result F A :=
  match r with Ok a => Ok a | Err e => Err (f e) end.

Definition is_ok {E A} (r : result E A) : bool :=
  match r with Ok _ => true | Err _ => false end.

(** A guard: [if !b { return err }]. *)
Definition guard_or {E} (b : bool) (e : E) : result E unit :=
  if b then Ok tt else Err e.

(** Run a fallible function over a list, left to right, stopping at the first
    error: the [for _, x := range xs { y, err := f(x); ...; append }] idiom. *)
Fixpoint mapM_result {E A B} (f : A -> result E B) (l : list A) : result E (list B) :=
  match l with
  | [] => Ok []
  | x :: l => y ← f x; ys ← mapM_result f l; Ok (y :: ys)
  end.

(** The same with a state threaded through. *)
Fixpoint foldM_result {E A S} (f : S -> A -> result E S) (s : S) (l : list A) : result E S :=
  match l with
  | [] => Ok s
  | x :: l => s' ← f s x; foldM_result f s' l
  end.

Lemma bind_Ok {E A B} (m : result E A) (f : A -> result E B) b :
  m ≫= f = Ok b -> exists a, m = Ok a /\ f a = Ok b.
Proof. destruct m; [eauto | done]. Qed.

Lemma fmap_Ok {E A B} (m : result E A) (f : A -> B) b :
  f <$> m = Ok b -> exists a, m = Ok a /\ b = f a.
Proof. destruct m; cbn; [intros [= <-]; eauto | done]. Qed.

Lemma wrap_err_Ok {E F A} (f : E -> F) (r : result E A) a :
  wrap_err f r = Ok a -> r = Ok a.
Proof. destruct r; [intros [= ->]; done | done]. Qed.

Lemma guard_or_Ok {E} (b : bool) (e : E) u : guard_or b e = Ok u -> b = true.
Proof. by destruct b. Qed.

Lemma mapM_result_Ok {E A B} (f : A -> result E B) l ys :
  mapM_result f l = Ok ys <-> Forall2 (fun x y => f x = Ok y) l ys.
Proof.
  revert ys; induction l as [|x l IH]; intros ys; cbn.
  - split; [by intros [= <-] | intros H; by inversion H].
  - split.
    + intros (y & Hy & (ys' & Hys & [= <-])%bind_Ok)%bind_Ok.
      constructor; [done | by apply IH].
    + intros H; inversion H as [|? y ? ys' Hy Hys]; subst.
      apply IH in Hys. by rewrite Hy; cbn; rewrite Hys.
Qed.

(** Decompose hypotheses [m ≫= f = Ok b] produced by do-notation. *)
Ltac inv_ok :=
  repeat match goal with
  | H : Ok _ = Ok _ |- _ => injection H as H; try subst
  | H : Err _ = Ok _ |- _ => discriminate H
  | H : Ok _ = Err _ |- _ => discriminate H
  | H : mbind _ _ = Ok _ |- _ => apply bind_Ok in H as (? & ? & H)
  | H : fmap _ _ = Ok _ |- _ => apply fmap_Ok in H as (? & ? & H)
  | H : wrap_err _ _ = Ok _ |- _ => apply wrap_err_Ok in H
  | H : guard_or _ _ = Ok _ |- _ => apply guard_or_Ok in H
  | H : mret _ = Ok _ |- _ => cbv [mret result_ret] in H
  end.

(** Split the innermost [if]/[match] scrutinee of a hypothesis or the goal. *)
Ltac case_match_in H :=
  match type of H with
  | context [match ?x with _ => _ end] =>
      lazymatch x with
      | context [match _ with _ => _ end] => fail
      | _ => let E := fresh "E" in destruct x eqn:E
      end
  end.
Ltac split_matches H := repeat (case_match_in H; try discriminate H; inv_ok).

(** ** Strings as byte strings *)

Lemma string_app_nil_r (s : string) : s +:+ "" = s.
Proof. induction s; cbn; congruence. Qed.
Lemma string_app_assoc (a b c : string) : (a +:+ b) +:+ c = a +:+ (b +:+ c).
Proof. induction a; cbn; congruence. Qed.
Lemma string_length_app (a b : string) :
  String.length (a +:+ b) = (String.length a + String.length b)%nat.
Proof. induction a; cbn; congruence. Qed.
Lemma string_app_inj_l (a b c : string) : a +:+ b = a +:+ c -> b = c.
Proof. induction a; cbn; [done | intros [=]; auto]. Qed.

Create Rewrite HintDb strings.
#[export] Hint Rewrite string_app_nil_r string_app_assoc string_length_app : strings.

(** [string_forall p s]: every byte of [s] satisfies [p]. *)
Fixpoint string_forall (p : ascii -> bool) (s : string) : bool :=
  match s with
  | EmptyString => true
  | String c s => p c && string_forall p s
  end.

(** [span p s]: the longest prefix of [s] whose bytes satisfy [p], and the
    rest: the [for i < len(s) && p(s[i]) { i++ }] idiom. *)
Fixpoint span (p : ascii -> bool) (s : string) : string * string :=
  match s with
  | EmptyString => ("", "")
  | String c s' => if p c then (String c (span p s').1, (span p s').2) else ("", s)
  end.

(** The first byte of [s], if any, does not satisfy [p]. *)
Definition stops (p : ascii -> bool) (s : string) : Prop :=
  match s with EmptyString => True | String c _ => p c = false end.

Lemma string_forall_app p a b :
  string_forall p (a +:+ b) = string_forall p a && string_forall p b.
Proof. induction a; cbn; [done|]. rewrite IHa. by destruct (p a). Qed.

Lemma string_forall_impl (p q : ascii -> bool) s :
  (forall c, p c = true -> q c = true) -> string_forall p s = true -> string_forall q s = true.
Proof.
  intros Hpq; induction s as [|c s IH]; cbn; [done|].
  rewrite !andb_true_iff; intuition.
Qed.

Lemma span_app p s : (span p s).1 +:+ (span p s).2 = s.
Proof. induction s as [|c s IH]; cbn; [done|]. destruct (p c); cbn; congruence. Qed.
Lemma span_forall p s : string_forall p (span p s).1 = true.
Proof. induction s as [|c s IH]; cbn; [done|]. destruct (p c) eqn:E; cbn; [by rewrite E|done]. Qed.
Lemma span_stops p s : stops p (span p s).2.
Proof. induction s as [|c s IH]; cbn; [done|]. destruct (p c) eqn:E; cbn; done. Qed.
Lemma span_length p s :
  String.length s = (String.length (span p s).1 + String.length (span p s).2)%nat.
Proof. rewrite <- string_length_app. by rewrite span_app. Qed.
Lemma span_exact p a b :
  string_forall p a = true -> stops p b -> span p (a +:+ b) = (a, b).
Proof.
  induction a as [|c a IH]; cbn.
  - intros _ Hb. destruct b as [|c b]; cbn in *; [done|]. by rewrite Hb.
  - intros [-> Ha]%andb_true_iff Hb. by rewrite IH.
Qed.

(** ** Lists *)

(** The elements of [l] at which a boolean key function is true come first-to-
    last in the order of [l]; used for deduplicating appends. *)
Lemma existsb_elem {A} (f : A -> bool) l :
  existsb f l = true <-> exists x, x ∈ l /\ f x = true.
Proof.
  rewrite existsb_exists. by setoid_rewrite list_elem_of_In.
Qed.

Lemma existsb_false_elem {A} (f : A -> bool) l :
  existsb f l = false <-> forall x, x ∈ l -> f x = false.
Proof.
  rewrite <- not_true_iff_false, existsb_elem. split.
  - intros H x Hx. apply not_true_iff_false. intros ?. eauto.
  - intros H (x & Hx & Hf). apply H in Hx. congruence.
Qed.

(** ** Stable sorting

    [sort.SliceStable] with a strict order [lt]: the insertion sort below is
    stable, and stability makes the result unique. *)
Section Sorting.
Context {A : Type} (lt : A -> A -> bool).

Fixpoint insert_by (x : A) (l : list A) : list A :=
  match l with
  | [] => [x]
  | y :: l' => if lt y x then y :: insert_by x l' else x :: l
  end.
Definition sort_by (l : list A) : list A := fold_right insert_by [] l.

(** No element is strictly below an earlier one. *)
Definition sorted_by : list A -> Prop := Sorted.StronglySorted (fun x y => lt y x = false).

Lemma insert_by_perm x l : insert_by x l ≡ₚ x :: l.
Proof.
  induction l as [|y l IH]; cbn; [done|]. destruct (lt y x); [|done]. rewrite IH. apply Permutation_swap.
Qed.
Lemma sort_by_perm l : sort_by l ≡ₚ l.
Proof. induction l as [|x l IH]; cbn; [done|]. by rewrite insert_by_perm, IH. Qed.

Hypothesis lt_asym : forall x y, lt x y = true -> lt y x = false.
Hypothesis lt_ntrans : forall x y z, lt y x = false -> lt z y = false -> lt z x = false.

Lemma insert_by_sorted x l : sorted_by l -> sorted_by (insert_by x l).
Proof.
  unfold sorted_by. induction 1 as [|y l Hl IH Hy]; cbn; [by constructor; constructor|].
  destruct (lt y x) eqn:E.
  - constructor; [done|]. rewrite List.Forall_forall in *. intros z Hz.
    apply list_elem_of_In in Hz. rewrite insert_by_perm in Hz.
    apply elem_of_cons in Hz as [->|Hz]; [by apply lt_asym|]. apply Hy. by apply list_elem_of_In.
  - constructor; [by constructor|]. constructor; [done|]. rewrite List.Forall_forall in *.
    intros z Hz. eapply lt_ntrans; [exact E|]. by apply Hy.
Qed.
Lemma sort_by_sorted l : sorted_by (sort_by l).
Proof. induction l; cbn; [constructor|]. by apply insert_by_sorted. Qed.
End Sorting.

(** ** Lookups in lists of keys *)

Lemma max_list_elem (l : list nat) x : x ∈ l -> (x <= fold_right Nat.max 0 l)%nat.
Proof. induction 1; cbn; lia. Qed.
Lemma forallb_elem {A} (p : A -> bool) l x : forallb p l = true -> x ∈ l -> p x = true.
Proof. intros H Hx. rewrite forallb_forall in H. apply H. by apply list_elem_of_In. Qed.

(** Go's [<] on strings and its total order. *)
Lemma string_ltb_le x y : String.ltb y x = false <-> String.le x y.
Proof.
  unfold String.le, String.leb, String.ltb. rewrite (String.compare_antisym y x).
  by destruct (String.compare x y).
Qed.
Lemma string_ltb_asym x y : String.ltb x y = true -> String.ltb y x = false.
Proof. unfold String.ltb. rewrite (String.compare_antisym y x). by destruct (String.compare x y). Qed.
Lemma string_ltb_ntrans x y z :
  String.ltb y x = false -> String.ltb z y = false -> String.ltb z x = false.
Proof. rewrite !string_ltb_le. intros. by transitivity y. Qed.
Lemma string_ltb_total x y : x <> y -> String.ltb x y = false -> String.ltb y x = true.
Proof.
  intros Hne. unfold String.ltb. rewrite (String.compare_antisym y x).
  destruct (String.compare x y) eqn:E; cbn; try done. by apply String.compare_eq_iff in E.
Qed.

(** Updating an element of a weighted list. *)
Lemma sum_list_insert {A} (weight : A -> nat) (l : list A) i x y : l !! i = Some x ->
  (sum_list (map weight (<[i := y]> l)) + weight x = sum_list (map weight l) + weight y)%nat.
Proof.
  revert i. induction l as [|z l IH]; intros i Hi; [done|]. destruct i as [|i]; cbn in Hi.
  - injection Hi as ->. change (<[0%nat := y]> (x :: l)) with (y :: l). rewrite !map_cons.
    change (weight y + sum_list (map weight l) + weight x = weight x + sum_list (map weight l) + weight y)%nat. lia.
  - specialize (IH i Hi). change (<[S i := y]> (z :: l)) with (z :: <[i := y]> l). rewrite !map_cons.
    change (weight z + sum_list (map weight (<[i := y]> l)) + weight x = weight z + sum_list (map weight l) + weight y)%nat. lia.
Qed.

Lemma elem_of_concat_map {A C} (f : A -> list C) l y :
  y ∈ List.concat (map f l) <-> exists x, x ∈ l /\ y ∈ f x.
Proof.
  induction l as [|x l IH]; cbn; [set_solver|]. rewrite elem_of_app, IH. set_solver.
Qed.

(** ** Gathering by key

    The loops that gather the elements of a slice by a key, in a map and a slice of the
    keys: CoalesceMutations, GroupMutationsByJob, FindDuplicateCandidateGroups. *)

(** The keys in the order in which they were first seen, and what is gathered for
    each. *)
Section GroupBy.
Context {K A B : Type} `{Countable K} (key : A -> K) (init : A -> B) (update : B -> A -> B).

Definition group_step (acc : list K * gmap K B) (a : A) : list K * gmap K B :=
  let '(orderedKeys, byKey) := acc in
  match byKey !! key a with
  | Some current => (orderedKeys, <[key a := update current a]> byKey)
  | None => (orderedKeys ++ [key a], <[key a := update (init a) a]> byKey)
  end.

Definition group_by (l : list A) : list B :=
  let '(orderedKeys, byKey) := fold_left group_step l ([], ∅) in omap (fun k => byKey !! k) orderedKeys.
End GroupBy.

Section GroupByProofs.
Context {K A B : Type} `{Countable K} (key : A -> K) (init : A -> B) (update : B -> A -> B).

Definition with_key (k : K) (l : list A) : list A := List.filter (fun a => bool_decide (key a = k)) l.

(** What is gathered for a key: the updates by its elements, in their order. *)
Definition gathered (l : list A) : option B :=
  match l with [] => None | a :: _ => Some (fold_left update l (init a)) end.

Lemma gathered_snoc l a : gathered (l ++ [a]) = Some (update (default (init a) (gathered l)) a).
Proof. destruct l as [|x l]; [done|]. cbn [gathered app]. change (x :: l ++ [a]) with ((x :: l) ++ [a]). by rewrite fold_left_app. Qed.

Lemma with_key_snoc k l a : with_key k (l ++ [a]) = with_key k l ++ (if bool_decide (key a = k) then [a] else []).
Proof. unfold with_key. rewrite filter_app. cbn. by case_bool_decide. Qed.

Lemma with_key_nil k l : k ∉ map key l -> with_key k l = [].
Proof.
  induction l as [|a l IH]; [done|]. cbn. intros Hk. rewrite bool_decide_eq_false_2; [apply IH|]; intros Hin; apply Hk; [by right|].
  rewrite Hin. left.
Qed.

Lemma fold_group l : let '(ks, m) := fold_left (group_step key init update) l ([], ∅) in
  base.NoDup ks /\ (forall k, k ∈ ks <-> k ∈ map key l) /\ forall k, m !! k = gathered (with_key k l).
Proof.
  induction l as [|a l IH] using rev_ind; [cbn; split_and!; [constructor|done|intros k; by rewrite lookup_empty]|].
  rewrite fold_left_app. cbn [fold_left]. destruct (fold_left _ l _) as [ks m]. destruct IH as (Hnd & Hin & Hm).
  cbn [group_step]. rewrite map_app. cbn [map].
  assert (forall k b, <[key a := b]> m !! k = if bool_decide (key a = k) then Some b else gathered (with_key k l)) as Hlk.
  { intros k b. case_bool_decide as Hk; [subst k; apply lookup_insert_eq|]. by rewrite lookup_insert_ne. }
  assert (forall b, b = update (default (init a) (gathered (with_key (key a) l))) a ->
    forall k, <[key a := b]> m !! k = gathered (with_key k (l ++ [a]))) as Hnew.
  { intros b -> k. rewrite Hlk, with_key_snoc. case_bool_decide as Hk; [subst k; by rewrite gathered_snoc|by rewrite app_nil_r]. }
  destruct (m !! key a) as [current|] eqn:Ea; (split_and!; [|intros k; rewrite ?elem_of_app, Hin; cbn|apply Hnew; by rewrite <- Hm, Ea]).
  - done.
  - assert (key a ∈ map key l) as Hka.
    { destruct (decide (key a ∈ map key l)) as [|Hn]; [done|]. rewrite Hm, (with_key_nil _ _ Hn) in Ea. done. }
    split; [auto|]. intros [|Hk%list_elem_of_singleton]; [done|]. by subst k.
  - apply list.NoDup_app. split_and!; [done| |apply list.NoDup_singleton]. intros k Hk Hs%list_elem_of_singleton. subst k.
    apply Hin in Hk. rewrite Hm in Ea. apply list_elem_of_fmap in Hk as (b & Hb & Hbl).
    assert (b ∈ with_key (key a) l) as Hw by (unfold with_key; apply list_elem_of_In, filter_In; split; [by apply list_elem_of_In|by apply bool_decide_eq_true]).
    destruct (with_key (key a) l); [by apply elem_of_nil in Hw|done].
  - done.
Qed.

(** The groups are those of the keys of the list. *)
Lemma group_by_eq l : exists ks, base.NoDup ks /\ (forall k, k ∈ ks <-> k ∈ map key l) /\
  group_by key init update l = omap (fun k => gathered (with_key k l)) ks.
Proof.
  unfold group_by. pose proof (fold_group l) as Hf. destruct (fold_left _ l _) as [ks m]. destruct Hf as (Hnd & Hin & Hm).
  exists ks. split_and!; [done|done|]. clear Hnd Hin. induction ks as [|k ks IH]; [done|]. cbn. by rewrite Hm, IH.
Qed.

Lemma with_key_concat ks l : base.NoDup ks -> (forall a, a ∈ l -> key a ∈ ks) -> List.concat (map (fun k => with_key k l) ks) ≡ₚ l.
Proof.
  intros Hnd. induction l as [|a l IH]; intros Hin; [clear; by induction ks|].
  assert (key a ∈ ks) as Ha by (apply Hin; left). apply list_elem_of_split in Ha as (k1 & k2 & ->).
  apply list.NoDup_app in Hnd as Hnd'. destruct Hnd' as (_ & Hn1 & Hn2). apply list.NoDup_cons in Hn2 as [Hn2 _].
  assert (forall k0, key a ∉ k0 -> map (fun k => with_key k (a :: l)) k0 = map (fun k => with_key k l) k0) as Hsame.
  { intros k0 Hk0. induction k0 as [|k k0 IHk]; [done|]. cbn [map]. rewrite IHk by set_solver. f_equal. unfold with_key. cbn.
    rewrite bool_decide_eq_false_2; [done|]. intros <-. apply Hk0. left. }
  rewrite map_app, List.concat_app. cbn [map List.concat]. rewrite !Hsame; [|done|set_solver].
  assert (with_key (key a) (a :: l) = a :: with_key (key a) l) as -> by (unfold with_key; cbn; by rewrite bool_decide_eq_true_2).
  rewrite <- app_comm_cons, <- Permutation_middle. apply perm_skip.
  etransitivity; [|apply IH; intros; apply Hin; by right]. by rewrite map_app, List.concat_app.
Qed.

Lemma elem_of_group_by l b : b ∈ group_by key init update l <-> exists k, gathered (with_key k l) = Some b.
Proof.
  destruct (group_by_eq l) as (ks & _ & Hks & ->). rewrite list_elem_of_omap. split; [naive_solver|].
  intros [k Hk]. exists k. split; [|done]. apply Hks. destruct (decide (k ∈ map key l)) as [|Hn]; [done|].
  by rewrite (with_key_nil _ _ Hn) in Hk.
Qed.

Lemma with_key_self l a : a ∈ l -> a ∈ with_key (key a) l.
Proof. intros Ha. apply list_elem_of_In, filter_In. split; [by apply list_elem_of_In|by apply bool_decide_eq_true]. Qed.

(** A field of the groups that the updates build from the elements. *)
Lemma group_by_field {F} (field : B -> list F) (items : A -> list F) l :
  (forall l a, field (fold_left update l (init a)) = List.concat (map items l)) ->
  List.concat (map field (group_by key init update l)) ≡ₚ List.concat (map items l).
Proof.
  intros Hf. destruct (group_by_eq l) as (ks & Hnd & Hks & ->).
  transitivity (List.concat (map items (List.concat (map (fun k => with_key k l) ks)))).
  - rewrite List.concat_map, List.map_map. clear Hnd Hks. induction ks as [|k ks IH]; [done|]. cbn [omap list_omap map List.concat].
    rewrite List.concat_app, <- IH. destruct (with_key k l) as [|a l'] eqn:E; [done|]. cbn [gathered map List.concat]. by rewrite Hf.
  - rewrite <- !(flat_map_concat_map items). apply Permutation_flat_map, with_key_concat; [done|].
    intros a Ha. apply Hks, list_elem_of_fmap. by exists a.
Qed.
End GroupByProofs.

(** ** Lists without duplicates *)

Lemma NoDup_map_filter {A B} (f : A -> B) p l : base.NoDup (map f l) -> base.NoDup (map f (List.filter p l)).
Proof.
  induction l as [|a l IH]; cbn; [done|]. intros [Ha Hl]%list.NoDup_cons. destruct (p a); [|auto]. cbn.
  apply list.NoDup_cons. split; [|auto]. intros Hin. apply Ha. apply list_elem_of_fmap in Hin as (b & -> & Hb).
  apply list_elem_of_fmap_2. apply list_elem_of_In, filter_In in Hb as [Hb _]. by apply list_elem_of_In.
Qed.

Lemma NoDup_map_inj {A B} (f : A -> B) l x y : base.NoDup (map f l) -> x ∈ l -> y ∈ l -> f x = f y -> x = y.
Proof.
  induction l as [|a l IH]; cbn; [by intros _ ?%elem_of_nil|]. intros [Ha Hl]%list.NoDup_cons Hx Hy Hf.
  apply elem_of_cons in Hx as [->|Hx], Hy as [->|Hy]; [done| | |auto].
  - destruct Ha. rewrite Hf. by apply list_elem_of_fmap_2.
  - destruct Ha. rewrite <- Hf. by apply list_elem_of_fmap_2.
Qed.

