(* ===== verification/GoStrings.v ===== *)
(** * GoStrings

    What the sources use of Go's [unicode], [strings] and [strconv] packages,
    on byte strings: a Go [string] is a Rocq [string] of bytes. *)
From S2P Require Import Prelude.
Local Open Scope Z_scope.

(** ** Bytes *)

Definition byte (c : ascii) : Z := Z.of_N (N_of_ascii c).
Definition byte_of (z : Z) : ascii := ascii_of_N (Z.to_N z).
Definition in_range (lo hi : Z) (c : ascii) : bool := (lo <=? byte c) && (byte c <=? hi).

(** [unicode.IsSpace], [IsDigit] and [IsLetter] on the runes U+0000..U+00FF
    that the lexer obtains as [rune(input[i])]. *)
Definition IsSpace (c : ascii) : bool :=
  in_range 9 13 c || (byte c =? 32) || (byte c =? 133) || (byte c =? 160).
Definition IsDigit (c : ascii) : bool := in_range 48 57 c.
Definition IsLetter (c : ascii) : bool :=
  in_range 65 90 c || in_range 97 122 c
  || (byte c =? 170) || (byte c =? 181) || (byte c =? 186)
  || in_range 192 214 c || in_range 216 246 c || in_range 248 255 c.

Lemma byte_range c : 0 <= byte c < 256.
Proof. unfold byte. pose proof (N_ascii_bounded c). lia. Qed.

Lemma byte_of_byte c : byte_of (byte c) = c.
Proof. unfold byte_of, byte. by rewrite N2Z.id, ascii_N_embedding. Qed.

Lemma byte_byte_of z : 0 <= z < 256 -> byte (byte_of z) = z.
Proof.
  intros Hz. unfold byte_of, byte. rewrite N_ascii_embedding by lia. lia.
Qed.

Lemma byte_inj c d : byte c = byte d -> c = d.
Proof. intros H. by rewrite <- (byte_of_byte c), H, byte_of_byte. Qed.

(** [forall_from n z p]: [p] holds of z, ..., z + n - 1; [forall_below n p]:
    of 0, ..., n - 1. *)
Fixpoint forall_from (n : nat) (z : Z) (p : Z -> bool) : bool :=
  match n with O => true | S n => p z && forall_from n (z + 1) p end.
Definition forall_below (n : Z) (p : Z -> bool) : bool := forall_from (Z.to_nat n) 0 p.

Lemma forall_from_spec n lo p z :
  forall_from n lo p = true -> lo <= z < lo + Z.of_nat n -> p z = true.
Proof.
  revert lo; induction n as [|n IH]; intros lo; cbn [forall_from]; [lia|].
  intros [Hp Hn]%andb_true_iff Hz.
  destruct (Z.eq_dec z lo) as [->|]; [done|apply (IH (lo + 1)); [done|lia]].
Qed.

Lemma forall_below_spec n p z : forall_below n p = true -> 0 <= z < n -> p z = true.
Proof. intros H Hz. apply (forall_from_spec _ _ _ z H). lia. Qed.

(** A decidable property of bytes is checked by evaluating it on all 256. *)
Lemma forall_byte (p : ascii -> bool) :
  forall_below 256 (fun z => p (byte_of z)) = true -> forall c, p c = true.
Proof.
  intros H c. rewrite <- (byte_of_byte c).
  apply (forall_below_spec _ _ (byte c) H). apply byte_range.
Qed.

(** ** Trimming *)

(** ASCII white space, and the UTF-8 encodings of the other [unicode.IsSpace]
    runes: U+0085, U+00A0, U+1680, U+2000..200A, U+2028/9, U+202F, U+205F,
    U+3000. *)
Definition space1 (a : ascii) : bool := in_range 9 13 a || (byte a =? 32).
Definition space2 (a b : ascii) : bool :=
  (byte a =? 194) && ((byte b =? 133) || (byte b =? 160)).
Definition space3 (a b c : ascii) : bool :=
  ((byte a =? 225) && (byte b =? 154) && (byte c =? 128))
  || ((byte a =? 226) && (byte b =? 128)
        && (in_range 128 138 c || (byte c =? 168) || (byte c =? 169) || (byte c =? 175)))
  || ((byte a =? 226) && (byte b =? 129) && (byte c =? 159))
  || ((byte a =? 227) && (byte b =? 128) && (byte c =? 128)).

Fixpoint trimLeft (s : string) : string :=
  match s with
  | String a s1 =>
      if space1 a then trimLeft s1
      else match s1 with
           | String b s2 =>
               if space2 a b then trimLeft s2
               else match s2 with
                    | String c s3 => if space3 a b c then trimLeft s3 else s
                    | EmptyString => s
                    end
           | EmptyString => s
           end
  | EmptyString => EmptyString
  end.

(** Drop the longest suffix made of white space only. *)
Fixpoint trimRight (s : string) : string :=
  match s with
  | EmptyString => EmptyString
  | String c s' => if String.eqb (trimLeft s) "" then "" else String c (trimRight s')
  end.

Definition TrimSpace (s : string) : string := trimRight (trimLeft s).

(** ** Case folding against ASCII strings

    Of the non-ASCII runes only U+0130 and U+212A have an ASCII lower case
    ("i" and "k"), and only U+017F and U+212A fold to an ASCII letter ("s" and
    "k").  Other non-ASCII bytes are left alone: [ToLower] and [foldASCII] agree
    with Go on every comparison with an ASCII string, the only use made of
    them. *)
Definition lower (c : ascii) : ascii :=
  if in_range 65 90 c then byte_of (byte c + 32) else c.

Fixpoint ToLower (s : string) : string :=
  match s with
  | EmptyString => EmptyString
  | String a s1 =>
      match s1 with
      | String b s2 =>
          if (byte a =? 196) && (byte b =? 176) then String "i" (ToLower s2)
          else match s2 with
               | String c s3 =>
                   if (byte a =? 226) && (byte b =? 132) && (byte c =? 170)
                   then String "k" (ToLower s3)
                   else String (lower a) (ToLower s1)
               | EmptyString => String (lower a) (ToLower s1)
               end
      | EmptyString => String (lower a) EmptyString
      end
  end.

Fixpoint foldASCII (s : string) : string :=
  match s with
  | EmptyString => EmptyString
  | String a s1 =>
      match s1 with
      | String b s2 =>
          if (byte a =? 197) && (byte b =? 191) then String "s" (foldASCII s2)
          else match s2 with
               | String c s3 =>
                   if (byte a =? 226) && (byte b =? 132) && (byte c =? 170)
                   then String "k" (foldASCII s3)
                   else String (lower a) (foldASCII s1)
               | EmptyString => String (lower a) (foldASCII s1)
               end
      | EmptyString => String (lower a) EmptyString
      end
  end.

(** [strings.EqualFold(s, t)] for an ASCII [t]. *)
Definition EqualFold (s t : string) : bool := String.eqb (foldASCII s) (foldASCII t).

#[global] Arguments EqualFold : simpl never.
#[global] Arguments IsDigit : simpl never.
#[global] Arguments IsLetter : simpl never.
#[global] Arguments IsSpace : simpl never.

(** ** Searching and splitting *)

Definition HasPrefix (s pre : string) : bool := String.prefix pre s.

Fixpoint Contains (s sub : string) : bool :=
  String.prefix sub s ||
  match s with EmptyString => false | String _ s' => Contains s' sub end.

Fixpoint dropPrefix (pre s : string) : option string :=
  match pre, s with
  | EmptyString, _ => Some s
  | String a pre, String b s => if Ascii.eqb a b then dropPrefix pre s else None
  | _, _ => None
  end.

Definition TrimPrefix (s pre : string) : string :=
  match dropPrefix pre s with Some r => r | None => s end.

(** [strings.TrimSuffix(s, "/")] and friends, for a one-byte suffix. *)
Fixpoint TrimSuffix1 (s : string) (c : ascii) : string :=
  match s with
  | EmptyString => EmptyString
  | String a EmptyString => if Ascii.eqb a c then EmptyString else s
  | String a s' => String a (TrimSuffix1 s' c)
  end.

(** [strings.Split(s, sep)] for a one-byte separator. *)
Fixpoint Split (sep : ascii) (s : string) : list string :=
  match s with
  | EmptyString => [""]
  | String c s' =>
      if Ascii.eqb c sep then "" :: Split sep s'
      else match Split sep s' with
           | [] => [String c ""]
           | p :: ps => String c p :: ps
           end
  end.

Definition Join (l : list string) (sep : string) : string := String.concat sep l.

(** ** Decimal numbers *)

Definition digit_char (d : Z) : ascii := byte_of (48 + d).
Definition digit_val (c : ascii) : Z := byte c - 48.

Fixpoint dec_acc (acc : Z) (s : string) : Z :=
  match s with
  | EmptyString => acc
  | String c s => dec_acc (10 * acc + digit_val c) s
  end.
Definition dec_value (s : string) : Z := dec_acc 0 s.

(** A non-empty string of ASCII digits. *)
Definition is_digits (s : string) : bool :=
  negb (String.eqb s "") && string_forall IsDigit s.

(** [strconv.ParseUint(s, 10, bits)]. *)
Definition ParseUint (s : string) (bits : Z) : option Z :=
  if is_digits s && (dec_value s <? 2 ^ bits) then Some (dec_value s) else None.

(** [strconv.ParseInt(s, 10, 64)], and [strconv.Atoi] on a 64-bit platform. *)
Definition ParseInt64 (s : string) : option Z :=
  match s with
  | String c s' =>
      if byte c =? 45 (* - *) then
        if is_digits s' && (dec_value s' <=? 2 ^ 63) then Some (- dec_value s') else None
      else let body := if byte c =? 43 (* + *) then s' else s in
           if is_digits body && (dec_value body <? 2 ^ 63) then Some (dec_value body) else None
  | EmptyString => None
  end.

(** Decimal digits of a non-negative number, in front of [acc]. *)
Fixpoint dec_digits (fuel : nat) (n : Z) (acc : string) : string :=
  match fuel with
  | O => acc
  | S fuel =>
      let acc := String (digit_char (n mod 10)) acc in
      if n <? 10 then acc else dec_digits fuel (n / 10) acc
  end.

(** [fmt.Sprintf("%d", n)]. *)
Definition itoa (n : Z) : string :=
  if n <? 0 then "-" +:+ dec_digits (S (Z.to_nat (Z.log2 (- n)))) (- n) ""
  else dec_digits (S (Z.to_nat (Z.log2 n))) n "".

(** [fmt.Sprintf("%0*d", width, n)] for a non-negative [n]. *)
Fixpoint zeros (n : nat) : string :=
  match n with O => "" | S n => String "0" (zeros n) end.
Definition pad_itoa (width : nat) (n : Z) : string :=
  zeros (width - String.length (itoa n)) +:+ itoa n.

(** ** Lemmas *)

Lemma digit_char_digit d : 0 <= d < 10 -> IsDigit (digit_char d) = true.
Proof.
  intros Hd. unfold IsDigit, in_range, digit_char. rewrite byte_byte_of by lia.
  rewrite andb_true_iff, !Z.leb_le. lia.
Qed.

Lemma digit_val_char d : 0 <= d < 10 -> digit_val (digit_char d) = d.
Proof. intros Hd. unfold digit_val, digit_char. rewrite byte_byte_of by lia. lia. Qed.

Lemma IsDigit_val c : IsDigit c = true -> 0 <= digit_val c < 10.
Proof.
  unfold IsDigit, in_range, digit_val. rewrite andb_true_iff, !Z.leb_le. lia.
Qed.

Lemma dec_acc_app acc a b : dec_acc acc (a +:+ b) = dec_acc (dec_acc acc a) b.
Proof. revert acc; induction a as [|c a IH]; intros acc; cbn; [done|apply IH]. Qed.

Lemma dec_acc_nonneg acc s : 0 <= acc -> string_forall IsDigit s = true -> 0 <= dec_acc acc s.
Proof.
  revert acc; induction s as [|c s IH]; intros acc Ha; cbn; [done|].
  intros [Hc Hs]%andb_true_iff. apply IH; [|done]. apply IsDigit_val in Hc. lia.
Qed.

Lemma dec_value_nonneg s : is_digits s = true -> 0 <= dec_value s.
Proof. intros [_ H]%andb_true_iff. by apply dec_acc_nonneg. Qed.

Lemma log2_div10 n : 10 <= n -> Z.log2 (n / 10) < Z.log2 n.
Proof.
  intros Hn. apply Z.lt_le_trans with (Z.log2 (n / 2)).
  - assert (2 * (n / 10) <= n / 2) by (apply Z.div_le_lower_bound; [lia|];
      pose proof (Z.mul_div_le n 10); lia).
    assert (0 < n / 10) by (apply Z.div_str_pos; lia).
    apply Z.lt_le_trans with (Z.log2 (2 * (n / 10))).
    + rewrite Z.log2_double by lia. lia.
    + by apply Z.log2_le_mono.
  - apply Z.log2_le_mono. apply Z.div_le_upper_bound; lia.
Qed.

(** [dec_digits] writes the value of [n] in front of [acc], in digits only. *)
Lemma dec_digits_spec fuel n acc :
  0 <= n -> Z.log2 n < Z.of_nat fuel ->
  exists ds, dec_digits fuel n acc = ds +:+ acc /\ is_digits ds = true /\ dec_value ds = n.
Proof.
  revert n acc; induction fuel as [|fuel IH]; intros n acc Hn Hf.
  { pose proof (Z.log2_nonneg n). lia. }
  cbn [dec_digits]. pose proof (Z.mod_pos_bound n 10 ltac:(lia)) as Hm.
  destruct (Z.ltb_spec n 10) as [Hlt|Hge].
  - exists (String (digit_char (n mod 10)) ""). split; [done|].
    unfold is_digits, dec_value; cbn. rewrite digit_char_digit, digit_val_char by done.
    split; [done|]. rewrite Z.mod_small; lia.
  - pose proof (log2_div10 n Hge).
    destruct (IH (n / 10) (String (digit_char (n mod 10)) acc)) as (ds & -> & Hds & Hv).
    { apply Z.div_pos; lia. } { lia. }
    exists (ds +:+ String (digit_char (n mod 10)) ""). split; [|split].
    + by rewrite string_app_assoc.
    + unfold is_digits in *. apply andb_true_iff in Hds as [Hne Hds].
      rewrite string_forall_app, Hds. cbn. rewrite digit_char_digit by done.
      destruct ds; done.
    + unfold dec_value in *. rewrite dec_acc_app, Hv. cbn.
      rewrite digit_val_char by done. pose proof (Z.div_mod n 10). lia.
Qed.

Lemma itoa_spec n : 0 <= n -> is_digits (itoa n) = true /\ dec_value (itoa n) = n.
Proof.
  intros Hn. unfold itoa. destruct (Z.ltb_spec n 0); [lia|].
  destruct (dec_digits_spec (S (Z.to_nat (Z.log2 n))) n "") as (ds & -> & H1 & H2); [lia| |].
  { pose proof (Z.log2_nonneg n). lia. }
  by rewrite string_app_nil_r.
Qed.

Lemma zeros_digits k : string_forall IsDigit (zeros k) = true.
Proof. induction k; cbn; auto. Qed.
Lemma zeros_value k : dec_value (zeros k) = 0.
Proof. unfold dec_value. induction k; cbn; auto. Qed.

Lemma pad_itoa_spec w n :
  0 <= n -> is_digits (pad_itoa w n) = true /\ dec_value (pad_itoa w n) = n.
Proof.
  intros Hn. destruct (itoa_spec n Hn) as [Hd Hv]. unfold pad_itoa.
  unfold is_digits in *. apply andb_true_iff in Hd as [Hne Hd]. split.
  - rewrite string_forall_app, zeros_digits, Hd.
    destruct (zeros _); cbn; [by destruct (itoa n)|done].
  - unfold dec_value in *. rewrite dec_acc_app.
    pose proof (zeros_value (w - String.length (itoa n))) as H0. unfold dec_value in H0.
    by rewrite H0.
Qed.

Lemma ParseUint_itoa w n bits :
  0 <= n < 2 ^ bits -> ParseUint (pad_itoa w n) bits = Some n.
Proof.
  intros Hn. destruct (pad_itoa_spec w n) as [Hd Hv]; [lia|].
  unfold ParseUint. rewrite Hd, Hv. cbn. by rewrite (proj2 (Z.ltb_lt _ _)) by lia.
Qed.

Lemma ParseUint_Some s bits n :
  ParseUint s bits = Some n -> is_digits s = true /\ n = dec_value s /\ 0 <= n < 2 ^ bits.
Proof.
  unfold ParseUint. destruct (is_digits s) eqn:Hd; cbn; [|done].
  destruct (Z.ltb_spec (dec_value s) (2 ^ bits)); [|done].
  intros [= <-]. pose proof (dec_value_nonneg s Hd). auto.
Qed.

Lemma is_digits_head s : is_digits s = true -> exists c s', s = String c s' /\ IsDigit c = true.
Proof.
  unfold is_digits. rewrite andb_true_iff. intros [Hne Hs].
  destruct s as [|c s]; [done|]. cbn in Hs. apply andb_true_iff in Hs as [Hc _]. eauto.
Qed.

Lemma ParseInt64_digits s :
  is_digits s = true ->
  ParseInt64 s = if dec_value s <? 2 ^ 63 then Some (dec_value s) else None.
Proof.
  intros Hd. destruct (is_digits_head s Hd) as (c & s' & -> & Hc).
  unfold ParseInt64. apply IsDigit_val in Hc. unfold digit_val in Hc.
  rewrite (proj2 (Z.eqb_neq _ _)) by lia. rewrite (proj2 (Z.eqb_neq _ 43)) by lia.
  by rewrite Hd.
Qed.

(** [Split] on strings without the separator, and its inverse [Join]. *)
Lemma Split_nonempty sep s : Split sep s <> [].
Proof. destruct s; cbn; [done|]. case_match; [done|]. by destruct (Split sep s). Qed.

Lemma Split_no_sep sep s :
  string_forall (fun c => negb (Ascii.eqb c sep)) s = true -> Split sep s = [s].
Proof.
  induction s as [|c s IH]; cbn; [done|]. intros [Hc Hs]%andb_true_iff.
  apply negb_true_iff in Hc. rewrite Hc. by rewrite IH.
Qed.

Lemma Split_cons sep a s :
  string_forall (fun c => negb (Ascii.eqb c sep)) a = true ->
  Split sep (a +:+ String sep s) = a :: Split sep s.
Proof.
  induction a as [|c a IH]; cbn.
  - by rewrite Ascii.eqb_refl.
  - intros [Hc Hs]%andb_true_iff. apply negb_true_iff in Hc. rewrite Hc. by rewrite IH.
Qed.

Lemma Split_Join sep s : Join (Split sep s) (String sep "") = s.
Proof.
  unfold Join. induction s as [|c s IH]; cbn; [done|].
  destruct (Ascii.eqb_spec c sep) as [->|Hc].
  - destruct (Split sep s) as [|p ps] eqn:E; [by apply Split_nonempty in E|].
    cbn in *. by rewrite IH.
  - destruct (Split sep s) as [|p ps] eqn:E; [by apply Split_nonempty in E|].
    destruct ps; cbn in *; by rewrite IH.
Qed.

Lemma digits_no_char s c :
  is_digits s = true -> IsDigit c = false ->
  string_forall (fun d => negb (Ascii.eqb d c)) s = true.
Proof.
  intros [_ Hs]%andb_true_iff Hc. eapply string_forall_impl; [|exact Hs].
  intros d Hd. destruct (Ascii.eqb_spec d c); [congruence|done].
Qed.

