(* ===== verification/GoFloat.v ===== *)
(** * GoFloat

    Go's float64 as [SpecFloat] values at precision 53, maximal exponent 1024,
    and [strconv.ParseFloat] on the decimals the sources pass to it. *)
From S2P Require Import Prelude GoStrings.
From Stdlib Require Export SpecFloat.
Local Open Scope Z_scope.

Definition prec64 : Z := 53.
Definition emax64 : Z := 1024.

Definition spec_float_eq_dec (a b : spec_float) : {a = b} + {a <> b}.
Proof. repeat decide equality. Defined.
#[export] Instance spec_float_EqDecision : EqDecision spec_float := spec_float_eq_dec.

(** A not yet rounded value: the mantissa is exact and may have any length. *)
Definition exact (neg : bool) (m : Z) : spec_float :=
  match m with
  | Zpos p => S754_finite neg p 0
  | _ => S754_zero neg
  end.

(** [float64(n)] of an integer: the conversion rounds to nearest even. *)
Definition float_of_Z (n : Z) : spec_float :=
  match n with
  | Z0 => S754_zero false
  | Zpos p => binary_round prec64 emax64 false p 0
  | Zneg p => binary_round prec64 emax64 true p 0
  end.

(** The float64 nearest to [m / 10^k]: the division rounds once, whatever the
    length of the mantissas. *)
Definition float_of_decimal (neg : bool) (m : Z) (k : nat) : spec_float :=
  SFdiv prec64 emax64 (exact neg m) (exact false (10 ^ Z.of_nat k)).

(** [strconv.ParseFloat(s, 64)] of digits, a point and digits; [None] is the
    range error. *)
Definition ParseFloat (s : string) : option spec_float :=
  let '(whole, rest) := span IsDigit s in
  match rest with
  | String c fraction =>
      if Ascii.eqb c "." && is_digits whole && is_digits fraction then
        match float_of_decimal false (dec_value (whole +:+ fraction)) (String.length fraction) with
        | S754_infinity _ => None
        | f => Some f
        end
      else None
  | EmptyString => None
  end.

(** An exact decimal expansion of a finite nonnegative float: [m * 2^e] with
    [e < 0] is [m * 5^(-e) / 10^(-e)]. *)
Definition format_decimal (f : spec_float) : option string :=
  match f with
  | S754_zero false => Some "0.0"
  | S754_finite false m e =>
      if 0 <=? e then Some (itoa (Zpos m * 2 ^ e) +:+ ".0")
      else
        let k := Z.to_nat (- e) in
        let n := Zpos m * 5 ^ (- e) in
        let d := 10 ^ (- e) in
        Some (itoa (n / d) +:+ "." +:+ pad_itoa k (n mod d))
  | _ => None
  end.

Example ParseFloat_half : ParseFloat "1.5" = Some (S754_finite false 6755399441055744 (-52)).
Proof. reflexivity. Qed.
Example ParseFloat_tenth :
  ParseFloat "0.1" = Some (S754_finite false 7205759403792794 (-56)).
Proof. reflexivity. Qed.
Example format_tenth :
  match ParseFloat "0.1" with
  | Some f => format_decimal f ≫= ParseFloat
  | None => None
  end = ParseFloat "0.1".
Proof. vm_compute. reflexivity. Qed.

(** ** Small integers are exact *)

Lemma digits2_shift p d : digits2_pos (Pos.iter xO p d) = (digits2_pos p + d)%positive.
Proof.
  induction d as [|d IH] using Pos.peano_ind; [cbn; lia|]. rewrite Pos.iter_succ. cbn [digits2_pos]. rewrite IH. lia.
Qed.

Lemma iter_xO_Z p d : Zpos (Pos.iter xO p d) = Zpos p * 2 ^ Zpos d.
Proof.
  induction d as [|d IH] using Pos.peano_ind; [cbn; lia|]. rewrite Pos.iter_succ, Pos2Z.inj_succ, Z.pow_succ_r by lia.
  rewrite Pos2Z.inj_xO, IH. lia.
Qed.

Lemma digits2_bound p k : 0 <= k -> Zpos p < 2 ^ k -> Zpos (digits2_pos p) <= k.
Proof.
  revert k. induction p as [p IH|p IH|]; intros k Hk Hp; cbn [digits2_pos].
  - assert (0 < k) by (destruct (Z.eq_dec k 0) as [->|]; [cbn in Hp; lia|lia]).
    replace k with (Z.succ (k - 1)) in Hp by lia. rewrite Z.pow_succ_r in Hp by lia. specialize (IH (k - 1)). lia.
  - assert (0 < k) by (destruct (Z.eq_dec k 0) as [->|]; [cbn in Hp; lia|lia]).
    replace k with (Z.succ (k - 1)) in Hp by lia. rewrite Z.pow_succ_r in Hp by lia. specialize (IH (k - 1)). lia.
  - destruct (Z.eq_dec k 0) as [->|]; [cbn in Hp; lia|lia].
Qed.

(** A mantissa of 53 digits at a normal exponent is not rounded. *)
Lemma binary_round_aux_exact s m e :
  Zpos (digits2_pos m) = 53 -> -1074 <= e <= 971 -> binary_round_aux prec64 emax64 s (Zpos m) e loc_Exact = S754_finite s m e.
Proof.
  intros Hd He. assert (fexp prec64 emax64 (53 + e) - e = 0) as Hf by (unfold fexp, emin, prec64, emax64; lia).
  unfold binary_round_aux, shr_fexp. cbn [shr_record_of_loc Zdigits2]. rewrite Hd, Hf. cbn [shr shr_m loc_of_shr_record round_nearest_even shr_record_of_loc Zdigits2].
  rewrite Hd, Hf. cbn [shr shr_m]. destruct (Z.leb_spec e (emax64 - prec64)); [done|]. unfold emax64, prec64 in *. lia.
Qed.

Lemma binary_round_small s p : Zpos p < 2 ^ 53 ->
  exists m e, binary_round prec64 emax64 s p 0 = S754_finite s m e /\ e <= 0 /\ Zpos m = Zpos p * 2 ^ (- e).
Proof.
  intros Hp. pose proof (digits2_bound p 53 ltac:(lia) Hp) as Hd. unfold binary_round, shl_align.
  assert (fexp prec64 emax64 (Zpos (digits2_pos p) + 0) - 0 = Zpos (digits2_pos p) - 53) as Hf
    by (unfold fexp, emin, prec64, emax64; lia).
  rewrite Hf. destruct (Zpos (digits2_pos p) - 53) as [|q|d] eqn:Eq; [|lia|].
  - exists p, 0. split; [|split; [lia|cbn; lia]]. apply binary_round_aux_exact; lia.
  - exists (Pos.iter xO p d), (Zneg d). replace (fexp prec64 emax64 (Zpos (digits2_pos p) + 0)) with (Zneg d) by lia.
    split; [|split; [lia|]].
    + apply binary_round_aux_exact; [rewrite digits2_shift; lia|lia].
    + change (- Zneg d) with (Zpos d). apply iter_xO_Z.
Qed.

Lemma digits2_lower p : 2 ^ (Zpos (digits2_pos p) - 1) <= Zpos p.
Proof.
  induction p as [p IH|p IH|]; cbn [digits2_pos]; [| |done];
    (replace (Zpos (Pos.succ (digits2_pos p)) - 1) with (Z.succ (Zpos (digits2_pos p) - 1)) by lia);
    rewrite Z.pow_succ_r by lia; lia.
Qed.

Lemma digits2_upper p : Zpos p < 2 ^ Zpos (digits2_pos p).
Proof. induction p as [p IH|p IH|]; cbn [digits2_pos]; rewrite ?Pos2Z.inj_succ, ?Z.pow_succ_r by lia; lia. Qed.

(** The mantissa has 53 digits. *)
Lemma binary_round_normal p : Zpos p < 2 ^ 53 ->
  exists m e, binary_round prec64 emax64 false p 0 = S754_finite false m e /\ Zpos m = Zpos p * 2 ^ (- e) /\
    e = Zpos (digits2_pos p) - 53.
Proof.
  intros Hp. pose proof (digits2_bound p 53 ltac:(lia) Hp) as Hd.
  destruct (binary_round_small false p Hp) as (m & e & E & He & Hm). exists m, e. split; [done|]. split; [done|].
  revert E. unfold binary_round, shl_align.
  assert (fexp prec64 emax64 (Zpos (digits2_pos p) + 0) - 0 = Zpos (digits2_pos p) - 53) as Hf
    by (unfold fexp, emin, prec64, emax64; lia).
  rewrite Hf. destruct (Zpos (digits2_pos p) - 53) as [|q|d] eqn:Eq; [|lia|].
  - rewrite binary_round_aux_exact by lia. intros [= <- <-]. done.
  - replace (fexp prec64 emax64 (Zpos (digits2_pos p) + 0)) with (Zneg d) by lia.
    rewrite binary_round_aux_exact by (rewrite ?digits2_shift; lia). intros [= <- <-]. done.
Qed.

(** The order of small integers. *)
Lemma float_of_Z_ltb a b : 0 <= a <= b -> b < 2 ^ 53 -> SFltb (float_of_Z b) (float_of_Z a) = false.
Proof.
  intros Hab Hb. destruct b as [|pb|]; [by assert (a = 0) as -> by lia| |lia].
  destruct (binary_round_normal pb ltac:(lia)) as (mb & eb & Eb & Hmb & Heb). cbn [float_of_Z]. rewrite Eb.
  destruct a as [|pa|]; [done| |lia].
  destruct (binary_round_normal pa ltac:(lia)) as (ma & ea & Ea & Hma & Hea). cbn [float_of_Z]. rewrite Ea.
  unfold SFltb. cbn [SFcompare].
  assert (Zpos (digits2_pos pa) <= Zpos (digits2_pos pb)) as Hd.
  { destruct (Z.le_gt_cases (Zpos (digits2_pos pa)) (Zpos (digits2_pos pb))) as [|Hlt]; [done|].
    pose proof (digits2_lower pa) as Hl.
    pose proof (digits2_upper pb). assert (2 ^ Zpos (digits2_pos pb) <= 2 ^ (Zpos (digits2_pos pa) - 1))
      by (apply Z.pow_le_mono_r; lia). lia. }
  destruct (Z.compare_spec eb ea) as [He|He|He]; [|lia|done]. rewrite He in Hmb.
  change (PosDef.Pos.compare_cont Eq mb ma) with (mb ?= ma)%positive.
  destruct (Pos.compare_spec mb ma) as [|Hlt|]; [done| |done].
  assert (Zpos ma <= Zpos mb); [|lia]. rewrite Hma, Hmb. apply Z.mul_le_mono_nonneg_r; [|lia]. apply Z.pow_nonneg. lia.
Qed.
