(* ===== verification/GoTime.v ===== *)
(** * GoTime

    What the sources use of Go's [time] package: instants, the civil calendar,
    [time.Parse] for the layouts RFC 3339 and "2006-01-02", and the formats
    RFC 3339 with nanoseconds and "2006-01-02". *)
From S2P Require Import Prelude GoStrings.
Local Open Scope Z_scope.

(** ** Instants

    A [time.Time]: seconds since the Unix epoch, nanoseconds within the second
    and the offset of its location from UTC in seconds. *)
Record Time := mkTime { unix : Z; nsec : Z; offset : Z }.

#[export] Instance Time_eq_dec : EqDecision Time.
Proof. solve_decision. Defined.

(** [t.UTC()] *)
Definition UTC (t : Time) : Time := mkTime (unix t) (nsec t) 0.

(** [a.Before(b)] and [a.After(b)] compare instants. *)
Definition Before (a b : Time) : bool :=
  (unix a <? unix b) || ((unix a =? unix b) && (nsec a <? nsec b)).
Definition After (a b : Time) : bool := Before b a.

(** [t.Add(d)], [d] in nanoseconds. *)
Definition Add (t : Time) (d : Z) : Time :=
  let n := nsec t + d in
  mkTime (unix t + n / 1000000000) (n mod 1000000000) (offset t).

(** The zero [time.Time]: January 1, year 1, 00:00:00 UTC. *)
Definition zeroTime : Time := mkTime (-62135596800) 0 0.
Definition IsZero (t : Time) : bool := (unix t =? -62135596800) && (nsec t =? 0).

(** ** The civil calendar *)

Definition leap (y : Z) : bool :=
  (y mod 4 =? 0) && (negb (y mod 100 =? 0) || (y mod 400 =? 0)).

Definition daysIn (m y : Z) : Z :=
  if m =? 2 then if leap y then 29 else 28
  else if (m =? 4) || (m =? 6) || (m =? 9) || (m =? 11) then 30 else 31.

(** Days since 1970-01-01 of a proleptic Gregorian date, by 400-year eras
    beginning on March 1. *)
Definition doe_of (yoe m d : Z) : Z :=
  let mp := (m + 9) mod 12 in
  let doy := (153 * mp + 2) / 5 + d - 1 in
  yoe * 365 + yoe / 4 - yoe / 100 + doy.

Definition days_from_civil (y m d : Z) : Z :=
  let y := if m <=? 2 then y - 1 else y in
  let era := y / 400 in
  era * 146097 + doe_of (y - era * 400) m d - 719468.

(** Year of era and day of year, by centuries, quadrennia and years. *)
Definition yoe_of_doe (doe : Z) : Z * Z :=
  let c := Z.min 3 (doe / 36524) in
  let r := doe - c * 36524 in
  let q := Z.min 24 (r / 1461) in
  let r := r - q * 1461 in
  let y := Z.min 3 (r / 365) in
  (100 * c + 4 * q + y, r - y * 365).

(** Month and day of a day of the year that begins on March 1. *)
Definition month_day (doy : Z) : Z * Z :=
  let mp := (5 * doy + 2) / 153 in
  ((if mp <? 10 then mp + 3 else mp - 9), doy - (153 * mp + 2) / 5 + 1).

Definition civil_of_doe (doe : Z) : Z * Z * Z :=
  let '(yoe, doy) := yoe_of_doe doe in
  let '(m, d) := month_day doy in (yoe, m, d).

Definition civil_from_days (n : Z) : Z * Z * Z :=
  let z := n + 719468 in
  let era := z / 146097 in
  let '(yoe, m, d) := civil_of_doe (z - era * 146097) in
  ((if m <=? 2 then yoe + 1 else yoe) + era * 400, m, d).

(** The date and clock of an instant in its location. *)
Definition local_secs (t : Time) : Z := unix t + offset t.
Definition civil (t : Time) : Z * Z * Z := civil_from_days (local_secs t / 86400).
Definition Year (t : Time) : Z := (civil t).1.1.
Definition Hour (t : Time) : Z := local_secs t mod 86400 / 3600.
Definition Minute (t : Time) : Z := local_secs t mod 3600 / 60.
Definition Second (t : Time) : Z := local_secs t mod 60.

(** [time.Date(y, m, d, h, mi, s, ns, time.UTC)] for in-range fields. *)
Definition DateUTC (y m d h mi s ns : Z) : Time :=
  mkTime (days_from_civil y m d * 86400 + h * 3600 + mi * 60 + s) ns 0.

(** ** Parsing *)

Definition digit1 (s : string) : option (Z * string) :=
  match s with
  | String c s' => if IsDigit c then Some (digit_val c, s') else None
  | EmptyString => None
  end.

(** [getnum(s, fixed)]: two digits, or one when [fixed] is false. *)
Definition getnum (s : string) (fixed : bool) : option (Z * string) :=
  '(a, s1) ← digit1 s;
  match digit1 s1 with
  | Some (b, s2) => Some (10 * a + b, s2)
  | None => if fixed then None else Some (a, s1)
  end.

(** The four digits of [stdLongYear]. *)
Definition getyear (s : string) : option (Z * string) :=
  '(a, s1) ← digit1 s; '(b, s2) ← digit1 s1;
  '(c, s3) ← digit1 s2; '(d, s4) ← digit1 s3;
  Some (1000 * a + 100 * b + 10 * c + d, s4).

Definition skip_char (c : ascii) (s : string) : option string :=
  match s with
  | String d s' => if Ascii.eqb c d then Some s' else None
  | EmptyString => None
  end.

Definition check (b : bool) : option unit := if b then Some tt else None.

(** [parseNanoseconds]: at most nine digits count. *)
Fixpoint nanos (n : nat) (scale : Z) (s : string) : Z :=
  match n, s with
  | S n, String c s' => digit_val c * scale + nanos n (scale / 10) s'
  | _, _ => 0
  end.

(** The optional fraction after the seconds: a comma or period and digits. *)
Definition getfrac (s : string) : Z * string :=
  match s with
  | String c (String d s' as ds) =>
      if ((byte c =? 46) || (byte c =? 44)) && IsDigit d then
        let '(frac, rest) := span IsDigit ds in (nanos 9 100000000 frac, rest)
      else (0, s)
  | _ => (0, s)
  end.

(** The [Z07:00] zone: the offset in seconds. *)
Definition getzone (s : string) : option (Z * string) :=
  match s with
  | String c s1 =>
      if byte c =? 90 (* Z *) then Some (0, s1)
      else
        '(hr, s2) ← getnum s1 true; _ ← check (hr <=? 24);
        s3 ← skip_char ":" s2;
        '(mm, s4) ← getnum s3 true; _ ← check (mm <=? 60);
        let off := (hr * 60 + mm) * 60 in
        if byte c =? 43 (* + *) then Some (off, s4)
        else if byte c =? 45 (* - *) then Some (- off, s4) else None
  | EmptyString => None
  end.

Definition getdate (s : string) : option (Z * Z * Z * string) :=
  '(y, s) ← getyear s; s ← skip_char "-" s;
  '(m, s) ← getnum s true; _ ← check ((1 <=? m) && (m <=? 12));
  s ← skip_char "-" s;
  '(d, s) ← getnum s true;
  Some (y, m, d, s).

Definition check_day (y m d : Z) : option unit := check ((1 <=? d) && (d <=? daysIn m y)).

(** [time.Parse("2006-01-02", s)] *)
Definition ParseDateOnly (s : string) : option Time :=
  '(y, m, d, rest) ← getdate s;
  _ ← check (String.eqb rest "");
  _ ← check_day y m d;
  Some (DateUTC y m d 0 0 0 0).

(** [time.Parse(time.RFC3339, s)], which parses [time.RFC3339Nano] too. *)
Definition ParseRFC3339 (s : string) : option Time :=
  '(y, m, d, s) ← getdate s; s ← skip_char "T" s;
  '(h, s) ← getnum s false; _ ← check (h <? 24);
  s ← skip_char ":" s;
  '(mi, s) ← getnum s true; _ ← check (mi <? 60);
  s ← skip_char ":" s;
  '(se, s) ← getnum s true; _ ← check (se <? 60);
  let '(ns, s) := getfrac s in
  '(off, rest) ← getzone s;
  _ ← check (String.eqb rest "");
  _ ← check_day y m d;
  let t := DateUTC y m d h mi se ns in
  Some (mkTime (unix t - off) ns off).

(** ** Formatting *)

(** [appendInt(b, x, width)] *)
Definition appendInt (x : Z) (width : nat) : string :=
  if x <? 0 then "-" +:+ pad_itoa width (- x) else pad_itoa width x.

(** Nine digits of nanoseconds, trailing zeros removed. *)
Fixpoint frac_digits (n : nat) (scale ns : Z) : string :=
  match n with
  | O => ""
  | S n => if ns =? 0 then ""
           else String (digit_char (ns / scale)) (frac_digits n (scale / 10) (ns mod scale))
  end.
Definition format_frac (ns : Z) : string :=
  if ns =? 0 then "" else "." +:+ frac_digits 9 100000000 ns.

(** [t.Format(time.DateOnly)] *)
Definition FormatDateOnly (t : Time) : string :=
  let '(y, m, d) := civil t in
  appendInt y 4 +:+ "-" +:+ appendInt m 2 +:+ "-" +:+ appendInt d 2.

(** [t.UTC().Format(time.RFC3339Nano)] *)
Definition FormatRFC3339NanoUTC (t : Time) : string :=
  let t := UTC t in
  FormatDateOnly t +:+ "T" +:+ appendInt (Hour t) 2 +:+ ":" +:+ appendInt (Minute t) 2
  +:+ ":" +:+ appendInt (Second t) 2 +:+ format_frac (nsec t) +:+ "Z".

(** [t.UTC().Format(time.RFC3339)] *)
Definition FormatRFC3339UTC (t : Time) : string :=
  let t := UTC t in
  FormatDateOnly t +:+ "T" +:+ appendInt (Hour t) 2 +:+ ":" +:+ appendInt (Minute t) 2
  +:+ ":" +:+ appendInt (Second t) 2 +:+ "Z".

(** ** The calendar is a bijection *)

(** Every day of the year has a month and day that exist, February 29 being
    the last of the 366, and that lead back to it. *)
Definition month_day_ok (doy : Z) : bool :=
  let '(m, d) := month_day doy in
  (1 <=? m) && (m <=? 12) && (1 <=? d)
  && (d <=? if doy =? 365 then 29 else daysIn m 1)
  && ((153 * ((m + 9) mod 12) + 2) / 5 + d - 1 =? doy)
  && implb (doy =? 365) (m =? 2).

Lemma month_day_all : forall_below 366 month_day_ok = true.
Proof. vm_compute. reflexivity. Qed.

Lemma yoe_of_doe_spec doe :
  0 <= doe < 146097 ->
  let '(yoe, doy) := yoe_of_doe doe in
  0 <= yoe < 400 /\ 0 <= doy <= 365 /\ yoe * 365 + yoe / 4 - yoe / 100 + doy = doe
  /\ (doy = 365 -> leap (yoe + 1) = true).
Proof.
  intros Hdoe. unfold yoe_of_doe.
  pose proof (Z.div_mod doe 36524). pose proof (Z.mod_pos_bound doe 36524).
  remember (Z.min 3 (doe / 36524)) as c eqn:Hc.
  remember (doe - c * 36524) as r eqn:Hr.
  assert (0 <= c <= 3 /\ 0 <= r <= 36524 /\ (r = 36524 -> c = 3)) as (? & ? & ?) by (split_and!; lia).
  pose proof (Z.div_mod r 1461). pose proof (Z.mod_pos_bound r 1461).
  remember (Z.min 24 (r / 1461)) as q eqn:Hq. remember (r - q * 1461) as r' eqn:Hr'.
  assert (0 <= q <= 24 /\ 0 <= r' <= 1460 /\ (r' = 1460 -> q = 24 -> c = 3)) as (? & ? & ?) by (split_and!; lia).
  pose proof (Z.div_mod r' 365). pose proof (Z.mod_pos_bound r' 365).
  remember (Z.min 3 (r' / 365)) as y eqn:Hy.
  assert (0 <= y <= 3 /\ 0 <= r' - y * 365 <= 365 /\ (r' - y * 365 = 365 -> r' = 1460 /\ y = 3))
    as (? & ? & ?) by (split_and!; lia).
  assert ((100 * c + 4 * q + y) / 4 = 25 * c + q) as ->
    by (symmetry; apply Z.div_unique with y; lia).
  assert ((100 * c + 4 * q + y) / 100 = c) as ->
    by (symmetry; apply Z.div_unique with (4 * q + y); lia).
  clear Hc Hq Hy. split; [lia|]. split; [lia|]. split; [lia|].
  intros Hdoy. assert (y = 3) as -> by lia. assert (q = 24 -> c = 3) by lia.
  unfold leap. replace (100 * c + 4 * q + 3 + 1) with (0 + (25 * c + q + 1) * 4) at 1 by lia.
  rewrite Z.mod_add by lia. cbn.
  destruct (decide (q = 24)) as [->|Hq].
  - replace c with 3 by lia. done.
  - replace (100 * c + 4 * q + 3 + 1) with ((4 * q + 4) + c * 100) at 1 by lia.
    rewrite Z.mod_add, (Z.mod_small (4 * q + 4)) by lia.
    by destruct (Z.eqb_spec (4 * q + 4) 0); [lia|].
Qed.

Lemma civil_of_doe_spec doe :
  0 <= doe < 146097 ->
  let '(yoe, m, d) := civil_of_doe doe in
  0 <= yoe < 400 /\ 1 <= m <= 12 /\
  1 <= d <= daysIn m (if m <=? 2 then yoe + 1 else yoe) /\ doe_of yoe m d = doe.
Proof.
  intros Hdoe. unfold civil_of_doe, doe_of. pose proof (yoe_of_doe_spec doe Hdoe) as Hy.
  destruct (yoe_of_doe doe) as [yoe doy]. destruct Hy as (Hyoe & Hdoy & Hsum & Hleap).
  pose proof (forall_below_spec _ _ doy month_day_all ltac:(lia)) as Hok. revert Hok.
  unfold month_day_ok. destruct (month_day doy) as [m d].
  rewrite !andb_true_iff, !Z.leb_le, Z.eqb_eq. intros [[[[[? ?] ?] Hd] Hinv] Hfeb].
  repeat split; try lia. revert Hd Hfeb. unfold daysIn.
  destruct (Z.eqb_spec doy 365); cbn [implb].
  - rewrite Z.eqb_eq. intros Hd ->. cbn. rewrite Hleap by done. lia.
  - change (leap 1) with false. destruct (m =? 2); [|by intros].
    cbn. intros ? _. by case_match; lia.
Qed.

Lemma leap_era y e : leap (y + e * 400) = leap y.
Proof.
  unfold leap. rewrite Z.mod_add by lia.
  replace (y + e * 400) with (y + (e * 100) * 4) at 1 by lia. rewrite Z.mod_add by lia.
  replace (y + e * 400) with (y + (e * 4) * 100) by lia. by rewrite Z.mod_add by lia.
Qed.

Lemma civil_from_days_spec n :
  let '(y, m, d) := civil_from_days n in
  1 <= m <= 12 /\ 1 <= d <= daysIn m y /\ days_from_civil y m d = n.
Proof.
  unfold civil_from_days, days_from_civil.
  set (era := (n + 719468) / 146097).
  assert (0 <= n + 719468 - era * 146097 < 146097) as Hdoe.
  { unfold era. pose proof (Z.div_mod (n + 719468) 146097).
    pose proof (Z.mod_pos_bound (n + 719468) 146097). lia. }
  pose proof (civil_of_doe_spec _ Hdoe) as Hok. revert Hok.
  destruct (civil_of_doe _) as [[yoe m] d]. intros (? & ? & Hd & Hoe).
  split; [lia|]. split.
  - unfold daysIn in *. rewrite leap_era. lia.
  - assert ((if m <=? 2 then (if m <=? 2 then yoe + 1 else yoe) + era * 400 - 1
             else (if m <=? 2 then yoe + 1 else yoe) + era * 400) = yoe + era * 400) as ->
      by (destruct (m <=? 2); lia).
    rewrite Z.div_add by lia. rewrite Z.div_small by lia.
    replace (yoe + era * 400 - (0 + era) * 400) with yoe by lia. rewrite Hoe. lia.
Qed.

(** ** Round trip of formatted instants *)

Definition two_digits (n : Z) : string :=
  String (digit_char (n / 10)) (String (digit_char (n mod 10)) "").
Definition four_digits (n : Z) : string :=
  String (digit_char (n / 1000)) (String (digit_char (n / 100 mod 10))
    (String (digit_char (n / 10 mod 10)) (String (digit_char (n mod 10)) ""))).

Lemma appendInt_2 n : 0 <= n < 100 -> appendInt n 2 = two_digits n.
Proof.
  intros Hn. apply String.eqb_eq.
  apply (forall_below_spec 100 (fun n => String.eqb (appendInt n 2) (two_digits n))); [|done].
  vm_compute. reflexivity.
Qed.

Lemma appendInt_4 n : 0 <= n < 10000 -> appendInt n 4 = four_digits n.
Proof.
  intros Hn. apply String.eqb_eq.
  apply (forall_below_spec 10000 (fun n => String.eqb (appendInt n 4) (four_digits n)));
    [vm_compute; reflexivity|lia].
Qed.

Lemma digit1_char d s : 0 <= d < 10 -> digit1 (String (digit_char d) s) = Some (d, s).
Proof. intros. cbn. by rewrite digit_char_digit, digit_val_char. Qed.

Lemma getnum_two n s fixed : 0 <= n < 100 -> getnum (two_digits n +:+ s) fixed = Some (n, s).
Proof.
  intros Hn. assert (0 <= n / 10 < 10) by (split; [apply Z.div_pos; lia|apply Z.div_lt_upper_bound; lia]).
  pose proof (Z.mod_pos_bound n 10). pose proof (Z.div_mod n 10).
  unfold getnum. cbn [two_digits String.append]. rewrite digit1_char by lia. cbn.
  rewrite digit_char_digit, digit_val_char by lia. do 2 f_equal. lia.
Qed.

Lemma getyear_four n s : 0 <= n < 10000 -> getyear (four_digits n +:+ s) = Some (n, s).
Proof.
  intros Hn. unfold getyear. cbn [four_digits String.append].
  assert (0 <= n / 1000 < 10) by (split; [apply Z.div_pos; lia|apply Z.div_lt_upper_bound; lia]).
  pose proof (Z.mod_pos_bound n 10). pose proof (Z.mod_pos_bound (n / 10) 10).
  pose proof (Z.mod_pos_bound (n / 100) 10).
  do 4 (rewrite digit1_char by lia; cbn -[digit1 digit_char Z.mul Z.div Z.modulo Z.add]).
  do 2 f_equal.
  pose proof (Z.div_mod n 10). pose proof (Z.div_mod (n / 10) 10).
  pose proof (Z.div_mod (n / 100) 10).
  rewrite !Z.div_div in * by lia. change (10 * 10) with 100 in *. change (100 * 10) with 1000 in *. lia.
Qed.

Lemma frac_digits_spec n scale ns :
  scale = 10 ^ Z.of_nat (n - 1) -> 0 <= ns < 10 * scale -> (0 < n)%nat ->
  string_forall IsDigit (frac_digits n scale ns) = true /\ nanos n scale (frac_digits n scale ns) = ns.
Proof.
  revert scale ns; induction n as [|n IH]; intros scale ns Hs Hns Hn; [lia|].
  replace (S n - 1)%nat with n in Hs by lia.
  assert (0 < scale) by (rewrite Hs; apply Z.pow_pos_nonneg; lia).
  cbn [frac_digits]. destruct (Z.eqb_spec ns 0) as [->|Hne]; [done|].
  assert (0 <= ns / scale < 10) by (split; [apply Z.div_pos; lia|apply Z.div_lt_upper_bound; lia]).
  cbn [string_forall nanos]. rewrite digit_char_digit, digit_val_char by done.
  pose proof (Z.mod_pos_bound ns scale ltac:(lia)). pose proof (Z.div_mod ns scale ltac:(lia)).
  destruct n as [|n].
  { rewrite Hs in *. cbn in *. rewrite Z.div_1_r in *. split; [done|lia]. }
  assert (scale = 10 ^ Z.of_nat n * 10) as Hs10.
  { rewrite Hs, Nat2Z.inj_succ, Z.pow_succ_r by lia. lia. }
  assert (scale / 10 = 10 ^ Z.of_nat n) as Hq by (rewrite Hs10; apply Z.div_mul; lia).
  destruct (IH (scale / 10) (ns mod scale)) as [Hd Hv]; [|lia|lia|].
  { rewrite Hq. do 2 f_equal. lia. }
  rewrite Hd, Hv. split; [done|lia].
Qed.

Lemma getfrac_format ns s :
  0 <= ns < 1000000000 -> stops IsDigit s -> (forall c s', s = String c s' -> (byte c =? 46) || (byte c =? 44) = false) ->
  getfrac (format_frac ns +:+ s) = (ns, s).
Proof.
  intros Hns Hs Hdot. unfold format_frac.
  destruct (Z.eqb_spec ns 0) as [->|Hne].
  { destruct s as [|c [|d s]]; cbn; [done..|]. by rewrite (Hdot c (String d s)). }
  destruct (frac_digits_spec 9 100000000 ns) as [Hd Hv]; [done|lia|lia|].
  destruct (frac_digits 9 100000000 ns) as [|d fs] eqn:E.
  { cbn in E. rewrite (proj2 (Z.eqb_neq _ _)) in E by done. done. }
  cbn in Hd. apply andb_true_iff in Hd as [Hd Hfs].
  change (("." +:+ String d fs) +:+ s) with (String "." (String d (fs +:+ s))).
  unfold getfrac. rewrite Hd. change ((byte "." =? 46) || (byte "." =? 44)) with true.
  change (String d (fs +:+ s)) with (String d fs +:+ s).
  rewrite span_exact; [by rewrite Hv| |done]. cbn. by rewrite Hd.
Qed.

Lemma clock_sum u :
  u / 86400 * 86400 + u mod 86400 / 3600 * 3600 + u mod 3600 / 60 * 60 + u mod 60 = u.
Proof.
  pose proof (Z.div_mod u 86400). pose proof (Z.div_mod (u mod 86400) 3600).
  pose proof (Z.div_mod (u mod 3600) 60).
  assert (u mod 86400 mod 3600 = u mod 3600) as Hmm.
  { rewrite (Z.div_mod u 86400) at 2 by lia.
    replace (86400 * (u / 86400) + u mod 86400) with (u mod 86400 + (24 * (u / 86400)) * 3600) by lia.
    by rewrite Z.mod_add by lia. }
  assert (u mod 3600 mod 60 = u mod 60) as Hss.
  { rewrite (Z.div_mod u 3600) at 2 by lia.
    replace (3600 * (u / 3600) + u mod 3600) with (u mod 3600 + (60 * (u / 3600)) * 60) by lia.
    by rewrite Z.mod_add by lia. }
  lia.
Qed.

(** An instant whose UTC year has four digits survives being formatted as
    RFC 3339 with nanoseconds and parsed again. *)
Lemma ParseRFC3339_Format t :
  0 <= Year (UTC t) <= 9999 -> 0 <= nsec t < 1000000000 ->
  ParseRFC3339 (FormatRFC3339NanoUTC t) = Some (UTC t).
Proof.
  intros Hy Hns. unfold FormatRFC3339NanoUTC, FormatDateOnly.
  unfold Year in Hy. pose proof (civil_from_days_spec (local_secs (UTC t) / 86400)) as Hc.
  unfold civil in *. destruct (civil_from_days _) as [[y m] d] eqn:Eciv. cbn [fst snd] in *.
  destruct Hc as (Hm & Hd & Hdays).
  assert (daysIn m y <= 31) by (unfold daysIn; repeat case_match; lia).
  assert (0 <= Hour (UTC t) < 24) as Hh.
  { unfold Hour. pose proof (Z.mod_pos_bound (local_secs (UTC t)) 86400).
    split; [apply Z.div_pos; lia|apply Z.div_lt_upper_bound; lia]. }
  assert (0 <= Minute (UTC t) < 60) as Hmi.
  { unfold Minute. pose proof (Z.mod_pos_bound (local_secs (UTC t)) 3600).
    split; [apply Z.div_pos; lia|apply Z.div_lt_upper_bound; lia]. }
  assert (0 <= Second (UTC t) < 60) as Hse by (apply Z.mod_pos_bound; lia).
  rewrite appendInt_4, !appendInt_2 by lia. rewrite !string_app_assoc.
  unfold ParseRFC3339, getdate, check, check_day.
  rewrite getyear_four by lia. cbn [mbind option_bind skip_char String.append Ascii.eqb Bool.eqb].
  rewrite getnum_two by lia. cbn [mbind option_bind].
  rewrite !(proj2 (Z.leb_le _ _)) by lia. cbn [andb skip_char String.append mbind option_bind Ascii.eqb Bool.eqb].
  rewrite getnum_two by lia. cbn [mbind option_bind skip_char String.append Ascii.eqb Bool.eqb].
  rewrite getnum_two by lia. cbn [mbind option_bind]. rewrite (proj2 (Z.ltb_lt _ _)) by lia.
  cbn [mbind option_bind skip_char String.append Ascii.eqb Bool.eqb].
  rewrite getnum_two by lia. cbn [mbind option_bind]. rewrite (proj2 (Z.ltb_lt _ _)) by lia.
  cbn [mbind option_bind skip_char String.append Ascii.eqb Bool.eqb].
  rewrite getnum_two by lia. cbn [mbind option_bind]. rewrite (proj2 (Z.ltb_lt _ _)) by lia.
  cbn [mbind option_bind].
  change (nsec (UTC t)) with (nsec t).
  rewrite getfrac_format; [|done|done|by intros c s' [= <- <-]].
  cbn [mbind option_bind getzone]. change (byte "Z" =? 90) with true. change (String.eqb "" "") with true. cbn [mbind option_bind].
  unfold check, check_day. rewrite !(proj2 (Z.leb_le _ _)) by lia. cbn.
  unfold UTC. rewrite Hdays.
  unfold Hour, Minute, Second, local_secs, UTC. cbn [unix offset]. rewrite Z.add_0_r.
  change (byte "Z" =? 90) with true. cbn. rewrite String.eqb_refl. cbn.
  do 2 f_equal. pose proof (clock_sum (unix t)). lia.
Qed.
