(* ===== verification/Ast.v ===== *)
(** * Ast

    packages/search/ast.go: the syntax tree of a PithosysQL query.

    The string-typed enumerations of the source are inductive types with the
    source's constants as constructors; a string that is none of them, which
    only the JSON decoder can produce, is kept by an extra constructor. *)
From S2P Require Import Prelude GoStrings GoTime.
From Stdlib Require Export SpecFloat.

(** ** Enumerations *)

Inductive Target := TargetObjects | TargetRelations | TargetOther (s : string).
Inductive BoolOp := BoolAnd | BoolOr | BoolOther (s : string).
Inductive ComparisonOp :=
| OpEq | OpNeq | OpLt | OpLte | OpGt | OpGte | OpLike | OpILike | OpOther (s : string).
Inductive RelationDirection := RelationAny | RelationOut | RelationIn | RelationOther (s : string).
Inductive ArithmeticOp := ArithAdd | ArithSub | ArithOther (s : string).
Inductive SortDirection := SortAsc | SortDesc | SortOther (s : string).

(** definitions.go and temporal.go *)
Inductive ValueType :=
| TypeUnknown | TypeNull | TypeString | TypeInteger | TypeFloat | TypeBoolean
| TypeTimestamp | TypeInterval | TypeOther (s : string).

#[export] Instance Target_eq_dec : EqDecision Target. Proof. solve_decision. Defined.
#[export] Instance BoolOp_eq_dec : EqDecision BoolOp. Proof. solve_decision. Defined.
#[export] Instance ComparisonOp_eq_dec : EqDecision ComparisonOp. Proof. solve_decision. Defined.
#[export] Instance RelationDirection_eq_dec : EqDecision RelationDirection.
Proof. solve_decision. Defined.
#[export] Instance ArithmeticOp_eq_dec : EqDecision ArithmeticOp. Proof. solve_decision. Defined.
#[export] Instance SortDirection_eq_dec : EqDecision SortDirection. Proof. solve_decision. Defined.
#[export] Instance ValueType_eq_dec : EqDecision ValueType. Proof. solve_decision. Defined.

(** The string of an enumeration constant, and the conversion back. *)
Definition Target_string (t : Target) : string :=
  match t with TargetObjects => "objects" | TargetRelations => "relations" | TargetOther s => s end.
Definition BoolOp_string (o : BoolOp) : string :=
  match o with BoolAnd => "and" | BoolOr => "or" | BoolOther s => s end.
Definition ComparisonOp_string (o : ComparisonOp) : string :=
  match o with
  | OpEq => "eq" | OpNeq => "neq" | OpLt => "lt" | OpLte => "lte" | OpGt => "gt" | OpGte => "gte"
  | OpLike => "like" | OpILike => "ilike" | OpOther s => s
  end.
Definition RelationDirection_string (d : RelationDirection) : string :=
  match d with
  | RelationAny => "any" | RelationOut => "out" | RelationIn => "in" | RelationOther s => s
  end.
Definition ArithmeticOp_string (o : ArithmeticOp) : string :=
  match o with ArithAdd => "add" | ArithSub => "sub" | ArithOther s => s end.
Definition SortDirection_string (d : SortDirection) : string :=
  match d with SortAsc => "asc" | SortDesc => "desc" | SortOther s => s end.
Definition ValueType_string (t : ValueType) : string :=
  match t with
  | TypeUnknown => "unknown" | TypeNull => "null" | TypeString => "string"
  | TypeInteger => "integer" | TypeFloat => "float" | TypeBoolean => "boolean"
  | TypeTimestamp => "timestamp" | TypeInterval => "interval" | TypeOther s => s
  end.

(** [lookup_enum str xs other s]: the constant of [xs] whose string is [s]. *)
Definition lookup_enum {A} (str : A -> string) (xs : list A) (other : string -> A) (s : string) : A :=
  match List.find (fun x => String.eqb (str x) s) xs with Some x => x | None => other s end.

Definition Target_of : string -> Target :=
  lookup_enum Target_string [TargetObjects; TargetRelations] TargetOther.
Definition BoolOp_of : string -> BoolOp := lookup_enum BoolOp_string [BoolAnd; BoolOr] BoolOther.
Definition ComparisonOp_of : string -> ComparisonOp :=
  lookup_enum ComparisonOp_string [OpEq; OpNeq; OpLt; OpLte; OpGt; OpGte; OpLike; OpILike] OpOther.
Definition RelationDirection_of : string -> RelationDirection :=
  lookup_enum RelationDirection_string [RelationAny; RelationOut; RelationIn] RelationOther.
Definition ArithmeticOp_of : string -> ArithmeticOp :=
  lookup_enum ArithmeticOp_string [ArithAdd; ArithSub] ArithOther.
Definition SortDirection_of : string -> SortDirection :=
  lookup_enum SortDirection_string [SortAsc; SortDesc] SortOther.
Definition ValueType_of : string -> ValueType :=
  lookup_enum ValueType_string
    [TypeUnknown; TypeNull; TypeString; TypeInteger; TypeFloat; TypeBoolean; TypeTimestamp;
     TypeInterval] TypeOther.

(** ** Expressions *)

(** Whether an [Expr] interface holds a struct or a pointer to one: the nodes
    below that carry a [ptr] occur in both forms, and the passes over the tree
    have a case for each. *)
Inductive ptr := Val | Ptr.

(** [NilExpr] is the nil interface; [BoolExpr] only implements [Expr] through
    its pointer. *)
Inductive Expr :=
| NilExpr
| BoolExpr (Op : BoolOp) (Terms : list Expr)
| NotExpr (p : ptr) (e : Expr)
| Comparison (p : ptr) (Op : ComparisonOp) (Left Right : Expr)
| InComparison (p : ptr) (Left : Expr) (Values : list Expr)
| BetweenComparison (p : ptr) (Left Lower Upper : Expr)
| NullComparison (p : ptr) (Left : Expr) (Not : bool)
| RelationPredicate (p : ptr) (Type_ : string) (Direction : RelationDirection)
| BucketPredicate (p : ptr) (Name : string)
| FieldRef (Name : string)
| AttrRef (Path : string)
| CastExpr (e : Expr) (Type_ : ValueType)
| StringLiteral (Value : string)
| IntLiteral (Value : Z)
| FloatLiteral (Value : spec_float)
| BoolLiteral (Value : bool)
| TimestampLiteral (Value : Time)
| NowExpr
| IntervalLiteral (Value : string)
| ArithmeticExpr (Op : ArithmeticOp) (Left Right : Expr)
| NullLiteral.

Record OrderExpr := mkOrder { oExpr : Expr; oDirection : SortDirection }.

Definition VersionV1 : string := "pithosysql.v1".

Record Query := mkQuery {
  Version : string;
  From : Target;
  Where : Expr;                (* NilExpr when absent *)
  OrderBy : list OrderExpr;
  Limit : option Z;
  Offset : option Z
}.

(** ** Induction with the hypothesis on list elements *)

Section Expr_induction.
Variable P : Expr -> Prop.
Hypothesis HNil : P NilExpr.
Hypothesis HBool : forall op ts, Forall P ts -> P (BoolExpr op ts).
Hypothesis HNot : forall p e, P e -> P (NotExpr p e).
Hypothesis HCmp : forall p op l r, P l -> P r -> P (Comparison p op l r).
Hypothesis HIn : forall p l vs, P l -> Forall P vs -> P (InComparison p l vs).
Hypothesis HBetween : forall p l lo up, P l -> P lo -> P up -> P (BetweenComparison p l lo up).
Hypothesis HNull : forall p l n, P l -> P (NullComparison p l n).
Hypothesis HRel : forall p t d, P (RelationPredicate p t d).
Hypothesis HBucket : forall p n, P (BucketPredicate p n).
Hypothesis HField : forall n, P (FieldRef n).
Hypothesis HAttr : forall a, P (AttrRef a).
Hypothesis HCast : forall e t, P e -> P (CastExpr e t).
Hypothesis HString : forall s, P (StringLiteral s).
Hypothesis HInt : forall z, P (IntLiteral z).
Hypothesis HFloat : forall f, P (FloatLiteral f).
Hypothesis HBoolL : forall b, P (BoolLiteral b).
Hypothesis HTime : forall t, P (TimestampLiteral t).
Hypothesis HNow : P NowExpr.
Hypothesis HInterval : forall s, P (IntervalLiteral s).
Hypothesis HArith : forall op l r, P l -> P r -> P (ArithmeticExpr op l r).
Hypothesis HNullL : P NullLiteral.

Fixpoint Expr_ind' (e : Expr) : P e :=
  let fix go (l : list Expr) : Forall P l :=
    match l with
    | [] => Forall_nil P
    | x :: l => Forall_cons _ x l (Expr_ind' x) (go l)
    end in
  match e with
  | NilExpr => HNil
  | BoolExpr op ts => HBool op ts (go ts)
  | NotExpr p e => HNot p e (Expr_ind' e)
  | Comparison p op l r => HCmp p op l r (Expr_ind' l) (Expr_ind' r)
  | InComparison p l vs => HIn p l vs (Expr_ind' l) (go vs)
  | BetweenComparison p l lo up => HBetween p l lo up (Expr_ind' l) (Expr_ind' lo) (Expr_ind' up)
  | NullComparison p l n => HNull p l n (Expr_ind' l)
  | RelationPredicate p t d => HRel p t d
  | BucketPredicate p n => HBucket p n
  | FieldRef n => HField n
  | AttrRef a => HAttr a
  | CastExpr e t => HCast e t (Expr_ind' e)
  | StringLiteral s => HString s
  | IntLiteral z => HInt z
  | FloatLiteral f => HFloat f
  | BoolLiteral b => HBoolL b
  | TimestampLiteral t => HTime t
  | NowExpr => HNow
  | IntervalLiteral s => HInterval s
  | ArithmeticExpr op l r => HArith op l r (Expr_ind' l) (Expr_ind' r)
  | NullLiteral => HNullL
  end.
End Expr_induction.

(** ** Expressions up to pointers

    [strip e] is [e] with every node held by value: two trees are equivalent
    when they differ in pointers only.  The binder and the compiler respect this
    equivalence. *)
Fixpoint strip (e : Expr) : Expr :=
  match e with
  | BoolExpr op ts => BoolExpr op (map strip ts)
  | NotExpr _ e => NotExpr Val (strip e)
  | Comparison _ op l r => Comparison Val op (strip l) (strip r)
  | InComparison _ l vs => InComparison Val (strip l) (map strip vs)
  | BetweenComparison _ l lo up => BetweenComparison Val (strip l) (strip lo) (strip up)
  | NullComparison _ l n => NullComparison Val (strip l) n
  | RelationPredicate _ t d => RelationPredicate Val t d
  | BucketPredicate _ n => BucketPredicate Val n
  | CastExpr e t => CastExpr (strip e) t
  | ArithmeticExpr op l r => ArithmeticExpr op (strip l) (strip r)
  | e => e
  end.

Definition strip_order (o : OrderExpr) : OrderExpr := mkOrder (strip (oExpr o)) (oDirection o).
Definition strip_query (q : Query) : Query :=
  mkQuery (Version q) (From q) (strip (Where q)) (map strip_order (OrderBy q)) (Limit q) (Offset q).

#[export] Instance Expr_equiv : Equiv Expr := fun a b => strip a = strip b.
#[export] Instance Query_equiv : Equiv Query := fun a b => strip_query a = strip_query b.

#[export] Instance Expr_equivalence : Equivalence (≡@{Expr}).
Proof. unfold equiv, Expr_equiv; split; repeat intro; congruence. Qed.
#[export] Instance Query_equivalence : Equivalence (≡@{Query}).
Proof. unfold equiv, Query_equiv; split; repeat intro; congruence. Qed.

Lemma strip_idemp e : strip (strip e) = strip e.
Proof.
  induction e using Expr_ind'; cbn; try congruence.
  - f_equal. rewrite map_map. by apply map_ext_Forall.
  - f_equal; [done|]. rewrite map_map. by apply map_ext_Forall.
Qed.

Lemma strip_equiv e : strip e ≡ e.
Proof. apply strip_idemp. Qed.

(** ** Enumeration round trips *)

Definition known_type (t : ValueType) : bool :=
  match t with TypeOther _ => false | _ => true end.
Lemma ValueType_of_string t : known_type t = true -> ValueType_of (ValueType_string t) = t.
Proof. by destruct t. Qed.
Lemma ComparisonOp_of_string o :
  (forall s, o <> OpOther s) -> ComparisonOp_of (ComparisonOp_string o) = o.
Proof. destruct o as [| | | | | | | |s]; try done. intros H. by destruct (H s). Qed.
