(* ===== verification/SearchDefs.v ===== *)
(** * SearchDefs

    packages/search: definitions.go, registry.go, cast.go, temporal.go and
    field_sql.go: the catalogue of targets, fields and attributes that queries
    are bound against, the cast type names, interval literals and the SQL
    columns of fields. *)
From S2P Require Import Prelude GoStrings GoTime Ast.

(** ** definitions.go *)

Record FieldDefinition := mkField { fName : string; fType : ValueType }.
Record TargetDefinition := mkTarget { tTarget : Target; tFields : list FieldDefinition }.
Record AttributeDefinition := mkAttr { aPath : string; aType : ValueType }.

Definition BuiltinAttributeDefinitions : list AttributeDefinition :=
  [ mkAttr "upstream.size" TypeInteger;
    mkAttr "upstream.last_modified" TypeTimestamp;
    mkAttr "upstream.header.content_type" TypeString;
    mkAttr "upstream.s3.version_id" TypeString;
    mkAttr "core.first_seen_at" TypeTimestamp;
    mkAttr "core.last_seen_at" TypeTimestamp;
    mkAttr "core.object_id" TypeString ].

Definition RegisteredAttributeDefinitions : list AttributeDefinition :=
  [ mkAttr "extracted.content_sha256" TypeString ].

Definition BuiltinTargetDefinitions : list TargetDefinition :=
  [ mkTarget TargetObjects
      [ mkField "id" TypeString; mkField "bucket_id" TypeString; mkField "key" TypeString;
        mkField "created_at" TypeTimestamp; mkField "updated_at" TypeTimestamp ];
    mkTarget TargetRelations
      [ mkField "id" TypeString; mkField "source_object_id" TypeString;
        mkField "target_object_id" TypeString; mkField "relation_type" TypeString;
        mkField "created_at" TypeTimestamp; mkField "updated_at" TypeTimestamp ] ].

(** ** registry.go *)

(** The [Registry] interface: what the binder asks of a catalogue.  The
    definitions returned carry the name they were asked for. *)
Class Registry (R : Type) := {
  ResolveTarget : R -> Target -> option TargetDefinition;
  ResolveField : R -> Target -> string -> option FieldDefinition;
  ResolveAttribute : R -> string -> option AttributeDefinition
}.

(** The maps are keyed by the string of the target, as in Go. *)
Record StaticRegistry := mkRegistry {
  targets : gmap string TargetDefinition;
  fields : gmap string (gmap string FieldDefinition);
  attributes : gmap string AttributeDefinition
}.

Definition field_map (fs : list FieldDefinition) : gmap string FieldDefinition :=
  fold_left (fun m f => <[fName f := f]> m) fs ∅.

Definition add_target (r : StaticRegistry) (t : TargetDefinition) : StaticRegistry :=
  let k := Target_string (tTarget t) in
  mkRegistry (<[k := t]> (targets r)) (<[k := field_map (tFields t)]> (fields r)) (attributes r).

Definition add_attribute (r : StaticRegistry) (a : AttributeDefinition) : StaticRegistry :=
  mkRegistry (targets r) (fields r) (<[aPath a := a]> (attributes r)).

Definition NewStaticRegistry (ts : list TargetDefinition) (ats : list AttributeDefinition)
  : StaticRegistry :=
  fold_left add_attribute ats (fold_left add_target ts (mkRegistry ∅ ∅ ∅)).

Definition BuiltinRegistry : StaticRegistry :=
  NewStaticRegistry BuiltinTargetDefinitions BuiltinAttributeDefinitions.

#[export] Instance StaticRegistry_Registry : Registry StaticRegistry := {|
  ResolveTarget r t := targets r !! Target_string t;
  ResolveField r t name := fs ← fields r !! Target_string t; fs !! name;
  ResolveAttribute r path := attributes r !! path
|}.

(** ** cast.go *)

Definition castTypeNames : gmap string ValueType := list_to_map [
  ("text", TypeString); ("varchar", TypeString); ("string", TypeString);
  ("integer", TypeInteger); ("int", TypeInteger); ("bigint", TypeInteger);
  ("float", TypeFloat); ("real", TypeFloat); ("double", TypeFloat);
  ("boolean", TypeBoolean); ("bool", TypeBoolean);
  ("timestamp", TypeTimestamp); ("timestamptz", TypeTimestamp); ("date", TypeTimestamp)
].

(** [None] is the error "unsupported cast type". *)
Definition ParseCastType (name : string) : option ValueType :=
  castTypeNames !! ToLower (TrimSpace name).

Definition isValidCastOperand (e : Expr) : bool :=
  match e with
  | AttrRef _ | StringLiteral _ | TimestampLiteral _ => true
  | _ => false
  end.

(** The types a cast can name. *)
Definition castable (t : ValueType) : bool :=
  match t with
  | TypeString | TypeInteger | TypeFloat | TypeBoolean | TypeTimestamp => true
  | _ => false
  end.

(** ** temporal.go *)

(** White space of [\s] in a Go regular expression. *)
Definition regexp_space (c : ascii) : bool :=
  in_range 9 10 c || in_range 12 13 c || (byte c =? 32)%Z.

Definition interval_units : list string :=
  [ "second"; "seconds"; "minute"; "minutes"; "hour"; "hours"; "day"; "days";
    "week"; "weeks"; "month"; "months"; "year"; "years" ].

(** [intervalPattern.FindStringSubmatch]: the digits and the unit. *)
Definition interval_match (s : string) : option (string * string) :=
  let '(quantity, rest) := span IsDigit s in
  let '(gap, unit_) := span regexp_space rest in
  if negb (String.eqb quantity "") && negb (String.eqb gap "")
     && existsb (fun u => EqualFold unit_ u) interval_units
  then Some (quantity, unit_) else None.

Definition normalizeIntervalUnit (u : string) : string :=
  let l := ToLower u in
  if String.eqb l "second" || String.eqb l "seconds" then "seconds"
  else if String.eqb l "minute" || String.eqb l "minutes" then "minutes"
  else if String.eqb l "hour" || String.eqb l "hours" then "hours"
  else if String.eqb l "day" || String.eqb l "days" then "days"
  else if String.eqb l "week" || String.eqb l "weeks" then "weeks"
  else if String.eqb l "month" || String.eqb l "months" then "months"
  else if String.eqb l "year" || String.eqb l "years" then "years"
  else u.

(** [None] is the error "invalid interval". *)
Definition ParseIntervalValue (text : string) : option string :=
  match interval_match (TrimSpace text) with
  | Some (quantity, u) => Some (quantity +:+ " " +:+ normalizeIntervalUnit u)
  | None => None
  end.

(** [None] is the error "invalid arithmetic between". *)
Definition arithmeticResultType (op : ArithmeticOp) (left right : ValueType) : option ValueType :=
  match op with
  | ArithAdd =>
      if bool_decide (left = TypeTimestamp) && bool_decide (right = TypeInterval)
      then Some TypeTimestamp
      else if bool_decide (left = TypeInterval) && bool_decide (right = TypeTimestamp)
      then Some TypeTimestamp else None
  | ArithSub =>
      if bool_decide (left = TypeTimestamp) && bool_decide (right = TypeInterval)
      then Some TypeTimestamp else None
  | ArithOther _ => None
  end.

Inductive interval_error := InvalidInterval (text : string) | InvalidIntervalValue.

Definition formatIntervalSQL (value : string) : result interval_error string :=
  match ParseIntervalValue value with
  | None => Err (InvalidInterval value)
  | Some normalized =>
      if Contains normalized "'" then Err InvalidIntervalValue
      else Ok ("interval '" +:+ normalized +:+ "'")
  end.

(** ** field_sql.go *)

Inductive field_sql_error :=
| UnsupportedFieldTarget (t : Target)
| UnsupportedField (name : string) (t : Target).

Definition targetTableName (t : Target) : option string :=
  match t with
  | TargetObjects => Some "objects"
  | TargetRelations => Some "relations"
  | TargetOther _ => None
  end.

Definition FieldSQLColumn (t : Target) (fieldName : string) : result field_sql_error string :=
  match targetTableName t with
  | None => Err (UnsupportedFieldTarget t)
  | Some table =>
      let candidates :=
        List.concat (map tFields
          (List.filter (fun d => bool_decide (tTarget d = t)) BuiltinTargetDefinitions)) in
      match List.find (fun f => String.eqb (fName f) fieldName) candidates with
      | Some f => Ok (table +:+ "." +:+ fName f)
      | None => Err (UnsupportedField fieldName t)
      end
  end.

(** ** Lemmas *)

Lemma field_map_lookup fs name d :
  field_map fs !! name = Some d -> fName d = name /\ d ∈ fs.
Proof.
  unfold field_map.
  enough (forall m : gmap string FieldDefinition,
    (forall n d, m !! n = Some d -> fName d = n /\ d ∈ fs) ->
    forall l, (forall f, f ∈ l -> f ∈ fs) ->
    fold_left (fun m f => <[fName f := f]> m) l m !! name = Some d ->
    fName d = name /\ d ∈ fs) as Hgen.
  { apply (Hgen ∅); [intros n d'; by rewrite lookup_empty|done]. }
  intros m Hm l; revert m Hm; induction l as [|f l IH]; intros m Hm Hl; cbn; [apply Hm|].
  apply IH.
  - intros n d'. rewrite lookup_insert. case_decide as Hn; [|apply Hm].
    intros [= <-]. split; [done|]. apply Hl. by left.
  - intros f' Hf'. apply Hl. by right.
Qed.

Lemma castTypeNames_castable n t : castTypeNames !! n = Some t -> castable t = true.
Proof.
  intros H. apply elem_of_list_to_map_2 in H.
  rewrite !elem_of_cons in H. destruct_or!; inversion H; done.
Qed.

Lemma ParseCastType_castable n t : ParseCastType n = Some t -> castable t = true.
Proof. apply castTypeNames_castable. Qed.
