(* ===== verification/Lexer.v ===== *)
(** * Lexer

    packages/search/parser.go, lines 776-935: the tokens of PithosysQL.

    The scanners take the rest of the input, [input[i:]], together with the
    index [i] they report in errors. *)
From S2P Require Import Prelude GoStrings.

(** ** Tokens *)

Inductive tokenKind :=
| tokenEOF | tokenIdent | tokenString | tokenNumber | tokenOperator | tokenLParen
| tokenRParen | tokenComma | tokenSemicolon | tokenCast.

Record token := mkToken { kind : tokenKind; literal : string }.

#[export] Instance tokenKind_eq_dec : EqDecision tokenKind. Proof. solve_decision. Defined.
#[export] Instance token_eq_dec : EqDecision token. Proof. solve_decision. Defined.

Inductive lexError :=
| LexUnexpectedColon (i : nat)
| LexUnexpectedCharacter (i : nat) (c : ascii)
| LexUnterminatedString (start : nat)
| LexInvalidFloat (start : nat)
| LexUnsupportedOperator (start : nat)
| LexFuel.

#[export] Instance lexError_eq_dec : EqDecision lexError. Proof. solve_decision. Defined.

Definition isIdentStart (r : ascii) : bool := IsLetter r || Ascii.eqb r "_".
Definition isIdentPart (r : ascii) : bool := IsLetter r || IsDigit r || Ascii.eqb r "_".

(** The body of a string literal after the opening quote: its value, the number
    of bytes read with the closing quote, and the rest; [None] when there is no
    closing quote.  A doubled quote stands for a quote. *)
Fixpoint scanStringBody (s : string) : option (string * nat * string) :=
  match s with
  | EmptyString => None
  | String c s1 =>
      if negb (Ascii.eqb c "'") then
        match scanStringBody s1 with
        | Some (v, n, r) => Some (String c v, S n, r)
        | None => None
        end
      else match s1 with
           | String c2 s2 =>
               if Ascii.eqb c2 "'" then
                 match scanStringBody s2 with
                 | Some (v, n, r) => Some (String "'" v, S (S n), r)
                 | None => None
                 end
               else Some ("", 1, s1)
           | EmptyString => Some ("", 1, "")
           end
  end.

(** The results are the literal, the index after it and the rest of the input. *)
Definition scanString (body : string) (start : nat) : result lexError (string * nat * string) :=
  match scanStringBody body with
  | Some (v, n, r) => Ok (v, start + 1 + n, r)
  | None => Err (LexUnterminatedString start)
  end.

Definition scanNumber (s : string) (start : nat) : result lexError (string * nat * string) :=
  let '(whole, rest) := span IsDigit s in
  let i := start + String.length whole in
  match rest with
  | String c rest1 =>
      if Ascii.eqb c "." then
        let '(fraction, rest2) := span IsDigit rest1 in
        if String.eqb fraction "" then Err (LexInvalidFloat start)
        else Ok (whole +:+ String "." fraction, i + 1 + String.length fraction, rest2)
      else Ok (whole, i, rest)
  | EmptyString => Ok (whole, i, rest)
  end.

Definition two_char_operators : list string := ["!="; "<="; ">="; "<>"].
Definition one_char_operators : list string := ["="; "<"; ">"].

Definition scanOperator (s : string) (start : nat) : result lexError (string * nat * string) :=
  let one c rest :=
    if existsb (String.eqb (String c "")) one_char_operators
    then Ok (String c "", start + 1, rest) else Err (LexUnsupportedOperator start) in
  match s with
  | String c (String d r as rest) =>
      let two := String c (String d "") in
      if existsb (String.eqb two) two_char_operators then Ok (two, start + 2, r) else one c rest
  | String c EmptyString => one c ""
  | EmptyString => Err (LexUnsupportedOperator start)
  end.

(** One iteration of the lexer's loop on [input[i:] = String r rest]: the token
    read, if any, the index after it and the rest. *)
Definition lexStep (i : nat) (r : ascii) (rest : string)
  : result lexError (option token * nat * string) :=
  if IsSpace r then Ok (None, i + 1, rest)
  else if isIdentStart r then
    let '(part, rest') := span isIdentPart rest in
    Ok (Some (mkToken tokenIdent (String r part)), i + 1 + String.length part, rest')
  else if IsDigit r then
    '(lit, next, rest') ← scanNumber (String r rest) i;
    Ok (Some (mkToken tokenNumber lit), next, rest')
  else if Ascii.eqb r "'" then
    '(value, next, rest') ← scanString rest i;
    Ok (Some (mkToken tokenString value), next, rest')
  else if Ascii.eqb r "(" then Ok (Some (mkToken tokenLParen "("), i + 1, rest)
  else if Ascii.eqb r ")" then Ok (Some (mkToken tokenRParen ")"), i + 1, rest)
  else if Ascii.eqb r "," then Ok (Some (mkToken tokenComma ","), i + 1, rest)
  else if Ascii.eqb r ";" then Ok (Some (mkToken tokenSemicolon ";"), i + 1, rest)
  else if Ascii.eqb r ":" then
    match rest with
    | String c rest' =>
        if Ascii.eqb c ":" then Ok (Some (mkToken tokenCast "::"), i + 2, rest')
        else Err (LexUnexpectedColon i)
    | EmptyString => Err (LexUnexpectedColon i)
    end
  else if Ascii.eqb r "+" || Ascii.eqb r "-" then
    Ok (Some (mkToken tokenOperator (String r "")), i + 1, rest)
  else if Ascii.eqb r "=" || Ascii.eqb r "<" || Ascii.eqb r ">" || Ascii.eqb r "!" then
    '(op, next, rest') ← scanOperator (String r rest) i;
    Ok (Some (mkToken tokenOperator op), next, rest')
  else Err (LexUnexpectedCharacter i r).

(** The loop; every iteration reads at least one byte, so [String.length s]
    iterations are enough. *)
Fixpoint lexLoop (fuel : nat) (i : nat) (s : string) : result lexError (list token) :=
  match s with
  | EmptyString => Ok [mkToken tokenEOF ""]
  | String r rest =>
      match fuel with
      | O => Err LexFuel
      | S fuel =>
          '(t, next, rest') ← lexStep i r rest;
          ts ← lexLoop fuel next rest';
          Ok (match t with Some t => t :: ts | None => ts end)
      end
  end.

Definition lex (input : string) : result lexError (list token) :=
  lexLoop (String.length input) 0 input.

(** ** Well-formed tokens and their text *)

Definition is_ident (s : string) : bool :=
  match s with
  | String c s' => isIdentStart c && string_forall isIdentPart s'
  | EmptyString => false
  end.

(** Digits, or digits, a point and digits. *)
Definition is_number (s : string) : bool :=
  is_digits s ||
  match span IsDigit s with
  | (whole, String c fraction) => is_digits whole && Ascii.eqb c "." && is_digits fraction
  | _ => false
  end.

Definition is_operator (s : string) : bool :=
  existsb (String.eqb s) (["+"; "-"] ++ two_char_operators ++ one_char_operators).

(** The tokens the lexer produces before the end of input. *)
Definition wf_token (t : token) : bool :=
  match kind t with
  | tokenEOF => false
  | tokenIdent => is_ident (literal t)
  | tokenString => true
  | tokenNumber => is_number (literal t)
  | tokenOperator => is_operator (literal t)
  | tokenLParen => String.eqb (literal t) "("
  | tokenRParen => String.eqb (literal t) ")"
  | tokenComma => String.eqb (literal t) ","
  | tokenSemicolon => String.eqb (literal t) ";"
  | tokenCast => String.eqb (literal t) "::"
  end.

(** Double the quotes of a string literal. *)
Fixpoint quote_body (s : string) : string :=
  match s with
  | EmptyString => EmptyString
  | String c s =>
      if Ascii.eqb c "'" then String "'" (String "'" (quote_body s)) else String c (quote_body s)
  end.

(** The source text of a token, and of a list of tokens, each followed by a space. *)
Definition token_text (t : token) : string :=
  match kind t with
  | tokenString => String "'" (quote_body (literal t) +:+ "'")
  | _ => literal t
  end.
Fixpoint render (ts : list token) : string :=
  match ts with [] => "" | t :: ts => token_text t +:+ String " " (render ts) end.

Definition EOF : token := mkToken tokenEOF "".

(** ** The lexer terminates and produces well-formed tokens *)

(** Bytes that start one kind of token start no other. *)
Definition start_class_ok (c : ascii) : bool :=
  implb (isIdentStart c) (negb (IsSpace c) && negb (IsDigit c)) &&
  implb (IsDigit c) (negb (IsSpace c) && negb (isIdentStart c)) &&
  implb (isIdentStart c) (isIdentPart c).
Lemma start_class c : start_class_ok c = true.
Proof. revert c. apply forall_byte. vm_compute. reflexivity. Qed.

Lemma ident_start_class c :
  isIdentStart c = true -> IsSpace c = false /\ IsDigit c = false /\ isIdentPart c = true.
Proof.
  pose proof (start_class c) as H. unfold start_class_ok in H. intros E. rewrite E in H.
  destruct (IsSpace c), (IsDigit c), (isIdentPart c); auto.
Qed.
Lemma digit_class c : IsDigit c = true -> IsSpace c = false /\ isIdentStart c = false.
Proof.
  pose proof (start_class c) as H. unfold start_class_ok in H. intros E. rewrite E in H.
  destruct (IsSpace c), (isIdentStart c); auto.
Qed.

(** What a scanner returns: a literal that satisfies [wf], and a rest that is
    shorter than [n]. *)
Definition scanned (wf : string -> bool) (n : nat) (x : string * nat * string) : Prop :=
  wf x.1.1 = true /\ String.length x.2 < n.

Lemma scanStringBody_length s v n r :
  scanStringBody s = Some (v, n, r) -> String.length r < String.length s.
Proof.
  revert v n r. induction s as [s IH] using (induction_ltof1 _ String.length); unfold ltof in IH.
  intros v n r. destruct s as [|c s1]; cbn; [done|].
  destruct (negb (Ascii.eqb c "'")).
  - destruct (scanStringBody s1) as [[[v' n'] r']|] eqn:E; [|done].
    intros [= <- <- <-]. apply IH in E; [|cbn]; lia.
  - destruct s1 as [|c2 s2]; [intros [= <- <- <-]; cbn; lia|].
    destruct (Ascii.eqb c2 "'"); [|intros [= <- <- <-]; cbn; lia].
    destruct (scanStringBody s2) as [[[v' n'] r']|] eqn:E; [|done].
    intros [= <- <- <-]. apply IH in E; cbn; lia.
Qed.

Lemma scanNumber_scanned c s i x :
  IsDigit c = true -> scanNumber (String c s) i = Ok x -> scanned is_number (S (String.length s)) x.
Proof.
  intros Hc. unfold scanNumber. cbn [span]. rewrite Hc.
  set (whole := (span IsDigit s).1). set (rest := (span IsDigit s).2).
  pose proof (span_forall IsDigit s) as Hw. pose proof (span_length IsDigit s) as Hl.
  pose proof (span_stops IsDigit s) as Hst. fold whole in Hw, Hl. fold rest in Hl, Hst.
  assert (is_digits (String c whole) = true) as Hd.
  { unfold is_digits. cbn. by rewrite Hc, Hw. }
  intros H. unfold scanned. destruct rest as [|d rest1].
  - inv_ok. cbn in *. unfold is_number. rewrite Hd. split; [done|lia].
  - destruct (Ascii.eqb_spec d ".") as [->|Hd'].
    + destruct (span IsDigit rest1) as [fraction rest2] eqn:E.
      destruct (String.eqb_spec fraction "") as [->|Hne]; [done|]. inv_ok. cbn.
      pose proof (span_length IsDigit rest1) as Hl2. pose proof (span_forall IsDigit rest1) as Hf.
      rewrite E in *. cbn in *. split; [|lia].
      assert (is_digits fraction = true) as Hfd.
      { unfold is_digits. rewrite Hf. destruct (String.eqb_spec fraction ""); done. }
      unfold is_number. change (String c (whole +:+ String "." fraction))
        with (String c whole +:+ String "." fraction).
      rewrite (span_exact IsDigit (String c whole)); [|cbn; by rewrite Hc, Hw|done].
      rewrite Hd, Hfd. cbn. by rewrite orb_true_r.
    + inv_ok. cbn in *. unfold is_number. rewrite Hd. split; [done|lia].
Qed.

Lemma scanOperator_scanned c s i x :
  scanOperator (String c s) i = Ok x -> scanned is_operator (S (String.length s)) x.
Proof.
  unfold scanOperator, scanned, is_operator. intros H.
  assert (forall op l, existsb (String.eqb op) l = true ->
    l = two_char_operators \/ l = one_char_operators ->
    existsb (String.eqb op) (["+"; "-"] ++ two_char_operators ++ one_char_operators) = true) as Hop.
  { intros op l Hl Hor. rewrite !existsb_app. destruct Hor as [-> | ->]; rewrite Hl; by rewrite ?orb_true_r. }
  destruct s as [|d r].
  - case_match eqn:E; [|done]. inv_ok. cbn [fst snd String.length]. split; [eauto|lia].
  - case_match eqn:E; [inv_ok; cbn [fst snd String.length]; split; [eauto|lia]|].
    case_match eqn:E1; [|done]. inv_ok. cbn [fst snd String.length]. split; [eauto|lia].
Qed.

(** One step reads at least a byte, and what it reads is a well-formed token. *)
Lemma lexStep_spec i r rest :
  match lexStep i r rest with
  | Ok (t, _, rest') =>
      String.length rest' <= String.length rest /\
      match t with Some t => wf_token t = true | None => True end
  | Err e => e <> LexFuel
  end.
Proof.
  unfold lexStep. destruct (IsSpace r) eqn:Hsp; [by split|]. destruct (isIdentStart r) eqn:Hid.
  { destruct (span isIdentPart rest) as [part rest'] eqn:E.
    pose proof (span_length isIdentPart rest) as Hl. pose proof (span_forall isIdentPart rest) as Hf.
    rewrite E in *. cbn in *. split; [lia|]. unfold wf_token; cbn. by rewrite Hid, Hf. }
  destruct (IsDigit r) eqn:Hdg.
  { destruct (scanNumber (String r rest) i) as [[[lit next] rest']|e] eqn:E; cbn.
    - apply scanNumber_scanned in E as [? ?]; [|done]. cbn in *. split; [lia|done].
    - unfold scanNumber in E. repeat case_match; by simplify_eq. }
  destruct (Ascii.eqb r "'").
  { unfold scanString. destruct (scanStringBody rest) as [[[v n] r']|] eqn:E; cbn; [|done].
    apply scanStringBody_length in E. split; [lia|done]. }
  repeat match goal with
  | |- context [if Ascii.eqb r ?c then Ok (Some _, _, _) else _] =>
      destruct (Ascii.eqb r c); [by split|]
  end.
  destruct (Ascii.eqb r ":").
  { destruct rest as [|c rest']; [done|]. destruct (Ascii.eqb c ":"); [cbn; split; [lia|done]|done]. }
  destruct (Ascii.eqb r "+" || Ascii.eqb r "-") eqn:Hpm.
  { apply orb_true_iff in Hpm as [H%Ascii.eqb_eq|H%Ascii.eqb_eq]; subst; by split. }
  destruct (_ || _ || _ || _); [|done].
  destruct (scanOperator (String r rest) i) as [[[op next] rest']|e] eqn:E; cbn.
  - apply scanOperator_scanned in E as [? ?]. cbn in *. split; [lia|done].
  - unfold scanOperator in E. repeat case_match; by simplify_eq.
Qed.

Lemma lexLoop_spec fuel i s :
  String.length s <= fuel ->
  match lexLoop fuel i s with
  | Ok ts => exists ts', ts = ts' ++ [EOF] /\ Forall (fun t => wf_token t = true) ts'
  | Err e => e <> LexFuel
  end.
Proof.
  revert i s; induction fuel as [|fuel IH]; intros i s Hf; destruct s as [|r rest]; cbn in *;
    [by exists []|lia|by exists []|].
  pose proof (lexStep_spec i r rest) as Hstep.
  destruct (lexStep i r rest) as [[[t next] rest']|e]; cbn in *; [|done].
  destruct Hstep as [Hlen Ht]. specialize (IH next rest' ltac:(lia)).
  destruct (lexLoop fuel next rest') as [ts|e]; cbn; [|done].
  destruct IH as (ts' & -> & Hts). destruct t as [t|]; [|by exists ts'].
  exists (t :: ts'). split; [done|]. by constructor.
Qed.

Lemma lex_total input : lex input <> Err LexFuel.
Proof.
  unfold lex. pose proof (lexLoop_spec (String.length input) 0 input ltac:(lia)) as H.
  destruct (lexLoop _ _ _); congruence.
Qed.

Lemma lex_tokens input ts :
  lex input = Ok ts -> exists ts', ts = ts' ++ [EOF] /\ Forall (fun t => wf_token t = true) ts'.
Proof.
  unfold lex. pose proof (lexLoop_spec (String.length input) 0 input ltac:(lia)) as H.
  intros E. by rewrite E in H.
Qed.

(** ** The lexer reads back rendered tokens *)

Lemma scanStringBody_quote v s :
  stops (Ascii.eqb "'") s ->
  scanStringBody (quote_body v +:+ String "'" s) = Some (v, S (String.length (quote_body v)), s).
Proof.
  intros Hs. induction v as [|c v IH]; cbn.
  - destruct s as [|d s]; [done|]. unfold stops in Hs. by rewrite Ascii.eqb_sym, Hs.
  - destruct (Ascii.eqb_spec c "'") as [->|Hc]; cbn; [by rewrite IH|].
    destruct (Ascii.eqb_spec c "'"); [done|]. cbn. by rewrite IH.
Qed.

Lemma scanNumber_text lit s i :
  is_number lit = true -> scanNumber (lit +:+ String " " s) i =
    Ok (lit, (i + String.length lit)%nat, String " " s).
Proof.
  unfold is_number. intros [Hd|Hf]%orb_true_iff; unfold scanNumber.
  - unfold is_digits in Hd. apply andb_true_iff in Hd as [_ Hd]. by rewrite span_exact.
  - destruct (span IsDigit lit) as [whole [|c fraction]] eqn:E; [done|].
    apply andb_true_iff in Hf as [[Hw ->%Ascii.eqb_eq]%andb_true_iff Hf].
    pose proof (span_app IsDigit lit) as Happ. rewrite E in Happ. cbn in Happ. subst lit.
    unfold is_digits in Hw, Hf. apply andb_true_iff in Hw as [_ Hw].
    apply andb_true_iff in Hf as [Hne Hf].
    rewrite string_app_assoc, span_exact by done. cbn.
    rewrite span_exact by done. destruct (String.eqb_spec fraction ""); [done|].
    do 2 f_equal. rewrite string_length_app. cbn [String.length]. f_equal. lia.
Qed.

(** On the text of a well-formed token the lexer reads that token. *)
Lemma lexStep_text i t s :
  wf_token t = true -> exists r rest next,
    token_text t +:+ String " " s = String r rest /\
    lexStep i r rest = Ok (Some t, next, String " " s).
Proof.
  destruct t as [[] lit]; unfold wf_token, token_text; cbn; intros Hwf; try done;
    try (apply String.eqb_eq in Hwf as ->; by eexists _, _, _).
  - destruct lit as [|c lit]; [done|]. cbn in *. apply andb_true_iff in Hwf as [Hc Hl].
    destruct (ident_start_class _ Hc) as (Hsp & Hdg & _).
    eexists _, _, _. split; [done|]. unfold lexStep. rewrite Hsp, Hc.
    by rewrite span_exact.
  - eexists _, _, _. split; [done|]. unfold lexStep, scanString. cbn.
    rewrite string_app_assoc. cbn [String.append]. by rewrite scanStringBody_quote.
  - assert (exists c lit', lit = String c lit' /\ IsDigit c = true) as (c & lit' & -> & Hc).
    { unfold is_number in Hwf. apply orb_true_iff in Hwf as [H|H]; [by apply is_digits_head|].
      destruct lit as [|c lit']; [done|]. exists c, lit'. split; [done|]. cbn in H.
      by destruct (IsDigit c). }
    exists c, (lit' +:+ String " " s). eexists. split; [done|]. unfold lexStep.
    destruct (digit_class _ Hc) as [-> ->]. rewrite Hc.
    change (String c (lit' +:+ String " " s)) with (String c lit' +:+ String " " s).
    by rewrite (scanNumber_text _ s i Hwf).
  - repeat (apply orb_true_iff in Hwf as [->%String.eqb_eq|Hwf]; [by eexists _, _, _|]). done.
Qed.

Lemma lexStep_space i s : lexStep i " " s = Ok (None, i + 1, s).
Proof. reflexivity. Qed.

Lemma lexLoop_render fuel i ts :
  Forall (fun t => wf_token t = true) ts -> String.length (render ts) <= fuel ->
  lexLoop fuel i (render ts) = Ok (ts ++ [EOF]).
Proof.
  revert fuel i; induction ts as [|t ts IH]; intros fuel i Hts Hf; [by destruct fuel|].
  apply Forall_cons_1 in Hts as [Ht Hts]. cbn [render] in *.
  destruct (lexStep_text i t (render ts) Ht) as (r & rest & next & Htext & Hstep).
  pose proof (lexStep_spec i r rest) as Hlen. rewrite Hstep in Hlen. destruct Hlen as [Hlen _].
  rewrite Htext in *. cbn in Hf, Hlen.
  do 2 (destruct fuel as [|fuel]; [lia|]). cbn. rewrite Hstep. cbn. rewrite lexStep_space.
  cbn. by rewrite IH by (done || lia).
Qed.

Lemma lex_render ts :
  Forall (fun t => wf_token t = true) ts -> lex (render ts) = Ok (ts ++ [EOF]).
Proof. intros H. by apply lexLoop_render. Qed.
