(* ===== verification/Parser.v ===== *)
(** * Parser

    packages/search/parser.go, lines 1-774 and 826-935: the recursive-descent
    parser of PithosysQL.

    A method of [queryParser] is a function of the parser's state that returns
    an error or a value and the next state.  The recursion of the grammar is
    bounded by the code's own depth counter: every cycle goes through
    [parseUnaryExpr] or [parsePrimary], which reject depths above 64, so 65 units
    of fuel never run out ([Parse_total]).  Loops take one unit of fuel per
    token left. *)
From S2P Require Import Prelude GoStrings GoFloat GoTime Ast SearchDefs Lexer.
Local Open Scope nat_scope.

(** ** State, errors and the monad *)

Definition MaxQueryBytes : Z := 16 * 1024.
Definition maxExpressionDepth : nat := 64.

(** [tokens] are the tokens from [pos] on; [pos] is kept for the messages. *)
Record queryParser := mkParser { tokens : list token; pos : nat; depth : nat }.

(** A formatted message is its format and the arguments. *)
Inductive perror :=
| PTooLong
| PLex (e : lexError)
| PAt (pos : nat) (format : string) (args : list string)
| PCastType (name : string)
| PFuel.

Definition P (A : Type) : Type := queryParser -> result perror (A * queryParser).

#[export] Instance P_ret : MRet P := fun A a p => Ok (a, p).
#[export] Instance P_bind : MBind P := fun A B f m p =>
  match m p with Ok (a, p') => f a p' | Err e => Err e end.

#[export] Instance P_fmap : FMap P := fun A B f m p =>
  match m p with Ok (a, p') => Ok (f a, p') | Err e => Err e end.

Definition errorf {A} (format : string) (args : list string) : P A :=
  fun p => Err (PAt (pos p) format args).
(** [if err != nil { return p.errorf("%s", err) }] *)
Definition or_errorf {A} (r : result (string * list string) A) : P A :=
  match r with Ok a => mret a | Err (f, args) => errorf f args end.
Definition or_fail {A} (r : option A) (format : string) (args : list string) : P A :=
  match r with Some a => mret a | None => errorf format args end.

(** [for { ... }] with a state: [step] returns [None] to leave the loop. *)
Fixpoint loop {S} (fuel : nat) (step : S -> P (option S)) (s : S) : P S :=
  match fuel with
  | O => fun _ => Err PFuel
  | Datatypes.S fuel =>
      next ← step s;
      match next with Some s' => loop fuel step s' | None => mret s end
  end.
Definition for_loop {S} (step : S -> P (option S)) (s : S) : P S :=
  fun p => loop (Datatypes.S (List.length (tokens p))) step s p.

(** ** Token access *)

Definition current (p : queryParser) : token :=
  match tokens p with t :: _ => t | [] => EOF end.
Definition peek (p : queryParser) : token :=
  match tokens p with _ :: t :: _ => t | _ => EOF end.
Definition at_ (k : tokenKind) (p : queryParser) : bool := bool_decide (kind (current p) = k).
Definition advance_state (p : queryParser) : queryParser :=
  if at_ tokenEOF p then p else mkParser (tail (tokens p)) (S (pos p)) (depth p).
Definition is_keyword_token (keyword : string) (t : token) : bool :=
  bool_decide (kind t = tokenIdent) && EqualFold (literal t) keyword.
Definition isKeyword (keyword : string) (p : queryParser) : bool :=
  is_keyword_token keyword (current p).

(** Read the state. *)
Definition get {A} (f : queryParser -> A) : P A := fun p => Ok (f p, p).
Definition advance : P unit := fun p => Ok (tt, advance_state p).
Definition consume (k : tokenKind) : P bool := fun p =>
  if at_ k p then Ok (true, advance_state p) else Ok (false, p).
Definition consumeKeyword (keyword : string) : P bool := fun p =>
  if isKeyword keyword p then Ok (true, advance_state p) else Ok (false, p).

(** [p.depth++; defer func() { p.depth-- }()] around a method, with the check
    of the maximal depth. *)
Definition with_depth {A} (body : P A) : P A := fun p =>
  let p := mkParser (tokens p) (pos p) (S (depth p)) in
  if maxExpressionDepth <? depth p then errorf "expression nesting exceeds %d" ["64"] p
  else match body p with
       | Ok (a, p') => Ok (a, mkParser (tokens p') (pos p') (pred (depth p')))
       | Err e => Err e
       end.

(** ** Validators *)

Definition check_trimmed (what : string) (s : string) : result (string * list string) unit :=
  if String.eqb (TrimSpace s) "" then Err (what +:+ " is empty", [])
  else if negb (String.eqb (TrimSpace s) s) then Err (what +:+ " has surrounding whitespace", [])
  else Ok tt.

Fixpoint validateSegments (index : Z) (segments : list string) : result (string * list string) unit :=
  match segments with
  | [] => Ok tt
  | segment :: segments =>
      if String.eqb segment "" then Err ("attribute path segment %d is empty", [itoa index])
      else if negb (String.eqb (TrimSpace segment) segment)
      then Err ("attribute path segment %d has surrounding whitespace", [itoa index])
      else validateSegments (index + 1) segments
  end.

Definition validateAttributePath (path : string) : result (string * list string) unit :=
  _ ← check_trimmed "attribute path" path;
  validateSegments 0 (Split "." path).
Definition validateRelationType (relationType : string) : result (string * list string) unit :=
  check_trimmed "relation type" relationType.
Definition validateBucketName (bucketName : string) : result (string * list string) unit :=
  check_trimmed "bucket name" bucketName.

Definition parseRelationDirection (value : string) : result (string * list string) RelationDirection :=
  match RelationDirection_of value with
  | RelationOther _ => Err ("unsupported relation direction %q", [value])
  | d => Ok d
  end.

(** ** Operands *)

Definition pointerExpr (e : Expr) : Expr :=
  match e with
  | Comparison _ o l r => Comparison Ptr o l r
  | InComparison _ l vs => InComparison Ptr l vs
  | BetweenComparison _ l lo up => BetweenComparison Ptr l lo up
  | NullComparison _ l n => NullComparison Ptr l n
  | NotExpr _ e => NotExpr Ptr e
  | RelationPredicate _ t d => RelationPredicate Ptr t d
  | BucketPredicate _ n => BucketPredicate Ptr n
  | e => e
  end.

(** The literal of the current token when it has kind [k], and an advance. *)
Definition expect_token (k : tokenKind) (format : string) : P string :=
  tok ← get current;
  if bool_decide (kind tok = k) then _ ← advance; mret (literal tok) else errorf format [].

Definition expect (k : tokenKind) (format : string) : P unit :=
  b ← consume k;
  if b : bool then mret tt else errorf format [].
Definition expectKeyword (keyword : string) (format : string) : P unit :=
  b ← consumeKeyword keyword;
  if b : bool then mret tt else errorf format [].

Definition parseCastTypeName : P ValueType :=
  lit ← expect_token tokenIdent "expected cast type name";
  match ParseCastType lit with
  | Some t => mret t
  | None => fun _ => Err (PCastType lit)
  end.

Definition parseNowCall : P Expr :=
  _ ← advance;
  _ ← expect tokenLParen "expected ( after now";
  b ← get (at_ tokenRParen);
  if b : bool then _ ← advance; mret NowExpr else errorf "now() does not accept arguments" [].

Definition parseIntervalLiteral : P Expr :=
  _ ← advance;
  lit ← expect_token tokenString "expected interval string";
  value ← or_fail (ParseIntervalValue lit) "invalid interval %q" [lit];
  mret (IntervalLiteral value).

Definition parseDateLiteral : P Expr :=
  _ ← advance;
  lit ← expect_token tokenString "expected date string";
  value ← or_fail (ParseDateOnly lit) "invalid date literal %q" [lit];
  mret (TimestampLiteral (UTC value)).

Definition parseTimestampLiteral : P Expr :=
  _ ← advance;
  lit ← expect_token tokenString "expected timestamp string";
  value ← or_fail (ParseRFC3339 lit) "invalid timestamp literal %q" [lit];
  mret (TimestampLiteral value).

Definition parseAttrRef : P Expr :=
  _ ← advance;
  _ ← expect tokenLParen "expected ( after attr";
  path ← expect_token tokenString "expected attribute path string";
  _ ← or_errorf (validateAttributePath path);
  _ ← expect tokenRParen "expected ) after attribute path";
  mret (AttrRef path).

Section Operands.
(** The recursive occurrence of [parsePrimary]. *)
Variable parsePrimary_rec : P Expr.

Definition postfixCast (e : Expr) : P (option Expr) :=
  b ← consume tokenCast;
  if b : bool then castType ← parseCastTypeName; mret (Some (CastExpr e castType))
  else mret None.
Definition parsePostfixCasts (e : Expr) : P Expr := for_loop postfixCast e.

Definition parseCastOperand : P Expr := e ← parsePrimary_rec; parsePostfixCasts e.

Definition additiveOp (t : token) : option ArithmeticOp :=
  if bool_decide (kind t = tokenOperator) then
    if String.eqb (literal t) "+" then Some ArithAdd
    else if String.eqb (literal t) "-" then Some ArithSub else None
  else None.
Definition additiveTerm (left : Expr) : P (option Expr) :=
  tok ← get current;
  match additiveOp tok with
  | Some op => _ ← advance; right ← parseCastOperand; mret (Some (ArithmeticExpr op left right))
  | None => mret None
  end.
Definition parseAdditiveExpr : P Expr := left ← parseCastOperand; for_loop additiveTerm left.
Definition parseOperand : P Expr := parseAdditiveExpr.

Definition parseCastCall : P Expr :=
  _ ← advance;
  _ ← expect tokenLParen "expected ( after CAST";
  inner ← parseOperand;
  _ ← expectKeyword "AS" "expected AS in CAST expression";
  castType ← parseCastTypeName;
  _ ← expect tokenRParen "expected ) after CAST expression";
  mret (CastExpr inner castType).

Definition parseNumber (lit : string) : P Expr :=
  if Contains lit "." then
    value ← or_fail (ParseFloat lit) "invalid float literal %q" [lit];
    mret (FloatLiteral value)
  else
    value ← or_fail (ParseInt64 lit) "invalid integer literal %q" [lit];
    mret (IntLiteral value).

(** The [tokenIdent] case of [parsePrimary]. *)
Definition parseIdentPrimary (tok next : token) : P Expr :=
  if is_keyword_token "ATTR" tok && bool_decide (kind next = tokenLParen) then parseAttrRef
  else if is_keyword_token "TRUE" tok then _ ← advance; mret (BoolLiteral true)
  else if is_keyword_token "FALSE" tok then _ ← advance; mret (BoolLiteral false)
  else if is_keyword_token "NULL" tok then _ ← advance; mret NullLiteral
  else if is_keyword_token "TIMESTAMP" tok then parseTimestampLiteral
  else if is_keyword_token "DATE" tok then parseDateLiteral
  else if is_keyword_token "INTERVAL" tok then parseIntervalLiteral
  else _ ← advance; mret (FieldRef (literal tok)).

(** The body of [parsePrimary], once the depth is checked. *)
Definition parsePrimaryBody : P Expr :=
  tok ← get current;
  next ← get peek;
  if is_keyword_token "CAST" tok then parseCastCall
  else if is_keyword_token "NOW" tok && bool_decide (kind next = tokenLParen) then parseNowCall
  else match kind tok with
       | tokenIdent => parseIdentPrimary tok next
       | tokenString => _ ← advance; mret (StringLiteral (literal tok))
       | tokenNumber => _ ← advance; parseNumber (literal tok)
       | _ => errorf "expected expression" []
       end.
End Operands.

Fixpoint parsePrimary (fuel : nat) : P Expr :=
  match fuel with
  | O => fun _ => Err PFuel
  | S fuel => with_depth (parsePrimaryBody (parsePrimary fuel))
  end.

(** ** Conditions *)

Section Conditions.
(** [operand] is [parseOperand], [parseUnaryExpr_rec] the recursive occurrence
    of [parseUnaryExpr]. *)
Variable operand : P Expr.
Variable parseUnaryExpr_rec : P Expr.

Definition comparisonOp (lit : string) : option ComparisonOp :=
  if String.eqb lit "=" then Some OpEq
  else if String.eqb lit "!=" || String.eqb lit "<>" then Some OpNeq
  else if String.eqb lit "<" then Some OpLt
  else if String.eqb lit "<=" then Some OpLte
  else if String.eqb lit ">" then Some OpGt
  else if String.eqb lit ">=" then Some OpGte
  else None.
Definition parseComparisonOp : P ComparisonOp :=
  tok ← get current;
  match comparisonOp (literal tok) with
  | Some op => _ ← advance; mret op
  | None =>
      like ← consumeKeyword "LIKE";
      if like : bool then mret OpLike
      else ilike ← consumeKeyword "ILIKE";
           if ilike : bool then mret OpILike else errorf "expected comparison operator" []
  end.

Definition inValue (values : list Expr) : P (option (list Expr)) :=
  comma ← consume tokenComma;
  if comma : bool then
    close ← get (at_ tokenRParen);
    if close : bool then errorf "expected expression after comma" []
    else value ← operand; mret (Some (values ++ [value]))
  else mret None.
Definition parseInComparison (left : Expr) : P Expr :=
  _ ← expect tokenLParen "expected ( after IN";
  close ← get (at_ tokenRParen);
  if close : bool then errorf "IN list must not be empty" []
  else
    value ← operand;
    values ← for_loop inValue [value];
    _ ← expect tokenRParen "expected ) after IN list";
    mret (InComparison Val left values).

Definition parseBetweenComparison (left : Expr) : P Expr :=
  lower ← operand;
  _ ← expectKeyword "AND" "expected AND in BETWEEN comparison";
  upper ← operand;
  mret (BetweenComparison Val left lower upper).

Definition parseNullComparison (left : Expr) : P Expr :=
  not ← consumeKeyword "NOT";
  _ ← expectKeyword "NULL" "expected NULL after IS";
  mret (NullComparison Val left not).

Definition parseComparison : P Expr :=
  left ← operand;
  isIn ← consumeKeyword "IN";
  if isIn : bool then parseInComparison left
  else isBetween ← consumeKeyword "BETWEEN";
       if isBetween : bool then parseBetweenComparison left
       else isNull ← consumeKeyword "IS";
            if isNull : bool then parseNullComparison left
            else op ← parseComparisonOp;
                 right ← operand;
                 mret (Comparison Val op left right).

Definition parseRelationPredicate : P Expr :=
  _ ← advance;
  _ ← expect tokenLParen "expected ( after has_relation";
  relationType ← expect_token tokenString "expected relation type string";
  _ ← or_errorf (validateRelationType relationType);
  comma ← consume tokenComma;
  direction ← (if comma : bool then
                 lit ← expect_token tokenString "expected relation direction string";
                 or_errorf (parseRelationDirection lit)
               else mret RelationAny);
  _ ← expect tokenRParen "expected ) after has_relation";
  mret (RelationPredicate Val relationType direction).

Definition parseBucketPredicate : P Expr :=
  _ ← advance;
  _ ← expect tokenLParen "expected ( after bucket";
  bucketName ← expect_token tokenString "expected bucket name string";
  _ ← or_errorf (validateBucketName bucketName);
  _ ← expect tokenRParen "expected ) after bucket";
  mret (BucketPredicate Val bucketName).

(** [for p.consumeKeyword(keyword) { term; append }]. *)
Definition moreTerms (keyword : string) (term : P Expr) (terms : list Expr)
  : P (option (list Expr)) :=
  b ← consumeKeyword keyword;
  if b : bool then next ← term; mret (Some (terms ++ [next])) else mret None.

Definition parseAndExpr : P Expr :=
  first ← parseUnaryExpr_rec;
  terms ← for_loop (moreTerms "AND" parseUnaryExpr_rec) [first];
  if List.length terms =? 1 then mret first else mret (BoolExpr BoolAnd terms).

Definition parseBoolExpr : P Expr :=
  left ← parseAndExpr;
  terms ← for_loop (moreTerms "OR" parseAndExpr) [left];
  if List.length terms =? 1 then mret (pointerExpr left) else mret (BoolExpr BoolOr terms).

(** The body of [parseUnaryExpr], once the depth is checked. *)
Definition parseUnaryBody : P Expr :=
  not ← consumeKeyword "NOT";
  if not : bool then e ← parseUnaryExpr_rec; mret (NotExpr Val e)
  else
    tok ← get current;
    next ← get peek;
    if is_keyword_token "HAS_RELATION" tok && bool_decide (kind next = tokenLParen)
    then parseRelationPredicate
    else if is_keyword_token "BUCKET" tok && bool_decide (kind next = tokenLParen)
    then parseBucketPredicate
    else
      paren ← consume tokenLParen;
      if paren : bool then
        e ← parseBoolExpr;
        _ ← expect tokenRParen "expected ) after boolean expression";
        mret e
      else parseComparison.
End Conditions.

Fixpoint parseUnaryExpr (operand : P Expr) (fuel : nat) : P Expr :=
  match fuel with
  | O => fun _ => Err PFuel
  | S fuel => with_depth (parseUnaryBody operand (parseUnaryExpr operand fuel))
  end.

(** ** Queries *)

Definition depth_fuel : nat := S maxExpressionDepth.
Definition operand0 : P Expr := parseOperand (parsePrimary depth_fuel).
Definition condition0 : P Expr := parseBoolExpr (parseUnaryExpr operand0 depth_fuel).

Definition parseTarget : P Target :=
  lit ← expect_token tokenIdent "expected query target";
  match Target_of (ToLower lit) with
  | TargetOther _ => errorf "unsupported query target %q" [lit]
  | t => mret t
  end.

Definition parseOrderExpr : P OrderExpr :=
  e ← operand0;
  asc ← consumeKeyword "ASC";
  if asc : bool then mret (mkOrder e SortAsc)
  else desc ← consumeKeyword "DESC";
       mret (mkOrder e (if desc : bool then SortDesc else SortAsc)).
Definition moreOrder (orderBy : list OrderExpr) : P (option (list OrderExpr)) :=
  comma ← consume tokenComma;
  if comma : bool then
    eof ← get (at_ tokenEOF);
    if eof : bool then errorf "expected ORDER BY expression after comma" []
    else o ← parseOrderExpr; mret (Some (orderBy ++ [o]))
  else mret None.
Definition parseOrderBy : P (list OrderExpr) :=
  o ← parseOrderExpr; for_loop moreOrder [o].

Definition parseNonNegativeInt (label : string) : P Z :=
  lit ← expect_token tokenNumber ("expected integer " +:+ label);
  match ParseInt64 lit with
  | Some value => if (value <? 0)%Z then errorf "invalid %s %q" [label; lit] else mret value
  | None => errorf "invalid %s %q" [label; lit]
  end.

(** [if p.consumeKeyword(keyword) { part }]: [default] when it is absent. *)
Definition clause {A} (keyword : string) (default : A) (part : P A) : P A :=
  b ← consumeKeyword keyword;
  if b : bool then part else mret default.

Definition parseQuery : P Query :=
  _ ← expectKeyword "FROM" "query must start with FROM";
  target ← parseTarget;
  where_ ← clause "WHERE" NilExpr condition0;
  orderBy ← clause "ORDER" [] (_ ← expectKeyword "BY" "expected BY after ORDER"; parseOrderBy);
  limit ← clause "LIMIT" None (Some <$> parseNonNegativeInt "LIMIT");
  offset ← clause "OFFSET" None (Some <$> parseNonNegativeInt "OFFSET");
  mret (mkQuery VersionV1 target where_ orderBy limit offset).

Definition parseTokens : P Query :=
  query ← parseQuery;
  tok ← get current;
  if bool_decide (kind tok = tokenEOF) then mret query
  else errorf "unexpected token %q" [literal tok].

Definition Parse (input : string) : result perror Query :=
  if (MaxQueryBytes <? Z.of_nat (String.length input))%Z then Err PTooLong
  else
    ts ← wrap_err PLex (lex input);
    fst <$> parseTokens (mkParser ts 0 0).
