(* ===== verification/Printer.v ===== *)
(** * Printer

    The trees that [search.Parse] produces, their nesting depth, and their text:
    the specification of the parser.  [wf_query] is the shape of a parsed query,
    [print_query] a query's tokens; the theorems that relate them to [Parse] are
    in ParserProofs. *)
From S2P Require Import Prelude GoStrings GoFloat GoTime Ast SearchDefs Lexer Parser.
Local Open Scope nat_scope.

(** ** Well-formed trees *)

Definition known_comparison (op : ComparisonOp) : bool :=
  match op with OpOther _ => false | _ => true end.
Definition known_arith (op : ArithmeticOp) : bool :=
  match op with ArithOther _ => false | _ => true end.
Definition known_bool (op : BoolOp) : bool := match op with BoolOther _ => false | _ => true end.
Definition known_direction (d : RelationDirection) : bool :=
  match d with RelationOther _ => false | _ => true end.
Definition known_target (t : Target) : bool := match t with TargetOther _ => false | _ => true end.
Definition known_sort (d : SortDirection) : bool :=
  match d with SortOther _ => false | _ => true end.
Definition int64 (z : Z) : bool := ((0 <=? z) && (z <? 2 ^ 63))%Z.

(** Identifiers that start an operand which is not a field. *)
Definition operand_keywords : list string :=
  ["CAST"; "TRUE"; "FALSE"; "NULL"; "TIMESTAMP"; "DATE"; "INTERVAL"].
Definition wf_field (n : string) : bool :=
  is_ident n && negb (existsb (EqualFold n) operand_keywords).

Definition is_arith (e : Expr) : bool := match e with ArithmeticExpr _ _ _ => true | _ => false end.

Fixpoint wf_operand (e : Expr) : bool :=
  match e with
  | FieldRef n => wf_field n
  | AttrRef path => is_ok (validateAttributePath path)
  | CastExpr e t => wf_operand e && castable t
  | ArithmeticExpr op l r => known_arith op && wf_operand l && wf_operand r && negb (is_arith r)
  | IntLiteral z => int64 z
  | StringLiteral _ | FloatLiteral _ | BoolLiteral _ | TimestampLiteral _ | NowExpr
  | IntervalLiteral _ | NullLiteral => true
  | _ => false
  end.

(** The first token of the operand's text is the keyword NOT. *)
Fixpoint starts_not (e : Expr) : bool :=
  match e with
  | FieldRef n => EqualFold n "NOT"
  | ArithmeticExpr _ l _ => starts_not l
  | _ => false
  end.
Definition wf_left (e : Expr) : bool := wf_operand e && negb (starts_not e).

Fixpoint wf_condition (e : Expr) : bool :=
  match e with
  | BoolExpr op ts => known_bool op && (2 <=? List.length ts) && forallb wf_condition ts
  | NotExpr _ e => wf_condition e
  | Comparison _ op l r => known_comparison op && wf_left l && wf_operand r
  | InComparison _ l vs => wf_left l && (1 <=? List.length vs) && forallb wf_operand vs
  | BetweenComparison _ l lo up => wf_left l && wf_operand lo && wf_operand up
  | NullComparison _ l _ => wf_left l
  | RelationPredicate _ t d => is_ok (validateRelationType t) && known_direction d
  | BucketPredicate _ n => is_ok (validateBucketName n)
  | _ => false
  end.

Definition is_bool (e : Expr) : bool := match e with BoolExpr _ _ => true | _ => false end.
Definition is_pointer (e : Expr) : bool :=
  match e with
  | NotExpr Ptr _ | Comparison Ptr _ _ _ | InComparison Ptr _ _ | BetweenComparison Ptr _ _ _
  | NullComparison Ptr _ _ | RelationPredicate Ptr _ _ | BucketPredicate Ptr _ => true
  | _ => false
  end.

(** A condition as [parseBoolExpr] returns it. *)
Definition wf_top (e : Expr) : bool := wf_condition e && (is_bool e || is_pointer e).

Definition wf_order (o : OrderExpr) : bool := wf_operand (oExpr o) && known_sort (oDirection o).
Definition wf_bound (o : option Z) : bool := match o with Some z => int64 z | None => true end.
Definition wf_where (e : Expr) : bool := match e with NilExpr => true | _ => wf_top e end.
Definition wf_query (q : Query) : bool :=
  String.eqb (Version q) VersionV1 && known_target (From q) && wf_where (Where q)
  && forallb wf_order (OrderBy q) && wf_bound (Limit q) && wf_bound (Offset q).

(** ** Literals whose printed text reads back as the same value *)

Fixpoint literals_ok (e : Expr) : bool :=
  match e with
  | BoolExpr _ ts => forallb literals_ok ts
  | NotExpr _ e | CastExpr e _ | NullComparison _ e _ => literals_ok e
  | Comparison _ _ l r | ArithmeticExpr _ l r => literals_ok l && literals_ok r
  | InComparison _ l vs => literals_ok l && forallb literals_ok vs
  | BetweenComparison _ l lo up => literals_ok l && literals_ok lo && literals_ok up
  | FloatLiteral f =>
      match format_decimal f with
      | Some s => is_number s && Contains s "." && bool_decide (ParseFloat s = Some f)
      | None => false
      end
  | TimestampLiteral t => bool_decide (ParseRFC3339 (FormatRFC3339NanoUTC t) = Some t)
  | IntervalLiteral v => bool_decide (ParseIntervalValue v = Some v)
  | _ => true
  end.
Definition query_literals_ok (q : Query) : bool :=
  literals_ok (Where q) && forallb (fun o => literals_ok (oExpr o)) (OrderBy q).

(** ** Tokens of a tree *)

Definition kw (s : string) : token := mkToken tokenIdent s.
Definition str_ (s : string) : token := mkToken tokenString s.
Definition num (s : string) : token := mkToken tokenNumber s.
Definition oper (s : string) : token := mkToken tokenOperator s.
Definition lpar : token := mkToken tokenLParen "(".
Definition rpar : token := mkToken tokenRParen ")".
Definition comma : token := mkToken tokenComma ",".

Definition arith_text (op : ArithmeticOp) : string :=
  match op with ArithSub => "-" | _ => "+" end.

Fixpoint operand_tokens (e : Expr) : list token :=
  match e with
  | FieldRef n => [kw n]
  | AttrRef path => [kw "ATTR"; lpar; str_ path; rpar]
  | CastExpr e t =>
      [kw "CAST"; lpar] ++ operand_tokens e ++ [kw "AS"; kw (ValueType_string t); rpar]
  | StringLiteral s => [str_ s]
  | IntLiteral z => [num (itoa z)]
  | FloatLiteral f => [num (default "" (format_decimal f))]
  | BoolLiteral b => [kw (if b then "TRUE" else "FALSE")]
  | TimestampLiteral t => [kw "TIMESTAMP"; str_ (FormatRFC3339NanoUTC t)]
  | NowExpr => [kw "NOW"; lpar; rpar]
  | IntervalLiteral v => [kw "INTERVAL"; str_ v]
  | ArithmeticExpr op l r => operand_tokens l ++ [oper (arith_text op)] ++ operand_tokens r
  | _ => [kw "NULL"]
  end.

Definition comparison_token (op : ComparisonOp) : token :=
  match op with
  | OpEq => oper "=" | OpNeq => oper "!=" | OpLt => oper "<" | OpLte => oper "<="
  | OpGt => oper ">" | OpGte => oper ">=" | OpLike => kw "LIKE" | _ => kw "ILIKE"
  end.

(** Lists of tokens with a separator in front of all but the first. *)
Definition sep_tokens (sep : token) (l : list (list token)) : list token :=
  match l with
  | [] => []
  | x :: l => x ++ List.concat (map (cons sep) l)
  end.

(** The operand of NOT, and a term of a condition with operator [op], is in
    parentheses when the parser would otherwise not return it. *)
Definition needs_parens (op : BoolOp) (e : Expr) : bool :=
  is_pointer e ||
  match e, op with
  | BoolExpr BoolAnd _, BoolOr => false
  | BoolExpr _ _, _ => true
  | _, _ => false
  end.
Definition paren_if (b : bool) (ts : list token) : list token :=
  if b then [lpar] ++ ts ++ [rpar] else ts.
Definition bool_keyword (op : BoolOp) : string :=
  match op with BoolOr => "OR" | _ => "AND" end.

Fixpoint condition_tokens (e : Expr) : list token :=
  match e with
  | BoolExpr op ts =>
      sep_tokens (kw (bool_keyword op))
        (map (fun t => paren_if (needs_parens op t) (condition_tokens t)) ts)
  | NotExpr _ e => kw "NOT" :: paren_if (needs_parens BoolAnd e) (condition_tokens e)
  | Comparison _ op l r => operand_tokens l ++ [comparison_token op] ++ operand_tokens r
  | InComparison _ l vs =>
      operand_tokens l ++ [kw "IN"; lpar] ++ sep_tokens comma (map operand_tokens vs) ++ [rpar]
  | BetweenComparison _ l lo up =>
      operand_tokens l ++ [kw "BETWEEN"] ++ operand_tokens lo ++ [kw "AND"] ++ operand_tokens up
  | NullComparison _ l n =>
      operand_tokens l ++ [kw "IS"] ++ (if n : bool then [kw "NOT"] else []) ++ [kw "NULL"]
  | RelationPredicate _ t d =>
      [kw "HAS_RELATION"; lpar; str_ t; comma; str_ (RelationDirection_string d); rpar]
  | BucketPredicate _ n => [kw "BUCKET"; lpar; str_ n; rpar]
  | _ => []
  end.

Definition order_tokens (o : OrderExpr) : list token :=
  operand_tokens (oExpr o) ++ [kw (match oDirection o with SortDesc => "DESC" | _ => "ASC" end)].
Definition bound_tokens (keyword : string) (o : option Z) : list token :=
  match o with Some z => [kw keyword; num (itoa z)] | None => [] end.
Definition where_tokens (e : Expr) : list token :=
  match e with NilExpr => [] | _ => kw "WHERE" :: condition_tokens e end.
Definition query_tokens (q : Query) : list token :=
  [kw "FROM"; kw (Target_string (From q))]
  ++ where_tokens (Where q)
  ++ match OrderBy q with
     | [] => []
     | os => [kw "ORDER"; kw "BY"] ++ sep_tokens comma (map order_tokens os)
     end
  ++ bound_tokens "LIMIT" (Limit q) ++ bound_tokens "OFFSET" (Offset q).

Definition print_query (q : Query) : string := render (query_tokens q).

(** ** Nesting depth of the text *)

Definition max_list (l : list nat) : nat := fold_right Nat.max 0 l.

Fixpoint operand_depth (e : Expr) : nat :=
  match e with
  | CastExpr e _ => S (operand_depth e)
  | ArithmeticExpr _ l r => Nat.max (operand_depth l) (operand_depth r)
  | _ => 1
  end.

(** The depth [parseBoolExpr] reaches on the condition without parentheses. *)
Fixpoint condition_depth (e : Expr) : nat :=
  match e with
  | BoolExpr op ts =>
      max_list (map (fun t => (if needs_parens op t then 1 else 0) + condition_depth t) ts)
  | NotExpr _ e => S ((if needs_parens BoolAnd e then 1 else 0) + condition_depth e)
  | Comparison _ _ l r => S (Nat.max (operand_depth l) (operand_depth r))
  | InComparison _ l vs => S (Nat.max (operand_depth l) (max_list (map operand_depth vs)))
  | BetweenComparison _ l lo up =>
      S (Nat.max (operand_depth l) (Nat.max (operand_depth lo) (operand_depth up)))
  | NullComparison _ l _ => S (operand_depth l)
  | _ => 1
  end.
Definition query_depth (q : Query) : nat :=
  Nat.max (condition_depth (Where q)) (max_list (map (fun o => operand_depth (oExpr o)) (OrderBy q))).

(** A query whose text the parser reads back. *)
Definition printable (q : Query) : bool :=
  wf_query q && query_literals_ok q && (query_depth q <=? maxExpressionDepth)
  && (Z.of_nat (String.length (print_query q)) <=? MaxQueryBytes)%Z.
