(* ===== verification/ParserProofs.v ===== *)
(** * ParserProofs

    The theorems on [search.Parse]: it always returns, what it returns is
    well-formed, and it reads back the text of every printable query. *)
From S2P Require Import Prelude GoStrings GoFloat GoTime Ast SearchDefs Lexer Parser Printer.
Local Open Scope nat_scope.

(** ** A program logic for the parser

    [spec d m Q]: run at depth [d], [m] does not run out of fuel; when it
    returns [a] it has read [n] tokens, restored the depth, and [Q n a] holds. *)
Definition token_ok (t : token) : Prop := wf_token t = true \/ t = EOF.

(** Errors that only stand for an exhausted bound of the model. *)
Definition internal (e : perror) : bool :=
  match e with PFuel | PLex LexFuel => true | _ => false end.

Definition spec {A} (d : nat) (m : P A) (Q : nat -> A -> Prop) : Prop :=
  forall p, depth p = d -> Forall token_ok (tokens p) ->
  match m p with
  | Ok (a, p') => depth p' = d /\ Forall token_ok (tokens p') /\
      exists n, n + List.length (tokens p') = List.length (tokens p) /\ Q n a
  | Err e => internal e = false
  end.

Lemma current_ok p : Forall token_ok (tokens p) -> token_ok (current p).
Proof. unfold current. destruct (tokens p); intros H; [by right|by inversion H]. Qed.

Create HintDb parser_spec.

(** The state is unchanged: no token is read. *)
Ltac reads_nothing := cbn; split_and!; [done..|exists 0; by auto using current_ok].

Section Rules.
Context {A : Type} (d : nat).
Implicit Types (Q : nat -> A -> Prop).

Lemma spec_ret (a : A) Q : Q 0 a -> spec d (mret a) Q.
Proof. intros HQ p Hd Hts. reads_nothing. Qed.

Lemma spec_bind {B} (m : P B) (f : B -> P A) Q :
  spec d m (fun n b => spec d (f b) (fun n' a => Q (n + n') a)) -> spec d (m ≫= f) Q.
Proof.
  intros Hm p Hd Hts. specialize (Hm p Hd Hts). unfold mbind, P_bind.
  destruct (m p) as [[b p']|e]; [|done]. destruct Hm as (Hd' & Hts' & n & Hn & Hf).
  specialize (Hf p' Hd' Hts'). destruct (f b p') as [[a p'']|e]; [|done].
  destruct Hf as (? & ? & n' & Hn' & HQ). split_and!; [done..|]. exists (n + n'). split; [lia|done].
Qed.

Lemma spec_mono (m : P A) (Q Q' : nat -> A -> Prop) :
  spec d m Q -> (forall n a, Q n a -> Q' n a) -> spec d m Q'.
Proof.
  intros Hm HQ p Hd Hts. specialize (Hm p Hd Hts). destruct (m p) as [[a p']|e]; [|done].
  destruct Hm as (? & ? & n & ? & ?). eauto 10.
Qed.

Lemma spec_errorf format args Q : spec d (errorf format args) Q.
Proof. done. Qed.

Lemma spec_or_errorf (r : result _ A) Q : (forall a, r = Ok a -> Q 0 a) -> spec d (or_errorf r) Q.
Proof. destruct r as [a|[f args]]; cbn; intros H; [by apply spec_ret, H|apply spec_errorf]. Qed.

Lemma spec_or_fail (r : option A) format args Q :
  (forall a, r = Some a -> Q 0 a) -> spec d (or_fail r format args) Q.
Proof. destruct r; cbn; intros H; [by apply spec_ret, H|apply spec_errorf]. Qed.

Lemma spec_get (f : queryParser -> A) Q : (forall a, Q 0 a) -> spec d (get f) Q.
Proof. intros HQ p Hd Hts. reads_nothing. Qed.

Lemma spec_with_depth (m : P A) Q :
  (d < maxExpressionDepth -> spec (S d) m Q) -> spec d (with_depth m) Q.
Proof.
  intros Hm p Hd Hts. unfold with_depth. cbn [depth].
  destruct (Nat.ltb_spec maxExpressionDepth (S (depth p))) as [Hlt|Hle]; [done|].
  specialize (Hm ltac:(lia) (mkParser (tokens p) (pos p) (S (depth p))) ltac:(cbn; lia) Hts).
  destruct (m _) as [[a p']|e]; [|done]. destruct Hm as (Hd' & Hts' & n & Hn & HQ).
  cbn in *. rewrite Hd'. eauto.
Qed.
End Rules.

Lemma spec_current d Q : (forall t, token_ok t -> Q 0 t) -> spec d (get current) Q.
Proof. intros HQ p Hd Hts. reads_nothing. Qed.

(** Advancing at a token that is not the end reads one token. *)
Lemma advance_state_spec p :
  Forall token_ok (tokens p) ->
  depth (advance_state p) = depth p /\ Forall token_ok (tokens (advance_state p)) /\
  (kind (current p) <> tokenEOF ->
   1 + List.length (tokens (advance_state p)) = List.length (tokens p)) /\
  exists n, n + List.length (tokens (advance_state p)) = List.length (tokens p).
Proof.
  unfold advance_state, at_, current. destruct p as [[|t ts] i d]; cbn; intros Hts.
  { split_and!; [done..|by exists 0]. }
  destruct (decide (kind t = tokenEOF)) as [Hk|Hk].
  - rewrite bool_decide_true by done. cbn. split_and!; [done..|by exists 0].
  - rewrite bool_decide_false by done. cbn. inversion Hts. split_and!; [done..|by exists 1].
Qed.

Lemma spec_advance d Q : (forall n, Q n tt) -> spec d advance Q.
Proof.
  intros HQ p Hd Hts. cbn. destruct (advance_state_spec p Hts) as (? & ? & _ & n & ?).
  split_and!; [congruence|done|by eauto].
Qed.

Lemma spec_consume d k Q : k <> tokenEOF -> Q 1 true -> Q 0 false -> spec d (consume k) Q.
Proof.
  intros Hk Ht Hf p Hd Hts. unfold consume. destruct (at_ k p) eqn:E; [|reads_nothing].
  apply bool_decide_eq_true in E. destruct (advance_state_spec p Hts) as (? & ? & Hn & _).
  split_and!; [congruence|done|]. exists 1. split; [|done]. apply Hn. congruence.
Qed.

Lemma spec_consumeKeyword d s Q : Q 1 true -> Q 0 false -> spec d (consumeKeyword s) Q.
Proof.
  intros Ht Hf p Hd Hts. unfold consumeKeyword. destruct (isKeyword s p) eqn:E; [|reads_nothing].
  apply andb_true_iff in E as [E%bool_decide_eq_true _].
  destruct (advance_state_spec p Hts) as (? & ? & Hn & _).
  split_and!; [congruence|done|]. exists 1. split; [|done]. apply Hn. congruence.
Qed.

Lemma spec_expect d k f Q : k <> tokenEOF -> Q 1 tt -> spec d (expect k f) Q.
Proof.
  intros Hk HQ. apply spec_bind, spec_consume; [done| |apply spec_errorf]. by apply spec_ret.
Qed.

Lemma spec_expectKeyword d s f Q : Q 1 tt -> spec d (expectKeyword s f) Q.
Proof.
  intros HQ. apply spec_bind, spec_consumeKeyword; [|apply spec_errorf]. by apply spec_ret.
Qed.

Lemma spec_expect_token d k f Q :
  k <> tokenEOF -> (forall s, wf_token (mkToken k s) = true -> Q 1 s) -> spec d (expect_token k f) Q.
Proof.
  intros Hk HQ p Hd Hts. unfold expect_token, get, mbind, P_bind.
  pose proof (current_ok p Hts) as Ht. destruct (advance_state_spec p Hts) as (? & ? & Hn & _).
  case_bool_decide as E; [|done]. cbn. split_and!; [congruence|done|]. exists 1.
  split; [apply Hn; congruence|]. apply HQ. destruct (current p) as [k' s]; cbn in *; subst.
  destruct Ht as [?|[= -> ->]]; done.
Qed.

(** The loop's fuel is enough when every iteration reads a token. *)
Lemma spec_for_loop {S} d (step : S -> P (option S)) (Inv : S -> Prop) s (Q : nat -> S -> Prop) :
  Inv s ->
  (forall s, Inv s ->
     spec d (step s) (fun n o => match o with Some s' => 1 <= n /\ Inv s' | None => True end)) ->
  (forall n s, Inv s -> Q n s) ->
  spec d (for_loop step s) Q.
Proof.
  intros Hs Hstep HQ. eapply spec_mono; [|exact HQ]. clear Q HQ.
  intros p Hd Hts. unfold for_loop.
  assert (List.length (tokens p) < Datatypes.S (List.length (tokens p))) as Hlen by lia.
  revert Hlen. generalize (Datatypes.S (List.length (tokens p))) as fuel. intros fuel.
  revert s p Hs Hd Hts. induction fuel as [|fuel IH]; intros s p Hs Hd Hts Hlen; [lia|].
  cbn. unfold mbind, P_bind. specialize (Hstep s Hs p Hd Hts) as Hst.
  destruct (step s p) as [[[s'|] p']|e]; [| |done].
  - destruct Hst as (Hd' & Hts' & n & Hn & Hpos & Hs').
    specialize (IH s' p' Hs' Hd' Hts' ltac:(lia)).
    destruct (loop fuel step s' p') as [[s'' p'']|e]; [|done].
    destruct IH as (? & ? & n' & ? & ?). split_and!; [done..|]. exists (n + n'). split; [lia|done].
  - destruct Hst as (? & ? & n & ? & _). cbn. eauto.
Qed.

(** One step of a derivation; continues through binds and conditionals. *)
Ltac spec_step :=
  match goal with
  | |- spec _ (mbind _ _) _ => apply spec_bind
  | |- spec _ (mret _) _ => apply spec_ret
  | |- spec _ (errorf _ _) _ => apply spec_errorf
  | |- spec _ (or_errorf _) _ => apply spec_or_errorf; intros ? ?
  | |- spec _ (or_fail _ _ _) _ => apply spec_or_fail; intros ? ?
  | |- spec _ advance _ => apply spec_advance; intros ?
  | |- spec _ (get current) _ => apply spec_current; intros ? ?
  | |- spec _ (get _) _ => apply spec_get; intros ?
  | |- spec _ (consume _) _ => apply spec_consume; [done| |]
  | |- spec _ (consumeKeyword _) _ => apply spec_consumeKeyword
  | |- spec _ (expect _ _) _ => apply spec_expect; [done|]
  | |- spec _ (expectKeyword _ _) _ => apply spec_expectKeyword
  | |- spec _ (expect_token _ _) _ => apply spec_expect_token; [done|intros ? ?]
  | |- spec _ (if ?b then _ else _) _ => destruct b eqn:?
  | |- spec _ (match ?x with Some _ => _ | None => _ end) _ => destruct x eqn:?
  | H : forall Q, _ -> spec ?d ?m Q |- spec ?d ?m _ => apply H; intros ? ? ?
  | |- _ => solve [eauto 2 with parser_spec]
  end.
Ltac spec_steps := cbn beta iota; repeat (spec_step; cbn beta iota).

(** [yields d m V]: the values [m] returns at depth [d] satisfy [V]. *)
Definition yields {A} d (m : P A) (V : A -> Prop) : Prop :=
  forall Q, (forall n a, V a -> Q n a) -> spec d m Q.

Lemma yields_spec {A} d (m : P A) V : spec d m (fun _ a => V a) -> yields d m V.
Proof. intros Hm Q HQ. by eapply spec_mono. Qed.

Ltac spec_yields :=
  apply yields_spec; spec_steps;
  try match goal with H : yields ?d ?m _ |- spec ?d ?m _ => apply H; intros ? ? ? end; spec_steps.

(** ** Parsed operands are well-formed *)

Lemma wf_token_ident n : wf_token (mkToken tokenIdent n) = true -> is_ident n = true.
Proof. done. Qed.

Lemma parseCastTypeName_yields d : yields d parseCastTypeName (fun t => castable t = true).
Proof.
  intros Q HQ. unfold parseCastTypeName. spec_steps; [|done].
  apply HQ. by eapply ParseCastType_castable.
Qed.

Lemma Contains_app a c b : Contains (a +:+ String c b) (String c "") = true.
Proof.
  induction a as [|d a IH]; cbn [String.append Contains].
  - cbn. destruct (ascii_dec c c); [|done]. by destruct b.
  - rewrite IH. by rewrite orb_true_r.
Qed.

(** A number token without a point is all digits. *)
Lemma is_number_digits s : is_number s = true -> Contains s "." = false -> is_digits s = true.
Proof.
  unfold is_number. intros [H|H]%orb_true_iff Hc; [done|].
  destruct (span IsDigit s) as [whole [|c fraction]] eqn:E; [done|].
  apply andb_true_iff in H as [[_ ->%Ascii.eqb_eq]%andb_true_iff _].
  pose proof (span_app IsDigit s) as Hs. rewrite E in Hs. cbn in Hs. subst s.
  by rewrite Contains_app in Hc.
Qed.

Lemma ParseInt64_int64 s z : is_digits s = true -> ParseInt64 s = Some z -> int64 z = true.
Proof.
  intros Hs. rewrite ParseInt64_digits by done.
  destruct (Z.ltb_spec (dec_value s) (2 ^ 63)); [|done]. intros [= <-].
  apply dec_value_nonneg in Hs. unfold int64. lia.
Qed.

Definition primary_ok (e : Expr) : Prop := wf_operand e = true /\ is_arith e = false.

Lemma parseNumber_yields d lit :
  wf_token (mkToken tokenNumber lit) = true -> yields d (parseNumber lit) primary_ok.
Proof.
  intros Hlit Q HQ. unfold parseNumber. spec_steps; apply HQ; [done|]. split; [|done].
  cbn. eapply ParseInt64_int64; [|done]. by apply is_number_digits.
Qed.

Lemma is_ok_Ok {E} (r : result E unit) u : r = Ok u -> is_ok r = true.
Proof. by intros ->. Qed.

Lemma keyword_ident k s : is_keyword_token k (mkToken tokenIdent s) = EqualFold s k.
Proof. reflexivity. Qed.

Section Operand_specs.
Context (d : nat) (rec : P Expr).
Hypothesis Hrec : yields d rec primary_ok.

Lemma parsePostfixCasts_yields e : primary_ok e -> yields d (parsePostfixCasts e) primary_ok.
Proof.
  intros He Q HQ. eapply spec_for_loop; [exact He| |exact HQ]. intros e' [Hwf Har].
  unfold postfixCast. spec_steps. apply parseCastTypeName_yields. intros n t Ht.
  spec_steps. split; [lia|]. split; [|done]. cbn. by rewrite Hwf, Ht.
Qed.

Lemma parseCastOperand_yields : yields d (parseCastOperand rec) primary_ok.
Proof.
  intros Q HQ. unfold parseCastOperand. spec_steps. apply Hrec. intros n e He.
  apply parsePostfixCasts_yields; [done|]. intros; by apply HQ.
Qed.

(** The step reads a token because the current one is an operator. *)
Lemma additiveTerm_spec left :
  wf_operand left = true ->
  spec d (additiveTerm rec left) (fun n o =>
    match o with Some e => 1 <= n /\ wf_operand e = true | None => True end).
Proof.
  intros Hl p Hd Hts. unfold additiveTerm, get, mbind, P_bind.
  destruct (additiveOp (current p)) as [op|] eqn:E; [|reads_nothing].
  destruct (advance_state_spec p Hts) as (Hd' & Hts' & Hn & _). cbn.
  assert (kind (current p) <> tokenEOF /\ known_arith op = true) as [Hk Hop].
  { unfold additiveOp in E. case_bool_decide; [|done]. split; [congruence|].
    by repeat case_match; simplify_eq. }
  specialize (Hn Hk).
  assert (spec d (right ← parseCastOperand rec; mret (Some (ArithmeticExpr op left right)))
    (fun _ o => match o with Some e => wf_operand e = true | None => True end)) as Hs.
  { spec_steps. apply parseCastOperand_yields. intros n e [Hwf Har]. spec_steps.
    cbn. by rewrite Hop, Hl, Hwf, Har. }
  specialize (Hs (advance_state p) ltac:(congruence) Hts').
  unfold mbind, P_bind in Hs. destruct (parseCastOperand rec _) as [[e p'']|e]; [|done].
  cbn in *. destruct Hs as (? & ? & n & ? & ?). split_and!; [done..|].
  exists (S n). split; [lia|]. split; [lia|done].
Qed.

Lemma parseOperand_yields : yields d (parseOperand rec) (fun e => wf_operand e = true).
Proof.
  intros Q HQ. unfold parseOperand, parseAdditiveExpr. spec_steps.
  apply parseCastOperand_yields. intros n e [Hwf _].
  eapply (spec_for_loop _ _ (fun e => wf_operand e = true)); [done|apply additiveTerm_spec|].
  intros; by apply HQ.
Qed.

Lemma parseIdentPrimary_yields tok next :
  token_ok tok -> kind tok = tokenIdent -> is_keyword_token "CAST" tok = false ->
  yields d (parseIdentPrimary tok next) primary_ok.
Proof.
  intros Ht Hk Hcast Q HQ. unfold parseIdentPrimary, parseAttrRef, parseTimestampLiteral,
    parseDateLiteral, parseIntervalLiteral.
  spec_steps; apply HQ; split; try done; cbn; [by eapply is_ok_Ok|].
  assert (wf_token tok = true) as Hwf by (destruct Ht as [?| ->]; done).
  destruct tok as [k s]; cbn in Hk; subst k. rewrite !keyword_ident in *.
  unfold wf_token in Hwf. cbn in Hwf. unfold wf_field, operand_keywords. cbn.
  rewrite Hwf. repeat match goal with H : EqualFold _ _ = false |- _ => rewrite H; clear H end.
  done.
Qed.

Lemma parsePrimaryBody_yields : yields d (parsePrimaryBody rec) primary_ok.
Proof.
  intros Q HQ. unfold parsePrimaryBody, parseCastCall, parseNowCall.
  spec_steps; try by apply HQ.
  - apply parseOperand_yields. intros ? e He. spec_steps. apply parseCastTypeName_yields.
    intros ? t' Ht. spec_steps. apply HQ. split; [|done]. cbn. by rewrite He, Ht.
  - assert (wf_token t = true \/ kind t = tokenEOF) as Hwf by (destruct H as [?| ->]; auto).
    destruct (kind t) eqn:Hk; spec_steps; try by apply HQ.
    + by apply parseIdentPrimary_yields.
    + apply parseNumber_yields; [|intros; by apply HQ]. destruct t; cbn in *; subst. by destruct Hwf.
Qed.
End Operand_specs.

Lemma parsePrimary_yields fuel d :
  d <= maxExpressionDepth -> maxExpressionDepth < fuel + d ->
  yields d (parsePrimary fuel) primary_ok.
Proof.
  revert d; induction fuel as [|fuel IH]; intros d Hd Hf; [lia|].
  intros Q HQ. apply spec_with_depth. intros Hlt. apply parsePrimaryBody_yields; [|done].
  apply IH; lia.
Qed.

Lemma operand0_yields d :
  d <= maxExpressionDepth -> yields d operand0 (fun e => wf_operand e = true).
Proof.
  intros Hd. apply parseOperand_yields, parsePrimary_yields; [done|]. unfold depth_fuel. lia.
Qed.

(** ** Parsed conditions are well-formed

    An operand directly under NOT-less [parseUnaryExpr] does not start with the
    keyword NOT: it would have been consumed.  This needs the first token of an
    operand, so the comparison is parsed with the current token in hand. *)

(** [returns m V]: every value [m] returns satisfies [V]. *)
Definition returns {A} (m : P A) (V : A -> Prop) : Prop :=
  forall p a p', m p = Ok (a, p') -> V a.

Lemma returns_ret {A} (a : A) V : V a -> returns (mret a) V.
Proof. by intros HV p b p' [= <- <-]. Qed.
Lemma returns_bind {A B} (m : P B) (f : B -> P A) V :
  (forall b, returns (f b) V) -> returns (m ≫= f) V.
Proof.
  intros Hf p a p'. unfold mbind, P_bind. destruct (m p) as [[b p1]|]; [|done]. apply Hf.
Qed.
Lemma returns_errorf {A} f args (V : A -> Prop) : returns (errorf f args) V.
Proof. by intros ? ? ?. Qed.

Ltac returns_steps :=
  repeat match goal with
  | |- returns (mbind _ _) _ => apply returns_bind; intros ?
  | |- returns (mret _) _ => apply returns_ret
  | |- returns (errorf _ _) _ => apply returns_errorf
  | |- returns (if ?b then _ else _) _ => destruct b eqn:?
  | |- returns (match ?x with _ => _ end) _ => destruct x eqn:?
  end.

Definition not_not (e : Expr) : Prop := starts_not e = false.
(** What [m] returns from a state whose current token is not the keyword NOT does
    not start with NOT. *)
Definition first_not (m : P Expr) : Prop := forall p e p',
  m p = Ok (e, p') -> isKeyword "NOT" p = false -> not_not e.

Lemma for_loop_not_not (step : Expr -> P (option Expr)) e :
  (forall e, not_not e -> returns (step e) (fun o => match o with Some e => not_not e | None => True end)) ->
  not_not e -> returns (for_loop step e) not_not.
Proof.
  intros Hstep He p e' p'. unfold for_loop. generalize (S (List.length (tokens p))) as fuel.
  intros fuel. revert e p He. induction fuel as [|fuel IH]; intros e p He; cbn; [done|].
  unfold mbind, P_bind. destruct (step e p) as [[[e1|] p1]|] eqn:E; [| |done].
  - apply IH. apply (Hstep e He p _ _ E).
  - by intros [= <- <-].
Qed.

Lemma parsePrimaryBody_first rec : first_not (parsePrimaryBody rec).
Proof.
  intros p e p' H Hn. unfold isKeyword in Hn.
  assert (forall (m : P Expr), returns m not_not -> m p = Ok (e, p') -> not_not e) as Hr by eauto.
  unfold parsePrimaryBody, get, mbind, P_bind in H. revert H. generalize (peek p) as next. intros next.
  destruct (is_keyword_token "CAST" (current p)); [apply Hr; unfold parseCastCall; by returns_steps|].
  destruct (is_keyword_token "NOW" _ && _); [apply Hr; unfold parseNowCall; by returns_steps|].
  destruct (kind (current p)) eqn:Hk; try done.
  - apply Hr. unfold parseIdentPrimary, parseAttrRef, parseTimestampLiteral, parseDateLiteral,
      parseIntervalLiteral. returns_steps; try done.
    unfold is_keyword_token in Hn. rewrite Hk in Hn. exact Hn.
  - by intros [= <- <-].
  - assert (returns (parseNumber (literal (current p))) not_not) as Hnum.
    { unfold parseNumber. by returns_steps. }
    apply Hnum.
Qed.

Lemma parseOperand_first fuel : first_not (parseOperand (parsePrimary fuel)).
Proof.
  assert (first_not (parsePrimary fuel)) as Hprim.
  { destruct fuel as [|fuel]; [done|]. intros p e p'. cbn. unfold with_depth. cbn [depth].
    case_match; [done|]. destruct (parsePrimaryBody _ _) as [[a p1]|] eqn:E; [|done].
    intros [= <- <-] Hn. by eapply parsePrimaryBody_first. }
  assert (forall e, not_not e -> returns (parsePostfixCasts e) not_not) as Hcast.
  { intros e. apply for_loop_not_not. intros e' _. unfold postfixCast. by returns_steps. }
  intros p e p'. unfold parseOperand, parseAdditiveExpr, parseCastOperand, mbind, P_bind.
  destruct (parsePrimary fuel p) as [[e0 p0]|] eqn:E0; [|done].
  destruct (parsePostfixCasts e0 p0) as [[e1 p1]|] eqn:E1; [|done].
  intros H Hn. eapply for_loop_not_not; [|by eapply Hcast; [by eapply Hprim|]|exact H].
  intros l Hl. unfold additiveTerm. by returns_steps.
Qed.

(** ** Parsed conditions are well-formed *)

Definition condition_ok (e : Expr) : Prop := wf_condition e = true.
Definition operand_ok (e : Expr) : Prop := wf_operand e = true.

Section Condition_specs.
Context (d : nat) (operand rec : P Expr).
Hypothesis Hoperand : yields d operand operand_ok.
Hypothesis Hfirst : first_not operand.
Hypothesis Hrec : yields d rec condition_ok.

Lemma parseInComparison_yields l :
  wf_left l = true -> yields d (parseInComparison operand l) condition_ok.
Proof.
  intros Hl Q HQ. unfold parseInComparison. spec_steps. apply Hoperand. intros n v Hv. spec_steps.
  apply (spec_for_loop _ _ (fun vs => 1 <= List.length vs /\ forallb wf_operand vs = true)).
  - cbn. by rewrite Hv.
  - intros vs [Hlen Hvs]. unfold inValue. spec_steps. apply Hoperand. intros n' v' Hv'. spec_steps.
    rewrite length_app, forallb_app, Hvs. cbn. rewrite Hv'. split; [lia|]. split; [lia|done].
  - intros n' vs [Hlen Hvs]. spec_steps. apply HQ. unfold condition_ok. cbn [wf_condition].
    rewrite Hl, Hvs. by rewrite (proj2 (Nat.leb_le _ _) Hlen).
Qed.

Lemma parseComparisonOp_yields : yields d parseComparisonOp (fun op => known_comparison op = true).
Proof.
  intros Q HQ. unfold parseComparisonOp. spec_steps; apply HQ; try done.
  unfold comparisonOp in *. by repeat case_match; simplify_eq.
Qed.

(** The rest of a comparison after its left operand. *)
Definition comparison_rest (left : Expr) : P Expr :=
  isIn ← consumeKeyword "IN";
  if isIn : bool then parseInComparison operand left
  else isBetween ← consumeKeyword "BETWEEN";
       if isBetween : bool then parseBetweenComparison operand left
       else isNull ← consumeKeyword "IS";
            if isNull : bool then parseNullComparison left
            else op ← parseComparisonOp;
                 right ← operand;
                 mret (Comparison Val op left right).

Lemma comparison_rest_yields l :
  wf_left l = true -> yields d (comparison_rest l) condition_ok.
Proof.
  intros Hl Q HQ. unfold comparison_rest, parseBetweenComparison, parseNullComparison. spec_steps.
  - apply parseInComparison_yields; [done|]. intros; by apply HQ.
  - apply Hoperand. intros n lo Hlo. spec_steps. apply Hoperand. intros n' up Hup. spec_steps.
    apply HQ. unfold condition_ok in *. cbn. by rewrite Hl, Hlo, Hup.
  - apply parseComparisonOp_yields. intros n op Hop. spec_steps. apply Hoperand. intros n' r Hr. spec_steps.
    apply HQ. unfold condition_ok. cbn. by rewrite Hop, Hl, Hr.
Qed.

Lemma parseComparison_spec p Q :
  depth p = d -> Forall token_ok (tokens p) -> isKeyword "NOT" p = false ->
  (forall n e, condition_ok e -> Q n e) ->
  match parseComparison operand p with
  | Ok (a, p') => depth p' = d /\ Forall token_ok (tokens p') /\
      exists n, n + List.length (tokens p') = List.length (tokens p) /\ Q n a
  | Err e => internal e = false
  end.
Proof.
  intros Hd Hts Hn HQ.
  pose proof (Hoperand (fun _ => operand_ok) (fun _ _ H => H) p Hd Hts) as Hop.
  change (parseComparison operand p) with ((operand ≫= comparison_rest) p).
  unfold mbind, P_bind. destruct (operand p) as [[l p1]|e] eqn:E; [|done].
  destruct Hop as (Hd1 & Hts1 & n1 & Hn1 & Hl).
  assert (wf_left l = true) as Hwl.
  { unfold wf_left. rewrite Hl. by rewrite (Hfirst _ _ _ E Hn). }
  pose proof (comparison_rest_yields l Hwl (fun n e => Q (n1 + n) e)
    (fun n e He => HQ _ _ He) p1 Hd1 Hts1) as H.
  destruct (comparison_rest l p1) as [[e p2]|]; [|done].
  destruct H as (? & ? & n2 & ? & ?). split_and!; [done..|]. exists (n1 + n2). split; [lia|done].
Qed.

Lemma parseRelationPredicate_yields : yields d parseRelationPredicate condition_ok.
Proof.
  intros Q HQ. unfold parseRelationPredicate. spec_steps; apply HQ; unfold condition_ok; cbn.
  - match goal with H : parseRelationDirection ?v = Ok _ |- _ =>
      unfold parseRelationDirection in H; destruct (RelationDirection_of v); simplify_eq/= end;
      match goal with H : validateRelationType _ = Ok _ |- _ => by rewrite H end.
  - match goal with H : validateRelationType _ = Ok _ |- _ => by rewrite H end.
Qed.

Lemma parseBucketPredicate_yields : yields d parseBucketPredicate condition_ok.
Proof.
  intros Q HQ. unfold parseBucketPredicate. spec_steps. apply HQ. unfold condition_ok. cbn.
  by eapply is_ok_Ok.
Qed.

Definition terms_ok (ts : list Expr) : Prop := 1 <= List.length ts /\ forallb wf_condition ts = true.

Lemma moreTerms_loop keyword term first :
  yields d term condition_ok -> condition_ok first ->
  yields d (for_loop (moreTerms keyword term) [first]) terms_ok.
Proof.
  intros Hterm Hf Q HQ. eapply (spec_for_loop _ _ terms_ok); [split; cbn; [lia|]| |exact HQ].
  - by rewrite Hf.
  - intros ts [Hlen Hts]. unfold moreTerms. spec_steps. apply Hterm. intros n e He. spec_steps.
    split; [lia|]. unfold terms_ok. rewrite length_app, forallb_app, Hts. cbn. rewrite He. split; [lia|done].
Qed.

Lemma bool_terms_ok op ts :
  known_bool op = true -> terms_ok ts -> (List.length ts =? 1) = false -> condition_ok (BoolExpr op ts).
Proof.
  intros Hop [Hlen Hts] Hne. apply Nat.eqb_neq in Hne. unfold condition_ok. cbn [wf_condition].
  rewrite Hop, Hts. by rewrite (proj2 (Nat.leb_le 2 _)) by lia.
Qed.

Lemma parseAndExpr_yields : yields d (parseAndExpr rec) condition_ok.
Proof.
  intros Q HQ. unfold parseAndExpr. spec_steps. apply Hrec. intros n e He. spec_steps.
  apply moreTerms_loop; [done..|]. intros n' ts Hts. spec_steps. apply HQ.
  by apply bool_terms_ok.
Qed.

Lemma pointerExpr_wf e : condition_ok e -> wf_top (pointerExpr e) = true.
Proof. unfold condition_ok, wf_top. intros He. by destruct e; cbn in *; rewrite ?He. Qed.

Lemma wf_top_condition e : wf_top e = true -> condition_ok e.
Proof. by intros [? _]%andb_true_iff. Qed.

Lemma parseBoolExpr_yields : yields d (parseBoolExpr rec) (fun e => wf_top e = true).
Proof.
  intros Q HQ. unfold parseBoolExpr. spec_steps. apply parseAndExpr_yields. intros n e He. spec_steps.
  apply moreTerms_loop; [apply parseAndExpr_yields|done|]. intros n' ts Hts. spec_steps; apply HQ.
  - by apply pointerExpr_wf.
  - unfold wf_top. cbn [is_bool]. rewrite orb_true_l, andb_true_r. by apply bool_terms_ok.
Qed.

(** [parseUnaryBody] after the test for NOT. *)
Definition unary_rest : P Expr :=
  tok ← get current;
  next ← get peek;
  if is_keyword_token "HAS_RELATION" tok && bool_decide (kind next = tokenLParen)
  then parseRelationPredicate
  else if is_keyword_token "BUCKET" tok && bool_decide (kind next = tokenLParen)
  then parseBucketPredicate
  else
    paren ← consume tokenLParen;
    if paren : bool then
      e ← parseBoolExpr rec;
      _ ← expect tokenRParen "expected ) after boolean expression";
      mret e
    else parseComparison operand.

Lemma parseUnaryBody_yields : yields d (parseUnaryBody operand rec) condition_ok.
Proof.
  intros Q HQ p Hd Hts.
  change (parseUnaryBody operand rec) with (not ← consumeKeyword "NOT";
    if not : bool then e ← rec; mret (NotExpr Val e) else unary_rest).
  destruct (isKeyword "NOT" p) eqn:Hn.
  - assert (spec d (_ ← advance; e ← rec; mret (NotExpr Val e)) Q) as Hs.
    { spec_steps. apply Hrec. intros ? e He. by spec_steps. }
    specialize (Hs p Hd Hts). unfold mbind, P_bind, consumeKeyword in *. rewrite Hn. exact Hs.
  - unfold mbind, P_bind, consumeKeyword. rewrite Hn. unfold unary_rest, get, mbind, P_bind.
    destruct (is_keyword_token "HAS_RELATION" (current p) && _);
      [by apply parseRelationPredicate_yields|].
    destruct (is_keyword_token "BUCKET" (current p) && _);
      [by apply parseBucketPredicate_yields|].
    destruct (at_ tokenLParen p) eqn:Hp.
    + assert (spec d (_ ← advance; e ← parseBoolExpr rec;
        _ ← expect tokenRParen "expected ) after boolean expression"; mret e) Q) as Hs.
      { spec_steps. apply parseBoolExpr_yields. intros ? e He. spec_steps. apply HQ.
        by apply wf_top_condition. }
      specialize (Hs p Hd Hts). unfold mbind, P_bind, consume in *. rewrite Hp. exact Hs.
    + unfold consume. rewrite Hp. by apply parseComparison_spec.
Qed.
End Condition_specs.

Lemma parseUnaryExpr_yields fuel d :
  d <= maxExpressionDepth -> maxExpressionDepth < fuel + d ->
  yields d (parseUnaryExpr operand0 fuel) condition_ok.
Proof.
  revert d; induction fuel as [|fuel IH]; intros d Hd Hf; [lia|].
  intros Q HQ. apply spec_with_depth. intros Hlt. apply parseUnaryBody_yields; [| | |done].
  - apply operand0_yields. lia.
  - apply parseOperand_first.
  - apply IH; lia.
Qed.

Lemma condition0_yields : yields 0 condition0 (fun e => wf_top e = true).
Proof. apply parseBoolExpr_yields, parseUnaryExpr_yields; unfold depth_fuel; lia. Qed.

(** ** Parsed queries are well-formed *)

Lemma spec_fmap {A B} d (f : A -> B) (m : P A) Q :
  spec d m (fun n a => Q n (f a)) -> spec d (f <$> m) Q.
Proof.
  intros Hm p Hd Hts. specialize (Hm p Hd Hts). unfold fmap, P_fmap. by destruct (m p) as [[a p']|e].
Qed.

Lemma clause_yields {A} d keyword (default : A) part V :
  V default -> yields d part V -> yields d (clause keyword default part) V.
Proof.
  intros Hdef Hpart Q HQ. unfold clause. spec_steps. apply Hpart; intros; by apply HQ.
Qed.

Lemma parseTarget_yields d : yields d parseTarget (fun t => known_target t = true).
Proof.
  intros Q HQ. unfold parseTarget. spec_steps.
  destruct (Target_of _); spec_steps; by apply HQ.
Qed.

Lemma parseOrderExpr_yields : yields 0 parseOrderExpr (fun o => wf_order o = true).
Proof.
  intros Q HQ. unfold parseOrderExpr. spec_steps. apply operand0_yields; [lia|]. intros n e He.
  spec_steps; apply HQ; unfold wf_order; cbn; by rewrite He.
Qed.

Lemma parseOrderBy_yields : yields 0 parseOrderBy (fun os => forallb wf_order os = true).
Proof.
  intros Q HQ. unfold parseOrderBy. spec_steps. apply parseOrderExpr_yields. intros n o Ho.
  apply (spec_for_loop _ _ (fun os => forallb wf_order os = true)).
  - cbn. by rewrite Ho.
  - intros os Hos. unfold moreOrder. spec_steps. apply parseOrderExpr_yields.
    intros n' o' Ho'. spec_steps. split; [lia|]. rewrite forallb_app, Hos. cbn. by rewrite Ho'.
  - intros; by apply HQ.
Qed.

Lemma ParseInt64_bound s z : ParseInt64 s = Some z -> (z < 2 ^ 63)%Z.
Proof.
  unfold ParseInt64. destruct s as [|c s']; [done|]. destruct (byte c =? 45)%Z.
  - destruct (is_digits s') eqn:Hd; [|done]. apply dec_value_nonneg in Hd.
    destruct (_ && _); [|done]. intros [= <-]. lia.
  - set (body := if (byte c =? 43)%Z then s' else String c s'). cbv zeta.
    destruct (is_digits body); [|done]. cbn [andb].
    destruct (Z.ltb_spec (dec_value body) (2 ^ 63)); [|done]. by intros [= <-].
Qed.

Lemma parseNonNegativeInt_yields d label :
  yields d (Some <$> parseNonNegativeInt label) (fun o => wf_bound o = true).
Proof.
  intros Q HQ. apply spec_fmap. unfold parseNonNegativeInt. spec_steps. apply HQ. cbn.
  unfold int64. apply ParseInt64_bound in Heqo. lia.
Qed.

Lemma parseQuery_yields : yields 0 parseQuery (fun q => wf_query q = true).
Proof.
  intros Q HQ. unfold parseQuery. spec_steps. apply parseTarget_yields. intros n t Ht. spec_steps.
  apply (clause_yields _ _ _ _ (fun e => wf_where e = true)); [done| |].
  { apply yields_spec. apply condition0_yields. intros _ e He. by destruct e. }
  intros n1 w Hw. spec_steps.
  apply (clause_yields _ _ _ _ (fun os => forallb wf_order os = true)); [done| |].
  { apply yields_spec. spec_steps. apply parseOrderBy_yields. done. }
  intros n2 os Hos. spec_steps.
  apply (clause_yields _ _ _ _ (fun o => wf_bound o = true)); [done|apply parseNonNegativeInt_yields|].
  intros n3 l Hl. spec_steps.
  apply (clause_yields _ _ _ _ (fun o => wf_bound o = true)); [done|apply parseNonNegativeInt_yields|].
  intros n4 o Ho. spec_steps. apply HQ. unfold wf_query. cbn [Version From Where OrderBy Limit Offset].
  by rewrite Ht, Hw, Hos, Hl, Ho.
Qed.

Lemma parseTokens_spec ts :
  Forall token_ok ts ->
  match parseTokens (mkParser ts 0 0) with
  | Ok (q, _) => wf_query q = true
  | Err e => internal e = false
  end.
Proof.
  intros Hts. assert (spec 0 parseTokens (fun _ q => wf_query q = true)) as Hs.
  { unfold parseTokens. spec_steps. apply parseQuery_yields. intros n q Hq. by spec_steps. }
  specialize (Hs (mkParser ts 0 0) eq_refl Hts).
  destruct (parseTokens _) as [[q p]|e]; [|done]. by destruct Hs as (_ & _ & ? & _ & ?).
Qed.

Lemma lex_token_ok input ts : lex input = Ok ts -> Forall token_ok ts.
Proof.
  intros (ts' & -> & Hts)%lex_tokens. apply Forall_app. split.
  - eapply Forall_impl; [|exact Hts]. intros t Ht. by left.
  - constructor; [by right|constructor].
Qed.

(** C1: [Parse] always returns: the bounds on the recursion and on the loops are
    never exhausted, whatever the input. *)
Theorem Parse_total input :
  (exists q, Parse input = Ok q) \/ (exists e, Parse input = Err e /\ internal e = false).
Proof.
  unfold Parse. case_match; [by right; eexists|].
  pose proof (lex_total input) as Hl. destruct (lex input) as [ts|e] eqn:E; cbn.
  - pose proof (parseTokens_spec ts (lex_token_ok _ _ E)) as Hp.
    destruct (parseTokens _) as [[q p]|e]; cbn; eauto.
  - right. eexists. split; [done|]. by destruct e.
Qed.

(** C3: what [Parse] returns is well-formed. *)
Theorem Parse_wf input q : Parse input = Ok q -> wf_query q = true.
Proof.
  unfold Parse. case_match; [done|]. intros H'. inv_ok.
  match goal with H : lex _ = Ok ?ts |- _ => pose proof (parseTokens_spec ts (lex_token_ok _ _ H)) as Hp end.
  match goal with H : parseTokens _ = _ |- _ => rewrite H in Hp end.
  subst q. by match goal with x : Query * _ |- _ => destruct x end.
Qed.

(** [Parse_wf] on a query with every clause. *)
Definition example_text : string :=
  "FROM objects WHERE NOT (attr('a.b')::int + 1 >= 1.5 OR key LIKE 'x''y') AND created_at BETWEEN DATE '2024-01-02' AND now() - INTERVAL '1 Day' ORDER BY key DESC, id LIMIT 5 OFFSET 2".
Definition example_query : Query :=
  Eval vm_compute in match Parse example_text with
                     | Ok q => q | Err _ => mkQuery "" TargetObjects NilExpr [] None None end.

Lemma Parse_wf_witness :
  Parse example_text = Ok example_query /\ wf_query example_query = true.
Proof.
  assert (Parse example_text = Ok example_query) as E by (vm_compute; reflexivity).
  split; [exact E|]. exact (Parse_wf example_text example_query E).
Defined.
