(* ===== verification/ParserRoundtrip.v ===== *)
(** * ParserRoundtrip

    [Parse] reads back the text of every printable query: with [Parse_wf] this
    makes the printable queries the values of the parser, and shows precedence,
    associativity and every production of the grammar at once. *)
From S2P Require Import Prelude GoStrings GoFloat GoTime Ast SearchDefs Lexer Parser Printer.
From S2P Require Import ParserProofs.
Local Open Scope nat_scope.

(** ** Reading a list of tokens

    [reads d m ts a F]: at depth [d], [m] reads exactly the tokens [ts] and returns
    [a], when the token that follows them satisfies [F]. *)
Definition next_token (ts : list token) : token := hd EOF ts.

Definition reads {A} (d : nat) (m : P A) (ts : list token) (a : A) (F : token -> bool) : Prop :=
  forall rest i, F (next_token rest) = true ->
  exists i', m (mkParser (ts ++ rest) i d) = Ok (a, mkParser rest i' d).

Section Reading.
Context {A : Type} (d : nat) (a : A) (F : token -> bool).
Implicit Types (ts : list token) (t : token).

Lemma reads_ret : reads d (mret a) [] a F.
Proof. intros rest i _. by exists i. Qed.

Lemma reads_bind {B} (m : P B) (f : B -> P A) ts1 ts2 b F1 :
  reads d m ts1 b F1 -> reads d (f b) ts2 a F ->
  (forall rest, F (next_token rest) = true -> F1 (next_token (ts2 ++ rest)) = true) ->
  reads d (m ≫= f) (ts1 ++ ts2) a F.
Proof.
  intros Hm Hf HF rest i Hr. destruct (Hm (ts2 ++ rest) i (HF rest Hr)) as [i1 E1].
  destruct (Hf rest i1 Hr) as [i2 E2]. exists i2.
  unfold mbind, P_bind. by rewrite <- app_assoc, E1.
Qed.

Lemma reads_bind_last {B} (m : P B) (f : B -> P A) ts b :
  reads d m ts b F -> reads d (f b) [] a F -> reads d (m ≫= f) ts a F.
Proof.
  intros Hm Hf. rewrite <- (app_nil_r ts). eapply reads_bind; [done..|]. by intros.
Qed.

Lemma reads_weaken (m : P A) ts (F' : token -> bool) :
  reads d m ts a F' -> (forall t, F t = true -> F' t = true) -> reads d m ts a F.
Proof. intros Hm HF rest i Hr. apply Hm. by apply HF. Qed.

Lemma advance_cons t ts i :
  kind t <> tokenEOF -> advance_state (mkParser (t :: ts) i d) = mkParser ts (S i) d.
Proof. intros Hk. unfold advance_state, at_, current. cbn [tokens]. by rewrite bool_decide_false. Qed.

(** Tokens read one at a time. *)
Lemma reads_advance (f : unit -> P A) t ts :
  kind t <> tokenEOF -> reads d (f tt) ts a F -> reads d (advance ≫= f) (t :: ts) a F.
Proof.
  intros Hk Hf rest i Hr. unfold mbind, P_bind, advance. cbn [app]. rewrite advance_cons by done.
  by apply Hf.
Qed.

Lemma reads_consume k (f : bool -> P A) t ts :
  kind t = k -> k <> tokenEOF -> reads d (f true) ts a F -> reads d (consume k ≫= f) (t :: ts) a F.
Proof.
  intros <- Hk Hf rest i Hr. unfold mbind, P_bind, consume, at_, current. cbn [app tokens].
  rewrite bool_decide_true by done. rewrite advance_cons by done. by apply Hf.
Qed.

Lemma reads_consume_not k (f : bool -> P A) ts :
  (forall rest, F (next_token rest) = true -> kind (next_token (ts ++ rest)) <> k) ->
  reads d (f false) ts a F -> reads d (consume k ≫= f) ts a F.
Proof.
  intros Hk Hf rest i Hr. specialize (Hk rest Hr). destruct (Hf rest i Hr) as [i' E].
  exists i'. unfold mbind, P_bind, consume. rewrite <- E. clear E Hf.
  assert (at_ k (mkParser (ts ++ rest) i d) = false) as ->; [|done].
  apply bool_decide_eq_false. unfold current. cbn. by destruct (ts ++ rest).
Qed.

Lemma reads_keyword s (f : bool -> P A) t ts :
  is_keyword_token s t = true -> reads d (f true) ts a F ->
  reads d (consumeKeyword s ≫= f) (t :: ts) a F.
Proof.
  intros Hs Hf rest i Hr. unfold mbind, P_bind, consumeKeyword, isKeyword, current. cbn [app tokens].
  rewrite Hs. assert (kind t <> tokenEOF) as Hk.
  { apply andb_true_iff in Hs as [Hs%bool_decide_eq_true _]. congruence. }
  rewrite advance_cons by done. by apply Hf.
Qed.

Lemma reads_keyword_not s (f : bool -> P A) ts :
  (forall rest, F (next_token rest) = true -> is_keyword_token s (next_token (ts ++ rest)) = false) ->
  reads d (f false) ts a F -> reads d (consumeKeyword s ≫= f) ts a F.
Proof.
  intros Hs Hf rest i Hr. specialize (Hs rest Hr). destruct (Hf rest i Hr) as [i' E].
  exists i'. unfold mbind, P_bind, consumeKeyword. rewrite <- E. clear E Hf.
  assert (isKeyword s (mkParser (ts ++ rest) i d) = false) as ->; [|done].
  unfold isKeyword, current. cbn. by destruct (ts ++ rest).
Qed.

Lemma reads_current (f : token -> P A) t ts :
  reads d (f t) (t :: ts) a F -> reads d (get current ≫= f) (t :: ts) a F.
Proof. intros Hf rest i Hr. by apply Hf. Qed.

Lemma reads_current_nil (f : token -> P A) :
  (forall t, F t = true -> reads d (f t) [] a F) -> reads d (get current ≫= f) [] a F.
Proof.
  intros Hf rest i Hr. destruct (Hf _ Hr rest i Hr) as [i' E]. exists i'. rewrite <- E.
  unfold mbind, P_bind, get, current. cbn. by destruct rest.
Qed.

(** The token after the current one satisfies [G]. *)
Lemma reads_peek (G : token -> Prop) (f : token -> P A) t ts :
  (forall rest, F (next_token rest) = true -> G (next_token (ts ++ rest))) ->
  (forall u, G u -> reads d (f u) (t :: ts) a F) ->
  reads d (get peek ≫= f) (t :: ts) a F.
Proof.
  intros HG Hf rest i Hr. destruct (Hf _ (HG rest Hr) rest i Hr) as [i' E]. exists i'. rewrite <- E.
  unfold mbind, P_bind, get, peek. cbn. by destruct (ts ++ rest).
Qed.

Lemma reads_at_not k (f : bool -> P A) ts :
  (forall rest, F (next_token rest) = true -> kind (next_token (ts ++ rest)) <> k) ->
  reads d (f false) ts a F -> reads d (get (at_ k) ≫= f) ts a F.
Proof.
  intros Hk Hf rest i Hr. specialize (Hk rest Hr). destruct (Hf rest i Hr) as [i' E].
  exists i'. unfold mbind, P_bind, get. rewrite <- E. clear E Hf.
  assert (at_ k (mkParser (ts ++ rest) i d) = false) as ->; [|done].
  apply bool_decide_eq_false. unfold current. cbn. by destruct (ts ++ rest).
Qed.

Lemma reads_at k (f : bool -> P A) t ts :
  kind t = k -> reads d (f true) (t :: ts) a F -> reads d (get (at_ k) ≫= f) (t :: ts) a F.
Proof.
  intros <- Hf rest i Hr. destruct (Hf rest i Hr) as [i' E]. exists i'. rewrite <- E.
  unfold mbind, P_bind, get, at_, current. cbn [app tokens]. by rewrite bool_decide_true.
Qed.

Lemma reads_with_depth (m : P A) ts :
  d < maxExpressionDepth -> reads (S d) m ts a F -> reads d (with_depth m) ts a F.
Proof.
  intros Hd Hm rest i Hr. destruct (Hm rest i Hr) as [i' E]. exists i'.
  unfold with_depth. cbn [depth tokens pos].
  destruct (Nat.ltb_spec maxExpressionDepth (S d)); [lia|]. by rewrite E.
Qed.
End Reading.

Section Reading_derived.
Context {A : Type} (d : nat) (a : A) (F : token -> bool).
Implicit Types (ts : list token) (t : token).

Lemma bind_assoc {B C} (m : P B) (g : B -> P C) (f : C -> P A) ts :
  reads d (m ≫= fun b => g b ≫= f) ts a F -> reads d ((m ≫= g) ≫= f) ts a F.
Proof.
  intros Hm rest i Hr. destruct (Hm rest i Hr) as [i' E]. exists i'. rewrite <- E.
  unfold mbind, P_bind. by destruct (m _) as [[b p]|].
Qed.

Lemma reads_expect k s (f : unit -> P A) t ts :
  kind t = k -> k <> tokenEOF -> reads d (f tt) ts a F -> reads d (expect k s ≫= f) (t :: ts) a F.
Proof. intros Hk Hne Hf. apply bind_assoc, reads_consume; done. Qed.

Lemma reads_expectKeyword k s (f : unit -> P A) t ts :
  is_keyword_token k t = true -> reads d (f tt) ts a F ->
  reads d (expectKeyword k s ≫= f) (t :: ts) a F.
Proof. intros Hk Hf. apply bind_assoc, reads_keyword; done. Qed.

Lemma reads_expect_token k s (f : string -> P A) t ts :
  kind t = k -> k <> tokenEOF -> reads d (f (literal t)) ts a F ->
  reads d (expect_token k s ≫= f) (t :: ts) a F.
Proof.
  intros Hk Hne Hf. apply bind_assoc, reads_current. rewrite bool_decide_true by done.
  apply bind_assoc, reads_advance; [congruence|done].
Qed.

Lemma reads_or_fail {B} (r : option B) b s args (f : B -> P A) ts :
  r = Some b -> reads d (f b) ts a F -> reads d (or_fail r s args ≫= f) ts a F.
Proof. by intros ->. Qed.

Lemma reads_or_errorf {B} (r : result _ B) b (f : B -> P A) ts :
  r = Ok b -> reads d (f b) ts a F -> reads d (or_errorf r ≫= f) ts a F.
Proof. by intros ->. Qed.
End Reading_derived.

(** A loop that reads the items [xs], and stops at the token that follows. *)
Lemma reads_for_loop {S X} d (step : S -> P (option S)) (g : S -> X -> S) (tx : X -> list token)
    (F Fmid : token -> bool) xs s :
  (forall s x, x ∈ xs -> reads d (step s) (tx x) (Some (g s x)) Fmid) ->
  (forall s, reads d (step s) [] None F) ->
  (forall x ts, x ∈ xs -> Fmid (next_token (tx x ++ ts)) = true /\ tx x <> []) ->
  (forall t, F t = true -> Fmid t = true) ->
  reads d (for_loop step s) (List.concat (map tx xs)) (fold_left g xs s) F.
Proof.
  intros Hstep Hstop Hmid HF rest i Hr. unfold for_loop. cbn [tokens].
  set (n := List.length (List.concat (map tx xs) ++ rest)).
  assert (List.length xs <= n) as Hn.
  { unfold n. rewrite length_app. enough (List.length xs <= List.length (List.concat (map tx xs))) by lia.
    clear - Hmid. induction xs as [|x xs IH]; cbn; [lia|]. rewrite length_app.
    destruct (Hmid x [] ltac:(left)) as [_ Hne]. destruct (tx x); [done|]. cbn.
    assert (List.length xs <= List.length (List.concat (map tx xs))); [|lia].
    apply IH. intros y ts Hy. apply Hmid. by right. }
  clearbody n. revert s i n Hn. induction xs as [|x xs IH]; intros s i n Hn; cbn.
  - unfold mbind, P_bind. destruct (Hstop s rest i Hr) as [i' E]. cbn in E. rewrite E. by exists i'.
  - cbn in Hn. destruct n as [|n]; [lia|]. rewrite <- app_assoc.
    assert (Fmid (next_token (List.concat (map tx xs) ++ rest)) = true) as Hf.
    { destruct xs as [|y ys]; [by apply HF|]. cbn. rewrite <- app_assoc. apply Hmid.
      right. left. }
    destruct (Hstep s x ltac:(left) _ i Hf) as [i1 E1]. unfold mbind at 1, P_bind at 1. rewrite E1.
    apply IH; [| |lia].
    + intros s' y Hy. apply Hstep. by right.
    + intros y ts Hy. apply Hmid. by right.
Qed.

(** ** What may follow *)

Definition is_kind (k : tokenKind) (t : token) : bool := bool_decide (kind t = k).
Definition follow_primary (t : token) : bool := negb (is_kind tokenLParen t).
Definition follow_cast (t : token) : bool := follow_primary t && negb (is_kind tokenCast t).
Definition follow_operand (t : token) : bool :=
  follow_cast t && match additiveOp t with None => true | Some _ => false end.
Definition follow_and (t : token) : bool :=
  follow_operand t && negb (is_keyword_token "AND" t).
Definition follow_or (t : token) : bool := follow_and t && negb (is_keyword_token "OR" t).

Lemma is_kind_false k t : negb (is_kind k t) = true -> kind t <> k.
Proof. unfold is_kind. by case_bool_decide. Qed.

Ltac follows := repeat match goal with
  | H : follow_or _ = true |- _ => apply andb_true_iff in H as [H ?]
  | H : follow_and _ = true |- _ => apply andb_true_iff in H as [H ?]
  | H : follow_operand _ = true |- _ => apply andb_true_iff in H as [H ?]
  | H : follow_cast _ = true |- _ => apply andb_true_iff in H as [H ?]
  | H : follow_primary _ = true |- _ => unfold follow_primary in H
  | H : negb (is_kind _ _) = true |- _ => apply is_kind_false in H
  | H : negb _ = true |- _ => apply negb_true_iff in H
  end.

(** One token of a concrete list. *)
Ltac read_token :=
  first
    [ apply reads_ret
    | apply reads_advance; [done|]
    | apply reads_expect; [done|done|]
    | apply reads_expect_token; [done|done|]
    | apply reads_expectKeyword; [reflexivity|]
    | apply reads_consume; [done|done|]
    | apply reads_keyword; [reflexivity|] ]; cbn [literal kw str_ num oper].

(** Evaluate the keyword tests on concrete identifiers. *)
Ltac eval_keywords :=
  repeat match goal with
  | |- context [is_keyword_token ?k (kw ?s)] =>
      let b := eval vm_compute in (is_keyword_token k (kw s)) in
      lazymatch b with true => idtac | false => idtac end;
      replace (is_keyword_token k (kw s)) with b by (vm_compute; reflexivity)
  end; cbn [andb]; cbn iota.

(** ** Operands *)

Lemma castable_name t : castable t = true -> ParseCastType (ValueType_string t) = Some t.
Proof. by destruct t. Qed.

Lemma wf_field_keyword n k :
  wf_field n = true -> k ∈ operand_keywords -> is_keyword_token k (kw n) = false.
Proof.
  unfold wf_field. rewrite andb_true_iff, negb_true_iff. intros [_ H] Hk.
  rewrite existsb_false_elem in H. unfold kw. rewrite keyword_ident. by apply H.
Qed.

Lemma wf_field_keywords n :
  wf_field n = true ->
  is_keyword_token "TRUE" (kw n) = false /\ is_keyword_token "FALSE" (kw n) = false /\
  is_keyword_token "NULL" (kw n) = false /\ is_keyword_token "TIMESTAMP" (kw n) = false /\
  is_keyword_token "DATE" (kw n) = false /\ is_keyword_token "INTERVAL" (kw n) = false.
Proof.
  intros Hn. unfold wf_field, operand_keywords in Hn. cbn [existsb] in Hn.
  rewrite !negb_orb, !andb_true_iff, !negb_true_iff in Hn. by destruct_and!.
Qed.

Section Operand_reads.
Context (fuel d : nat).
Local Abbreviation primary := (parsePrimary fuel).
Implicit Types (ts : list token) (e : Expr).

Definition reads_primary e : Prop := reads d primary (operand_tokens e) e follow_primary.

(** The items of a sum after its first operand. *)
Definition item_tokens (x : ArithmeticOp * Expr) : list token :=
  oper (arith_text x.1) :: operand_tokens x.2.
Definition add_item (l : Expr) (x : ArithmeticOp * Expr) : Expr := ArithmeticExpr x.1 l x.2.

Lemma parseCastOperand_reads e :
  reads_primary e -> reads d (parseCastOperand primary) (operand_tokens e) e follow_cast.
Proof.
  intros He. apply (reads_bind_last _ _ _ _ (parsePostfixCasts) _ e).
  - eapply reads_weaken; [exact He|]. intros t H. by apply andb_true_iff in H as [? _].
  - apply (reads_for_loop _ _ (fun (e : Expr) (_ : unit) => e) (fun _ => []) _ follow_cast []);
      try (intros; by (done || set_solver)).
    intros e'. unfold postfixCast. apply reads_consume_not; [|apply reads_ret].
    intros rest H. cbn. by follows.
Qed.

Lemma parseOperand_reads e b xs :
  e = fold_left add_item xs b ->
  operand_tokens e = operand_tokens b ++ List.concat (map item_tokens xs) ->
  reads_primary b ->
  (forall x, x ∈ xs -> known_arith x.1 = true /\ reads_primary x.2) ->
  reads d (parseOperand primary) (operand_tokens e) e follow_operand.
Proof.
  intros He Hts Hb Hxs. rewrite Hts. unfold parseOperand, parseAdditiveExpr.
  eapply reads_bind; [by apply parseCastOperand_reads| |].
  - rewrite He. apply (reads_for_loop _ _ _ _ _ follow_cast).
    + intros l [op r] Hx. destruct (Hxs _ Hx) as [Hop Hr].
      unfold additiveTerm, item_tokens. cbn [fst snd] in *. apply reads_current.
      assert (additiveOp (oper (arith_text op)) = Some op) as -> by (by destruct op).
      read_token. eapply reads_bind_last; [by apply parseCastOperand_reads|apply reads_ret].
    + intros l. unfold additiveTerm. apply reads_current_nil. intros t Ht. follows.
      destruct (additiveOp t); [done|apply reads_ret].
    + intros [op r] ts _. split; [|done]. by destruct op.
    + intros t H. by apply andb_true_iff in H as [? _].
  - intros rest Hr. destruct xs as [|[op r] xs]; cbn; [|by destruct op].
    by apply andb_true_iff in Hr as [? _].
Qed.
End Operand_reads.

(** An operand is a sum of primaries, each of which reads back. *)
Definition sum_of_primaries (fuel d : nat) (e : Expr) : Prop := exists b xs,
  e = fold_left add_item xs b /\
  operand_tokens e = operand_tokens b ++ List.concat (map item_tokens xs) /\
  reads_primary fuel d b /\
  (forall x, x ∈ xs -> known_arith x.1 = true /\ reads_primary fuel d x.2) /\
  (is_arith e = false -> b = e).

Lemma sum_single fuel d e : reads_primary fuel d e -> sum_of_primaries fuel d e.
Proof. intros He. exists e, []. cbn. rewrite app_nil_r. split_and!; try done. set_solver. Qed.

Lemma sum_operand fuel d e :
  sum_of_primaries fuel d e ->
  reads d (parseOperand (parsePrimary fuel)) (operand_tokens e) e follow_operand.
Proof. intros (b & xs & ? & ? & ? & ? & _). by eapply parseOperand_reads. Qed.

Lemma operand_depth_pos e : 1 <= operand_depth e.
Proof. induction e; cbn; lia. Qed.

(** An identifier, a string or a number at the start of a primary. *)
Lemma reads_primary_body fuel d e t ts :
  operand_tokens e = t :: ts -> d < maxExpressionDepth ->
  (forall u, (ts = [] -> kind u <> tokenLParen) -> (forall v vs, ts = v :: vs -> u = v) ->
    reads (S d)
      (if is_keyword_token "CAST" t then parseCastCall (parsePrimary fuel)
       else if is_keyword_token "NOW" t && bool_decide (kind u = tokenLParen) then parseNowCall
       else match kind t with
            | tokenIdent => parseIdentPrimary t u
            | tokenString => _ ← advance; mret (StringLiteral (literal t))
            | tokenNumber => _ ← advance; parseNumber (literal t)
            | _ => errorf "expected expression" []
            end) (t :: ts) e follow_primary) ->
  reads_primary (S fuel) d e.
Proof.
  intros Hts Hd Hbody. unfold reads_primary. rewrite Hts. cbn [parsePrimary].
  apply reads_with_depth; [done|]. unfold parsePrimaryBody. apply reads_current.
  eapply (reads_peek _ _ _ (fun u => (ts = [] -> kind u <> tokenLParen) /\
    (forall v vs, ts = v :: vs -> u = v))).
  - intros rest Hr. split.
    + intros ->. cbn. by follows.
    + intros v vs ->. done.
  - intros u [H1 H2]. by apply Hbody.
Qed.

Lemma digits_no_point s : string_forall IsDigit s = true -> Contains s "." = false.
Proof.
  induction s as [|c s IH]; [done|]. cbn [string_forall Contains]. intros [Hc Hs]%andb_true_iff.
  rewrite IH by done. rewrite orb_false_r. unfold String.prefix.
  destruct (ascii_dec "." c) as [<-|]; [by vm_compute in Hc|done].
Qed.


Lemma parseNumber_int z F d :
  int64 z = true -> reads d (parseNumber (itoa z)) [] (IntLiteral z) F.
Proof.
  unfold int64. intros Hz. destruct (itoa_spec z ltac:(lia)) as [Hd Hv]. unfold parseNumber.
  assert (Contains (itoa z) "." = false) as ->.
  { apply digits_no_point. by apply andb_true_iff in Hd as [_ ?]. }
  eapply reads_or_fail; [|apply reads_ret]. rewrite ParseInt64_digits by done. rewrite Hv.
  by rewrite (proj2 (Z.ltb_lt _ _)) by lia.
Qed.

(** [parsePrimary] on the first token of each kind of operand. *)
Section Primary_reads.
Context (fuel d : nat) (Hd : d < maxExpressionDepth).
Local Abbreviation reads_leaf := (reads_primary (S fuel) d).

Lemma field_reads n : wf_field n = true -> reads_leaf (FieldRef n).
Proof.
  intros Hwf. eapply reads_primary_body; [done..|]. intros u Hnil _. specialize (Hnil eq_refl).
  rewrite (wf_field_keyword n "CAST") by (done || left).
  rewrite (bool_decide_false _ Hnil), andb_false_r. cbn [kw kind].
  unfold parseIdentPrimary. rewrite (bool_decide_false _ Hnil), andb_false_r. fold (kw n).
  destruct (wf_field_keywords n Hwf) as (-> & -> & -> & -> & -> & ->). repeat read_token.
Qed.

Lemma attr_reads a : is_ok (validateAttributePath a) = true -> reads_leaf (AttrRef a).
Proof.
  intros Hwf. eapply reads_primary_body; [done..|]. intros u _ Hcons.
  specialize (Hcons _ _ eq_refl) as ->. destruct (validateAttributePath a) as [[]|] eqn:Hv; [|done].
  eval_keywords. cbn [kw kind]. unfold parseIdentPrimary. fold (kw "ATTR"). eval_keywords.
  rewrite bool_decide_true by done. unfold parseAttrRef. do 3 read_token.
  eapply reads_or_errorf; [exact Hv|]. repeat read_token.
Qed.

Lemma cast_reads e t :
  castable t = true ->
  reads (S d) (parseOperand (parsePrimary fuel)) (operand_tokens e) e follow_operand ->
  reads_leaf (CastExpr e t).
Proof.
  intros Ht He. eapply reads_primary_body; [done..|]. intros u _ _.
  eval_keywords. unfold parseCastCall. cbn [app]. do 2 read_token.
  eapply reads_bind; [exact He| |by intros].
  read_token. apply bind_assoc. read_token. rewrite castable_name by done. repeat read_token.
Qed.

Lemma string_reads s : reads_leaf (StringLiteral s).
Proof. eapply reads_primary_body; [done..|]. intros u _ _. cbn. repeat read_token. Qed.

Lemma int_reads z : int64 z = true -> reads_leaf (IntLiteral z).
Proof.
  intros Hz. eapply reads_primary_body; [done..|]. intros u _ _. cbn [num kind literal].
  read_token. by apply parseNumber_int.
Qed.

Lemma float_reads f : literals_ok (FloatLiteral f) = true -> reads_leaf (FloatLiteral f).
Proof.
  cbn. destruct (format_decimal f) as [s|] eqn:Hs; [|done].
  rewrite !andb_true_iff, bool_decide_eq_true. intros [[_ Hc] Hp].
  eapply reads_primary_body; [cbn; by rewrite Hs|done|]. intros u _ _. cbn [from_option id num kind literal].
  read_token. unfold parseNumber. rewrite Hc. eapply reads_or_fail; [exact Hp|]. repeat read_token.
Qed.

Lemma bool_reads b : reads_leaf (BoolLiteral b).
Proof.
  eapply reads_primary_body; [done..|]. intros u Hnil _. specialize (Hnil eq_refl).
  destruct b; eval_keywords; cbn [kw kind]; unfold parseIdentPrimary;
    [fold (kw "TRUE")|fold (kw "FALSE")]; eval_keywords; repeat read_token.
Qed.

Lemma timestamp_reads t :
  ParseRFC3339 (FormatRFC3339NanoUTC t) = Some t -> reads_leaf (TimestampLiteral t).
Proof.
  intros Ht. eapply reads_primary_body; [done..|]. intros u _ Hcons.
  specialize (Hcons _ _ eq_refl) as ->. eval_keywords. cbn [kw kind]. unfold parseIdentPrimary.
  fold (kw "TIMESTAMP"). eval_keywords. unfold parseTimestampLiteral. do 2 read_token.
  eapply reads_or_fail; [exact Ht|]. read_token.
Qed.

Lemma now_reads : reads_leaf NowExpr.
Proof.
  eapply reads_primary_body; [done..|]. intros u _ Hcons. specialize (Hcons _ _ eq_refl) as ->.
  eval_keywords. rewrite bool_decide_true by done. unfold parseNowCall. do 2 read_token.
  apply reads_at; [done|]. cbn iota. repeat read_token.
Qed.

Lemma interval_reads v : ParseIntervalValue v = Some v -> reads_leaf (IntervalLiteral v).
Proof.
  intros Hv. eapply reads_primary_body; [done..|]. intros u _ Hcons.
  specialize (Hcons _ _ eq_refl) as ->. eval_keywords. cbn [kw kind]. unfold parseIdentPrimary.
  fold (kw "INTERVAL"). eval_keywords. unfold parseIntervalLiteral. do 2 read_token.
  eapply reads_or_fail; [exact Hv|]. read_token.
Qed.

Lemma nullliteral_reads : reads_leaf NullLiteral.
Proof.
  eapply reads_primary_body; [done..|]. intros u _ _. eval_keywords. cbn [kw kind].
  unfold parseIdentPrimary. fold (kw "NULL"). eval_keywords. repeat read_token.
Qed.
End Primary_reads.

Lemma operand_sum e fuel d :
  wf_operand e = true -> literals_ok e = true ->
  d + operand_depth e <= maxExpressionDepth -> maxExpressionDepth < fuel + d ->
  sum_of_primaries fuel d e.
Proof.
  revert fuel d. induction e using Expr_ind'; intros fuel dp Hwf Hlit Hdep Hf; try done;
    (destruct fuel as [|fuel]; [pose proof (operand_depth_pos NowExpr); cbn in *; lia|]);
    cbn [operand_depth wf_operand literals_ok] in *;
    try (apply sum_single; lazymatch goal with
      | |- reads_primary _ _ (FieldRef _) => apply field_reads
      | |- reads_primary _ _ (AttrRef _) => apply attr_reads
      | |- reads_primary _ _ (StringLiteral _) => apply string_reads
      | |- reads_primary _ _ (IntLiteral _) => apply int_reads
      | |- reads_primary _ _ (BoolLiteral _) => apply bool_reads
      | |- reads_primary _ _ NowExpr => apply now_reads
      | |- reads_primary _ _ NullLiteral => apply nullliteral_reads
      end; by (done || lia)).
  - (* CastExpr *)
    apply andb_true_iff in Hwf as [Hwf Ht]. apply sum_single, cast_reads; [lia|done|].
    apply sum_operand, IHe; [done..|lia|lia].
  - apply sum_single, float_reads; [lia|done].
  - apply bool_decide_eq_true in Hlit. apply sum_single, timestamp_reads; [lia|done].
  - apply bool_decide_eq_true in Hlit. apply sum_single, interval_reads; [lia|done].
  - (* ArithmeticExpr *)
    rewrite !andb_true_iff, negb_true_iff in Hwf. destruct Hwf as [[[Hop Hl] Hr] Har].
    apply andb_true_iff in Hlit as [Hll Hlr].
    destruct (IHe1 (S fuel) dp) as (b & xs & He & Hts & Hb & Hxs & _); [done..|lia|lia|].
    destruct (IHe2 (S fuel) dp) as (b2 & xs2 & _ & _ & Hb2 & _ & Heq); [done..|lia|lia|].
    rewrite (Heq Har) in Hb2. exists b, (xs ++ [(op, e2)]). split_and!; try done.
    + by rewrite fold_left_app, <- He.
    + cbn [operand_tokens]. rewrite Hts, map_app, List.concat_app, <- app_assoc. cbn.
      by rewrite app_nil_r.
    + intros x [Hx| ->%list_elem_of_singleton]%elem_of_app; [by apply Hxs|done].
Qed.

Lemma operand0_reads d e :
  wf_operand e = true -> literals_ok e = true -> d + operand_depth e <= maxExpressionDepth ->
  reads d operand0 (operand_tokens e) e follow_operand.
Proof.
  intros Hwf Hlit Hd. apply sum_operand, operand_sum; [done..|]. unfold depth_fuel. lia.
Qed.

(** ** The first token of an operand *)

Definition operand_start (t : token) : Prop :=
  kind t = tokenIdent \/ kind t = tokenString \/ kind t = tokenNumber.
(** [t] then [u] do not start a predicate call or a negation. *)
Definition no_call (t u : token) : Prop :=
  is_keyword_token "HAS_RELATION" t && bool_decide (kind u = tokenLParen) = false /\
  is_keyword_token "BUCKET" t && bool_decide (kind u = tokenLParen) = false.

Lemma operand_first e : exists t ts, operand_tokens e = t :: ts /\ operand_start t.
Proof.
  unfold operand_start. induction e; cbn; try (eexists _, _; split; [done|cbn; tauto]).
  destruct IHe1 as (t & ts & -> & ?). eexists _, _. split; [done|done].
Qed.

Lemma operand_first_left e :
  wf_left e = true -> exists t ts, operand_tokens e = t :: ts /\ operand_start t /\
    is_keyword_token "NOT" t = false /\
    forall rest, kind (next_token rest) <> tokenLParen -> no_call t (next_token (ts ++ rest)).
Proof.
  unfold wf_left, operand_start. rewrite andb_true_iff, negb_true_iff. intros [Hwf Hn].
  induction e; cbn in Hwf, Hn |- *; try done;
    try (eexists _, _; split_and!; [done|cbn; tauto|reflexivity|intros; split; reflexivity]).
  - eexists _, _. split_and!; [done|cbn; tauto|exact Hn|]. intros rest Hr.
    unfold no_call. rewrite (bool_decide_false _ Hr). by rewrite !andb_false_r.
  - destruct Value; eexists _, _; split_and!;
      [done|cbn; tauto|reflexivity|intros; split; reflexivity|done|cbn; tauto|reflexivity
      |intros; split; reflexivity].
  - rewrite !andb_true_iff in Hwf. destruct IHe1 as (t & ts & -> & ? & ? & Hc); [tauto|done|].
    eexists _, _. split_and!; [done|done|done|]. intros rest Hr. rewrite <- app_assoc. by apply Hc.
Qed.

(** ** Lists of terms *)

Lemma fold_left_snoc {A} (xs : list A) acc : fold_left (fun l x => l ++ [x]) xs acc = acc ++ xs.
Proof.
  revert acc; induction xs as [|x xs IH]; intros acc; cbn; [by rewrite app_nil_r|].
  rewrite IH. by rewrite <- app_assoc.
Qed.

Lemma sep_tokens_map {A} sep (f : A -> list token) x xs :
  sep_tokens sep (map f (x :: xs)) = f x ++ List.concat (map (fun y => sep :: f y) xs).
Proof. cbn. by rewrite map_map. Qed.

(** A loop that appends items, each after a separator. *)
Lemma reads_items {A} d (step : list A -> P (option (list A))) (sep : token) (f : A -> list token)
    (F Fmid : token -> bool) x xs :
  (forall l y, y ∈ xs -> reads d (step l) (sep :: f y) (Some (l ++ [y])) Fmid) ->
  (forall l, reads d (step l) [] None F) ->
  Fmid sep = true -> (forall t, F t = true -> Fmid t = true) ->
  reads d (for_loop step [x]) (List.concat (map (fun y => sep :: f y) xs)) (x :: xs) F.
Proof.
  intros Hstep Hstop Hsep HF. change (x :: xs) with ([x] ++ xs). rewrite <- fold_left_snoc.
  by apply (reads_for_loop _ _ _ (fun y => sep :: f y) _ Fmid).
Qed.

Lemma items_follow (sep : token) {A} (f : A -> list token) (F Fmid : token -> bool) xs rest :
  Fmid sep = true -> (forall t, F t = true -> Fmid t = true) -> F (next_token rest) = true ->
  Fmid (next_token (List.concat (map (fun y => sep :: f y) xs) ++ rest)) = true.
Proof. intros Hsep HF Hr. destruct xs; [by apply HF|done]. Qed.

Lemma moreTerms_reads d keyword term (f : Expr -> list token) (F Fmid : token -> bool) x xs :
  (forall y, y ∈ xs -> reads d term (f y) y Fmid) ->
  is_keyword_token keyword (kw keyword) = true -> Fmid (kw keyword) = true ->
  (forall t, F t = true -> Fmid t = true /\ is_keyword_token keyword t = false) ->
  reads d (for_loop (moreTerms keyword term) [x])
    (List.concat (map (fun y => kw keyword :: f y) xs)) (x :: xs) F.
Proof.
  intros Hterm Hk Hmid HF. apply (reads_items _ _ _ _ _ Fmid); [| |done|by apply HF].
  - intros l y Hy. unfold moreTerms. apply reads_keyword; [done|].
    eapply reads_bind_last; [by apply Hterm|apply reads_ret].
  - intros l. unfold moreTerms. apply reads_keyword_not; [|apply reads_ret].
    intros rest Hr. by apply HF.
Qed.

Lemma follow_or_and t : follow_or t = true -> follow_and t = true.
Proof. by intros [? _]%andb_true_iff. Qed.
Lemma follow_and_operand t : follow_and t = true -> follow_operand t = true.
Proof. by intros [? _]%andb_true_iff. Qed.

Section Condition_reads.
Context (d : nat) (rec : P Expr).

(** A conjunction, possibly of one term. *)
Lemma parseAndExpr_reads (f : Expr -> list token) x xs :
  (forall y, y ∈ x :: xs -> reads d rec (f y) y follow_operand) ->
  reads d (parseAndExpr rec) (f x ++ List.concat (map (fun y => kw "AND" :: f y) xs))
    (match xs with [] => x | _ => BoolExpr BoolAnd (x :: xs) end) follow_and.
Proof.
  intros Hterm. unfold parseAndExpr. eapply reads_bind; [apply Hterm; left| |].
  - eapply reads_bind_last.
    + apply (moreTerms_reads _ _ _ _ _ follow_operand); [|reflexivity|reflexivity|].
      * intros y Hy. apply Hterm. by right.
      * intros t Ht. split; [by apply follow_and_operand|]. by follows.
    + destruct xs; cbn; apply reads_ret.
  - intros rest Hr. by apply (items_follow _ _ follow_and); [|apply follow_and_operand|].
Qed.

Lemma parseBoolExpr_reads (f : Expr -> list token) x xs :
  (forall y, y ∈ x :: xs -> reads d (parseAndExpr rec) (f y) y follow_and) ->
  reads d (parseBoolExpr rec) (f x ++ List.concat (map (fun y => kw "OR" :: f y) xs))
    (match xs with [] => pointerExpr x | _ => BoolExpr BoolOr (x :: xs) end) follow_or.
Proof.
  intros Hterm. unfold parseBoolExpr. eapply reads_bind; [apply Hterm; left| |].
  - eapply reads_bind_last.
    + apply (moreTerms_reads _ _ _ _ _ follow_and); [|reflexivity|reflexivity|].
      * intros y Hy. apply Hterm. by right.
      * intros t Ht. split; [by apply follow_or_and|]. by follows.
    + destruct xs; cbn; apply reads_ret.
  - intros rest Hr. by apply (items_follow _ _ follow_or); [|apply follow_or_and|].
Qed.

Lemma and_single ts e :
  reads d rec ts e follow_operand -> reads d (parseAndExpr rec) ts e follow_and.
Proof.
  intros H. pose proof (parseAndExpr_reads (fun _ => ts) e []) as H'. cbn in H'.
  rewrite app_nil_r in H'. apply H'. by intros y ->%list_elem_of_singleton.
Qed.

Lemma bool_single ts e :
  reads d (parseAndExpr rec) ts e follow_and -> reads d (parseBoolExpr rec) ts (pointerExpr e) follow_or.
Proof.
  intros H. pose proof (parseBoolExpr_reads (fun _ => ts) e []) as H'. cbn in H'.
  rewrite app_nil_r in H'. apply H'. by intros y ->%list_elem_of_singleton.
Qed.
End Condition_reads.

(** ** Comparisons *)

Section Comparison_reads.
Context (d : nat).
Definition operand_fits (e : Expr) : Prop :=
  wf_operand e = true /\ literals_ok e = true /\ d + operand_depth e <= maxExpressionDepth.

Lemma fits_reads e : operand_fits e -> reads d operand0 (operand_tokens e) e follow_operand.
Proof. intros (? & ? & ?). by apply operand0_reads. Qed.

(** [parseUnaryBody] on tokens that start with an operand. *)
Lemma unary_comparison rec e ts a F :
  wf_left e = true -> kind (next_token ts) <> tokenLParen -> ts <> [] ->
  reads d (parseComparison operand0) (operand_tokens e ++ ts) a F ->
  reads d (parseUnaryBody operand0 rec) (operand_tokens e ++ ts) a F.
Proof.
  intros Hwf Hts Hne Hc. destruct (operand_first_left e Hwf) as (t & ts' & E & Hst & Hn & Hcall).
  rewrite E in *. unfold parseUnaryBody. apply reads_keyword_not; [by intros|]. cbn iota.
  apply reads_current. cbn [app].
  apply (reads_peek _ _ _ (no_call t)).
  - intros rest _. rewrite <- app_assoc. apply Hcall. by destruct ts.
  - intros u [H1 H2]. rewrite H1, H2. apply reads_consume_not; [|done].
    intros rest _. cbn. destruct Hst as [-> | [-> | ->]]; done.
Qed.

Lemma comparison_reads op l r :
  known_comparison op = true -> operand_fits l -> operand_fits r ->
  reads d (parseComparison operand0)
    (operand_tokens l ++ [comparison_token op] ++ operand_tokens r)
    (Comparison Val op l r) follow_operand.
Proof.
  intros Hop Hl Hr. unfold parseComparison. eapply reads_bind; [by apply fits_reads| |by destruct op].
  cbn [app]. do 3 (apply reads_keyword_not; [intros ? _; by destruct op|]; cbn iota).
  assert (reads d (right ← operand0; mret (Comparison Val op l right)) (operand_tokens r)
    (Comparison Val op l r) follow_operand) as Hrest.
  { eapply reads_bind_last; [by apply fits_reads|apply reads_ret]. }
  unfold parseComparisonOp. apply bind_assoc, reads_current.
  destruct op; try done; repeat first [ exact Hrest | read_token | apply bind_assoc ].
Qed.

Lemma in_reads l vs :
  operand_fits l -> 1 <= List.length vs -> (forall v, v ∈ vs -> operand_fits v) ->
  reads d (parseComparison operand0)
    (operand_tokens l ++ [kw "IN"; lpar] ++ sep_tokens comma (map operand_tokens vs) ++ [rpar])
    (InComparison Val l vs) follow_operand.
Proof.
  intros Hl Hlen Hvs. destruct vs as [|v vs]; [cbn in Hlen; lia|]. unfold parseComparison.
  eapply reads_bind; [by apply fits_reads| |by intros]. cbn [app]. do 1 read_token. cbn iota.
  unfold parseInComparison. read_token. rewrite sep_tokens_map, <- app_assoc.
  destruct (operand_first v) as (t & ts & E & Hst).
  apply reads_at_not.
  { intros rest _. rewrite E. cbn. destruct Hst as [-> | [-> | ->]]; done. }
  eapply reads_bind; [apply fits_reads; apply Hvs; left| |].
  - eapply (reads_bind _ _ _ _ _ _ _ _ (is_kind tokenRParen)).
    + apply (reads_items _ _ _ _ _ follow_operand); [| |reflexivity|].
      * intros l0 y Hy. unfold inValue. read_token. cbn iota.
        destruct (operand_first y) as (t' & ts' & E' & Hst').
        apply reads_at_not.
        { intros rest _. rewrite E'. cbn. destruct Hst' as [-> | [-> | ->]]; done. }
        eapply reads_bind_last; [apply fits_reads; apply Hvs; by right|apply reads_ret].
      * intros l0. unfold inValue. apply reads_consume_not; [|apply reads_ret].
        intros rest Hr%bool_decide_eq_true. cbn [app]. congruence.
      * intros t' Ht'%bool_decide_eq_true. destruct t' as [k lit]. cbn in Ht'. by subst.
    + repeat read_token.
    + by intros.
  - intros rest _. destruct vs; done.
Qed.

Lemma between_reads l lo up :
  operand_fits l -> operand_fits lo -> operand_fits up ->
  reads d (parseComparison operand0)
    (operand_tokens l ++ [kw "BETWEEN"] ++ operand_tokens lo ++ [kw "AND"] ++ operand_tokens up)
    (BetweenComparison Val l lo up) follow_operand.
Proof.
  intros Hl Hlo Hup. unfold parseComparison.
  eapply reads_bind; [by apply fits_reads| |by intros]. cbn [app].
  apply reads_keyword_not; [by intros|]. cbn iota. read_token. unfold parseBetweenComparison.
  eapply reads_bind; [by apply fits_reads| |by intros]. read_token.
  eapply reads_bind_last; [by apply fits_reads|apply reads_ret].
Qed.

Lemma null_reads l n :
  operand_fits l ->
  reads d (parseComparison operand0)
    (operand_tokens l ++ [kw "IS"] ++ (if n : bool then [kw "NOT"] else []) ++ [kw "NULL"])
    (NullComparison Val l n) follow_operand.
Proof.
  intros Hl. unfold parseComparison.
  eapply reads_bind; [by apply fits_reads| |by intros]. cbn [app].
  do 2 (apply reads_keyword_not; [by intros|]; cbn iota). read_token. unfold parseNullComparison.
  destruct n; cbn [app]; [|apply reads_keyword_not; [by intros|]]; repeat read_token.
Qed.
End Comparison_reads.

Lemma relation_reads d t dir rec :
  is_ok (validateRelationType t) = true -> known_direction dir = true ->
  reads d (parseUnaryBody operand0 rec)
    [kw "HAS_RELATION"; lpar; str_ t; comma; str_ (RelationDirection_string dir); rpar]
    (RelationPredicate Val t dir) follow_operand.
Proof.
  intros Ht Hd. unfold parseUnaryBody. apply reads_keyword_not; [by intros|]. cbn iota.
  apply reads_current. apply (reads_peek _ _ _ (fun u => u = lpar)); [by intros|]. intros u ->.
  change (reads d parseRelationPredicate
    [kw "HAS_RELATION"; lpar; str_ t; comma; str_ (RelationDirection_string dir); rpar]
    (RelationPredicate Val t dir) follow_operand).
  unfold parseRelationPredicate. destruct (validateRelationType t) as [[]|] eqn:Hv; [|done].
  do 3 read_token. eapply reads_or_errorf; [exact Hv|]. read_token. cbn iota.
  apply bind_assoc. read_token.
  eapply (reads_or_errorf _ _ _ _ dir); [by destruct dir|]. repeat read_token.
Qed.

Lemma bucket_reads d n rec :
  is_ok (validateBucketName n) = true ->
  reads d (parseUnaryBody operand0 rec) [kw "BUCKET"; lpar; str_ n; rpar]
    (BucketPredicate Val n) follow_operand.
Proof.
  intros Hn. unfold parseUnaryBody. apply reads_keyword_not; [by intros|]. cbn iota.
  apply reads_current. apply (reads_peek _ _ _ (fun u => u = lpar)); [by intros|]. intros u ->.
  change (reads d parseBucketPredicate [kw "BUCKET"; lpar; str_ n; rpar]
    (BucketPredicate Val n) follow_operand).
  unfold parseBucketPredicate. destruct (validateBucketName n) as [[]|] eqn:Hv; [|done].
  do 3 read_token. eapply reads_or_errorf; [exact Hv|]. repeat read_token.
Qed.

(** ** Conditions *)

(** The condition as [parseUnaryExpr] returns it, held by value. *)
Definition by_value (e : Expr) : Expr :=
  match e with
  | NotExpr _ e => NotExpr Val e
  | Comparison _ op l r => Comparison Val op l r
  | InComparison _ l vs => InComparison Val l vs
  | BetweenComparison _ l lo up => BetweenComparison Val l lo up
  | NullComparison _ l n => NullComparison Val l n
  | RelationPredicate _ t d => RelationPredicate Val t d
  | BucketPredicate _ n => BucketPredicate Val n
  | e => e
  end.

Local Abbreviation unary fuel := (parseUnaryExpr operand0 fuel).

(** A condition without parentheses is read by the method of its level. *)
Definition condition_reads (fuel d : nat) (e : Expr) : Prop :=
  match e with
  | BoolExpr BoolAnd _ => reads d (parseAndExpr (unary fuel)) (condition_tokens e) e follow_and
  | BoolExpr _ _ => reads d (parseBoolExpr (unary fuel)) (condition_tokens e) e follow_or
  | _ => reads d (unary fuel) (condition_tokens e) (by_value e) follow_operand
  end.

Definition readable (e : Expr) : Prop := forall fuel d,
  wf_condition e = true -> literals_ok e = true ->
  d + condition_depth e <= maxExpressionDepth -> maxExpressionDepth < fuel + d ->
  condition_reads fuel d e.

(** [parseBoolExpr] reads a condition whose outermost node is a pointer. *)
Lemma top_reads fuel d e :
  is_bool e || is_pointer e = true -> condition_reads fuel d e ->
  reads d (parseBoolExpr (unary fuel)) (condition_tokens e) e follow_or.
Proof.
  intros Htop He.
  assert (is_bool e = false -> reads d (unary fuel) (condition_tokens e) (by_value e) follow_operand ->
    pointerExpr (by_value e) = e -> reads d (parseBoolExpr (unary fuel)) (condition_tokens e) e follow_or)
    as Hsimple.
  { intros _ H Heq. rewrite <- Heq at 2. by apply bool_single, and_single. }
  destruct e as [|[] ts|[]|[]|[]|[]|[]|[]|[]| | | | | | | | | | | |]; try done; try by apply Hsimple.
  by apply (bool_single _ _ _ (BoolExpr BoolAnd ts)).
Qed.

Lemma parens_reads fuel d e :
  d < maxExpressionDepth -> is_bool e || is_pointer e = true -> condition_reads fuel (S d) e ->
  reads d (unary (S fuel)) ([lpar] ++ condition_tokens e ++ [rpar]) e follow_operand.
Proof.
  intros Hd Htop He. cbn [parseUnaryExpr]. apply reads_with_depth; [done|].
  unfold parseUnaryBody. apply reads_keyword_not; [by intros|]. cbn iota. cbn [app].
  apply reads_current. eapply (reads_peek _ _ _ (fun _ => True)); [done|]. intros u _.
  change (is_keyword_token "HAS_RELATION" lpar) with false.
  change (is_keyword_token "BUCKET" lpar) with false. cbn [andb]. read_token. cbn iota.
  eapply reads_bind; [by apply top_reads| |by intros]. repeat read_token.
Qed.

Lemma needs_parens_top op e :
  wf_condition e = true -> needs_parens op e = true -> is_bool e || is_pointer e = true.
Proof.
  intros _. unfold needs_parens. destruct (is_pointer e); [by rewrite orb_true_r|]. by destruct e.
Qed.

(** The operand of NOT or a conjunct. *)
Lemma conjunct_reads fuel d e :
  readable e -> wf_condition e = true -> literals_ok e = true ->
  d + ((if needs_parens BoolAnd e then 1 else 0) + condition_depth e) <= maxExpressionDepth ->
  maxExpressionDepth < fuel + d -> d < maxExpressionDepth ->
  reads d (unary fuel) (paren_if (needs_parens BoolAnd e) (condition_tokens e)) e follow_operand.
Proof.
  intros He Hwf Hlit Hdep Hf Hd. destruct (needs_parens BoolAnd e) eqn:Hp; cbn [paren_if].
  - destruct fuel as [|fuel]; [lia|]. apply parens_reads; [done|by eapply needs_parens_top|].
    apply He; [done..|lia|lia].
  - assert (condition_reads fuel d e) as H by (apply He; [done..|lia|lia]).
    by destruct e as [|[] ts|[]|[]|[]|[]|[]|[]|[]| | | | | | | | | | | |].
Qed.

(** A disjunct: a conjunction needs no parentheses. *)
Lemma disjunct_reads fuel d e :
  readable e -> wf_condition e = true -> literals_ok e = true ->
  d + ((if needs_parens BoolOr e then 1 else 0) + condition_depth e) <= maxExpressionDepth ->
  maxExpressionDepth < fuel + d -> d < maxExpressionDepth ->
  reads d (parseAndExpr (unary fuel)) (paren_if (needs_parens BoolOr e) (condition_tokens e)) e
    follow_and.
Proof.
  intros He Hwf Hlit Hdep Hf Hd.
  destruct (needs_parens BoolOr e) eqn:Ho, (needs_parens BoolAnd e) eqn:Ha.
  - apply and_single. rewrite <- Ha. apply conjunct_reads; [done..|by rewrite Ha|done|done].
  - by destruct e as [|[] ts|[]|[]|[]|[]|[]|[]|[]| | | | | | | | | | | |].
  - destruct e as [|[] ts|[]|[]|[]|[]|[]|[]|[]| | | | | | | | | | | |]; try done.
    apply (He fuel d); [done..|cbn in *; lia|lia].
  - apply and_single. rewrite <- Ha. apply conjunct_reads; [done..|by rewrite Ha|done|done].
Qed.

(** NOT applies to a condition of the next level. *)
Lemma not_reads fuel d e :
  readable e -> wf_condition e = true -> literals_ok e = true ->
  S d + ((if needs_parens BoolAnd e then 1 else 0) + condition_depth e) <= maxExpressionDepth ->
  maxExpressionDepth < fuel + S d -> S d < maxExpressionDepth ->
  reads d (unary (S fuel)) (kw "NOT" :: paren_if (needs_parens BoolAnd e) (condition_tokens e))
    (NotExpr Val e) follow_operand.
Proof.
  intros He Hwf Hlit Hdep Hf Hd. cbn [parseUnaryExpr]. apply reads_with_depth; [lia|].
  unfold parseUnaryBody. read_token. cbn iota.
  eapply reads_bind_last; [by apply conjunct_reads|apply reads_ret].
Qed.

Lemma condition_depth_pos e : wf_condition e = true -> 1 <= condition_depth e.
Proof.
  induction e using Expr_ind'; cbn; try done; try lia.
  rewrite !andb_true_iff. intros [[_ Hlen] Hts].
  destruct ts as [|t ts]; [done|]. cbn in *. apply andb_true_iff in Hts as [Ht _].
  inversion H as [|? ? Ht' _]. specialize (Ht' Ht). apply Nat.max_le_iff. left. destruct (needs_parens op t); lia.
Qed.

Lemma max_list_le (l : list nat) x : x ∈ l -> x <= max_list l.
Proof. apply max_list_elem. Qed.

(** Every well-formed condition is read by the method of its level. *)
Lemma terms_readable op d ts y :
  d + condition_depth (BoolExpr op ts) <= maxExpressionDepth ->
  wf_condition (BoolExpr op ts) = true -> literals_ok (BoolExpr op ts) = true -> y ∈ ts ->
  wf_condition y = true /\ literals_ok y = true /\ d < maxExpressionDepth /\
  d + ((if needs_parens op y then 1 else 0) + condition_depth y) <= maxExpressionDepth.
Proof.
  cbn [condition_depth wf_condition literals_ok]. intros Hd [_ Hwf]%andb_true_iff Hlit Hy.
  pose proof (forallb_elem _ _ _ Hwf Hy) as Hwy. pose proof (forallb_elem _ _ _ Hlit Hy) as Hly.
  pose proof (condition_depth_pos y Hwy).
  pose proof (max_list_le (map (fun t => (if needs_parens op t then 1 else 0) + condition_depth t) ts)
    ((if needs_parens op y then 1 else 0) + condition_depth y)
    ltac:(apply list_elem_of_fmap; eauto)) as Hmax.
  split_and!; [done|done| |]; destruct (needs_parens op y); lia.
Qed.

Lemma bool_readable op ts : Forall readable ts -> readable (BoolExpr op ts).
Proof.
  intros IH fuel d Hwf Hlit Hdep Hf.
  assert (forall y, y ∈ ts -> readable y) as IH'.
  { intros y Hy. rewrite List.Forall_forall in IH. apply IH. by apply list_elem_of_In. }
  pose proof (terms_readable op d ts) as Hterm.
  destruct ts as [|x [|x' xs]]; [by destruct op|by destruct op|]. remember (x' :: xs) as xs' eqn:Hxs.
  cbn [condition_tokens]. destruct op as [| |s]; [| |done]; unfold condition_reads;
    cbn [condition_tokens]; rewrite sep_tokens_map; cbn [bool_keyword].
  - pose proof (parseAndExpr_reads d (unary fuel)
      (fun t => paren_if (needs_parens BoolAnd t) (condition_tokens t)) x xs') as H.
    assert (forall a, match xs' with [] => a | _ => BoolExpr BoolAnd (x :: xs') end =
      BoolExpr BoolAnd (x :: xs')) as Hm by (by rewrite Hxs).
    rewrite Hm in H. apply H. intros y Hy.
    destruct (Hterm y) as (? & ? & ? & ?); [done..|]. apply conjunct_reads; auto.
  - pose proof (parseBoolExpr_reads d (unary fuel)
      (fun t => paren_if (needs_parens BoolOr t) (condition_tokens t)) x xs') as H.
    assert (forall a, match xs' with [] => a | _ => BoolExpr BoolOr (x :: xs') end =
      BoolExpr BoolOr (x :: xs')) as Hm by (by rewrite Hxs).
    rewrite Hm in H. apply H. intros y Hy.
    destruct (Hterm y) as (? & ? & ? & ?); [done..|]. apply disjunct_reads; auto.
Qed.

Lemma fits d e :
  wf_operand e = true -> literals_ok e = true -> d + operand_depth e <= maxExpressionDepth ->
  operand_fits d e.
Proof. done. Qed.

Lemma wf_left_operand e : wf_left e = true -> wf_operand e = true.
Proof. by intros [? _]%andb_true_iff. Qed.

Lemma comparison_unary fuel d e ts a :
  wf_left e = true -> kind (next_token ts) <> tokenLParen -> ts <> [] -> d < maxExpressionDepth ->
  reads (S d) (parseComparison operand0) (operand_tokens e ++ ts) a follow_operand ->
  reads d (unary (S fuel)) (operand_tokens e ++ ts) a follow_operand.
Proof.
  intros. cbn [parseUnaryExpr]. apply reads_with_depth; [done|]. by apply unary_comparison.
Qed.

Lemma condition_readable e : readable e.
Proof.
  induction e using Expr_ind'; try done; [by apply bool_readable|..];
    intros fuel dp Hwf Hlit Hdep Hf; unfold condition_reads;
    cbn [wf_condition literals_ok condition_depth condition_tokens by_value] in *;
    (destruct fuel as [|fuel]; [lia|]).
  - apply not_reads; [done..|lia|lia|]. pose proof (condition_depth_pos e Hwf). lia.
  - rewrite !andb_true_iff in *. destruct Hwf as [[Hop Hl] Hr], Hlit as [Hll Hlr].
    apply comparison_unary; [done|by destruct op|done|lia|].
    apply comparison_reads; [done|eapply fits; eauto using wf_left_operand; lia|eapply fits; eauto; lia].
  - rewrite !andb_true_iff in *. destruct Hwf as [[Hl Hlen] Hvs], Hlit as [Hll Hlvs].
    apply comparison_unary; [done|done|done|lia|]. apply in_reads.
    + eapply fits; eauto using wf_left_operand; lia.
    + by apply Nat.leb_le.
    + intros v Hv. eapply fits; eauto using forallb_elem.
      pose proof (max_list_le (map operand_depth vs) (operand_depth v)
        ltac:(apply list_elem_of_fmap; eauto)). lia.
  - rewrite !andb_true_iff in *. destruct Hwf as [[Hl Hlo] Hup], Hlit as [[Hll Hllo] Hlup].
    apply comparison_unary; [done|done|done|lia|].
    apply between_reads; (eapply fits; eauto using wf_left_operand; lia).
  - apply comparison_unary; [done|done|done|lia|].
    apply null_reads. eapply fits; eauto using wf_left_operand; lia.
  - apply andb_true_iff in Hwf as [Ht Hd]. cbn [parseUnaryExpr].
    apply reads_with_depth; [lia|]. by apply relation_reads.
  - cbn [parseUnaryExpr]. apply reads_with_depth; [lia|]. by apply bucket_reads.
Qed.

(** ** Queries *)

(** The tokens that can follow a clause: the keywords of the later clauses and the
    end of input. *)
Definition after (keywords : list string) (t : token) : bool :=
  bool_decide (t ∈ EOF :: map kw keywords).
Definition after_where := after ["ORDER"; "LIMIT"; "OFFSET"].
Definition after_order := after ["LIMIT"; "OFFSET"].
Definition after_limit := after ["OFFSET"].
Definition after_offset := after [].

Lemma after_spec ks (p : token -> bool) t :
  after ks t = true -> forallb p (EOF :: map kw ks) = true -> p t = true.
Proof. intros Ht%bool_decide_eq_true Hp. by eapply forallb_elem. Qed.

Lemma clause_present {A} d keyword (default : A) part ts a F :
  is_keyword_token keyword (kw keyword) = true ->
  reads d part ts a F -> reads d (clause keyword default part) (kw keyword :: ts) a F.
Proof. intros Hk Hp. by apply reads_keyword. Qed.

Lemma clause_absent {A} d keyword (default : A) part F :
  (forall t, F t = true -> is_keyword_token keyword t = false) ->
  reads d (clause keyword default part) [] default F.
Proof.
  intros HF. apply reads_keyword_not; [|apply reads_ret]. intros rest Hr. by apply HF.
Qed.

Lemma reads_fmap {A B} d (f : A -> B) (m : P A) ts a F :
  reads d m ts a F -> reads d (f <$> m) ts (f a) F.
Proof.
  intros Hm rest i Hr. destruct (Hm rest i Hr) as [i' E]. exists i'.
  unfold fmap, P_fmap. by rewrite E.
Qed.

Lemma bound_reads d keyword o F :
  is_keyword_token keyword (kw keyword) = true -> wf_bound o = true ->
  (forall t, F t = true -> is_keyword_token keyword t = false) ->
  reads d (clause keyword None (Some <$> parseNonNegativeInt keyword)) (bound_tokens keyword o) o F.
Proof.
  intros Hk Ho HF. destruct o as [z|]; cbn [bound_tokens]; [|by apply clause_absent].
  apply clause_present; [done|]. apply reads_fmap. unfold parseNonNegativeInt. read_token.
  cbn in Ho. unfold int64 in Ho. destruct (itoa_spec z ltac:(lia)) as [Hd Hv].
  rewrite ParseInt64_digits by done. rewrite Hv. rewrite (proj2 (Z.ltb_lt _ _)) by lia.
  rewrite (proj2 (Z.ltb_ge _ _)) by lia. apply reads_ret.
Qed.

Definition order_fits (o : OrderExpr) : Prop :=
  wf_order o = true /\ literals_ok (oExpr o) = true /\ operand_depth (oExpr o) <= maxExpressionDepth.

Lemma order_reads o : order_fits o -> reads 0 parseOrderExpr (order_tokens o) o (fun _ => true).
Proof.
  unfold order_fits, wf_order. rewrite andb_true_iff. intros ([Hwf Hs] & Hlit & Hd).
  destruct o as [e dir]. cbn [oExpr oDirection] in *. unfold parseOrderExpr, order_tokens.
  cbn [oExpr oDirection]. eapply reads_bind; [by apply operand0_reads| |by destruct dir].
  destruct dir; try done; [|apply reads_keyword_not; [by intros|]; cbn iota]; repeat read_token.
Qed.

Lemma orderby_reads os F :
  os <> [] -> (forall o, o ∈ os -> order_fits o) -> (forall t, F t = true -> kind t <> tokenComma) ->
  reads 0 parseOrderBy (sep_tokens comma (map order_tokens os)) os F.
Proof.
  intros Hne Hos HF. destruct os as [|o os]; [done|]. rewrite sep_tokens_map. unfold parseOrderBy.
  eapply reads_bind; [apply order_reads, Hos; left| |by intros].
  apply (reads_items _ _ _ _ _ (fun _ => true)); [| |done|done].
  - intros l y Hy. unfold moreOrder. read_token. cbn iota. apply reads_at_not.
    { intros rest _. unfold order_tokens. destruct (operand_first (oExpr y)) as (t & ts & -> & Hst).
      cbn. destruct Hst as [-> | [-> | ->]]; done. }
    eapply reads_bind_last; [apply order_reads, Hos; by right|apply reads_ret].
  - intros l. unfold moreOrder. apply reads_consume_not; [|apply reads_ret].
    intros rest Hr. by apply HF.
Qed.

Lemma where_reads e :
  wf_where e = true -> literals_ok e = true -> condition_depth e <= maxExpressionDepth ->
  reads 0 (clause "WHERE" NilExpr condition0) (where_tokens e) e after_where.
Proof.
  intros Hwf Hlit Hd.
  assert (forall t, after_where t = true -> follow_or t = true) as Hfollow.
  { intros t Ht. eapply after_spec; [exact Ht|reflexivity]. }
  assert (e = NilExpr \/ (e <> NilExpr /\ wf_top e = true)) as [->|[Hne Htop]].
  { destruct e; cbn in *; auto. }
  - apply clause_absent. intros t Ht. apply negb_true_iff.
    by apply (after_spec _ (fun t => negb (is_keyword_token "WHERE" t)) t Ht).
  - assert (reads 0 (clause "WHERE" NilExpr condition0) (kw "WHERE" :: condition_tokens e) e after_where)
      as H; [|by destruct e].
    apply clause_present; [reflexivity|]. eapply reads_weaken; [|exact Hfollow].
    apply andb_true_iff in Htop as [Hc Htop]. apply top_reads; [done|].
    apply condition_readable; [done..|]. unfold depth_fuel. lia.
Qed.

(** What is left of the clauses is the end of input or one of their keywords. *)
Lemma bound_tokens_after keyword o ts ks :
  after ks (next_token ts) = true -> after (keyword :: ks) (next_token (bound_tokens keyword o ++ ts)) = true.
Proof.
  intros Ht%bool_decide_eq_true. apply bool_decide_eq_true. destruct o; cbn in *; set_solver.
Qed.

Lemma after_mono ks ks' t : after ks t = true -> ks ⊆ ks' -> after ks' t = true.
Proof.
  intros Ht%bool_decide_eq_true Hks. apply bool_decide_eq_true.
  rewrite elem_of_cons, list_elem_of_fmap in *. set_solver.
Qed.

Lemma parseQuery_reads q :
  wf_query q = true -> query_literals_ok q = true -> query_depth q <= maxExpressionDepth ->
  reads 0 parseQuery (query_tokens q) q after_offset.
Proof.
  destruct q as [v from w os limit offset]. unfold wf_query, query_literals_ok, query_depth, query_tokens.
  cbn [Version From Where OrderBy Limit Offset]. rewrite !andb_true_iff.
  intros [[[[[->%String.eqb_eq Hfrom] Hw] Hos] Hlimit] Hoffset] [Hlw Hlo] Hd.
  unfold parseQuery. cbn [app]. read_token.
  change (kw (Target_string from) :: ?ts) with ([kw (Target_string from)] ++ ts).
  eapply (reads_bind _ _ _ _ _ _ _ from (fun _ => true)); [|
    |done].
  { unfold parseTarget. read_token. destruct from; [| |done]; apply reads_ret. }
  eapply reads_bind; [apply (where_reads w); [done..|lia]| |].
  - eapply (reads_bind _ _ _ _ _ _ _ os after_order).
    + destruct os as [|o os].
      { apply clause_absent. intros t Ht. apply negb_true_iff.
        by apply (after_spec _ (fun t => negb (is_keyword_token "ORDER" t)) t Ht). }
      cbn [app]. apply clause_present; [reflexivity|]. read_token. apply orderby_reads; [done| |].
      * intros o' Ho'. split_and!; [by eapply forallb_elem|by apply (forallb_elem _ _ _ Hlo)|].
        pose proof (max_list_le (map (fun o => operand_depth (oExpr o)) (o :: os)) (operand_depth (oExpr o'))
          ltac:(apply list_elem_of_fmap; eauto)). lia.
      * intros t Ht. apply is_kind_false.
        by apply (after_spec _ (fun t => negb (is_kind tokenComma t)) t Ht).
    + eapply (reads_bind _ _ _ _ _ _ _ limit after_limit).
      * apply bound_reads; [reflexivity|done|]. intros t Ht. apply negb_true_iff.
        by apply (after_spec _ (fun t => negb (is_keyword_token "LIMIT" t)) t Ht).
      * eapply reads_bind_last; [|apply reads_ret]. apply bound_reads; [reflexivity|done|].
        intros t Ht. apply negb_true_iff.
        by apply (after_spec _ (fun t => negb (is_keyword_token "OFFSET" t)) t Ht).
      * intros rest Hr. by apply bound_tokens_after.
    + intros rest Hr. rewrite <- app_assoc. by apply bound_tokens_after, bound_tokens_after.
  - intros rest Hr. destruct os as [|o os]; cbn [app]; [|done]. rewrite <- app_assoc.
    apply (after_mono ["LIMIT"; "OFFSET"]); [|set_solver].
    by apply bound_tokens_after, bound_tokens_after.
Qed.

(** ** The tokens of a printable query are those of its text *)

Definition tokens_wf (ts : list token) : Prop := Forall (fun t => wf_token t = true) ts.

Lemma tokens_wf_app ts ts' : tokens_wf ts -> tokens_wf ts' -> tokens_wf (ts ++ ts').
Proof. intros. by apply Forall_app. Qed.
Lemma tokens_wf_cons t ts : wf_token t = true -> tokens_wf ts -> tokens_wf (t :: ts).
Proof. intros. by constructor. Qed.
Lemma tokens_wf_nil : tokens_wf [].
Proof. constructor. Qed.

Lemma items_wf {A} sep (f : A -> list token) (xs : list A) :
  wf_token sep = true -> (forall x, x ∈ xs -> tokens_wf (f x)) ->
  tokens_wf (List.concat (map (fun y => sep :: f y) xs)).
Proof.
  intros Hsep. induction xs as [|x xs IH]; intros Hf; cbn; [apply tokens_wf_nil|].
  apply tokens_wf_cons; [done|]. apply tokens_wf_app; [apply Hf; left|]. apply IH.
  intros y Hy. apply Hf. by right.
Qed.

Lemma sep_tokens_wf {A} sep (f : A -> list token) (xs : list A) :
  wf_token sep = true -> (forall x, x ∈ xs -> tokens_wf (f x)) -> tokens_wf (sep_tokens sep (map f xs)).
Proof.
  intros Hsep Hf. destruct xs as [|x xs]; [apply tokens_wf_nil|]. rewrite sep_tokens_map.
  apply tokens_wf_app; [apply Hf; left|]. apply items_wf; [done|]. intros y Hy. apply Hf. by right.
Qed.

Lemma num_itoa_wf z : int64 z = true -> wf_token (num (itoa z)) = true.
Proof.
  unfold int64. intros Hz. destruct (itoa_spec z ltac:(lia)) as [Hd _].
  unfold wf_token, is_number. cbn [num kind literal]. by rewrite Hd.
Qed.

Lemma wf_field_ident n : wf_field n = true -> wf_token (kw n) = true.
Proof. by intros [? _]%andb_true_iff. Qed.

Ltac tokens_wf := repeat first
  [ assumption
  | apply tokens_wf_nil
  | apply tokens_wf_cons; [reflexivity|]
  | apply tokens_wf_cons
  | apply tokens_wf_app ].

Lemma operand_tokens_wf e : wf_operand e = true -> literals_ok e = true -> tokens_wf (operand_tokens e).
Proof.
  induction e using Expr_ind'; intros Hwf Hlit; cbn [operand_tokens wf_operand literals_ok] in *;
    try done; try (by tokens_wf).
  - apply tokens_wf_cons; [by apply wf_field_ident|apply tokens_wf_nil].
  - apply andb_true_iff in Hwf as [Hwf Ht]. tokens_wf; [by apply IHe|]. by destruct t.
  - apply tokens_wf_cons; [by apply num_itoa_wf|apply tokens_wf_nil].
  - destruct (format_decimal f) as [s|]; [|done]. rewrite !andb_true_iff in Hlit.
    apply tokens_wf_cons; [|apply tokens_wf_nil]. by destruct Hlit as [[? _] _].
  - by destruct b; tokens_wf.
  - rewrite !andb_true_iff in *. destruct Hwf as [[[Hop ?] ?] ?], Hlit as [? ?].
    apply tokens_wf_app; [by apply IHe1|]. apply tokens_wf_cons; [by destruct op|]. by apply IHe2.
Qed.

Lemma operands_fits_wf e : wf_operand e && literals_ok e = true -> tokens_wf (operand_tokens e).
Proof. intros [? ?]%andb_true_iff. by apply operand_tokens_wf. Qed.

Lemma condition_tokens_wf e : wf_condition e = true -> literals_ok e = true -> tokens_wf (condition_tokens e).
Proof.
  induction e using Expr_ind'; intros Hwf Hlit; cbn [condition_tokens wf_condition literals_ok] in *;
    rewrite ?andb_true_iff in *; destruct_and?; try done.
  - apply sep_tokens_wf; [by destruct op|]. intros t Ht.
    assert (tokens_wf (condition_tokens t)) as Htok.
    { rewrite List.Forall_forall in H. apply H; [by apply list_elem_of_In|by eapply forallb_elem..]. }
    destruct (needs_parens op t); cbn [paren_if]; [|done]. by tokens_wf.
  - apply tokens_wf_cons; [done|]. destruct (needs_parens BoolAnd e); cbn [paren_if]; [|by apply IHe].
    tokens_wf; by apply IHe.
  - apply tokens_wf_app; [by apply operand_tokens_wf; [apply wf_left_operand|]|].
    apply tokens_wf_cons; [by destruct op|by apply operand_tokens_wf].
  - apply tokens_wf_app; [by apply operand_tokens_wf; [apply wf_left_operand|]|].
    do 2 (apply tokens_wf_cons; [done|]). apply tokens_wf_app; [|by tokens_wf].
    apply sep_tokens_wf; [done|]. intros v Hv. apply operand_tokens_wf; by eapply forallb_elem.
  - apply tokens_wf_app; [by apply operand_tokens_wf; [apply wf_left_operand|]|].
    apply tokens_wf_cons; [done|]. apply tokens_wf_app; [by apply operand_tokens_wf|].
    apply tokens_wf_cons; [done|]. by apply operand_tokens_wf.
  - apply tokens_wf_app; [by apply operand_tokens_wf; [apply wf_left_operand|]|].
    destruct n; by tokens_wf.
  - by tokens_wf.
  - by tokens_wf.
Qed.

Lemma query_tokens_wf q :
  wf_query q = true -> query_literals_ok q = true -> tokens_wf (query_tokens q).
Proof.
  unfold wf_query, query_literals_ok, query_tokens. rewrite !andb_true_iff.
  intros [[[[[_ Hfrom] Hw] Hos] Hlimit] Hoffset] [Hlw Hlo].
  apply tokens_wf_app; [by destruct (From q); tokens_wf|].
  apply tokens_wf_app.
  { unfold where_tokens. unfold wf_where, wf_top in Hw.
    assert (Where q = NilExpr \/ wf_condition (Where q) = true) as [-> | Hc].
    { destruct (Where q); auto; right; by apply andb_true_iff in Hw as [? _]. }
    - apply tokens_wf_nil.
    - assert (tokens_wf (kw "WHERE" :: condition_tokens (Where q))) as H.
      { apply tokens_wf_cons; [done|by apply condition_tokens_wf]. }
      destruct (Where q); by (apply tokens_wf_nil || exact H). }
  assert (forall keyword o, wf_token (kw keyword) = true -> wf_bound o = true -> tokens_wf (bound_tokens keyword o))
    as Hbound.
  { intros keyword [z|] Hk Hz; [|apply tokens_wf_nil]. cbn in Hz. cbn [bound_tokens].
    apply tokens_wf_cons; [done|]. apply tokens_wf_cons; [by apply num_itoa_wf|apply tokens_wf_nil]. }
  apply tokens_wf_app; [|apply tokens_wf_app; by apply Hbound].
  destruct (OrderBy q) as [|o os]; [apply tokens_wf_nil|]. apply tokens_wf_app; [by tokens_wf|].
  apply sep_tokens_wf; [done|]. intros o' Ho'. unfold order_tokens.
  pose proof (forallb_elem _ _ _ Hos Ho') as Hwf. unfold wf_order in Hwf. apply andb_true_iff in Hwf as [Hwf _].
  apply tokens_wf_app; [apply operand_tokens_wf; [done|by apply (forallb_elem _ _ _ Hlo)]|].
  apply tokens_wf_cons; [by destruct (oDirection o')|apply tokens_wf_nil].
Qed.

(** ** The round trip *)

(** C2: the parser reads back the text of every printable query: the printed query is
    within the length and depth limits, and parsing it gives the same tree, pointers
    included. *)
Theorem Parse_print q : printable q = true -> Parse (print_query q) = Ok q.
Proof.
  unfold printable. rewrite !andb_true_iff, Nat.leb_le, Z.leb_le. intros [[[Hwf Hlit] Hd] Hlen].
  unfold Parse. rewrite (proj2 (Z.ltb_ge _ _) Hlen). unfold print_query.
  rewrite lex_render by (by apply query_tokens_wf). cbn [wrap_err].
  change (mbind ?f (Ok ?x)) with (f x). cbn beta. unfold parseTokens.
  destruct (parseQuery_reads q Hwf Hlit Hd [EOF] 0 eq_refl) as [i E].
  unfold mbind at 1, P_bind at 1. by rewrite E.
Qed.

Lemma Parse_print_witness :
  printable example_query = true /\ Parse (print_query example_query) = Ok example_query.
Proof.
  assert (printable example_query = true) as E by (vm_compute; reflexivity).
  split; [exact E|]. exact (Parse_print example_query E).
Defined.
