(* ===== verification/Binder.v ===== *)
(** * Binder

    packages/search/bind.go: the semantic check of a parsed query against a
    registry, and the dependencies it collects. *)
From S2P Require Import Prelude GoStrings GoTime Ast SearchDefs.
Local Open Scope nat_scope.

(** ** Dependencies *)

Inductive DependencyKind :=
| DependencyTarget | DependencyField | DependencyAttribute | DependencyRelation | DependencyBucket.
#[export] Instance DependencyKind_eq_dec : EqDecision DependencyKind.
Proof. solve_decision. Defined.

(** [dType] is the empty type name ([TypeOther ""]) where the source leaves it out. *)
Record Dependency := mkDep { dKind : DependencyKind; dName : string; dType : ValueType }.
#[export] Instance Dependency_eq_dec : EqDecision Dependency.
Proof. solve_decision. Defined.

Definition no_type : ValueType := TypeOther "".

Definition same_key (a b : Dependency) : bool :=
  bool_decide (dKind a = dKind b) && String.eqb (dName a) (dName b).

Definition addDependency (deps : list Dependency) (d : Dependency) : list Dependency :=
  if existsb (fun existing => same_key existing d) deps then deps else deps ++ [d].

Definition dependencyKindRank (k : DependencyKind) : nat :=
  match k with
  | DependencyTarget => 0 | DependencyField => 1 | DependencyAttribute => 2
  | DependencyRelation => 3 | DependencyBucket => 4
  end.

Definition dependency_less (l r : Dependency) : bool :=
  if negb (bool_decide (dKind l = dKind r)) then dependencyKindRank (dKind l) <? dependencyKindRank (dKind r)
  else if negb (String.eqb (dName l) (dName r)) then String.ltb (dName l) (dName r)
  else String.ltb (ValueType_string (dType l)) (ValueType_string (dType r)).
Definition sortDependencies (deps : list Dependency) : list Dependency := sort_by dependency_less deps.

(** ** Types of comparisons *)

Definition bothNumericTypes (l r : ValueType) : bool :=
  (bool_decide (l = TypeInteger) || bool_decide (l = TypeFloat)) &&
  (bool_decide (r = TypeInteger) || bool_decide (r = TypeFloat)).
Definition sameOrNumericTypes (l r : ValueType) : bool :=
  if bool_decide (l = r) then true else bothNumericTypes l r.

Definition comparisonTypesCompatible (op : ComparisonOp) (l r : ValueType) : bool :=
  if bool_decide (l = TypeNull) || bool_decide (r = TypeNull) then false
  else if bool_decide (l = TypeUnknown) || bool_decide (r = TypeUnknown) then
    match op with OpEq | OpNeq | OpLike | OpILike => true | _ => false end
  else match op with
       | OpEq | OpNeq => sameOrNumericTypes l r
       | OpLt | OpLte | OpGt | OpGte =>
           bothNumericTypes l r || (bool_decide (l = TypeTimestamp) && bool_decide (r = TypeTimestamp))
       | OpLike | OpILike => bool_decide (l = TypeString) && bool_decide (r = TypeString)
       | OpOther _ => false
       end.

(** ** Errors *)

Inductive bind_error :=
| BindRegistryRequired
| BindUnsupportedTarget (t : Target)
| BindTerm (op : BoolOp) (index : nat) (e : bind_error)
| BindNot (e : bind_error)
| BindUnsupportedExpression
| BindFieldUnavailable (name : string) (t : Target)
| BindCannotApply (op : ComparisonOp) (l r : ValueType)
| BindCannotApplyIn (l r : ValueType)
| BindBetweenLower (l r : ValueType)
| BindBetweenUpper (l r : ValueType)
| BindBetweenBounds (l r : ValueType)
| BindCannotCast
| BindInvalidArithmetic (op : ArithmeticOp) (l r : ValueType)
| BindRelationTarget (t : Target)
| BindBucketTarget (t : Target).

(** ** The binder

    [queryBinder] holds the target of the query, the registry and the
    dependencies; only the last changes, so it is the state. *)
Section Binder.
Context {R : Type} `{Registry R}.
Variables (registry : R) (from : Target).

Definition B (A : Type) : Type := list Dependency -> result bind_error (A * list Dependency).
Definition bret {A} (a : A) : B A := fun deps => Ok (a, deps).
Definition bfail {A} (e : bind_error) : B A := fun _ => Err e.
Definition bbind {A C} (m : B A) (f : A -> B C) : B C := fun deps =>
  match m deps with Ok (a, deps') => f a deps' | Err e => Err e end.
Definition badd (d : Dependency) : B unit := fun deps => Ok (tt, addDependency deps d).
Definition bwrap {A} (f : bind_error -> bind_error) (m : B A) : B A := fun deps => wrap_err f (m deps).
Notation "x <-- m ; k" := (bbind m (fun x => k)) (at level 20, m at level 100, k at level 200).

Definition attributeDefinition (path : string) : AttributeDefinition :=
  match ResolveAttribute registry path with
  | Some d => d
  | None => mkAttr path TypeUnknown
  end.

Definition bindField (name : string) : B unit :=
  match ResolveField registry from name with
  | Some d => badd (mkDep DependencyField name (fType d))
  | None => bfail (BindFieldUnavailable name from)
  end.
Definition bindAttribute (path : string) : B unit :=
  badd (mkDep DependencyAttribute path (aType (attributeDefinition path))).
Definition bindRelationPredicate (type_ : string) : B unit :=
  if bool_decide (from = TargetObjects) then badd (mkDep DependencyRelation type_ no_type)
  else bfail (BindRelationTarget from).
Definition bindBucketPredicate (name : string) : B unit :=
  if bool_decide (from = TargetObjects) then badd (mkDep DependencyBucket name no_type)
  else bfail (BindBucketTarget from).

(** The methods below take the [exprType] of their operands. *)
Definition bindComparison (op : ComparisonOp) (l r : B ValueType) : B unit :=
  leftType <-- l; rightType <-- r;
  if comparisonTypesCompatible op leftType rightType then bret tt
  else bfail (BindCannotApply op leftType rightType).
Fixpoint bindValues (leftType : ValueType) (vs : list (B ValueType)) : B unit :=
  match vs with
  | [] => bret tt
  | v :: vs =>
      valueType <-- v;
      if comparisonTypesCompatible OpEq leftType valueType then bindValues leftType vs
      else bfail (BindCannotApplyIn leftType valueType)
  end.
Definition bindInComparison (l : B ValueType) (vs : list (B ValueType)) : B unit :=
  leftType <-- l; bindValues leftType vs.
Definition bindBetweenComparison (l lo up : B ValueType) : B unit :=
  leftType <-- l; lowerType <-- lo; upperType <-- up;
  if negb (comparisonTypesCompatible OpGte leftType lowerType) then
    bfail (BindBetweenLower leftType lowerType)
  else if negb (comparisonTypesCompatible OpLte leftType upperType) then
    bfail (BindBetweenUpper leftType upperType)
  else if negb (sameOrNumericTypes lowerType upperType) then
    bfail (BindBetweenBounds lowerType upperType)
  else bret tt.
Fixpoint bindTerms (op : BoolOp) (index : nat) (terms : list (B unit)) : B unit :=
  match terms with
  | [] => bret tt
  | term :: terms => _ <-- bwrap (BindTerm op (index + 1)) term; bindTerms op (S index) terms
  end.
Definition bindCastExpr (e : Expr) (bind_e : B unit) : B unit :=
  if isValidCastOperand e then bind_e else bfail BindCannotCast.

(** [bindExpr] and [exprType] call each other, [exprType] also on the same
    expression; the pair of the two is defined by recursion on it. *)
Fixpoint binder (e : Expr) : B unit * B ValueType :=
  let bind_e : B unit :=
    match e with
    | BoolExpr op terms => bindTerms op 0 (map (fun t => (binder t).1) terms)
    | NotExpr _ e => bwrap BindNot (binder e).1
    | Comparison _ op l r => bindComparison op (binder l).2 (binder r).2
    | InComparison _ l vs => bindInComparison (binder l).2 (map (fun v => (binder v).2) vs)
    | BetweenComparison _ l lo up => bindBetweenComparison (binder l).2 (binder lo).2 (binder up).2
    | NullComparison _ l _ => (binder l).1
    | RelationPredicate _ t _ => bindRelationPredicate t
    | BucketPredicate _ n => bindBucketPredicate n
    | FieldRef n => bindField n
    | AttrRef p => bindAttribute p
    | CastExpr e _ => bindCastExpr e (binder e).1
    | ArithmeticExpr _ l r => _ <-- (binder l).1; (binder r).1
    | NowExpr | IntervalLiteral _ => bret tt
    | StringLiteral _ | IntLiteral _ | FloatLiteral _ | BoolLiteral _ | TimestampLiteral _
    | NullLiteral => bret tt
    | NilExpr => bfail BindUnsupportedExpression
    end in
  let type_e : B ValueType :=
    match e with
    | FieldRef n =>
        match ResolveField registry from n with
        | Some d => _ <-- badd (mkDep DependencyField n (fType d)); bret (fType d)
        | None => bfail (BindFieldUnavailable n from)
        end
    | AttrRef p =>
        let d := attributeDefinition p in
        _ <-- badd (mkDep DependencyAttribute p (aType d)); bret (aType d)
    | CastExpr e t =>
        if isValidCastOperand e then _ <-- (binder e).1; bret t else bfail BindCannotCast
    | StringLiteral _ => bret TypeString
    | IntLiteral _ => bret TypeInteger
    | FloatLiteral _ => bret TypeFloat
    | BoolLiteral _ => bret TypeBoolean
    | TimestampLiteral _ | NowExpr => bret TypeTimestamp
    | IntervalLiteral _ => bret TypeInterval
    | ArithmeticExpr op l r =>
        leftType <-- (binder l).2; rightType <-- (binder r).2;
        match arithmeticResultType op leftType rightType with
        | Some t => bret t
        | None => bfail (BindInvalidArithmetic op leftType rightType)
        end
    | NullLiteral => bret TypeNull
    | _ => _ <-- bind_e; bret TypeUnknown
    end in
  (bind_e, type_e).
Definition bindExpr (e : Expr) : B unit := (binder e).1.
Definition exprType (e : Expr) : B ValueType := (binder e).2.

Fixpoint bindOrderBy (os : list OrderExpr) : B unit :=
  match os with
  | [] => bret tt
  | o :: os => _ <-- bindExpr (oExpr o); bindOrderBy os
  end.
End Binder.

Record BoundQuery := mkBound { bQuery : Query; bDependencies : list Dependency }.

(** [registry] is [None] for the nil interface. *)
Definition Bind {R} `{Registry R} (query : Query) (registry : option R) : result bind_error BoundQuery :=
  match registry with
  | None => Err BindRegistryRequired
  | Some registry =>
      match ResolveTarget registry (From query) with
      | None => Err (BindUnsupportedTarget (From query))
      | Some _ =>
          let deps0 := [mkDep DependencyTarget (Target_string (From query)) no_type] in
          '(_, deps) ← (match Where query with
                        | NilExpr => Ok (tt, deps0)
                        | _ => bindExpr registry (From query) (Where query) deps0
                        end);
          '(_, deps) ← bindOrderBy registry (From query) (OrderBy query) deps;
          Ok (mkBound query (sortDependencies deps))
      end
  end.

(** ** Declarative typing *)

(** What an expression depends on, in the order of the traversal. *)
Fixpoint mentions {R} `{Registry R} (registry : R) (from : Target) (e : Expr) : list Dependency :=
  let rec := mentions registry from in
  match e with
  | FieldRef n =>
      match ResolveField registry from n with
      | Some d => [mkDep DependencyField n (fType d)]
      | None => []
      end
  | AttrRef p => [mkDep DependencyAttribute p (aType (attributeDefinition registry p))]
  | RelationPredicate _ t _ => [mkDep DependencyRelation t no_type]
  | BucketPredicate _ n => [mkDep DependencyBucket n no_type]
  | BoolExpr _ ts => List.concat (map rec ts)
  | NotExpr _ e | NullComparison _ e _ | CastExpr e _ => rec e
  | Comparison _ _ l r | ArithmeticExpr _ l r => rec l ++ rec r
  | InComparison _ l vs => rec l ++ List.concat (map rec vs)
  | BetweenComparison _ l lo up => rec l ++ rec lo ++ rec up
  | _ => []
  end.

Definition is_condition (e : Expr) : bool :=
  match e with
  | BoolExpr _ _ | NotExpr _ _ | Comparison _ _ _ _ | InComparison _ _ _
  | BetweenComparison _ _ _ _ | NullComparison _ _ _ | RelationPredicate _ _ _
  | BucketPredicate _ _ => true
  | _ => false
  end.

Definition is_literal (e : Expr) : bool :=
  match e with
  | NowExpr | IntervalLiteral _ | StringLiteral _ | IntLiteral _ | FloatLiteral _
  | BoolLiteral _ | TimestampLiteral _ | NullLiteral => true
  | _ => false
  end.

Section Typing.
Context {R : Type} `{Registry R}.
Variables (registry : R) (from : Target).

(** [binds e]: [e] is a valid expression; [has_type e t]: it is a valid operand of
    type [t]. *)
Inductive binds : Expr -> Prop :=
| binds_bool op ts : (forall t, t ∈ ts -> binds t) -> binds (BoolExpr op ts)
| binds_not p e : binds e -> binds (NotExpr p e)
| binds_comparison p op l r tl tr :
    has_type l tl -> has_type r tr -> comparisonTypesCompatible op tl tr = true ->
    binds (Comparison p op l r)
| binds_in p l vs tl :
    has_type l tl ->
    (forall v, v ∈ vs -> exists tv, has_type v tv /\ comparisonTypesCompatible OpEq tl tv = true) ->
    binds (InComparison p l vs)
| binds_between p l lo up tl tlo tup :
    has_type l tl -> has_type lo tlo -> has_type up tup ->
    comparisonTypesCompatible OpGte tl tlo = true -> comparisonTypesCompatible OpLte tl tup = true ->
    sameOrNumericTypes tlo tup = true ->
    binds (BetweenComparison p l lo up)
| binds_null p l n : binds l -> binds (NullComparison p l n)
| binds_relation p t d : from = TargetObjects -> binds (RelationPredicate p t d)
| binds_bucket p n : from = TargetObjects -> binds (BucketPredicate p n)
| binds_field n d : ResolveField registry from n = Some d -> binds (FieldRef n)
| binds_attr a : binds (AttrRef a)
| binds_cast e t : isValidCastOperand e = true -> binds e -> binds (CastExpr e t)
| binds_arith op l r : binds l -> binds r -> binds (ArithmeticExpr op l r)
| binds_literal e : is_literal e = true -> binds e
with has_type : Expr -> ValueType -> Prop :=
| type_field n d : ResolveField registry from n = Some d -> has_type (FieldRef n) (fType d)
| type_attr a : has_type (AttrRef a) (aType (attributeDefinition registry a))
| type_cast e t : isValidCastOperand e = true -> binds e -> has_type (CastExpr e t) t
| type_string s : has_type (StringLiteral s) TypeString
| type_int z : has_type (IntLiteral z) TypeInteger
| type_float f : has_type (FloatLiteral f) TypeFloat
| type_bool b : has_type (BoolLiteral b) TypeBoolean
| type_time t : has_type (TimestampLiteral t) TypeTimestamp
| type_now : has_type NowExpr TypeTimestamp
| type_interval s : has_type (IntervalLiteral s) TypeInterval
| type_arith op l r tl tr t :
    has_type l tl -> has_type r tr -> arithmeticResultType op tl tr = Some t ->
    has_type (ArithmeticExpr op l r) t
| type_null : has_type NullLiteral TypeNull
| type_condition e : is_condition e = true -> binds e -> has_type e TypeUnknown.

(** A query is valid: its target is known and its expressions bind. *)
Definition query_binds (q : Query) : Prop :=
  (exists d, ResolveTarget registry from = Some d) /\
  (Where q = NilExpr \/ binds (Where q)) /\
  (forall o, o ∈ OrderBy q -> binds (oExpr o)).

Definition adds (deps ms : list Dependency) : list Dependency := fold_left addDependency ms deps.

(** [decides m V ms]: [m] succeeds, from any state, exactly when some value
    satisfies [V]; it returns that value, which is unique, and adds [ms]. *)
Definition decides {A} (m : B A) (V : A -> Prop) (ms : list Dependency) : Prop :=
  forall deps, match m deps with
  | Ok (a, deps') => V a /\ (forall a', V a' -> a' = a) /\ deps' = adds deps ms
  | Err _ => forall a, ~ V a
  end.

Lemma decides_iff {A} (m : B A) V V' ms ms' :
  decides m V ms -> (forall a, V' a <-> V a) -> ms' = ms -> decides m V' ms'.
Proof.
  intros Hm HV -> deps. specialize (Hm deps). destruct (m deps) as [[a deps']|e].
  - destruct Hm as (Ha & Hu & Hd). split_and!; [by apply HV|intros a' Ha'; by apply Hu, HV|done].
  - intros a Ha. by apply (Hm a), HV.
Qed.

Lemma decides_ret {A} (a : A) : decides (bret a) (fun a' => a' = a) [].
Proof. intros deps. cbn. auto. Qed.
Lemma decides_fail {A} e : decides (bfail e : B A) (fun _ => False) [].
Proof. intros deps. cbn. auto. Qed.
Lemma decides_fail' {A} e ms : decides (bfail e : B A) (fun _ => False) ms.
Proof. intros deps. cbn. auto. Qed.
Lemma decides_add d : decides (badd d) (fun _ => True) [d].
Proof. intros deps. cbn. split_and!; [done|by intros []|done]. Qed.

Lemma decides_bind {A C} (m : B A) (f : A -> B C) V W ms ns :
  decides m V ms -> (forall a, V a -> decides (f a) (W a) ns) ->
  decides (bbind m f) (fun c => exists a, V a /\ W a c) (ms ++ ns).
Proof.
  intros Hm Hf deps. unfold bbind. specialize (Hm deps). destruct (m deps) as [[a deps']|e].
  - destruct Hm as (Ha & Hu & ->). specialize (Hf a Ha (adds deps ms)).
    destruct (f a _) as [[c deps'']|e].
    + destruct Hf as (Hc & Huc & ->). split_and!; [by eexists| |by unfold adds; rewrite fold_left_app].
      intros c' (a' & Ha' & Hc'). rewrite (Hu a' Ha') in Hc'. by apply Huc.
    + intros c (a' & Ha' & Hc'). rewrite (Hu a' Ha') in Hc'. by apply (Hf c).
  - intros c (a' & Ha' & _). by apply (Hm a').
Qed.

Lemma decides_if {A} (b : bool) (m : B A) e V ms :
  decides m V ms -> decides (if b then m else bfail e) (fun a => b = true /\ V a) ms.
Proof.
  intros Hm. destruct b; eapply decides_iff; [exact Hm| |done|apply decides_fail'| |done];
    naive_solver.
Qed.

Lemma decides_wrap {A} f (m : B A) V ms : decides m V ms -> decides (bwrap f m) V ms.
Proof.
  intros Hm deps. specialize (Hm deps). unfold bwrap. by destruct (m deps) as [[a deps']|e].
Qed.

Definition bind_ok (e : Expr) : Prop :=
  decides (bindExpr registry from e) (fun _ => binds e) (mentions registry from e) /\
  decides (exprType registry from e) (has_type e) (mentions registry from e).

(** A value of type unit: only whether the computation succeeds matters. *)
Lemma decides_unit (m : B unit) (V : unit -> Prop) (Q : Prop) ms :
  decides m V ms -> (Q <-> exists u, V u) -> decides m (fun _ => Q) ms.
Proof.
  intros Hm HQ. eapply decides_iff; [exact Hm| |done]. intros []. rewrite HQ.
  split; [by intros [[] ?]|eauto].
Qed.

Lemma condition_type e :
  is_condition e = true -> decides (bindExpr registry from e) (fun _ => binds e) (mentions registry from e) ->
  (exprType registry from e = bbind (bindExpr registry from e) (fun _ => bret TypeUnknown)) ->
  bind_ok e.
Proof.
  intros Hc He Heq. split; [done|]. rewrite Heq, <- (app_nil_r (mentions _ _ _)).
  eapply decides_iff; [eapply decides_bind; [exact He|intros; apply decides_ret]| |done].
  cbn. intros t. split.
  - inversion 1; subst; try done; by exists tt.
  - intros ([] & ? & ->). by constructor.
Qed.

Lemma bindTerms_ok op i ts :
  Forall bind_ok ts ->
  decides (bindTerms op i (map (fun t => (binder registry from t).1) ts))
    (fun _ => forall t, t ∈ ts -> binds t) (List.concat (map (mentions registry from) ts)).
Proof.
  intros Hts. revert i. induction Hts as [|t ts [Ht _] Hts IH]; intros i; cbn.
  - eapply decides_unit; [apply decides_ret|]. split; [by exists tt|set_solver].
  - eapply decides_unit; [eapply decides_bind; [apply decides_wrap, Ht|intros; apply IH]|].
    cbn. split.
    + intros Hall. exists tt, tt. split; [apply Hall; left|]. intros t' Ht'. apply Hall. by right.
    + intros (_ & _ & Hx & Hrest) t' [->|Ht']%elem_of_cons; auto.
Qed.

Lemma bindValues_ok tl vs :
  Forall bind_ok vs ->
  decides (bindValues tl (map (fun v => (binder registry from v).2) vs))
    (fun _ => forall v, v ∈ vs -> exists tv, has_type v tv /\ comparisonTypesCompatible OpEq tl tv = true)
    (List.concat (map (mentions registry from) vs)).
Proof.
  induction 1 as [|v vs [_ Hv] Hvs IH]; cbn.
  - eapply decides_unit; [apply decides_ret|]. split; [by exists tt|set_solver].
  - eapply decides_unit.
    { eapply decides_bind; [exact Hv|]. intros tv Htv. apply decides_if, IH. }
    cbn. split.
    + intros Hall. destruct (Hall v) as (tv & ? & ?); [by left|]. exists tt, tv.
      split_and!; [done|done|]. intros v' Hv'. apply Hall. by right.
    + intros (_ & tv & Htv & Hc & Hrest) v' [->|Hv']%elem_of_cons; eauto.
Qed.

Lemma bindComparison_ok p op l r : bind_ok l -> bind_ok r -> bind_ok (Comparison p op l r).
Proof.
  intros [_ Hl] [_ Hr]. apply condition_type; [done| |done]. cbn.
  eapply decides_unit.
  { eapply decides_bind; [exact Hl|]. intros tl _. rewrite <- (app_nil_r (mentions _ _ r)).
    eapply decides_bind; [exact Hr|]. intros tr _. apply decides_if, decides_ret. }
  cbn. split.
  - inversion 1; subst; [|done]. eauto 10.
  - intros (_ & tl & ? & tr & ? & ? & _). by econstructor.
Qed.

Lemma bindBetween_ok p l lo up :
  bind_ok l -> bind_ok lo -> bind_ok up -> bind_ok (BetweenComparison p l lo up).
Proof.
  intros [_ Hl] [_ Hlo] [_ Hup]. apply condition_type; [done| |done]. cbn.
  eapply decides_unit.
  { eapply decides_bind; [exact Hl|]. intros tl _. eapply decides_bind; [exact Hlo|]. intros tlo _.
    rewrite <- (app_nil_r (mentions _ _ up)).
    eapply decides_bind; [exact Hup|]. intros tup _.
    instantiate (1 := fun tup _ => comparisonTypesCompatible OpGte tl tlo = true /\
      comparisonTypesCompatible OpLte tl tup = true /\ sameOrNumericTypes tlo tup = true).
    cbn. intros deps.
    destruct (comparisonTypesCompatible OpGte tl tlo), (comparisonTypesCompatible OpLte tl tup),
      (sameOrNumericTypes tlo tup); cbn; try naive_solver.
    split_and!; [done..|by intros []|done]. }
  cbn. split.
  - inversion 1; subst; [|done]. exists tt, tl. split; [done|]. exists tlo. split; [done|].
    by exists tup.
  - intros (_ & tl & ? & tlo & ? & tup & ? & ? & ? & ?). by econstructor.
Qed.

Lemma bindArith_ok op l r : bind_ok l -> bind_ok r -> bind_ok (ArithmeticExpr op l r).
Proof.
  intros [Hl Hlt] [Hr Hrt]. split; cbn.
  - eapply decides_unit; [eapply decides_bind; [exact Hl|intros; exact Hr]|]. cbn. split.
    + inversion 1; subst; [|done]. by exists tt, tt.
    + intros (_ & _ & ? & ?). by constructor.
  - eapply (decides_iff _ _ _ (mentions registry from l ++ mentions registry from r ++ [])).
    { eapply decides_bind; [exact Hlt|]. intros tl _.
      eapply decides_bind; [exact Hrt|]. intros tr _.
      instantiate (1 := fun tr t => arithmeticResultType op tl tr = Some t).
      cbn. intros deps. destruct (arithmeticResultType op tl tr) as [t|]; cbn; naive_solver. }
    + intros t. cbn. split.
      * inversion 1; subst; [|done]. eauto.
      * intros (tl & ? & tr & ? & ?). by econstructor.
    + by rewrite app_nil_r.
Qed.

Lemma bindCast_ok e t : bind_ok e -> bind_ok (CastExpr e t).
Proof.
  intros [He _]. split; cbn.
  - eapply decides_unit; [apply decides_if, He|]. cbn. split.
    + inversion 1; subst; [|done]. by exists tt.
    + intros [_ [? ?]]. by constructor.
  - eapply (decides_iff _ _ _ (mentions registry from e ++ [])).
    { apply decides_if. eapply decides_bind; [exact He|]. intros ? _. apply decides_ret. }
    + cbn. intros t'. split.
      * inversion 1; subst; [|done]. split; [done|]. by exists tt.
      * intros (? & _ & ? & ->). by constructor.
    + by rewrite app_nil_r.
Qed.

Lemma bindLiteral_ok e t :
  is_literal e = true -> binder registry from e = (bret tt, bret t) -> has_type e t ->
  (forall t', has_type e t' -> t' = t) -> mentions registry from e = [] -> bind_ok e.
Proof.
  intros Hlit Heq Ht Hu Hm. unfold bind_ok, bindExpr, exprType. rewrite Heq, Hm. cbn. split.
  - eapply decides_unit; [apply decides_ret|]. split; [by exists tt|]. intros _. by constructor.
  - eapply decides_iff; [apply decides_ret| |done]. intros t'. split; [apply Hu|by intros ->].
Qed.

(** The binder decides the typing relations, from any state. *)
Lemma binder_decides e : bind_ok e.
Proof.
  induction e using Expr_ind';
    try (eapply bindLiteral_ok;
         [done|done|by constructor|intros t'; inversion 1; by subst|done]).
  - split; cbn; (eapply decides_iff; [apply decides_fail| |done]); cbn; intros; split; inversion 1; by subst.
  - apply condition_type; [done| |done]. cbn.
    eapply decides_unit; [by apply bindTerms_ok|]. split; [|intros [_ ?]; by constructor].
    inversion 1; subst; [by exists tt|done].
  - destruct IHe as [He _]. apply condition_type; [done| |done]. cbn.
    eapply decides_unit; [by apply decides_wrap, He|]. split; [|intros [_ ?]; by constructor].
    inversion 1; subst; [by exists tt|done].
  - by apply bindComparison_ok.
  - destruct IHe as [_ He]. apply condition_type; [done| |done]. cbn.
    eapply decides_unit; [eapply decides_bind; [exact He|intros; by apply bindValues_ok]|].
    cbn. split.
    + inversion 1; subst; [|done]. by exists tt, tl.
    + intros (_ & tl & ? & ?). by econstructor.
  - by apply bindBetween_ok.
  - destruct IHe as [He _]. apply condition_type; [done| |done]. cbn.
    eapply decides_unit; [exact He|]. split; [|intros [_ ?]; by constructor].
    inversion 1; subst; [by exists tt|done].
  - apply condition_type; [done| |done]. cbn. unfold bindRelationPredicate.
    case_bool_decide as Hfrom.
    + eapply decides_unit; [apply decides_add|]. split; [by exists tt|]. intros _. by constructor.
    + eapply decides_unit; [apply decides_fail'|]. cbn. split; [|by intros [? ?]]. by inversion 1; subst.
  - apply condition_type; [done| |done]. cbn. unfold bindBucketPredicate.
    case_bool_decide as Hfrom.
    + eapply decides_unit; [apply decides_add|]. split; [by exists tt|]. intros _. by constructor.
    + eapply decides_unit; [apply decides_fail'|]. cbn. split; [|by intros [? ?]]. by inversion 1; subst.
  - (* FieldRef *)
    unfold bind_ok, bindExpr, exprType. cbn. unfold bindField.
    destruct (ResolveField registry from n) as [d|] eqn:Hd; split.
    + eapply decides_unit; [apply decides_add|]. split; [by exists tt|]. intros _. by econstructor.
    + eapply (decides_iff _ _ _ ([_] ++ [])); [eapply decides_bind; [apply decides_add|intros; apply decides_ret]| |done].
      cbn. intros t. split.
      * inversion 1; subst; [|done]. exists tt. split; [done|]. congruence.
      * intros (_ & _ & ->). by constructor.
    + eapply decides_unit; [apply decides_fail|]. split; [|by intros [_ ?]]. inversion 1; subst; [congruence|done].
    + eapply decides_iff; [apply decides_fail| |done]. cbn. intros t. split; [|done].
      inversion 1; subst; [congruence|done].
  - (* AttrRef *)
    split; cbn.
    + eapply decides_unit; [apply decides_add|]. split; [by exists tt|]. intros _. by constructor.
    + eapply (decides_iff _ _ _ ([_] ++ [])); [eapply decides_bind; [apply decides_add|intros; apply decides_ret]| |done].
      cbn. intros t. split.
      * inversion 1; subst; [|done]. by exists tt.
      * intros (_ & _ & ->). by constructor.
  - by apply bindCast_ok.
  - by apply bindArith_ok.
Qed.
End Typing.

(** ** Sorting dependencies *)

Lemma rank_inj a b : dependencyKindRank a = dependencyKindRank b -> a = b.
Proof. by destruct a, b. Qed.

Lemma dependency_less_asym x y : dependency_less x y = true -> dependency_less y x = false.
Proof.
  unfold dependency_less. destruct x as [k n t], y as [k' n' t']; cbn [dKind dName dType].
  destruct (decide (k = k')) as [->|Hk].
  - rewrite bool_decide_true by done. cbn. rewrite String.eqb_sym.
    destruct (String.eqb_spec n' n); cbn; apply string_ltb_asym.
  - rewrite !bool_decide_false by done. cbn [negb]. rewrite Nat.ltb_lt, Nat.ltb_ge. lia.
Qed.

Lemma dependency_less_ntrans x y z :
  dependency_less y x = false -> dependency_less z y = false -> dependency_less z x = false.
Proof.
  unfold dependency_less. destruct x as [k n t], y as [k' n' t'], z as [k'' n'' t'']; cbn [dKind dName dType].
  repeat case_bool_decide; subst; cbn [negb]; try done; rewrite ?Nat.ltb_ge; try lia.
  - destruct (String.eqb_spec n' n), (String.eqb_spec n'' n'), (String.eqb_spec n'' n); subst; cbn; try done.
    + apply string_ltb_ntrans.
    + intros Hyx Hzy. by rewrite (string_ltb_total _ _ n0 Hyx) in Hzy.
    + apply string_ltb_ntrans.
  - intros Hyx Hzy. match goal with H : ?a <> ?b |- _ =>
      assert (dependencyKindRank a = dependencyKindRank b) as E%rank_inj by lia end. congruence.
Qed.

(** Two dependencies with the same key are the same. *)
Definition key_determines (l : list Dependency) : Prop :=
  forall a b, a ∈ l -> b ∈ l -> same_key a b = true -> a = b.

Definition key_of (d : Dependency) : DependencyKind * string := (dKind d, dName d).
Lemma same_key_iff a b : same_key a b = true <-> key_of a = key_of b.
Proof.
  unfold same_key, key_of. rewrite andb_true_iff, bool_decide_eq_true, String.eqb_eq.
  split; [by intros [-> ->]|intros [=]; done].
Qed.

Lemma adds_subset deps ms d : d ∈ adds deps ms -> d ∈ deps ++ ms.
Proof.
  revert deps; induction ms as [|m ms IH]; intros deps; cbn; [by rewrite app_nil_r|].
  intros Hd%IH. unfold addDependency in Hd. destruct (existsb _ _); set_solver.
Qed.

Lemma adds_keys deps ms k : k ∈ map key_of (deps ++ ms) -> k ∈ map key_of (adds deps ms).
Proof.
  revert deps; induction ms as [|m ms IH]; intros deps; cbn; [by rewrite app_nil_r|].
  intros Hk. apply IH. unfold addDependency. destruct (existsb _ _) eqn:E.
  - apply existsb_elem in E as (x & Hx & Hs%same_key_iff).
    rewrite map_app in *. cbn in Hk. apply elem_of_app in Hk as [Hk|Hk]; [set_solver|].
    apply elem_of_cons in Hk as [->|Hk]; [|set_solver]. rewrite <- Hs.
    apply elem_of_app. left. by apply list_elem_of_fmap_2.
  - by rewrite <- app_assoc.
Qed.

Lemma adds_NoDup deps ms : NoDup (map key_of deps) -> NoDup (map key_of (adds deps ms)).
Proof.
  revert deps; induction ms as [|m ms IH]; intros deps Hd; cbn; [done|]. apply IH.
  unfold addDependency. destruct (existsb _ _) eqn:E; [done|].
  rewrite map_app. apply list.NoDup_app. split_and!; [done| |apply NoDup_singleton].
  intros k (x & -> & Hx)%list_elem_of_fmap Hm. apply elem_of_cons in Hm as [Hm|Hm]; [|by apply not_elem_of_nil in Hm].
  eapply existsb_false_elem in E; [|exact Hx]. apply same_key_iff in Hm. congruence.
Qed.

(** ** Theorems *)

Section Theorems.
Context {R : Type} `{Registry R}.

(** Everything a query depends on. *)
Definition query_mentions (registry : R) (q : Query) : list Dependency :=
  mkDep DependencyTarget (Target_string (From q)) no_type
  :: mentions registry (From q) (Where q)
  ++ List.concat (map (fun o => mentions registry (From q) (oExpr o)) (OrderBy q)).

Lemma bindOrderBy_ok (registry : R) from os :
  decides (bindOrderBy registry from os) (fun _ => forall o, o ∈ os -> binds registry from (oExpr o))
    (List.concat (map (fun o => mentions registry from (oExpr o)) os)).
Proof.
  induction os as [|o os IH]; cbn.
  - eapply decides_unit; [apply decides_ret|]. split; [by exists tt|set_solver].
  - eapply decides_unit; [eapply decides_bind; [apply binder_decides|intros; apply IH]|].
    cbn. split.
    + intros Hall. exists tt, tt. split; [apply Hall; left|]. intros o' Ho'. apply Hall. by right.
    + intros (_ & _ & Hx & Hrest) o' [->|Ho']%elem_of_cons; auto.
Qed.

(** [Bind] as a decision of [query_binds]. *)
Lemma Bind_spec (registry : R) q :
  match Bind q (Some registry) with
  | Ok b => query_binds registry (From q) q /\ bQuery b = q /\
      bDependencies b = sortDependencies (adds [] (query_mentions registry q))
  | Err _ => ~ query_binds registry (From q) q
  end.
Proof.
  unfold Bind, query_binds. destruct (ResolveTarget registry (From q)) as [t|];
    [|by intros ([? ?] & _ & _)].
  set (deps0 := [mkDep _ _ _]).
  set (m := match Where q with NilExpr => Ok (tt, deps0) | _ => _ end).
  assert (match m with
    | Ok (_, deps) => (Where q = NilExpr \/ binds registry (From q) (Where q)) /\
        deps = adds deps0 (mentions registry (From q) (Where q))
    | Err _ => Where q <> NilExpr /\ ~ binds registry (From q) (Where q)
    end) as Hm.
  { destruct (binder_decides registry (From q) (Where q)) as [Hw _]. specialize (Hw deps0).
    assert (Where q <> NilExpr -> m = bindExpr registry (From q) (Where q) deps0) as Hne.
    { subst m. intros Hne. by destruct (Where q). }
    destruct (decide (is_literal (Where q) = true)).
    all: destruct (Where q) eqn:E; try (rewrite (Hne ltac:(done)); destruct (bindExpr _ _ _ _) as [[[] deps]|];
      [destruct Hw as (? & _ & ?); by auto|split; [done|by apply (Hw tt)]]).
    all: cbn; by auto. }
  destruct m as [[[] deps]|e]; cbn.
  - destruct Hm as [Hw ->].
    pose proof (bindOrderBy_ok registry (From q) (OrderBy q) (adds deps0 (mentions registry (From q) (Where q)))) as Ho.
    destruct (bindOrderBy _ _ _ _) as [[[] deps]|e]; cbn.
    + destruct Ho as (Ho & _ & ->). split_and!; [eauto|done|done|done|].
      f_equal. unfold query_mentions, adds. cbn. by rewrite fold_left_app.
    + intros (_ & _ & ?). by apply (Ho tt).
  - intros (_ & [?|?] & _); by destruct Hm.
Qed.

(** C4: [Bind] accepts a query exactly when it is valid by the typing rules: known
    target, resolvable fields, comparable operand types, casts of attributes and
    literals only, predicates on objects only. *)
Theorem Bind_iff (registry : R) q :
  (exists b, Bind q (Some registry) = Ok b) <-> query_binds registry (From q) q.
Proof.
  pose proof (Bind_spec registry q) as Hs. destruct (Bind q (Some registry)) as [b|e].
  - split; [by intros _; destruct Hs|eauto].
  - split; [by intros [? ?]|done].
Qed.

(** The type of a dependency is determined by its kind and name. *)
Definition dependency_type_ok (registry : R) from (d : Dependency) : Prop :=
  match dKind d with
  | DependencyField => exists f, ResolveField registry from (dName d) = Some f /\ dType d = fType f
  | DependencyAttribute => dType d = aType (attributeDefinition registry (dName d))
  | _ => dType d = no_type
  end.

Lemma mentions_type (registry : R) from e d :
  d ∈ mentions registry from e -> dKind d <> DependencyTarget /\ dependency_type_ok registry from d.
Proof.
  induction e using Expr_ind'; cbn; rewrite ?elem_of_app; try (by intros ?%not_elem_of_nil);
    try (by intros ->%list_elem_of_singleton); try naive_solver.
  - intros (t & Ht & Hd)%elem_of_concat_map. rewrite List.Forall_forall in H0.
    apply (H0 t); [by apply list_elem_of_In|done].
  - intros [Hd|(t & Ht & Hd)%elem_of_concat_map]; [by apply IHe|]. rewrite List.Forall_forall in H0.
    apply (H0 t); [by apply list_elem_of_In|done].
  - destruct (ResolveField registry from n) as [f|] eqn:Hf; [|by intros ?%not_elem_of_nil].
    intros ->%list_elem_of_singleton. split; [done|]. by exists f.
Qed.

Lemma query_mentions_type (registry : R) q d :
  d ∈ query_mentions registry q -> dependency_type_ok registry (From q) d.
Proof.
  unfold query_mentions. rewrite elem_of_cons, elem_of_app, elem_of_concat_map.
  intros [->|[Hd|(o & _ & Hd)]]; [done|by apply mentions_type in Hd as [_ ?]..].
Qed.

Lemma type_ok_inj (registry : R) from a b :
  dependency_type_ok registry from a -> dependency_type_ok registry from b -> key_of a = key_of b -> a = b.
Proof.
  destruct a as [k n t], b as [k' n' t']. unfold dependency_type_ok, key_of. cbn. intros Ha Hb [= -> ->].
  destruct k'; naive_solver congruence.
Qed.

(** C20: the dependencies of a bound query are sorted, without duplicates, and
    exactly the target and the fields, attributes, relations and buckets the query
    mentions, each with the type the registry gives it. *)
Theorem Bind_dependencies (registry : R) q b :
  Bind q (Some registry) = Ok b ->
  sorted_by dependency_less (bDependencies b) /\
  NoDup (map key_of (bDependencies b)) /\
  forall d, d ∈ bDependencies b <-> d ∈ query_mentions registry q.
Proof.
  intros E. pose proof (Bind_spec registry q) as Hs. rewrite E in Hs. destruct Hs as (_ & _ & ->).
  unfold sortDependencies. split_and!.
  - apply sort_by_sorted; [apply dependency_less_asym|apply dependency_less_ntrans].
  - rewrite (fmap_Permutation key_of _ _ (sort_by_perm dependency_less _)).
    apply adds_NoDup. constructor.
  - intros d. rewrite sort_by_perm. split; [apply adds_subset|]. intros Hd.
    assert (key_of d ∈ map key_of (adds [] (query_mentions registry q))) as Hk.
    { apply adds_keys. by apply list_elem_of_fmap_2. }
    apply list_elem_of_fmap in Hk as (d' & Hk & Hd'). pose proof (adds_subset _ _ _ Hd') as Hm.
    cbn in Hm. rewrite (type_ok_inj registry (From q) d d'); [done|by apply query_mentions_type..|done].
Qed.

(** ** Pointers do not matter *)

Lemma mentions_strip (registry : R) from e : mentions registry from (strip e) = mentions registry from e.
Proof.
  induction e using Expr_ind'; cbn; try congruence.
  - f_equal. rewrite map_map. by apply map_ext_Forall.
  - rewrite IHe. do 2 f_equal. rewrite map_map. by apply map_ext_Forall.
Qed.

Lemma isValidCastOperand_strip e : isValidCastOperand (strip e) = isValidCastOperand e.
Proof. by destruct e. Qed.

Lemma binder_strip (registry : R) from e : binder registry from (strip e) = binder registry from e.
Proof.
  induction e using Expr_ind'; cbn [strip]; try reflexivity; cbn [binder];
    rewrite ?IHe, ?IHe1, ?IHe2, ?IHe3, ?isValidCastOperand_strip, ?map_map; try reflexivity.
  - rewrite (map_ext_Forall _ (fun t => (binder registry from t).1) (l := ts)); [done|].
    eapply List.Forall_impl; [|exact H0]. by intros t ->.
  - rewrite (map_ext_Forall _ (fun t => (binder registry from t).2) (l := vs)); [done|].
    eapply List.Forall_impl; [|exact H0]. by intros t ->.
  - unfold bindCastExpr. by rewrite isValidCastOperand_strip.
Qed.

Lemma bindOrderBy_strip (registry : R) from os :
  bindOrderBy registry from (map strip_order os) = bindOrderBy registry from os.
Proof.
  induction os as [|o os IH]; cbn; [done|]. unfold bindExpr. by rewrite binder_strip, IH.
Qed.

Lemma Bind_strip (registry : option R) q :
  Bind (strip_query q) registry =
  ((fun b => mkBound (strip_query q) (bDependencies b)) <$> Bind q registry).
Proof.
  unfold Bind. destruct registry as [registry|]; [|done]. cbn [From strip_query Where OrderBy].
  destruct (ResolveTarget registry (From q)); [|done]. rewrite bindOrderBy_strip.
  assert (forall deps0 : list Dependency,
    match strip (Where q) with
    | NilExpr => Ok (tt, deps0)
    | _ => bindExpr registry (From q) (strip (Where q)) deps0
    end = match Where q with
          | NilExpr => Ok (tt, deps0)
          | _ => bindExpr registry (From q) (Where q) deps0
          end) as ->.
  { intros deps0. unfold bindExpr. rewrite binder_strip. by destruct (Where q). }
  destruct (match Where q with NilExpr => _ | _ => _ end) as [[u deps]|e]; cbn; [|done].
  by destruct (bindOrderBy _ _ _ _) as [[u' deps']|e].
Qed.

(** Whether the tree holds its nodes by value or by pointer does not matter to
    [Bind]: equivalent queries fail with the same error, or both bind, with the
    same dependencies. *)
Theorem Bind_pointers (registry : option R) q q' :
  q ≡ q' -> bDependencies <$> Bind q registry = bDependencies <$> Bind q' registry.
Proof.
  intros Hq. pose proof (Bind_strip registry q) as E. rewrite Hq, Bind_strip in E.
  destruct (Bind q registry), (Bind q' registry); cbn in *; try done; injection E as E; by subst || by rewrite E.
Qed.
End Theorems.

(** ** Witnesses *)

Definition bind_example (p : ptr) : Query :=
  mkQuery VersionV1 TargetObjects
    (BoolExpr BoolAnd
       [Comparison p OpGt (AttrRef "upstream.size") (IntLiteral 10);
        NotExpr p (BucketPredicate p "photos");
        Comparison p OpLike (FieldRef "key") (StringLiteral "a%")])
    [mkOrder (FieldRef "created_at") SortDesc] None None.
Definition bind_example_bound (p : ptr) : BoundQuery :=
  mkBound (bind_example p)
    [mkDep DependencyTarget "objects" no_type; mkDep DependencyField "created_at" TypeTimestamp;
     mkDep DependencyField "key" TypeString; mkDep DependencyAttribute "upstream.size" TypeInteger;
     mkDep DependencyBucket "photos" no_type].

Lemma Bind_dependencies_witness :
  Bind (bind_example Val) (Some BuiltinRegistry) = Ok (bind_example_bound Val) /\
  forall d, d ∈ bDependencies (bind_example_bound Val) <->
    d ∈ query_mentions BuiltinRegistry (bind_example Val).
Proof.
  assert (Bind (bind_example Val) (Some BuiltinRegistry) = Ok (bind_example_bound Val)) as E
    by (vm_compute; reflexivity).
  split; [exact E|]. exact (proj2 (proj2 (Bind_dependencies BuiltinRegistry _ _ E))).
Defined.

Lemma Bind_pointers_witness :
  bind_example Val ≡ bind_example Ptr /\
  bDependencies <$> Bind (bind_example Val) (Some BuiltinRegistry) =
  bDependencies <$> Bind (bind_example Ptr) (Some BuiltinRegistry).
Proof.
  assert (bind_example Val ≡ bind_example Ptr) as E by reflexivity.
  split; [exact E|]. exact (Bind_pointers (Some BuiltinRegistry) _ _ E).
Defined.
