(* ===== verification/Compiler.v ===== *)
(** * Compiler

    packages/storage/pithosysql_compile.go, with [JSONBPath] of jsonb.go and
    [splitAttributePath] of object_core.go: the translation of a bound query to a
    PostgreSQL statement and its arguments. *)
From S2P Require Import Prelude GoStrings GoFloat GoTime Ast SearchDefs Binder.
Local Open Scope nat_scope.

(** ** jsonb.go *)

Inductive jsonb_error := JSONBPathEmpty | JSONBSegmentEmpty (i : nat).

Fixpoint validateParts (i : nat) (parts : list string) : result jsonb_error unit :=
  match parts with
  | [] => Ok tt
  | part :: parts =>
      if String.eqb (TrimSpace part) "" then Err (JSONBSegmentEmpty i) else validateParts (S i) parts
  end.
Definition JSONBPath_Validate (p : list string) : result jsonb_error unit :=
  match p with [] => Err JSONBPathEmpty | _ => validateParts 0 p end.
Definition NewJSONBPath (parts : list string) : result jsonb_error (list string) :=
  _ ← JSONBPath_Validate parts; Ok parts.

(** ** object_core.go *)

(** The segments between dots, without the empty ones. *)
Definition splitAttributePath (path : string) : list string :=
  List.filter (fun segment => negb (String.eqb segment "")) (Split "." path).

(** ** The compile context *)

Record SearchScope := mkScope { sBucketID : string }.

Inductive SqlArg :=
| ArgString (s : string) | ArgInt (z : Z) | ArgFloat (f : spec_float) | ArgBool (b : bool)
| ArgTime (t : Time).

Record CompiledQuery := mkCompiled { SQL : string; Args : list SqlArg }.

Inductive compile_error :=
| CUnsupportedTarget (t : Target)
| CUnsupportedExpression
| CNoTerms
| CEmptyIn
| CUnsupportedDirection (d : RelationDirection)
| CExpectedReference
| CUnsupportedStringCast (t : ValueType)
| CUnsupportedCastOperand
| CUnsupportedLiteral
| CInvalidTimestamp (s : string)
| CUnsupportedOperator (op : ComparisonOp)
| CUnsupportedAttributeType (t : ValueType) (path : string)
| CAttributePath (path : string) (e : jsonb_error)
| CField (e : field_sql_error)
| CInterval (e : interval_error).

(** [compileContext]: the target and the attribute types are fixed, the arguments
    are the state. *)
Definition C (A : Type) : Type := list SqlArg -> result compile_error (A * list SqlArg).
#[export] Instance C_ret : MRet C := fun A a args => Ok (a, args).
#[export] Instance C_bind : MBind C := fun A B f m args =>
  match m args with Ok (a, args') => f a args' | Err e => Err e end.

Definition cfail {A} (e : compile_error) : C A := fun _ => Err e.
Definition clift {E A} (f : E -> compile_error) (r : result E A) : C A := fun args =>
  match r with Ok a => Ok (a, args) | Err e => Err (f e) end.
Definition placeholder (n : nat) : string := String "$" (itoa (Z.of_nat n)).
Definition addArg (value : SqlArg) : C string := fun args =>
  Ok (placeholder (List.length args + 1), args ++ [value]).
Fixpoint cmap {A B} (f : A -> C B) (l : list A) : C (list B) :=
  match l with
  | [] => mret []
  | x :: l => y ← f x; ys ← cmap f l; mret (y :: ys)
  end.

Definition attributeTypesFromDependencies (deps : list Dependency) : gmap string ValueType :=
  fold_left (fun types d =>
    if bool_decide (dKind d = DependencyAttribute) then <[dName d := dType d]> types else types) deps ∅.

(** ** Attributes *)

Definition jsonbTextPathLiteral (path : string) : result compile_error string :=
  jsonPath ← wrap_err (CAttributePath path) (NewJSONBPath (splitAttributePath path));
  Ok ("'{" +:+ Join jsonPath "," +:+ "}'").

Definition attributeSQLExpr (path : string) (typ : ValueType) : result compile_error string :=
  textPath ← jsonbTextPathLiteral path;
  let base := "objects.attributes #>> " +:+ textPath in
  match typ with
  | TypeString | TypeUnknown => Ok base
  | TypeInteger => Ok ("(" +:+ base +:+ ")::bigint")
  | TypeFloat => Ok ("(" +:+ base +:+ ")::double precision")
  | TypeBoolean => Ok ("(" +:+ base +:+ ")::boolean")
  | TypeTimestamp => Ok ("(" +:+ base +:+ ")::timestamptz")
  | _ => Err (CUnsupportedAttributeType typ path)
  end.

(** ** Literals *)

Definition parseTimestampText (value : string) : result compile_error Time :=
  match ParseDateOnly value with
  | Some parsed => Ok (UTC parsed)
  | None =>
      match ParseRFC3339 value with
      | Some parsed => Ok (UTC parsed)
      | None => Err (CInvalidTimestamp value)
      end
  end.

Definition literalValue (e : Expr) : result compile_error SqlArg :=
  match e with
  | CastExpr (StringLiteral s) TypeTimestamp => ArgTime <$> parseTimestampText s
  | StringLiteral s => Ok (ArgString s)
  | IntLiteral z => Ok (ArgInt z)
  | FloatLiteral f => Ok (ArgFloat f)
  | BoolLiteral b => Ok (ArgBool b)
  | TimestampLiteral t => Ok (ArgTime t)
  | _ => Err CUnsupportedLiteral
  end.

Definition comparisonOperator (op : ComparisonOp) : result compile_error string :=
  match op with
  | OpEq => Ok "=" | OpNeq => Ok "<>" | OpLt => Ok "<" | OpLte => Ok "<=" | OpGt => Ok ">"
  | OpGte => Ok ">=" | OpLike => Ok "LIKE" | OpILike => Ok "ILIKE"
  | OpOther _ => Err (CUnsupportedOperator op)
  end.

Definition relationObjectMatchSQL (d : RelationDirection) : result compile_error string :=
  match d with
  | RelationOut => Ok "r.source_object_id = objects.id"
  | RelationIn => Ok "r.target_object_id = objects.id"
  | RelationAny => Ok "(r.source_object_id = objects.id OR r.target_object_id = objects.id)"
  | RelationOther _ => Err (CUnsupportedDirection d)
  end.

Section Compile.
Variables (target : Target) (attrTypes : gmap string ValueType).

(** ** Operands *)

Definition compileLiteralArg (e : Expr) : C string :=
  value ← clift id (literalValue e); addArg value.

Definition compileAttrRef (path : string) : C string :=
  clift id (attributeSQLExpr path (default TypeUnknown (attrTypes !! path))).

Definition compileCastExpr (inner : Expr) (type_ : ValueType) : C string :=
  match inner with
  | AttrRef path => clift id (attributeSQLExpr path type_)
  | StringLiteral s =>
      if bool_decide (type_ = TypeTimestamp) then
        value ← clift id (parseTimestampText s); addArg (ArgTime value)
      else cfail (CUnsupportedStringCast type_)
  | _ => cfail CUnsupportedCastOperand
  end.

Definition compileValueExpr (e : Expr) : C string :=
  match e with
  | FieldRef n => clift CField (FieldSQLColumn target n)
  | AttrRef path => compileAttrRef path
  | CastExpr inner t => compileCastExpr inner t
  | _ => cfail CExpectedReference
  end.

Definition compileArithmeticExpr (op : ArithmeticOp) (left right : C string) : C string :=
  leftSQL ← left;
  rightSQL ← right;
  let operator := match op with ArithSub => "-" | _ => "+" end in
  mret ("(" +:+ leftSQL +:+ " " +:+ operator +:+ " " +:+ rightSQL +:+ ")").

Fixpoint compileScalarExpr (e : Expr) : C string :=
  match e with
  | NowExpr => mret "now()"
  | IntervalLiteral v => clift CInterval (formatIntervalSQL v)
  | ArithmeticExpr op l r => compileArithmeticExpr op (compileScalarExpr l) (compileScalarExpr r)
  | CastExpr (AttrRef path) t => compileCastExpr (AttrRef path) t
  | FieldRef _ | AttrRef _ => compileValueExpr e
  | _ => compileLiteralArg e
  end.

(** ** Conditions *)

Definition compileComparison (op : ComparisonOp) (l r : Expr) : C string :=
  leftSQL ← compileScalarExpr l;
  rightSQL ← compileScalarExpr r;
  operator ← clift id (comparisonOperator op);
  mret (leftSQL +:+ " " +:+ operator +:+ " " +:+ rightSQL).

Definition compileInComparison (l : Expr) (values : list Expr) : C string :=
  leftSQL ← compileValueExpr l;
  match values with
  | [] => cfail CEmptyIn
  | _ =>
      valueArgs ← cmap compileScalarExpr values;
      mret (leftSQL +:+ " IN (" +:+ Join valueArgs ", " +:+ ")")
  end.

Definition compileBetweenComparison (l lo up : Expr) : C string :=
  leftSQL ← compileValueExpr l;
  lowerSQL ← compileScalarExpr lo;
  upperSQL ← compileScalarExpr up;
  mret (leftSQL +:+ " BETWEEN " +:+ lowerSQL +:+ " AND " +:+ upperSQL).

Definition compileNullComparison (l : Expr) (not : bool) : C string :=
  leftSQL ← compileValueExpr l;
  mret (leftSQL +:+ (if not then " IS NOT NULL" else " IS NULL")).

Definition compileRelationPredicate (type_ : string) (d : RelationDirection) : C string :=
  relationTypeArg ← addArg (ArgString type_);
  objectMatchSQL ← clift id (relationObjectMatchSQL d);
  mret ("EXISTS (
	SELECT 1
	FROM relations r
	WHERE " +:+ objectMatchSQL +:+ "
		AND r.relation_type = " +:+ relationTypeArg +:+ "
)").

Definition compileBucketPredicate (name : string) : C string :=
  bucketNameArg ← addArg (ArgString name);
  mret ("objects.bucket_id = (
	SELECT b.id
	FROM buckets b
	WHERE b.name = " +:+ bucketNameArg +:+ "
	LIMIT 1
)").

Definition compileBoolExpr (op : BoolOp) (terms : list (C string)) (nested : bool) : C string :=
  match terms with
  | [] => cfail CNoTerms
  | _ =>
      sqls ← cmap id terms;
      match sqls with
      | [sql] => mret sql
      | _ =>
          let joined := Join sqls (match op with BoolOr => " OR " | _ => " AND " end) in
          mret (if nested then "(" +:+ joined +:+ ")" else joined)
      end
  end.

Definition compileNotExpr (inner : C string) : C string :=
  innerSQL ← inner; mret ("NOT (" +:+ innerSQL +:+ ")").

Fixpoint compileExprNested (e : Expr) (nested : bool) : C string :=
  match e with
  | BoolExpr op terms => compileBoolExpr op (map (fun t => compileExprNested t true) terms) nested
  | NotExpr _ e => compileNotExpr (compileExprNested e true)
  | Comparison _ op l r => compileComparison op l r
  | InComparison _ l vs => compileInComparison l vs
  | BetweenComparison _ l lo up => compileBetweenComparison l lo up
  | NullComparison _ l n => compileNullComparison l n
  | RelationPredicate _ t d => compileRelationPredicate t d
  | BucketPredicate _ n => compileBucketPredicate n
  | _ => cfail CUnsupportedExpression
  end.
Definition compileExpr (e : Expr) : C string := compileExprNested e false.

Definition compileOrderExpr (o : OrderExpr) : C string :=
  exprSQL ← compileValueExpr (oExpr o);
  mret (exprSQL +:+ " " +:+ (if bool_decide (oDirection o = SortDesc) then "DESC" else "ASC")).

(** ** Statements *)

Definition compileWhere (scope : SearchScope) (where_ : Expr) : C (list string) :=
  scopePart ← (if String.eqb (sBucketID scope) "" then mret []
               else bucket ← addArg (ArgString (sBucketID scope));
                    mret ["objects.bucket_id = " +:+ bucket]);
  wherePart ← (match where_ with
               | NilExpr => mret []
               | _ => whereSQL ← compileExpr where_; mret [whereSQL]
               end);
  mret (scopePart ++ wherePart).

Definition compileBound (keyword : string) (o : option Z) : C string :=
  match o with
  | Some n => arg ← addArg (ArgInt n); mret ("
" +:+ keyword +:+ " " +:+ arg)
  | None => mret ""
  end.
End Compile.

Definition objectsSearchSelectSQL : string := "
SELECT
	objects.id,
	objects.bucket_id,
	objects.key,
	objects.attributes,
	objects.attribute_provenance,
	objects.created_at,
	objects.updated_at
FROM objects".

Definition CompileObjectsSearch (bound : BoundQuery) (scope : SearchScope)
  : result compile_error CompiledQuery :=
  let q := bQuery bound in
  if negb (bool_decide (From q = TargetObjects)) then Err (CUnsupportedTarget (From q))
  else
    let attrTypes := attributeTypesFromDependencies (bDependencies bound) in
    let compile : C string :=
      whereParts ← compileWhere (From q) attrTypes scope (Where q);
      orderTerms ← cmap (compileOrderExpr (From q) attrTypes) (OrderBy q);
      limit ← compileBound "LIMIT" (Limit q);
      offset ← compileBound "OFFSET" (Offset q);
      mret (TrimSpace objectsSearchSelectSQL
        +:+ match whereParts with [] => "" | _ => "
WHERE " +:+ Join whereParts " AND " end
        +:+ match orderTerms with [] => "" | _ => "
ORDER BY " +:+ Join orderTerms ", " end
        +:+ limit +:+ offset) in
    '(sql, args) ← compile [];
    Ok (mkCompiled sql args).

Example compile_example :
  CompileObjectsSearch (mkBound (mkQuery VersionV1 TargetObjects
      (BoolExpr BoolOr [Comparison Val OpEq (FieldRef "key") (StringLiteral "a");
                        Comparison Val OpGt (CastExpr (AttrRef "x.y") TypeInteger) (IntLiteral 3)])
      [] (Some 5%Z) None) []) (mkScope "b1")
  = Ok (mkCompiled "SELECT
	objects.id,
	objects.bucket_id,
	objects.key,
	objects.attributes,
	objects.attribute_provenance,
	objects.created_at,
	objects.updated_at
FROM objects
WHERE objects.bucket_id = $1 AND objects.key = $2 OR (objects.attributes #>> '{x,y}')::bigint > $3
LIMIT $4" [ArgString "b1"; ArgString "a"; ArgInt 3; ArgInt 5]).
Proof. vm_compute. reflexivity. Qed.
