(* ===== verification/CompilerProofs.v ===== *)
(** * CompilerProofs

    What the SQL of a compiled query looks like: its boolean structure under SQL's
    operator precedence, its placeholders, and its independence from the values of
    the query other than intervals. *)
From S2P Require Import Prelude GoStrings GoFloat GoTime Ast SearchDefs Lexer Parser Binder Compiler.
Local Open Scope nat_scope.

(** ** Boolean structure

    The text of a condition is a sequence of [piece]s.  [parse_disj] reads pieces
    by SQL's precedence: NOT binds tighter than AND, AND tighter than OR.  The
    text of a single predicate is an atom. *)
Inductive piece := PAtom (s : string) | PAnd | POr | PNot | PLp | PRp.
Definition piece_text (p : piece) : string :=
  match p with
  | PAtom s => s | PAnd => " AND " | POr => " OR " | PNot => "NOT " | PLp => "(" | PRp => ")"
  end.
Fixpoint text (ps : list piece) : string :=
  match ps with [] => "" | p :: ps => piece_text p +:+ text ps end.

Inductive formula :=
| FAtom (s : string) | FNot (f : formula) | FAnd (f g : formula) | FOr (f g : formula).

Fixpoint parse_prim (fuel : nat) (ps : list piece) : option (formula * list piece) :=
  match fuel with
  | O => None
  | S fuel =>
      match ps with
      | PAtom s :: ps => Some (FAtom s, ps)
      | PNot :: ps => '(f, ps) ← parse_prim fuel ps; Some (FNot f, ps)
      | PLp :: ps =>
          '(f, ps) ← parse_disj fuel ps;
          match ps with PRp :: ps => Some (f, ps) | _ => None end
      | _ => None
      end
  end
with conj_tail (fuel : nat) (f : formula) (ps : list piece) : option (formula * list piece) :=
  match fuel with
  | O => None
  | S fuel =>
      match ps with
      | PAnd :: ps => '(g, ps) ← parse_prim fuel ps; conj_tail fuel (FAnd f g) ps
      | _ => Some (f, ps)
      end
  end
with disj_tail (fuel : nat) (f : formula) (ps : list piece) : option (formula * list piece) :=
  match fuel with
  | O => None
  | S fuel =>
      match ps with
      | POr :: ps =>
          '(g, ps) ← parse_prim fuel ps; '(g, ps) ← conj_tail fuel g ps; disj_tail fuel (FOr f g) ps
      | _ => Some (f, ps)
      end
  end
with parse_disj (fuel : nat) (ps : list piece) : option (formula * list piece) :=
  match fuel with
  | O => None
  | S fuel =>
      '(f, ps) ← parse_prim fuel ps; '(f, ps) ← conj_tail fuel f ps; disj_tail fuel f ps
  end.

(** [ps] is SQL for [f]. *)
Definition sql_means (ps : list piece) (f : formula) : Prop :=
  exists n, forall fuel, n <= fuel -> parse_disj fuel ps = Some (f, []).

Lemma sql_means_unique ps f g : sql_means ps f -> sql_means ps g -> f = g.
Proof.
  intros [n Hn] [m Hm]. specialize (Hn (n + m) ltac:(lia)). specialize (Hm (n + m) ltac:(lia)). congruence.
Qed.

(** The truth value of a condition, from that of its atoms. *)
Fixpoint holds (env : string -> bool) (f : formula) : bool :=
  match f with
  | FAtom s => env s
  | FNot f => negb (holds env f)
  | FAnd f g => holds env f && holds env g
  | FOr f g => holds env f || holds env g
  end.

Definition is_predicate (e : Expr) : bool :=
  match e with
  | Comparison _ _ _ _ | InComparison _ _ _ | BetweenComparison _ _ _ _ | NullComparison _ _ _
  | RelationPredicate _ _ _ | BucketPredicate _ _ => true
  | _ => false
  end.

(** The formula of a list of terms, grouped to the left. *)
Definition join_formula (op : BoolOp) (f : formula) (fs : list formula) : formula :=
  fold_left (match op with BoolOr => FOr | _ => FAnd end) fs f.

Section Structure.
Variables (target : Target) (attrTypes : gmap string ValueType).
Local Abbreviation compile := (compileExprNested target attrTypes).

(** [f] has the structure of [e], its atoms being the SQL of [e]'s predicates. *)
Inductive structure_of : Expr -> formula -> Prop :=
| structure_bool op t ts f fs :
    structure_of t f -> Forall2 structure_of ts fs ->
    structure_of (BoolExpr op (t :: ts)) (join_formula op f fs)
| structure_not p e f : structure_of e f -> structure_of (NotExpr p e) (FNot f)
| structure_atom e nested args sql args' :
    is_predicate e = true -> compile e nested args = Ok (sql, args') ->
    structure_of e (FAtom sql).

(** Pieces that read as [f] wherever a term, a conjunction or a disjunction is
    expected. *)
Definition no_and (ps : list piece) : Prop := match ps with PAnd :: _ => False | _ => True end.
Definition no_or (ps : list piece) : Prop := match ps with POr :: _ => False | _ => True end.
Definition prim ps f : Prop := exists n, forall fuel rest, n <= fuel ->
  parse_prim fuel (ps ++ rest) = Some (f, rest).
Definition conj ps f : Prop := exists n, forall fuel rest, n <= fuel -> no_and rest ->
  (parse_prim fuel (ps ++ rest) ≫= fun '(g, ps') => conj_tail fuel g ps') = Some (f, rest).
Definition disj ps f : Prop := exists n, forall fuel rest, n <= fuel -> no_and rest -> no_or rest ->
  parse_disj fuel (ps ++ rest) = Some (f, rest).

Lemma prim_conj ps f : prim ps f -> conj ps f.
Proof.
  intros [n Hn]. exists (S n). intros fuel rest Hf Hr. rewrite Hn by lia. cbn.
  destruct fuel as [|fuel]; [lia|]. by destruct rest as [|[] rest].
Qed.

Lemma conj_disj ps f : conj ps f -> disj ps f.
Proof.
  intros [n Hn]. exists (S (S n)). intros fuel rest Hf Ha Ho. destruct fuel as [|fuel]; [lia|].
  cbn [parse_disj]. specialize (Hn fuel rest ltac:(lia) Ha).
  destruct (parse_prim fuel (ps ++ rest)) as [[g ps']|]; [|done]. cbn in Hn |- *. rewrite Hn. cbn.
  destruct fuel as [|fuel]; [lia|]. by destruct rest as [|[] rest].
Qed.

Lemma prim_atom s : prim [PAtom s] (FAtom s).
Proof. exists 1. intros fuel rest Hf. by destruct fuel; [lia|]. Qed.

Lemma prim_parens ps f : disj ps f -> prim ([PLp] ++ ps ++ [PRp]) f.
Proof.
  intros [n Hn]. exists (S n). intros fuel rest Hf. destruct fuel as [|fuel]; [lia|].
  cbn [app parse_prim]. rewrite <- app_assoc. by rewrite Hn by (done || lia).
Qed.

Lemma prim_not ps f : prim ps f -> prim (PNot :: ps) (FNot f).
Proof.
  intros [n Hn]. exists (S n). intros fuel rest Hf. destruct fuel as [|fuel]; [lia|].
  cbn [app parse_prim]. by rewrite Hn by lia.
Qed.

(** Lists of terms. *)
Definition joined (sep : piece) (ps : list piece) (pss : list (list piece)) : list piece :=
  ps ++ List.concat (map (cons sep) pss).

Lemma conj_tail_terms pss fs :
  Forall2 prim pss fs -> exists n, forall fuel f rest, n <= fuel -> no_and rest ->
    conj_tail fuel f (List.concat (map (cons PAnd) pss) ++ rest) = Some (fold_left FAnd fs f, rest).
Proof.
  induction 1 as [|ps g pss fs [n Hn] Hpss [m IH]]; cbn.
  - exists 1. intros fuel f rest Hf Hr. destruct fuel; [lia|]. by destruct rest as [|[] rest].
  - exists (S (n + m)). intros fuel f rest Hf Hr. destruct fuel as [|fuel]; [lia|].
    cbn [conj_tail]. rewrite <- app_assoc, Hn by lia. cbn. apply IH; [lia|done].
Qed.

Lemma conj_terms ps f pss fs :
  prim ps f -> Forall2 prim pss fs -> conj (joined PAnd ps pss) (fold_left FAnd fs f).
Proof.
  intros [n Hn] [m Hm]%conj_tail_terms. exists (n + m). intros fuel rest Hf Hr.
  unfold joined. rewrite <- app_assoc, Hn by lia. cbn. apply Hm; [lia|done].
Qed.

Lemma disj_tail_terms pss fs :
  Forall2 conj pss fs -> exists n, forall fuel f rest, n <= fuel -> no_and rest -> no_or rest ->
    disj_tail fuel f (List.concat (map (cons POr) pss) ++ rest) = Some (fold_left FOr fs f, rest).
Proof.
  induction 1 as [|ps g pss fs [n Hn] Hpss [m IH]]; cbn.
  - exists 1. intros fuel f rest Hf Ha Ho. destruct fuel; [lia|]. by destruct rest as [|[] rest].
  - exists (S (n + m)). intros fuel f rest Hf Ha Ho. destruct fuel as [|fuel]; [lia|].
    cbn [disj_tail]. rewrite <- app_assoc.
    specialize (Hn fuel (List.concat (map (cons POr) pss) ++ rest) ltac:(lia)).
    destruct (parse_prim fuel _) as [[g' ps']|]; cbn in Hn |- *.
    + rewrite Hn by (destruct pss; done). cbn. by apply IH; [lia|..].
    + by discriminate Hn; destruct pss.
Qed.

Lemma disj_terms ps f pss fs :
  conj ps f -> Forall2 conj pss fs -> disj (joined POr ps pss) (fold_left FOr fs f).
Proof.
  intros [n Hn] [m Hm]%disj_tail_terms. exists (S (n + m)). intros fuel rest Hf Ha Ho.
  destruct fuel as [|fuel]; [lia|]. cbn [parse_disj]. unfold joined. rewrite <- app_assoc.
  specialize (Hn fuel (List.concat (map (cons POr) pss) ++ rest) ltac:(lia)).
  destruct (parse_prim fuel _) as [[g' ps']|]; cbn in Hn |- *.
  - rewrite Hn by (destruct pss; done). cbn. by apply Hm; [lia|..].
  - by discriminate Hn; destruct pss.
Qed.

(** ** Compiled conditions *)

Lemma text_app ps qs : text (ps ++ qs) = text ps +:+ text qs.
Proof. induction ps as [|p ps IH]; cbn; [done|]. by rewrite IH, string_app_assoc. Qed.

Lemma Join_cons sep x y l : Join (x :: y :: l) sep = x +:+ sep +:+ Join (y :: l) sep.
Proof. reflexivity. Qed.

Lemma text_joined sep ps pss :
  Join (map text (ps :: pss)) (piece_text sep) = text (joined sep ps pss).
Proof.
  unfold joined. rewrite text_app. revert ps; induction pss as [|qs pss IH]; intros ps.
  - cbn. by rewrite string_app_nil_r.
  - cbn [map]. rewrite Join_cons. f_equal. cbn [map List.concat]. rewrite text_app. cbn [text].
    rewrite string_app_assoc. f_equal. rewrite <- IH. reflexivity.
Qed.

Lemma C_bind_Ok {A B} (m : C A) (f : A -> C B) args b args' :
  (m ≫= f) args = Ok (b, args') ->
  exists a args1, m args = Ok (a, args1) /\ f a args1 = Ok (b, args').
Proof. unfold mbind, C_bind. destruct (m args) as [[a args1]|]; [eauto|done]. Qed.

(** A conjunction of terms. *)
Definition conjs ps f : Prop := exists qs pss g fs,
  ps = joined PAnd qs pss /\ prim qs g /\ Forall2 prim pss fs /\ f = fold_left FAnd fs g.

Lemma prim_conjs ps f : prim ps f -> conjs ps f.
Proof.
  intros Hp. exists ps, [], f, []. split_and!; [unfold joined; cbn; by rewrite app_nil_r|done|done|done].
Qed.

(** A disjunction of several terms at the top. *)
Definition top_or (e : Expr) : bool :=
  match e with BoolExpr BoolOr (_ :: _ :: _) => true | _ => false end.

Definition compiles_to (e : Expr) (nested : bool) (ps : list piece) : Prop := exists f,
  structure_of e f /\ disj ps f /\ (top_or e = false -> conjs ps f) /\ (nested = true -> prim ps f).

Definition compiled_ok (e : Expr) : Prop := forall nested args sql args',
  compile e nested args = Ok (sql, args') -> exists ps, sql = text ps /\ compiles_to e nested ps.

Lemma cmap_terms ts args sqls args' :
  Forall compiled_ok ts ->
  cmap id (map (fun t => compile t true) ts) args = Ok (sqls, args') ->
  exists pss fs, sqls = map text pss /\ Forall2 prim pss fs /\ Forall2 structure_of ts fs.
Proof.
  intros Hts. revert args sqls args'. induction Hts as [|t ts Ht Hts IH]; intros args sqls args'; cbn.
  - intros [= <- <-]. exists [], []. auto.
  - intros (sql & args1 & E1 & (sqls1 & args2 & E2 & [= <- <-])%C_bind_Ok)%C_bind_Ok.
    apply Ht in E1 as (ps & -> & f & Hf & _ & _ & Hp). apply IH in E2 as (pss & fs & -> & Hpss & Hfs).
    exists (ps :: pss), (f :: fs). split_and!; [done|constructor; auto|by constructor].
Qed.

Lemma prim_all ps f e nested : structure_of e f -> prim ps f -> compiles_to e nested ps.
Proof. intros Hs Hp. exists f. auto 10 using prim_conjs, prim_conj, conj_disj. Qed.

Lemma compileBool_ok op ts : Forall compiled_ok ts -> compiled_ok (BoolExpr op ts).
Proof.
  intros Hts nested args sql args' E. cbn [compileExprNested] in E. unfold compileBoolExpr in E.
  destruct ts as [|t ts]; [done|]. cbn [map] in E. change (compile t true :: map _ ts) with
    (map (fun t => compile t true) (t :: ts)) in E.
  apply C_bind_Ok in E as (sqls & args1 & E1 & E).
  apply cmap_terms in E1 as (pss & fs & -> & Hpss & Hfs); [|done].
  inversion Hfs as [|? f ? fs' Hf Hfs']; subst. inversion Hpss as [|ps ? pss' ? Hp Hpss']; subst.
  assert (structure_of (BoolExpr op (t :: ts)) (join_formula op f fs')) as Hs by by constructor.
  destruct pss' as [|qs pss'].
  - inversion Hpss'; subst. cbn in E. injection E as <- <-. exists ps. split; [done|].
    by apply prim_all with (f := f).
  - cbn [map] in E. change (text ps :: text qs :: map text pss') with (map text (ps :: qs :: pss')) in E.
    set (sep := match op with BoolOr => POr | _ => PAnd end).
    assert (match op with BoolOr => " OR " | _ => " AND " end = piece_text sep) as Hsep by by destruct op.
    rewrite Hsep, text_joined in E. set (body := joined sep ps (qs :: pss')) in *.
    assert (disj body (join_formula op f fs') /\
      (top_or (BoolExpr op (t :: ts)) = false -> conjs body (join_formula op f fs'))) as [Hd Hc].
    { inversion Hpss' as [|? ? ? fs'' ? ?]; subst. inversion Hfs'; subst.
      destruct op; subst sep body; cbn [top_or]; unfold join_formula; cbn iota.
      - split; [by apply conj_disj, conj_terms|intros _]. by eexists ps, (qs :: pss'), f, _.
      - split; [|done]. apply disj_terms; [by apply prim_conj|].
        eapply Forall2_impl; [|exact Hpss']. intros; by apply prim_conj.
      - split; [by apply conj_disj, conj_terms|intros _]. by eexists ps, (qs :: pss'), f, _. }
    destruct nested; cbn in E; injection E as <- <-.
    + exists ([PLp] ++ body ++ [PRp]). split; [cbn; by rewrite text_app|].
      apply prim_all with (f := join_formula op f fs'); [done|by apply prim_parens].
    + exists body. split; [done|]. by exists (join_formula op f fs').
Qed.

Lemma compile_ok e : compiled_ok e.
Proof.
  induction e using Expr_ind'; intros nested args sql args' E; try done;
    try (exists [PAtom sql]; split; [cbn; by rewrite string_app_nil_r|];
         apply (prim_all _ (FAtom sql)); [by eapply structure_atom|apply prim_atom]).
  - by eapply compileBool_ok.
  - cbn [compileExprNested] in E. unfold compileNotExpr in E.
    apply C_bind_Ok in E as (inner & args1 & E1 & [= <- <-]).
    apply IHe in E1 as (ps & -> & f & Hf & Hd & _ & _).
    exists ([PNot; PLp] ++ ps ++ [PRp]). split; [cbn; by rewrite text_app|].
    apply (prim_all _ (FNot f)); [by constructor|]. by apply prim_not, prim_parens.
Qed.
End Structure.

(** C5: under SQL's precedence, the text compiled for a condition has exactly the
    boolean structure of the query's tree: no term of an OR is captured by a
    neighbouring AND or NOT, whatever the nesting. *)
Theorem compile_structure target attrTypes e args sql args' :
  compileExpr target attrTypes e args = Ok (sql, args') ->
  exists ps f, sql = text ps /\ sql_means ps f /\ structure_of target attrTypes e f.
Proof.
  intros E. apply compile_ok in E as (ps & -> & f & Hs & [n Hd] & _). exists ps, f. split_and!; [done| |done].
  exists n. intros fuel Hf. rewrite <- (app_nil_r ps). by apply Hd.
Qed.

(** ** The bucket scope *)

(** [WHERE] of a search in the scope of a bucket. *)
Lemma compileWhere_scope target attrTypes bucket e args :
  bucket <> "" -> e <> NilExpr ->
  compileWhere target attrTypes (mkScope bucket) e args =
    match compileExpr target attrTypes e (args ++ [ArgString bucket]) with
    | Ok (sql, args') =>
        Ok (["objects.bucket_id = " +:+ placeholder (List.length args + 1); sql], args')
    | Err err => Err err
    end.
Proof.
  intros Hb He. unfold compileWhere. cbn [sBucketID]. destruct (String.eqb_spec bucket ""); [done|].
  unfold mbind, C_bind, addArg, mret, C_ret. destruct e; try done;
    by destruct (compileExpr _ _ _ _) as [[sql args']|].
Qed.

Lemma fold_FAnd_holds env fs f :
  holds env (fold_left FAnd fs f) = holds env f && forallb (holds env) fs.
Proof.
  revert f; induction fs as [|g fs IH]; intros f; cbn; [by rewrite andb_true_r|].
  rewrite IH. cbn. by rewrite andb_assoc.
Qed.

(** C6: a search in the scope of a bucket returns rows of that bucket only, when the
    query's condition is not a disjunction at the top: the WHERE text reads as the
    scope AND the condition. *)
Theorem scope_enforced target attrTypes bucket e sqls args' :
  bucket <> "" -> e <> NilExpr -> top_or e = false ->
  compileWhere target attrTypes (mkScope bucket) e [] = Ok (sqls, args') ->
  exists ps f g, Join sqls " AND " = text ps /\ sql_means ps f /\ structure_of target attrTypes e g /\
    forall env, holds env f = env "objects.bucket_id = $1" && holds env g.
Proof.
  intros Hb He Htop E. rewrite compileWhere_scope in E by done.
  destruct (compileExpr _ _ e _) as [[sql args1]|] eqn:Ec; [|done]. injection E as <- <-.
  apply compile_ok in Ec as (ps & -> & g & Hs & _ & Hc & _).
  destruct (Hc Htop) as (qs & pss & h & fs & -> & Hp & Hpss & ->).
  change ("objects.bucket_id = " +:+ placeholder (List.length [] + 1)) with "objects.bucket_id = $1".
  set (atom := "objects.bucket_id = $1").
  exists (joined PAnd [PAtom atom] (qs :: pss)), (fold_left FAnd (h :: fs) (FAtom atom)), (fold_left FAnd fs h).
  split_and!.
  - unfold joined. cbn [map List.concat app]. cbn [text piece_text]. by rewrite !text_app.
  - assert (disj (joined PAnd [PAtom atom] (qs :: pss)) (fold_left FAnd (h :: fs) (FAtom atom))) as [n Hd].
    { apply conj_disj, conj_terms; [apply prim_atom|by constructor]. }
    exists n. intros fuel Hf. rewrite <- (app_nil_r (joined _ _ _)). by apply Hd.
  - done.
  - intros env. rewrite !fold_FAnd_holds. cbn [forallb holds]. by rewrite andb_assoc.
Qed.

(** A query [a OR b] in the scope of bucket b1. *)
Definition or_query : BoundQuery :=
  mkBound (mkQuery VersionV1 TargetObjects
    (BoolExpr BoolOr [Comparison Val OpEq (FieldRef "key") (StringLiteral "a");
                      Comparison Val OpEq (FieldRef "key") (StringLiteral "b")]) [] None None) [].

(** The scope is not enforced on a disjunction: the condition of
    [key = 'a' OR key = 'b'] in the scope of a bucket reads as
    [(bucket_id = $1 AND key = $2) OR key = $3], which holds of rows of any bucket. *)
Theorem scope_bypass :
  exists sqls args ps f,
    compileWhere TargetObjects ∅ (mkScope "b1") (Where (bQuery or_query)) [] = Ok (sqls, args) /\
    Join sqls " AND " = text ps /\ sql_means ps f /\
    holds (fun atom => String.eqb atom "objects.key = $3") f = true.
Proof.
  eexists _, _, [PAtom "objects.bucket_id = $1"; PAnd; PAtom "objects.key = $2"; POr; PAtom "objects.key = $3"],
    (FOr (FAnd (FAtom "objects.bucket_id = $1") (FAtom "objects.key = $2")) (FAtom "objects.key = $3")).
  split; [vm_compute; reflexivity|]. split; [reflexivity|]. split; [|reflexivity].
  exists 10. intros fuel Hf. do 10 (destruct fuel as [|fuel]; [lia|]). reflexivity.
Qed.

(** ** The values of a query and the SQL text *)

(** The query with every literal value, relation type and bucket name replaced, and
    its intervals replaced by [iv]. An interval is the one literal the compiler
    writes into the statement. *)
Fixpoint blank (iv : string -> string) (e : Expr) : Expr :=
  match e with
  | BoolExpr op ts => BoolExpr op (map (blank iv) ts)
  | NotExpr p e => NotExpr p (blank iv e)
  | Comparison p op l r => Comparison p op (blank iv l) (blank iv r)
  | InComparison p l vs => InComparison p (blank iv l) (map (blank iv) vs)
  | BetweenComparison p l lo up => BetweenComparison p (blank iv l) (blank iv lo) (blank iv up)
  | NullComparison p l n => NullComparison p (blank iv l) n
  | RelationPredicate p _ d => RelationPredicate p "" d
  | BucketPredicate p _ => BucketPredicate p ""
  | CastExpr (StringLiteral _) t => CastExpr (StringLiteral "1970-01-01") t
  | CastExpr e t => CastExpr (blank iv e) t
  | StringLiteral _ => StringLiteral ""
  | IntLiteral _ => IntLiteral 0
  | FloatLiteral _ => FloatLiteral (S754_zero false)
  | BoolLiteral _ => BoolLiteral false
  | TimestampLiteral _ => TimestampLiteral zeroTime
  | IntervalLiteral v => IntervalLiteral (iv v)
  | ArithmeticExpr op l r => ArithmeticExpr op (blank iv l) (blank iv r)
  | e => e
  end.
Definition blank_query (iv : string -> string) (q : Query) : Query :=
  mkQuery (Version q) (From q) (blank iv (Where q))
    (map (fun o => mkOrder (blank iv (oExpr o)) (oDirection o)) (OrderBy q))
    ((fun _ => 0%Z) <$> Limit q) ((fun _ => 0%Z) <$> Offset q).

(** The texts an interval is written as: a decimal number and one of the units of
    time, in some spelling of its letters, between quotes it does not contain. *)
Definition interval_text (sql : string) : Prop := exists n u,
  n <> "" /\ string_forall IsDigit n = true /\ existsb (EqualFold u) interval_units = true /\
  Contains (n +:+ " " +:+ u) "'" = false /\ sql = "interval '" +:+ (n +:+ " " +:+ u) +:+ "'".

(** Two texts that differ in nothing but such intervals. *)
Inductive alike : string -> string -> Prop :=
| alike_same s : alike s s
| alike_interval s s' : interval_text s -> interval_text s' -> alike s s'
| alike_app a a' b b' : alike a a' -> alike b b' -> alike (a +:+ b) (a' +:+ b').

Lemma normalized_unit u :
  existsb (EqualFold u) interval_units = true ->
  existsb (EqualFold (normalizeIntervalUnit u)) interval_units = true.
Proof. intros H. unfold normalizeIntervalUnit. repeat case_match; done. Qed.

Lemma formatInterval_text v sql : formatIntervalSQL v = Ok sql -> interval_text sql.
Proof.
  unfold formatIntervalSQL, ParseIntervalValue, interval_match.
  pose proof (span_forall IsDigit (TrimSpace v)) as Hn.
  destruct (span IsDigit (TrimSpace v)) as [n rest]; cbn [fst] in Hn.
  destruct (span regexp_space rest) as [gap u].
  destruct (_ && _) eqn:Hu; [|done]. apply andb_true_iff in Hu as [[Hne _]%andb_true_iff Hu].
  destruct (Contains _ "'") eqn:Hq; [done|]. intros [= <-]. exists n, (normalizeIntervalUnit u). split_and!; try done.
  - intros ->. by rewrite String.eqb_refl in Hne.
  - by apply normalized_unit.
Qed.

(** [sim S m m']: where [m] succeeds, [m'] succeeds with a result related by [S] and
    as many arguments. *)
Definition sim {A} (S : A -> A -> Prop) (m m' : C A) : Prop := forall args args' a args1,
  List.length args = List.length args' -> m args = Ok (a, args1) ->
  exists a' args1', m' args' = Ok (a', args1') /\ S a a' /\ List.length args1 = List.length args1'.

Lemma sim_ret {A} (S : A -> A -> Prop) a a' : S a a' -> sim S (mret a) (mret a').
Proof. intros HS args args' b args1 Hl [= <- <-]. by exists a', args'. Qed.
Lemma sim_bind {A B} (S : A -> A -> Prop) (S' : B -> B -> Prop) (m m' : C A) (f f' : A -> C B) :
  sim S m m' -> (forall a a', S a a' -> sim S' (f a) (f' a')) -> sim S' (m ≫= f) (m' ≫= f').
Proof.
  intros Hm Hf args args' b args2 Hl (a & args1 & E1 & E2)%C_bind_Ok.
  destruct (Hm _ _ _ _ Hl E1) as (a' & args1' & E1' & HS & Hl1).
  destruct (Hf _ _ HS _ _ _ _ Hl1 E2) as (b' & args2' & E2' & Hb & Hl2). exists b', args2'.
  unfold mbind, C_bind. by rewrite E1'.
Qed.
Lemma sim_fail {A} S e (m : C A) : sim S (cfail e) m.
Proof. by intros args args' a args1 Hl. Qed.

(** The proofs below hold for any relation of texts that contains the intervals
    [iv] exchanges. *)
Section Parametric.
Variables (target : Target) (attrTypes : gmap string ValueType).
Variables (iv : string -> string) (R : string -> string -> Prop).
Hypothesis R_refl : forall s, R s s.
Hypothesis R_app : forall a a' b b', R a a' -> R b b' -> R (a +:+ b) (a' +:+ b').
Hypothesis R_interval : forall v sql, formatIntervalSQL v = Ok sql ->
  exists sql', formatIntervalSQL (iv v) = Ok sql' /\ R sql sql'.

Ltac texts := repeat first [assumption | apply R_refl | apply R_app].

Lemma sim_lift {E} (f : E -> compile_error) r : sim R (clift f r) (clift f r).
Proof. intros args args' a args1 Hl. destruct r; [|done]. intros [= <- <-]. by exists a0, args'. Qed.
Lemma sim_addArg v v' : sim R (addArg v) (addArg v').
Proof.
  intros args args' a args1 Hl [= <- <-]. exists (placeholder (List.length args + 1)). eexists. split; [unfold addArg; by rewrite Hl|].
  split; [apply R_refl|]. rewrite !length_app. cbn. lia.
Qed.
Lemma sim_cmap {A} (f f' : A -> C string) (g : A -> A) l :
  (forall x, x ∈ l -> sim R (f x) (f' (g x))) -> sim (Forall2 R) (cmap f l) (cmap f' (map g l)).
Proof.
  induction l as [|x l IH]; cbn; intros Hf; [by apply sim_ret|].
  eapply sim_bind; [apply Hf; left|intros y y' Hy].
  eapply sim_bind; [|intros ys ys' Hys; apply sim_ret; by constructor].
  apply IH. intros z Hz. apply Hf. by right.
Qed.
Lemma Join_related l l' sep : Forall2 R l l' -> R (Join l sep) (Join l' sep).
Proof.
  intros H. induction H as [|x x' l l' Hx Hl IH]; cbn; [apply R_refl|].
  destruct Hl; [done|]. texts.
Qed.

Ltac sim := repeat first
  [ assumption | apply sim_fail | apply sim_lift | apply sim_addArg
  | apply sim_ret; texts | eapply sim_bind; [|intros ? ? ?] ].

Lemma blank_literal e v args a args1 args' :
  compileLiteralArg e args = Ok (a, args1) -> literalValue (blank iv e) = Ok v ->
  List.length args = List.length args' ->
  exists a' args1', compileLiteralArg (blank iv e) args' = Ok (a', args1') /\ R a a' /\
    List.length args1 = List.length args1'.
Proof.
  unfold compileLiteralArg. intros (w & args2 & E1 & E2)%C_bind_Ok Hv Hl.
  unfold mbind, C_bind, clift in *. rewrite Hv. destruct (literalValue e); [|done]. injection E1 as <- <-.
  eapply sim_addArg; [exact Hl|exact E2].
Qed.

Lemma sim_literal e : sim R (compileLiteralArg e) (compileLiteralArg (blank iv e)).
Proof.
  intros args args' a args1 Hl E. pose proof E as E0. unfold compileLiteralArg in E.
  apply C_bind_Ok in E as (w & args2 & E1 & _). unfold clift in E1.
  destruct (literalValue e) as [v|] eqn:Ev; [|done].
  assert (exists v', literalValue (blank iv e) = Ok v') as [v' Hv']; [|by eapply blank_literal].
  destruct e as [| | | | | | | | | | |e t| | | | | | | | |]; try done; try (by eexists).
  destruct e; try done. by destruct t; try done; eexists.
Qed.

Lemma sim_cast e t : sim R (compileCastExpr e t)
  (match blank iv (CastExpr e t) with CastExpr e' t' => compileCastExpr e' t' | _ => cfail CUnsupportedCastOperand end).
Proof.
  destruct e; cbn; sim. case_bool_decide; [|sim].
  intros args args' a args1 Hl (v & args2 & E1 & E2)%C_bind_Ok. unfold clift in E1.
  destruct (parseTimestampText _); [|done]. injection E1 as <- <-.
  change (parseTimestampText "1970-01-01") with (Ok (mkTime 0 0 0) : result compile_error Time).
  eapply sim_addArg; [exact Hl|exact E2].
Qed.

Lemma sim_value e : sim R (compileValueExpr target attrTypes e) (compileValueExpr target attrTypes (blank iv e)).
Proof.
  destruct e as [| | | | | | | | | | |e t| | | | | | | | |]; cbn; unfold compileAttrRef; try (by sim).
  pose proof (sim_cast e t) as H. by destruct e.
Qed.

Lemma sim_interval v :
  sim R (clift CInterval (formatIntervalSQL v)) (clift CInterval (formatIntervalSQL (iv v))).
Proof.
  intros args args' a args1 Hl. destruct (formatIntervalSQL v) as [sql|] eqn:E; [|done]. intros [= <- <-].
  apply R_interval in E as (sql' & E' & HR). exists sql', args'. by rewrite E'.
Qed.

Lemma sim_scalar e : sim R (compileScalarExpr target attrTypes e) (compileScalarExpr target attrTypes (blank iv e)).
Proof.
  induction e using Expr_ind';
    try (cbn [blank compileScalarExpr]; unfold compileArithmeticExpr; by (apply sim_interval || sim));
    try (by apply (sim_literal (StringLiteral _)) || apply (sim_literal (IntLiteral _))
      || apply (sim_literal (FloatLiteral _)) || apply (sim_literal (BoolLiteral _))
      || apply (sim_literal (TimestampLiteral _))).
  all: try (apply (sim_value (FieldRef _))); try (apply (sim_value (AttrRef _))).
  destruct e; try (by intros args args' a args1 Hl Hno); try apply (sim_literal (CastExpr (StringLiteral _) t)).
  exact (sim_cast (AttrRef _) t).
Qed.

Lemma sim_bool op ts ts' nested :
  sim (Forall2 R) (cmap id ts) (cmap id ts') -> (ts = [] <-> ts' = []) ->
  sim R (compileBoolExpr op ts nested) (compileBoolExpr op ts' nested).
Proof.
  intros Hts Hnil. unfold compileBoolExpr. destruct ts as [|t ts]; [sim|].
  destruct ts' as [|t' ts']; [by destruct Hnil as [_ Hn]; specialize (Hn eq_refl)|].
  eapply sim_bind; [exact Hts|]. intros sqls sqls' Hs.
  pose proof (Join_related _ _ (match op with BoolOr => " OR " | _ => " AND " end) Hs) as HJ.
  destruct Hs as [|s s' sqls sqls' Hs1 Hs2]; [destruct nested; sim|].
  destruct Hs2; [sim|destruct nested; apply sim_ret; texts].
Qed.

Lemma sim_expr e nested :
  sim R (compileExprNested target attrTypes e nested) (compileExprNested target attrTypes (blank iv e) nested).
Proof.
  revert nested. induction e using Expr_ind'; intros nested; cbn [blank compileExprNested]; try apply sim_fail.
  - apply sim_bool; [|by destruct ts].
    rewrite !map_map. induction H as [|t ts Ht Hts IH]; cbn; [by apply sim_ret|].
    eapply sim_bind; [apply Ht|intros ? ? ?]. eapply sim_bind; [exact IH|intros ? ? ?].
    apply sim_ret. by constructor.
  - unfold compileNotExpr. eapply sim_bind; [apply IHe|intros ? ? ?]. sim.
  - unfold compileComparison. eapply sim_bind; [apply sim_scalar|intros ? ? ?].
    eapply sim_bind; [apply sim_scalar|intros ? ? ?]. sim.
  - unfold compileInComparison. eapply sim_bind; [apply sim_value|intros ? ? ?].
    destruct vs as [|v vs]; [sim|].
    eapply sim_bind; [apply (sim_cmap _ _ (blank iv) (v :: vs)); intros; apply sim_scalar|intros ? ? ?].
    apply sim_ret. texts. by apply Join_related.
  - unfold compileBetweenComparison. eapply sim_bind; [apply sim_value|intros ? ? ?].
    eapply sim_bind; [apply sim_scalar|intros ? ? ?]. eapply sim_bind; [apply sim_scalar|intros ? ? ?]. sim.
  - unfold compileNullComparison. eapply sim_bind; [apply sim_value|intros ? ? ?]. sim.
  - unfold compileRelationPredicate. sim.
  - unfold compileBucketPredicate. sim.
Qed.

Lemma sim_where e :
  sim (Forall2 R) (match e with NilExpr => mret [] | _ => sql ← compileExpr target attrTypes e; mret [sql] end)
    (match blank iv e with
     | NilExpr => mret [] | _ => sql ← compileExpr target attrTypes (blank iv e); mret [sql]
     end).
Proof.
  assert (sim (Forall2 R) (sql ← compileExpr target attrTypes e; mret [sql])
    (sql ← compileExpr target attrTypes (blank iv e); mret [sql])) as H.
  { eapply sim_bind; [apply sim_expr|intros ? ? ?]. apply sim_ret. by repeat constructor. }
  destruct e as [| | | | | | | | | | |e t| | | | | | | | |]; try exact H.
  - by apply sim_ret.
  - by destruct e.
Qed.

Lemma sim_whole e bucket bucket' : bucket <> "" -> bucket' <> "" ->
  sim (Forall2 R) (compileWhere target attrTypes (mkScope bucket) e)
    (compileWhere target attrTypes (mkScope bucket') (blank iv e)).
Proof.
  intros Hb Hb'. unfold compileWhere. cbn [sBucketID].
  destruct (String.eqb_spec bucket ""); [done|]. destruct (String.eqb_spec bucket' ""); [done|].
  eapply (sim_bind (Forall2 R)).
  { eapply sim_bind; [apply sim_addArg|intros ? ? ?]. apply sim_ret. constructor; [texts|constructor]. }
  intros l l' Hl. eapply sim_bind; [apply sim_where|]. intros w w' Hw. apply sim_ret. by apply Forall2_app.
Qed.

Lemma sim_bound k o : sim R (compileBound k o) (compileBound k ((fun _ => 0%Z) <$> o)).
Proof. destruct o; cbn [compileBound fmap option_fmap option_map]; [|sim].
  eapply sim_bind; [apply sim_addArg|intros ? ? ?]. sim.
Qed.
Lemma sim_order o : sim R (compileOrderExpr target attrTypes o)
  (compileOrderExpr target attrTypes (mkOrder (blank iv (oExpr o)) (oDirection o))).
Proof. unfold compileOrderExpr. cbn [oExpr oDirection]. eapply sim_bind; [apply sim_value|intros ? ? ?]. sim. Qed.
End Parametric.

Lemma blanked_search (iv : string -> string) (R : string -> string -> Prop) q deps bucket bucket' c :
  (forall s, R s s) -> (forall a a' b b', R a a' -> R b b' -> R (a +:+ b) (a' +:+ b')) ->
  (forall v sql, formatIntervalSQL v = Ok sql ->
    exists sql', formatIntervalSQL (iv v) = Ok sql' /\ R sql sql') ->
  CompileObjectsSearch (mkBound q deps) (mkScope bucket) = Ok c ->
  bucket <> "" -> bucket' <> "" ->
  exists c', CompileObjectsSearch (mkBound (blank_query iv q) deps) (mkScope bucket') = Ok c' /\
    R (SQL c) (SQL c') /\ List.length (Args c) = List.length (Args c').
Proof.
  intros Hr Ha Hi. unfold CompileObjectsSearch. cbn [bQuery bDependencies blank_query From Where OrderBy Limit Offset].
  intros E Hb Hb'. destruct (negb _); [done|].
  match type of E with (?m [] ≫= _) = _ => set (m1 := m) in * end.
  match goal with |- exists c', (?m [] ≫= _) = _ /\ _ => set (m2 := m) in * end.
  assert (sim R m1 m2) as Hsim.
  { subst m1 m2. eapply sim_bind; [by apply (sim_whole _ _ iv R)|intros wp wp' Hw].
    eapply sim_bind; [apply (sim_cmap R) with (g := fun o => mkOrder (blank iv (oExpr o)) (oDirection o));
      intros o _; by apply sim_order|intros ot ot' Ho].
    eapply sim_bind; [by apply sim_bound|intros lim lim' Hlim].
    eapply sim_bind; [by apply sim_bound|intros off off' Hoff]. apply sim_ret.
    pose proof (Join_related R Hr Ha _ _ " AND " Hw) as HJw. pose proof (Join_related R Hr Ha _ _ ", " Ho) as HJo.
    repeat apply Ha; try done; [destruct Hw|destruct Ho]; try done; by apply Ha. }
  apply bind_Ok in E as ([sql args] & E & [= <-]).
  destruct (Hsim [] [] sql args eq_refl E) as (sql' & args' & E' & HR & Hl).
  exists (mkCompiled sql' args'). rewrite E'. by split_and!.
Qed.


(** ** Placeholders *)

(** The numbers of the placeholders [$n] of a text, in order, those within quotes
    included. *)
Fixpoint placeholders (s : string) : list Z :=
  match s with
  | EmptyString => []
  | String c s =>
      if Ascii.eqb c "$" && negb (String.eqb (span IsDigit s).1 "")
      then dec_value (span IsDigit s).1 :: placeholders s
      else placeholders s
  end.

Definition dollar_free_string (s : string) : bool := string_forall (fun c => negb (Ascii.eqb c "$")) s.
(** No attribute path of the query contains a dollar sign. *)
Fixpoint dollar_free (e : Expr) : bool :=
  match e with
  | BoolExpr _ ts => forallb dollar_free ts
  | NotExpr _ e | NullComparison _ e _ | CastExpr e _ => dollar_free e
  | Comparison _ _ l r | ArithmeticExpr _ l r => dollar_free l && dollar_free r
  | InComparison _ l vs => dollar_free l && forallb dollar_free vs
  | BetweenComparison _ l lo up => dollar_free l && dollar_free lo && dollar_free up
  | AttrRef p => dollar_free_string p
  | _ => true
  end.

Definition starts_plain (s : string) : Prop :=
  match s with EmptyString => False | String c _ => IsDigit c = false end.

(** [reads_as s l]: in any context, the placeholders of [s] are [l]. *)
Definition reads_as (s : string) (l : list Z) : Prop := forall rest,
  stops IsDigit rest -> placeholders (s +:+ rest) = l ++ placeholders rest.

Lemma plain_text s rest : dollar_free_string s = true -> placeholders (s +:+ rest) = placeholders rest.
Proof.
  induction s as [|c s IH]; cbn; [done|]. intros [Hc Hs]%andb_true_iff. apply negb_true_iff in Hc.
  rewrite Hc. cbn. by apply IH.
Qed.
Lemma reads_plain s : dollar_free_string s = true -> reads_as s [].
Proof. intros Hs rest _. by apply plain_text. Qed.
Lemma reads_prefix t s l : dollar_free_string t = true -> reads_as s l -> reads_as (t +:+ s) l.
Proof. intros Ht Hs rest Hr. rewrite string_app_assoc, plain_text by done. by apply Hs. Qed.
Lemma starts_plain_stops s rest : starts_plain s -> stops IsDigit (s +:+ rest).
Proof. by destruct s. Qed.
Lemma reads_seq s l t l' : reads_as s l -> reads_as t l' -> starts_plain t -> reads_as (s +:+ t) (l ++ l').
Proof.
  intros Hs Ht Hp rest Hr. rewrite string_app_assoc, Hs by (by apply starts_plain_stops).
  by rewrite Ht, <- app_assoc by done.
Qed.

Lemma digits_dollar_free s : string_forall IsDigit s = true -> dollar_free_string s = true.
Proof.
  intros H. eapply string_forall_impl; [|exact H]. intros c Hc.
  destruct (Ascii.eqb_spec c "$") as [->|]; [by vm_compute in Hc|done].
Qed.

Lemma reads_placeholder n : reads_as (placeholder n) [Z.of_nat n].
Proof.
  intros rest Hr. unfold placeholder. destruct (itoa_spec (Z.of_nat n) ltac:(lia)) as [Hd Hv].
  apply andb_true_iff in Hd as [Hne Hd]. cbn [String.append placeholders].
  rewrite span_exact by done. cbn [fst]. rewrite Hne, Hv. cbn. f_equal. apply plain_text.
  by apply digits_dollar_free.
Qed.

Lemma reads_Join sep ss ls :
  Forall2 reads_as ss ls -> dollar_free_string sep = true -> starts_plain sep ->
  reads_as (Join ss sep) (List.concat ls).
Proof.
  intros Hss Hsep Hp. induction Hss as [|s l ss ls Hs Hss IH]; [by apply reads_plain|].
  destruct ss as [|s' ss].
  - inversion Hss; subst. cbn. by rewrite app_nil_r.
  - rewrite Join_cons. cbn [List.concat]. apply reads_seq; [done| |].
    + by apply reads_prefix.
    + by destruct sep.
Qed.

(** The placeholders [start, start + n). *)
Fixpoint numbers (start n : nat) : list Z :=
  match n with O => [] | S n => Z.of_nat start :: numbers (S start) n end.
Lemma numbers_app start n m : numbers start (n + m) = numbers start n ++ numbers (start + n) m.
Proof.
  revert start; induction n as [|n IH]; intros start; cbn; [by rewrite Nat.add_0_r|].
  rewrite IH. do 3 f_equal. lia.
Qed.

(** [places m G]: [m] appends arguments, and the placeholders of the appended
    arguments relate to its result by [G]. *)
Definition places {A} (m : C A) (G : A -> list Z -> Prop) : Prop := forall args a args1,
  m args = Ok (a, args1) -> exists new, args1 = args ++ new /\
    G a (numbers (S (List.length args)) (List.length new)).

Lemma places_ret {A} (a : A) (G : A -> list Z -> Prop) : G a [] -> places (mret a) G.
Proof. intros HG args b args1 [= <- <-]. exists []. by rewrite app_nil_r. Qed.
Lemma places_bind {A B} (m : C A) (f : A -> C B) (G : B -> list Z -> Prop) :
  places m (fun a l => places (f a) (fun b l' => G b (l ++ l'))) -> places (m ≫= f) G.
Proof.
  intros Hm args b args2 (a & args1 & E1 & E2)%C_bind_Ok.
  destruct (Hm _ _ _ E1) as (new & -> & Hf). destruct (Hf _ _ _ E2) as (new' & -> & HG).
  exists (new ++ new'). split; [by rewrite app_assoc|]. rewrite !length_app in *.
  rewrite numbers_app. exact HG.
Qed.
Lemma places_lift {E A} (f : E -> compile_error) (r : result E A) (G : A -> list Z -> Prop) :
  (forall a, r = Ok a -> G a []) -> places (clift f r) G.
Proof.
  intros HG args a args1. destruct r as [b|]; [|done]. intros [= <- <-]. exists []. rewrite app_nil_r. auto.
Qed.
Lemma places_fail {A} e (G : A -> list Z -> Prop) : places (cfail e) G.
Proof. by intros args a args1. Qed.
Lemma places_addArg v (G : string -> list Z -> Prop) :
  (forall s n, reads_as s [n] -> starts_plain s -> G s [n]) -> places (addArg v) G.
Proof.
  intros HG args a args1 [= <- <-]. exists [v]. split; [done|]. cbn [List.length numbers].
  rewrite Nat.add_1_r. apply HG; [apply reads_placeholder|done].
Qed.
Lemma places_mono {A} (m : C A) (G G' : A -> list Z -> Prop) :
  places m G -> (forall a l, G a l -> G' a l) -> places m G'.
Proof. intros Hm HG args a args1 E. destruct (Hm _ _ _ E) as (new & -> & H). eauto. Qed.

Lemma places_cmap {A} (f : A -> C string) xs (G : list string -> list Z -> Prop) :
  (forall x, x ∈ xs -> places (f x) reads_as) ->
  (forall ss ls, Forall2 reads_as ss ls -> List.length ss = List.length xs -> G ss (List.concat ls)) ->
  places (cmap f xs) G.
Proof.
  revert G. induction xs as [|x xs IH]; intros G Hf HG; cbn.
  - apply places_ret. by apply (HG [] []).
  - apply places_bind. eapply places_mono; [apply Hf; left|]. intros s l Hs. apply places_bind.
    apply IH; [intros y Hy; apply Hf; by right|]. intros ss ls Hss Hlen. apply places_ret.
    rewrite app_nil_r. apply (HG (s :: ss) (l :: ls)); [by constructor|cbn; lia].
Qed.

Section Placeholders.
Variables (target : Target) (attrTypes : gmap string ValueType).

Lemma Split_char_free p c sep : string_forall p c = true -> forall s, s ∈ Split sep c -> string_forall p s = true.
Proof.
  induction c as [|x c IH]; cbn; [by intros _ s ->%list_elem_of_singleton|].
  intros [Hx Hc]%andb_true_iff s. destruct (Ascii.eqb x sep).
  - intros [->|Hs]%elem_of_cons; [done|by apply IH].
  - specialize (IH Hc). destruct (Split sep c) as [|q qs]; cbn.
    + intros ->%list_elem_of_singleton. cbn. by rewrite Hx.
    + intros [->|Hs]%elem_of_cons; [|apply IH; by right]. cbn. rewrite Hx. apply IH. by left.
Qed.

Lemma Join_dollar_free sep ss :
  dollar_free_string sep = true -> (forall s, s ∈ ss -> dollar_free_string s = true) ->
  dollar_free_string (Join ss sep) = true.
Proof.
  intros Hsep. induction ss as [|s ss IH]; intros Hss; [done|]. destruct ss as [|s' ss].
  - apply Hss. by left.
  - rewrite Join_cons. unfold dollar_free_string in *. rewrite !string_forall_app, Hsep.
    rewrite (Hss s) by left. apply IH. intros s'' Hs. apply Hss. by right.
Qed.

Lemma path_dollar_free path sql :
  dollar_free_string path = true -> jsonbTextPathLiteral path = Ok sql -> dollar_free_string sql = true.
Proof.
  intros Hp E. unfold jsonbTextPathLiteral, NewJSONBPath in E. inv_ok.
  assert (dollar_free_string (Join (splitAttributePath path) ",") = true) as HJ.
  { apply Join_dollar_free; [done|]. intros s Hs. eapply Split_char_free; [exact Hp|].
    unfold splitAttributePath in Hs. apply list_elem_of_In in Hs. apply filter_In in Hs as [Hs _].
    by apply list_elem_of_In. }
  unfold dollar_free_string in *. cbn [string_forall]. rewrite string_forall_app, HJ. reflexivity.
Qed.

Lemma attributeSQL_reads path t sql :
  dollar_free_string path = true -> attributeSQLExpr path t = Ok sql -> reads_as sql [].
Proof.
  intros Hp E. unfold attributeSQLExpr in E.
  destruct (jsonbTextPathLiteral path) as [x|] eqn:Ex; [|done]. cbn [mbind result_bind] in E.
  apply path_dollar_free in Ex; [|done]. apply reads_plain. unfold dollar_free_string in *.
  destruct t; try discriminate E; injection E as <-; cbn; rewrite ?string_forall_app; cbn; rewrite ?Ex; reflexivity.
Qed.

Lemma FieldSQLColumn_reads n sql : FieldSQLColumn target n = Ok sql -> reads_as sql [].
Proof.
  unfold FieldSQLColumn. intros E. apply reads_plain.
  revert E. destruct target; try done; cbn [BuiltinTargetDefinitions List.filter tTarget];
    repeat (case_bool_decide; try done); cbn;
    repeat match goal with |- context [String.eqb ?a n] =>
      destruct (String.eqb a n); [intros [= <-]; reflexivity|] end; done.
Qed.

Lemma lower_dollar c : Ascii.eqb (lower c) "$" = Ascii.eqb c "$".
Proof. by destruct c as [[] [] [] [] [] [] [] []]. Qed.

Lemma foldASCII_dollar_free s : dollar_free_string (foldASCII s) = dollar_free_string s.
Proof.
  enough (forall n s, (String.length s <= n)%nat -> dollar_free_string (foldASCII s) = dollar_free_string s) as H
    by by eapply H.
  clear s. induction n as [|n IH]; intros s Hs; [by destruct s; [|cbn in Hs; lia]|].
  destruct s as [|a s]; [done|].
  assert (forall t, (String.length t <= n)%nat ->
    dollar_free_string (String (lower a) (foldASCII t)) = dollar_free_string (String a t)) as Hone.
  { intros t Ht. unfold dollar_free_string in *. cbn [string_forall]. by rewrite lower_dollar, IH. }
  destruct s as [|b s]; [exact (Hone "" (Nat.le_0_l _))|].
  cbn in Hs. specialize (Hone (String b s)). cbn [foldASCII] in *.
  destruct ((byte a =? 197)%Z && (byte b =? 191)%Z) eqn:E1.
  - apply andb_true_iff in E1 as [Ea Eb]. unfold dollar_free_string in *. cbn [string_forall].
    rewrite IH by lia. destruct (Ascii.eqb_spec a "$") as [->|]; [done|].
    destruct (Ascii.eqb_spec b "$") as [->|]; [done|]. done.
  - destruct s as [|c s]; [apply Hone; cbn; lia|].
    destruct ((byte a =? 226)%Z && (byte b =? 132)%Z && (byte c =? 170)%Z) eqn:E2; [|apply Hone; cbn in *; lia].
    apply andb_true_iff in E2 as [[Ea Eb]%andb_true_iff Ec]. unfold dollar_free_string in *. cbn [string_forall].
    rewrite IH by (cbn in Hs; lia). destruct (Ascii.eqb_spec a "$") as [->|]; [done|].
    destruct (Ascii.eqb_spec b "$") as [->|]; [done|]. destruct (Ascii.eqb_spec c "$") as [->|]; done.
Qed.

Lemma interval_reads_as v sql : formatIntervalSQL v = Ok sql -> reads_as sql [].
Proof.
  intros (n & u & _ & Hn & Hu & _ & ->)%formatInterval_text.
  apply (reads_prefix "interval '" ((n +:+ " " +:+ u) +:+ "'") []); [done|]. apply reads_plain.
  assert (dollar_free_string u = true) as Hu'.
  { apply existsb_exists in Hu as (x & Hx & Heq%String.eqb_eq). rewrite <- foldASCII_dollar_free, Heq.
    repeat (destruct Hx as [<-|Hx]; [reflexivity|]). destruct Hx. }
  apply digits_dollar_free in Hn. unfold dollar_free_string in *.
  by rewrite !string_forall_app, Hn, Hu'.
Qed.

Lemma literal_places e : places (compileLiteralArg e) reads_as.
Proof. apply places_bind, places_lift. intros v _. apply places_addArg. by intros s n Hs _. Qed.

Lemma cast_places e t : dollar_free e = true -> places (compileCastExpr e t) reads_as.
Proof.
  intros He. destruct e; try apply places_fail; cbn in He |- *.
  - apply places_lift. intros sql. by apply attributeSQL_reads.
  - case_bool_decide; [|apply places_fail]. apply places_bind, places_lift. intros v _.
    apply places_addArg. by intros s n Hs _.
Qed.

Lemma value_places e : dollar_free e = true -> places (compileValueExpr target attrTypes e) reads_as.
Proof.
  intros He. destruct e; try apply places_fail; cbn in He |- *.
  - apply places_lift. apply FieldSQLColumn_reads.
  - apply places_lift. intros sql. by apply attributeSQL_reads.
  - by apply cast_places.
Qed.

(** Texts in sequence, separated by plain text. *)
Lemma reads_sep s l t u l' :
  reads_as s l -> dollar_free_string t = true -> starts_plain t -> reads_as u l' ->
  reads_as (s +:+ t +:+ u) (l ++ l').
Proof.
  intros Hs Ht Hp Hu. apply reads_seq; [done|by apply reads_prefix|by destruct t].
Qed.
Lemma reads_suffix s l t : reads_as s l -> dollar_free_string t = true -> starts_plain t -> reads_as (s +:+ t) l.
Proof.
  intros Hs Ht Hp. rewrite <- (app_nil_r l). apply reads_seq; [done|by apply reads_plain|done].
Qed.

Lemma scalar_places e : dollar_free e = true -> places (compileScalarExpr target attrTypes e) reads_as.
Proof.
  induction e using Expr_ind'; intros He; try apply literal_places; try (by apply value_places).
  - destruct e; try apply literal_places. by apply cast_places.
  - by apply places_ret, reads_plain.
  - apply places_lift. intros sql. by apply interval_reads_as.
  - cbn in He. apply andb_true_iff in He as [Hl Hr]. cbn. unfold compileArithmeticExpr.
    apply places_bind. eapply places_mono; [by apply IHe1|]. intros s l Hs.
    apply places_bind. eapply places_mono; [by apply IHe2|]. intros s' l' Hs'.
    apply places_ret. rewrite app_nil_r. apply reads_prefix; [done|].
    destruct op; (apply (reads_sep s l " - " (s' +:+ ")") l') || apply (reads_sep s l " + " (s' +:+ ")") l'));
      (done || by apply reads_suffix).
Qed.

Lemma comparisonOperator_plain op sql : comparisonOperator op = Ok sql -> dollar_free_string sql = true.
Proof. destruct op; cbn; by intros [= <-]. Qed.

Lemma expr_places e nested : dollar_free e = true -> places (compileExprNested target attrTypes e nested) reads_as.
Proof.
  revert nested. induction e using Expr_ind'; intros nested He; try apply places_fail; cbn in He |- *.
  - unfold compileBoolExpr. destruct ts as [|t ts]; [apply places_fail|]. cbn [map].
    apply places_bind, (places_cmap id (compileExprNested target attrTypes t true :: map _ ts)).
    { change (compileExprNested target attrTypes t true :: map _ ts) with
        (map (fun t => compileExprNested target attrTypes t true) (t :: ts)).
      intros m (x & -> & Hx)%list_elem_of_fmap. rewrite List.Forall_forall in H.
      apply H; [by apply list_elem_of_In|by eapply forallb_elem]. }
    intros ss ls Hss _. destruct ss as [|s [|s' ss]].
    + apply places_ret. inversion Hss; subst. cbn. destruct nested; by apply reads_plain.
    + inversion Hss as [|? l ? ? Hs Hnil]; subst. inversion Hnil; subst. apply places_ret. cbn.
      by rewrite !app_nil_r.
    + apply places_ret. rewrite app_nil_r.
      assert (reads_as (Join (s :: s' :: ss) (match op with BoolOr => " OR " | _ => " AND " end)) (List.concat ls)) as Hj.
      { apply reads_Join; [done|by destruct op|by destruct op]. }
      destruct nested; [|done]. apply reads_prefix; [done|]. by apply reads_suffix.
  - unfold compileNotExpr. apply places_bind. eapply places_mono; [by apply IHe|]. intros s l Hs.
    apply places_ret. rewrite app_nil_r. apply reads_prefix; [done|]. by apply reads_suffix.
  - apply andb_true_iff in He as [Hl Hr]. unfold compileComparison.
    apply places_bind. eapply places_mono; [by apply scalar_places|]. intros s l' Hs.
    apply places_bind. eapply places_mono; [by apply scalar_places|]. intros s' l'' Hs'.
    apply places_bind, places_lift. intros o Ho%comparisonOperator_plain. apply places_ret.
    rewrite app_nil_r. cbn [app].
    rewrite <- (string_app_assoc o " " s'), <- (string_app_assoc " " (o +:+ " ") s').
    apply reads_sep; [done| |done|done]. cbn. unfold dollar_free_string in *.
    by rewrite string_forall_app, Ho.
  - apply andb_true_iff in He as [Hl Hvs]. unfold compileInComparison.
    apply places_bind. eapply places_mono; [by apply value_places|]. intros s l' Hs.
    destruct vs as [|v vs]; [apply places_fail|].
    apply places_bind, (places_cmap _ (v :: vs)).
    { intros x Hx. apply scalar_places. by eapply forallb_elem. }
    intros ss ls Hss _. apply places_ret. rewrite app_nil_r. apply reads_sep; [done..|].
    apply reads_suffix; [|done..]. by apply reads_Join.
  - rewrite !andb_true_iff in He. destruct He as [[Hl Hlo] Hup]. unfold compileBetweenComparison.
    apply places_bind. eapply places_mono; [by apply value_places|]. intros s l Hs.
    apply places_bind. eapply places_mono; [by apply scalar_places|]. intros s' l' Hs'.
    apply places_bind. eapply places_mono; [by apply scalar_places|]. intros s'' l'' Hs''.
    apply places_ret. rewrite app_nil_r. by repeat apply reads_sep.
  - unfold compileNullComparison. apply places_bind. eapply places_mono; [by apply value_places|].
    intros s l Hs. apply places_ret. rewrite app_nil_r. destruct n; by apply reads_suffix.
  - unfold compileRelationPredicate. apply places_bind, places_addArg. intros s k Hs Hp.
    apply places_bind, places_lift. intros o Ho. apply places_ret. cbn [app].
    assert (dollar_free_string o = true) as Hod by (by destruct d; simplify_eq/=).
    apply reads_prefix; [done|]. apply reads_prefix; [done|]. apply reads_prefix; [done|]. by apply reads_suffix.
  - unfold compileBucketPredicate. apply places_bind, places_addArg. intros s k Hs Hp.
    apply places_ret. apply reads_prefix; [done|]. by apply reads_suffix.
Qed.
End Placeholders.

Definition dollar_free_query (q : Query) : bool :=
  dollar_free (Where q) && forallb (fun o => dollar_free (oExpr o)) (OrderBy q).

Lemma where_places target attrTypes scope e (G : list string -> list Z -> Prop) :
  dollar_free e = true ->
  (forall ss ls, Forall2 reads_as ss ls -> G ss (List.concat ls)) ->
  places (compileWhere target attrTypes scope e) G.
Proof.
  intros He HG. unfold compileWhere. apply places_bind.
  apply (places_mono _ (fun ss l => exists ls, Forall2 reads_as ss ls /\ l = List.concat ls)).
  { destruct (String.eqb _ _); [apply places_ret; exists []; by split|].
    apply places_bind, places_addArg. intros s n Hs _. apply places_ret. exists [[n]]. split; [|done].
    constructor; [by apply reads_prefix|constructor]. }
  intros ss l (ls & Hss & ->). apply places_bind.
  apply (places_mono _ (fun ss' l' => exists ls', Forall2 reads_as ss' ls' /\ l' = List.concat ls')).
  { assert (forall e', dollar_free e' = true ->
      places (sql ← compileExpr target attrTypes e'; mret [sql])
        (fun ss' l' => exists ls', Forall2 reads_as ss' ls' /\ l' = List.concat ls')) as Hcond.
    { intros e' He'. apply places_bind. eapply places_mono; [by apply expr_places|]. intros s l' Hs.
      apply places_ret. exists [l']. split; [by repeat constructor|done]. }
    specialize (Hcond e He).
    destruct e; try exact Hcond. apply places_ret. exists []. by split. }
  intros ss' l' (ls' & Hss' & ->). apply places_ret. rewrite app_nil_r, <- List.concat_app.
  apply HG. by apply Forall2_app.
Qed.

Lemma bound_places keyword o (G : string -> list Z -> Prop) :
  dollar_free_string keyword = true ->
  (forall s l, reads_as s l -> (s = "" /\ l = []) \/ starts_plain s -> G s l) ->
  places (compileBound keyword o) G.
Proof.
  intros Hk HG. destruct o as [n|]; cbn.
  - apply places_bind, places_addArg. intros s k Hs _. apply places_ret. apply HG; [|by right].
    apply (reads_prefix "
" (keyword +:+ " " +:+ s) [k]); [done|]. apply reads_prefix; [exact Hk|].
    by apply (reads_prefix " " s [k]).
  - apply places_ret. apply HG; [by apply reads_plain|by left].
Qed.

Lemma reads_tail s l t l' :
  reads_as s l -> reads_as t l' -> (t = "" /\ l' = []) \/ starts_plain t -> reads_as (s +:+ t) (l ++ l').
Proof.
  intros Hs Ht [[-> ->]|Hp]; [|by apply reads_seq]. by rewrite string_app_nil_r, app_nil_r.
Qed.

(** C22: the placeholders of a compiled statement are $1, $2, ..., $n in the order of
    the text, n being the number of its arguments, when no attribute path contains a
    dollar sign. *)
Theorem compile_placeholders b scope c :
  dollar_free_query (bQuery b) = true ->
  CompileObjectsSearch b scope = Ok c ->
  placeholders (SQL c) = numbers 1 (List.length (Args c)).
Proof.
  unfold dollar_free_query. intros [Hw Ho]%andb_true_iff E. unfold CompileObjectsSearch in E.
  destruct (negb _); [done|]. apply bind_Ok in E as ([sql args] & E & [= <-]). cbn [SQL Args].
  match type of E with ?m [] = _ => assert (places m reads_as) as Hm end.
  { apply places_bind, where_places; [done|]. intros ws wls Hws.
    apply places_bind, places_cmap.
    { intros o Hin. unfold compileOrderExpr. apply places_bind.
      eapply places_mono; [apply value_places; by apply (forallb_elem _ _ _ Ho)|]. intros s l Hs.
      apply places_ret. rewrite app_nil_r. apply reads_suffix; [done| |done].
      by case_bool_decide. }
    intros os ols Hos _. apply places_bind, bound_places; [done|]. intros lim l1 Hlim Hp1.
    apply places_bind, bound_places; [done|]. intros off l2 Hoff Hp2. apply places_ret.
    rewrite app_nil_r. apply reads_prefix; [by vm_compute|].
    assert (forall head sep ss ls, Forall2 reads_as ss ls -> dollar_free_string head = true ->
      starts_plain head -> dollar_free_string sep = true -> starts_plain sep ->
      let s := match ss with [] => "" | _ => head +:+ Join ss sep end in
      reads_as s (List.concat ls) /\ ((s = "" /\ List.concat ls = []) \/ starts_plain s)) as Hlist.
    { intros head sep ss ls Hss Hh Hhp Hs Hsp s. subst s.
      destruct Hss as [|x lx ss ls Hx Hss]; [by split; [apply reads_plain|left]|].
      split; [|right; by destruct head]. apply reads_prefix; [done|].
      apply reads_Join; [by constructor|done|done]. }
    destruct (Hlist "
WHERE " " AND " ws wls Hws) as [H1 _]; [done..|].
    destruct (Hlist "
ORDER BY " ", " os ols Hos) as [H2 H2p]; [done..|].
    assert (reads_as (lim +:+ off) (l1 ++ l2)) as H3 by by apply reads_tail.
    assert ((lim +:+ off = "" /\ l1 ++ l2 = []) \/ starts_plain (lim +:+ off)) as H3p.
    { destruct Hp1 as [[-> ->]|Hp1]; [exact Hp2|right]. by destruct lim. }
    apply reads_tail; [done| |].
    - by apply reads_tail.
    - destruct H2p as [[H2e H2l]|H2p].
      + rewrite H2e, H2l. exact H3p.
      + right. by destruct (match os with [] => "" | _ => _ end). }
  destruct (Hm _ _ _ E) as (new & -> & Hr). specialize (Hr "" I). rewrite string_app_nil_r in Hr.
  rewrite Hr. cbn. by rewrite app_nil_r.
Qed.

(** *** From text to SQL *)

(** The path of an attribute is not escaped: this search, accepted by the parser
    and the binder, compiles to a condition that is true of every object. *)
Theorem attribute_path_injection :
  exists q b c,
    Parse "FROM objects WHERE attr('x}'' IS NULL OR true --') = 'a'" = Ok q /\
    Bind q (Some BuiltinRegistry) = Ok b /\
    CompileObjectsSearch b (mkScope "") = Ok c /\
    Contains (SQL c) "
WHERE objects.attributes #>> '{x}' IS NULL OR true --}' = $1" = true.
Proof.
  eexists _, _, _. split; [vm_compute; reflexivity|]. split; [vm_compute; reflexivity|].
  split; [vm_compute; reflexivity|]. vm_compute. reflexivity.
Qed.

(** ** Witnesses *)

Definition compile_sql (e : Expr) (args : list SqlArg) : string * list SqlArg :=
  match compileExpr TargetObjects ∅ e args with Ok r => r | Err _ => ("", []) end.

Definition compile_example_expr : Expr :=
  BoolExpr BoolAnd
    [BoolExpr BoolOr [Comparison Val OpEq (FieldRef "key") (StringLiteral "a");
                      NotExpr Val (NullComparison Val (AttrRef "x.y") false)];
     Comparison Val OpGt (CastExpr (AttrRef "x.y") TypeInteger) (IntLiteral 3)].

Lemma compile_structure_witness :
  exists sql args, compileExpr TargetObjects ∅ compile_example_expr [] = Ok (sql, args) /\
  exists ps f, sql = text ps /\ sql_means ps f /\ structure_of TargetObjects ∅ compile_example_expr f.
Proof.
  eexists _, _. split; [vm_compute; reflexivity|].
  eapply (compile_structure TargetObjects ∅ compile_example_expr []). vm_compute. reflexivity.
Defined.

Lemma scope_enforced_witness :
  exists sqls args, compileWhere TargetObjects ∅ (mkScope "b1") compile_example_expr [] = Ok (sqls, args) /\
  exists ps f g, Join sqls " AND " = text ps /\ sql_means ps f /\
    structure_of TargetObjects ∅ compile_example_expr g /\
    forall env, holds env f = env "objects.bucket_id = $1" && holds env g.
Proof.
  eexists _, _. split; [vm_compute; reflexivity|].
  eapply (scope_enforced TargetObjects ∅ "b1" compile_example_expr); try discriminate; try reflexivity.
Defined.

Definition compile_example_bound : BoundQuery :=
  mkBound (mkQuery VersionV1 TargetObjects compile_example_expr
    [mkOrder (FieldRef "key") SortDesc] (Some 5%Z) (Some 10%Z)) [].

Definition interval_example : Query :=
  mkQuery VersionV1 TargetObjects
    (BoolExpr BoolAnd [compile_example_expr;
       Comparison Val OpGte (FieldRef "created_at") (ArithmeticExpr ArithSub NowExpr (IntervalLiteral "7 Days"))])
    [] (Some 5%Z) None.


Lemma compile_placeholders_witness :
  exists c, CompileObjectsSearch compile_example_bound (mkScope "b1") = Ok c /\
    placeholders (SQL c) = numbers 1 5.
Proof.
  eexists. split; [vm_compute; reflexivity|].
  apply (compile_placeholders compile_example_bound (mkScope "b1")); vm_compute; reflexivity.
Defined.

(** The condition is needed: the path of an attribute stands in the text, within quotes,
    and one with a dollar sign reads like a placeholder of its own. *)
Example dollar_path_reads_as_placeholder :
  placeholders <$> (match CompileObjectsSearch (mkBound (mkQuery VersionV1 TargetObjects
      (Comparison Val OpEq (AttrRef "a$7") (StringLiteral "x")) [] None None) []) (mkScope "b1") with
    | Ok c => Some (SQL c) | Err _ => None end) = Some [1; 7; 2]%Z.
Proof. vm_compute. reflexivity. Qed.
