(* ===== verification/Verification.v ===== *)
(** * Verification

    packages/verification: fingerprints, key partitions and the daily sample of
    partitions that the verification scan compares with the upstream. *)
From S2P Require Import Prelude GoStrings GoFloat GoTime.
Local Open Scope Z_scope.

(** ** Machine integers *)

(** The value of an [int64] after a computation that may overflow. *)
Definition wrap64 (z : Z) : Z := (z + 2 ^ 63) mod 2 ^ 64 - 2 ^ 63.

Lemma wrap64_small z : - 2 ^ 63 <= z < 2 ^ 63 -> wrap64 z = z.
Proof. intros Hz. unfold wrap64. rewrite Z.mod_small; lia. Qed.
Lemma wrap64_wrap a b : wrap64 (wrap64 a + b) = wrap64 (a + b).
Proof.
  unfold wrap64. f_equal.
  replace ((a + 2 ^ 63) mod 2 ^ 64 - 2 ^ 63 + b + 2 ^ 63) with ((a + 2 ^ 63) mod 2 ^ 64 + b) by lia.
  rewrite Zplus_mod_idemp_l. f_equal. lia.
Qed.

(** ** fingerprint.go *)

Record Fingerprint := mkFingerprint { fCount : Z; fBytes : Z }.
Inductive DriftAt := DriftAtNone | DriftAtCount | DriftAtBytes.
Record CompareResult := mkCompare { cMatch : bool; cDriftAt : DriftAt }.
Record Accumulator := mkAcc { acount : Z; abytes : Z }.

Definition AddObject (a : Accumulator) (size : Z) : Accumulator :=
  mkAcc (wrap64 (acount a + 1)) (wrap64 (abytes a + size)).
Definition Empty (a : Accumulator) : bool := acount a =? 0.
Definition Snapshot (a : Accumulator) : Fingerprint := mkFingerprint (acount a) (abytes a).

Definition CompareFingerprints (local upstream : Fingerprint) : CompareResult :=
  if negb (fCount local =? fCount upstream) then mkCompare false DriftAtCount
  else if negb (fBytes local =? fBytes upstream) then mkCompare false DriftAtBytes
  else mkCompare true DriftAtNone.

(** ** partition.go *)

(** [hash/fnv]: FNV-1a on 32 bits. *)
Definition fnv_offset32 : Z := 2166136261.
Definition fnv_prime32 : Z := 16777619.
Fixpoint fnv32a (h : Z) (s : string) : Z :=
  match s with
  | EmptyString => h
  | String c s => fnv32a (Z.lxor h (byte c) * fnv_prime32 mod 2 ^ 32) s
  end.
Definition Sum32 (s : string) : Z := fnv32a fnv_offset32 s.

Definition SchemeHash : string := "hash".
Definition DefaultModulus : Z := 256.
Record Partition := mkPartition { Scheme : string; Modulus : Z; Index : Z }.
#[export] Instance Partition_eq_dec : EqDecision Partition. Proof. solve_decision. Defined.

(** [None] is the panic on a zero modulus. *)
Definition PartitionIndex (key : string) (modulus : Z) : option Z :=
  if modulus =? 0 then None else Some (Sum32 key mod modulus).
Definition PartitionFromIndex (index modulus : Z) : Partition := mkPartition SchemeHash modulus index.
Definition PartitionForKey (key : string) (modulus : Z) : option Partition :=
  index ← PartitionIndex key modulus; Some (PartitionFromIndex index modulus).

(** [for value := modulus - 1; value > 0; value /= 10 { width++ }]; ten digits are
    enough for 32 bits. *)
Fixpoint digit_count (fuel : nat) (value : Z) : nat :=
  match fuel with
  | O => 0
  | S fuel => if 0 <? value then S (digit_count fuel (value / 10)) else 0
  end.
Definition partitionIDWidth (modulus : Z) : nat :=
  if modulus =? 0 then 1
  else match digit_count 10 (modulus - 1) with O => 1 | width => width end.

Definition ID (p : Partition) : string :=
  pad_itoa (partitionIDWidth (Modulus p)) (Index p) +:+ String "/" (itoa (Modulus p)).

Inductive partition_error :=
| ExpectedIndexModulus | InvalidIndex | InvalidModulus | ModulusZero | IndexOutOfRange.

Definition ParsePartitionID (id : string) : result partition_error Partition :=
  match Split "/" id with
  | [indexText; modulusText] =>
      match ParseUint indexText 32 with
      | None => Err InvalidIndex
      | Some index =>
          match ParseUint modulusText 32 with
          | None => Err InvalidModulus
          | Some modulus =>
              if modulus =? 0 then Err ModulusZero
              else if modulus <=? index then Err IndexOutOfRange
              else Ok (mkPartition SchemeHash modulus index)
          end
      end
  | _ => Err ExpectedIndexModulus
  end.

(** The indices [0, modulus). *)
Fixpoint indices_from (n : nat) (start : Z) : list Z :=
  match n with O => [] | S n => start :: indices_from n (start + 1) end.
Definition indices (modulus : Z) : list Z := indices_from (Z.to_nat modulus) 0.
Definition AllPartitions (modulus : Z) : list Partition :=
  map (fun index => PartitionFromIndex index modulus) (indices modulus).

(** ** Accumulators per partition (fingerprint.go) *)

Record PartitionAccumulators := mkAccs { partitions : list Accumulator; modulus : Z }.

Definition NewPartitionAccumulators (modulus : Z) : PartitionAccumulators :=
  mkAccs (replicate (Z.to_nat modulus) (mkAcc 0 0)) modulus.

(** [None] is a panic: a zero modulus, or an index out of range. *)
Definition AddKey (p : PartitionAccumulators) (key : string) (size : Z) : option PartitionAccumulators :=
  index ← PartitionIndex key (modulus p);
  a ← partitions p !! Z.to_nat index;
  Some (mkAccs (<[Z.to_nat index := AddObject a size]> (partitions p)) (modulus p)).
Definition PartitionSnapshot (p : PartitionAccumulators) (index : Z) : option Fingerprint :=
  a ← partitions p !! Z.to_nat index; Some (Snapshot a).
Definition PartitionEmpty (p : PartitionAccumulators) (index : Z) : option bool :=
  a ← partitions p !! Z.to_nat index; Some (Empty a).

(** ** sampling.go *)

Definition largeScopeObjectThreshold : Z := 100000.
Definition mediumScopeObjectThreshold : Z := 10000.

Definition SampleRate (objectCount : Z) : spec_float :=
  if largeScopeObjectThreshold <? objectCount then float_of_decimal false 1 2
  else if mediumScopeObjectThreshold <=? objectCount then float_of_decimal false 10 2
  else float_of_decimal false 25 2.

Definition DailyEpoch (value : Time) : Time :=
  let '(y, m, d) := civil (UTC value) in DateUTC y m d 0 0 0 0.

(** [uint32(f)] of a finite float in range. *)
Definition uint32_of_float (f : spec_float) : Z :=
  match f with
  | S754_finite false m e => (if 0 <=? e then Zpos m * 2 ^ e else Zpos m / 2 ^ (- e)) mod 2 ^ 32
  | _ => 0
  end.

Definition float_le (a b : spec_float) : bool := SFleb a b.

Definition ShouldSample (partition : Partition) (rate : spec_float) (epoch : Time) : bool :=
  if float_le (float_of_Z 1) rate then true
  else if float_le rate (float_of_Z 0) then false
  else Sum32 (ID partition +:+ FormatDateOnly (DailyEpoch epoch)) mod 10000
       <? uint32_of_float (SFmul prec64 emax64 rate (float_of_Z 10000)).

Definition SamplePartitions (modulus objectCount : Z) (epoch : Time) : list Partition :=
  if objectCount <? mediumScopeObjectThreshold then AllPartitions modulus
  else
    let rate := SampleRate objectCount in
    List.filter (fun partition => ShouldSample partition rate epoch)
      (map (fun index => PartitionFromIndex index modulus) (indices modulus)).

(** The sampling thresholds out of 10,000. *)
Example sample_thresholds :
  (uint32_of_float (SFmul prec64 emax64 (SampleRate 200000) (float_of_Z 10000)),
   uint32_of_float (SFmul prec64 emax64 (SampleRate 20000) (float_of_Z 10000)),
   uint32_of_float (SFmul prec64 emax64 (SampleRate 0) (float_of_Z 10000))) = (100, 1000, 2500).
Proof. vm_compute. reflexivity. Qed.
Example fnv_example : Sum32 "hello" = 1335831723.
Proof. vm_compute. reflexivity. Qed.
Example id_example : ID (PartitionFromIndex 7 256) = "007/256".
Proof. vm_compute. reflexivity. Qed.

(** ** Partition identifiers *)

Definition valid_partition (p : Partition) : Prop :=
  Scheme p = SchemeHash /\ 0 <= Index p < Modulus p /\ Modulus p < 2 ^ 32.

Lemma pad_itoa_0 n : pad_itoa 0 n = itoa n.
Proof. reflexivity. Qed.

Lemma pad_itoa_no_slash w n :
  0 <= n -> string_forall (fun d => negb (Ascii.eqb d "/")) (pad_itoa w n) = true.
Proof.
  intros Hn. destruct (pad_itoa_spec w n Hn) as [Hd _]. by apply digits_no_char.
Qed.

(** A partition's identifier parses back to the partition. *)
Theorem ParsePartitionID_ID p : valid_partition p -> ParsePartitionID (ID p) = Ok p.
Proof.
  destruct p as [sch m i]. intros (Hs & Hi & Hm). cbn in Hs. subst sch. cbn [Index Modulus] in *.
  unfold ParsePartitionID, ID. cbn [Index Modulus].
  rewrite Split_cons by (apply pad_itoa_no_slash; lia).
  rewrite <- (pad_itoa_0 m), Split_no_sep by (apply pad_itoa_no_slash; lia).
  rewrite !ParseUint_itoa by lia. rewrite (proj2 (Z.eqb_neq _ _)), (proj2 (Z.leb_gt _ _)) by lia. done.
Qed.

(** An accepted identifier denotes a valid partition: the index is below the
    modulus and both fit 32 bits. *)
Theorem ParsePartitionID_valid id p : ParsePartitionID id = Ok p -> valid_partition p.
Proof.
  unfold ParsePartitionID. intros E. destruct (Split "/" id) as [|a [|b [|? ?]]]; try done.
  destruct (ParseUint a 32) as [i|] eqn:Ei; [|done]. destruct (ParseUint b 32) as [m|] eqn:Em; [|done].
  apply ParseUint_Some in Ei as (_ & _ & Hi). apply ParseUint_Some in Em as (_ & _ & Hm).
  destruct (Z.eqb_spec m 0); [done|]. destruct (Z.leb_spec m i); [done|]. injection E as <-.
  split_and!; cbn; done || lia.
Qed.

(** ** Partitions of a key space *)

Lemma elem_of_indices_from n start z : z ∈ indices_from n start <-> start <= z < start + Z.of_nat n.
Proof.
  revert start; induction n as [|n IH]; intros start; cbn [indices_from].
  - split; [by intros ?%not_elem_of_nil|lia].
  - rewrite elem_of_cons, IH. lia.
Qed.
Lemma elem_of_indices m z : 0 <= m -> z ∈ indices m <-> 0 <= z < m.
Proof. intros Hm. unfold indices. rewrite elem_of_indices_from. lia. Qed.
Lemma indices_NoDup m : NoDup (indices m).
Proof.
  unfold indices. generalize (Z.to_nat m) as n, 0 as start. induction n as [|n IH]; intros start; cbn.
  - constructor.
  - constructor; [|apply IH]. rewrite elem_of_indices_from. lia.
Qed.

#[export] Instance PartitionFromIndex_inj m : Inj (=) (=) (fun index => PartitionFromIndex index m).
Proof. by intros a b [= ->]. Qed.

Lemma fnv32a_range s h : 0 <= h < 2 ^ 32 -> 0 <= fnv32a h s < 2 ^ 32.
Proof.
  revert h; induction s as [|c s IH]; intros h Hh; cbn [fnv32a]; [done|].
  apply IH. apply Z.mod_pos_bound. lia.
Qed.

Lemma PartitionIndex_range key m : 0 < m -> exists i, PartitionIndex key m = Some i /\ 0 <= i < m.
Proof.
  intros Hm. unfold PartitionIndex. rewrite (proj2 (Z.eqb_neq _ _)) by lia.
  eexists. split; [done|]. by apply Z.mod_pos_bound.
Qed.

(** The partitions of a modulus cover the keys: every key is in exactly one of
    them. *)
Theorem partition_of_key key m :
  0 < m -> exists p, PartitionForKey key m = Some p /\ p ∈ AllPartitions m /\ NoDup (AllPartitions m).
Proof.
  intros Hm. destruct (PartitionIndex_range key m Hm) as (i & Hi & Hr).
  unfold PartitionForKey. rewrite Hi. eexists. split; [done|]. unfold AllPartitions. split.
  - apply list_elem_of_fmap. exists i. split; [done|]. apply elem_of_indices; lia.
  - apply (NoDup_fmap_2 (fun index => PartitionFromIndex index m)), indices_NoDup.
Qed.

(** ** Fingerprints of listings *)

(** The objects of a listing in a partition. *)
Definition in_partition (m i : Z) (o : string * Z) : bool :=
  match PartitionIndex o.1 m with Some j => j =? i | None => false end.
Definition total (l : list Z) : Z := fold_right Z.add 0 l.
(** What the accumulators promise: the number of keys of the partition and the
    sum of their sizes, in 64 bits. *)
Definition fingerprint_of (m i : Z) (objects : list (string * Z)) : Fingerprint :=
  let mine := List.filter (in_partition m i) objects in
  mkFingerprint (wrap64 (Z.of_nat (List.length mine))) (wrap64 (total (map snd mine))).

Definition AddAll (p : PartitionAccumulators) (objects : list (string * Z)) : option PartitionAccumulators :=
  fold_left (fun p o => p ≫= fun p => AddKey p o.1 o.2) objects (Some p).

Lemma total_app l l' : total (l ++ l') = total l + total l'.
Proof. induction l as [|x l IH]; cbn; [done|]. unfold total in *. lia. Qed.

Lemma AddAll_snoc p objects o : AddAll p (objects ++ [o]) = AddAll p objects ≫= fun p => AddKey p o.1 o.2.
Proof. unfold AddAll. by rewrite fold_left_app. Qed.

(** After adding the objects of a listing, every accumulator holds the fingerprint
    of its partition. *)
Definition accumulates (m : Z) (objects : list (string * Z)) (p : PartitionAccumulators) : Prop :=
  modulus p = m /\ List.length (partitions p) = Z.to_nat m /\
  forall i, 0 <= i < m -> PartitionSnapshot p i = Some (fingerprint_of m i objects).

Lemma accumulates_new m : accumulates m [] (NewPartitionAccumulators m).
Proof.
  split; [done|]. split; [apply length_replicate|]. intros i Hi. unfold PartitionSnapshot. cbn.
  rewrite lookup_replicate_2 by lia. reflexivity.
Qed.

Lemma fingerprint_add m i objects o :
  fingerprint_of m i (objects ++ [o]) =
  if in_partition m i o then
    let f := fingerprint_of m i objects in
    mkFingerprint (wrap64 (fCount f + 1)) (wrap64 (fBytes f + o.2))
  else fingerprint_of m i objects.
Proof.
  unfold fingerprint_of. rewrite List.filter_app. cbn [List.filter].
  destruct (in_partition m i o); [|by rewrite app_nil_r]. cbn [fCount fBytes].
  rewrite !wrap64_wrap, length_app, map_app, total_app. cbn. f_equal; f_equal; lia.
Qed.

Lemma accumulates_add m objects p o :
  0 < m -> accumulates m objects p ->
  exists p', AddKey p o.1 o.2 = Some p' /\ accumulates m (objects ++ [o]) p'.
Proof.
  intros Hm (Hmod & Hlen & Hsnap). unfold AddKey. rewrite Hmod.
  destruct (PartitionIndex_range o.1 m Hm) as (j & Hj & Hr). rewrite Hj. cbn.
  destruct (lookup_lt_is_Some_2 (partitions p) (Z.to_nat j)) as [a Ha]; [lia|]. rewrite Ha. cbn.
  eexists. split; [done|]. split; [done|]. split; [cbn [partitions]; by rewrite length_insert|].
  intros i Hi. specialize (Hsnap i Hi). unfold PartitionSnapshot in *. cbn [partitions].
  rewrite fingerprint_add. unfold in_partition. rewrite Hj.
  destruct (Z.eqb_spec j i) as [->|Hne].
  - rewrite list_lookup_insert_eq by lia. rewrite Ha in Hsnap.
    cbn [mbind option_bind] in *. 
    assert (Snapshot a = fingerprint_of m i objects) as Hs by congruence. cbv zeta. by rewrite <- Hs.
  - rewrite list_lookup_insert_ne by lia. exact Hsnap.
Qed.

Lemma AddAll_accumulates m objects :
  0 < m -> exists p, AddAll (NewPartitionAccumulators m) objects = Some p /\ accumulates m objects p.
Proof.
  intros Hm. induction objects as [|o objects IH] using rev_ind.
  - exists (NewPartitionAccumulators m). split; [done|apply accumulates_new].
  - destruct IH as (p & E & Hp). rewrite AddAll_snoc, E. by apply accumulates_add.
Qed.

(** Accumulating a listing never panics, and the snapshot of each partition is
    the count and the total size of the listing's keys in that partition, modulo
    2^64. *)
Theorem accumulators_spec m objects i :
  0 < m -> 0 <= i < m ->
  exists p, AddAll (NewPartitionAccumulators m) objects = Some p /\
    PartitionSnapshot p i = Some (fingerprint_of m i objects).
Proof.
  intros Hm Hi. destruct (AddAll_accumulates m objects Hm) as (p & E & _ & _ & Hs). eauto.
Qed.

Lemma fingerprint_perm m i l l' : l ≡ₚ l' -> fingerprint_of m i l = fingerprint_of m i l'.
Proof.
  intros Hp. unfold fingerprint_of.
  assert (List.filter (in_partition m i) l ≡ₚ List.filter (in_partition m i) l') as Hf.
  { induction Hp; cbn; repeat case_match; auto using Permutation_swap, Permutation_skip. by etrans. }
  rewrite (Permutation_length Hf). do 2 f_equal.
  revert Hf. generalize (List.filter (in_partition m i) l), (List.filter (in_partition m i) l').
  intros a b Hf. induction Hf as [| | |a b c _ IH1 _ IH2]; cbn in *; unfold total in *; lia.
Qed.

Lemma CompareFingerprints_match f g : cMatch (CompareFingerprints f g) = true <-> f = g.
Proof.
  destruct f as [c b], g as [c' b']. unfold CompareFingerprints. cbn.
  destruct (Z.eqb_spec c c'); cbn; [|by split; [|intros [=]]].
  destruct (Z.eqb_spec b b'); cbn; [|by split; [|intros [=]]]. subst. by split.
Qed.

(** ** What drift is *)

(** The keys of a listing that belong to a partition, and the sum of their sizes. *)
Definition partition_keys (m i : Z) (objects : list (string * Z)) : list (string * Z) :=
  List.filter (fun o => Sum32 o.1 mod m =? i) objects.
Definition key_count (m i : Z) (objects : list (string * Z)) : Z := Z.of_nat (List.length (partition_keys m i objects)).
Definition key_bytes (m i : Z) (objects : list (string * Z)) : Z := total (map snd (partition_keys m i objects)).

(** Fewer objects, and fewer bytes per partition, than an int64 counts. *)
Definition in_int64 (m i : Z) (objects : list (string * Z)) : Prop :=
  Z.of_nat (List.length objects) < 2 ^ 63 /\ - 2 ^ 63 <= key_bytes m i objects < 2 ^ 63.

Lemma fingerprint_keys m i objects : 0 < m ->
  fingerprint_of m i objects = mkFingerprint (wrap64 (key_count m i objects)) (wrap64 (key_bytes m i objects)).
Proof.
  intros Hm. unfold fingerprint_of, key_count, key_bytes, partition_keys.
  replace (List.filter (in_partition m i) objects) with (List.filter (fun o => Sum32 o.1 mod m =? i) objects); [done|].
  apply List.filter_ext. intros o. unfold in_partition, PartitionIndex. by rewrite (proj2 (Z.eqb_neq m 0)) by lia.
Qed.

Lemma key_count_bound m i objects : 0 <= key_count m i objects <= Z.of_nat (List.length objects).
Proof. unfold key_count, partition_keys. pose proof (List.filter_length_le (fun o : string * Z => Sum32 o.1 mod m =? i) objects). lia. Qed.

Lemma fingerprint_small m i objects : 0 < m -> in_int64 m i objects ->
  fingerprint_of m i objects = mkFingerprint (key_count m i objects) (key_bytes m i objects).
Proof.
  intros Hm [Hl Hb]. rewrite fingerprint_keys by done. pose proof (key_count_bound m i objects). rewrite !wrap64_small by lia. done.
Qed.

(** C23: two listings that an int64 can count are accumulated without a panic, and their
    fingerprints on a partition match exactly when the listings have the same number of keys
    in it and the same total size of these keys; drift is reported at the count exactly when
    the numbers differ, and at the bytes exactly when the numbers agree and the sizes do not.
    The order of a listing does not matter. *)
Theorem drift_detection m i local upstream :
  0 < m -> 0 <= i < m -> in_int64 m i local -> in_int64 m i upstream ->
  exists pl pu fl fu,
    AddAll (NewPartitionAccumulators m) local = Some pl /\ AddAll (NewPartitionAccumulators m) upstream = Some pu /\
    PartitionSnapshot pl i = Some fl /\ PartitionSnapshot pu i = Some fu /\
    let compared := CompareFingerprints fl fu in
    (cMatch compared = true <-> key_count m i local = key_count m i upstream /\ key_bytes m i local = key_bytes m i upstream) /\
    (cDriftAt compared = DriftAtCount <-> key_count m i local <> key_count m i upstream) /\
    (cDriftAt compared = DriftAtBytes <-> key_count m i local = key_count m i upstream /\ key_bytes m i local <> key_bytes m i upstream) /\
    (forall upstream', upstream' ≡ₚ upstream -> exists pu', AddAll (NewPartitionAccumulators m) upstream' = Some pu' /\ PartitionSnapshot pu' i = Some fu).
Proof.
  intros Hm Hi Hl Hu.
  destruct (AddAll_accumulates m local Hm) as (pl & El & _ & _ & Sl). destruct (AddAll_accumulates m upstream Hm) as (pu & Eu & _ & _ & Su).
  exists pl, pu, (fingerprint_of m i local), (fingerprint_of m i upstream). split; [done|]. split; [done|]. split; [by apply Sl|]. split; [by apply Su|].
  cbv zeta. rewrite !fingerprint_small by done. unfold CompareFingerprints. cbn [fCount fBytes].
  destruct (Z.eqb_spec (key_count m i local) (key_count m i upstream)) as [Ec|Ec]; cbn [negb].
  - destruct (Z.eqb_spec (key_bytes m i local) (key_bytes m i upstream)) as [Eb|Eb]; cbn [negb cMatch cDriftAt];
      (split; [|split; [|split]]); try (intuition congruence); intros u' Hp;
      destruct (AddAll_accumulates m u' Hm) as (pu' & Eu' & _ & _ & Su'); exists pu'; (split; [done|]);
      rewrite (Su' i Hi), (fingerprint_perm m i u' upstream Hp), fingerprint_small by done; done.
  - cbn [cMatch cDriftAt]. split; [|split; [|split]]; try (intuition congruence). intros u' Hp.
    destruct (AddAll_accumulates m u' Hm) as (pu' & Eu' & _ & _ & Su'). exists pu'. split; [done|].
    rewrite (Su' i Hi), (fingerprint_perm m i u' upstream Hp), fingerprint_small by done. done.
Qed.

(** ** Sampling *)

Lemma DailyEpoch_day t : DailyEpoch t = mkTime (unix t / 86400 * 86400) 0 0.
Proof.
  unfold DailyEpoch, civil, local_secs, UTC. cbn [unix offset]. rewrite Z.add_0_r.
  pose proof (civil_from_days_spec (unix t / 86400)) as H.
  destruct (civil_from_days _) as [[y m] d]. destruct H as (_ & _ & H).
  unfold DateUTC. f_equal. lia.
Qed.

(** The sample is a sublist of the partitions, all of them for small scopes, and
    is the same at every moment of a UTC day. *)
Theorem SamplePartitions_spec modulus objectCount t t' :
  SamplePartitions modulus objectCount t `sublist_of` AllPartitions modulus /\
  (objectCount < mediumScopeObjectThreshold ->
   SamplePartitions modulus objectCount t = AllPartitions modulus) /\
  (unix t / 86400 = unix t' / 86400 ->
   SamplePartitions modulus objectCount t = SamplePartitions modulus objectCount t').
Proof.
  unfold SamplePartitions. fold (AllPartitions modulus). split_and!.
  - case_match; [done|]. generalize (AllPartitions modulus) as l.
    induction l as [|p l IH]; cbn; [done|]. case_match; by constructor.
  - intros H. by rewrite (proj2 (Z.ltb_lt _ _) H).
  - intros H. case_match; [done|]. apply List.filter_ext. intros p. unfold ShouldSample.
    by rewrite !DailyEpoch_day, H.
Qed.

(** ** Witnesses *)

Lemma ParsePartitionID_ID_witness :
  valid_partition (PartitionFromIndex 7 256) /\
  ParsePartitionID (ID (PartitionFromIndex 7 256)) = Ok (PartitionFromIndex 7 256).
Proof.
  assert (valid_partition (PartitionFromIndex 7 256)) as H by (split_and!; cbn; done || lia).
  split; [exact H|]. exact (ParsePartitionID_ID _ H).
Defined.

Lemma ParsePartitionID_valid_witness :
  ParsePartitionID "007/256" = Ok (PartitionFromIndex 7 256) /\ valid_partition (PartitionFromIndex 7 256).
Proof.
  assert (ParsePartitionID "007/256" = Ok (PartitionFromIndex 7 256)) as H by (vm_compute; reflexivity).
  split; [exact H|]. exact (ParsePartitionID_valid _ _ H).
Defined.

Lemma partition_of_key_witness :
  exists p, PartitionForKey "a/b.txt" 4 = Some p /\ p ∈ AllPartitions 4 /\ NoDup (AllPartitions 4).
Proof. apply (partition_of_key "a/b.txt" 4). lia. Defined.

Lemma accumulators_spec_witness :
  exists p, AddAll (NewPartitionAccumulators 4) [("a", 3); ("b", 5)] = Some p /\
    PartitionSnapshot p 2 = Some (fingerprint_of 4 2 [("a", 3); ("b", 5)]).
Proof. apply (accumulators_spec 4); lia. Defined.

Lemma drift_detection_witness :
  exists pl pu fl fu,
    AddAll (NewPartitionAccumulators 1) [("a", 3); ("b", 5)] = Some pl /\
    AddAll (NewPartitionAccumulators 1) [("a", 3); ("b", 6)] = Some pu /\
    PartitionSnapshot pl 0 = Some fl /\ PartitionSnapshot pu 0 = Some fu /\
    cDriftAt (CompareFingerprints fl fu) = DriftAtBytes.
Proof.
  destruct (drift_detection 1 0 [("a", 3); ("b", 5)] [("a", 3); ("b", 6)] ltac:(lia) ltac:(lia)
    ltac:(split; [reflexivity|vm_compute; split; [discriminate|reflexivity]])
    ltac:(split; [reflexivity|vm_compute; split; [discriminate|reflexivity]]))
    as (pl & pu & fl & fu & El & Eu & Hl & Hu & _ & _ & Hb & _).
  exists pl, pu, fl, fu. split; [exact El|]. split; [exact Eu|]. split; [exact Hl|]. split; [exact Hu|].
  apply Hb. split; [reflexivity|vm_compute; discriminate].
Defined.
