(* ===== verification/JobPayload.v ===== *)
(** * JobPayload

    The JSON payloads of job runs ([JobRunPayload], a Go [map[string]any]) and
    the functions that read and build them: [job_trace.go] and
    [job_trace_completion.go] in packages/storage for the readers, and
    apps/worker/internal/jobs/fanout.go for the results of fan-out jobs.

    A payload is a [gmap string value].  The nil map and the empty map are the
    same here: every function of the sources treats them alike (a read of a nil
    map finds nothing, and [encodeJobRunPayload] writes [{}] for nil). *)
From S2P Require Import Prelude GoStrings GoFloat.
Local Open Scope Z_scope.

(** ** Values

    The dynamic types the sources switch on: [VInt] is an int or an int64,
    [VFloat] a float64, [VStrings] a []string, [VSlice] a []any, [VStringsMap]
    a map[string][]string and [VMap] a map[string]any.  A jsonb column holds the
    same type, where [VInt] is a number written from an integer and [VFloat] one
    written from a float64. *)
Inductive value : Type :=
| VNil
| VBool (b : bool)
| VInt (z : Z)
| VFloat (f : spec_float)
| VString (s : string)
| VStrings (l : list string)
| VSlice (l : list value)
| VStringsMap (m : gmap string (list string))
| VMap (m : gmap string value).

Notation payload := (gmap string value).

(** ** Encoding and decoding *)

(** What [json.Marshal] writes and a jsonb column keeps. *)
Fixpoint to_json (v : value) : value :=
  match v with
  | VStrings l => VSlice (VString <$> l)
  | VStringsMap m => VMap ((fun l => VSlice (VString <$> l)) <$> m)
  | VSlice l => VSlice (to_json <$> l)
  | VMap m => VMap (to_json <$> m)
  | v => v
  end.

(** [json.Marshal] refuses the floats that are not finite. *)
Fixpoint marshals (v : value) : bool :=
  match v with
  | VFloat (S754_infinity _) | VFloat S754_nan => false
  | VSlice l => forallb marshals l
  | VMap m => map_fold (fun _ b r => b && r) true (marshals <$> m)
  | _ => true
  end.

Definition encodeJobRunPayload (p : payload) : option payload :=
  if map_fold (fun _ b r => b && r) true (marshals <$> p) then Some (to_json <$> p) else None.

(** [json.Unmarshal] into [any]: every number is a float64. *)
Fixpoint from_json (v : value) : value :=
  match v with
  | VInt z => VFloat (float_of_Z z)
  | VSlice l => VSlice (from_json <$> l)
  | VMap m => VMap (from_json <$> m)
  | v => v
  end.

Definition decodeJobRunPayload (p : payload) : payload := from_json <$> p.

(** The [||] of jsonb objects: the right operand wins. *)
Definition jsonb_concat (a b : payload) : payload := b ∪ a.

(** ** Readers *)

(** [int64(f)] of a float64: truncation, and the most negative integer for the
    values out of range (what the amd64 conversion returns). *)
Definition int64_of_float (f : spec_float) : Z :=
  match f with
  | S754_zero _ => 0
  | S754_finite s m e =>
      let a := if 0 <=? e then Zpos m * 2 ^ e else Zpos m / 2 ^ (- e) in
      let z := if s then - a else a in
      if (- 2 ^ 63 <=? z) && (z <? 2 ^ 63) then z else - 2 ^ 63
  | _ => - 2 ^ 63
  end.

(** The conversion back from a float64 recovers the integers below 2^53. *)
Lemma int64_of_float_of_Z z : - 2 ^ 53 < z < 2 ^ 53 -> int64_of_float (float_of_Z z) = z.
Proof.
  assert (forall s p, Zpos p < 2 ^ 53 ->
    int64_of_float (binary_round prec64 emax64 s p 0) = if s then - Zpos p else Zpos p) as H.
  { intros s p Hp. destruct (binary_round_small s p Hp) as (m & e & -> & He & Hm). unfold int64_of_float.
    assert ((if 0 <=? e then Zpos m * 2 ^ e else Zpos m / 2 ^ (- e)) = Zpos p) as ->.
    { destruct (Z.leb_spec 0 e) as [H0|H0].
      - assert (e = 0) as -> by lia. cbn in Hm |- *. lia.
      - rewrite Hm. apply Z.div_mul. apply Z.pow_nonzero; lia. }
    cbn zeta. set (x := if s then _ else _). assert (- 2 ^ 63 <= x < 2 ^ 63) as Hx by (unfold x; destruct s; lia).
    by rewrite (proj2 (Z.leb_le _ _)), (proj2 (Z.ltb_lt _ _)) by lia. }
  intros Hz. destruct z as [|p|p]; [done|apply (H false p); lia|apply (H true p); lia].
Qed.

Definition PayloadBool (p : payload) (key : string) : bool :=
  match p !! key with Some (VBool b) => b | _ => false end.

Definition PayloadInt64 (p : payload) (key : string) : Z :=
  match p !! key with
  | Some (VInt z) => z
  | Some (VFloat f) => int64_of_float f
  | _ => 0
  end.

(** [sprint] is [fmt.Sprint], used for the values that are not strings. *)
Definition PayloadString (sprint : value -> string) (p : payload) (key : string) : string :=
  match p !! key with
  | None | Some VNil => ""
  | Some (VString s) => s
  | Some v => sprint v
  end.

(** [value, ok := p[key].(string)]. *)
Definition as_string (v : option value) : option string :=
  match v with Some (VString s) => Some s | _ => None end.

Definition cloneJobRunPayload (p : payload) : payload :=
  map_fold (fun key v cloned => <[key := v]> cloned) ∅ p.

(** ** Fan-out results *)

Definition ResultKeyChildJobIDs : string := "child_job_ids".
Definition ResultKeyAwaitChildren : string := "await_children".

(** The loop over [childJobIDs]: the encoded map and the number of ids. *)
Definition encodeChildIDs (childJobIDs : gmap string (list string)) : gmap string value * Z :=
  map_fold (fun jobType (ids : list string) acc =>
    match ids with
    | [] => acc
    | _ => (<[jobType := VStrings ids]> acc.1, acc.2 + Z.of_nat (List.length ids))
    end) (∅, 0) childJobIDs.

Definition FanOutResult (childJobIDs : gmap string (list string)) (fields : payload) : payload :=
  let result := cloneJobRunPayload fields in
  if 0 <? Z.of_nat (size childJobIDs) then
    let '(encoded, total) := encodeChildIDs childJobIDs in
    if 0 <? total
    then <[ResultKeyAwaitChildren := VBool true]> (<[ResultKeyChildJobIDs := VMap encoded]> result)
    else result
  else result.

Definition childTypeCount (result : payload) (jobType : string) : Z :=
  match result !! ResultKeyChildJobIDs with
  | Some (VStringsMap m) => Z.of_nat (List.length (default [] (m !! jobType)))
  | Some (VMap m) =>
      match m !! jobType with
      | Some (VStrings ids) => Z.of_nat (List.length ids)
      | Some (VSlice ids) => Z.of_nat (List.length ids)
      | _ => 0
      end
  | _ => 0
  end.

Definition childJobCount (result : payload) : Z :=
  match result !! ResultKeyChildJobIDs with
  | Some (VStringsMap m) =>
      map_fold (fun _ (ids : list string) total => total + Z.of_nat (List.length ids)) 0 m
  | Some (VMap m) =>
      map_fold (fun _ v total =>
        match v with
        | VStrings ids => total + Z.of_nat (List.length ids)
        | VSlice ids => total + Z.of_nat (List.length ids)
        | _ => total
        end) 0 m
  | _ => 0
  end.

Definition AwaitsChildren (result : payload) : bool :=
  match result !! ResultKeyAwaitChildren with
  | Some (VBool b) => b
  | _ => 0 <? childJobCount result
  end.

Definition awaitingPhase (result : payload) : string :=
  if 0 <? childTypeCount result "sync_bucket" then "awaiting_sync" else "applying".

(** [value, _ := result[key]]: nil when the key is absent. *)
Definition get_or_nil (p : payload) (key : string) : value := default VNil (p !! key).

Definition is_nil (v : value) : bool := match v with VNil => true | _ => false end.

Definition addBatch (result : payload) (jobType key : string) (batches : gmap string value)
    : gmap string value :=
  let total := childTypeCount result jobType in
  if 0 <? total then <[key := VMap {[ "total" := VInt total ]}]> batches else batches.

Definition FanOutProgress (result : payload) : payload :=
  let progress : payload := {[ "phase" := VString (awaitingPhase result) ]} in
  let progress :=
    match result !! "objects_seen" with
    | Some count => <["objects_listed" := count]> progress
    | None => progress
    end in
  let progress :=
    match result !! "objects_listed" with
    | Some count =>
        if is_nil (get_or_nil progress "objects_listed")
        then <["objects_listed" := count]> progress else progress
    | None => progress
    end in
  let importCount := get_or_nil result "import_objects_count" in
  let refreshCount := get_or_nil result "refresh_objects_count" in
  let removeCount := get_or_nil result "remove_objects_count" in
  let progress :=
    if negb (is_nil importCount) || negb (is_nil refreshCount) || negb (is_nil removeCount) then
      <["objects_planned" :=
          VMap (<["import" := importCount]> (<["refresh" := refreshCount]> {["remove" := removeCount]}))]>
      (<["remove_objects_count" := removeCount]>
        (<["refresh_objects_count" := refreshCount]>
          (<["import_objects_count" := importCount]> progress)))
    else progress in
  let batches := addBatch result "import_objects" "import" ∅ in
  let batches := addBatch result "refresh_objects" "refresh" batches in
  let batches := addBatch result "remove_objects" "remove" batches in
  let batches := addBatch result "sync_bucket" "sync_bucket" batches in
  if 0 <? Z.of_nat (size batches) then <["batches" := VMap batches]> progress else progress.

(** ** Theorems *)

Definition nonempty {A} (l : list A) : bool := match l with [] => false | _ => true end.

Definition count_ids (ids : gmap string (list string)) : Z :=
  map_fold (fun _ (l : list string) total => total + Z.of_nat (List.length l)) 0 ids.

Lemma count_ids_insert ids ty l :
  ids !! ty = None -> count_ids (<[ty := l]> ids) = count_ids ids + Z.of_nat (List.length l).
Proof. intros H. unfold count_ids. rewrite map_fold_insert_L; [done | intros; lia | done]. Qed.

Lemma cloneJobRunPayload_eq p : cloneJobRunPayload p = p.
Proof.
  unfold cloneJobRunPayload. apply (map_fold_weak_ind (fun r m => r = m)); [done|].
  by intros ???? _ ->.
Qed.

(** The number of ids in an encoded map, before ([VStrings]) or after
    ([VSlice]) a round trip through the table. *)
Definition count_values (m : gmap string value) : Z :=
  map_fold (fun _ v total =>
    match v with
    | VStrings ids => total + Z.of_nat (List.length ids)
    | VSlice ids => total + Z.of_nat (List.length ids)
    | _ => total
    end) 0 m.

Lemma count_values_insert m ty v :
  m !! ty = None ->
  count_values (<[ty := v]> m) =
  count_values m + match v with
                   | VStrings ids => Z.of_nat (List.length ids)
                   | VSlice ids => Z.of_nat (List.length ids)
                   | _ => 0
                   end.
Proof.
  intros H. unfold count_values. rewrite map_fold_insert_L; [| | done].
  - destruct v; lia.
  - intros ? ? [] []; intros; lia.
Qed.

Lemma encodeChildIDs_spec ids :
  (encodeChildIDs ids).2 = count_ids ids /\
  (forall ty, (encodeChildIDs ids).1 !! ty =
     match ids !! ty with Some (x :: l) => Some (VStrings (x :: l)) | _ => None end) /\
  count_values (encodeChildIDs ids).1 = count_ids ids.
Proof.
  unfold encodeChildIDs.
  apply (map_fold_weak_ind (fun r m => r.2 = count_ids m /\
    (forall ty, r.1 !! ty = match m !! ty with Some (x :: l) => Some (VStrings (x :: l)) | _ => None end) /\
    count_values r.1 = count_ids m)).
  - split; [done|]. split; [intros; by rewrite !lookup_empty | done].
  - intros ty l m [enc t] Hty (Ht & Henc & Hc). cbn in Ht, Henc, Hc.
    rewrite count_ids_insert by done. destruct l as [|x l].
    + cbn [fst snd List.length Z.of_nat]. rewrite Z.add_0_r. split; [done|]. split; [|done].
      intros ty'. rewrite Henc. destruct (decide (ty = ty')) as [<-|]; [|by rewrite lookup_insert_ne].
      by rewrite lookup_insert_eq, Hty.
    + cbn [fst snd]. split; [lia|]. split.
      * intros ty'. destruct (decide (ty = ty')) as [<-|]; [by rewrite !lookup_insert_eq|].
        by rewrite !lookup_insert_ne by done.
      * rewrite count_values_insert by (by rewrite Henc, Hty). cbn. lia.
Qed.

Lemma count_ids_pos ids : 0 < count_ids ids <-> exists ty l, ids !! ty = Some l /\ l <> [].
Proof.
  induction ids as [|ty l m Hty IH] using map_ind.
  - unfold count_ids. rewrite map_fold_empty. split; [lia|]. intros (ty & l & H & _).
    by rewrite lookup_empty in H.
  - rewrite count_ids_insert by done.
    assert (0 <= count_ids m).
    { unfold count_ids. apply (map_fold_weak_ind (fun r _ => 0 <= r)); intros; lia. }
    split.
    + intros H'. destruct l as [|x l].
      * cbn in H'. destruct (proj1 IH ltac:(lia)) as (ty' & l' & ? & ?). exists ty', l'.
        split; [|done]. rewrite lookup_insert_ne; [done|]. congruence.
      * exists ty, (x :: l). by rewrite lookup_insert_eq.
    + intros (ty' & l' & H' & ?). apply lookup_insert_Some in H' as [[<- <-]|[? ?]].
      * destruct l; [done|]. cbn [List.length]. lia.
      * assert (0 < count_ids m) by (apply IH; eauto). lia.
Qed.

(** A payload as it is read back after being written. *)
Definition stored (p : payload) : payload := decodeJobRunPayload (to_json <$> p).

Lemma count_values_stored m :
  count_values (from_json <$> (to_json <$> m)) =
  map_fold (fun _ v total =>
    match v with
    | VStrings ids => total + Z.of_nat (List.length ids)
    | VSlice ids => total + Z.of_nat (List.length ids)
    | _ => total
    end) 0 m.
Proof.
  induction m as [|ty v m Hty IH] using map_ind.
  - by rewrite !fmap_empty.
  - rewrite !fmap_insert, count_values_insert by (by rewrite !lookup_fmap, Hty).
    rewrite IH. rewrite map_fold_insert_L; [| |done].
    + destruct v; cbn; rewrite ?length_fmap; lia.
    + intros ? ? [] []; intros; lia.
Qed.

Definition is_await_key (key : string) : bool :=
  String.eqb key ResultKeyChildJobIDs || String.eqb key ResultKeyAwaitChildren.

Lemma FanOutResult_eq ids fields :
  FanOutResult ids fields =
  if 0 <? count_ids ids
  then <[ResultKeyAwaitChildren := VBool true]>
         (<[ResultKeyChildJobIDs := VMap (encodeChildIDs ids).1]> fields)
  else fields.
Proof.
  unfold FanOutResult. rewrite cloneJobRunPayload_eq.
  destruct (encodeChildIDs_spec ids) as [Ht _]. destruct (encodeChildIDs ids) as [enc t].
  cbn [fst snd] in *. subst t. destruct (Z.ltb_spec 0 (count_ids ids)) as [Hp|Hp].
  - assert (ids <> ∅) as Hne.
    { intros ->. unfold count_ids in Hp. rewrite map_fold_empty in Hp. lia. }
    apply map_size_non_empty_iff in Hne. by destruct (Z.ltb_spec 0 (Z.of_nat (size ids))); [|lia].
  - by destruct (0 <? Z.of_nat (size ids)).
Qed.

Lemma lookup_stored p key : stored p !! key = from_json <$> (to_json <$> (p !! key)).
Proof. unfold stored, decodeJobRunPayload. by rewrite !lookup_fmap. Qed.

(** A fan-out result says that the job awaits its children exactly when some
    child was created, and keeps the number of the children of every type; both
    survive the round trip through the job_runs table. *)
Theorem FanOutResult_awaits ids fields :
  fields !! ResultKeyChildJobIDs = None -> fields !! ResultKeyAwaitChildren = None ->
  let result := FanOutResult ids fields in
  (AwaitsChildren result = true <-> exists ty l, ids !! ty = Some l /\ l <> []) /\
  AwaitsChildren (stored result) = AwaitsChildren result /\
  PayloadBool (stored result) ResultKeyAwaitChildren = AwaitsChildren result /\
  (forall ty, childTypeCount result ty = Z.of_nat (List.length (default [] (ids !! ty)))) /\
  (forall ty, childTypeCount (stored result) ty = childTypeCount result ty) /\
  (forall key, is_await_key key = false -> result !! key = fields !! key).
Proof.
  intros Hids Hawait result. rewrite <- count_ids_pos. subst result. rewrite FanOutResult_eq.
  destruct (encodeChildIDs_spec ids) as (_ & Henc & Hc). set (enc := (encodeChildIDs ids).1) in *.
  destruct (Z.ltb_spec 0 (count_ids ids)) as [Hp|Hp].
  - split_and!.
    + unfold AwaitsChildren. by rewrite lookup_insert_eq.
    + unfold AwaitsChildren. rewrite lookup_stored. by rewrite lookup_insert_eq.
    + unfold PayloadBool, AwaitsChildren. rewrite lookup_stored. by rewrite lookup_insert_eq.
    + intros ty. unfold childTypeCount. rewrite lookup_insert_ne, lookup_insert_eq by done.
      rewrite Henc. by destruct (ids !! ty) as [[|]|].
    + intros ty. unfold childTypeCount. rewrite lookup_stored, lookup_insert_ne, lookup_insert_eq by done.
      cbn. rewrite !lookup_fmap, Henc. destruct (ids !! ty) as [[|x l]|]; cbn; [done| |done].
      by rewrite !length_fmap.
    + intros key Hk. apply orb_false_iff in Hk as [H1 H2].
      apply String.eqb_neq in H1, H2. by rewrite !lookup_insert_ne.
  - assert (forall ty, default [] (ids !! ty) = []) as Hno.
    { intros ty. destruct (ids !! ty) as [[|x l]|] eqn:E; cbn; try done.
      assert (0 < count_ids ids) by (apply count_ids_pos; eauto). lia. }
    unfold AwaitsChildren, PayloadBool, childTypeCount, childJobCount. rewrite !lookup_stored, Hids, Hawait. cbn.
    split_and!; try done; [lia|]. intros ty. by rewrite Hno.
Qed.

Lemma FanOutResult_awaits_witness :
  exists result, result = FanOutResult {[ "import_objects" := ["a"; "b"] ]} {[ "objects_seen" := VInt 2 ]} /\
    AwaitsChildren result = true /\ childTypeCount (stored result) "import_objects" = 2.
Proof.
  eexists. split; [reflexivity|].
  destruct (FanOutResult_awaits {[ "import_objects" := ["a"; "b"] ]} {[ "objects_seen" := VInt 2 ]}
    ltac:(by apply lookup_singleton_ne) ltac:(by apply lookup_singleton_ne)) as (Ha & _ & _ & Hc & Hs & _).
  split; [|by rewrite Hs, Hc].
  apply Ha. exists "import_objects", ["a"; "b"]. done.
Defined.
