(* ===== verification/GoDuration.v ===== *)
(** * GoDuration

    [time.ParseDuration] and [strconv.ParseBool] of Go's standard library.  A
    [time.Duration] is a number of nanoseconds, between [-2^63] and [2^63 - 1]; the
    parser accumulates in a uint64, whose overflow it checks. *)
From S2P Require Import Prelude GoStrings GoFloat JobPayload.
Local Open Scope Z_scope.

Definition Nanosecond : Z := 1.
Definition Microsecond : Z := 1000.
Definition Millisecond : Z := 1000 * Microsecond.
Definition Second : Z := 1000 * Millisecond.
Definition Minute : Z := 60 * Second.
Definition Hour : Z := 60 * Minute.

Definition is_digit (c : ascii) : bool := (48 <=? byte c) && (byte c <=? 57).
Definition max_abs : Z := 2 ^ 63.

(** [leadingInt]: the value of the digits and the rest, or [None] on overflow. *)
Fixpoint leadingInt (x : Z) (s : string) : option (Z * string) :=
  match s with
  | String c s' =>
      if is_digit c then
        if max_abs / 10 <? x then None
        else let x := x * 10 + digit_val c in if max_abs <? x then None else leadingInt x s'
      else Some (x, s)
  | EmptyString => Some (x, s)
  end.

(** [leadingFraction]: digits that overflow are skipped. *)
Fixpoint leadingFraction (x scale : Z) (overflow : bool) (s : string) : Z * Z * string :=
  match s with
  | String c s' =>
      if is_digit c then
        if overflow then leadingFraction x scale true s'
        else if (max_abs - 1) / 10 <? x then leadingFraction x scale true s'
        else
          let y := x * 10 + digit_val c in
          if max_abs <? y then leadingFraction x scale true s' else leadingFraction y (scale * 10) false s'
      else (x, scale, s)
  | EmptyString => (x, scale, s)
  end.

(** The units; micro is also written with U+00B5 and U+03BC. *)
Definition unit_of (u : string) : option Z :=
  if String.eqb u "ns" then Some Nanosecond
  else if String.eqb u "us" then Some Microsecond
  else if String.eqb u (String (byte_of 194) (String (byte_of 181) "s")) then Some Microsecond
  else if String.eqb u (String (byte_of 206) (String (byte_of 188) "s")) then Some Microsecond
  else if String.eqb u "ms" then Some Millisecond
  else if String.eqb u "s" then Some Second
  else if String.eqb u "m" then Some Minute
  else if String.eqb u "h" then Some Hour
  else None.

(** [uint64(float64(f) * (float64(unit) / scale))]; the power of ten is exact. *)
Definition fraction_of (f scale unit : Z) : Z :=
  int64_of_float (SFmul prec64 emax64 (float_of_Z f) (SFdiv prec64 emax64 (float_of_Z unit) (float_of_Z scale))).

(** One number with its unit. *)
Definition parse_term (s : string) : option (Z * string) :=
  let starts := match s with String c _ => Ascii.eqb c "." || is_digit c | EmptyString => false end in
  if negb starts then None
  else
    r ← leadingInt 0 s;
    let '(v, s1) := r in
    let pre := negb (String.length s1 =? String.length s)%nat in
    let '(f, scale, s2, post) := match s1 with
      | String "." s' =>
          let '(f, scale, s2) := leadingFraction 0 1 false s' in (f, scale, s2, negb (String.length s2 =? String.length s')%nat)
      | _ => (0, 1, s1, false)
      end in
    if negb pre && negb post then None
    else
      let '(u, s3) := span (fun c => negb (Ascii.eqb c "." || is_digit c)) s2 in
      if String.eqb u "" then None
      else
        unit ← unit_of u;
        if max_abs / unit <? v then None
        else
          let v := v * unit in
          if 0 <? f then
            let v := v + fraction_of f scale unit in
            if max_abs <? v then None else Some (v, s3)
          else Some (v, s3).

(** The loop over the terms; each takes at least two characters. *)
Fixpoint parse_terms (fuel : nat) (d : Z) (s : string) : option Z :=
  match s with
  | EmptyString => Some d
  | _ =>
      match fuel with
      | O => None
      | S fuel =>
          r ← parse_term s;
          let d := (d + r.1) mod 2 ^ 64 in
          if max_abs <? d then None else parse_terms fuel d r.2
      end
  end.

(** [None] is an error. *)
Definition ParseDuration (s : string) : option Z :=
  let '(neg, s) := match s with
    | String "-" s => (true, s)
    | String "+" s => (false, s)
    | _ => (false, s)
    end in
  if String.eqb s "0" then Some 0
  else if String.eqb s "" then None
  else
    d ← parse_terms (String.length s) 0 s;
    if (neg : bool) then Some (- d) else if max_abs - 1 <? d then None else Some d.

Definition ParseBool (s : string) : option bool :=
  if existsb (String.eqb s) ["1"; "t"; "T"; "TRUE"; "true"; "True"] then Some true
  else if existsb (String.eqb s) ["0"; "f"; "F"; "FALSE"; "false"; "False"] then Some false
  else None.

Example duration_units : map ParseDuration ["1h15m30.918s"; "1.5h"; "-2m3.4s"; "0"; "1us"; ".5s"; "24h"] =
  [Some (4530918 * Millisecond); Some (90 * Minute); Some (- (123400 * Millisecond)); Some 0; Some Microsecond;
   Some (500 * Millisecond); Some (24 * Hour)].
Proof. vm_compute. reflexivity. Qed.
Example duration_errors : map ParseDuration [""; "3"; "-"; "s"; "."; "1x"; "9223372036854775808ns"; "10000000h"] =
  repeat None 8.
Proof. vm_compute. reflexivity. Qed.
(** Two terms of 2^63 wrap to zero, which the check of the sum does not see. *)
Example duration_wraps : ParseDuration "9223372036854775808ns9223372036854775808ns" = Some 0.
Proof. vm_compute. reflexivity. Qed.
Example duration_limits : map ParseDuration ["9223372036854775807ns"; "-9223372036854775808ns"] =
  [Some (2 ^ 63 - 1); Some (- 2 ^ 63)].
Proof. vm_compute. reflexivity. Qed.

(** ** The fuel is enough *)

Lemma leadingInt_rest x s v s' : leadingInt x s = Some (v, s') -> (String.length s' <= String.length s)%nat.
Proof.
  revert x. induction s as [|c s IH]; intros x; cbn [leadingInt]; [by intros [= <- <-]|].
  repeat case_match; try done; [intros E; apply IH in E; cbn; lia|by intros [= <- <-]].
Qed.

Lemma leadingFraction_rest x scale o s : (String.length (leadingFraction x scale o s).2 <= String.length s)%nat.
Proof.
  revert x scale o. induction s as [|c s IH]; intros x scale o; cbn [leadingFraction]; [done|].
  repeat case_match; cbn [String.length snd]; try lia;
    match goal with |- context [leadingFraction ?x ?y ?o s] => specialize (IH x y o); lia end.
Qed.

Lemma span_rest p s : (String.length (span p s).1 + String.length (span p s).2 = String.length s)%nat.
Proof.
  induction s as [|c s IH]; cbn [span]; [done|]. case_match; [|done]. destruct (span p s) as [a b]. cbn in *. lia.
Qed.

Lemma parse_term_rest s v s' : parse_term s = Some (v, s') -> (String.length s' < String.length s)%nat.
Proof.
  unfold parse_term. case_match; [done|]. destruct (leadingInt 0 s) as [[v1 s1]|] eqn:E1; [|done]. cbn [mbind option_bind].
  pose proof (leadingInt_rest _ _ _ _ E1) as H1. intros E.
  assert (exists f scale s2 post, match s1 with
      | String "." s' => let '(f, scale, s2) := leadingFraction 0 1 false s' in (f, scale, s2, negb (String.length s2 =? String.length s')%nat)
      | _ => (0, 1, s1, false)
      end = (f, scale, s2, post) /\ (String.length s2 <= String.length s1)%nat) as (f & scale & s2 & post & E2 & H2).
  { destruct s1 as [|c s1]; [by repeat eexists|]. pose proof (leadingFraction_rest 0 1 false s1) as Hf.
    destruct (leadingFraction 0 1 false s1) as [[f scale] s2] eqn:Ef. cbn in Hf.
    destruct c as [[] [] [] [] [] [] [] []]; rewrite ?Ef; do 4 eexists; (split; [reflexivity|cbn; lia]). }
  rewrite E2 in E. destruct (negb _ && negb post); [done|].
  pose proof (span_rest (fun c => negb (Ascii.eqb c "." || is_digit c)) s2) as H3. destruct (span _ s2) as [u s3]. cbn in H3.
  destruct (String.eqb_spec u ""); [done|]. assert (String.length u <> 0%nat) by (by destruct u).
  destruct (unit_of u); [|done]. cbn in E. repeat case_match; try done; injection E as <- <-; lia.
Qed.

(** More fuel changes nothing. *)
Lemma parse_terms_fuel fuel fuel' d s :
  (String.length s <= fuel)%nat -> (String.length s <= fuel')%nat -> parse_terms fuel d s = parse_terms fuel' d s.
Proof.
  revert fuel' d s. induction fuel as [|fuel IH]; intros fuel' d s H1 H2; [by destruct s; [destruct fuel'|cbn in H1; lia]|].
  destruct s as [|c s]; [by destruct fuel'|]. destruct fuel' as [|fuel']; [cbn in H2; lia|]. cbn [parse_terms].
  destruct (parse_term (String c s)) as [[v s']|] eqn:E; [|done]. cbn. apply parse_term_rest in E. cbn in *.
  case_match; [done|]. apply IH; lia.
Qed.
