(* ===== verification/JobRuns.v ===== *)
(** * JobRuns

    The job_runs and job_spill tables and the statements of [JobRunStore] and
    [JobSpillStore] on them: packages/storage/job_run_repository.go,
    job_run_list.go, job_run_reclaim.go, job_run_resume.go, job_spill.go and the
    statements of job_trace.go and job_trace_completion.go.

    A table is a finite map from its primary key.  Every statement is a function
    on the database: it takes the value of [now()] (microseconds), and the set of
    rows other transactions hold locked where it says SKIP LOCKED. *)
From S2P Require Import Prelude GoStrings GoFloat JobPayload.
Local Open Scope Z_scope.

(** ** Errors and the store monad *)

Inductive store_error :=
| ErrNotFound
| Errorf (message : string)
| Wrapf (message : string) (cause : store_error).

(** [errors.Is(err, ErrNotFound)]. *)
Fixpoint IsNotFound (e : store_error) : bool :=
  match e with
  | ErrNotFound => true
  | Errorf _ => false
  | Wrapf _ cause => IsNotFound cause
  end.

(** ** Job types and states *)

Definition JobTypeSyncBucket : string := "sync_bucket".
Definition JobTypeScanBucket : string := "scan_bucket".
Definition JobTypeImportObjects : string := "import_objects".
Definition JobTypeRemoveObjects : string := "remove_objects".
Definition JobTypeRefreshObjects : string := "refresh_objects".
Definition JobTypeExtractAttributes : string := "extract_attributes".
Definition JobTypeDetectDuplicates : string := "detect_duplicates".
Definition JobTypeCleanupRuns : string := "cleanup_runs".

Definition IsKnownJobType (jobType : string) : bool :=
  bool_decide (jobType ∈
    [JobTypeSyncBucket; JobTypeScanBucket; JobTypeImportObjects; JobTypeRemoveObjects;
     JobTypeRefreshObjects; JobTypeExtractAttributes; JobTypeDetectDuplicates; JobTypeCleanupRuns]).

Inductive JobRunState := Pending | Running | Succeeded | Failed | Cancelled.

Definition state_text (s : JobRunState) : string :=
  match s with
  | Pending => "pending"
  | Running => "running"
  | Succeeded => "succeeded"
  | Failed => "failed"
  | Cancelled => "cancelled"
  end.

#[export] Instance JobRunState_eq_dec : EqDecision JobRunState.
Proof. solve_decision. Defined.

(** [state IN ('pending', 'running')] and [state IN ('failed', 'cancelled')]. *)
Definition active (s : JobRunState) : bool := match s with Pending | Running => true | _ => false end.
Definition stopped (s : JobRunState) : bool := match s with Failed | Cancelled => true | _ => false end.

(** ** The tables *)

(** A row of job_runs; the nullable columns are options. *)
Record JobRow := mkJobRow {
  id : string;
  trace_id : string;
  type_ : string;
  state : JobRunState;
  requested_by_type : option string;
  requested_by_id : option string;
  target_type : option string;
  target_id : option string;
  input : payload;
  result_ : payload;
  progress : payload;
  attempt : Z;
  max_attempts : Z;
  available_at : Z;
  locked_by : option string;
  locked_at : option Z;
  started_at : option Z;
  finished_at : option Z;
  error_message : option string;
  created_at : Z;
  updated_at : Z
}.

Record db := mkDB { job_runs : gmap string JobRow; job_spill : gset (string * string) }.

Definition empty_db : db := mkDB ∅ ∅.

(** A computation on the database: its result and the new database. *)
Definition DB (A : Type) : Type := db -> result store_error A * db.

#[export] Instance DB_ret : MRet DB := fun A a d => (Ok a, d).
#[export] Instance DB_bind : MBind DB := fun A B f m d =>
  match m d with
  | (Ok a, d') => f a d'
  | (Err e, d') => (Err e, d')
  end.

Definition throw {A} (e : store_error) : DB A := fun d => (Err e, d).

(** A read-only statement. *)
Definition query {A} (f : db -> A) : DB A := fun d => (Ok (f d), d).

Definition wrap_db {A} (message : string) (m : DB A) : DB A := fun d =>
  match m d with
  | (Ok a, d') => (Ok a, d')
  | (Err e, d') => (Err (Wrapf message e), d')
  end.

(** ** Columns set by the UPDATE statements *)

Definition set_state (v : JobRunState) (r : JobRow) : JobRow :=
  mkJobRow (id r) (trace_id r) (type_ r) v (requested_by_type r) (requested_by_id r)
    (target_type r) (target_id r) (input r) (result_ r) (progress r) (attempt r) (max_attempts r)
    (available_at r) (locked_by r) (locked_at r) (started_at r) (finished_at r) (error_message r)
    (created_at r) (updated_at r).
Definition set_result (v : payload) (r : JobRow) : JobRow :=
  mkJobRow (id r) (trace_id r) (type_ r) (state r) (requested_by_type r) (requested_by_id r)
    (target_type r) (target_id r) (input r) v (progress r) (attempt r) (max_attempts r)
    (available_at r) (locked_by r) (locked_at r) (started_at r) (finished_at r) (error_message r)
    (created_at r) (updated_at r).
Definition set_progress (v : payload) (r : JobRow) : JobRow :=
  mkJobRow (id r) (trace_id r) (type_ r) (state r) (requested_by_type r) (requested_by_id r)
    (target_type r) (target_id r) (input r) (result_ r) v (attempt r) (max_attempts r)
    (available_at r) (locked_by r) (locked_at r) (started_at r) (finished_at r) (error_message r)
    (created_at r) (updated_at r).
Definition set_attempt (v : Z) (r : JobRow) : JobRow :=
  mkJobRow (id r) (trace_id r) (type_ r) (state r) (requested_by_type r) (requested_by_id r)
    (target_type r) (target_id r) (input r) (result_ r) (progress r) v (max_attempts r)
    (available_at r) (locked_by r) (locked_at r) (started_at r) (finished_at r) (error_message r)
    (created_at r) (updated_at r).
Definition set_available_at (v : Z) (r : JobRow) : JobRow :=
  mkJobRow (id r) (trace_id r) (type_ r) (state r) (requested_by_type r) (requested_by_id r)
    (target_type r) (target_id r) (input r) (result_ r) (progress r) (attempt r) (max_attempts r)
    v (locked_by r) (locked_at r) (started_at r) (finished_at r) (error_message r)
    (created_at r) (updated_at r).
Definition set_lock (v : option (string * Z)) (r : JobRow) : JobRow :=
  mkJobRow (id r) (trace_id r) (type_ r) (state r) (requested_by_type r) (requested_by_id r)
    (target_type r) (target_id r) (input r) (result_ r) (progress r) (attempt r) (max_attempts r)
    (available_at r) (fst <$> v) (snd <$> v) (started_at r) (finished_at r) (error_message r)
    (created_at r) (updated_at r).
Definition set_started_at (v : option Z) (r : JobRow) : JobRow :=
  mkJobRow (id r) (trace_id r) (type_ r) (state r) (requested_by_type r) (requested_by_id r)
    (target_type r) (target_id r) (input r) (result_ r) (progress r) (attempt r) (max_attempts r)
    (available_at r) (locked_by r) (locked_at r) v (finished_at r) (error_message r)
    (created_at r) (updated_at r).
Definition set_finished_at (v : option Z) (r : JobRow) : JobRow :=
  mkJobRow (id r) (trace_id r) (type_ r) (state r) (requested_by_type r) (requested_by_id r)
    (target_type r) (target_id r) (input r) (result_ r) (progress r) (attempt r) (max_attempts r)
    (available_at r) (locked_by r) (locked_at r) (started_at r) v (error_message r)
    (created_at r) (updated_at r).
Definition set_error (v : option string) (r : JobRow) : JobRow :=
  mkJobRow (id r) (trace_id r) (type_ r) (state r) (requested_by_type r) (requested_by_id r)
    (target_type r) (target_id r) (input r) (result_ r) (progress r) (attempt r) (max_attempts r)
    (available_at r) (locked_by r) (locked_at r) (started_at r) (finished_at r) v
    (created_at r) (updated_at r).
Definition set_updated_at (v : Z) (r : JobRow) : JobRow :=
  mkJobRow (id r) (trace_id r) (type_ r) (state r) (requested_by_type r) (requested_by_id r)
    (target_type r) (target_id r) (input r) (result_ r) (progress r) (attempt r) (max_attempts r)
    (available_at r) (locked_by r) (locked_at r) (started_at r) (finished_at r) (error_message r)
    (created_at r) v.

Definition pipe {A B} (x : A) (f : A -> B) : B := f x.
Notation "x ▷ f" := (pipe x f) (at level 45, left associativity).

(** ** Rows read by Go *)

(** [JobRun]: a row as the Go code holds it.  NULL text is the empty string and
    the payloads are decoded. *)
Record JobRun := mkJobRun {
  ID : string;
  TraceID : string;
  Type_ : string;
  State : JobRunState;
  RequestedByType : string;
  RequestedByID : string;
  TargetType : string;
  TargetID : string;
  Input : payload;
  Result_ : payload;
  Progress : payload;
  Attempt : Z;
  MaxAttempts : Z;
  AvailableAt : Z;
  LockedBy : string;
  LockedAt : option Z;
  StartedAt : option Z;
  FinishedAt : option Z;
  ErrorMessage : string;
  CreatedAt : Z;
  UpdatedAt : Z
}.

Definition text_of (c : option string) : string := default "" c.

Definition scanJobRun (r : JobRow) : JobRun :=
  mkJobRun (id r) (trace_id r) (type_ r) (state r)
    (text_of (requested_by_type r)) (text_of (requested_by_id r))
    (text_of (target_type r)) (text_of (target_id r))
    (decodeJobRunPayload (input r)) (decodeJobRunPayload (result_ r)) (decodeJobRunPayload (progress r))
    (attempt r) (max_attempts r) (available_at r) (text_of (locked_by r))
    (locked_at r) (started_at r) (finished_at r) (text_of (error_message r))
    (created_at r) (updated_at r).

(** [nullableString], and SQL's [NULLIF($1, '')]. *)
Definition nullableString (value : string) : option string :=
  if String.eqb value "" then None else Some value.

(** [IS NOT DISTINCT FROM]. *)
Definition not_distinct (a b : option string) : bool := bool_decide (a = b).

(** ** Statements *)

Definition rows (d : db) : list JobRow := (map_to_list (job_runs d)).*2.

(** [SELECT ... WHERE p ORDER BY lt]. *)
Definition select (p : JobRow -> bool) (lt : JobRow -> JobRow -> bool) (d : db) : list JobRow :=
  sort_by lt (List.filter p (rows d)).

(** [ORDER BY created_at ASC, id ASC] and the other orders of the statements. *)
Definition lex_before (a b : JobRow) (x y : Z) : bool :=
  (x <? y) || ((x =? y) && String.ltb (id a) (id b)).
Definition by_created (a b : JobRow) : bool := lex_before a b (created_at a) (created_at b).
Definition by_created_desc (a b : JobRow) : bool := by_created b a.
Definition by_updated (a b : JobRow) : bool := lex_before a b (updated_at a) (updated_at b).
Definition by_finished_desc (a b : JobRow) : bool :=
  lex_before b a (default 0 (finished_at b)) (default 0 (finished_at a)).

(** [UPDATE job_runs SET f WHERE p]. *)
Definition update_where (p : JobRow -> bool) (f : JobRow -> JobRow) (d : db) : db :=
  mkDB ((fun r => if p r then f r else r) <$> job_runs d) (job_spill d).

(** [UPDATE ... WHERE id = $1 AND p RETURNING ...]: no row is ErrNotFound. *)
Definition update_row (key : string) (p : JobRow -> bool) (f : JobRow -> JobRow) : DB JobRun := fun d =>
  match job_runs d !! key with
  | Some r =>
      if p r then (Ok (scanJobRun (f r)), mkDB (<[key := f r]> (job_runs d)) (job_spill d))
      else (Err ErrNotFound, d)
  | None => (Err ErrNotFound, d)
  end.

(** The first row of a SELECT ... LIMIT 1. *)
Definition first_row (l : list JobRow) : result store_error JobRun :=
  match l with
  | r :: _ => Ok (scanJobRun r)
  | [] => Err ErrNotFound
  end.

(** An argument that [json.Marshal] writes. *)
Definition encoded (p : payload) : DB payload := fun d =>
  match encodeJobRunPayload p with
  | Some e => (Ok e, d)
  | None => (Err (Errorf "encode job run payload"), d)
  end.

(** ** CreateJobRun *)

Record CreateJobRunParams := mkCreate {
  cType : string;
  cTraceID : string;
  cRequestedByType : string;
  cRequestedByID : string;
  cTargetType : string;
  cTargetID : string;
  cInput : payload;
  cMaxAttempts : Z;
  cAvailableAt : option Z
}.

(** [hex.EncodeToString]. *)
Definition hex_digit (d : Z) : ascii := byte_of (if d <? 10 then 48 + d else 87 + d).
Fixpoint hex_encode (bytes : list Z) : string :=
  match bytes with
  | [] => ""
  | b :: bytes => String (hex_digit (b / 16)) (String (hex_digit (b mod 16)) (hex_encode bytes))
  end.

(** [%q] of a string: the escapes of the ASCII control characters are spelled
    in hexadecimal, bytes from 0x80 are kept. *)
Fixpoint quote_body (s : string) : string :=
  match s with
  | EmptyString => ""
  | String c s =>
      let rest := quote_body s in
      if (byte c =? 34) || (byte c =? 92) then String "\" (String c rest)
      else if byte c =? 10 then "\n" +:+ rest
      else if byte c =? 9 then "\t" +:+ rest
      else if byte c =? 13 then "\r" +:+ rest
      else if (byte c <? 32) || (byte c =? 127) then "\x" +:+ hex_encode [byte c] +:+ rest
      else String c rest
  end.
Definition dquote : string := String (byte_of 34) "".
Definition quoted (s : string) : string := dquote +:+ quote_body s +:+ dquote.

(** [random] is what [rand.Read] returned. *)
Definition newJobRunID (random : list Z) : string := "jobrun_" +:+ hex_encode random.

Definition GetJobRun (key : string) : DB JobRun := fun d =>
  match job_runs d !! key with
  | Some r => (Ok (scanJobRun r), d)
  | None => (Err ErrNotFound, d)
  end.

Definition resolveTraceID (key : string) (params : CreateJobRunParams) : DB string :=
  if String.eqb (cRequestedByType params) "job" && negb (String.eqb (cRequestedByID params) "") then
    parent ← wrap_db "resolve trace id from parent: %w" (GetJobRun (cRequestedByID params));
    if String.eqb (TraceID parent) ""
    then throw (Errorf "resolve trace id from parent: parent %q is missing trace_id")
    else mret (TraceID parent)
  else if negb (String.eqb (cTraceID params) "") then mret (cTraceID params)
  else mret key.

(** [length(trim(s)) = 0]. *)
Definition blank (s : string) : bool := string_forall (Ascii.eqb " ") s.

(** The constraints of the table on an inserted row: the primary key, the
    integer columns, and the CHECKs on type and attempts. *)
Definition insert_row (r : JobRow) : DB JobRun := fun d =>
  if bool_decide (is_Some (job_runs d !! id r)) then (Err (Errorf "duplicate key value"), d)
  else if 2 ^ 31 <=? max_attempts r then (Err (Errorf "integer out of range"), d)
  else if blank (type_ r) then (Err (Errorf "job_runs_type_not_empty"), d)
  else if negb ((0 <? attempt r) && (attempt r <=? max_attempts r))
  then (Err (Errorf "job_runs_attempt_not_over_max"), d)
  else (Ok (scanJobRun r), mkDB (<[id r := r]> (job_runs d)) (job_spill d)).

Definition CreateJobRun (random : list Z) (now : Z) (params : CreateJobRunParams) : DB JobRun :=
  let key := newJobRunID random in
  traceID ← resolveTraceID key params;
  input ← encoded (cInput params);
  let maxAttempts := if cMaxAttempts params <=? 0 then 1 else cMaxAttempts params in
  insert_row (mkJobRow key traceID (cType params) Pending
    (nullableString (cRequestedByType params)) (nullableString (cRequestedByID params))
    (nullableString (cTargetType params)) (nullableString (cTargetID params))
    input ∅ ∅ 1 maxAttempts (default now (cAvailableAt params))
    None None None None None now now).

(** ** ClaimJobRun *)

Definition claimable (now : Z) (types : list string) (r : JobRow) : bool :=
  bool_decide (state r = Pending) && (available_at r <=? now)
  && ((Z.of_nat (List.length types) =? 0) || bool_decide (type_ r ∈ types)).

Definition not_empty_types (types : list string) : list string :=
  List.filter (fun jobType => negb (String.eqb jobType "")) types.

Definition claim_row (workerID : string) (now : Z) (r : JobRow) : JobRow :=
  r ▷ set_state Running ▷ set_lock (Some (workerID, now))
    ▷ set_started_at (Some (default now (started_at r))) ▷ set_updated_at now.

Definition ClaimJobRun (skip : gset string) (now : Z) (workerID : string) (types : list string) : DB JobRun :=
  fun d =>
    let types := not_empty_types types in
    match select (fun r => claimable now types r && bool_decide (id r ∉ skip)) by_created d with
    | [] => (Err ErrNotFound, d)
    | r :: _ => update_row (id r) (fun _ => true) (claim_row workerID now) d
    end.

(** ** The other state changes *)

Definition progress_row (now : Z) (prog : payload) (r : JobRow) : JobRow :=
  r ▷ set_progress (jsonb_concat (progress r) prog) ▷ set_updated_at now.

Definition UpdateJobRunProgress (now : Z) (key : string) (prog : payload) : DB JobRun :=
  prog ← encoded prog;
  update_row key (fun _ => true) (progress_row now prog).

(** [DELETE FROM job_spill WHERE job_run_id = $1]. *)
Definition clear_spill (key : string) : DB unit := fun d =>
  (Ok tt, mkDB (job_runs d) (filter (fun e => e.1 <> key) (job_spill d))).

Definition succeed_row (now : Z) (result : payload) (r : JobRow) : JobRow :=
  r ▷ set_state Succeeded ▷ set_result result ▷ set_lock None ▷ set_finished_at (Some now)
    ▷ set_error None ▷ set_updated_at now.

Definition SucceedJobRun (now : Z) (key : string) (result : payload) : DB JobRun :=
  result ← encoded result;
  run ← update_row key (fun _ => true) (succeed_row now result);
  _ ← clear_spill key;
  mret run.

Definition retry_row (now : Z) (message : string) (availableAt : option Z) (r : JobRow) : JobRow :=
  r ▷ set_state Pending ▷ set_attempt (attempt r + 1) ▷ set_available_at (default now availableAt)
    ▷ set_lock None ▷ set_error (Some message) ▷ set_updated_at now.

Definition RetryJobRun (now : Z) (key message : string) (availableAt : option Z) : DB JobRun :=
  update_row key (fun r => attempt r <? max_attempts r) (retry_row now message availableAt).

Definition fail_row (now : Z) (message : string) (r : JobRow) : JobRow :=
  r ▷ set_state Failed ▷ set_lock None ▷ set_finished_at (Some now)
    ▷ set_error (Some message) ▷ set_updated_at now.

Definition FailJobRun (now : Z) (key message : string) : DB JobRun :=
  update_row key (fun _ => true) (fail_row now message).

Definition await_row (now : Z) (result prog : payload) (r : JobRow) : JobRow :=
  r ▷ set_result result
    ▷ set_progress (if Nat.eqb (size prog) 0 then progress r else jsonb_concat (progress r) prog)
    ▷ set_lock None ▷ set_updated_at now.

Definition AwaitJobRunChildren (now : Z) (key : string) (result prog : payload) : DB JobRun :=
  result ← encoded result;
  prog ← encoded prog;
  update_row key (fun r => bool_decide (state r = Running)) (await_row now result prog).

(** ** Reclaiming and resuming *)

Definition DefaultJobStaleTimeout : Z := 15 * 60 * 1000000000.
Definition staleLockedJobErrorMessage : string := "job timed out: worker stopped making progress".

Definition ResolveJobStaleTimeout (staleAfter : Z) : Z :=
  if 0 <? staleAfter then staleAfter else DefaultJobStaleTimeout.

(** [interval d] is the length in microseconds of the SQL interval the driver
    sends for the duration [d]. *)
Definition stale (interval : Z -> Z) (now staleAfter : Z) (r : JobRow) : bool :=
  bool_decide (state r = Running) && bool_decide (is_Some (locked_by r))
  && (updated_at r <? now - interval staleAfter).

Definition ids_of (l : list JobRow) : gset string := list_to_set (map id l).

Definition ReclaimStaleLockedJobs (interval : Z -> Z) (skip : gset string) (now staleAfter limit : Z) : DB Z :=
  fun d =>
    let staleAfter := ResolveJobStaleTimeout staleAfter in
    let limit := if limit <=? 0 then 100 else limit in
    let chosen := firstn (Z.to_nat limit)
      (select (fun r => stale interval now staleAfter r && bool_decide (id r ∉ skip)) by_updated d) in
    (Ok (Z.of_nat (List.length chosen)),
     update_where (fun r => bool_decide (id r ∈ ids_of chosen)) (fail_row now staleLockedJobErrorMessage) d).

Definition DefaultSyncBucketMaxAttempts : Z := 5.

Definition resume_row (now : Z) (r : JobRow) : JobRow :=
  r ▷ set_state Pending ▷ set_result (delete "await_children" (result_ r)) ▷ set_available_at now
    ▷ set_lock None ▷ set_finished_at None ▷ set_error None ▷ set_updated_at now.

(** Both updates of the statement see the rows as they were before it: the
    children are updated only when the resumed job is the root of its trace. *)
Definition ResumeJobRun (now : Z) (key : string) : DB JobRun :=
  if String.eqb key "" then throw (Errorf "resume job run: id is required")
  else fun d =>
    match job_runs d !! key with
    | Some r =>
        if stopped (state r) then
          (Ok (scanJobRun (resume_row now r)),
           update_where (fun c => String.eqb (id c) key
               || (String.eqb (id r) (trace_id r) && String.eqb (trace_id c) (trace_id r) && stopped (state c)))
             (resume_row now) d)
        else (Err ErrNotFound, d)
    | None => (Err ErrNotFound, d)
    end.

Definition IsRootJob (run : JobRun) : bool := String.eqb (ID run) (TraceID run).

Definition nonempty_string (v : option string) : bool :=
  match v with Some s => negb (String.eqb s "") | None => false end.

Definition hasListingCheckpointProgress (prog : payload) : bool :=
  (0 <? PayloadInt64 prog "objects_listed")
  || match prog !! "listing_checkpoint" with
     | Some (VMap raw) =>
         (0 <? PayloadInt64 raw "objects_listed")
         || nonempty_string (as_string (raw !! "continuation_token"))
         || nonempty_string (as_string (raw !! "marker"))
     | _ => false
     end.

Definition syncJobInputMatchesScope (inp : payload) (scopePrefix : string) : bool :=
  match inp !! "partition" with
  | Some _ => false
  | None =>
      let jobScopePrefix :=
        match as_string (inp !! "scope_prefix") with
        | Some value => value
        | None => default "" (as_string (inp !! "prefix"))
        end in
      String.eqb jobScopePrefix scopePrefix
  end.

Definition IsResumableSyncJobRun (run : JobRun) (scopePrefix : string) : bool :=
  if negb (String.eqb (Type_ run) JobTypeSyncBucket) || negb (IsRootJob run) then false
  else if negb (stopped (State run)) then false
  else if negb (syncJobInputMatchesScope (Input run) scopePrefix) then false
  else if PayloadBool (Progress run) "listing_complete" then stopped (State run)
  else hasListingCheckpointProgress (Progress run).

(** The root jobs of a type for a target. *)
Definition root_for (jobType targetType targetID : string) (r : JobRow) : bool :=
  String.eqb (type_ r) jobType && String.eqb (id r) (trace_id r)
  && not_distinct (target_type r) (Some targetType) && not_distinct (target_id r) (Some targetID).

Definition FindResumableSyncJobRun (targetType targetID scopePrefix : string) : DB JobRun := fun d =>
  if String.eqb targetType "" then (Err (Errorf "find resumable sync job run: target type is required"), d)
  else if String.eqb targetID "" then (Err (Errorf "find resumable sync job run: target id is required"), d)
  else
    let root := root_for JobTypeSyncBucket targetType targetID in
    match first_row (select (fun candidate => root candidate && stopped (state candidate)
            && negb (existsb (fun newer => root newer && (created_at candidate <? created_at newer)) (rows d)))
            by_created_desc d) with
    | Ok run => if IsResumableSyncJobRun run scopePrefix then (Ok run, d) else (Err ErrNotFound, d)
    | Err e => (Err e, d)
    end.

(** ** Queries *)

Definition exists_row (p : JobRow -> bool) : DB bool := query (fun d => existsb p (rows d)).

Definition on_target (jobType targetType targetID : string) (r : JobRow) : bool :=
  String.eqb (type_ r) jobType && not_distinct (target_type r) (nullableString targetType)
  && not_distinct (target_id r) (nullableString targetID).

Definition HasActiveJobRun (jobType targetType targetID : string) : DB bool :=
  exists_row (fun r => on_target jobType targetType targetID r && active (state r)).

Definition HasActiveJobRunOfType (jobType : string) : DB bool :=
  exists_row (fun r => String.eqb (type_ r) jobType && active (state r)).

(** The finished_at of the last row that has one. *)
Definition last_finished (p : JobRow -> bool) : DB (option Z) := query (fun d =>
  match select (fun r => p r && bool_decide (is_Some (finished_at r))) by_finished_desc d with
  | r :: _ => finished_at r
  | [] => None
  end).

Definition LastSucceededJobRunFinishedAt (jobType targetType targetID : string) : DB (option Z) :=
  last_finished (fun r => on_target jobType targetType targetID r && bool_decide (state r = Succeeded)).
Definition LastJobRunFinishedAt (jobType targetType targetID : string) : DB (option Z) :=
  last_finished (fun r => on_target jobType targetType targetID r
    && bool_decide (state r ∈ [Succeeded; Failed; Cancelled])).
Definition LastSucceededJobRunFinishedAtOfType (jobType : string) : DB (option Z) :=
  last_finished (fun r => String.eqb (type_ r) jobType && bool_decide (state r = Succeeded)).

Record ListJobRunsParams := mkList {
  lType : string;
  lTypes : list string;
  lState : string;
  lTraceID : string;
  lRequestedByType : string;
  lRequestedByID : string;
  lTargetType : string;
  lTargetID : string;
  lCreatedAfter : option Z;
  lCreatedBefore : option Z;
  lLimit : Z;
  lOffset : Z
}.

Definition listJobRunTypeFilter (params : ListJobRunsParams) : list string :=
  if 0 <? Z.of_nat (List.length (lTypes params)) then not_empty_types (lTypes params)
  else if negb (String.eqb (lType params) "") then [lType params]
  else [].

(** [$n = '' OR col = $n]: NULL columns do not equal the argument. *)
Definition or_equal (arg : string) (col : option string) : bool :=
  String.eqb arg "" || bool_decide (col = Some arg).

Definition jobRunListWhereClause (params : ListJobRunsParams) (r : JobRow) : bool :=
  let types := listJobRunTypeFilter params in
  ((Z.of_nat (List.length types) =? 0) || bool_decide (type_ r ∈ types))
  && or_equal (lState params) (Some (state_text (state r)))
  && or_equal (lRequestedByType params) (requested_by_type r)
  && or_equal (lRequestedByID params) (requested_by_id r)
  && or_equal (lTargetType params) (target_type r)
  && or_equal (lTargetID params) (target_id r)
  && match lCreatedAfter params with Some t => t <=? created_at r | None => true end
  && match lCreatedBefore params with Some t => created_at r <? t | None => true end
  && or_equal (lTraceID params) (Some (trace_id r)).

Definition clamp_limit (limit : Z) : Z :=
  let limit := if limit <=? 0 then 100 else limit in if 500 <? limit then 500 else limit.

Definition ListJobRuns (params : ListJobRunsParams) : DB (list JobRun) := query (fun d =>
  let limit := clamp_limit (lLimit params) in
  let offset := if lOffset params <? 0 then 0 else lOffset params in
  map scanJobRun (firstn (Z.to_nat limit) (skipn (Z.to_nat offset)
    (select (jobRunListWhereClause params) by_created_desc d)))).

Definition CountJobRuns (params : ListJobRunsParams) : DB Z := query (fun d =>
  Z.of_nat (List.length (List.filter (jobRunListWhereClause params) (rows d)))).

(** ** job_spill *)

Definition InsertKeys (jobRunID : string) (keys : list string) : DB unit := fun d =>
  if String.eqb jobRunID "" then (Err (Errorf "insert job spill keys: job run id is required"), d)
  else if Z.of_nat (List.length keys) =? 0 then (Ok tt, d)
  else if existsb blank keys then (Err (Errorf "job_spill_key_not_empty"), d)
  else if bool_decide (is_Some (job_runs d !! jobRunID))
  then (Ok tt, mkDB (job_runs d) (list_to_set (map (pair jobRunID) keys) ∪ job_spill d))
  else (Err (Errorf "job_spill_job_run_id_fkey"), d).

Definition FilterKeysNotInSpill (jobRunID : string) (keys : list string) : DB (list string) := fun d =>
  if String.eqb jobRunID "" then (Err (Errorf "filter job spill keys: job run id is required"), d)
  else if Z.of_nat (List.length keys) =? 0 then (Ok [], d)
  else (Ok (List.filter (fun key => bool_decide ((jobRunID, key) ∉ job_spill d)) keys), d).

Definition DeleteForJobRun (jobRunID : string) : DB unit :=
  if String.eqb jobRunID "" then throw (Errorf "delete job spill keys: job run id is required")
  else clear_spill jobRunID.

Definition CountKeys (jobRunID : string) : DB Z := fun d =>
  if String.eqb jobRunID "" then (Err (Errorf "count job spill keys: job run id is required"), d)
  else (Ok (Z.of_nat (size (filter (fun e => e.1 = jobRunID) (job_spill d)))), d).

(** ** Lemmas on the statements *)

Lemma elem_of_rows r d : r ∈ rows d <-> exists key, job_runs d !! key = Some r.
Proof.
  unfold rows. rewrite list_elem_of_fmap. split.
  - intros ([key r'] & -> & H). exists key. by apply elem_of_map_to_list.
  - intros (key & H). exists (key, r). split; [done|]. by apply elem_of_map_to_list.
Qed.

Lemma elem_of_select p lt r d : r ∈ select p lt d <-> p r = true /\ exists key, job_runs d !! key = Some r.
Proof.
  unfold select. rewrite (sort_by_perm lt), list_elem_of_In, filter_In, <- list_elem_of_In, elem_of_rows.
  tauto.
Qed.

Lemma lookup_update_where p f d key :
  job_runs (update_where p f d) !! key = (fun r => if p r then f r else r) <$> (job_runs d !! key).
Proof. unfold update_where. cbn [job_runs]. by rewrite lookup_fmap. Qed.

(** Every statement of [d] keeps the rows in [p]. *)
Definition keyed (d : db) : Prop := map_Forall (fun key r => id r = key) (job_runs d).

Lemma lex_before_asym a b x y : lex_before a b x y = true -> lex_before b a y x = false.
Proof.
  unfold lex_before. destruct (Z.ltb_spec x y), (Z.ltb_spec y x), (Z.eqb_spec x y), (Z.eqb_spec y x);
    cbn; try lia; try done. apply string_ltb_asym.
Qed.
Lemma lex_before_ntrans a b c x y z :
  lex_before b a y x = false -> lex_before c b z y = false -> lex_before c a z x = false.
Proof.
  unfold lex_before. destruct (Z.ltb_spec y x), (Z.ltb_spec z y), (Z.ltb_spec z x),
    (Z.eqb_spec y x), (Z.eqb_spec z y), (Z.eqb_spec z x); cbn; try lia; try done.
  apply string_ltb_ntrans.
Qed.

(** The first row of an ordered SELECT: it satisfies the condition and no other
    row that does comes before it. *)
Lemma select_first p (f : JobRow -> Z) r l d :
  select p (fun a b => lex_before a b (f a) (f b)) d = r :: l ->
  p r = true /\ (exists key, job_runs d !! key = Some r) /\
  (forall key r', job_runs d !! key = Some r' -> p r' = true -> lex_before r' r (f r') (f r) = false).
Proof.
  intros E. assert (r ∈ select p (fun a b => lex_before a b (f a) (f b)) d) as Hr by (rewrite E; left).
  apply elem_of_select in Hr as [Hp Hk]. split_and!; [done..|].
  intros key r' Hr' Hp'.
  assert (r' ∈ r :: l) as Hin by (rewrite <- E; apply elem_of_select; eauto).
  pose proof (sort_by_sorted (fun a b => lex_before a b (f a) (f b))
    (fun _ _ => lex_before_asym _ _ _ _) (fun _ _ _ => lex_before_ntrans _ _ _ _ _ _)
    (List.filter p (rows d))) as Hs.
  change (sorted_by (fun a b => lex_before a b (f a) (f b)) (select p (fun a b => lex_before a b (f a) (f b)) d)) in Hs.
  rewrite E in Hs. apply Sorted.StronglySorted_inv in Hs as [_ Hs].
  apply elem_of_cons in Hin as [->|Hin].
  - destruct (lex_before r r (f r) (f r)) eqn:E'; [|done]. apply lex_before_asym in E' as E''. congruence.
  - rewrite List.Forall_forall in Hs. apply Hs. by apply list_elem_of_In.
Qed.

Lemma by_created_desc_sorted p d : sorted_by by_created_desc (select p by_created_desc d).
Proof.
  apply sort_by_sorted; unfold by_created_desc, by_created; [intros x y; apply lex_before_asym|].
  intros x y z H1 H2. by eapply lex_before_ntrans.
Qed.

(** The newest row of an ordered SELECT. *)
Lemma select_newest p r l d : select p by_created_desc d = r :: l ->
  p r = true /\ r ∈ rows d /\ forall r', r' ∈ rows d -> p r' = true -> by_created_desc r' r = false.
Proof.
  intros E. assert (r ∈ select p by_created_desc d) as [Hp Hk]%elem_of_select by (rewrite E; left).
  split; [done|]. split; [by apply elem_of_rows|]. intros r' Hr' Hp'.
  assert (r' ∈ r :: l) as Hin by (rewrite <- E; apply elem_of_select; split; [done|by apply elem_of_rows]).
  pose proof (by_created_desc_sorted p d) as Hs. rewrite E in Hs. apply Sorted.StronglySorted_inv in Hs as [_ Hs].
  apply elem_of_cons in Hin as [->|Hin].
  - unfold by_created_desc, by_created. destruct (lex_before r r _ _) eqn:E'; [|done]. apply lex_before_asym in E' as E''. congruence.
  - rewrite List.Forall_forall in Hs. apply Hs. by apply list_elem_of_In.
Qed.

(** Go's view of the [update_row] statement. *)
Lemma update_row_cases key p f d :
  (exists r, job_runs d !! key = Some r /\ p r = true /\
     update_row key p f d = (Ok (scanJobRun (f r)), mkDB (<[key := f r]> (job_runs d)) (job_spill d))) \/
  ((forall r, job_runs d !! key = Some r -> p r = false) /\ update_row key p f d = (Err ErrNotFound, d)).
Proof.
  unfold update_row. destruct (job_runs d !! key) as [r|] eqn:E; [|right; done].
  destruct (p r) eqn:Hp; [left; eauto|right]. split; [|done]. congruence.
Qed.

Lemma encoded_cases p d :
  (exists e, encodeJobRunPayload p = Some e /\ encoded p d = (Ok e, d)) \/
  (encodeJobRunPayload p = None /\ exists err, encoded p d = (Err err, d)).
Proof. unfold encoded. destruct (encodeJobRunPayload p); eauto. Qed.
