(* ===== verification/JobTrace.v ===== *)
(** * JobTrace

    Traces: the tree of job runs under a root job.  The summaries, the progress
    rollup and the completion of the jobs that await their children, from
    packages/storage/job_trace.go and job_trace_completion.go. *)
From S2P Require Import Prelude GoStrings GoFloat JobPayload JobRuns.
Local Open Scope Z_scope.

(** ** Summaries *)

Record TraceObjectCounts := mkObjects { oImport : Z; oRefresh : Z; oRemove : Z }.
Record TraceBatchState := mkBatch { bTotal : Z; bDone : Z; bFailed : Z; bActive : Z; bPending : Z }.
Record TraceBatchCounts := mkBatches { tImport : TraceBatchState; tRefresh : TraceBatchState; tRemove : TraceBatchState }.
Record TraceJobTypeCounts := mkCounts {
  nTotal : Z; nPending : Z; nRunning : Z; nSucceeded : Z; nFailed : Z; nCancelled : Z
}.
Record TraceSummary := mkSummary {
  sTraceID : string;
  sRootJobRunID : string;
  sState : JobRunState;
  sPhase : string;
  sObjectsListed : Z;
  sObjectsPlanned : TraceObjectCounts;
  sObjectsApplied : TraceObjectCounts;
  sBatches : TraceBatchCounts;
  sStaleSeconds : Z;
  sJobCounts : gmap string TraceJobTypeCounts
}.

Definition no_batch : TraceBatchState := mkBatch 0 0 0 0 0.
Definition no_counts : TraceJobTypeCounts := mkCounts 0 0 0 0 0 0.

(** ** Activity of a trace and of a target *)

Definition in_trace (traceID : string) (r : JobRow) : bool := String.eqb (trace_id r) traceID.

Definition IsTraceActive (traceID : string) : DB bool :=
  if String.eqb traceID "" then throw (Errorf "is trace active: trace id is required")
  else exists_row (fun r => in_trace traceID r && active (state r)).

Definition activeCatalogTraceWorkForTargetPredicate (interval : Z -> Z) (now staleAfter : Z)
    (targetType targetID : string) (d : db) (r : JobRow) : bool :=
  not_distinct (target_type r) (Some targetType) && not_distinct (target_id r) (Some targetID)
  && active (state r) && negb (stale interval now staleAfter r)
  && existsb (fun root => String.eqb (id root) (trace_id r) && String.eqb (id root) (trace_id root)
       && bool_decide (type_ root ∈ ["sync_bucket"; "scan_bucket"])
       && not_distinct (target_type root) (Some targetType)
       && not_distinct (target_id root) (Some targetID)) (rows d).

(** The argument checks that the three operations on a target share. *)
Definition with_target {A} (operation targetType targetID : string) (m : DB A) : DB A :=
  if String.eqb targetType "" then throw (Errorf (operation +:+ ": target type is required"))
  else if String.eqb targetID "" then throw (Errorf (operation +:+ ": target id is required"))
  else m.

Definition HasActiveWorkForTarget (interval : Z -> Z) (now staleAfter : Z) (targetType targetID : string) : DB bool :=
  with_target "has active work for target" targetType targetID (query (fun d =>
    existsb (activeCatalogTraceWorkForTargetPredicate interval now (ResolveJobStaleTimeout staleAfter)
               targetType targetID d) (rows d))).

Definition FindActiveWorkForTarget (interval : Z -> Z) (now staleAfter : Z) (targetType targetID : string) : DB JobRun :=
  with_target "find active work for target" targetType targetID (fun d =>
    (first_row (select (activeCatalogTraceWorkForTargetPredicate interval now
                          (ResolveJobStaleTimeout staleAfter) targetType targetID d) by_created_desc d), d)).

Definition supersededByUserSyncErrorMessage : string := "cancelled: superseded by user-initiated sync".

Definition active_scan (targetType targetID : string) (r : JobRow) : bool :=
  not_distinct (target_type r) (Some targetType) && not_distinct (target_id r) (Some targetID)
  && String.eqb (type_ r) JobTypeScanBucket && active (state r).

Definition FailActiveScanJobsForTarget (now : Z) (targetType targetID : string) : DB Z :=
  with_target "fail active scan jobs for target" targetType targetID (fun d =>
    (Ok (Z.of_nat (List.length (List.filter (active_scan targetType targetID) (rows d)))),
     update_where (active_scan targetType targetID) (fail_row now supersededByUserSyncErrorMessage) d)).

(** ** SummarizeTrace *)

(** The rows of [SELECT type, state, count] of a [GROUP BY type, state]. *)
Definition all_states : list JobRunState := [Pending; Running; Succeeded; Failed; Cancelled].
Definition count_rows (p : JobRow -> bool) (l : list JobRow) : Z := Z.of_nat (List.length (List.filter p l)).
Definition group_rows (l : list JobRow) : list (string * JobRunState * Z) :=
  List.filter (fun g => 0 <? g.2)
    (List.concat (map (fun ty => map (fun st =>
        (ty, st, count_rows (fun r => String.eqb (type_ r) ty && bool_decide (state r = st)) l)) all_states)
      (remove_dups (map type_ l)))).

Definition add_type_count (c : TraceJobTypeCounts) (st : JobRunState) (n : Z) : TraceJobTypeCounts :=
  let c := mkCounts (nTotal c + n) (nPending c) (nRunning c) (nSucceeded c) (nFailed c) (nCancelled c) in
  match st with
  | Pending => mkCounts (nTotal c) (nPending c + n) (nRunning c) (nSucceeded c) (nFailed c) (nCancelled c)
  | Running => mkCounts (nTotal c) (nPending c) (nRunning c + n) (nSucceeded c) (nFailed c) (nCancelled c)
  | Succeeded => mkCounts (nTotal c) (nPending c) (nRunning c) (nSucceeded c + n) (nFailed c) (nCancelled c)
  | Failed => mkCounts (nTotal c) (nPending c) (nRunning c) (nSucceeded c) (nFailed c + n) (nCancelled c)
  | Cancelled => mkCounts (nTotal c) (nPending c) (nRunning c) (nSucceeded c) (nFailed c) (nCancelled c + n)
  end.

Definition add_batch_count (b : TraceBatchState) (st : JobRunState) (n : Z) : TraceBatchState :=
  let b := mkBatch (bTotal b + n) (bDone b) (bFailed b) (bActive b) (bPending b) in
  match st with
  | Pending => mkBatch (bTotal b) (bDone b) (bFailed b) (bActive b) (bPending b + n)
  | Running => mkBatch (bTotal b) (bDone b) (bFailed b) (bActive b + n) (bPending b)
  | Succeeded => mkBatch (bTotal b) (bDone b + n) (bFailed b) (bActive b) (bPending b)
  | Failed => mkBatch (bTotal b) (bDone b) (bFailed b + n) (bActive b) (bPending b)
  | Cancelled => b
  end.

(** The state and the job counts of a summary. *)
Definition loadTraceStateSummary (traceID : string) : DB (JobRunState * gmap string TraceJobTypeCounts) :=
  query (fun d =>
    let l := List.filter (in_trace traceID) (rows d) in
    let st :=
      if existsb (fun r => active (state r)) l then Running
      else if existsb (fun r => bool_decide (state r = Failed)) l then Failed
      else if existsb (fun r => bool_decide (state r = Cancelled)) l then Cancelled
      else Succeeded in
    (st, fold_left (fun counts '(ty, s, n) =>
           <[ty := add_type_count (default no_counts (counts !! ty)) s n]> counts) (group_rows l) ∅)).

(** The batch counters that a job type updates. *)
Definition batchStateForType (b : TraceBatchCounts) (jobType : string)
    (f : TraceBatchState -> TraceBatchState) : TraceBatchCounts :=
  if String.eqb jobType JobTypeImportObjects then mkBatches (f (tImport b)) (tRefresh b) (tRemove b)
  else if String.eqb jobType JobTypeRefreshObjects then mkBatches (tImport b) (f (tRefresh b)) (tRemove b)
  else if String.eqb jobType JobTypeRemoveObjects then mkBatches (tImport b) (tRefresh b) (f (tRemove b))
  else b.

Definition batch_types : list string := [JobTypeImportObjects; JobTypeRefreshObjects; JobTypeRemoveObjects].

Definition loadTraceBatchSummary (traceID : string) : DB TraceBatchCounts := query (fun d =>
  let l := List.filter (fun r => in_trace traceID r && bool_decide (type_ r ∈ batch_types)) (rows d) in
  fold_left (fun b '(ty, s, n) => batchStateForType b ty (fun st => add_batch_count st s n))
    (group_rows l) (mkBatches no_batch no_batch no_batch)).

(** [COALESCE(NULLIF(result->>key, '')::bigint, 0)]; [None] is a cast error. *)
Definition result_bigint (key : string) (p : payload) : option Z :=
  match p !! key with
  | None | Some VNil => Some 0
  | Some (VInt z) => Some z
  | Some (VFloat f) =>
      let z := int64_of_float f in
      if bool_decide (float_of_Z z = f) then Some z else None
  | Some (VString s) => if String.eqb s "" then Some 0 else ParseInt64 s
  | _ => None
  end.

Definition sum_results (key jobType : string) (l : list JobRow) : option Z :=
  fold_right (fun r acc =>
    if String.eqb (type_ r) jobType
    then acc ≫= fun a => result_bigint key (result_ r) ≫= fun n => Some (a + n)
    else acc) (Some 0) l.

Definition loadTraceAppliedSummary (traceID : string) : DB TraceObjectCounts := fun d =>
  let l := List.filter (in_trace traceID) (rows d) in
  match sum_results "objects_imported" JobTypeImportObjects l,
        sum_results "objects_refreshed" JobTypeRefreshObjects l,
        sum_results "objects_deleted" JobTypeRemoveObjects l with
  | Some i, Some rf, Some rm => (Ok (mkObjects i rf rm), d)
  | _, _, _ => (Err (Errorf "summarize trace applied counts"), d)
  end.

(** [or_else a b]: the count from the result when the progress has none. *)
Definition or_else (a b : Z) : Z := if a =? 0 then b else a.

(** [int64(time.Since(t).Seconds())] for a difference of [ns] nanoseconds. *)
Definition seconds_of (ns : Z) : Z :=
  int64_of_float (SFadd prec64 emax64 (float_of_Z (Z.quot ns 1000000000))
    (SFdiv prec64 emax64 (float_of_Z (Z.rem ns 1000000000)) (float_of_Z 1000000000))).

(** [sprint] is [fmt.Sprint] and [goNow] is [time.Now] in nanoseconds. *)
Definition SummarizeTrace (sprint : value -> string) (goNow : Z) (traceID : string) : DB TraceSummary :=
  if String.eqb traceID "" then throw (Errorf "summarize trace: trace id is required")
  else
    root ← GetJobRun traceID;
    if negb (IsRootJob root) then throw (Errorf "summarize trace: root job run not found for trace %q")
    else
      counts ← loadTraceStateSummary traceID;
      batches ← loadTraceBatchSummary traceID;
      applied ← loadTraceAppliedSummary traceID;
      mret (mkSummary traceID traceID counts.1
        (PayloadString sprint (Progress root) "phase")
        (or_else (PayloadInt64 (Progress root) "objects_listed") (PayloadInt64 (Result_ root) "objects_seen"))
        (mkObjects
          (or_else (PayloadInt64 (Progress root) "import_objects_count") (PayloadInt64 (Result_ root) "import_objects_count"))
          (or_else (PayloadInt64 (Progress root) "refresh_objects_count") (PayloadInt64 (Result_ root) "refresh_objects_count"))
          (or_else (PayloadInt64 (Progress root) "remove_objects_count") (PayloadInt64 (Result_ root) "remove_objects_count")))
        applied batches
        (seconds_of (goNow - 1000 * UpdatedAt root))
        counts.2).

(** ** The rollup of a trace *)

Definition batch_moving (b : TraceBatchState) : bool := (0 <? bActive b) || (0 <? bPending b).
Definition batch_planned (planned : Z) (b : TraceBatchState) : bool := (0 <? planned) && (bDone b <? bTotal b).

Definition rollup_phase (s : TraceSummary) : string :=
  let b := sBatches s in
  let planned := sObjectsPlanned s in
  if batch_moving (tImport b) then "importing"
  else if batch_moving (tRefresh b) then "refreshing"
  else if batch_moving (tRemove b) then "removing"
  else if batch_planned (oImport planned) (tImport b) then "importing"
  else if batch_planned (oRefresh planned) (tRefresh b) then "refreshing"
  else if batch_planned (oRemove planned) (tRemove b) then "removing"
  else if String.eqb (sPhase s) "" && (0 <? sObjectsListed s) then "listing"
  else sPhase s.

Definition batchStatePayload (b : TraceBatchState) : value :=
  VMap (<["total" := VInt (bTotal b)]> (<["done" := VInt (bDone b)]> (<["failed" := VInt (bFailed b)]>
    (<["active" := VInt (bActive b)]> {["pending" := VInt (bPending b)]})))).

Definition TraceProgressRollup (s : TraceSummary) : payload :=
  <["phase" := VString (rollup_phase s)]>
  (<["objects_listed" := VInt (sObjectsListed s)]>
  (<["import_objects_count" := VInt (oImport (sObjectsPlanned s))]>
  (<["refresh_objects_count" := VInt (oRefresh (sObjectsPlanned s))]>
  (<["remove_objects_count" := VInt (oRemove (sObjectsPlanned s))]>
  (<["objects_planned" := VMap (<["import" := VInt (oImport (sObjectsPlanned s))]>
      (<["refresh" := VInt (oRefresh (sObjectsPlanned s))]> {["remove" := VInt (oRemove (sObjectsPlanned s))]}))]>
  (<["objects_applied" := VMap (<["imported" := VInt (oImport (sObjectsApplied s))]>
      (<["refreshed" := VInt (oRefresh (sObjectsApplied s))]> {["removed" := VInt (oRemove (sObjectsApplied s))]}))]>
  {["batches" := VMap (<["import" := batchStatePayload (tImport (sBatches s))]>
      (<["refresh" := batchStatePayload (tRefresh (sBatches s))]>
        {["remove" := batchStatePayload (tRemove (sBatches s))]}))]})))))).

(** ** Completion *)

(** [COALESCE(result->>'await_children', 'false') = 'true']. *)
Definition awaits_text (p : payload) : bool :=
  match p !! "await_children" with
  | Some (VBool true) => true
  | Some (VString s) => String.eqb s "true"
  | _ => false
  end.

Definition awaiting (r : JobRow) : bool := bool_decide (state r = Running) && awaits_text (result_ r).

Definition listAwaitingTraceJobs (limit : Z) (rootsOnly : bool) : DB (list JobRun) := query (fun d =>
  map scanJobRun (firstn (Z.to_nat (clamp_limit limit))
    (select (fun r => awaiting r && (negb rootsOnly || String.eqb (id r) (trace_id r))) by_created_desc d))).
Definition ListAwaitingTraceRoots (limit : Z) : DB (list JobRun) := listAwaitingTraceJobs limit true.
Definition ListAwaitingTraceJobs (limit : Z) : DB (list JobRun) := listAwaitingTraceJobs limit false.

Definition listAwaitingTraceJobsForTrace (traceID : string) : DB (list JobRun) := query (fun d =>
  map scanJobRun (select (fun r => in_trace traceID r && awaiting r) by_created d)).

Definition TraceChildrenComplete (runs : list JobRun) : bool :=
  forallb (fun run => IsRootJob run || negb (active (State run))) runs.

Definition child_of (parentID : string) (r : JobRow) : bool :=
  bool_decide (requested_by_type r = Some "job") && bool_decide (requested_by_id r = Some parentID).

Definition DirectChildrenComplete (parentID : string) : DB bool :=
  if String.eqb parentID "" then throw (Errorf "direct children complete: parent id is required")
  else query (fun d => negb (existsb (fun r => child_of parentID r && active (state r)) (rows d))).

Definition DirectChildrenFailed (parentID : string) : DB bool :=
  if String.eqb parentID "" then throw (Errorf "direct children failed: parent id is required")
  else exists_row (fun r => child_of parentID r && bool_decide (state r = Failed)).

Definition terminalTracePhase (s : TraceSummary) : string :=
  if 0 <? oRemove (sObjectsPlanned s) then "removed"
  else if 0 <? oRefresh (sObjectsPlanned s) then "refreshed"
  else if 0 <? oImport (sObjectsPlanned s) then "imported"
  else "completed".

Definition traceFailureMessage (s : TraceSummary) : string :=
  let failed := bFailed (tImport (sBatches s)) + bFailed (tRefresh (sBatches s)) + bFailed (tRemove (sBatches s)) in
  if failed =? 0 then "trace failed"
  else "trace failed: " +:+ itoa failed +:+ " child job batch(es) failed".

Definition final_result (job : JobRun) (s : TraceSummary) : payload :=
  let result := cloneJobRunPayload (Result_ job) in
  if IsRootJob job
  then <["phase" := VString (terminalTracePhase s)]> (TraceProgressRollup s ∪ result)
  else result.

Definition FinalizeAwaitingJob (now : Z) (job : JobRun) (s : TraceSummary) : DB bool :=
  if negb (bool_decide (State job = Running)) || negb (PayloadBool (Result_ job) "await_children") then mret false
  else
    complete ← DirectChildrenComplete (ID job);
    if negb complete then mret false
    else
      failed ← DirectChildrenFailed (ID job);
      if (failed : bool) then
        _ ← FailJobRun now (ID job) (traceFailureMessage s);
        mret true
      else
        _ ← SucceedJobRun now (ID job) (final_result job s);
        mret true.

(** The loops that stop at the first error and count what was done. *)
Fixpoint count_done {A} (f : A -> DB bool) (l : list A) : DB Z :=
  match l with
  | [] => mret 0
  | x :: l => done ← f x; n ← count_done f l; mret (if (done : bool) then n + 1 else n)
  end.

Definition FinalizeAwaitingTrace (now : Z) (traceID : string) (s : TraceSummary) : DB Z :=
  if String.eqb traceID "" then throw (Errorf "finalize awaiting trace: trace id is required")
  else
    jobs ← listAwaitingTraceJobsForTrace traceID;
    count_done (fun run => FinalizeAwaitingJob now run s) jobs.
