(* ===== verification/JobRunProofs.v ===== *)
(** * JobRunProofs

    The life cycle of a job run.  A row evolves by the transition system
    [row_step]; every statement of the store refines it; the invariants, the
    exclusivity of claims and the bound on the number of executions follow by
    induction on the sequence of statements. *)
From S2P Require Import Prelude GoStrings GoFloat JobPayload JobRuns JobTrace.
Local Open Scope Z_scope.

(** ** The state machine of a row *)

Inductive event :=
| EStay | EClaim | EProgress | ESucceed | ERetry | EFail | EResume | EAwait.

#[export] Instance event_eq_dec : EqDecision event.
Proof. solve_decision. Defined.

Inductive row_step : event -> JobRow -> JobRow -> Prop :=
| rs_stay r : row_step EStay r r
| rs_claim r worker now : state r = Pending -> row_step EClaim r (claim_row worker now r)
| rs_progress r now p : row_step EProgress r (progress_row now p r)
| rs_succeed r now res : row_step ESucceed r (succeed_row now res r)
| rs_retry r now message at_ :
    attempt r < max_attempts r -> row_step ERetry r (retry_row now message at_ r)
| rs_fail r now message : row_step EFail r (fail_row now message r)
| rs_resume r now : stopped (state r) = true -> row_step EResume r (resume_row now r)
| rs_await r now res p : state r = Running -> row_step EAwait r (await_row now res p r).

(** A row as CreateJobRun inserts it. *)
Definition fresh_row (r : JobRow) : Prop :=
  state r = Pending /\ attempt r = 1 /\ 1 <= max_attempts r /\
  locked_by r = None /\ locked_at r = None /\ started_at r = None /\ finished_at r = None /\
  error_message r = None.

(** ** The statements as steps of the database *)

Inductive op :=
| OpCreate (random : list Z) (now : Z) (params : CreateJobRunParams)
| OpClaim (skip : gset string) (now : Z) (worker : string) (types : list string)
| OpProgress (now : Z) (key : string) (p : payload)
| OpSucceed (now : Z) (key : string) (p : payload)
| OpRetry (now : Z) (key message : string) (availableAt : option Z)
| OpFail (now : Z) (key message : string)
| OpReclaim (interval : Z -> Z) (skip : gset string) (now staleAfter limit : Z)
| OpResume (now : Z) (key : string)
| OpFailScans (now : Z) (targetType targetID : string)
| OpAwait (now : Z) (key : string) (res p : payload)
| OpInsertKeys (key : string) (keys : list string)
| OpDeleteSpill (key : string).

Definition run_op (o : op) (d : db) : db :=
  match o with
  | OpCreate random now params => (CreateJobRun random now params d).2
  | OpClaim skip now worker types => (ClaimJobRun skip now worker types d).2
  | OpProgress now key p => (UpdateJobRunProgress now key p d).2
  | OpSucceed now key p => (SucceedJobRun now key p d).2
  | OpRetry now key message at_ => (RetryJobRun now key message at_ d).2
  | OpFail now key message => (FailJobRun now key message d).2
  | OpReclaim interval skip now staleAfter limit => (ReclaimStaleLockedJobs interval skip now staleAfter limit d).2
  | OpResume now key => (ResumeJobRun now key d).2
  | OpFailScans now ty tid => (FailActiveScanJobsForTarget now ty tid d).2
  | OpAwait now key res p => (AwaitJobRunChildren now key res p d).2
  | OpInsertKeys key keys => (InsertKeys key keys d).2
  | OpDeleteSpill key => (DeleteForJobRun key d).2
  end.

Definition run_ops (ops : list op) (d : db) : db := fold_left (fun d o => run_op o d) ops d.

(** The databases that the program can produce. *)
Definition reachable (d : db) : Prop := exists ops, d = run_ops ops empty_db.

Lemma run_ops_app a b d : run_ops (a ++ b) d = run_ops b (run_ops a d).
Proof. apply fold_left_app. Qed.

(** The events an operation can cause on the row [key]. *)
Definition op_event (key : string) (o : op) (e : event) : Prop :=
  match o, e with
  | _, EStay => True
  | OpClaim _ _ _ _, EClaim => True
  | OpProgress _ k _, EProgress => k = key
  | OpSucceed _ k _, ESucceed => k = key
  | OpRetry _ k _ _, ERetry => k = key
  | OpFail _ k _, EFail => k = key
  | OpReclaim _ _ _ _ _, EFail => True
  | OpResume _ _, EResume => True
  | OpFailScans _ _ _, EFail => True
  | OpAwait _ k _ _, EAwait => k = key
  | _, _ => False
  end.

(** The rows an operation can add: those that CreateJobRun inserts. *)
Definition op_new (d : db) (o : op) (key : string) (r : JobRow) : Prop :=
  exists random now params, o = OpCreate random now params /\ key = newJobRunID random /\
    resolveTraceID key params d = (Ok (trace_id r), d) /\
    requested_by_type r = nullableString (cRequestedByType params) /\
    requested_by_id r = nullableString (cRequestedByID params).

(** A step of the table: every row takes a step, and a new row is fresh. *)
Definition table_step (P : string -> event -> Prop) (N : string -> JobRow -> Prop) (d d' : db) : Prop :=
  forall key,
    match job_runs d !! key, job_runs d' !! key with
    | Some r, Some r' => exists e, P key e /\ row_step e r r'
    | None, Some r' => fresh_row r' /\ id r' = key /\ N key r'
    | None, None => True
    | Some _, None => False
    end.

Section TableSteps.
Context (P : string -> event -> Prop) (N : string -> JobRow -> Prop) (Pstay : forall key, P key EStay).

Lemma table_step_same d d' : job_runs d' = job_runs d -> table_step P N d d'.
Proof.
intros E key. rewrite E. destruct (job_runs d !! key); [|done]. exists EStay. split; [done|constructor].
Qed.

Lemma table_step_where d p (f : JobRow -> JobRow) :
(forall key r, job_runs d !! key = Some r -> p r = true -> exists e, P key e /\ row_step e r (f r)) ->
table_step P N d (update_where p f d).
Proof.
intros H k. rewrite lookup_update_where. destruct (job_runs d !! k) as [r|] eqn:E; [|done].
cbn. destruct (p r) eqn:Hp; [eauto|]. exists EStay. split; [done|constructor].
Qed.

Lemma update_row_step key p f d :
(forall r, job_runs d !! key = Some r -> p r = true -> exists e, P key e /\ row_step e r (f r)) ->
table_step P N d (update_row key p f d).2.
Proof.
intros H. destruct (update_row_cases key p f d) as [(r & Hr & Hp & ->)|[_ ->]]; cbn [snd];
  [|by apply table_step_same].
intros k. cbn [job_runs]. destruct (decide (key = k)) as [<-|Hne].
- rewrite Hr, lookup_insert_eq. eauto.
- rewrite lookup_insert_ne by done. destruct (job_runs d !! k); [|done].
  exists EStay. split; [done|constructor].
Qed.

Lemma table_step_spill d d' spill : table_step P N d d' -> table_step P N d (mkDB (job_runs d') spill).
Proof. done. Qed.
End TableSteps.

(** The monadic plumbing of the statements. *)
Lemma encoded_step P N (Pstay : forall key, P key EStay) {A} p (f : payload -> DB A) d :
  (forall e, table_step P N d (f e d).2) -> table_step P N d ((encoded p ≫= f) d).2.
Proof.
  intros H. unfold mbind, DB_bind. destruct (encoded_cases p d) as [(e & _ & ->)|[_ [err ->]]]; [done|].
  by apply table_step_same.
Qed.

Lemma resolveTraceID_db key params d : (resolveTraceID key params d).2 = d.
Proof.
  unfold resolveTraceID. destruct (_ && _); [|by destruct (negb _)].
  unfold mbind, DB_bind, wrap_db, GetJobRun. destruct (job_runs d !! _) as [r|]; [|done].
  by destruct (String.eqb _ _).
Qed.

Lemma insert_row_cases r d :
  (exists e, insert_row r d = (Err e, d)) \/
  (job_runs d !! id r = None /\ 0 < attempt r <= max_attempts r /\
   insert_row r d = (Ok (scanJobRun r), mkDB (<[id r := r]> (job_runs d)) (job_spill d))).
Proof.
  unfold insert_row. case_bool_decide as Hk; [eauto|]. destruct (2 ^ 31 <=? max_attempts r); [eauto|].
  destruct (blank (type_ r)); [eauto|]. destruct (negb _) eqn:E; [eauto|]. right. split_and!; try done.
  - by apply eq_None_not_Some.
  - apply negb_false_iff, andb_true_iff in E. lia.
  - apply negb_false_iff, andb_true_iff in E. lia.
Qed.

Lemma CreateJobRun_step P (Pstay : forall key, P key EStay) random now params d :
  table_step P (op_new d (OpCreate random now params)) d (CreateJobRun random now params d).2.
Proof.
  unfold CreateJobRun. unfold mbind at 1, DB_bind at 1.
  pose proof (resolveTraceID_db (newJobRunID random) params d) as Hd.
  destruct (resolveTraceID (newJobRunID random) params d) as [[traceID|e] d'] eqn:Et; cbn [snd] in Hd; subst d';
    [|by apply table_step_same].
  apply encoded_step; [done|]. intros e.
  match goal with |- table_step _ _ _ (insert_row ?r _).2 => set (row := r) end.
  destruct (insert_row_cases row d) as [[err ->]|(Hno & Ha & ->)]; cbn [snd]; [by apply table_step_same|].
  intros k. cbn [job_runs]. destruct (decide (id row = k)) as [<-|Hne].
  - rewrite Hno, lookup_insert_eq. split_and!; [|done|].
    + unfold fresh_row. cbn in Ha |- *. split_and!; try done; lia.
    + exists random, now, params. done.
  - rewrite lookup_insert_ne by done. destruct (job_runs d !! k); [|done].
    exists EStay. split; [done|constructor].
Qed.

Lemma ClaimJobRun_cases skip now worker types d :
  keyed d ->
  (ClaimJobRun skip now worker types d = (Err ErrNotFound, d) /\
   forall key r, job_runs d !! key = Some r -> claimable now (not_empty_types types) r = true -> id r ∈ skip) \/
  (exists r, job_runs d !! id r = Some r /\ claimable now (not_empty_types types) r = true /\ id r ∉ skip /\
     (forall key r', job_runs d !! key = Some r' -> claimable now (not_empty_types types) r' = true ->
        id r' ∉ skip -> by_created r' r = false) /\
     ClaimJobRun skip now worker types d =
       (Ok (scanJobRun (claim_row worker now r)),
        mkDB (<[id r := claim_row worker now r]> (job_runs d)) (job_spill d))).
Proof.
  intros Hk. unfold ClaimJobRun.
  destruct (select _ by_created d) as [|r l] eqn:E.
  - left. split; [done|]. intros key r Hr Hc. destruct (decide (id r ∈ skip)); [done|]. exfalso.
    assert (r ∈ @nil JobRow) as Hin; [|by apply elem_of_nil in Hin].
    rewrite <- E. apply elem_of_select. split; [|by exists key].
    rewrite Hc. by rewrite bool_decide_true.
  - right. pose proof E as E'. apply select_first in E' as (Hp & (key & Hr) & Hmin).
    apply andb_true_iff in Hp as [Hc Hs]. apply bool_decide_eq_true in Hs.
    pose proof (Hk key r Hr) as Hid. cbn in Hid. subst key.
    exists r. split_and!; try done.
    + intros key' r' Hr' Hc' Hs'. apply (Hmin key' r' Hr'). rewrite Hc'. by rewrite bool_decide_true.
    + unfold update_row. by rewrite Hr.
Qed.

Lemma op_event_stay key o : op_event key o EStay.
Proof. by destruct o. Qed.

(** The statement behind [SucceedJobRun]: the row, then the spilled keys. *)
Lemma SucceedJobRun_cases now key p d :
  (exists r e, job_runs d !! key = Some r /\ encodeJobRunPayload p = Some e /\
     SucceedJobRun now key p d =
       (Ok (scanJobRun (succeed_row now e r)),
        mkDB (<[key := succeed_row now e r]> (job_runs d)) (filter (fun s => s.1 <> key) (job_spill d)))) \/
  ((job_runs d !! key = None \/ encodeJobRunPayload p = None) /\
   exists err, SucceedJobRun now key p d = (Err err, d)).
Proof.
  unfold SucceedJobRun, mbind, DB_bind.
  destruct (encoded_cases p d) as [(e & He & ->)|[He [err ->]]]; [|eauto].
  destruct (update_row_cases key (fun _ => true) (succeed_row now e) d) as [(r & Hr & _ & ->)|[Hno ->]].
  - left. by exists r, e.
  - right. split; [|eauto]. left. destruct (job_runs d !! key) as [r|]; [|done].
    by specialize (Hno r eq_refl).
Qed.

Lemma ResumeJobRun_cases now key d :
  keyed d ->
  (exists r, job_runs d !! key = Some r /\ stopped (state r) = true /\ key <> "" /\
     ResumeJobRun now key d =
       (Ok (scanJobRun (resume_row now r)),
        update_where (fun c => stopped (state c) &&
            (String.eqb (id c) key || (String.eqb key (trace_id r) && String.eqb (trace_id c) key)))
          (resume_row now) d)) \/
  (exists err, ResumeJobRun now key d = (Err err, d)).
Proof.
  intros Hk. unfold ResumeJobRun. destruct (String.eqb_spec key "") as [->|Hne]; [right; eexists; done|].
  destruct (job_runs d !! key) as [r|] eqn:Hr; [|right; eauto].
  destruct (stopped (state r)) eqn:Hs; [|right; eauto]. left. exists r. split_and!; try done.
  f_equal. unfold update_where. f_equal. apply map_fmap_ext. intros k c Hc.
  pose proof (Hk k c Hc) as Hid. pose proof (Hk key r Hr) as Hid'. cbn in Hid, Hid'. rewrite Hid, Hid'.
  destruct (String.eqb_spec k key) as [->|].
  - assert (c = r) as -> by congruence. by rewrite Hs.
  - destruct (String.eqb_spec key (trace_id r)) as [<-|]; cbn; [|by rewrite andb_false_r].
    by rewrite (andb_comm (stopped _)).
Qed.

(** Every statement refines the state machine of the rows. *)
Lemma op_step o d : keyed d -> table_step (fun key e => op_event key o e) (op_new d o) d (run_op o d).
Proof.
  intros Hk. pose proof (fun key => op_event_stay key o) as Hstay.
  destruct o as [random now params|skip now worker types|now key p|now key p|now key message at_|now key message
    |interval skip now staleAfter limit|now key|now ty tid|now key res p|key keys|key]; cbn [run_op].
  - by apply CreateJobRun_step.
  - destruct (ClaimJobRun_cases skip now worker types d Hk) as [[-> _]|(r & Hr & Hc & _ & _ & ->)];
      cbn [snd]; [by apply table_step_same|].
    pose proof (update_row_step (fun key e => op_event key (OpClaim skip now worker types) e)
      (op_new d (OpClaim skip now worker types)) Hstay
      (id r) (fun _ => true) (claim_row worker now) d) as H.
    unfold update_row in H. rewrite Hr in H. apply H. intros r' [= <-] _. exists EClaim. split; [done|].
    constructor. unfold claimable in Hc. destruct (decide (state r = Pending)); [done|].
    by rewrite bool_decide_false in Hc.
  - apply encoded_step; [done|]. intros e. apply update_row_step; [done|]. intros r _ _.
    exists EProgress. split; [done|]. constructor.
  - destruct (SucceedJobRun_cases now key p d) as [(r & e & Hr & _ & ->)|[_ [err ->]]]; cbn [snd];
      [|by apply table_step_same].
    pose proof (update_row_step (fun key' e => op_event key' (OpSucceed now key p) e)
      (op_new d (OpSucceed now key p)) Hstay
      key (fun _ => true) (succeed_row now e) d) as H.
    unfold update_row in H. rewrite Hr in H. apply H. intros r' _ _. exists ESucceed. split; [done|constructor].
  - apply update_row_step; [done|]. intros r _ Hp. exists ERetry. split; [done|]. constructor. lia.
  - apply update_row_step; [done|]. intros r _ _. exists EFail. split; [done|]. constructor.
  - cbn [ReclaimStaleLockedJobs snd]. apply table_step_where; [done|]. intros k r _ _.
    exists EFail. split; [done|constructor].
  - destruct (ResumeJobRun_cases now key d Hk) as [(r & Hr & Hs & _ & ->)|[err ->]]; cbn [snd];
      [|by apply table_step_same].
    apply table_step_where; [done|]. intros k c Hc Hp. apply andb_true_iff in Hp as [Hp _].
    exists EResume. split; [done|]. by constructor.
  - unfold FailActiveScanJobsForTarget, with_target.
    destruct (String.eqb ty ""); [by apply table_step_same|]. destruct (String.eqb tid ""); [by apply table_step_same|].
    apply table_step_where; [done|]. intros k r _ _. exists EFail. split; [done|constructor].
  - apply encoded_step; [done|]. intros e. apply encoded_step; [done|]. intros e'.
    apply update_row_step; [done|]. intros r _ Hp. exists EAwait. split; [done|]. constructor.
    by apply bool_decide_eq_true in Hp.
  - apply table_step_same; [done|]. unfold InsertKeys. by repeat case_match.
  - apply table_step_same; [done|]. unfold DeleteForJobRun. by case_match.
Qed.

(** ** Invariants *)

(** What every row satisfies. *)
Record row_ok (r : JobRow) : Prop := {
  ok_lock : locked_by r = None <-> locked_at r = None;
  ok_locked_running : is_Some (locked_by r) -> state r = Running;
  ok_started : state r = Running -> is_Some (started_at r);
  ok_finished : active (state r) = false -> is_Some (finished_at r);
  ok_attempts : 1 <= attempt r <= max_attempts r;
  ok_succeeded : state r = Succeeded -> error_message r = None;
  ok_failed : state r = Failed -> is_Some (error_message r);
  ok_not_cancelled : state r <> Cancelled
}.

Lemma row_step_ok e r r' : row_step e r r' -> row_ok r -> row_ok r'.
Proof.
  intros Hs [H1 H2 H3 H4 H5 H6 H7 H8].
  inversion Hs; subst; constructor; cbn; try done; try lia; eauto.
  all: try (intros [? ?]; done).
  all: try (rewrite H; done).
Qed.

Lemma fresh_row_ok r : fresh_row r -> row_ok r.
Proof.
  intros (H1 & H2 & H3 & H4 & H5 & H6 & H7 & H8). constructor; rewrite ?H1, ?H2, ?H4, ?H5, ?H7, ?H8;
    try done; try lia.
Qed.

(** The columns no statement changes. *)
Definition identity_of (r : JobRow) :=
  (id r, trace_id r, type_ r, (requested_by_type r, requested_by_id r), (target_type r, target_id r),
   input r, max_attempts r, created_at r).

Lemma row_step_identity e r r' : row_step e r r' -> identity_of r' = identity_of r.
Proof. by inversion 1. Qed.

Lemma table_step_keyed P N d d' : table_step P N d d' -> keyed d -> keyed d'.
Proof.
  intros Hs Hk key r Hr. specialize (Hs key). rewrite Hr in Hs.
  destruct (job_runs d !! key) as [r0|] eqn:E; [|by destruct Hs as (_ & ? & _)].
  destruct Hs as (e & _ & Hs). apply row_step_identity in Hs. injection Hs as -> _. by apply Hk.
Qed.


(** The traces: a job requested by a job is in the trace of that job. *)
Definition lineage (d : db) : Prop :=
  forall key r parent, job_runs d !! key = Some r ->
    requested_by_type r = Some "job" -> requested_by_id r = Some parent ->
    exists p, job_runs d !! parent = Some p /\ trace_id p = trace_id r.

(** The spilled keys belong to job runs that exist. *)
Definition spill_ok (d : db) : Prop :=
  forall key k, (key, k) ∈ job_spill d -> is_Some (job_runs d !! key).

Lemma nullableString_Some s v : nullableString s = Some v -> s = v /\ v <> "".
Proof. unfold nullableString. destruct (String.eqb_spec s ""); [done|]. by intros [= ->]. Qed.

Lemma resolveTraceID_parent key params d traceID :
  cRequestedByType params = "job" -> cRequestedByID params <> "" ->
  resolveTraceID key params d = (Ok traceID, d) ->
  exists p, job_runs d !! cRequestedByID params = Some p /\ trace_id p = traceID.
Proof.
  intros Ht Hid. unfold resolveTraceID. rewrite Ht. rewrite String.eqb_refl.
  destruct (String.eqb_spec (cRequestedByID params) ""); [done|]. cbn [andb negb].
  unfold mbind, DB_bind, wrap_db, GetJobRun. destruct (job_runs d !! _) as [p|]; [|done].
  destruct (String.eqb _ _); [done|]. intros [= <-]. eauto.
Qed.

Lemma op_step_lookup o d key r :
  keyed d -> job_runs d !! key = Some r ->
  exists e r', job_runs (run_op o d) !! key = Some r' /\ op_event key o e /\ row_step e r r'.
Proof.
  intros Hk Hr. pose proof (op_step o d Hk key) as Hs. rewrite Hr in Hs.
  destruct (job_runs (run_op o d) !! key) as [r'|]; [|done]. destruct Hs as (e & ? & ?). eauto.
Qed.

Lemma op_step_lineage o d : keyed d -> lineage d -> lineage (run_op o d).
Proof.
  intros Hk Hl key r parent Hr Ht Hp. pose proof (op_step o d Hk key) as Hs. rewrite Hr in Hs.
  assert (exists p, job_runs d !! parent = Some p /\ trace_id p = trace_id r) as (p & Hpar & Htr).
  { destruct (job_runs d !! key) as [r0|] eqn:E.
    - destruct Hs as (e & _ & Hs). apply row_step_identity in Hs. injection Hs as _ Htr _ H1 H2 _ _ _ _ _.
      rewrite Htr. apply (Hl key r0); congruence.
    - destruct Hs as (_ & _ & random & now & params & _ & _ & Hres & H1 & H2).
      rewrite H1 in Ht. rewrite H2 in Hp. apply nullableString_Some in Ht as [Ht _], Hp as [Hp Hne].
      subst parent. by apply (resolveTraceID_parent key params d (trace_id r)). }
  destruct (op_step_lookup o d parent p Hk Hpar) as (e & p' & Hp' & _ & Hstep).
  apply row_step_identity in Hstep. injection Hstep as _ Htr' _ _ _ _ _ _ _ _.
  exists p'. split; [done|]. congruence.
Qed.

(** Computations that add no spilled key. *)
Definition keeps_spill {A} (m : DB A) : Prop := forall d, job_spill (m d).2 ⊆ job_spill d.

Create HintDb spill.

Lemma keeps_ret {A} (a : A) : keeps_spill (mret a : DB A).
Proof. by intros d. Qed.
Lemma keeps_throw {A} e : keeps_spill (throw e : DB A).
Proof. by intros d. Qed.
Lemma keeps_bind {A B} (m : DB A) (f : A -> DB B) :
  keeps_spill m -> (forall a, keeps_spill (f a)) -> keeps_spill (m ≫= f).
Proof.
  intros Hm Hf d. unfold mbind, DB_bind. specialize (Hm d). destruct (m d) as [[a|e] d']; [|done].
  cbn in Hm. specialize (Hf a d'). set_solver.
Qed.
Lemma keeps_encoded p : keeps_spill (encoded p).
Proof. intros d. unfold encoded. by destruct (encodeJobRunPayload p). Qed.
Lemma keeps_update_row key p f : keeps_spill (update_row key p f).
Proof. intros d. by destruct (update_row_cases key p f d) as [(r & _ & _ & ->)|[_ ->]]. Qed.
Lemma keeps_resolve key params : keeps_spill (resolveTraceID key params).
Proof. intros d. by rewrite resolveTraceID_db. Qed.
Lemma keeps_insert_row r : keeps_spill (insert_row r).
Proof. intros d. by destruct (insert_row_cases r d) as [[e ->]|(_ & _ & ->)]. Qed.
Lemma keeps_clear_spill key : keeps_spill (clear_spill key).
Proof. intros d. unfold clear_spill. cbn. set_solver. Qed.
#[export] Hint Resolve keeps_ret keeps_throw keeps_bind keeps_encoded keeps_update_row keeps_resolve
  keeps_insert_row keeps_clear_spill : spill.

Lemma keeps_create random now params : keeps_spill (CreateJobRun random now params).
Proof. unfold CreateJobRun. auto 10 with spill. Qed.
Lemma keeps_claim skip now worker types : keeps_spill (ClaimJobRun skip now worker types).
Proof. intros d. unfold ClaimJobRun. destruct (select _ _ _); [done|apply keeps_update_row]. Qed.
Lemma keeps_resume now key : keeps_spill (ResumeJobRun now key).
Proof.
  unfold ResumeJobRun. destruct (String.eqb key ""); [auto with spill|]. intros d.
  destruct (job_runs d !! key) as [r|]; [|done]. by destruct (stopped (state r)).
Qed.
Lemma keeps_fail_scans now ty tid : keeps_spill (FailActiveScanJobsForTarget now ty tid).
Proof. unfold FailActiveScanJobsForTarget, with_target. intros d. by repeat case_match. Qed.

Lemma op_keeps_spill o d :
  (forall key keys, o <> OpInsertKeys key keys) -> job_spill (run_op o d) ⊆ job_spill d.
Proof.
  intros Ho. destruct o; cbn [run_op].
  - apply keeps_create.
  - apply keeps_claim.
  - unfold UpdateJobRunProgress. apply keeps_bind; auto with spill.
  - unfold SucceedJobRun. apply keeps_bind; auto with spill.
  - apply keeps_update_row.
  - apply keeps_update_row.
  - done.
  - apply keeps_resume.
  - apply keeps_fail_scans.
  - unfold AwaitJobRunChildren. apply keeps_bind; auto with spill.
  - by specialize (Ho key keys).
  - unfold DeleteForJobRun. destruct (String.eqb key ""); auto with spill. apply keeps_clear_spill.
Qed.

Lemma op_step_spill o d : keyed d -> spill_ok d -> spill_ok (run_op o d).
Proof.
  intros Hk Hs key k Hin.
  assert (is_Some (job_runs d !! key)) as [r Hr].
  { destruct o; try (apply (Hs key k); revert Hin; apply op_keeps_spill; congruence).
    cbn [run_op] in Hin. unfold InsertKeys in Hin.
    destruct (String.eqb key0 ""); [by apply (Hs key k)|]. destruct (_ =? 0); [by apply (Hs key k)|].
    destruct (existsb blank keys); [by apply (Hs key k)|]. case_bool_decide as He; [|by apply (Hs key k)].
    cbn in Hin. apply elem_of_union in Hin as [Hin|Hin]; [|by apply (Hs key k)].
    apply elem_of_list_to_set, list_elem_of_In, in_map_iff in Hin as (? & [= <- <-] & _). done. }
  destruct (op_step_lookup o d key r Hk Hr) as (e & r' & -> & _). done.
Qed.

(** The well-formed databases. *)
Record db_ok (d : db) : Prop := {
  ok_keyed : keyed d;
  ok_rows : map_Forall (fun _ r => row_ok r) (job_runs d);
  ok_ids : map_Forall (fun key _ => key <> "") (job_runs d);
  ok_lineage : lineage d;
  ok_spill : spill_ok d
}.

Lemma empty_db_ok : db_ok empty_db.
Proof.
  constructor; [intros ??|intros ??|intros ??|intros ???|intros ??]; cbn; try (by rewrite lookup_empty).
Qed.

Lemma op_db_ok o d : db_ok d -> db_ok (run_op o d).
Proof.
  intros [Hk Hr Hi Hl Hs]. pose proof (op_step o d Hk) as Hstep. constructor.
  - by eapply table_step_keyed.
  - intros key r E. specialize (Hstep key). rewrite E in Hstep.
    destruct (job_runs d !! key) as [r0|] eqn:E0.
    + destruct Hstep as (e & _ & Hst). eapply row_step_ok; [done|]. by apply (Hr key).
    + apply fresh_row_ok, Hstep.
  - intros key r E. specialize (Hstep key). rewrite E in Hstep.
    destruct (job_runs d !! key) as [r0|] eqn:E0; [by apply (Hi key r0)|].
    destruct Hstep as (_ & _ & random & now & params & _ & -> & _). done.
  - by apply op_step_lineage.
  - by apply op_step_spill.
Qed.

Lemma run_ops_ok ops d : db_ok d -> db_ok (run_ops ops d).
Proof. revert d; induction ops as [|o ops IH]; intros d Hd; [done|]. apply IH. by apply op_db_ok. Qed.

Lemma reachable_ok d : reachable d -> db_ok d.
Proof. intros [ops ->]. apply run_ops_ok, empty_db_ok. Qed.

(** C11: in every database the store can produce, a locked row is running, a
    finished one has its time, attempts stay within 1..max_attempts, a failed row
    has its message, no row is cancelled, a child is in the trace of its parent,
    and the spilled keys belong to existing runs. *)
Theorem reachable_db_ok d : reachable d -> db_ok d.
Proof. apply reachable_ok. Qed.

(** ** Claims *)

(** ClaimJobRun takes the oldest job among the pending, due jobs of the
    requested types that no other transaction holds, makes it running and locked
    by the worker, and leaves every other row alone; it finds nothing exactly
    when every such job is held. *)
Theorem ClaimJobRun_oldest skip now worker types d :
  reachable d ->
  match ClaimJobRun skip now worker types d with
  | (Ok run, d') =>
      exists r, job_runs d !! ID run = Some r /\ claimable now (not_empty_types types) r = true /\
        ID run ∉ skip /\
        (forall key r', job_runs d !! key = Some r' -> claimable now (not_empty_types types) r' = true ->
           key ∉ skip -> created_at r < created_at r' \/
             (created_at r = created_at r' /\ String.le (ID run) key)) /\
        State run = Running /\ LockedBy run = worker /\ LockedAt run = Some now /\
        d' = mkDB (<[ID run := claim_row worker now r]> (job_runs d)) (job_spill d)
  | (Err e, d') => e = ErrNotFound /\ d' = d /\
      forall key r, job_runs d !! key = Some r -> claimable now (not_empty_types types) r = true -> key ∈ skip
  end.
Proof.
  intros Hreach. destruct (reachable_ok d Hreach) as [Hk _ _ _ _].
  destruct (ClaimJobRun_cases skip now worker types d Hk) as [[-> Hno]|(r & Hr & Hc & Hs & Hmin & ->)].
  - split_and!; [done..|]. intros key r Hr Hc. specialize (Hno key r Hr Hc).
    by rewrite (Hk key r Hr) in Hno.
  - exists r. split_and!; try done. intros key r' Hr' Hc' Hs'.
    assert (id r' = key) as Hid by (by apply Hk). subst key.
    specialize (Hmin (id r') r' Hr' Hc' Hs'). unfold by_created, lex_before in Hmin.
    apply orb_false_iff in Hmin as [H1 H2]. apply Z.ltb_ge in H1.
    destruct (Z.eqb_spec (created_at r') (created_at r)) as [Heq|]; cbn in H2.
    + right. split; [done|]. cbn. by apply string_ltb_le.
    + left. lia.
Qed.

(** Does the operation claim the job [key]? *)
Definition claims_now (key : string) (o : op) (d : db) : bool :=
  match o with
  | OpClaim skip now worker types =>
      match (ClaimJobRun skip now worker types d).1 with
      | Ok run => String.eqb (ID run) key
      | Err _ => false
      end
  | _ => false
  end.

(** Does the operation bring the stopped job [key] back to pending? *)
Definition resumes_now (key : string) (o : op) (d : db) : bool :=
  match o with
  | OpResume _ _ =>
      match job_runs d !! key, job_runs (run_op o d) !! key with
      | Some r, Some r' => stopped (state r) && bool_decide (state r' = Pending)
      | _, _ => false
      end
  | _ => false
  end.

(** How often an event happens while the operations run. *)
Fixpoint occurrences (f : op -> db -> bool) (ops : list op) (d : db) : Z :=
  match ops with
  | [] => 0
  | o :: ops => Z.b2z (f o d) + occurrences f ops (run_op o d)
  end.

Lemma claims_now_row key o d :
  keyed d -> claims_now key o d = true ->
  exists r r', job_runs d !! key = Some r /\ state r = Pending /\
    job_runs (run_op o d) !! key = Some r' /\ state r' = Running /\ attempt r' = attempt r.
Proof.
  intros Hk. destruct o; try done. cbn [claims_now run_op].
  destruct (ClaimJobRun_cases skip now worker types d Hk) as [[-> _]|(r & Hr & Hc & _ & _ & ->)]; [done|].
  cbn [fst snd]. intros Hid. apply String.eqb_eq in Hid. cbn in Hid. subst key.
  exists r, (claim_row worker now r). cbn [job_runs]. rewrite lookup_insert_eq. split_and!; try done.
  unfold claimable in Hc. destruct (decide (state r = Pending)); [done|]. by rewrite bool_decide_false in Hc.
Qed.

(** The executions a row has had or is waiting for. *)
Definition credit (d : db) (key : string) : Z :=
  match job_runs d !! key with
  | Some r => attempt r - (if decide (state r = Pending) then 1 else 0)
  | None => 0
  end.

Lemma credit_step key o d :
  keyed d ->
  credit d key + Z.b2z (claims_now key o d) <= credit (run_op o d) key + Z.b2z (resumes_now key o d).
Proof.
  intros Hk. destruct (claims_now key o d) eqn:Hc.
  - destruct (claims_now_row key o d Hk Hc) as (r & r' & Hr & Hp & Hr' & Hs & Ha).
    unfold credit. rewrite Hr, Hr', Hp, Hs, Ha.
    repeat destruct (decide _); try done. destruct (resumes_now key o d); cbn [Z.b2z]; lia.
  - pose proof (op_step o d Hk key) as Hs. unfold credit. cbn [Z.b2z].
    destruct (job_runs d !! key) as [r|] eqn:Hr.
    + destruct (job_runs (run_op o d) !! key) as [r'|] eqn:Hr'; [|done].
      destruct Hs as (e & Ho & Hs). destruct (decide (e = EResume)) as [->|Hne].
      * assert (resumes_now key o d = true) as ->.
        { destruct o; try done. unfold resumes_now. rewrite Hr, Hr'. inversion Hs; subst.
          rewrite H. done. }
        inversion Hs; subst. cbn. repeat destruct (decide _); try done; lia.
      * assert (0 <= Z.b2z (resumes_now key o d)) by (destruct (resumes_now key o d); cbn; lia).
        inversion Hs; subst; cbn; repeat destruct (decide _); try done; try lia.
    + assert (resumes_now key o d = false) as -> by (destruct o; cbn; by rewrite ?Hr).
      destruct (job_runs (run_op o d) !! key) as [r'|] eqn:Hr'; [|cbn; lia].
      destruct Hs as ((-> & -> & _) & _). destruct (decide (Pending = Pending)); [|done]. cbn. lia.
Qed.

Lemma credit_run key ops d :
  keyed d -> db_ok d ->
  credit d key + occurrences (claims_now key) ops d
  <= credit (run_ops ops d) key + occurrences (resumes_now key) ops d.
Proof.
  revert d; induction ops as [|o ops IH]; intros d Hk Hd; [cbn; lia|].
  cbn [occurrences]. change (run_ops (o :: ops) d) with (run_ops ops (run_op o d)).
  pose proof (credit_step key o d Hk). pose proof (op_db_ok o d Hd) as Hd'.
  specialize (IH (run_op o d) (ok_keyed _ Hd') Hd'). lia.
Qed.

(** C12: a job is executed at most max_attempts times, plus once for every time it
    is resumed after it stopped; with no resume its claims never exceed its
    attempt number. *)
Theorem executions_bounded key ops r :
  job_runs (run_ops ops empty_db) !! key = Some r ->
  occurrences (claims_now key) ops empty_db
    <= attempt r + occurrences (resumes_now key) ops empty_db /\
  occurrences (claims_now key) ops empty_db
    <= max_attempts r + occurrences (resumes_now key) ops empty_db.
Proof.
  intros Hr. pose proof (credit_run key ops empty_db (ok_keyed _ empty_db_ok) empty_db_ok) as H.
  unfold credit in H at 2. rewrite Hr in H. unfold credit in H. cbn [empty_db job_runs] in H. rewrite lookup_empty in H.
  destruct (run_ops_ok ops _ empty_db_ok) as [_ Hrows _ _ _].
  pose proof (ok_attempts _ (Hrows key r Hr)). destruct (decide _); lia.
Qed.

(** The operations that may make the job [key] of the trace [trace] pending again. *)
Definition requeues (key trace : string) (o : op) : bool :=
  match o with
  | OpRetry _ k _ _ => String.eqb k key
  | OpResume _ k => String.eqb k key || String.eqb k trace
  | _ => false
  end.

Lemma not_requeued key o d r :
  keyed d -> job_runs d !! key = Some r -> state r <> Pending ->
  requeues key (trace_id r) o = false ->
  exists r', job_runs (run_op o d) !! key = Some r' /\ state r' <> Pending /\ trace_id r' = trace_id r.
Proof.
  intros Hk Hr Hst Hq. destruct (op_step_lookup o d key r Hk Hr) as (e & r' & Hr' & Ho & Hs).
  exists r'. split; [done|]. split; [|by apply row_step_identity in Hs; injection Hs].
  inversion Hs; subst; try done.
  - destruct o; try done. cbn in Ho, Hq. subst. by rewrite String.eqb_refl in Hq.
  - destruct o; try done. cbn [run_op] in Hr'. cbn in Hq.
    destruct (ResumeJobRun_cases now0 key0 d Hk) as [(r0 & Hr0 & _ & _ & E)|[err E]]; rewrite E in Hr'; cbn [snd] in Hr';
      [|congruence].
    rewrite lookup_update_where, Hr in Hr'. cbn in Hr'. injection Hr' as Hr'.
    pose proof (Hk key r Hr) as Hid. cbn in Hid. rewrite Hid in Hr'.
    apply orb_false_iff in Hq as [Hq1 Hq2]. rewrite (String.eqb_sym key), Hq1 in Hr'.
    rewrite (String.eqb_sym (trace_id r)), Hq2 in Hr'. rewrite andb_false_r in Hr'. cbn in Hr'.
    rewrite andb_false_r in Hr'. congruence.
Qed.

(** C13: once a worker has claimed a job, no worker claims it again until it is
    retried, or resumed by itself or with its trace. *)
Theorem claim_exclusive skip now worker types d run d' ops :
  reachable d -> ClaimJobRun skip now worker types d = (Ok run, d') ->
  Forall (fun o => requeues (ID run) (TraceID run) o = false) ops ->
  occurrences (claims_now (ID run)) ops d' = 0.
Proof.
  intros Hreach E Hq. destruct (reachable_ok d Hreach) as [Hk _ _ _ _].
  pose proof (op_db_ok (OpClaim skip now worker types) d (reachable_ok d Hreach)) as Hd'.
  cbn [run_op] in Hd'. rewrite E in Hd'. cbn [snd] in Hd'.
  destruct (ClaimJobRun_cases skip now worker types d Hk) as [[E' _]|(r & Hr & _ & _ & _ & E')];
    rewrite E in E'; [done|]. injection E' as -> ->.
  assert (exists r', job_runs (mkDB (<[id r:=claim_row worker now r]> (job_runs d)) (job_spill d)) !! id r = Some r' /\
    state r' <> Pending /\ trace_id r' = trace_id r) as Hrow.
  { exists (claim_row worker now r). cbn [job_runs]. by rewrite lookup_insert_eq. }
  cbn [ID TraceID scanJobRun claim_row pipe set_updated_at set_started_at set_lock set_state id trace_id] in *.
  clear E Hreach Hk Hr. revert Hd' Hrow. generalize (mkDB (<[id r:=claim_row worker now r]> (job_runs d)) (job_spill d)).
  induction Hq as [|o ops Ho Hq IH]; intros e He (r' & Hr' & Hst & Htr); [done|].
  cbn [occurrences]. rewrite <- Htr in Ho.
  destruct (not_requeued (id r) o e r' (ok_keyed _ He) Hr' Hst Ho) as (r'' & Hr'' & Hst' & Htr').
  rewrite (IH (run_op o e)); [|by apply op_db_ok|exists r''; split_and!; congruence].
  destruct (claims_now (id r) o e) eqn:Ec; [|done].
  destruct (claims_now_row (id r) o e (ok_keyed _ He) Ec) as (r0 & _ & Hr0 & Hp & _). congruence.
Qed.

(** ** Reclaiming and resuming *)

Lemma elem_of_ids_of key l : key ∈ ids_of l <-> exists r, r ∈ l /\ id r = key.
Proof.
  unfold ids_of. rewrite elem_of_list_to_set, list_elem_of_In, in_map_iff. setoid_rewrite <- list_elem_of_In.
  firstorder.
Qed.

Lemma elem_of_firstn {A} n (l : list A) x : x ∈ firstn n l -> x ∈ l.
Proof. intros H. rewrite <- (take_drop n l). apply elem_of_app. by left. Qed.

(** ReclaimStaleLockedJobs fails only jobs that a worker holds and that made no
    progress for the timeout, at most the limit (100 by default), with the message
    of the timeout; every other row is unchanged: the jobs that await children,
    which hold no lock, are never reclaimed. *)
Theorem ReclaimStaleLockedJobs_spec interval skip now staleAfter limit d :
  reachable d ->
  let '(res, d') := ReclaimStaleLockedJobs interval skip now staleAfter limit d in
  exists n, res = Ok n /\ 0 <= n <= (if limit <=? 0 then 100 else limit) /\
  forall key r, job_runs d !! key = Some r ->
    job_runs d' !! key = Some r \/
    (state r = Running /\ is_Some (locked_by r) /\ key ∉ skip /\
     updated_at r < now - interval (ResolveJobStaleTimeout staleAfter) /\
     job_runs d' !! key = Some (fail_row now staleLockedJobErrorMessage r)).
Proof.
  intros Hreach. destruct (reachable_ok d Hreach) as [Hk _ _ _ _].
  unfold ReclaimStaleLockedJobs. set (lim := if limit <=? 0 then 100 else limit).
  match goal with |- context [firstn _ ?l] => set (sel := l) end.
  eexists. split; [reflexivity|]. assert (0 < lim) by (unfold lim; destruct (Z.leb_spec limit 0); lia). split.
  - rewrite length_firstn. lia.
  - intros key r Hr. rewrite lookup_update_where, Hr. cbn. case_bool_decide as Hin; [right|by left].
    apply elem_of_ids_of in Hin as (r' & Hin & Hid). apply elem_of_firstn, elem_of_select in Hin as [Hp (k & Hr')].
    pose proof (Hk k r' Hr') as E1. pose proof (Hk key r Hr) as E2. cbn in E1, E2.
    assert (r' = r) as -> by congruence. apply andb_true_iff in Hp as [Hst Hs].
    apply bool_decide_eq_true in Hs. unfold stale in Hst. rewrite !andb_true_iff, !bool_decide_eq_true in Hst.
    destruct Hst as [[? ?] ?]. rewrite E2 in Hs. split_and!; try done. lia.
Qed.

(** ResumeJobRun makes a stopped job pending again, and, when it is the root of
    its trace, every stopped job of the trace with it; nothing else changes, and a
    job that is not stopped is not found. *)
Theorem ResumeJobRun_spec now key d :
  reachable d ->
  match ResumeJobRun now key d with
  | (Ok run, d') =>
      ID run = key /\ State run = Pending /\
      exists r, job_runs d !! key = Some r /\ stopped (state r) = true /\
      job_spill d' = job_spill d /\
      forall k c, job_runs d !! k = Some c ->
        job_runs d' !! k =
          Some (if stopped (state c) && (String.eqb k key || (IsRootJob run && String.eqb (trace_id c) key))
                then resume_row now c else c)
  | (Err e, d') =>
      d' = d /\ forall r, job_runs d !! key = Some r -> key <> "" -> stopped (state r) = false
  end.
Proof.
  intros Hreach. destruct (reachable_ok d Hreach) as [Hk _ _ _ _].
  destruct (ResumeJobRun_cases now key d Hk) as [(r & Hr & Hs & Hne & E)|[err E]]; rewrite E.
  - pose proof (Hk key r Hr) as Hid. cbn in Hid. split_and!; [done|done|].
    exists r. split_and!; try done. intros k c Hc. rewrite lookup_update_where, Hc. cbn.
    pose proof (Hk k c Hc) as Hidc. cbn in Hidc. unfold IsRootJob. cbn. rewrite Hid, Hidc.
    by destruct (_ && _).
  - split; [done|]. intros r Hr Hne. unfold ResumeJobRun in E.
    destruct (String.eqb_spec key ""); [done|]. cbv beta in E. rewrite Hr in E.
    by destruct (stopped (state r)).
Qed.

(** SucceedJobRun, FailJobRun and RetryJobRun look at neither the state nor the
    lock of the row: a worker whose job was reclaimed and claimed again by another
    worker still ends it, and takes the lock away from that worker. *)
Theorem ends_without_owner now key p message r d :
  reachable d -> job_runs d !! key = Some r ->
  (is_Some (encodeJobRunPayload p) ->
     exists run d', SucceedJobRun now key p d = (Ok run, d') /\ State run = Succeeded /\ LockedBy run = "") /\
  (exists run d', FailJobRun now key message d = (Ok run, d') /\ State run = Failed /\ LockedBy run = "") /\
  (attempt r < max_attempts r ->
     exists run d', RetryJobRun now key message None d = (Ok run, d') /\ State run = Pending /\ LockedBy run = "" /\
       FinishedAt run = finished_at r).
Proof.
  intros _ Hr. split_and!.
  - intros [e He]. destruct (SucceedJobRun_cases now key p d) as [(r0 & e0 & _ & _ & ->)|[[?|?] _]]; [|congruence..].
    eexists _, _. done.
  - unfold FailJobRun, update_row. rewrite Hr. eexists _, _. done.
  - intros Ha. unfold RetryJobRun, update_row. rewrite Hr. apply Z.ltb_lt in Ha. rewrite Ha. eexists _, _. done.
Qed.

(** ** Witnesses: a database with one job of two attempts *)

Definition demo_params : CreateJobRunParams := mkCreate "sync_bucket" "" "" "" "bucket" "b1" ∅ 2 None.
Definition demo_ops : list op := [OpCreate [1] 10 demo_params].
Definition demo_db : db := run_ops demo_ops empty_db.
Definition demo_claim : op := OpClaim ∅ 20 "w1" [].
Definition demo_running : db := run_ops (demo_ops ++ [demo_claim]) empty_db.
Definition demo_failed : db := run_ops (demo_ops ++ [demo_claim; OpFail 30 "jobrun_01" "boom"]) empty_db.

Lemma reachable_db_ok_witness : db_ok demo_db.
Proof. apply reachable_db_ok. by exists demo_ops. Defined.

Lemma ClaimJobRun_oldest_witness :
  exists run d', ClaimJobRun ∅ 20 "w1" [] demo_db = (Ok run, d') /\ State run = Running /\ LockedBy run = "w1".
Proof.
  pose proof (ClaimJobRun_oldest ∅ 20 "w1" [] demo_db ltac:(by exists demo_ops)) as H.
  destruct (ClaimJobRun ∅ 20 "w1" [] demo_db) as [[run|e] d'] eqn:E.
  - clear E. destruct H as (r & _ & _ & _ & _ & Hs & Hl & _). exact (ex_intro _ run (ex_intro _ d' (conj eq_refl (conj Hs Hl)))).
  - exfalso. apply (f_equal (fun x => is_ok x.1)) in E. vm_compute in E. discriminate.
Defined.

Lemma executions_bounded_witness :
  exists r, job_runs demo_failed !! "jobrun_01" = Some r /\
    occurrences (claims_now "jobrun_01") (demo_ops ++ [demo_claim; OpFail 30 "jobrun_01" "boom"]) empty_db
      <= attempt r + occurrences (resumes_now "jobrun_01") (demo_ops ++ [demo_claim; OpFail 30 "jobrun_01" "boom"]) empty_db.
Proof.
  destruct (job_runs demo_failed !! "jobrun_01") as [r|] eqn:E.
  - exists r. split; [reflexivity|].
    exact (proj1 (executions_bounded "jobrun_01" (demo_ops ++ [demo_claim; OpFail 30 "jobrun_01" "boom"]) r E)).
  - exfalso. apply (f_equal (fun x => bool_decide (x = None))) in E. revert E. vm_compute. discriminate.
Defined.

Lemma claim_exclusive_witness :
  exists run d', ClaimJobRun ∅ 20 "w1" [] demo_db = (Ok run, d') /\
    occurrences (claims_now (ID run)) [OpClaim ∅ 21 "w2" []; OpFail 22 "jobrun_02" "other"] d' = 0.
Proof.
  destruct (ClaimJobRun ∅ 20 "w1" [] demo_db) as [[run|e] d'] eqn:E.
  - exists run, d'. split; [reflexivity|].
    apply (claim_exclusive ∅ 20 "w1" [] demo_db run d'); [by exists demo_ops|exact E|].
    clear E. repeat constructor.
  - exfalso. apply (f_equal (fun x => is_ok x.1)) in E. vm_compute in E. discriminate.
Defined.

Lemma ReclaimStaleLockedJobs_spec_witness :
  let '(res, d') := ReclaimStaleLockedJobs (fun ns => ns / 1000) ∅ 2000000000 1000000 0 demo_running in
  exists n, res = Ok n /\ 0 <= n <= 100.
Proof.
  pose proof (ReclaimStaleLockedJobs_spec (fun ns => ns / 1000) ∅ 2000000000 1000000 0 demo_running
    ltac:(by eexists)) as H.
  destruct (ReclaimStaleLockedJobs _ _ _ _ _ demo_running) as [res d']. destruct H as (n & E & Hn & _). exact (ex_intro _ n (conj E Hn)).
Defined.

Lemma ResumeJobRun_spec_witness :
  exists run d', ResumeJobRun 40 "jobrun_01" demo_failed = (Ok run, d') /\ State run = Pending.
Proof.
  pose proof (ResumeJobRun_spec 40 "jobrun_01" demo_failed ltac:(by eexists)) as H.
  destruct (ResumeJobRun 40 "jobrun_01" demo_failed) as [[run|e] d'] eqn:E.
  - clear E. destruct H as (_ & Hs & _). exact (ex_intro _ run (ex_intro _ d' (conj eq_refl Hs))).
  - exfalso. apply (f_equal (fun x => is_ok x.1)) in E. vm_compute in E. discriminate.
Defined.

Lemma ends_without_owner_witness :
  exists run d', FailJobRun 50 "jobrun_01" "late" demo_running = (Ok run, d') /\ State run = Failed.
Proof.
  destruct (job_runs demo_running !! "jobrun_01") as [r|] eqn:E.
  - destruct (ends_without_owner 50 "jobrun_01" ∅ "late" r demo_running ltac:(by eexists) E)
      as (_ & (run & d' & Hf & Hs & _) & _). exact (ex_intro _ run (ex_intro _ d' (conj Hf Hs))).
  - exfalso. apply (f_equal (fun x => bool_decide (x = None))) in E. revert E. vm_compute. discriminate.
Defined.
