(* ===== verification/JobTraceProofs.v ===== *)
(** * JobTraceProofs

    The counters of a trace summary, and the completion of the jobs that await
    their children. *)
From S2P Require Import Prelude GoStrings GoFloat JobPayload JobRuns JobTrace JobRunProofs.
Local Open Scope Z_scope.

(** ** Grouping *)

Definition of_type (ty : string) (r : JobRow) : bool := String.eqb (type_ r) ty.
Definition in_state (st : JobRunState) (r : JobRow) : bool := bool_decide (state r = st).

(** The sum over groups of the counts selected by [p]. *)
Fixpoint group_sum (p : string -> JobRunState -> bool) (g : list (string * JobRunState * Z)) : Z :=
  match g with
  | [] => 0
  | (ty, st, n) :: g => (if p ty st then n else 0) + group_sum p g
  end.

Lemma group_sum_app p g g' : group_sum p (g ++ g') = group_sum p g + group_sum p g'.
Proof. induction g as [|[[ty st] n] g IH]; cbn; [done|]. rewrite IH. lia. Qed.

Lemma group_sum_filter p g :
  Forall (fun x => 0 <= x.2) g -> group_sum p (List.filter (fun x => 0 <? x.2) g) = group_sum p g.
Proof.
  induction 1 as [|[[ty st] n] g Hn Hg IH]; cbn; [done|]. cbn in Hn.
  destruct (Z.ltb_spec 0 n); cbn; rewrite IH; [done|]. destruct (p ty st); lia.
Qed.

Lemma count_rows_nonneg p l : 0 <= count_rows p l.
Proof. unfold count_rows. lia. Qed.

Lemma count_rows_cons p r l : count_rows p (r :: l) = Z.b2z (p r) + count_rows p l.
Proof. unfold count_rows. cbn. destruct (p r); cbn [List.length Z.b2z]; lia. Qed.

(** The five groups of a type hold its rows. *)
Definition type_groups (l : list JobRow) (ty : string) : list (string * JobRunState * Z) :=
  map (fun st => (ty, st, count_rows (fun r => String.eqb (type_ r) ty && bool_decide (state r = st)) l)) all_states.

Lemma count_rows_ext p q l : (forall r, r ∈ l -> p r = q r) -> count_rows p l = count_rows q l.
Proof.
  intros H. unfold count_rows. do 2 f_equal. induction l as [|r l IH]; cbn; [done|].
  rewrite H by left. rewrite IH; [done|]. intros r' Hr'. apply H. by right.
Qed.

Lemma type_groups_sum p l ty :
  group_sum p (type_groups l ty) = count_rows (fun r => of_type ty r && p ty (state r)) l.
Proof.
  unfold type_groups. cbn. induction l as [|r l IH].
  - unfold count_rows. cbn. repeat destruct (p _ _); done.
  - rewrite !count_rows_cons. rewrite <- IH. unfold of_type.
    destruct (String.eqb (type_ r) ty); cbn [andb Z.b2z]; [|done].
    destruct (state r); repeat case_bool_decide; try done; cbn [Z.b2z]; repeat destruct (p ty _); cbn [Z.b2z]; lia.
Qed.

(** The sum over all groups is a count over the rows. *)
Lemma group_rows_sum p l : group_sum p (group_rows l) = count_rows (fun r => p (type_ r) (state r)) l.
Proof.
  unfold group_rows. change (fun ty => map _ all_states) with (type_groups l).
  rewrite group_sum_filter.
  2:{ apply list.Forall_forall. intros x Hx. apply elem_of_concat_map in Hx as (ty & _ & Hx).
      apply list_elem_of_In, in_map_iff in Hx as (st & <- & _). apply count_rows_nonneg. }
  assert (forall tys, NoDup tys ->
    group_sum p (List.concat (map (type_groups l) tys))
    = count_rows (fun r => bool_decide (type_ r ∈ tys) && p (type_ r) (state r)) l) as H.
  { induction 1 as [|ty tys Hty Htys IH]; cbn [map List.concat].
    - unfold count_rows. clear. induction l as [|r l IH]; [done|]. done.
    - rewrite group_sum_app, IH, type_groups_sum. clear IH Htys. induction l as [|r l IH]; [done|].
      rewrite !count_rows_cons, <- IH. unfold of_type. destruct (String.eqb_spec (type_ r) ty) as [->|Hne].
      + rewrite (bool_decide_false _ Hty), bool_decide_true by left. cbn. lia.
      + destruct (decide (type_ r ∈ tys)) as [Hin|Hin].
        * rewrite !bool_decide_true by (done || by right). cbn. lia.
        * rewrite !bool_decide_false; [cbn; lia| |done]. by intros [?|?]%elem_of_cons. }
  rewrite H by apply NoDup_remove_dups. apply count_rows_ext. intros r Hr.
  rewrite bool_decide_true; [done|]. rewrite elem_of_remove_dups.
  apply list_elem_of_In in Hr. by apply list_elem_of_In, (in_map type_).
Qed.

(** What a fold that adds counts to one field computes. *)
Lemma fold_groups {T : Type} (f : T -> string * JobRunState * Z -> T) (field : T -> Z)
    (p : string -> JobRunState -> bool) g s :
  (forall (s : T) (ty : string) (st : JobRunState) (n : Z), field (f s (ty, st, n)) = field s + (if p ty st then n else 0)) ->
  field (fold_left f g s) = field s + group_sum p g.
Proof.
  intros Hf. revert s; induction g as [|[[ty st] n] g IH]; intros s; cbn; [lia|].
  rewrite IH, Hf. lia.
Qed.

(** ** The counters of a summary *)

Definition trace_rows (traceID : string) (d : db) : list JobRow := List.filter (in_trace traceID) (rows d).

(** The jobs of a type in a trace, and those of them in a state. *)
Definition jobs_of (traceID ty : string) (d : db) : Z := count_rows (of_type ty) (trace_rows traceID d).
Definition jobs_in (traceID ty : string) (st : JobRunState) (d : db) : Z :=
  count_rows (fun r => of_type ty r && in_state st r) (trace_rows traceID d).

Definition batch_of (traceID ty : string) (d : db) : TraceBatchState :=
  mkBatch (jobs_of traceID ty d) (jobs_in traceID ty Succeeded d) (jobs_in traceID ty Failed d)
    (jobs_in traceID ty Running d) (jobs_in traceID ty Pending d).

Lemma filter_filter {A} (p q : A -> bool) l :
  List.filter p (List.filter q l) = List.filter (fun x => q x && p x) l.
Proof.
  induction l as [|x l IH]; cbn; [done|]. destruct (q x); cbn; [|done]. by destruct (p x); rewrite IH.
Qed.

Lemma count_rows_filter p q l : count_rows p (List.filter q l) = count_rows (fun r => q r && p r) l.
Proof. unfold count_rows. by rewrite filter_filter. Qed.

(** The rows of the batches, counted by type. *)
Lemma batch_rows_count traceID ty p d :
  ty ∈ batch_types ->
  count_rows (fun r => of_type ty r && p r)
    (List.filter (fun r => in_trace traceID r && bool_decide (type_ r ∈ batch_types)) (rows d))
  = count_rows (fun r => of_type ty r && p r) (trace_rows traceID d).
Proof.
  intros Hty. unfold trace_rows. rewrite !count_rows_filter. apply count_rows_ext. intros r _.
  unfold of_type. destruct (String.eqb_spec (type_ r) ty) as [E|]; cbn; [|by rewrite !andb_false_r].
  rewrite bool_decide_true by (by rewrite E). by rewrite andb_true_r.
Qed.

Definition batch_field (ty : string) (b : TraceBatchCounts) : TraceBatchState :=
  if String.eqb ty JobTypeImportObjects then tImport b
  else if String.eqb ty JobTypeRefreshObjects then tRefresh b
  else tRemove b.

Lemma batchStateForType_field ty ty' f b :
  ty ∈ batch_types ->
  batch_field ty (batchStateForType b ty' f) =
  if String.eqb ty' ty then f (batch_field ty b) else batch_field ty b.
Proof.
  intros Hty. unfold batchStateForType.
  unfold batch_types in Hty. rewrite !elem_of_cons in Hty.
  destruct Hty as [->|[->|[->|Hty]]]; [..|by apply elem_of_nil in Hty];
    destruct (String.eqb_spec ty' JobTypeImportObjects) as [->|]; try done;
    destruct (String.eqb_spec ty' JobTypeRefreshObjects) as [->|]; try done;
    destruct (String.eqb_spec ty' JobTypeRemoveObjects) as [->|]; try done.
Qed.

Lemma add_batch_count_fields b st n :
  bTotal (add_batch_count b st n) = bTotal b + n /\
  bDone (add_batch_count b st n) = bDone b + (if bool_decide (st = Succeeded) then n else 0) /\
  bFailed (add_batch_count b st n) = bFailed b + (if bool_decide (st = Failed) then n else 0) /\
  bActive (add_batch_count b st n) = bActive b + (if bool_decide (st = Running) then n else 0) /\
  bPending (add_batch_count b st n) = bPending b + (if bool_decide (st = Pending) then n else 0).
Proof. destruct st; cbn; repeat case_bool_decide; try done; split_and!; lia. Qed.

Section Fields.
Context (traceID ty : string) (Hty : ty ∈ batch_types) (d : db).
Let l := List.filter (fun r => in_trace traceID r && bool_decide (type_ r ∈ batch_types)) (rows d).
Let step (b : TraceBatchCounts) '(ty, s, n) := batchStateForType b ty (fun st => add_batch_count st s n).

(** One counter of the batches of a type, as a count over the rows of the trace. *)
Lemma batch_counter (field : TraceBatchState -> Z) (p : JobRunState -> bool) :
field no_batch = 0 ->
(forall b st n, field (add_batch_count b st n) = field b + (if p st then n else 0)) ->
field (batch_field ty (fold_left step (group_rows l) (mkBatches no_batch no_batch no_batch)))
= count_rows (fun r => of_type ty r && p (state r)) (trace_rows traceID d).
Proof.
intros H0 Hf.
rewrite (fold_groups step (fun b => field (batch_field ty b)) (fun ty' st => String.eqb ty' ty && p st)).
- assert (field (batch_field ty (mkBatches no_batch no_batch no_batch)) = 0) as ->.
  { unfold batch_field. by repeat destruct (String.eqb _ _). }
  rewrite group_rows_sum. unfold l.
  exact (batch_rows_count traceID ty (fun r => p (state r)) d Hty).
- intros b ty' st n. cbn. rewrite batchStateForType_field by done.
  destruct (String.eqb ty' ty); cbn; [by rewrite Hf|lia].
Qed.
End Fields.

(** The batches of a trace summary count, for each of the three object job
    types, the jobs of the trace: all of them, and those succeeded, failed,
    running and pending. *)
Theorem loadTraceBatchSummary_counts traceID d :
  loadTraceBatchSummary traceID d =
  (Ok (mkBatches (batch_of traceID JobTypeImportObjects d) (batch_of traceID JobTypeRefreshObjects d)
         (batch_of traceID JobTypeRemoveObjects d)), d).
Proof.
  unfold loadTraceBatchSummary, query. do 2 f_equal.
  match goal with |- fold_left ?f ?g ?b = _ => set (res := fold_left f g b) end.
  assert (forall ty, ty ∈ batch_types -> batch_field ty res = batch_of traceID ty d) as H.
  { intros ty Hty.
    assert (forall (field : TraceBatchState -> Z) (p : JobRunState -> bool), field no_batch = 0 ->
       (forall b st n, field (add_batch_count b st n) = field b + (if p st then n else 0)) ->
       field (batch_field ty res) = count_rows (fun r => of_type ty r && p (state r)) (trace_rows traceID d)) as Hc.
    { intros field p H0 Hf. exact (batch_counter traceID ty Hty d field p H0 Hf). }
    pose proof (Hc bTotal (fun _ => true)) as Ht.
    pose proof (Hc bDone (fun st => bool_decide (st = Succeeded))) as Hd.
    pose proof (Hc bFailed (fun st => bool_decide (st = Failed))) as Hfl.
    pose proof (Hc bActive (fun st => bool_decide (st = Running))) as Ha.
    pose proof (Hc bPending (fun st => bool_decide (st = Pending))) as Hp.
    assert (jobs_of traceID ty d = count_rows (fun r => of_type ty r && true) (trace_rows traceID d)) as Hj
      by (apply count_rows_ext; intros; by rewrite andb_true_r).
    destruct (batch_field ty res) as [t dn f a pd]. unfold batch_of. rewrite Hj. f_equal;
      [apply Ht|apply Hd|apply Hfl|apply Ha|apply Hp]; try done; apply add_batch_count_fields. }
  rewrite <- !H by (unfold batch_types; set_solver). by destruct res.
Qed.

Lemma add_type_count_fields c st n :
  nTotal (add_type_count c st n) = nTotal c + n /\
  nPending (add_type_count c st n) = nPending c + (if bool_decide (st = Pending) then n else 0) /\
  nRunning (add_type_count c st n) = nRunning c + (if bool_decide (st = Running) then n else 0) /\
  nSucceeded (add_type_count c st n) = nSucceeded c + (if bool_decide (st = Succeeded) then n else 0) /\
  nFailed (add_type_count c st n) = nFailed c + (if bool_decide (st = Failed) then n else 0) /\
  nCancelled (add_type_count c st n) = nCancelled c + (if bool_decide (st = Cancelled) then n else 0).
Proof. destruct st; cbn; repeat case_bool_decide; try done; split_and!; lia. Qed.

Lemma existsb_rows p traceID d :
  existsb p (trace_rows traceID d) = true <->
  exists key r, job_runs d !! key = Some r /\ trace_id r = traceID /\ p r = true.
Proof.
  rewrite existsb_elem. unfold trace_rows. split.
  - intros (r & Hr & Hp). apply list_elem_of_In, filter_In in Hr as [Hr Ht].
    apply list_elem_of_In, elem_of_rows in Hr as [key Hr]. apply String.eqb_eq in Ht. eauto.
  - intros (key & r & Hr & <- & Hp). exists r. split; [|done]. apply list_elem_of_In, filter_In.
    split; [|apply String.eqb_refl]. apply list_elem_of_In, elem_of_rows. eauto.
Qed.

Lemma counts_of_type (counts : gmap string TraceJobTypeCounts) ty ty' st n :
  default no_counts (<[ty' := add_type_count (default no_counts (counts !! ty')) st n]> counts !! ty)
  = if String.eqb ty' ty then add_type_count (default no_counts (counts !! ty)) st n
    else default no_counts (counts !! ty).
Proof.
  destruct (String.eqb_spec ty' ty) as [->|]; [by rewrite lookup_insert_eq|by rewrite lookup_insert_ne].
Qed.

(** The state of a trace is running while some job of it is pending or running,
    then failed if one failed, then cancelled if one was, and succeeded exactly
    when all its jobs succeeded; the job counts count its jobs by type and state. *)
Theorem loadTraceStateSummary_spec traceID d :
  exists st counts, loadTraceStateSummary traceID d = (Ok (st, counts), d) /\
  let some_job (p : JobRow -> Prop) := exists key r, job_runs d !! key = Some r /\ trace_id r = traceID /\ p r in
  (st = Running <-> some_job (fun r => active (state r) = true)) /\
  (st = Succeeded <-> forall key r, job_runs d !! key = Some r -> trace_id r = traceID -> state r = Succeeded) /\
  (st = Failed -> some_job (fun r => state r = Failed)) /\
  forall ty, let c := default no_counts (counts !! ty) in
    nTotal c = jobs_of traceID ty d /\ nPending c = jobs_in traceID ty Pending d /\
    nRunning c = jobs_in traceID ty Running d /\ nSucceeded c = jobs_in traceID ty Succeeded d /\
    nFailed c = jobs_in traceID ty Failed d /\ nCancelled c = jobs_in traceID ty Cancelled d.
Proof.
  eexists _, _. split; [reflexivity|]. cbv zeta. fold (trace_rows traceID d).
  pose proof (existsb_rows (fun r => active (state r)) traceID d) as Ha.
  pose proof (existsb_rows (fun r => bool_decide (state r = Failed)) traceID d) as Hf.
  pose proof (existsb_rows (fun r => bool_decide (state r = Cancelled)) traceID d) as Hc.
  setoid_rewrite bool_decide_eq_true in Hf. setoid_rewrite bool_decide_eq_true in Hc.
  split_and!.
  - rewrite <- Ha. destruct (existsb (fun r => active (state r)) _); [done|].
    by repeat destruct (existsb _ _).
  - destruct (existsb (fun r => active (state r)) _) eqn:E1; [split; [intros H; discriminate H|]|].
    { intros Hall. destruct (proj1 Ha eq_refl) as (key & r & Hr & Ht & Hs). by rewrite (Hall key r Hr Ht) in Hs. }
    destruct (existsb (fun r => bool_decide (state r = Failed)) _) eqn:E2; [split; [intros H; discriminate H|]|].
    { intros Hall. destruct (proj1 Hf eq_refl) as (key & r & Hr & Ht & Hs). by rewrite (Hall key r Hr Ht) in Hs. }
    destruct (existsb (fun r => bool_decide (state r = Cancelled)) _) eqn:E3; [split; [intros H; discriminate H|]|].
    { intros Hall. destruct (proj1 Hc eq_refl) as (key & r & Hr & Ht & Hs). by rewrite (Hall key r Hr Ht) in Hs. }
    split; [|done]. intros _ key r Hr Ht. destruct (state r) eqn:Hs; try done; exfalso.
    all: try (apply diff_false_true, Ha; exists key, r; by rewrite Hs).
    all: try (apply diff_false_true, Hf; by exists key, r).
    all: try (apply diff_false_true, Hc; by exists key, r).
  - destruct (existsb (fun r => active (state r)) _); [done|].
    destruct (existsb (fun r => bool_decide (state r = Failed)) _); [intros _; by apply Hf|].
    by destruct (existsb _ _).
  - intros ty.
    match goal with |- context [fold_left ?f ?g ?b] => set (counts := fold_left f g b) end.
    assert (forall (field : TraceJobTypeCounts -> Z) (p : JobRunState -> bool), field no_counts = 0 ->
       (forall c st n, field (add_type_count c st n) = field c + (if p st then n else 0)) ->
       field (default no_counts (counts !! ty)) = count_rows (fun r => of_type ty r && p (state r)) (trace_rows traceID d)) as H.
    { intros field p H0 Hfield. unfold counts.
      match goal with |- context [fold_left ?f ?g ?b] =>
        rewrite (fold_groups f (fun m => field (default no_counts (m !! ty))) (fun ty' st => String.eqb ty' ty && p st)) end.
      - rewrite lookup_empty. cbn. rewrite H0, group_rows_sum. done.
      - intros m ty' st n. rewrite counts_of_type. destruct (String.eqb ty' ty); cbn; [by rewrite Hfield|lia]. }
    split_and!.
    + unfold jobs_of. rewrite (H nTotal (fun _ => true)); [|done|apply add_type_count_fields].
      apply count_rows_ext. intros. by rewrite andb_true_r.
    + pose proof (H nPending (fun st => bool_decide (st = Pending))) as Hst. apply Hst; [done|apply add_type_count_fields].
    + pose proof (H nRunning (fun st => bool_decide (st = Running))) as Hst. apply Hst; [done|apply add_type_count_fields].
    + pose proof (H nSucceeded (fun st => bool_decide (st = Succeeded))) as Hst. apply Hst; [done|apply add_type_count_fields].
    + pose proof (H nFailed (fun st => bool_decide (st = Failed))) as Hst. apply Hst; [done|apply add_type_count_fields].
    + pose proof (H nCancelled (fun st => bool_decide (st = Cancelled))) as Hst. apply Hst; [done|apply add_type_count_fields].
Qed.

(** ** Completion *)

(** The jobs requested by [parent]. *)
Definition child (d : db) (parent key : string) (c : JobRow) : Prop :=
  job_runs d !! key = Some c /\ requested_by_type c = Some "job" /\ requested_by_id c = Some parent.

Lemma child_of_iff parent c :
  child_of parent c = true <-> requested_by_type c = Some "job" /\ requested_by_id c = Some parent.
Proof. unfold child_of. by rewrite andb_true_iff, !bool_decide_eq_true. Qed.

Lemma existsb_child p parent d :
  existsb (fun c => child_of parent c && p c) (rows d) = true <->
  exists key c, child d parent key c /\ p c = true.
Proof.
  rewrite existsb_elem. unfold child. setoid_rewrite andb_true_iff. setoid_rewrite child_of_iff.
  setoid_rewrite elem_of_rows. firstorder.
Qed.

Lemma DirectChildrenComplete_spec parent d :
  parent <> "" ->
  exists b, DirectChildrenComplete parent d = (Ok b, d) /\
    (b = true <-> forall key c, child d parent key c -> active (state c) = false).
Proof.
  intros Hne. unfold DirectChildrenComplete. destruct (String.eqb_spec parent ""); [done|].
  eexists. split; [reflexivity|]. rewrite negb_true_iff, <- not_true_iff_false, existsb_child.
  split; [|firstorder congruence].
  intros H key c Hc. apply not_true_iff_false. intros Ha. apply H. eauto.
Qed.

Lemma DirectChildrenFailed_spec parent d :
  parent <> "" ->
  exists b, DirectChildrenFailed parent d = (Ok b, d) /\
    (b = true <-> exists key c, child d parent key c /\ state c = Failed).
Proof.
  intros Hne. unfold DirectChildrenFailed. destruct (String.eqb_spec parent ""); [done|].
  eexists. split; [reflexivity|]. rewrite existsb_child. by setoid_rewrite bool_decide_eq_true.
Qed.

(** The outcomes of FinalizeAwaitingJob on a well-formed database. *)
Definition finalize_spec (now : Z) (s : TraceSummary) (r : JobRow) (d : db) : Prop :=
  match FinalizeAwaitingJob now (scanJobRun r) s d with
  | (Ok true, d') =>
      state r = Running /\ PayloadBool (decodeJobRunPayload (result_ r)) "await_children" = true /\
      (forall key c, child d (id r) key c -> active (state c) = false) /\
      (((exists key c, child d (id r) key c /\ state c = Failed) /\
         job_runs d' = <[id r := fail_row now (traceFailureMessage s) r]> (job_runs d)) \/
       ((forall key c, child d (id r) key c -> state c = Succeeded) /\
         exists e, encodeJobRunPayload (final_result (scanJobRun r) s) = Some e /\
           job_runs d' = <[id r := succeed_row now e r]> (job_runs d)))
  | (Ok false, d') =>
      d' = d /\
      (state r <> Running \/ PayloadBool (decodeJobRunPayload (result_ r)) "await_children" = false \/
       exists key c, child d (id r) key c /\ active (state c) = true)
  | (Err _, d') => d' = d /\ encodeJobRunPayload (final_result (scanJobRun r) s) = None
  end.
Lemma FinalizeAwaitingJob_cases now s r d :
  db_ok d -> job_runs d !! id r = Some r -> finalize_spec now s r d.
Proof.
  intros [_ Hok Hids _ _] Hr. unfold finalize_spec.
  assert (id r <> "") as Hne by by apply (Hids (id r) r).
  unfold FinalizeAwaitingJob. cbn [scanJobRun State Result_ ID].
  case_bool_decide as Hst; cbn [negb orb]; [|by split; [|left]].
  destruct (PayloadBool _ _) eqn:Hp; cbn [negb]; [|by split; [|right; left]].
  destruct (DirectChildrenComplete_spec (id r) d Hne) as (b & Eb & Hb).
  unfold mbind, DB_bind. rewrite Eb. destruct b; cbn [negb].
  2:{ split; [done|]. right; right.
      destruct (existsb (fun c => child_of (id r) c && active (state c)) (rows d)) eqn:E.
      - by apply existsb_child in E.
      - exfalso. apply diff_false_true, Hb. intros key c Hc. apply not_true_iff_false. intros Ha.
        apply not_true_iff_false in E. apply E, existsb_child. eauto. }
  assert (forall key c, child d (id r) key c -> active (state c) = false) as Hdone by by apply Hb.
  destruct (DirectChildrenFailed_spec (id r) d Hne) as (f & Ef & Hf). rewrite Ef. destruct f.
  - unfold FailJobRun, update_row. rewrite Hr. cbn. split_and!; try done. left. split; [by apply Hf|done].
  - destruct (SucceedJobRun_cases now (id r) (final_result (scanJobRun r) s) d) as
      [(r' & e & Hr' & He & ->)|[[Hno|He] [err ->]]]; cbn; [|congruence|done].
    split_and!; try done. right. assert (r' = r) as -> by congruence. split; [|eauto].
    intros key c Hc. pose proof (Hdone key c Hc) as Ha.
    pose proof (Hok key c (proj1 Hc)) as Hokc. pose proof (ok_not_cancelled _ Hokc).
    destruct (state c) eqn:Hsc; try done. exfalso. apply diff_false_true, Hf. eauto.
Qed.

(** FinalizeAwaitingJob ends a running job that awaits its children only when
    none of them is pending or running: it fails when a child failed, and
    otherwise succeeds, and then every child has succeeded; in every other case it
    leaves the database alone. *)
Theorem FinalizeAwaitingJob_spec now r s d :
  reachable d -> job_runs d !! id r = Some r ->
  match FinalizeAwaitingJob now (scanJobRun r) s d with
  | (Ok true, d') =>
      state r = Running /\ PayloadBool (decodeJobRunPayload (result_ r)) "await_children" = true /\
      (forall key c, child d (id r) key c -> active (state c) = false) /\
      (((exists key c, child d (id r) key c /\ state c = Failed) /\
         job_runs d' = <[id r := fail_row now (traceFailureMessage s) r]> (job_runs d)) \/
       ((forall key c, child d (id r) key c -> state c = Succeeded) /\
         exists e, encodeJobRunPayload (final_result (scanJobRun r) s) = Some e /\
           job_runs d' = <[id r := succeed_row now e r]> (job_runs d)))
  | (Ok false, d') =>
      d' = d /\
      (state r <> Running \/ PayloadBool (decodeJobRunPayload (result_ r)) "await_children" = false \/
       exists key c, child d (id r) key c /\ active (state c) = true)
  | (Err _, d') => d' = d /\ encodeJobRunPayload (final_result (scanJobRun r) s) = None
  end.
Proof.
  intros Hreach. apply FinalizeAwaitingJob_cases. by apply reachable_ok.
Qed.

(** ** Witness: a parent that awaits a child that succeeded *)

Definition demo_child : CreateJobRunParams := mkCreate "import_objects" "" "job" "jobrun_01" "bucket" "b1" ∅ 1 None.
Definition demo_tree : list op :=
  [OpCreate [1] 10 demo_params; OpClaim ∅ 20 "w1" []; OpCreate [2] 25 demo_child;
   OpAwait 30 "jobrun_01" (<["await_children" := VBool true]> ∅) ∅;
   OpClaim ∅ 40 "w1" []; OpSucceed 50 "jobrun_02" ∅].
Definition demo_summary : TraceSummary :=
  mkSummary "jobrun_01" "jobrun_01" Running "" 0 (mkObjects 0 0 0) (mkObjects 0 0 0)
    (mkBatches no_batch no_batch no_batch) 0 ∅.

Lemma FinalizeAwaitingJob_spec_witness :
  exists r, job_runs (run_ops demo_tree empty_db) !! "jobrun_01" = Some r /\
    ((FinalizeAwaitingJob 60 (scanJobRun r) demo_summary (run_ops demo_tree empty_db)).1 = Ok true ->
     forall key c, child (run_ops demo_tree empty_db) (id r) key c -> active (state c) = false).
Proof.
  destruct (job_runs (run_ops demo_tree empty_db) !! "jobrun_01") as [r|] eqn:E.
  - exists r. split; [reflexivity|].
    assert (reachable (run_ops demo_tree empty_db)) as Hreach by (exists demo_tree; reflexivity).
    pose proof (ok_keyed _ (reachable_ok _ Hreach) "jobrun_01" r E) as Hid. cbv beta in Hid.
    rewrite <- Hid in E.
    pose proof (FinalizeAwaitingJob_spec 60 r demo_summary (run_ops demo_tree empty_db) Hreach E) as H.
    destruct (FinalizeAwaitingJob 60 (scanJobRun r) demo_summary (run_ops demo_tree empty_db)) as [[[|]|e] d'];
      intros Hok; [|discriminate Hok..]. exact (proj1 (proj2 (proj2 H))).
  - exfalso. apply (f_equal (fun x => bool_decide (x = None))) in E. revert E. vm_compute. discriminate.
Defined.
