(* ===== verification/Runner.v ===== *)
(** * Runner

    The worker's job loop: the handler registry (apps/worker/internal/jobs/handler.go),
    [RunOnce] (runner/runner.go) and the completion ticker
    (tracecompletion/ticker.go).  A handler is any function that may change the
    database and returns a result payload or the text of an error.  At the end of the file, the
    rounds of [Run]. *)
From S2P Require Import Prelude GoStrings GoFloat JobPayload JobRuns JobTrace JobRunProofs JobTraceProofs.
Local Open Scope Z_scope.

(** ** The registry *)

Notation handler := (JobRun -> db -> result string payload * db).

Notation Registry := (gmap string handler).

Inductive registry_error := NilHandler | EmptyJobType | DuplicateHandler (jobType : string).

(** A handler with its [Type()]; [None] is the nil interface. *)
Definition Register (r : Registry) (h : option (string * handler)) : result registry_error Registry :=
  match h with
  | None => Err NilHandler
  | Some (jobType, h) =>
      if String.eqb jobType "" then Err EmptyJobType
      else match r !! jobType with
           | Some _ => Err (DuplicateHandler jobType)
           | None => Ok (<[jobType := h]> r)
           end
  end.

Definition NewRegistry (handlers : list (option (string * handler))) : result registry_error Registry :=
  foldM_result Register ∅ handlers.

Definition Get (r : Registry) (jobType : string) : option handler := r !! jobType.

Definition Types (r : Registry) : list string := sort_by String.ltb (map_to_list r).*1.

(** ** RunOnce *)

Definition no_handler_message (jobType : string) : string :=
  "no handler registered for job type " +:+ quoted jobType.

(** The clocks of an execution: [now()] of the claiming and of the ending
    statement, and [time.Now()] in nanoseconds. *)
Record Clocks := mkClocks { claim_now : Z; end_now : Z; go_now : Z }.

Definition unit_of {A} (m : DB A) : DB unit := _ ← m; mret tt.

Definition handleFailure (retryDelay : Z) (clocks : Clocks) (run : JobRun) (cause : string) : DB unit :=
  if Attempt run <? MaxAttempts run
  then unit_of (RetryJobRun (end_now clocks) (ID run) cause (Some ((go_now clocks + retryDelay) / 1000)))
  else unit_of (FailJobRun (end_now clocks) (ID run) cause).

(** What RunOnce does with the outcome of the handler. *)
Definition finishRun (retryDelay : Z) (clocks : Clocks) (run : JobRun) (outcome : result string payload) : DB unit :=
  match outcome with
  | Err cause => handleFailure retryDelay clocks run cause
  | Ok res =>
      if AwaitsChildren res
      then unit_of (AwaitJobRunChildren (end_now clocks) (ID run) res (FanOutProgress res))
      else unit_of (SucceedJobRun (end_now clocks) (ID run) res)
  end.

Definition RunOnce (registry : Registry) (workerID : string) (retryDelay : Z) (skip : gset string)
    (clocks : Clocks) : DB bool := fun d =>
  match ClaimJobRun skip (claim_now clocks) workerID (Types registry) d with
  | (Err e, d) => if IsNotFound e then (Ok false, d) else (Err e, d)
  | (Ok run, d) =>
      match Get registry (Type_ run) with
      | None =>
          (_ ← FailJobRun (end_now clocks) (ID run) (no_handler_message (Type_ run)); mret true) d
      | Some h =>
          let '(outcome, d) := h run d in
          (_ ← finishRun retryDelay clocks run outcome; mret true) d
      end
  end.

(** ** The completion ticker *)

Definition processAwaitingJob (now : Z) (job : JobRun) (s : TraceSummary) : DB Z :=
  current ← GetJobRun (ID job);
  if negb (bool_decide (State current = Running)) || negb (PayloadBool (Result_ current) "await_children")
  then mret 0
  else
    complete ← DirectChildrenComplete (ID current);
    if negb complete then
      if IsRootJob current
      then (_ ← UpdateJobRunProgress now (ID current) (TraceProgressRollup s); mret 1)
      else mret 1
    else
      finalized ← FinalizeAwaitingJob now current s;
      mret (if (finalized : bool) then 1 else 0).

Fixpoint traceOrder (seen : list string) (jobs : list JobRun) : list string :=
  match jobs with
  | [] => []
  | job :: jobs =>
      if bool_decide (TraceID job ∈ seen) then traceOrder seen jobs
      else TraceID job :: traceOrder (TraceID job :: seen) jobs
  end.

Fixpoint processJobs (now : Z) (traceID : string) (s : TraceSummary) (jobs : list JobRun) : DB Z :=
  match jobs with
  | [] => mret 0
  | job :: jobs =>
      if negb (String.eqb (TraceID job) traceID) then processJobs now traceID s jobs
      else
        count ← processAwaitingJob now job s;
        rest ← processJobs now traceID s jobs;
        mret (count + rest)
  end.

Fixpoint processTraces (sprint : value -> string) (now goNow : Z) (jobs : list JobRun) (order : list string) : DB Z :=
  match order with
  | [] => mret 0
  | traceID :: order =>
      summary ← SummarizeTrace sprint goNow traceID;
      count ← processJobs now traceID summary jobs;
      rest ← processTraces sprint now goNow jobs order;
      mret (count + rest)
  end.

Definition Tick (sprint : value -> string) (now goNow : Z) : DB Z :=
  jobs ← ListAwaitingTraceJobs 100;
  if Z.of_nat (List.length jobs) =? 0 then mret 0
  else processTraces sprint now goNow jobs (traceOrder [] jobs).

(** ** The registry holds what was registered *)

Lemma Register_Ok r h r' :
  Register r h = Ok r' <->
  exists jobType hd, h = Some (jobType, hd) /\ jobType <> "" /\ r !! jobType = None /\ r' = <[jobType := hd]> r.
Proof.
  unfold Register. destruct h as [[jobType hd]|]; [|split; [done|]; by intros (? & ? & ? & _)].
  destruct (String.eqb_spec jobType "") as [->|Hne].
  - split; [done|]. intros (? & ? & [= <- <-] & ? & _). done.
  - destruct (r !! jobType) eqn:E.
    + split; [done|]. intros (? & ? & [= <- <-] & _ & ? & _). congruence.
    + split; [intros [= <-]; eauto 10|]. by intros (? & ? & [= <- <-] & _ & _ & ->).
Qed.

Lemma elem_of_Types r ty : ty ∈ Types r <-> is_Some (r !! ty).
Proof.
  unfold Types. rewrite (sort_by_perm String.ltb), list_elem_of_fmap. split.
  - intros ([ty' h] & -> & H). apply elem_of_map_to_list in H. eauto.
  - intros [h H]. exists (ty, h). split; [done|]. by apply elem_of_map_to_list.
Qed.

(** ** What RunOnce leaves *)

(** The row of a running job after its handler returned: retried while attempts
    remain, failed otherwise, waiting for its children, or succeeded.  [None] is a
    result that cannot be encoded. *)
Definition outcome_row (retryDelay : Z) (clocks : Clocks) (outcome : result string payload) (r : JobRow)
    : option JobRow :=
  match outcome with
  | Err cause =>
      Some (if attempt r <? max_attempts r
            then retry_row (end_now clocks) cause (Some ((go_now clocks + retryDelay) / 1000)) r
            else fail_row (end_now clocks) cause r)
  | Ok res =>
      e ← encodeJobRunPayload res;
      if AwaitsChildren res
      then p ← encodeJobRunPayload (FanOutProgress res); Some (await_row (end_now clocks) e p r)
      else Some (succeed_row (end_now clocks) e r)
  end.

(** The same for any row that the handler, or another worker, has left under the identifier
    of the job: a retry takes the attempts of the job as it was claimed and is refused when
    the row has none left, and waiting is refused when the row is no longer running. *)
Definition ended_row (retryDelay : Z) (clocks : Clocks) (run : JobRun) (outcome : result string payload) (r : JobRow)
    : option JobRow :=
  match outcome with
  | Err cause =>
      if Attempt run <? MaxAttempts run
      then if attempt r <? max_attempts r
           then Some (retry_row (end_now clocks) cause (Some ((go_now clocks + retryDelay) / 1000)) r)
           else None
      else Some (fail_row (end_now clocks) cause r)
  | Ok res =>
      e ← encodeJobRunPayload res;
      if AwaitsChildren res
      then p ← encodeJobRunPayload (FanOutProgress res);
           if bool_decide (state r = Running) then Some (await_row (end_now clocks) e p r) else None
      else Some (succeed_row (end_now clocks) e r)
  end.

(** The row of a job whose handler runs: what progress updates change is left open. *)
Definition working (r r' : JobRow) : Prop :=
  state r' = state r /\ attempt r' = attempt r /\ max_attempts r' = max_attempts r.

Lemma ended_row_working retryDelay clocks outcome r r' : state r = Running -> working r r' ->
  ended_row retryDelay clocks (scanJobRun r) outcome r' = outcome_row retryDelay clocks outcome r'.
Proof.
  intros Hst (Es & Ea & Em). unfold ended_row, outcome_row. cbn [Attempt MaxAttempts scanJobRun]. rewrite Ea, Em, Es, Hst.
  destruct outcome as [res|cause]; [|by destruct (_ <? _)]. by rewrite bool_decide_true by done.
Qed.

Lemma ended_row_unlocked retryDelay clocks run outcome r r' : ended_row retryDelay clocks run outcome r = Some r' -> locked_by r' = None.
Proof.
  unfold ended_row. destruct outcome as [res|cause].
  - destruct (encodeJobRunPayload res); cbn; [|done]. destruct (AwaitsChildren res); [|by intros [= <-]].
    destruct (encodeJobRunPayload _); cbn; [|done]. case_bool_decide; [by intros [= <-]|done].
  - destruct (Attempt run <? MaxAttempts run); [|by intros [= <-]]. destruct (attempt r <? max_attempts r); [by intros [= <-]|done].
Qed.

Lemma unit_of_eq {A} (m : DB A) d :
  unit_of m d = match m d with (Ok _, d') => (Ok tt, d') | (Err e, d') => (Err e, d') end.
Proof. unfold unit_of, mbind, DB_bind. by destruct (m d) as [[a|e] d']. Qed.

Lemma finishRun_row delay clocks run outcome d :
  match job_runs d !! ID run ≫= ended_row delay clocks run outcome with
  | Some r' => exists d', finishRun delay clocks run outcome d = (Ok tt, d') /\
                 job_runs d' = <[ID run := r']> (job_runs d)
  | None => exists err, finishRun delay clocks run outcome d = (Err err, d)
  end.
Proof.
  unfold finishRun, ended_row. destruct outcome as [res|cause].
  - destruct (encodeJobRunPayload res) as [e|] eqn:Ee; cbn [mbind option_bind].
    + destruct (AwaitsChildren res); rewrite unit_of_eq.
      * unfold AwaitJobRunChildren, encoded, mbind, DB_bind. rewrite Ee.
        destruct (encodeJobRunPayload (FanOutProgress res)) as [p|]; cbn [mbind option_bind].
        -- unfold update_row. destruct (job_runs d !! ID run) as [r|]; cbn [mbind option_bind]; [|eauto]. case_bool_decide; eauto.
        -- destruct (job_runs d !! ID run); cbn [mbind option_bind]; eauto.
      * destruct (SucceedJobRun_cases (end_now clocks) (ID run) res d) as
          [(r & e' & Hr & He & ->)|[[Hno|He] [err ->]]].
        -- rewrite Hr. cbn [mbind option_bind]. assert (e' = e) as -> by congruence. eauto.
        -- rewrite Hno. cbn [mbind option_bind]. eauto.
        -- congruence.
    + assert (exists err, encoded res d = (Err err, d)) as [err Hee] by (unfold encoded; rewrite Ee; eauto).
      replace (_ ≫= _) with (@None JobRow) by (by destruct (job_runs d !! ID run)).
      destruct (AwaitsChildren res); rewrite unit_of_eq.
      * unfold AwaitJobRunChildren, mbind, DB_bind. rewrite Hee. eauto.
      * unfold SucceedJobRun, mbind, DB_bind. rewrite Hee. eauto.
  - unfold handleFailure. destruct (Attempt run <? MaxAttempts run); rewrite unit_of_eq.
    + unfold RetryJobRun, update_row. destruct (job_runs d !! ID run) as [r|]; cbn [mbind option_bind]; [|eauto]. destruct (_ <? _); eauto.
    + unfold FailJobRun, update_row. destruct (job_runs d !! ID run) as [r|]; cbn [mbind option_bind]; eauto.
Qed.

Lemma NewRegistry_no_empty handlers registry : NewRegistry handlers = Ok registry -> registry !! "" = None.
Proof.
  unfold NewRegistry. assert ((∅ : Registry) !! "" = None) as H0 by done. revert H0. generalize (∅ : Registry).
  induction handlers as [|h handlers IH]; intros r Hr; cbn; [by intros [= <-]|].
  intros H. destruct (Register r h) as [r'|e] eqn:E; [|done]. cbn in H. apply Register_Ok in E as (ty & hd & _ & Hty & _ & ->).
  apply (IH (<[ty:=hd]> r)); [|done]. by apply lookup_insert_None.
Qed.

Section RunOnce.
Context (registry : Registry) (workerID : string) (retryDelay : Z) (skip : gset string) (clocks : Clocks)
(handlers : list (option (string * handler))) (registered : NewRegistry handlers = Ok registry).

(** C14: RunOnce claims a job, runs the handler of its type, whatever that and other workers
    do to the tables meanwhile, and then sets the row of the job to what the outcome calls
    for, releasing the lock.  As long as the row is still that of the running job, whatever
    progress the handler has recorded in it, it is retried, failed, made to wait for its
    children or marked as succeeded.  RunOnce returns false exactly when nothing could be
    claimed.  It fails, leaving the tables as the handler left them, exactly when the result
    cannot be encoded or the row does not admit the ending any more. *)
Theorem RunOnce_outcome d :
reachable d ->
match RunOnce registry workerID retryDelay skip clocks d with
| (Ok false, d') => d' = d /\ ClaimJobRun skip (claim_now clocks) workerID (Types registry) d = (Err ErrNotFound, d)
| (Ok true, d') => exists run d1 r,
    ClaimJobRun skip (claim_now clocks) workerID (Types registry) d = (Ok run, d1) /\
    job_runs d1 !! ID run = Some r /\ run = scanJobRun r /\
    match registry !! Type_ run with
    | None => registry = ∅ /\ job_runs d' = <[ID run := fail_row (end_now clocks) (no_handler_message (Type_ run)) r]> (job_runs d1)
    | Some h => exists r2 r', job_runs (h run d1).2 !! ID run = Some r2 /\
        ended_row retryDelay clocks run (h run d1).1 r2 = Some r' /\ locked_by r' = None /\
        (working r r2 -> outcome_row retryDelay clocks (h run d1).1 r2 = Some r') /\
        job_runs d' = <[ID run := r']> (job_runs (h run d1).2)
    end
| (Err _, d') => exists run d1 r h,
    ClaimJobRun skip (claim_now clocks) workerID (Types registry) d = (Ok run, d1) /\
    job_runs d1 !! ID run = Some r /\ registry !! Type_ run = Some h /\ d' = (h run d1).2 /\
    job_runs d' !! ID run ≫= ended_row retryDelay clocks run (h run d1).1 = None /\
    forall r2, job_runs d' !! ID run = Some r2 -> working r r2 -> outcome_row retryDelay clocks (h run d1).1 r2 = None
end.
Proof.
intros Hreach. destruct (reachable_ok d Hreach) as [Hk _ _ _ _]. unfold RunOnce.
destruct (ClaimJobRun_cases skip (claim_now clocks) workerID (Types registry) d Hk)
  as [[-> _]|(r0 & Hr0 & Hc & _ & _ & E)]; [done|]. rewrite E.
set (r := claim_row workerID (claim_now clocks) r0). set (d1 := mkDB (<[id r0:=r]> (job_runs d)) (job_spill d)).
assert (job_runs d1 !! ID (scanJobRun r) = Some r) as Hr by (cbn; apply lookup_insert_eq).
unfold Get. destruct (registry !! Type_ (scanJobRun r)) as [h|] eqn:Eh.
- destruct (h (scanJobRun r) d1) as [outcome d2] eqn:Eo.
  pose proof (finishRun_row retryDelay clocks (scanJobRun r) outcome d2) as Hf.
  unfold mbind, DB_bind. destruct (job_runs d2 !! ID (scanJobRun r) ≫= ended_row retryDelay clocks (scanJobRun r) outcome) as [r'|] eqn:Er.
  + destruct Hf as (d' & -> & Hd'). exists (scanJobRun r), d1, r. split_and!; try done.
    rewrite Eh, Eo. apply bind_Some in Er as (r2 & Hr2 & Er). exists r2, r'. cbn [fst snd]. split_and!; try done.
    * by eapply ended_row_unlocked.
    * intros Hw. by rewrite <- (ended_row_working retryDelay clocks outcome r r2).
  + destruct Hf as [err ->]. exists (scanJobRun r), d1, r, h. rewrite Eo. cbn [fst snd]. split_and!; try done.
    intros r2 Hr2 Hw. rewrite Hr2 in Er. by rewrite <- (ended_row_working retryDelay clocks outcome r r2).
- unfold mbind, DB_bind, FailJobRun, update_row. rewrite Hr. cbv beta iota.
  exists (scanJobRun r), d1, r. split_and!; try done. rewrite Eh. split; [|done].
  apply map_empty. intros ty. destruct (registry !! ty) as [h|] eqn:Et; [|done]. exfalso.
  assert (ty ∈ not_empty_types (Types registry)) as Hty.
  { apply list_elem_of_In, filter_In. split; [apply list_elem_of_In, elem_of_Types; eauto|].
    apply negb_true_iff, String.eqb_neq. intros ->. by rewrite (NewRegistry_no_empty handlers) in Et. }
  unfold claimable in Hc. apply andb_true_iff in Hc as [_ Hc]. apply orb_true_iff in Hc as [Hc|Hc].
  + apply Z.eqb_eq in Hc. destruct (not_empty_types (Types registry)); [by apply elem_of_nil in Hty|].
    cbn in Hc. lia.
  + apply bool_decide_eq_true in Hc. apply list_elem_of_In, filter_In in Hc as [Hc _].
    apply list_elem_of_In, elem_of_Types in Hc as [h' Hh']. cbn in Eh. congruence.
Qed.
End RunOnce.

(** ** A job that fans out is seen by the ticker *)

Lemma awaits_text_of_bool p :
  PayloadBool (decodeJobRunPayload p) "await_children" = true -> awaits_text p = true.
Proof.
  unfold PayloadBool, decodeJobRunPayload, awaits_text. rewrite lookup_fmap.
  destruct (p !! "await_children") as [[]|]; cbn; try done. by intros ->.
Qed.

(** When a handler returns a fan-out result with a child, the row of the job
    stays running, unlocked, and is one that ListAwaitingTraceJobs selects: the
    ticker will see it, and the stale reclaim will not. *)
Theorem fanout_row_awaits retryDelay clocks ids fields r r' ty l :
  fields !! ResultKeyChildJobIDs = None -> fields !! ResultKeyAwaitChildren = None ->
  ids !! ty = Some l -> l <> [] -> state r = Running ->
  outcome_row retryDelay clocks (Ok (FanOutResult ids fields)) r = Some r' ->
  awaiting r' = true /\ locked_by r' = None /\
  PayloadBool (Result_ (scanJobRun r')) ResultKeyAwaitChildren = true /\
  (forall interval now staleAfter, stale interval now staleAfter r' = false).
Proof.
  intros Hc Ha Hty Hl Hst. rewrite FanOutResult_eq.
  assert (0 < count_ids ids) as Hp by (apply count_ids_pos; eauto). apply Z.ltb_lt in Hp. rewrite Hp.
  set (res := <[ResultKeyAwaitChildren := VBool true]> _). unfold outcome_row.
  destruct (encodeJobRunPayload res) as [e|] eqn:Ee; cbn [mbind option_bind]; [|done].
  assert (AwaitsChildren res = true) as -> by (unfold AwaitsChildren, res; by rewrite lookup_insert_eq).
  destruct (encodeJobRunPayload (FanOutProgress res)) as [p|]; cbn [option_bind]; [|done]. intros [= <-].
  assert (e = to_json <$> res) as -> by (unfold encodeJobRunPayload in Ee; destruct (map_fold _ _ _); [by injection Ee|done]).
  assert (PayloadBool (decodeJobRunPayload (to_json <$> res)) "await_children" = true) as Hb.
  { unfold PayloadBool, decodeJobRunPayload, res. rewrite !lookup_fmap. by rewrite lookup_insert_eq. }
  split_and!; try done.
  - unfold awaiting. cbn [await_row pipe set_updated_at set_lock set_progress set_result state result_].
    rewrite bool_decide_true by done. by apply awaits_text_of_bool.
  - intros. unfold stale. cbn. by rewrite andb_false_r.
Qed.

(** ** The ticker ends every job whose children are done *)

(** What the ticker may do to a table: rows keep their columns, and running rows
    may end. *)
Definition settled (d d' : db) : Prop :=
  forall key, match job_runs d !! key, job_runs d' !! key with
  | Some r, Some r' =>
      identity_of r' = identity_of r /\
      ((state r' = state r /\ result_ r' = result_ r) \/ (state r = Running /\ active (state r') = false))
  | None, None => True
  | _, _ => False
  end.

Lemma settled_refl d : settled d d.
Proof. intros key. destruct (job_runs d !! key); [|done]. split; [done|by left]. Qed.

Lemma settled_trans a b c : settled a b -> settled b c -> settled a c.
Proof.
  intros H1 H2 key. specialize (H1 key). specialize (H2 key).
  destruct (job_runs a !! key) as [r1|], (job_runs b !! key) as [r2|], (job_runs c !! key) as [r3|]; try done.
  destruct H1 as [I1 S1], H2 as [I2 S2]. split; [congruence|].
  destruct S1 as [[E1 E2]|[? Ha]].
  - by rewrite E1, E2 in S2.
  - right. split; [done|]. destruct S2 as [[-> _]|[Hr _]]; [done|]. by rewrite Hr in Ha.
Qed.

Lemma settled_insert d key r r' spill :
  job_runs d !! key = Some r -> identity_of r' = identity_of r ->
  ((state r' = state r /\ result_ r' = result_ r) \/ (state r = Running /\ active (state r') = false)) ->
  settled d (mkDB (<[key := r']> (job_runs d)) spill).
Proof.
  intros Hr Hi Hs k. cbn [job_runs]. destruct (decide (key = k)) as [<-|Hne].
  - by rewrite Hr, lookup_insert_eq.
  - rewrite lookup_insert_ne by done. apply settled_refl.
Qed.

(** A running job that awaits children that are all done, and a job that ended. *)
Definition ready (d : db) (key : string) : Prop :=
  exists r, job_runs d !! key = Some r /\ state r = Running /\
    PayloadBool (decodeJobRunPayload (result_ r)) "await_children" = true /\
    forall k c, child d key k c -> active (state c) = false.
Definition ended (d : db) (key : string) : Prop :=
  exists r, job_runs d !! key = Some r /\ active (state r) = false.

Lemma settled_ended d d' key : settled d d' -> ended d key -> ended d' key.
Proof.
  intros Hs (r & Hr & Ha). specialize (Hs key). rewrite Hr in Hs.
  destruct (job_runs d' !! key) as [r'|] eqn:Hr'; [|done]. exists r'. split; [done|].
  destruct Hs as [_ [[-> _]|[H _]]]; [done|]. by rewrite H in Ha.
Qed.

Lemma settled_ready d d' key : settled d d' -> ready d key -> ready d' key \/ ended d' key.
Proof.
  intros Hs (r & Hr & Hst & Hp & Hc). pose proof (Hs key) as Hk. rewrite Hr in Hk.
  destruct (job_runs d' !! key) as [r'|] eqn:Hr'; [|done].
  destruct Hk as [_ [[Hst' Hres]|[_ Ha]]]; [left|right; by exists r'].
  exists r'. rewrite Hst', Hres. split_and!; try done.
  intros k c' (Hc' & Ht & Hid). specialize (Hs k). rewrite Hc' in Hs.
  destruct (job_runs d !! k) as [c|] eqn:E; [|done]. destruct Hs as [Hi Hs].
  injection Hi as _ _ _ H1 H2 _ _ _ _ _.
  assert (active (state c) = false) as Ha by (apply (Hc k c); split_and!; congruence).
  destruct Hs as [[-> _]|[H _]]; [done|]. by rewrite H in Ha.
Qed.

Lemma run_update_ok now key prog d : db_ok d -> db_ok (UpdateJobRunProgress now key prog d).2.
Proof. exact (op_db_ok (OpProgress now key prog) d). Qed.
Lemma run_succeed_ok now key res d : db_ok d -> db_ok (SucceedJobRun now key res d).2.
Proof. exact (op_db_ok (OpSucceed now key res) d). Qed.
Lemma run_fail_ok now key message d : db_ok d -> db_ok (FailJobRun now key message d).2.
Proof. exact (op_db_ok (OpFail now key message) d). Qed.

Lemma Finalize_db_ok now job s d : db_ok d -> db_ok (FinalizeAwaitingJob now job s d).2.
Proof.
  intros Hd. unfold FinalizeAwaitingJob. destruct (_ || _); [done|].
  unfold DirectChildrenComplete, DirectChildrenFailed. destruct (String.eqb (ID job) ""); [done|].
  unfold mbind, DB_bind, query, exists_row, query. destruct (negb (negb _)); [done|].
  destruct (existsb _ _).
  - pose proof (run_fail_ok now (ID job) (traceFailureMessage s) d Hd).
    by destruct (FailJobRun _ _ _ d) as [[|] ?].
  - pose proof (run_succeed_ok now (ID job) (final_result job s) d Hd).
    by destruct (SucceedJobRun _ _ _ d) as [[|] ?].
Qed.

(** One job: the ticker keeps the table settled, also when it fails, and ends the job when it
    is ready. *)
Lemma processAwaitingJob_step now job s d :
  db_ok d -> let '(r, d') := processAwaitingJob now job s d in
  db_ok d' /\ settled d d' /\ (is_ok r = true -> ready d (ID job) -> ended d' (ID job)).
Proof.
  intros Hd. unfold processAwaitingJob, GetJobRun. unfold mbind at 1, DB_bind at 1.
  destruct (job_runs d !! ID job) as [r|] eqn:Hr; [|by split_and!; [|apply settled_refl|]].
  assert (id r = ID job) as Hid by by apply (ok_keyed _ Hd). cbn [scanJobRun State Result_ ID].
  destruct (negb _ || negb _) eqn:Hskip.
  { split_and!; [done|apply settled_refl|]. intros _ (r' & Hr' & Hst & Hp & _).
    assert (r' = r) as -> by congruence. rewrite Hst, Hp in Hskip. by rewrite bool_decide_true in Hskip. }
  assert (id r <> "") as Hne by (rewrite Hid; by apply (ok_ids _ Hd (ID job) r)).
  destruct (DirectChildrenComplete_spec (id r) d Hne) as (b & Eb & Hb).
  unfold mbind at 1, DB_bind at 1. rewrite Eb. destruct b; cbn [negb].
  - pose proof (FinalizeAwaitingJob_cases now s r d Hd ltac:(by rewrite Hid)) as Hf.
    unfold finalize_spec in Hf. pose proof (Finalize_db_ok now (scanJobRun r) s d Hd) as Hok.
    unfold mbind, DB_bind. destruct (FinalizeAwaitingJob now (scanJobRun r) s d) as [[[|]|e] d1]; cbn [snd] in Hok; (split; [done|]).
    + destruct Hf as (Hst & _ & _ & [(_ & E)|(_ & e & _ & E)]); rewrite Hid in E; destruct d1 as [jr sp]; cbn in E; subst jr;
        (split; [by apply (settled_insert d (ID job) r); [|done|right]|]);
        intros _ _; eexists; cbn [job_runs]; rewrite lookup_insert_eq; done.
    + destruct Hf as [-> Hf]. split; [apply settled_refl|]. intros _ (r' & Hr' & Hst & Hp & Hc).
      assert (r' = r) as -> by congruence. rewrite <- Hid in Hc.
      destruct Hf as [?|[?|(k & c & Hch & Ha)]]; [done|congruence|]. by rewrite (Hc k c Hch) in Ha.
    + destruct Hf as [-> _]. split; [apply settled_refl|done].
  - assert (~ ready d (ID job)) as Hnr.
    { intros (r' & _ & _ & _ & Hc). apply diff_false_true, Hb. by rewrite Hid. }
    destruct (IsRootJob _).
    + pose proof (run_update_ok now (id r) (TraceProgressRollup s) d Hd) as Hok. revert Hok.
      unfold UpdateJobRunProgress, mbind, DB_bind.
      destruct (encoded_cases (TraceProgressRollup s) d) as [(e & _ & ->)|[_ [err ->]]]; [|intros _; by split_and!; [|apply settled_refl|]].
      unfold update_row. rewrite Hid, Hr. intros Hok. split_and!; [done| |done].
      by apply (settled_insert d (ID job) r); [|done|left].
    + split_and!; [done|apply settled_refl|done].
Qed.

(** What a pass over some jobs achieves. *)
Definition pass (d d' : db) (P : string -> Prop) : Prop :=
  db_ok d' /\ settled d d' /\ forall key, P key -> ready d key \/ ended d key -> ended d' key.

Lemma pass_seq a b c (P Q : string -> Prop) : pass a b P -> pass b c Q -> pass a c (fun key => P key \/ Q key).
Proof.
  intros (_ & S1 & E1) (Hc & S2 & E2). split_and!; [done|by eapply settled_trans|].
  intros key [Hp|Hq] Hr.
  - eapply settled_ended; [done|]. by apply E1.
  - apply E2; [done|]. destruct Hr as [Hr|Hr]; [by eapply settled_ready|]. right. by eapply settled_ended.
Qed.

Lemma pass_none d : db_ok d -> pass d d (fun _ => False).
Proof. intros Hd. split_and!; [done|apply settled_refl|done]. Qed.

Lemma pass_weaken d d' (P Q : string -> Prop) : (forall key, Q key -> P key) -> pass d d' P -> pass d d' Q.
Proof. intros H (? & ? & He). split_and!; [done..|]. eauto. Qed.

Lemma processJobs_pass now traceID s jobs d :
  db_ok d -> let '(r, d') := processJobs now traceID s jobs d in
  pass d d' (fun key => is_ok r = true /\ exists job, job ∈ jobs /\ TraceID job = traceID /\ ID job = key).
Proof.
  revert d. induction jobs as [|job jobs IH]; intros d Hd; cbn [processJobs].
  - eapply pass_weaken; [|by apply pass_none]. intros key (_ & j & Hj & _). by apply elem_of_nil in Hj.
  - destruct (String.eqb_spec (TraceID job) traceID) as [Ht|Ht]; cbn [negb].
    + unfold mbind, DB_bind. pose proof (processAwaitingJob_step now job s d Hd) as Hstep.
      destruct (processAwaitingJob now job s d) as [[c|e] d1]; destruct Hstep as (Hd1 & S1 & R1).
      2: { split_and!; [done..|]. by intros key [? _]. }
      specialize (IH d1 Hd1). destruct (processJobs now traceID s jobs d1) as [[c2|e] d2].
      * eapply pass_weaken; [|apply (pass_seq d d1 d2 (fun key => ID job = key)); [|exact IH]].
        -- intros key (_ & j & Hj & Hjt & Hk). apply elem_of_cons in Hj as [->|Hj]; [by left|right; eauto].
        -- split_and!; [done..|]. intros key <- [Hr|He]; [auto|by eapply settled_ended].
      * destruct IH as (Hd2 & S2 & _). split_and!; [done|by eapply settled_trans|]. by intros key [? _].
    + specialize (IH d Hd). destruct (processJobs now traceID s jobs d) as [r d'].
      eapply pass_weaken; [|exact IH]. intros key (Hok & j & Hj & Hjt & Hk). apply elem_of_cons in Hj as [->|Hj]; [done|eauto].
Qed.

Lemma SummarizeTrace_db sprint goNow traceID d : (SummarizeTrace sprint goNow traceID d).2 = d.
Proof.
  unfold SummarizeTrace. destruct (String.eqb traceID ""); [done|].
  unfold mbind, DB_bind, GetJobRun. destruct (job_runs d !! traceID) as [r|]; [|done].
  destruct (negb _); [done|]. unfold loadTraceStateSummary, loadTraceBatchSummary, loadTraceAppliedSummary, query.
  destruct (sum_results _ _ _); [|done]. destruct (sum_results _ _ _); [|done]. by destruct (sum_results _ _ _).
Qed.

(** The traces of a pass are done in their order, up to the first that fails. *)
Lemma processTraces_pass sprint now goNow jobs order d :
  db_ok d -> let '(r, d') := processTraces sprint now goNow jobs order d in
  exists passed rest, order = passed ++ rest /\ (is_ok r = true <-> rest = []) /\
    pass d d' (fun key => exists job, job ∈ jobs /\ TraceID job ∈ passed /\ ID job = key).
Proof.
  assert (forall d P, db_ok d -> (forall key, ~ P key) -> pass d d P) as Hnone.
  { intros d0 P Hd0 HP. eapply pass_weaken; [|by apply pass_none]. intros key Hk. by apply (HP key). }
  revert d. induction order as [|traceID order IH]; intros d Hd; cbn [processTraces].
  - exists [], []. split_and!; [done..|]. apply Hnone; [done|]. intros key (j & _ & Hj & _). by apply elem_of_nil in Hj.
  - unfold mbind, DB_bind. pose proof (SummarizeTrace_db sprint goNow traceID d) as E0.
    destruct (SummarizeTrace sprint goNow traceID d) as [[s|e] d0]; cbn [snd] in E0; subst d0.
    2: { exists [], (traceID :: order). split_and!; [done|by split|]. apply Hnone; [done|]. intros key (j & _ & Hj & _). by apply elem_of_nil in Hj. }
    pose proof (processJobs_pass now traceID s jobs d Hd) as P1. destruct (processJobs now traceID s jobs d) as [[c|e] d1].
    2: { exists [], (traceID :: order). split_and!; [done|by split|]. eapply pass_weaken; [|exact P1]. intros key (j & _ & Hj & _). by apply elem_of_nil in Hj. }
    specialize (IH d1 (proj1 P1)). destruct (processTraces sprint now goNow jobs order d1) as [r d2].
    destruct IH as (passed & rest & -> & Hr & P2).
    assert (pass d d2 (fun key => (is_ok (Ok (E := store_error) c) = true /\ exists job, job ∈ jobs /\ TraceID job = traceID /\ ID job = key) \/
      (exists job, job ∈ jobs /\ TraceID job ∈ passed /\ ID job = key))) as P by (eapply pass_seq; [exact P1|exact P2]).
    destruct r; exists (traceID :: passed), rest; (split; [done|]); (split; [exact Hr|]); (eapply pass_weaken; [|exact P]; intros key (j & Hj & Hjt & Hk); apply elem_of_cons in Hjt as [Hjt|Hjt]; [left|right]; eauto).
Qed.

Lemma traceOrder_complete seen jobs job :
  job ∈ jobs -> TraceID job ∈ seen \/ TraceID job ∈ traceOrder seen jobs.
Proof.
  revert seen; induction jobs as [|j jobs IH]; intros seen Hj; [by apply elem_of_nil in Hj|].
  cbn. apply elem_of_cons in Hj as [->|Hj].
  - case_bool_decide; [by left|right; by left].
  - case_bool_decide as Hin; [by apply IH|].
    destruct (IH (TraceID j :: seen) Hj) as [H|H]; [|right; by right].
    apply elem_of_cons in H as [->|H]; [right; by left|by left].
Qed.

Lemma sorted_by_split {A} (lt : A -> A -> bool) n l x y : sorted_by lt l -> x ∈ firstn n l -> y ∈ skipn n l -> lt y x = false.
Proof.
  intros Hs. revert n. induction Hs as [|z l _ IH Hz]; intros [|n] Hx Hy; cbn in Hx, Hy; try by apply elem_of_nil in Hx.
  apply elem_of_cons in Hx as [->|Hx]; [|by eapply IH].
  rewrite List.Forall_forall in Hz. apply Hz. apply list_elem_of_In. rewrite <- (firstn_skipn n l). apply elem_of_app. by right.
Qed.

(** The jobs that a pass looks at: at most a hundred, and none that awaits its children is
    passed over for an older one. *)
Lemma listed_jobs d : keyed d -> exists jobs, ListAwaitingTraceJobs 100 d = (Ok jobs, d) /\ (List.length jobs <= 100)%nat /\
  (forall job, job ∈ jobs -> exists r, job_runs d !! ID job = Some r /\ awaiting r = true /\ job = scanJobRun r) /\
  forall key r, job_runs d !! key = Some r -> awaiting r = true -> scanJobRun r ∈ jobs \/
    List.length jobs = 100%nat /\ forall job, job ∈ jobs -> created_at r <= CreatedAt job.
Proof.
  intros Hk. unfold ListAwaitingTraceJobs, listAwaitingTraceJobs, query. change (Z.to_nat (clamp_limit 100)) with 100%nat.
  set (sel := select _ by_created_desc d). eexists. split; [reflexivity|]. rewrite length_map. split; [apply firstn_le_length|].
  assert (forall r, r ∈ sel <-> awaiting r = true /\ exists key, job_runs d !! key = Some r) as Hsel.
  { intros r. unfold sel. rewrite elem_of_select. cbn [negb]. by rewrite andb_true_r. }
  split.
  - intros job (r & -> & Hr)%list_elem_of_fmap. assert (r ∈ sel) as Hr'.
    { rewrite <- (firstn_skipn 100 sel). apply elem_of_app. by left. }
    apply Hsel in Hr' as (Ha & key & Hkey).
    exists r. cbn. by rewrite (Hk key r Hkey).
  - intros key r Hr Ha. assert (r ∈ sel) as Hin by (apply Hsel; eauto).
    rewrite <- (firstn_skipn 100 sel) in Hin. apply elem_of_app in Hin as [Hin|Hin]; [left; by apply list_elem_of_fmap_2|right].
    assert (100 < List.length sel)%nat as Hlen.
    { destruct (Nat.le_gt_cases (List.length sel) 100) as [Hle|]; [|done]. rewrite skipn_all2 in Hin by done. by apply elem_of_nil in Hin. }
    split; [apply firstn_length_le; lia|]. intros job (r1 & -> & Hr1)%list_elem_of_fmap. cbn.
    assert (by_created_desc r r1 = false) as Hb by (by apply (sorted_by_split _ 100 sel r1 r (by_created_desc_sorted _ d))).
    unfold by_created_desc, by_created, lex_before in Hb. apply orb_false_iff in Hb as [Hb _]. lia.
Qed.


(** ** Witnesses *)

(** A handler as those of the program are: it records its progress in its own row, requests a
    job for others, and waits for it. *)
Definition demo_handler : handler := fun run d =>
  let d := (UpdateJobRunProgress 22 (ID run) {["phase" := VString "enqueuing"]} d).2 in
  match CreateJobRun [2] 24 (mkCreate "import_objects" "" "job" (ID run) "bucket" "b1" ∅ 2 None) d with
  | (Ok child, d) => (Ok (FanOutResult {["import_objects" := [ID child]]} ∅), d)
  | (Err _, d) => (Err "create job", d)
  end.
Definition demo_registry : Registry := <["sync_bucket" := demo_handler]> ∅.
Definition demo_run : result store_error bool * db := RunOnce demo_registry "w1" 0 ∅ (mkClocks 20 30 30000) demo_db.

Lemma RunOnce_outcome_witness :
  exists d' r', demo_run = (Ok true, d') /\ job_runs d' !! "jobrun_01" = Some r' /\ locked_by r' = None.
Proof.
  pose proof (RunOnce_outcome demo_registry "w1" 0 ∅ (mkClocks 20 30 30000)
    [Some ("sync_bucket", demo_handler)] eq_refl demo_db ltac:(by exists demo_ops)) as H. fold demo_run in H.
  assert (demo_run.1 = Ok true) as Hok by (vm_compute; reflexivity).
  destruct demo_run as [[[|]|e] d'] eqn:E; try discriminate Hok. clear Hok.
  destruct H as (run & d1 & r & Hc & _ & _ & H).
  assert (ID run = "jobrun_01" /\ Type_ run = "sync_bucket") as [Hid Hty].
  { assert (match (ClaimJobRun ∅ 20 "w1" (Types demo_registry) demo_db).1 with
      | Ok run => bool_decide (ID run = "jobrun_01" /\ Type_ run = "sync_bucket") | Err _ => false end = true) as Hb by (vm_compute; reflexivity).
    cbn [claim_now] in Hc. rewrite Hc in Hb. exact (bool_decide_eq_true_1 _ Hb). }
  rewrite Hty in H. change (demo_registry !! "sync_bucket") with (Some demo_handler) in H.
  destruct H as (r2 & r' & _ & _ & Hl & _ & Hd). exists d', r'. split; [reflexivity|]. split; [|exact Hl].
  rewrite Hd, Hid. apply lookup_insert_eq.
Defined.

Lemma fanout_row_awaits_witness :
  exists r', outcome_row 0 (mkClocks 0 0 0) (Ok (FanOutResult {["import_objects" := ["a"]]} ∅))
      (claim_row "w1" 20 (mkJobRow "j" "j" "sync_bucket" Pending None None None None ∅ ∅ ∅ 1 1 0 None None None None None 0 0))
      = Some r' /\ awaiting r' = true.
Proof.
  destruct (outcome_row _ _ _ _) as [r'|] eqn:E.
  - exists r'. split; [reflexivity|].
    refine (proj1 (fanout_row_awaits 0 (mkClocks 0 0 0) {["import_objects" := ["a"]]} ∅ _ r' "import_objects" ["a"]
      eq_refl eq_refl _ _ _ E)); [by apply lookup_singleton_eq|done|reflexivity].
  - exfalso. apply (f_equal (fun x => bool_decide (x = None))) in E. revert E. vm_compute. discriminate.
Defined.


(** * The rounds of the runner

    [Run] of the job runner (apps/worker/internal/runner/runner.go): jobs are run until none
    can be claimed, then stale jobs are reclaimed, the completion ticker passes, and the
    runner sleeps.  A round is what lies between two sleeps; it ends when the handlers
    create no jobs, which is shown by the attempts that the pending jobs have left. *)

Section Loop.
Context (registry : Registry) (workerID : string) (sprint : value -> string) (interval : Z -> Z).
(** Settings of a round, the rows that others hold and the clocks of its [n]-th execution. *)
Context (retryDelay staleAfter : Z) (held : nat -> gset string) (clocks : nat -> Clocks).

(** The executions of a round, with fuel. *)
Fixpoint drain (fuel n : nat) : db -> option (result store_error unit * db) := fun d =>
  match fuel with
  | O => None
  | S fuel =>
      match RunOnce registry workerID retryDelay (held n) (clocks n) d with
      | (Ok true, d') => drain fuel (S n) d'
      | (Ok false, d') => Some (Ok tt, d')
      | (Err e, d') => Some (Err e, d')
      end
  end.

(** What follows them, at the time [now]. *)
Definition after_jobs (skip : gset string) (now goNow : Z) : DB unit :=
  _ ← ReclaimStaleLockedJobs interval skip now staleAfter 0;
  _ ← Tick sprint now goNow;
  mret tt.

Definition run_round (fuel : nat) (skip : gset string) (now goNow : Z) (d : db) : option (result store_error unit * db) :=
  match drain fuel 0 d with
  | Some (Ok _, d') => Some (after_jobs skip now goNow d')
  | o => o
  end.

(** ** The attempts that are left *)

(** The executions that a pending job still has. *)
Definition left_of (r : JobRow) : nat :=
  if bool_decide (state r = Pending) then S (Z.to_nat (max_attempts r - attempt r)) else 0%nat.
Definition total (m : gmap string JobRow) : nat := map_fold (fun _ r n => (left_of r + n)%nat) 0%nat m.

(** Rows are neither added nor given more executions. *)
Definition no_more_left (m m' : gmap string JobRow) : Prop :=
  forall key r', m' !! key = Some r' -> exists r, m !! key = Some r /\ id r' = id r /\ (left_of r' <= left_of r)%nat.

(** The handlers create no jobs, and change no more of the row of their own job than its
    progress. *)
Hypothesis handlers_leaf : forall ty h run d, registry !! ty = Some h ->
  no_more_left (job_runs d) (job_runs (h run d).2) /\
  forall r, job_runs d !! ID run = Some r -> exists r', job_runs (h run d).2 !! ID run = Some r' /\ working r r'.

Lemma total_insert m key r : m !! key = None -> total (<[key := r]> m) = (left_of r + total m)%nat.
Proof. intros Hk. unfold total. rewrite map_fold_insert_L; [done| |done]. intros. lia. Qed.

Lemma total_update m key r r' : m !! key = Some r -> (total (<[key := r']> m) + left_of r = total m + left_of r')%nat.
Proof.
  intros Hk. rewrite <- (insert_delete_id m key r Hk) at 2. rewrite <- (insert_delete_eq m key r').
  rewrite !total_insert by apply lookup_delete_eq. lia.
Qed.

Lemma total_mono m : forall m', no_more_left m m' -> (total m' <= total m)%nat.
Proof.
  induction m as [|key r m Hk IH] using map_ind; intros m' Hm.
  - assert (m' = ∅) as -> by (apply map_empty; intros key; destruct (m' !! key) as [r'|] eqn:E; [|done];
      destruct (Hm key r' E) as (r & Hr & _); by rewrite lookup_empty in Hr). done.
  - rewrite total_insert by done. destruct (m' !! key) as [r'|] eqn:E.
    + rewrite <- (insert_delete_id m' key r' E), total_insert by apply lookup_delete_eq.
      destruct (Hm key r' E) as (r0 & Hr0 & _ & Hle). rewrite lookup_insert_eq in Hr0. injection Hr0 as <-.
      specialize (IH (delete key m')). assert (total (delete key m') <= total m)%nat; [|lia]. apply IH.
      intros k s Hs. apply lookup_delete_Some in Hs as [Hne Hs]. destruct (Hm k s Hs) as (s0 & Hs0 & H).
      rewrite lookup_insert_ne in Hs0 by done. eauto.
    + specialize (IH m'). assert (total m' <= total m)%nat; [|lia]. apply IH. intros k s Hs.
      assert (key <> k) as Hne by congruence. destruct (Hm k s Hs) as (s0 & Hs0 & H). rewrite lookup_insert_ne in Hs0 by done. eauto.
Qed.

Lemma keyed_leaf m m' : (forall key r, m !! key = Some r -> id r = key) -> no_more_left m m' ->
  forall key r, m' !! key = Some r -> id r = key.
Proof. intros Hk Hm key r Hr. destruct (Hm key r Hr) as (r0 & Hr0 & -> & _). by apply Hk. Qed.

(** The row that an execution leaves has fewer executions left. *)
Lemma outcome_left clk outcome r r' : state r = Running ->
  outcome_row retryDelay clk outcome r = Some r' -> id r' = id r /\ (left_of r' <= Z.to_nat (max_attempts r - attempt r))%nat.
Proof.
  intros Hs. unfold outcome_row. destruct outcome as [res|cause].
  - destruct (encodeJobRunPayload res); cbn; [|done]. destruct (AwaitsChildren res); [|intros [= <-]; split; [done|apply Nat.le_0_l]].
    destruct (encodeJobRunPayload _); cbn; [|done]. intros [= <-]. split; [done|]. unfold left_of. cbn. rewrite Hs, bool_decide_false by done. lia.
  - intros [= <-]. destruct (Z.ltb_spec (attempt r) (max_attempts r)); [|split; [done|apply Nat.le_0_l]].
    split; [done|]. unfold left_of. rewrite bool_decide_true by done. cbn. lia.
Qed.
(** The end of an execution in the table. *)
Lemma keyed_insert (m : gmap string JobRow) key r : (forall k s, m !! k = Some s -> id s = k) -> id r = key ->
  forall k s, <[key := r]> m !! k = Some s -> id s = k.
Proof. intros Hm Hr k s [[<- <-]|[_ Hs]]%lookup_insert_Some; [done|by apply Hm]. Qed.

(** An execution takes one from what is left. *)
Lemma RunOnce_takes skip clk d d' : keyed d -> RunOnce registry workerID retryDelay skip clk d = (Ok true, d') ->
  keyed d' /\ (total (job_runs d') < total (job_runs d))%nat.
Proof.
  intros Hk. unfold RunOnce.
  destruct (ClaimJobRun_cases skip (claim_now clk) workerID (Types registry) d Hk) as [[-> _]|(r0 & Hr0 & Hc & _ & _ & E)]; [done|].
  rewrite E. clear E. set (r := claim_row workerID (claim_now clk) r0). set (m1 := <[id r0 := r]> (job_runs d)).
  assert (state r0 = Pending) as Hp by (unfold claimable in Hc; rewrite !andb_true_iff, bool_decide_eq_true in Hc; tauto).
  assert (total m1 + S (Z.to_nat (max_attempts r0 - attempt r0)) = total (job_runs d))%nat as Ht1.
  { pose proof (total_update (job_runs d) (id r0) r0 r Hr0) as H. unfold left_of in H. rewrite (bool_decide_true (state r0 = Pending)), (bool_decide_false (state r = Pending)) in H by done. unfold m1. lia. }
  assert (forall k s, m1 !! k = Some s -> id s = k) as Hk1 by (exact (keyed_insert _ _ _ Hk eq_refl)).
  unfold Get. destruct (registry !! Type_ (scanJobRun r)) as [h|] eqn:Eh.
  - destruct (handlers_leaf _ h (scanJobRun r) (mkDB m1 (job_spill d)) Eh) as [Hleaf Hown].
    destruct (h (scanJobRun r) (mkDB m1 (job_spill d))) as [outcome d2]. cbn [snd job_runs] in Hleaf, Hown.
    change (ID (scanJobRun r)) with (id r0) in Hown. destruct (Hown r) as (r2 & Hr2 & Hw); [apply lookup_insert_eq|]. clear Hown.
    pose proof (total_mono _ _ Hleaf) as Ht2. pose proof (keyed_leaf _ _ Hk1 Hleaf) as Hk2.
    pose proof (finishRun_row retryDelay clk (scanJobRun r) outcome d2) as Hf. change (ID (scanJobRun r)) with (id r0) in Hf. rewrite Hr2 in Hf.
    cbn [mbind option_bind] in Hf. rewrite (ended_row_working retryDelay clk outcome r r2 eq_refl Hw) in Hf.
    unfold mbind, DB_bind. destruct (outcome_row retryDelay clk outcome r2) as [r'|] eqn:Eo; [|by destruct Hf as [err ->]].
    destruct Hf as (d3 & -> & Hd3). intros [= <-]. unfold keyed. rewrite Hd3.
    destruct Hw as (Es & Ea & Em). destruct (outcome_left clk outcome r2 r' Es Eo) as [Hid Hl]. rewrite (Hk2 _ _ Hr2) in Hid.
    split; [exact (keyed_insert _ _ _ Hk2 Hid)|]. pose proof (total_update (job_runs d2) (id r0) r2 r' Hr2) as H.
    rewrite Ea, Em in Hl. change (max_attempts r) with (max_attempts r0) in Hl. change (attempt r) with (attempt r0) in Hl.
    assert (left_of r2 = 0%nat) as Hz by (unfold left_of; rewrite Es; done). lia.
  - unfold mbind, DB_bind, FailJobRun, update_row. cbn [job_runs]. change (ID (scanJobRun r)) with (id r0). unfold m1 at 1. rewrite lookup_insert_eq.
    intros [= <-]. cbn [job_runs]. split; [exact (keyed_insert _ _ _ Hk1 eq_refl)|].
    assert (m1 !! id r0 = Some r) as Hown by apply lookup_insert_eq.
    pose proof (total_update m1 (id r0) r (fail_row (end_now clk) (no_handler_message (Type_ (scanJobRun r))) r) Hown) as H.
    change (left_of r) with 0%nat in H. change (left_of (fail_row _ _ r)) with 0%nat in H. change (Type_ (scanJobRun r)) with (type_ r0) in H. unfold m1 in *. lia.
Qed.

(** A round ends, whatever the handlers answer: it makes no more executions than the pending
    jobs have left, and when it goes on to the ticker no job of the registered types could be
    claimed any more, but for the rows that others hold. *)
Theorem run_round_ends fuel skip now goNow d : keyed d -> (total (job_runs d) < fuel)%nat ->
  (exists r d', run_round fuel skip now goNow d = Some (r, d')) /\
  forall d1, drain fuel 0 d = Some (Ok tt, d1) ->
    exists n, forall key r, job_runs d1 !! key = Some r ->
      claimable (claim_now (clocks n)) (not_empty_types (Types registry)) r = true -> id r ∈ held n.
Proof.
  assert (forall n d, keyed d -> (total (job_runs d) < fuel)%nat ->
    exists r d', drain fuel n d = Some (r, d') /\ (r = Ok tt -> exists n, forall key r, job_runs d' !! key = Some r ->
      claimable (claim_now (clocks n)) (not_empty_types (Types registry)) r = true -> id r ∈ held n)) as H.
  { induction fuel as [|fuel IH]; intros n d0 Hk Ht; [lia|]. cbn [drain].
    destruct (RunOnce registry workerID retryDelay (held n) (clocks n) d0) as [[[]|e] d'] eqn:E.
    - destruct (RunOnce_takes _ _ _ _ Hk E) as [Hk' Ht']. apply IH; [done|lia].
    - exists (Ok tt), d'. split; [done|]. intros _. exists n. unfold RunOnce in E.
      destruct (ClaimJobRun_cases (held n) (claim_now (clocks n)) workerID (Types registry) d0 Hk) as [[Ec Hno]|(r0 & _ & _ & _ & _ & Ec)];
        rewrite Ec in E.
      + cbn in E. injection E as <-. exact Hno.
      + exfalso. revert E. destruct (Get registry _) as [h|]; [destruct (h _ _) as [outcome d2]|]; unfold mbind, DB_bind;
          [destruct (finishRun _ _ _ _ _) as [[|] ?]|destruct (FailJobRun _ _ _ _) as [[|] ?]]; done.
    - by exists (Err e), d'. }
  intros Hk Ht. destruct (H 0%nat d Hk Ht) as (r & d' & E & Hr). unfold run_round. rewrite E. split.
  - destruct r; [destruct (after_jobs skip now goNow d') as [r1 d1]|]; eauto.
  - intros d1 [= -> <-]. by apply Hr.
Qed.
End Loop.

(** ** Witness: a handler that always fails *)

Definition failing_registry : Registry := {[JobTypeScanBucket := fun _ d => (Err "boom", d)]}.
Definition one_scan : db := run_ops [OpCreate [7] 0 (mkCreate JobTypeScanBucket "" "user" "u1" "bucket" "b1" ∅ 3 None)] empty_db.
Definition later (n : nat) : Clocks := mkClocks (10 * (1 + Z.of_nat n)) (10 * (1 + Z.of_nat n)) 0.

Lemma failing_leaf ty h run d : failing_registry !! ty = Some h ->
  no_more_left (job_runs d) (job_runs (h run d).2) /\
  forall r, job_runs d !! ID run = Some r -> exists r', job_runs (h run d).2 !! ID run = Some r' /\ working r r'.
Proof.
  unfold failing_registry. intros [_ <-]%lookup_singleton_Some. split; [intros key r Hr; by exists r|]. intros r Hr. exists r. by split_and!.
Qed.

(** Three executions, and then nothing can be claimed. *)
Lemma run_round_ends_witness :
  (exists r d', run_round failing_registry "w" (fun _ => "") (fun d => d / 1000) 0 0 (fun _ => ∅) later 5 ∅ 1000 0 one_scan = Some (r, d')) /\
  map state (rows (default empty_db (snd <$> drain failing_registry "w" 0 (fun _ => ∅) later 5 0 one_scan))) = [Failed].
Proof.
  split; [|vm_compute; reflexivity].
  refine (proj1 (run_round_ends failing_registry "w" (fun _ => "") (fun d => d / 1000) 0 0 (fun _ => ∅) later failing_leaf 5 ∅ 1000 0 one_scan _ _)).
  - exact (ok_keyed one_scan (reachable_ok one_scan (ex_intro _ _ eq_refl))).
  - vm_compute. lia.
Defined.
