(* ===== verification/GoJson.v ===== *)
(** * GoJson

    What the sources use of encoding/json, on trees: [json.Marshal] builds the
    tree of a document and [json.Unmarshal] reads one.  The text of a document is in
    [GoJsonText] and [GoJsonWrite]; a [json.RawMessage] is the tree it holds. *)
From S2P Require Import Prelude GoStrings GoFloat.
Local Open Scope Z_scope.

(** Number literals: [JInt] has only digits (and a sign), [JFloat] is one with a
    fraction or an exponent, as the float64 it denotes.  The members of an object
    are in the order of the text. *)
Inductive json : Type :=
| JNull
| JBool (b : bool)
| JInt (z : Z)
| JFloat (f : spec_float)
| JString (s : string)
| JArray (l : list json)
| JObject (members : list (string * json)).

(** ** Strings

    [json.Marshal] replaces the bytes that are not UTF-8 by U+FFFD. *)
Definition cont (lo hi : Z) (s : string) : bool :=
  match s with String c _ => in_range lo hi c | EmptyString => false end.
Definition tail (s : string) : string := match s with String _ s => s | EmptyString => "" end.

(** The length of the rune at the head of [s]; [None] when it is not UTF-8. *)
Definition rune_size (s : string) : option nat :=
  match s with
  | EmptyString => None
  | String c s =>
      let b := byte c in
      let two := cont 128 191 (tail s) in
      let three := two && cont 128 191 (tail (tail s)) in
      if b <? 128 then Some 1%nat
      else if b <? 194 then None
      else if b <? 224 then if cont 128 191 s then Some 2%nat else None
      else if b =? 224 then if cont 160 191 s && two then Some 3%nat else None
      else if b =? 237 then if cont 128 159 s && two then Some 3%nat else None
      else if b <? 240 then if cont 128 191 s && two then Some 3%nat else None
      else if b =? 240 then if cont 144 191 s && three then Some 4%nat else None
      else if b <? 244 then if cont 128 191 s && three then Some 4%nat else None
      else if b =? 244 then if cont 128 143 s && three then Some 4%nat else None
      else None
  end.

Definition replacement : string := String (byte_of 239) (String (byte_of 191) (String (byte_of 189) "")).

(** [skip] bytes of the current rune are still to be copied. *)
Fixpoint coerce (skip : nat) (s : string) : string :=
  match s with
  | EmptyString => ""
  | String c rest =>
      match skip with
      | S k => String c (coerce k rest)
      | O => match rune_size s with
             | Some n => String c (coerce (pred n) rest)
             | None => replacement +:+ coerce 0 rest
             end
      end
  end.
Definition coerceUTF8 (s : string) : string := coerce 0 s.
Definition valid_utf8 (s : string) : bool := String.eqb (coerceUTF8 s) s.

Lemma valid_utf8_eq s : valid_utf8 s = true -> coerceUTF8 s = s.
Proof. apply String.eqb_eq. Qed.

Lemma ascii_valid s : string_forall (fun c => byte c <? 128) s = true -> valid_utf8 s = true.
Proof.
  intros H. apply String.eqb_eq. unfold coerceUTF8. induction s as [|c s IH]; [done|].
  cbn [string_forall] in H. apply andb_true_iff in H as [Hc Hs]. cbn [coerce rune_size].
  rewrite Hc. cbn [pred]. by rewrite IH.
Qed.

Definition jstring (s : string) : json := JString (coerceUTF8 s).

(** ** Reading *)

(** [json.Unmarshal] into [map[string]json.RawMessage]: [None] is the type error;
    null is the empty map, and the last of two equal keys counts. *)
Definition as_object (j : json) : option (list (string * json)) :=
  match j with
  | JObject members => Some members
  | JNull => Some []
  | _ => None
  end.

Fixpoint get (key : string) (members : list (string * json)) : option json :=
  match members with
  | [] => None
  | (k, v) :: members =>
      match get key members with
      | Some v' => Some v'
      | None => if String.eqb k key then Some v else None
      end
  end.

(** Into a struct, the names of the fields are matched up to case. *)
Fixpoint get_field (name : string) (members : list (string * json)) : option json :=
  match members with
  | [] => None
  | (k, v) :: members =>
      match get_field name members with
      | Some v' => Some v'
      | None => if EqualFold k name then Some v else None
      end
  end.

(** Into a string, a bool, an int64 and a float64: null leaves the zero value. *)
Definition as_text (j : json) : option string :=
  match j with JString s => Some s | JNull => Some "" | _ => None end.
Definition as_bool (j : json) : option bool :=
  match j with JBool b => Some b | JNull => Some false | _ => None end.
Definition in_int64 (z : Z) : bool := (- 2 ^ 63 <=? z) && (z <? 2 ^ 63).
Definition as_int64 (j : json) : option Z :=
  match j with
  | JInt z => if in_int64 z then Some z else None
  | JNull => Some 0
  | _ => None
  end.
Definition finite (f : spec_float) : bool :=
  match f with S754_zero _ | S754_finite _ _ _ => true | _ => false end.
Definition as_float64 (j : json) : option spec_float :=
  match j with
  | JInt z => if finite (float_of_Z z) then Some (float_of_Z z) else None
  | JFloat f => Some f
  | JNull => Some (S754_zero false)
  | _ => None
  end.
(** Into a slice of RawMessages. *)
Definition as_array (j : json) : option (list json) :=
  match j with JArray l => Some l | JNull => Some [] | _ => None end.

(** A string field keeps its zero value when it is absent. *)
Definition text_field (name : string) (members : list (string * json)) : option string :=
  match get_field name members with Some j => as_text j | None => Some "" end.

(** ** Depth: the recursion measure of the decoders *)

Fixpoint depth (j : json) : nat :=
  match j with
  | JArray l => S (fold_right Nat.max 0%nat (map depth l))
  | JObject members => S (fold_right Nat.max 0%nat (map (fun m => depth m.2) members))
  | _ => 0%nat
  end.

Lemma depth_array l j : j ∈ l -> (depth j < depth (JArray l))%nat.
Proof.
  intros H. cbn. assert (depth j <= fold_right Nat.max 0%nat (map depth l))%nat; [|lia].
  apply max_list_elem, list_elem_of_In, in_map. by apply list_elem_of_In.
Qed.

Lemma depth_member k j members : (k, j) ∈ members -> (depth j < depth (JObject members))%nat.
Proof.
  intros H. cbn. assert (depth j <= fold_right Nat.max 0%nat (map (fun m => depth m.2) members))%nat; [|lia].
  apply max_list_elem, list_elem_of_In, (in_map (fun m => depth m.2) members (k, j)). by apply list_elem_of_In.
Qed.

Lemma get_elem key members j : get key members = Some j -> (key, j) ∈ members.
Proof.
  induction members as [|[k v] members IH]; cbn; [done|].
  destruct (get key members) as [v'|]; [intros [= ->]; right; auto|].
  destruct (String.eqb_spec k key) as [->|]; [|done]. intros [= ->]. left.
Qed.

Lemma get_field_elem name members j : get_field name members = Some j -> exists k, (k, j) ∈ members.
Proof.
  induction members as [|[k v] members IH]; cbn; [done|].
  destruct (get_field name members) as [v'|].
  - intros [= ->]. destruct (IH eq_refl) as [k' H]. exists k'. by right.
  - destruct (EqualFold k name); [|done]. intros [= ->]. exists k. left.
Qed.

Lemma as_object_depth j members k v :
  as_object j = Some members -> (k, v) ∈ members -> (depth v < depth j)%nat.
Proof.
  destruct j; cbn [as_object]; try done.
  - intros [= <-] H. by apply elem_of_nil in H.
  - intros [= <-] H. by eapply depth_member.
Qed.

Lemma as_array_depth j l v : as_array j = Some l -> v ∈ l -> (depth v < depth j)%nat.
Proof.
  destruct j; cbn [as_array]; try done.
  - intros [= <-] H. by apply elem_of_nil in H.
  - intros [= <-] H. by apply depth_array.
Qed.
