(* ===== verification/GoJsonText.v ===== *)
(** * GoJsonText

    The text layer of [json.Unmarshal] (encoding/json): the tree of a document, or
    [None] for a syntax error.  [unmarshal_weight] bounds the strings of a document
    by its length, which is what a parser of documents within documents needs.  The
    second part is the writer, [json.Marshal]. *)
From S2P Require Import Prelude GoStrings GoFloat JobPayload GoJson.
Local Open Scope Z_scope.

Definition is_ws (c : ascii) : bool := (byte c =? 32) || in_range 9 10 c || (byte c =? 13).
Definition skip_ws (s : string) : string := (span is_ws s).2.

(** ** Strings *)

Definition hex_val (c : ascii) : option Z :=
  if in_range 48 57 c then Some (byte c - 48)
  else if in_range 97 102 c then Some (byte c - 87)
  else if in_range 65 70 c then Some (byte c - 55) else None.

(** [getu4]. *)
Definition hex4 (a b c d : ascii) : option Z :=
  a ← hex_val a; b ← hex_val b; c ← hex_val c; d ← hex_val d;
  Some (a * 4096 + b * 256 + c * 16 + d).

(** [utf8.EncodeRune] of a code point that is not a surrogate. *)
Definition encode_rune (r : Z) : string :=
  let b z := byte_of z in
  if r <? 128 then String (b r) ""
  else if r <? 2048 then String (b (192 + r / 64)) (String (b (128 + r mod 64)) "")
  else if r <? 65536 then
    String (b (224 + r / 4096)) (String (b (128 + r / 64 mod 64)) (String (b (128 + r mod 64)) ""))
  else String (b (240 + r / 262144)) (String (b (128 + r / 4096 mod 64))
         (String (b (128 + r / 64 mod 64)) (String (b (128 + r mod 64)) ""))).

Definition is_surrogate (r : Z) : bool := (55296 <=? r) && (r <? 57344).

(** [utf16.DecodeRune]: [None] is U+FFFD. *)
Definition surrogate_pair (hi lo : Z) : option Z :=
  if (55296 <=? hi) && (hi <? 56320) && (56320 <=? lo) && (lo <? 57344)
  then Some ((hi - 55296) * 1024 + (lo - 56320) + 65536) else None.

Definition simple_escape (c : ascii) : option ascii :=
  if (byte c =? 34) || (byte c =? 92) || (byte c =? 47) then Some c
  else if Ascii.eqb c "b" then Some (byte_of 8)
  else if Ascii.eqb c "f" then Some (byte_of 12)
  else if Ascii.eqb c "n" then Some (byte_of 10)
  else if Ascii.eqb c "r" then Some (byte_of 13)
  else if Ascii.eqb c "t" then Some (byte_of 9)
  else None.

Definition prepend (pre : string) (r : option (string * string)) : option (string * string) :=
  '(text, rest) ← r; Some (pre +:+ text, rest).

(** What follows the opening quote: the text of the string, and what follows its
    closing quote.  [skip] bytes of the current rune are still to be copied. *)
Fixpoint string_body (skip : nat) (s : string) : option (string * string) :=
  match s with
  | EmptyString => None
  | String c s1 =>
      match skip with
      | S k => prepend (String c "") (string_body k s1)
      | O =>
          if byte c =? 34 then Some ("", s1)
          else if byte c =? 92 then
            match s1 with
            | String u s2 =>
                if Ascii.eqb u "u" then
                  match s2 with
                  | String x1 (String x2 (String x3 (String x4 s3))) =>
                      match hex4 x1 x2 x3 x4 with
                      | None => None
                      | Some r =>
                          if is_surrogate r then
                            match s3 with
                            | String b (String v (String y1 (String y2 (String y3 (String y4 s4))))) =>
                                match (if (byte b =? 92) && Ascii.eqb v "u" then hex4 y1 y2 y3 y4 else None)
                                        ≫= surrogate_pair r with
                                | Some r => prepend (encode_rune r) (string_body 0 s4)
                                | None => prepend replacement (string_body 0 s3)
                                end
                            | _ => prepend replacement (string_body 0 s3)
                            end
                          else prepend (encode_rune r) (string_body 0 s3)
                      end
                  | _ => None
                  end
                else match simple_escape u with
                     | Some e => prepend (String e "") (string_body 0 s2)
                     | None => None
                     end
            | EmptyString => None
            end
          else if byte c <? 32 then None
          else match rune_size s with
               | Some n => prepend (String c "") (string_body (pred n) s1)
               | None => prepend replacement (string_body 0 s1)
               end
      end
  end.

(** ** Numbers *)

(** The exponent after the digits of a number: [None] when there is none. *)
Definition exponent (s : string) : option (option Z * string) :=
  match s with
  | String c s1 =>
      if Ascii.eqb c "e" || Ascii.eqb c "E" then
        let '(neg, s2) := match s1 with
          | String d s2 => if Ascii.eqb d "-" then (true, s2) else if Ascii.eqb d "+" then (false, s2) else (false, s1)
          | EmptyString => (false, s1)
          end in
        let '(digits, rest) := span IsDigit s2 in
        if is_digits digits then Some (Some (if neg : bool then - dec_value digits else dec_value digits), rest) else None
      else Some (None, s)
  | EmptyString => Some (None, s)
  end.

(** The float64 of a literal with a fraction or an exponent. *)
Definition literal_float (neg : bool) (mantissa : Z) (places : nat) (e : Z) : spec_float :=
  let e := e - Z.of_nat places in
  if 0 <=? e then float_of_decimal neg (mantissa * 10 ^ e) 0 else float_of_decimal neg mantissa (Z.to_nat (- e)).

Definition number (s : string) : option (json * string) :=
  let '(neg, s) := match s with String c s' => if Ascii.eqb c "-" then (true, s') else (false, s) | EmptyString => (false, s) end in
  let '(whole, s) := match s with
    | String c s' => if Ascii.eqb c "0" then ("0", s') else span IsDigit s
    | EmptyString => ("", s)
    end in
  if negb (is_digits whole) then None
  else
    '(fraction, s) ← match s with
      | String c s' =>
          if Ascii.eqb c "." then let '(digits, rest) := span IsDigit s' in
            if is_digits digits then Some (Some digits, rest) else None
          else Some (None, s)
      | EmptyString => Some (None, s)
      end;
    '(e, rest) ← exponent s;
    match fraction, e with
    | None, None => Some (JInt (if neg : bool then - dec_value whole else dec_value whole), rest)
    | _, _ =>
        let digits := default "" fraction in
        Some (JFloat (literal_float neg (dec_value (whole +:+ digits)) (String.length digits) (default 0 e)), rest)
    end.

(** ** Values *)

(** The elements up to the closing bracket, and the members up to the closing brace;
    [n] bounds their number by the length of the text. *)
Fixpoint elements (item : string -> option (json * string)) (n : nat) (s : string) : option (list json * string) :=
  match n with
  | O => None
  | S n =>
      '(j, s) ← item s;
      match skip_ws s with
      | String c s =>
          if Ascii.eqb c "]" then Some ([j], s)
          else if Ascii.eqb c "," then '(l, rest) ← elements item n s; Some (j :: l, rest)
          else None
      | EmptyString => None
      end
  end.

Definition member (item : string -> option (json * string)) (s : string) : option (string * json * string) :=
  match skip_ws s with
  | String q s =>
      if byte q =? 34 then
        '(k, s) ← string_body 0 s;
        match skip_ws s with
        | String c s => if Ascii.eqb c ":" then '(j, s) ← item s; Some (k, j, s) else None
        | EmptyString => None
        end
      else None
  | EmptyString => None
  end.

Fixpoint members (item : string -> option (json * string)) (n : nat) (s : string) : option (list (string * json) * string) :=
  match n with
  | O => None
  | S n =>
      '(k, j, s) ← member item s;
      match skip_ws s with
      | String c s =>
          if Ascii.eqb c "}" then Some ([(k, j)], s)
          else if Ascii.eqb c "," then '(l, rest) ← members item n s; Some ((k, j) :: l, rest)
          else None
      | EmptyString => None
      end
  end.

Definition keyword (s : string) : option (json * string) :=
  match dropPrefix "null" s, dropPrefix "true" s, dropPrefix "false" s with
  | Some rest, _, _ => Some (JNull, rest)
  | _, Some rest, _ => Some (JBool true, rest)
  | _, _, Some rest => Some (JBool false, rest)
  | _, _, _ => number s
  end.

(** [depth] containers may still be open. *)
Fixpoint parse_value (depth : nat) (s : string) : option (json * string) :=
  match skip_ws s with
  | String c s1 =>
      if byte c =? 34 then '(text, rest) ← string_body 0 s1; Some (JString text, rest)
      else if Ascii.eqb c "[" then
        match depth with
        | O => None
        | S depth =>
            match skip_ws s1 with
            | String d rest =>
                if Ascii.eqb d "]" then Some (JArray [], rest)
                else '(l, rest) ← elements (parse_value depth) (String.length s1) s1; Some (JArray l, rest)
            | EmptyString => None
            end
        end
      else if Ascii.eqb c "{" then
        match depth with
        | O => None
        | S depth =>
            match skip_ws s1 with
            | String d rest =>
                if Ascii.eqb d "}" then Some (JObject [], rest)
                else '(l, rest) ← members (parse_value depth) (String.length s1) s1; Some (JObject l, rest)
            | EmptyString => None
            end
        end
      else keyword (String c s1)
  | EmptyString => None
  end.

Definition maxNestingDepth : N := 10000.

Definition unmarshal (s : string) : option json :=
  '(j, rest) ← parse_value (N.to_nat maxNestingDepth) s;
  if String.eqb (skip_ws rest) "" then Some j else None.

(** ** The strings of a document are no longer than its text

    Lengths are those of the UTF-8 the decoder reads: [clen]. *)

Definition clen (s : string) : nat := String.length (coerceUTF8 s).

Lemma clen_ascii c s : byte c < 128 -> clen (String c s) = S (clen s).
Proof.
  intros H. unfold clen, coerceUTF8. cbn [coerce rune_size]. by rewrite (proj2 (Z.ltb_lt _ _) H).
Qed.

Lemma clen_span p s : (forall c, p c = true -> byte c < 128) -> (clen (span p s).2 <= clen s)%nat.
Proof.
  intros Hp. induction s as [|c s IH]; [done|]. cbn [span]. destruct (p c) eqn:E; [|done].
  rewrite clen_ascii by auto. destruct (span p s). cbn [fst snd] in *. lia.
Qed.

Lemma clen_skip_ws s : (clen (skip_ws s) <= clen s)%nat.
Proof. apply clen_span. intros c. unfold is_ws, in_range. rewrite !orb_true_iff, andb_true_iff. lia. Qed.

Lemma clen_digits s : (clen (span IsDigit s).2 <= clen s)%nat.
Proof. apply clen_span. intros c. unfold IsDigit, in_range. rewrite andb_true_iff. lia. Qed.

Lemma clen_dropPrefix pre s rest : string_forall (fun c => byte c <? 128) pre = true ->
  dropPrefix pre s = Some rest -> (clen rest <= clen s)%nat.
Proof.
  revert s. induction pre as [|c pre IH]; intros s Hp; cbn [dropPrefix]; [by intros [= ->]|].
  destruct s as [|d s]; [done|]. cbn [string_forall] in Hp. apply andb_true_iff in Hp as [Hc Hp].
  destruct (Ascii.eqb_spec c d) as [->|]; [|done]. intros H. apply Z.ltb_lt in Hc. rewrite clen_ascii by done.
  apply IH in H; [lia|done].
Qed.

(** A character that equals an ASCII one. *)
Lemma eqb_ascii c d : Ascii.eqb c d = true -> byte d < 128 -> byte c < 128.
Proof. by intros ->%Ascii.eqb_eq. Qed.
Ltac clen_ascii := match goal with
  | H : Ascii.eqb ?c _ = true |- context [clen (String ?c _)] =>
      rewrite (clen_ascii c) by (apply (eqb_ascii _ _ H); vm_compute; reflexivity)
  | H : (byte ?c =? _) = true |- context [clen (String ?c _)] =>
      rewrite (clen_ascii c) by (apply Z.eqb_eq in H; lia)
  end.

Lemma clen_exponent s e rest : exponent s = Some (e, rest) -> (clen rest <= clen s)%nat.
Proof.
  unfold exponent. destruct s as [|c s]; [by intros [= <- <-]|].
  destruct (Ascii.eqb c "e" || Ascii.eqb c "E") eqn:Ec; [|by intros [= <- <-]].
  assert (clen (String c s) = S (clen s)) as ->.
  { apply orb_true_iff in Ec as [Ec|Ec]; by clen_ascii. }
  destruct s as [|d s]; [done|].
  destruct (Ascii.eqb d "-") eqn:Ed; [|destruct (Ascii.eqb d "+") eqn:Ed'].
  - pose proof (clen_digits s). destruct (span IsDigit s). destruct (is_digits _); [|done]. intros [= _ <-]. clen_ascii. cbn [fst snd] in *. lia.
  - pose proof (clen_digits s). destruct (span IsDigit s). destruct (is_digits _); [|done]. intros [= _ <-]. clen_ascii. cbn [fst snd] in *. lia.
  - pose proof (clen_digits (String d s)). destruct (span IsDigit (String d s)). destruct (is_digits _); [|done].
    intros [= _ <-]. cbn [fst snd] in *. lia.
Qed.

(** A number holds no string. *)
Definition scalar (j : json) : Prop := match j with JInt _ | JFloat _ => True | _ => False end.

Lemma clen_number s j rest : number s = Some (j, rest) -> scalar j /\ (clen rest <= clen s)%nat.
Proof.
  unfold number.
  set (signed := match s with String c s' => if Ascii.eqb c "-" then (true, s') else (false, s) | EmptyString => (false, s) end).
  assert (clen signed.2 <= clen s)%nat as H1.
  { subst signed. destruct s as [|c s]; [done|]. destruct (Ascii.eqb c "-") eqn:E; cbn [snd]; [clen_ascii; lia|done]. }
  destruct signed as [neg s0]. cbn [snd] in H1.
  set (w := match s0 with String c s' => if Ascii.eqb c "0" then ("0", s') else span IsDigit s0 | EmptyString => ("", s0) end).
  assert (clen w.2 <= clen s0)%nat as H2.
  { subst w. destruct s0 as [|c s']; [done|]. destruct (Ascii.eqb c "0") eqn:E; [cbn [snd]; clen_ascii; lia|apply clen_digits]. }
  destruct w as [whole s2]. cbn [snd] in H2. destruct (negb _); [done|].
  set (f := match s2 with
      | String c s' =>
          if Ascii.eqb c "." then let '(digits, rest) := span IsDigit s' in
            if is_digits digits then Some (Some digits, rest) else None
          else Some (None, s2)
      | EmptyString => Some (None, s2)
      end).
  assert (forall x s3, f = Some (x, s3) -> (clen s3 <= clen s2)%nat) as H3.
  { subst f. intros x s3. destruct s2 as [|c s']; [by intros [= _ <-]|]. destruct (Ascii.eqb c ".") eqn:E; [|by intros [= _ <-]].
    pose proof (clen_digits s'). destruct (span IsDigit s'). destruct (is_digits _); [|done]. intros [= _ <-]. clen_ascii. cbn [fst snd] in *. lia. }
  destruct f as [[x s3]|]; [|done]. specialize (H3 x s3 eq_refl). cbn [mbind option_bind].
  destruct (exponent s3) as [[e s4]|] eqn:Ee; [|done]. apply clen_exponent in Ee. cbn [mbind option_bind].
  destruct x, e; intros [= <- <-]; (split; [exact I|lia]).
Qed.

(** ** Strings are UTF-8 *)

(** The size of a rune depends on its bytes only. *)
Lemma rune_size_local c pre a b n :
  rune_size (String c (pre +:+ a)) = Some n -> String.length pre = pred n -> rune_size (String c (pre +:+ b)) = Some n.
Proof.
  unfold rune_size. intros H Hl.
  destruct pre as [|p1 [|p2 [|p3 [|p4 pre]]]]; cbn [String.append tail cont String.length] in *;
    repeat case_match; simplify_eq; cbn in *; try done; try lia; naive_solver.
Qed.

Lemma prepend_Some pre r t rest : prepend pre r = Some (t, rest) -> exists t', r = Some (t', rest) /\ t = pre +:+ t'.
Proof. unfold prepend. destruct r as [[t' rest']|]; cbn; [|done]. intros [= <- <-]. by exists t'. Qed.

Lemma string_body_copy k : forall s t rest, string_body k s = Some (t, rest) ->
  exists pre s' t', s = pre +:+ s' /\ t = pre +:+ t' /\ String.length pre = k.
Proof.
  induction k as [|k IH]; intros s t rest H; [by exists "", s, t|].
  destruct s as [|c s]; [done|]. apply prepend_Some in H as (t1 & H & ->).
  apply IH in H as (pre & s' & t' & -> & -> & <-). by exists (String c pre), s', t'.
Qed.

Lemma coerce_replacement t : coerceUTF8 (replacement +:+ t) = replacement +:+ coerceUTF8 t.
Proof. reflexivity. Qed.

(** The text of [encode_rune]: at most three bytes in the basic plane, and UTF-8. *)
Definition code_point (r : Z) : Prop := 0 <= r < 1114112 /\ is_surrogate r = false.

Ltac rune_bytes :=
  unfold coerceUTF8; cbn [String.append coerce rune_size tail cont]; unfold in_range;
  rewrite !byte_byte_of by (Z.div_mod_to_equations; lia);
  repeat match goal with
  | |- context [(?a <? ?b)] =>
      (rewrite (proj2 (Z.ltb_lt a b)) by (Z.div_mod_to_equations; lia)) ||
      (rewrite (proj2 (Z.ltb_ge a b)) by (Z.div_mod_to_equations; lia))
  | |- context [(?a <=? ?b)] =>
      (rewrite (proj2 (Z.leb_le a b)) by (Z.div_mod_to_equations; lia)) ||
      (rewrite (proj2 (Z.leb_gt a b)) by (Z.div_mod_to_equations; lia))
  | |- context [(?a =? ?b)] =>
      (rewrite (proj2 (Z.eqb_neq a b)) by (Z.div_mod_to_equations; lia)) ||
      (rewrite (proj2 (Z.eqb_eq a b)) by (Z.div_mod_to_equations; lia))
  end; cbn [andb orb pred coerce]; reflexivity.

Lemma coerce_encode_1 r t : 0 <= r < 128 -> coerceUTF8 (encode_rune r +:+ t) = encode_rune r +:+ coerceUTF8 t.
Proof. intros H. unfold encode_rune. rewrite (proj2 (Z.ltb_lt r 128)) by lia. rune_bytes. Qed.

Lemma coerce_encode_2 r t : 128 <= r < 2048 -> coerceUTF8 (encode_rune r +:+ t) = encode_rune r +:+ coerceUTF8 t.
Proof.
  intros H. unfold encode_rune. rewrite (proj2 (Z.ltb_ge r 128)), (proj2 (Z.ltb_lt r 2048)) by lia. rune_bytes.
Qed.

Lemma coerce_encode_3 r t : 2048 <= r < 65536 -> is_surrogate r = false ->
  coerceUTF8 (encode_rune r +:+ t) = encode_rune r +:+ coerceUTF8 t.
Proof.
  unfold is_surrogate. rewrite andb_false_iff, Z.leb_gt, Z.ltb_ge. intros H Hs. unfold encode_rune.
  rewrite (proj2 (Z.ltb_ge r 128)), (proj2 (Z.ltb_ge r 2048)), (proj2 (Z.ltb_lt r 65536)) by lia.
  assert (2048 <= r < 4096 \/ 4096 <= r < 53248 \/ 53248 <= r < 55296 \/ 57344 <= r < 65536) as [H1|[H1|[H1|H1]]] by lia;
    rune_bytes.
Qed.

Lemma coerce_encode_4 r t : 65536 <= r < 1114112 -> coerceUTF8 (encode_rune r +:+ t) = encode_rune r +:+ coerceUTF8 t.
Proof.
  intros H. unfold encode_rune.
  rewrite (proj2 (Z.ltb_ge r 128)), (proj2 (Z.ltb_ge r 2048)), (proj2 (Z.ltb_ge r 65536)) by lia.
  assert (65536 <= r < 262144 \/ 262144 <= r < 1048576 \/ 1048576 <= r < 1114112) as [H1|[H1|H1]] by lia; rune_bytes.
Qed.

Lemma coerce_encode r t : code_point r -> coerceUTF8 (encode_rune r +:+ t) = encode_rune r +:+ coerceUTF8 t.
Proof.
  intros [Hr Hs]. assert (r < 128 \/ 128 <= r < 2048 \/ 2048 <= r < 65536 \/ 65536 <= r) as [H|[H|[H|H]]] by lia.
  - apply coerce_encode_1; lia.
  - apply coerce_encode_2; lia.
  - apply coerce_encode_3; [lia..|done].
  - apply coerce_encode_4; lia.
Qed.

Lemma encode_length r : (String.length (encode_rune r) <= if (r <? 65536)%Z then 3 else 4)%nat.
Proof. unfold encode_rune. destruct (r <? 128) eqn:?, (r <? 2048) eqn:?, (r <? 65536) eqn:?; cbn; lia. Qed.

Lemma hex_val_range c v : hex_val c = Some v -> byte c < 128 /\ 0 <= v < 16.
Proof.
  unfold hex_val, in_range. intros H. destruct (_ && _) eqn:E1 in H; [|destruct (_ && _) eqn:E2 in H; [|destruct (_ && _) eqn:E3 in H]];
    simplify_eq; rewrite andb_true_iff in *; lia.
Qed.

Lemma hex4_range a b c d r : hex4 a b c d = Some r ->
  (byte a < 128 /\ byte b < 128 /\ byte c < 128 /\ byte d < 128) /\ 0 <= r < 65536.
Proof.
  unfold hex4. destruct (hex_val a) eqn:Ea, (hex_val b) eqn:Eb, (hex_val c) eqn:Ec, (hex_val d) eqn:Ed; cbn; try done.
  intros [= <-]. apply hex_val_range in Ea, Eb, Ec, Ed. lia.
Qed.

Lemma surrogate_pair_range hi lo r : surrogate_pair hi lo = Some r -> 65536 <= r < 1114112.
Proof. unfold surrogate_pair. destruct (_ && _) eqn:E; [|done]. intros [= <-]. rewrite !andb_true_iff in E. lia. Qed.

Lemma simple_escape_ascii c e : simple_escape c = Some e -> byte c < 128 /\ byte e < 128.
Proof.
  unfold simple_escape. destruct (_ || _) eqn:E; [rewrite !orb_true_iff in E; intros [= <-]; lia|].
  repeat match goal with |- context [Ascii.eqb c ?d] =>
    destruct (Ascii.eqb_spec c d) as [->|]; [intros [= <-]; split; vm_compute; reflexivity|] end. done.
Qed.

(** What [string_body] guarantees: with [k] bytes of a rune to copy, the text is
    UTF-8 and, with the rest, shorter than what was read. *)
Definition body_ok (k : nat) (s t rest : string) : Prop :=
  coerce k t = t /\ (String.length t + 1 + clen rest <= String.length (coerce k s))%nat.

(** The step of an escape, which reads [n] bytes of ASCII. *)
Lemma body_prepend pre s s' t rest n :
  coerceUTF8 (pre +:+ t) = pre +:+ coerceUTF8 t -> (String.length pre <= n)%nat -> (clen s' + n <= clen s)%nat ->
  body_ok 0 s' t rest -> body_ok 0 s (pre +:+ t) rest.
Proof.
  unfold body_ok. fold (coerceUTF8 t). fold (coerceUTF8 (pre +:+ t)). fold (coerceUTF8 s). fold (clen s).
  fold (coerceUTF8 s'). fold (clen s'). intros Hc Hp Hs [Ht Hl]. rewrite Hc, Ht. split; [done|].
  rewrite string_length_app. lia.
Qed.

Lemma string_body_ok s : forall k t rest, string_body k s = Some (t, rest) -> body_ok k s t rest.
Proof.
  induction s as [s IH] using (well_founded_induction (well_founded_ltof _ String.length)).
  intros k t rest. destruct s as [|c s]; [done|]. cbn [string_body].
  assert (forall s', (String.length s' <= String.length s)%nat -> forall k t rest, string_body k s' = Some (t, rest) ->
    body_ok k s' t rest) as IHs by (intros s' Hs; apply IH; unfold ltof; cbn; lia). clear IH.
  destruct k as [|k].
  2: { intros (t' & H & ->)%prepend_Some. apply IHs in H as [H1 H2]; [|done]. split; cbn; [by rewrite H1|lia]. }
  destruct (byte c =? 34) eqn:E34.
  { intros [= <- <-]. split; [done|]. fold (coerceUTF8 (String c s)). fold (clen (String c s)). clen_ascii. cbn. lia. }
  destruct (byte c =? 92) eqn:E92.
  { assert (clen (String c s) = S (clen s)) as Hcs by (by clen_ascii).
    destruct s as [|u s2]; [done|]. destruct (Ascii.eqb u "u") eqn:Eu.
    - assert (clen (String u s2) = S (clen s2)) as Hus by (by clen_ascii).
      destruct s2 as [|x1 [|x2 [|x3 [|x4 s3]]]]; try done. destruct (hex4 x1 x2 x3 x4) as [r|] eqn:Er; [|done].
      apply hex4_range in Er as [(Hx1 & Hx2 & Hx3 & Hx4) Hr]. rewrite !(clen_ascii _ _ Hx1), (clen_ascii _ _ Hx2), (clen_ascii _ _ Hx3), (clen_ascii _ _ Hx4) in Hus.
      assert (forall t, prepend replacement (string_body 0 s3) = Some (t, rest) -> body_ok 0 (String c (String u (String x1 (String x2 (String x3 (String x4 s3)))))) t rest) as Hrep.
      { intros t0 (t' & H & ->)%prepend_Some. apply (body_prepend _ _ s3 _ _ 3); [apply coerce_replacement|done|lia|].
        apply IHs; [cbn; lia|done]. }
      destruct (is_surrogate r) eqn:Es.
      + destruct s3 as [|b [|v [|y1 [|y2 [|y3 [|y4 s4]]]]]]; try exact (Hrep t).
        destruct ((byte b =? 92) && Ascii.eqb v "u") eqn:Eb; [|exact (Hrep t)].
        destruct (hex4 y1 y2 y3 y4) as [r2|] eqn:Er2; cbn [mbind option_bind]; [|exact (Hrep t)].
        destruct (surrogate_pair r r2) as [r'|] eqn:Ep; [|exact (Hrep t)].
        apply andb_true_iff in Eb as [Eb Ev]. apply hex4_range in Er2 as [(Hy1 & Hy2 & Hy3 & Hy4) _].
        apply surrogate_pair_range in Ep. intros (t' & H & ->)%prepend_Some.
        apply (body_prepend _ _ s4 _ _ 4); [apply coerce_encode_4; lia|pose proof (encode_length r'); case_match; lia| |].
        * assert (clen (String b (String v (String y1 (String y2 (String y3 (String y4 s4)))))) = (6 + clen s4)%nat) as H6; [|lia].
          clen_ascii. clen_ascii. by rewrite !(clen_ascii _ _ Hy1), (clen_ascii _ _ Hy2), (clen_ascii _ _ Hy3), (clen_ascii _ _ Hy4).
        * apply IHs; [cbn; lia|done].
      + intros (t' & H & ->)%prepend_Some. assert (code_point r) as Hcp by (split; [lia|done]).
        apply (body_prepend _ _ s3 _ _ 4); [by apply coerce_encode|pose proof (encode_length r); case_match; lia|lia|].
        apply IHs; [cbn; lia|done].
    - destruct (simple_escape u) as [e|] eqn:Ee; [|done]. apply simple_escape_ascii in Ee as [Hu He].
      intros (t' & H & ->)%prepend_Some. rewrite (clen_ascii _ _ Hu) in Hcs.
      apply (body_prepend _ _ s2 _ _ 1); [|cbn; lia|lia|].
      + unfold coerceUTF8. cbn [String.append coerce rune_size]. by rewrite (proj2 (Z.ltb_lt _ _) He).
      + apply IHs; [cbn; lia|done]. }
  destruct (byte c <? 32); [done|]. destruct (rune_size (String c s)) as [n|] eqn:En.
  - intros (t' & H & ->)%prepend_Some. pose proof H as Hb. apply IHs in H as [H1 H2]; [|done].
    apply string_body_copy in Hb as (pre & s' & t1 & -> & -> & Hl).
    unfold body_ok. cbn [String.append coerce]. rewrite En, (rune_size_local _ _ _ t1 _ En Hl), H1. cbn [String.length]. split; [done|lia].
  - intros (t' & H & ->)%prepend_Some. apply (body_prepend _ _ s _ _ 3); [apply coerce_replacement|done| |by apply IHs].
    unfold clen, coerceUTF8. cbn [coerce]. rewrite En, string_length_app. cbn. lia.
Qed.

(** ** The weight of a document *)

(** The strings of a tree with the brackets around them; more than its depth. *)
Fixpoint weight (j : json) : nat :=
  match j with
  | JString s => S (clen s)
  | JArray l => S (fold_right Nat.add 0%nat (map weight l))
  | JObject ms => S (fold_right Nat.add 0%nat (map (fun m => weight m.2) ms))
  | _ => 0%nat
  end.

Definition shorter (f : string -> option (json * string)) : Prop :=
  forall s j rest, f s = Some (j, rest) -> (weight j + clen rest <= clen s)%nat.

Lemma elements_weight item n : shorter item -> forall s l rest, elements item n s = Some (l, rest) ->
  (fold_right Nat.add 0%nat (map weight l) + 1 + clen rest <= clen s)%nat.
Proof.
  intros Hi. induction n as [|n IH]; intros s l rest; [done|]. cbn [elements].
  destruct (item s) as [[j s1]|] eqn:E; [|done]. apply Hi in E. cbn [mbind option_bind].
  pose proof (clen_skip_ws s1) as Hw. destruct (skip_ws s1) as [|c s2]; [done|].
  destruct (Ascii.eqb c "]") eqn:E1; [intros [= <- <-]; rewrite (clen_ascii c) in Hw by (by apply (eqb_ascii _ _ E1)); cbn [map fold_right]; lia|].
  destruct (Ascii.eqb c ",") eqn:E2; [|done]. rewrite (clen_ascii c) in Hw by (by apply (eqb_ascii _ _ E2)).
  destruct (elements item n s2) as [[l' r]|] eqn:E3; [|done]. intros [= <- <-]. apply IH in E3. cbn [map fold_right]. lia.
Qed.

Lemma member_weight item s k j rest : shorter item -> member item s = Some (k, j, rest) ->
  (weight j + 2 + clen rest <= clen s)%nat.
Proof.
  intros Hi. unfold member. pose proof (clen_skip_ws s) as Hw. destruct (skip_ws s) as [|q s1]; [done|].
  destruct (byte q =? 34) eqn:Eq; [|done]. rewrite (clen_ascii q) in Hw by (apply Z.eqb_eq in Eq; lia).
  destruct (string_body 0 s1) as [[t s2]|] eqn:E; [|done]. apply string_body_ok in E as [_ E].
  fold (coerceUTF8 s1) in E. fold (clen s1) in E. cbn [mbind option_bind].
  pose proof (clen_skip_ws s2) as Hw2. destruct (skip_ws s2) as [|c s3]; [done|].
  destruct (Ascii.eqb c ":") eqn:Ec; [|done]. rewrite (clen_ascii c) in Hw2 by (by apply (eqb_ascii _ _ Ec)).
  destruct (item s3) as [[j' s4]|] eqn:E4; [|done]. apply Hi in E4. intros [= _ <- <-]. lia.
Qed.

Lemma members_weight item n : shorter item -> forall s l rest, members item n s = Some (l, rest) ->
  (fold_right Nat.add 0%nat (map (fun m => weight m.2) l) + 1 + clen rest <= clen s)%nat.
Proof.
  intros Hi. induction n as [|n IH]; intros s l rest; [done|]. cbn [members].
  destruct (member item s) as [[[k j] s1]|] eqn:E; [|done]. apply member_weight in E; [|done]. cbn [mbind option_bind].
  pose proof (clen_skip_ws s1) as Hw. destruct (skip_ws s1) as [|c s2]; [done|].
  destruct (Ascii.eqb c "}") eqn:E1; [intros [= <- <-]; rewrite (clen_ascii c) in Hw by (by apply (eqb_ascii _ _ E1)); cbn [map fold_right snd]; lia|].
  destruct (Ascii.eqb c ",") eqn:E2; [|done]. rewrite (clen_ascii c) in Hw by (by apply (eqb_ascii _ _ E2)).
  destruct (members item n s2) as [[l' r]|] eqn:E3; [|done]. intros [= <- <-]. apply IH in E3. cbn [map fold_right snd]. lia.
Qed.

Lemma keyword_weight s j rest : keyword s = Some (j, rest) -> (weight j + clen rest <= clen s)%nat.
Proof.
  unfold keyword. destruct (dropPrefix "null" s) eqn:E1; [intros [= <- <-]; apply clen_dropPrefix in E1; done|].
  destruct (dropPrefix "true" s) eqn:E2; [intros [= <- <-]; apply clen_dropPrefix in E2; done|].
  destruct (dropPrefix "false" s) eqn:E3; [intros [= <- <-]; apply clen_dropPrefix in E3; done|].
  intros [Hj H]%clen_number. destruct j; try done; exact H.
Qed.

Lemma parse_value_weight depth : shorter (parse_value depth).
Proof.
  induction depth as [|depth IH]; intros s j rest; cbn [parse_value];
    pose proof (clen_skip_ws s) as Hw; destruct (skip_ws s) as [|c s1]; try done;
    (destruct (byte c =? 34) eqn:Eq;
     [rewrite (clen_ascii c) in Hw by (apply Z.eqb_eq in Eq; lia);
      destruct (string_body 0 s1) as [[t s2]|] eqn:E; [|done]; apply string_body_ok in E as [E1 E];
      fold (coerceUTF8 s1) in E; fold (clen s1) in E; intros [= <- <-]; cbn [weight];
      assert (clen t = String.length t) as -> by (unfold clen, coerceUTF8; by rewrite E1); lia|]).
  - destruct (Ascii.eqb c "["); [done|]. destruct (Ascii.eqb c "{"); [done|]. intros H%keyword_weight. lia.
  - destruct (Ascii.eqb c "[") eqn:Eb.
    { rewrite (clen_ascii c) in Hw by (by apply (eqb_ascii _ _ Eb)). pose proof (clen_skip_ws s1) as Hw1.
      destruct (skip_ws s1) as [|d s2]; [done|]. destruct (Ascii.eqb d "]") eqn:Ed.
      - rewrite (clen_ascii d) in Hw1 by (by apply (eqb_ascii _ _ Ed)). intros [= <- <-]. cbn [weight map fold_right]. lia.
      - destruct (elements _ _ _) as [[l r]|] eqn:E; [|done]. intros [= <- <-]. apply elements_weight in E; [|done]. cbn [weight]. lia. }
    destruct (Ascii.eqb c "{") eqn:Ec; [|intros H%keyword_weight; lia].
    rewrite (clen_ascii c) in Hw by (by apply (eqb_ascii _ _ Ec)). pose proof (clen_skip_ws s1) as Hw1.
    destruct (skip_ws s1) as [|d s2]; [done|]. destruct (Ascii.eqb d "}") eqn:Ed.
    + rewrite (clen_ascii d) in Hw1 by (by apply (eqb_ascii _ _ Ed)). intros [= <- <-]. cbn [weight map fold_right]. lia.
    + destruct (members _ _ _) as [[l r]|] eqn:E; [|done]. intros [= <- <-]. apply members_weight in E; [|done]. cbn [weight]. lia.
Qed.

Lemma unmarshal_weight s j : unmarshal s = Some j -> (weight j <= clen s)%nat.
Proof.
  unfold unmarshal. destruct (parse_value _ s) as [[j' rest]|] eqn:E; [|done]. apply parse_value_weight in E.
  cbn [mbind option_bind]. destruct (String.eqb _ _); [|done]. intros [= <-]. lia.
Qed.

Lemma weight_member k j ms : (k, j) ∈ ms -> (weight j < weight (JObject ms))%nat.
Proof.
  intros H. cbn [weight]. assert (weight j <= fold_right Nat.add 0%nat (map (fun m => weight m.2) ms))%nat; [|lia].
  induction ms as [|[k' j'] ms IH]; [by apply elem_of_nil in H|]. cbn [map fold_right snd].
  apply elem_of_cons in H as [[= <- <-]|H]; [lia|]. specialize (IH H). lia.
Qed.

(** * The writer

    The text that [json.Marshal] (encoding/json) writes for a value of the dynamic types
    of JobPayload, and that [json.Unmarshal] reads it back.  The text of a float64 is a
    parameter. *)

(** ** Strings: [appendString] with [escapeHTML] *)

Definition hex_char (d : Z) : ascii := if d <? 10 then byte_of (48 + d) else byte_of (87 + d).

(** A byte below [utf8.RuneSelf]. *)
Definition escape_byte (c : ascii) : string :=
  let b := byte c in
  if (b =? 34) || (b =? 92) then String "\" (String c "")
  else if b =? 8 then "\b"
  else if b =? 12 then "\f"
  else if b =? 10 then "\n"
  else if b =? 13 then "\r"
  else if b =? 9 then "\t"
  else if (b <? 32) || (b =? 60) || (b =? 62) || (b =? 38)
  then "\u00" +:+ String (hex_char (b / 16)) (String (hex_char (b mod 16)) "")
  else String c "".

(** U+2028 and U+2029 are E2 80 A8 and E2 80 A9: the last digit of their escape. *)
Definition line_separator (c d e : ascii) : option ascii :=
  if (byte c =? 226) && (byte d =? 128) && in_range 168 169 e then Some (hex_char (byte e - 160)) else None.

(** [skip] bytes of the current rune are still to be copied. *)
Fixpoint string_text (skip : nat) (s : string) : string :=
  match s with
  | EmptyString => ""
  | String c rest =>
      match skip with
      | S k => String c (string_text k rest)
      | O =>
          if byte c <? 128 then escape_byte c +:+ string_text 0 rest
          else match rune_size s with
               | None => "\ufffd" +:+ string_text 0 rest
               | Some n =>
                   match rest with
                   | String d (String e rest') =>
                       match line_separator c d e with
                       | Some digit => "\u202" +:+ String digit (string_text 0 rest')
                       | None => String c (string_text (pred n) rest)
                       end
                   | _ => String c (string_text (pred n) rest)
                   end
               end
      end
  end.

Definition quote : ascii := byte_of 34.
Definition quoted (s : string) : string := String quote (string_text 0 s +:+ String quote "").

(** ** Values *)

Definition array_text (items : list string) : string := "[" +:+ String.concat "," items +:+ "]".

(** The members of a map are sorted by their keys. *)
Definition object_text (members : gmap string string) : string :=
  let sorted := sort_by (fun a b => String.ltb a.1 b.1) (map_to_list members) in
  "{" +:+ String.concat "," (map (fun m => quoted m.1 +:+ ":" +:+ m.2) sorted) +:+ "}".

Section Text.
Context (float_text : spec_float -> string).

Fixpoint value_text (v : value) : string :=
  match v with
  | VNil => "null"
  | VBool b => if b then "true" else "false"
  | VInt z => itoa z
  | VFloat f => float_text f
  | VString s => quoted s
  | VStrings l => array_text (map quoted l)
  | VSlice l => array_text (map value_text l)
  | VStringsMap m => object_text ((fun l => array_text (map quoted l)) <$> m)
  | VMap m => object_text (value_text <$> m)
  end.

(** [json.Marshal] of a map: an error for a float64 that is not finite. *)
Definition Marshal (p : payload) : option string :=
  if marshals (VMap p) then Some (object_text (value_text <$> p)) else None.
End Text.

Example text_1 : value_text (fun _ => "") (VMap (<["b" := VString "x<y"]> {["a" := VStrings ["1"; "2"]]})) =
  "{" +:+ quoted "a" +:+ ":[" +:+ quoted "1" +:+ "," +:+ quoted "2" +:+ "]," +:+ quoted "b" +:+ ":" +:+ quoted "x<y" +:+ "}".
Proof. vm_compute. reflexivity. Qed.

(** ** Reading back *)

(** What a value is read back as, in the order of the keys. *)
Definition string_members (m : gmap string string) : list (string * json) :=
  map (fun e => (coerceUTF8 e.1, jstring e.2)) (sort_by (fun a b => String.ltb a.1 b.1) (map_to_list m)).

Lemma rune_size_length s n : rune_size s = Some n -> (0 < n <= String.length s)%nat.
Proof.
  destruct s as [|c [|d [|e [|f s]]]]; unfold rune_size; cbn [tail cont String.length]; repeat case_match; intros [= <-]; try lia;
    repeat match goal with H : (_ && _) = true |- _ => apply andb_true_iff in H as [? ?] end; done.
Qed.

(** The bytes of a rune are copied. *)
Lemma string_text_copy k s : (k <= String.length s)%nat ->
  exists pre s', s = pre +:+ s' /\ String.length pre = k /\ string_text k s = pre +:+ string_text 0 s' /\ coerce k s = pre +:+ coerce 0 s'.
Proof.
  revert s. induction k as [|k IH]; intros s Hk; [by exists "", s|]. destruct s as [|c s]; [cbn in Hk; lia|].
  destruct (IH s) as (pre & s' & -> & Hl & Ht & Hc); [cbn in Hk; lia|]. exists (String c pre), s'. cbn. by rewrite Hl, Ht, Hc.
Qed.

Lemma string_body_skip pre s : string_body (String.length pre) (pre +:+ s) = prepend pre (string_body 0 s).
Proof.
  induction pre as [|c pre IH]; cbn.
  - unfold prepend. destruct (string_body 0 s) as [[t rest]|]; done.
  - rewrite IH. unfold prepend. destruct (string_body 0 s) as [[t rest]|]; done.
Qed.

(** An escaped byte is read as itself. *)
Lemma escape_byte_read c s : byte c < 128 -> string_body 0 (escape_byte c +:+ s) = prepend (String c "") (string_body 0 s).
Proof. destruct c as [[] [] [] [] [] [] [] []]; intros Hc; first [reflexivity | by exfalso]. Qed.

Lemma line_separator_read c d e digit s s' : line_separator c d e = Some digit ->
  string_body 0 ("\u202" +:+ String digit s) = prepend (String c (String d (String e ""))) (string_body 0 s) /\
  coerce 0 (String c (String d (String e s'))) = String c (String d (String e (coerce 0 s'))).
Proof.
  unfold line_separator, in_range. case_match eqn:Hc; [|done]. intros [= <-].
  rewrite !andb_true_iff, !Z.eqb_eq, !Z.leb_le in Hc. destruct Hc as [[Hc Hd] He].
  rewrite <- (byte_of_byte c), <- (byte_of_byte d), <- (byte_of_byte e), Hc, Hd.
  assert (byte e = 168 \/ byte e = 169) as [-> | ->] by lia; split; reflexivity.
Qed.

Lemma prepend_twice a b r : prepend a (prepend b r) = prepend (a +:+ b) r.
Proof. unfold prepend. destruct r as [[t rest]|]; cbn; [by rewrite string_app_assoc|done]. Qed.

(** A rune that is not ASCII is copied. *)
Lemma plain_rune_read c pre s n : byte c <? 128 = false -> rune_size (String c (pre +:+ s)) = Some n -> String.length pre = pred n ->
  string_body 0 (String c (pre +:+ s)) = prepend (String c pre) (string_body 0 s).
Proof.
  intros Hc Hn Hl. apply Z.ltb_ge in Hc. cbn [string_body]. rewrite !(proj2 (Z.eqb_neq _ _)), (proj2 (Z.ltb_ge _ _)) by lia.
  rewrite Hn, <- Hl, string_body_skip. by rewrite prepend_twice.
Qed.

Lemma string_text_read s rest : string_body 0 (string_text 0 s +:+ String quote rest) = Some (coerceUTF8 s, rest).
Proof.
  unfold coerceUTF8. induction s as [s IH] using (well_founded_induction (well_founded_ltof _ String.length)).
  destruct s as [|c s]; [reflexivity|]. unfold ltof in IH. cbn [string_text coerce].
  destruct (byte c <? 128) eqn:Hc.
  - rewrite string_app_assoc, escape_byte_read by (by apply Z.ltb_lt). rewrite IH by (cbn; lia).
    cbn [rune_size]. rewrite Hc. reflexivity.
  - destruct (rune_size (String c s)) as [n|] eqn:Hn.
    + assert (string_body 0 (String c (string_text (pred n) s) +:+ String quote rest) = Some (String c (coerce (pred n) s), rest)) as Hplain.
      { pose proof (rune_size_length _ _ Hn) as Hlen. cbn [String.length] in Hlen.
        destruct (string_text_copy (pred n) s) as (pre & s' & -> & Hl & -> & ->); [lia|]. cbn [String.append].
        rewrite string_app_assoc. erewrite plain_rune_read; [|done|by eapply rune_size_local|done].
        rewrite IH; [done|]. cbn [String.length]. rewrite string_length_app. lia. }
      destruct s as [|d [|e s']]; try exact Hplain.
      destruct (line_separator c d e) as [digit|] eqn:Hs; [|exact Hplain].
      destruct (line_separator_read c d e digit (string_text 0 s' +:+ String quote rest) s' Hs) as [Hr Hco].
      rewrite string_app_assoc. cbn [String.append] in Hr |- *. rewrite Hr, IH by (cbn; lia).
      cbn [coerce] in Hco |- *. rewrite Hn in Hco. rewrite Hco. reflexivity.
    + rewrite string_app_assoc. cbn [String.append]. cbn [string_body]. cbn. rewrite IH by (cbn; lia). reflexivity.
Qed.

(** A document of strings. *)
Definition entry_text (e : string * string) : string := quoted e.1 +:+ ":" +:+ quoted e.2.
Definition entry_read (e : string * string) : string * json := (coerceUTF8 e.1, jstring e.2).

Lemma quoted_app s rest : quoted s +:+ rest = String quote (string_text 0 s +:+ String quote rest).
Proof. unfold quoted. cbn [String.append]. by rewrite string_app_assoc. Qed.

Lemma quoted_read d s rest : parse_value d (quoted s +:+ rest) = Some (jstring s, rest).
Proof.
  rewrite quoted_app. destruct d as [|d]; cbn [parse_value];
    change (skip_ws (String quote ?x)) with (String quote x); cbv iota; change (byte quote =? 34) with true; cbv iota;
    by rewrite string_text_read.
Qed.

Lemma member_read d e rest : member (parse_value d) (entry_text e +:+ rest) = Some (entry_read e, rest).
Proof.
  unfold entry_text, member. rewrite string_app_assoc, quoted_app.
  change (skip_ws (String quote ?x)) with (String quote x). cbv iota. change (byte quote =? 34) with true. cbv iota.
  rewrite string_text_read. cbn [mbind option_bind]. change (skip_ws ((":" +:+ ?x) +:+ ?y)) with (String ":" (x +:+ y)). cbv iota.
  change (Ascii.eqb ":" ":") with true. cbv iota. by rewrite quoted_read.
Qed.

Lemma members_read d l : forall e rest n, (List.length l < n)%nat ->
  members (parse_value d) n (String.concat "," (map entry_text (e :: l)) +:+ String "}" rest) = Some (map entry_read (e :: l), rest).
Proof.
  induction l as [|e' l IH]; intros e rest n Hn; (destruct n as [|n]; [lia|]); cbn [members].
  - cbn [map String.concat]. rewrite member_read. reflexivity.
  - change (String.concat "," (map entry_text (e :: e' :: l))) with
      (entry_text e +:+ "," +:+ String.concat "," (map entry_text (e' :: l))).
    rewrite !string_app_assoc, member_read. cbn [mbind option_bind entry_read].
    change (skip_ws ("," +:+ ?x)) with (String "," x). cbv iota. change (Ascii.eqb "," "}") with false. change (Ascii.eqb "," ",") with true. cbv iota.
    rewrite IH by (cbn in Hn; lia). reflexivity.
Qed.

Lemma concat_length l : (List.length l <= S (String.length (String.concat "," (map entry_text l))))%nat.
Proof.
  destruct l as [|e l]; [cbn; lia|]. revert e. induction l as [|e' l IH]; intros e; [cbn; lia|].
  change (String.concat "," (map entry_text (e :: e' :: l))) with (entry_text e +:+ "," +:+ String.concat "," (map entry_text (e' :: l))).
  rewrite !string_length_app. specialize (IH e'). cbn [List.length] in IH |- *. change (String.length ",") with 1%nat. lia.
Qed.

Lemma sort_by_map {A B} (f : A -> B) (lt : A -> A -> bool) (lt' : B -> B -> bool) l :
  (forall x y, lt' (f x) (f y) = lt x y) -> sort_by lt' (map f l) = map f (sort_by lt l).
Proof.
  intros Hlt. assert (forall x l, insert_by lt' (f x) (map f l) = map f (insert_by lt x l)) as Hins.
  { intros x l'. induction l' as [|y l' IH]; [done|]. cbn. rewrite Hlt. destruct (lt y x); cbn; [by rewrite IH|done]. }
  unfold sort_by. induction l as [|x l IH]; [done|]. cbn. by rewrite IH, Hins.
Qed.

(** [Marshal] then [unmarshal], for a map of strings. *)
Lemma object_read m : unmarshal (object_text (quoted <$> m)) = Some (JObject (string_members m)).
Proof.
  unfold object_text, string_members. set (sort := sort_by (A := string * string) _).
  assert (sort (map_to_list (quoted <$> m)) = map (fun e => (e.1, quoted e.2)) (sort (map_to_list m))) as ->.
  { rewrite map_to_list_fmap. subst sort. by apply (sort_by_map (fun e : string * string => (e.1, quoted e.2))). }
  rewrite map_map. change (map (fun e => quoted (e.1, quoted e.2).1 +:+ ":" +:+ (e.1, quoted e.2).2)) with (map entry_text).
  change (map (fun e : string * string => (coerceUTF8 e.1, jstring e.2))) with (map entry_read).
  generalize (sort (map_to_list m)) as l. clear. intros l. unfold unmarshal.
  assert (exists d, N.to_nat maxNestingDepth = S d) as [d ->] by (exists (pred (N.to_nat maxNestingDepth)); unfold maxNestingDepth; lia).
  destruct l as [|e l]; [reflexivity|]. cbn [parse_value].
  change (skip_ws ("{" +:+ ?x)) with (String "{" x). cbv iota. change (byte "{" =? 34) with false. cbv iota.
  change (Ascii.eqb "{" "[") with false. change (Ascii.eqb "{" "{") with true. cbv iota.
  pose proof (concat_length (e :: l)) as Hlen. set (text := String.concat "," (map entry_text (e :: l))) in *.
  assert (exists t, text = String quote t) as [t Ht].
  { unfold text. destruct l; cbn [map String.concat]; unfold entry_text at 1, quoted at 1; cbn [String.append]; eauto. }
  assert (skip_ws (text +:+ "}") = String quote (t +:+ "}")) as -> by (by rewrite Ht).
  change (Ascii.eqb quote "}") with false. cbv iota. change (text +:+ "}") with (text +:+ String "}" "").
  rewrite (members_read d l e "") by (rewrite string_length_app; cbn in Hlen |- *; lia). reflexivity.
Qed.


Lemma all_marshal (m : gmap string bool) : (forall k b, m !! k = Some b -> b = true) -> map_fold (fun _ b r => b && r) true m = true.
Proof.
  apply (map_fold_weak_ind (fun r m => (forall k b, m !! k = Some b -> b = true) -> r = true)); [done|].
  intros k b m' r Hk IH Hall. rewrite (Hall k b) by apply lookup_insert_eq. apply IH. intros k' b' Hk'. apply (Hall k').
  rewrite lookup_insert_ne; [done|congruence].
Qed.

(** What [json.Marshal] writes for a map of strings is read as its members. *)
Lemma Marshal_read float_text (m : gmap string string) :
  exists text, Marshal float_text (VString <$> m) = Some text /\ unmarshal text = Some (JObject (string_members m)).
Proof.
  exists (object_text (quoted <$> m)). split; [|apply object_read]. unfold Marshal. cbn [marshals].
  rewrite all_marshal.
  - by rewrite <- map_fmap_compose.
  - intros k b. rewrite !lookup_fmap. destruct (m !! k); cbn; [by intros [= <-]|done].
Qed.

Lemma elem_of_string_members m k j : (k, j) ∈ string_members m <-> exists key v, m !! key = Some v /\ k = coerceUTF8 key /\ j = jstring v.
Proof.
  unfold string_members. rewrite list_elem_of_fmap. split.
  - intros ([key v] & [= -> ->] & Hin). rewrite sort_by_perm in Hin. apply elem_of_map_to_list in Hin. eauto.
  - intros (key & v & Hm & -> & ->). exists (key, v). split; [done|]. rewrite sort_by_perm. by apply elem_of_map_to_list.
Qed.
