(* ===== verification/GoSha256.v ===== *)
(** * GoSha256

    [sha256.Sum256] (crypto/sha256), as FIPS 180-4 defines it, on 32-bit words. *)
From S2P Require Import Prelude GoStrings JobRuns.
Local Open Scope Z_scope.

Definition word : Z := 2 ^ 32.
Definition add32 (a b : Z) : Z := (a + b) mod word.
Definition rotr (n x : Z) : Z := Z.lor (Z.shiftr x n) (Z.shiftl x (32 - n) mod word).
Definition not32 (x : Z) : Z := Z.lxor x (word - 1).

Definition Ch (x y z : Z) : Z := Z.lxor (Z.land x y) (Z.land (not32 x) z).
Definition Maj (x y z : Z) : Z := Z.lxor (Z.lxor (Z.land x y) (Z.land x z)) (Z.land y z).
Definition Sigma0 (x : Z) : Z := Z.lxor (Z.lxor (rotr 2 x) (rotr 13 x)) (rotr 22 x).
Definition Sigma1 (x : Z) : Z := Z.lxor (Z.lxor (rotr 6 x) (rotr 11 x)) (rotr 25 x).
Definition sigma0 (x : Z) : Z := Z.lxor (Z.lxor (rotr 7 x) (rotr 18 x)) (Z.shiftr x 3).
Definition sigma1 (x : Z) : Z := Z.lxor (Z.lxor (rotr 17 x) (rotr 19 x)) (Z.shiftr x 10).

(** The constants of FIPS 180-4: the first 32 bits of the fractional parts of the square
    roots of the first 8 primes, and of the cube roots of the first 64. *)
Definition is_prime (n : Z) : bool :=
  (2 <=? n) && forallb (fun d => negb (n mod Z.of_nat d =? 0)) (seq 2 (Z.to_nat (Z.sqrt n) - 1)).
Definition primes (count : nat) : list Z := firstn count (List.filter is_prime (map Z.of_nat (seq 2 310))).

(** The largest [r < 2 ^ bits] with [r ^ k <= n], one bit at a time. *)
Fixpoint root (k : Z) (bits : nat) (r n : Z) : Z :=
  match bits with
  | O => r
  | S bits => let r' := r + 2 ^ Z.of_nat bits in root k bits (if r' ^ k <=? n then r' else r) n
  end.
Definition root_bits (k p : Z) : Z := root k 40 0 (p * 2 ^ (32 * k)) mod word.

Definition K256 : list Z := Eval vm_compute in map (root_bits 3) (primes 64).
Definition H256 : list Z := Eval vm_compute in map (root_bits 2) (primes 8).

Fixpoint bytes_of (s : string) : list Z :=
  match s with EmptyString => [] | String c s => byte c :: bytes_of s end.

(** [z] in [n] bytes, the most significant first. *)
Definition big_endian (n : nat) (z : Z) : list Z := map (fun i => Z.shiftr z (8 * Z.of_nat i) mod 256) (rev (seq 0 n)).

Definition padded (message : list Z) : list Z :=
  let n := Z.of_nat (List.length message) in
  message ++ [128] ++ repeat 0 (Z.to_nat ((55 - n) mod 64)) ++ big_endian 8 (8 * n mod 2 ^ 64).

Fixpoint words (l : list Z) : list Z :=
  match l with
  | a :: b :: c :: d :: l => a * 2 ^ 24 + b * 2 ^ 16 + c * 2 ^ 8 + d :: words l
  | _ => []
  end.

(** The next words of the message schedule, which is kept in reverse order. *)
Fixpoint schedule (n : nat) (w : list Z) : list Z :=
  match n with
  | O => w
  | S n =>
      let at_ i := nth i w 0 in
      schedule n (add32 (add32 (sigma1 (at_ 1%nat)) (at_ 6%nat)) (add32 (sigma0 (at_ 14%nat)) (at_ 15%nat)) :: w)
  end.

Definition round (state : list Z) (kw : Z * Z) : list Z :=
  match state with
  | [a; b; c; d; e; f; g; h] =>
      let t1 := add32 (add32 (add32 h (Sigma1 e)) (add32 (Ch e f g) kw.1)) kw.2 in
      let t2 := add32 (Sigma0 a) (Maj a b c) in
      [add32 t1 t2; a; b; c; add32 d t1; e; f; g]
  | _ => state
  end.

Definition compress (state block : list Z) : list Z :=
  let w := rev (schedule 48 (rev block)) in
  zip_with add32 state (foldl round state (combine K256 w)).

Fixpoint blocks (fuel : nat) (l : list Z) : list (list Z) :=
  match fuel, l with
  | S fuel, _ :: _ => firstn 16 l :: blocks fuel (skipn 16 l)
  | _, _ => []
  end.

(** [sha256.Sum256]. *)
Definition sha256_sum (message : list Z) : list Z :=
  let w := words (padded message) in
  let state := foldl compress H256 (blocks (List.length w) w) in
  List.concat (map (big_endian 4) state).

(** [hex.EncodeToString(sum[:])] for [sum := sha256.Sum256(data)]. *)
Definition sha256_hex (data : string) : string := hex_encode (sha256_sum (bytes_of data)).

(** [hmac.New(sha256.New, key)] (crypto/hmac), with a block of 64 bytes. *)
Definition hmac_sha256 (key message : list Z) : list Z :=
  let key := if 64 <? Z.of_nat (List.length key) then sha256_sum key else key in
  let key := key ++ repeat 0 (64 - List.length key) in
  sha256_sum (map (fun b => Z.lxor b 92) key ++ sha256_sum (map (fun b => Z.lxor b 54) key ++ message)).

Lemma big_endian_bytes n z b : b ∈ big_endian n z -> 0 <= b < 256.
Proof. unfold big_endian. intros (i & -> & _)%list_elem_of_fmap. apply Z.mod_pos_bound. lia. Qed.
Lemma sha256_sum_bytes message b : b ∈ sha256_sum message -> 0 <= b < 256.
Proof. unfold sha256_sum. cbv zeta. intros (w & _ & Hb)%elem_of_concat_map. by eapply big_endian_bytes. Qed.

Lemma big_endian_length n z : List.length (big_endian n z) = n.
Proof. unfold big_endian. by rewrite length_map, length_rev, length_seq. Qed.
Lemma compress_length state block : List.length state = 8%nat -> List.length (compress state block) = 8%nat.
Proof.
  intros Hs. unfold compress. rewrite length_zip_with.
  assert (forall l s, List.length s = 8%nat -> List.length (foldl round s l) = 8%nat) as H.
  { induction l as [|x l IH]; intros s H; [done|]. cbn [foldl]. apply IH. do 9 (destruct s as [|? s]; try discriminate). reflexivity. }
  rewrite H by done. lia.
Qed.
Lemma sha256_sum_length message : List.length (sha256_sum message) = 32%nat.
Proof.
  unfold sha256_sum. cbv zeta. generalize (blocks (List.length (words (padded message))) (words (padded message))). intros l.
  assert (List.length (foldl compress H256 l) = 8%nat) as H.
  { assert (List.length H256 = 8%nat) as H0 by reflexivity. revert H0. generalize H256. induction l as [|b l IH]; intros s Hs; [done|].
    cbn [foldl]. apply IH. by apply compress_length. }
  revert H. generalize (foldl compress H256 l). intros s Hs.
  do 9 (destruct s as [|? s]; try discriminate). cbn [map List.concat]. rewrite !length_app, !big_endian_length. reflexivity.
Qed.

(** The examples of FIPS 180-4. *)
Example sha256_abc :
  sha256_hex "abc" = "ba7816bf8f01cfea414140de5dae2223b00361a396177a9cb410ff61f20015ad".
Proof. vm_compute. reflexivity. Qed.
Example sha256_two_blocks :
  sha256_hex "abcdbcdecdefdefgefghfghighijhijkijkljklmklmnlmnomnopnopq" =
  "248d6a61d20638b8e5c026930c3e6039a33ce45964ff2167f6ecedd419db06c1".
Proof. vm_compute. reflexivity. Qed.
(** The second test case of RFC 4231. *)
Example hmac_jefe :
  hex_encode (hmac_sha256 (bytes_of "Jefe") (bytes_of "what do ya want for nothing?")) =
  "5bdcc146bf60754e6a042426089575c75a003f089d2739839dec58b964ec3843".
Proof. vm_compute. reflexivity. Qed.
