(* ===== verification/GoBase64.v ===== *)
(** * GoBase64

    [base64.RawURLEncoding] (encoding/base64): the URL alphabet of RFC 4648 without padding.
    As in Go, the decoder skips carriage returns and newlines and ignores the bits of the
    last character that do not belong to a byte. *)
From S2P Require Import Prelude GoStrings GoSha256.
Local Open Scope Z_scope.

Definition url_char (d : Z) : ascii :=
  if d <? 26 then byte_of (65 + d)
  else if d <? 52 then byte_of (71 + d)
  else if d <? 62 then byte_of (d - 4)
  else if d =? 62 then "-"%char else "_"%char.

Definition url_val (c : ascii) : option Z :=
  if in_range 65 90 c then Some (byte c - 65)
  else if in_range 97 122 c then Some (byte c - 71)
  else if in_range 48 57 c then Some (byte c + 4)
  else if Ascii.eqb c "-" then Some 62
  else if Ascii.eqb c "_" then Some 63
  else None.

Fixpoint raw_url_encode (l : list Z) : string :=
  match l with
  | a :: b :: c :: l =>
      String (url_char (a / 4)) (String (url_char (a mod 4 * 16 + b / 16))
        (String (url_char (b mod 16 * 4 + c / 64)) (String (url_char (c mod 64)) (raw_url_encode l))))
  | [a; b] => String (url_char (a / 4)) (String (url_char (a mod 4 * 16 + b / 16)) (String (url_char (b mod 16 * 4)) ""))
  | [a] => String (url_char (a / 4)) (String (url_char (a mod 4 * 16)) "")
  | [] => ""
  end.

Fixpoint quanta (s : string) : option (list Z) :=
  match s with
  | EmptyString => Some []
  | String c0 EmptyString => None
  | String c0 (String c1 EmptyString) => v0 ← url_val c0; v1 ← url_val c1; Some [v0 * 4 + v1 / 16]
  | String c0 (String c1 (String c2 EmptyString)) =>
      v0 ← url_val c0; v1 ← url_val c1; v2 ← url_val c2; Some [v0 * 4 + v1 / 16; v1 mod 16 * 16 + v2 / 4]
  | String c0 (String c1 (String c2 (String c3 s))) =>
      v0 ← url_val c0; v1 ← url_val c1; v2 ← url_val c2; v3 ← url_val c3; rest ← quanta s;
      Some (v0 * 4 + v1 / 16 :: v1 mod 16 * 16 + v2 / 4 :: v2 mod 4 * 64 + v3 :: rest)
  end.

Definition is_newline (c : ascii) : bool := (byte c =? 10) || (byte c =? 13).
Fixpoint drop_newlines (s : string) : string :=
  match s with
  | EmptyString => EmptyString
  | String c s => if is_newline c then drop_newlines s else String c (drop_newlines s)
  end.

Definition raw_url_decode (s : string) : option (list Z) := quanta (drop_newlines s).

Lemma url_char_ok d : 0 <= d < 64 ->
  url_val (url_char d) = Some d /\ is_newline (url_char d) = false /\ Ascii.eqb (url_char d) "|" = false.
Proof.
  intros Hd. pose proof (forall_below_spec 64 (fun d => bool_decide (url_val (url_char d) = Some d)
    && negb (is_newline (url_char d)) && negb (Ascii.eqb (url_char d) "|")) d) as H.
  specialize (H ltac:(vm_compute; reflexivity) Hd). rewrite !andb_true_iff, !negb_true_iff, bool_decide_eq_true in H. tauto.
Qed.

(** The digits of one, two and three bytes. *)
Lemma quantum_digits a b c : 0 <= a < 256 -> 0 <= b < 256 -> 0 <= c < 256 ->
  let d1 := a mod 4 * 16 + b / 16 in let d2 := b mod 16 * 4 + c / 64 in
  (0 <= a / 4 < 64 /\ 0 <= d1 < 64 /\ 0 <= d2 < 64 /\ 0 <= c mod 64 < 64) /\
  a / 4 * 4 + d1 / 16 = a /\ d1 mod 16 * 16 + d2 / 4 = b /\ d2 mod 4 * 64 + c mod 64 = c.
Proof. intros Ha Hb Hc. cbv zeta. Z.to_euclidean_division_equations. lia. Qed.

Lemma raw_url_decode_encode l : Forall (fun b => 0 <= b < 256) l -> raw_url_decode (raw_url_encode l) = Some l.
Proof.
  unfold raw_url_decode. cut (forall n l, (List.length l <= n)%nat -> Forall (fun b => 0 <= b < 256) l ->
    quanta (drop_newlines (raw_url_encode l)) = Some l); [intros H; by apply (H (List.length l))|].
  clear l. induction n as [|n IH]; intros l Hn Hl; [destruct l; [done|cbn in Hn; lia]|].
  destruct l as [|a [|b [|c l]]]; [done| | |].
  - inversion Hl as [|? ? Ha _]; subst. pose proof (quantum_digits a 0 0 Ha ltac:(lia) ltac:(lia)) as (Hr & E1 & _).
    cbv zeta in Hr, E1. rewrite Z.div_0_l, Z.add_0_r in * by lia. destruct Hr as (H0 & H1 & _).
    cbn [raw_url_encode drop_newlines]. destruct (url_char_ok _ H0) as (V0 & -> & _), (url_char_ok _ H1) as (V1 & -> & _).
    cbn [quanta]. rewrite V0, V1. cbn [mbind option_bind]. by rewrite E1.
  - inversion Hl as [|? ? Ha Hl']; subst. inversion Hl' as [|? ? Hb _]; subst.
    pose proof (quantum_digits a b 0 Ha Hb ltac:(lia)) as (Hr & E1 & E2 & _).
    cbv zeta in Hr, E1, E2. rewrite Z.div_0_l, Z.add_0_r in * by lia. destruct Hr as (H0 & H1 & H2 & _).
    cbn [raw_url_encode drop_newlines].
    destruct (url_char_ok _ H0) as (V0 & -> & _), (url_char_ok _ H1) as (V1 & -> & _), (url_char_ok _ H2) as (V2 & -> & _).
    cbn [quanta]. rewrite V0, V1, V2. cbn [mbind option_bind]. by rewrite E1, E2.
  - inversion Hl as [|? ? Ha Hl1]; subst. inversion Hl1 as [|? ? Hb Hl2]; subst. inversion Hl2 as [|? ? Hc Hl3]; subst.
    pose proof (quantum_digits a b c Ha Hb Hc) as (Hr & E1 & E2 & E3). cbv zeta in Hr, E1, E2, E3. destruct Hr as (H0 & H1 & H2 & H3).
    cbn [raw_url_encode drop_newlines].
    destruct (url_char_ok _ H0) as (V0 & -> & _), (url_char_ok _ H1) as (V1 & -> & _), (url_char_ok _ H2) as (V2 & -> & _),
      (url_char_ok _ H3) as (V3 & -> & _).
    cbn [quanta]. rewrite V0, V1, V2, V3, IH by (done || (cbn in Hn; lia)). cbn [mbind option_bind]. by rewrite E1, E2, E3.
Qed.

(** A property of the characters of the alphabet holds of every character of a text. *)
Lemma raw_url_encode_forall p l : (forall d, 0 <= d < 64 -> p (url_char d) = true) -> Forall (fun b => 0 <= b < 256) l ->
  string_forall p (raw_url_encode l) = true.
Proof.
  intros Hp. cut (forall n l, (List.length l <= n)%nat -> Forall (fun b => 0 <= b < 256) l -> string_forall p (raw_url_encode l) = true);
    [intros H; by apply (H (List.length l))|].
  clear l. induction n as [|n IH]; intros l Hn Hl; [destruct l; [done|cbn in Hn; lia]|].
  destruct l as [|a [|b [|c l]]]; [done| | |].
  - inversion Hl as [|? ? Ha _]; subst. pose proof (quantum_digits a 0 0 Ha ltac:(lia) ltac:(lia)) as (Hr & _).
    cbv zeta in Hr. rewrite Z.div_0_l, Z.add_0_r in Hr by lia. destruct Hr as (H0 & H1 & _).
    cbn [raw_url_encode string_forall]. by rewrite !Hp.
  - inversion Hl as [|? ? Ha Hl']; subst. inversion Hl' as [|? ? Hb _]; subst.
    pose proof (quantum_digits a b 0 Ha Hb ltac:(lia)) as (Hr & _).
    cbv zeta in Hr. rewrite Z.div_0_l, Z.add_0_r in Hr by lia. destruct Hr as (H0 & H1 & H2 & _).
    cbn [raw_url_encode string_forall]. by rewrite !Hp.
  - inversion Hl as [|? ? Ha Hl1]; subst. inversion Hl1 as [|? ? Hb Hl2]; subst. inversion Hl2 as [|? ? Hc Hl3]; subst.
    pose proof (quantum_digits a b c Ha Hb Hc) as (Hr & _). cbv zeta in Hr. destruct Hr as (H0 & H1 & H2 & H3).
    cbn [raw_url_encode string_forall]. rewrite !Hp by done. apply IH; [cbn in Hn; lia|done].
Qed.

(** The alphabet has no vertical bar and no dot. *)
Lemma raw_url_encode_no_bar l : Forall (fun b => 0 <= b < 256) l ->
  string_forall (fun c => negb (Ascii.eqb c "|")) (raw_url_encode l) = true.
Proof. apply raw_url_encode_forall. intros d Hd. by destruct (url_char_ok d Hd) as (_ & _ & ->). Qed.
Lemma raw_url_encode_no_dot l : Forall (fun b => 0 <= b < 256) l ->
  string_forall (fun c => negb (Ascii.eqb c ".")) (raw_url_encode l) = true.
Proof.
  apply raw_url_encode_forall. intros d Hd.
  exact (forall_below_spec 64 (fun d => negb (Ascii.eqb (url_char d) ".")) d ltac:(vm_compute; reflexivity) Hd).
Qed.

Example encode_example : raw_url_encode (bytes_of "light work.") = "bGlnaHQgd29yay4".
Proof. reflexivity. Qed.
