(* ===== verification/Sql.v ===== *)
(** * Sql

    The operators of PostgreSQL on text that several statements share. *)
From S2P Require Import Prelude GoStrings GoJson.
Local Open Scope Z_scope.

(** What a text column holds: UTF-8 without the zero byte. *)
Definition pg_text (s : string) : bool := valid_utf8 s && string_forall (fun c => negb (byte c =? 0)) s.

Fixpoint drop_bytes (n : nat) (s : string) : string :=
  match n, s with
  | S n, String _ s => drop_bytes n s
  | _, _ => s
  end.

(** [s LIKE p]: a percent sign matches any text, an underscore one character, and a
    backslash takes the next character as it is. *)
Fixpoint like (p s : string) : bool :=
  match p with
  | EmptyString => String.eqb s ""
  | String c p' =>
      if Ascii.eqb c "%"%char then
        (fix any (s : string) : bool := like p' s || match s with EmptyString => false | String _ s => any s end) s
      else if Ascii.eqb c "_"%char then
        match rune_size s with Some n => like p' (drop_bytes n s) | None => false end
      else if Ascii.eqb c "\"%char then
        match p' with
        | String c' p'' => match s with String d s' => Ascii.eqb c' d && like p'' s' | EmptyString => false end
        | EmptyString => false
        end
      else match s with String d s' => Ascii.eqb c d && like p' s' | EmptyString => false end
  end.

(** A character that stands for itself in a pattern. *)
Definition literal (c : ascii) : bool :=
  negb (Ascii.eqb c "%"%char) && negb (Ascii.eqb c "_"%char) && negb (Ascii.eqb c "\"%char).

Lemma like_literal c p s : literal c = true ->
  like (String c p) s = match s with String d s' => Ascii.eqb c d && like p s' | EmptyString => false end.
Proof.
  unfold literal. rewrite !andb_true_iff, !negb_true_iff. intros [[H1 H2] H3]. cbn [like]. by rewrite H1, H2, H3.
Qed.

Lemma like_any s : like "%" s = true.
Proof. induction s as [|c s IH]; [done|]. cbn in *. exact IH. Qed.

Lemma like_prefix lit s : string_forall literal lit = true -> like (lit +:+ "%") s = HasPrefix s lit.
Proof.
  revert s. induction lit as [|c lit IH]; intros s Hl; [cbn [String.append]; rewrite like_any; by destruct s|].
  cbn [string_forall] in Hl. apply andb_true_iff in Hl as [Hc Hl].
  change ((String c lit) +:+ "%") with (String c (lit +:+ "%")). rewrite like_literal by done. unfold HasPrefix.
  destruct s as [|d s]; [done|]. cbn [String.prefix]. destruct (ascii_dec c d) as [->|Hn].
  - rewrite Ascii.eqb_refl. cbn. by apply IH.
  - by rewrite (proj2 (Ascii.eqb_neq c d) Hn).
Qed.

Lemma like_contains lit s : string_forall literal lit = true -> like ("%" +:+ lit +:+ "%") s = Contains s lit.
Proof.
  intros Hl. induction s as [|c s IH].
  - change (like (lit +:+ "%") "" || false = Contains "" lit). rewrite orb_false_r, like_prefix by done. by destruct lit.
  - change (like (lit +:+ "%") (String c s) || like ("%" +:+ lit +:+ "%") s = Contains (String c s) lit).
    rewrite IH, like_prefix by done. reflexivity.
Qed.
