(* ===== verification/QueryJson.v ===== *)
(** * QueryJson

    packages/search/json.go: the JSON form in which queries are stored and
    exchanged, and the round trip through it. *)
From S2P Require Import Prelude GoStrings GoFloat GoTime Ast GoJson.
Local Open Scope Z_scope.

(** The errors of both directions. *)
Inductive json_error :=
| JUnsupportedValue                         (* json.Marshal of a float that is not finite *)
| JTypeError (member : string)              (* json.Unmarshal into the wrong type *)
| JTimestamp (text : string)
| JShape                                    (* unrecognized expression shape *)
| JWrapped (context : string) (e : json_error)
| JOutOfFuel.

Notation R := (result json_error).

(** ** MarshalQuery *)

(** A nil [json.RawMessage] is written as null. *)
Definition raw (j : option json) : json := match j with Some j => j | None => JNull end.

Definition tagged (key : string) (j : json) : json := JObject [(key, j)].

(** The members of a Go map are written in the order of their keys. *)
Fixpoint marshalExpr (e : Expr) : R (option json) :=
  match e with
  | NilExpr => Ok None
  | BoolExpr op ts =>
      terms ← mapM_result marshalExpr ts;
      Ok (Some (JObject [("op", jstring (BoolOp_string op)); ("terms", JArray (map raw terms))]))
  | NotExpr _ e => inner ← marshalExpr e; Ok (Some (tagged "not" (raw inner)))
  | Comparison _ op l r =>
      left ← marshalExpr l; right ← marshalExpr r;
      Ok (Some (JObject [("left", raw left); ("op", jstring (ComparisonOp_string op)); ("right", raw right)]))
  | InComparison _ l vs =>
      left ← marshalExpr l; values ← mapM_result marshalExpr vs;
      Ok (Some (tagged "in" (JObject [("left", raw left); ("values", JArray (map raw values))])))
  | BetweenComparison _ l lo up =>
      left ← marshalExpr l; lower ← marshalExpr lo; upper ← marshalExpr up;
      Ok (Some (tagged "between" (JObject [("left", raw left); ("lower", raw lower); ("upper", raw upper)])))
  | NullComparison _ l n =>
      left ← marshalExpr l;
      Ok (Some (tagged "is_null" (JObject [("left", raw left); ("not", JBool n)])))
  | RelationPredicate _ t d =>
      Ok (Some (JObject
        ((if String.eqb (RelationDirection_string d) "" || bool_decide (d = RelationAny) then []
          else [("direction", jstring (RelationDirection_string d))])
         ++ [("has_relation", jstring t)])))
  | BucketPredicate _ n => Ok (Some (tagged "bucket" (jstring n)))
  | FieldRef n => Ok (Some (tagged "field" (jstring n)))
  | AttrRef p => Ok (Some (tagged "attr" (jstring p)))
  | CastExpr e t =>
      inner ← marshalExpr e;
      Ok (Some (tagged "cast" (JObject [("expr", raw inner); ("type", jstring (ValueType_string t))])))
  | StringLiteral s => Ok (Some (tagged "string" (jstring s)))
  | IntLiteral z => Ok (Some (tagged "integer" (JInt z)))
  | FloatLiteral f =>
      if finite f then Ok (Some (tagged "float" (JFloat f))) else Err (JWrapped "marshal expr" JUnsupportedValue)
  | BoolLiteral b => Ok (Some (tagged "boolean" (JBool b)))
  | TimestampLiteral t => Ok (Some (tagged "timestamp" (jstring (FormatRFC3339NanoUTC t))))
  | NullLiteral => Ok (Some (tagged "null" (JBool true)))
  | NowExpr => Ok (Some (tagged "now" (JBool true)))
  | IntervalLiteral s => Ok (Some (tagged "interval" (jstring s)))
  | ArithmeticExpr op l r =>
      left ← marshalExpr l; right ← marshalExpr r;
      Ok (Some (JObject [("arith", jstring (ArithmeticOp_string op)); ("left", raw left); ("right", raw right)]))
  end.

(** [orderDocument] and [queryDocument]: the members with [omitempty] are left
    out when they are empty. *)
Definition marshalOrder (o : OrderExpr) : R json :=
  expr ← wrap_err (JWrapped "marshal order expr") (marshalExpr (oExpr o));
  Ok (JObject (("expr", raw expr)
    :: (if String.eqb (SortDirection_string (oDirection o)) "" then []
        else [("direction", jstring (SortDirection_string (oDirection o)))]))).

Definition int_member (name : string) (o : option Z) : list (string * json) :=
  match o with Some z => [(name, JInt z)] | None => [] end.

Definition MarshalQuery (q : Query) : R json :=
  where_ ← wrap_err (JWrapped "marshal query where") (marshalExpr (Where q));
  orders ← mapM_result marshalOrder (OrderBy q);
  Ok (JObject (
    [("version", jstring (Version q)); ("from", jstring (Target_string (From q)))]
    ++ match where_ with Some w => [("where", w)] | None => [] end
    ++ match orders with [] => [] | _ => [("order_by", JArray orders)] end
    ++ int_member "limit" (Limit q) ++ int_member "offset" (Offset q))).

(** ** UnmarshalQuery *)

Definition typed {A} (member : string) (o : option A) : R A :=
  match o with Some a => Ok a | None => Err (JTypeError member) end.

Section Unmarshal.
Context (rec : option json -> R Expr).

(** The expression of an object; [rec] reads the raw messages inside it. *)
Definition unmarshalShape (object : list (string * json)) : R Expr :=
  match get "attr" object with Some j => path ← typed "attr" (as_text j); Ok (AttrRef path) | None =>
  match get "field" object with Some j => name ← typed "field" (as_text j); Ok (FieldRef name) | None =>
  match get "string" object with Some j => v ← typed "string" (as_text j); Ok (StringLiteral v) | None =>
  match get "integer" object with Some j => v ← typed "integer" (as_int64 j); Ok (IntLiteral v) | None =>
  match get "float" object with Some j => v ← typed "float" (as_float64 j); Ok (FloatLiteral v) | None =>
  match get "boolean" object with Some j => v ← typed "boolean" (as_bool j); Ok (BoolLiteral v) | None =>
  match get "timestamp" object with
  | Some j =>
      v ← typed "timestamp" (as_text j);
      match ParseRFC3339 v with Some t => Ok (TimestampLiteral (UTC t)) | None => Err (JTimestamp v) end
  | None =>
  match get "null" object with Some _ => Ok NullLiteral | None =>
  match get "now" object with Some _ => Ok NowExpr | None =>
  match get "interval" object with Some j => v ← typed "interval" (as_text j); Ok (IntervalLiteral v) | None =>
  match get "has_relation" object with
  | Some j =>
      type_ ← typed "has_relation" (as_text j);
      match get "direction" object with
      | Some d => direction ← typed "direction" (as_text d);
                  Ok (RelationPredicate Val type_ (RelationDirection_of direction))
      | None => Ok (RelationPredicate Val type_ RelationAny)
      end
  | None =>
  match get "bucket" object with Some j => n ← typed "bucket" (as_text j); Ok (BucketPredicate Val n) | None =>
  match get "cast" object with
  | Some j =>
      body ← typed "cast" (as_object j); type_ ← typed "type" (text_field "type" body);
      expr ← rec (get_field "expr" body);
      Ok (CastExpr expr (ValueType_of type_))
  | None =>
  match get "not" object with Some j => inner ← rec (Some j); Ok (NotExpr Ptr inner) | None =>
  match get "in" object with
  | Some j =>
      body ← typed "in" (as_object j);
      raws ← typed "values" (match get_field "values" body with Some v => as_array v | None => Some [] end);
      left ← rec (get_field "left" body);
      values ← mapM_result (fun v => rec (Some v)) raws;
      Ok (InComparison Ptr left values)
  | None =>
  match get "between" object with
  | Some j =>
      body ← typed "between" (as_object j);
      left ← rec (get_field "left" body); lower ← rec (get_field "lower" body);
      upper ← rec (get_field "upper" body);
      Ok (BetweenComparison Ptr left lower upper)
  | None =>
  match get "is_null" object with
  | Some j =>
      body ← typed "is_null" (as_object j);
      n ← typed "not" (match get_field "not" body with Some b => as_bool b | None => Some false end);
      left ← rec (get_field "left" body);
      Ok (NullComparison Ptr left n)
  | None =>
  match get "arith" object with
  | Some j =>
      op ← typed "arith" (as_text j);
      left ← rec (get "left" object); right ← rec (get "right" object);
      Ok (ArithmeticExpr (ArithmeticOp_of op) left right)
  | None =>
  match get "op" object with
  | Some j =>
      op ← typed "op" (as_text j);
      match get "terms" object with
      | Some ts =>
          raws ← typed "terms" (as_array ts);
          terms ← mapM_result (fun t => rec (Some t)) raws;
          Ok (BoolExpr (BoolOp_of op) terms)
      | None =>
          left ← rec (get "left" object); right ← rec (get "right" object);
          Ok (Comparison Val (ComparisonOp_of op) left right)
      end
  | None => Err JShape
  end end end end end end end end end end end end end end end end end end end.
End Unmarshal.

(** The raw message [None] is the empty one; the recursion is bounded by [fuel]. *)
Fixpoint unmarshalExpr (fuel : nat) (data : option json) : R Expr :=
  match data with
  | None => Ok NilExpr
  | Some j =>
      match fuel with
      | O => Err JOutOfFuel
      | S fuel =>
          object ← wrap_err (JWrapped "unmarshal expr") (typed "" (as_object j));
          unmarshalShape (unmarshalExpr fuel) object
      end
  end.

Definition unmarshal_expr (data : option json) : R Expr :=
  unmarshalExpr (match data with Some j => S (depth j) | None => 0 end) data.

(** An int: 64 bits; null is the nil pointer. *)
Definition as_int_ptr (j : option json) : option (option Z) :=
  match j with
  | None | Some JNull => Some None
  | Some (JInt z) => if in_int64 z then Some (Some z) else None
  | Some _ => None
  end.

(** [orderDocument]. *)
Definition readOrder (j : json) : R (option json * string) :=
  members ← typed "order_by" (as_object j);
  direction ← typed "direction" (text_field "direction" members);
  Ok (get_field "expr" members, direction).

Definition unmarshalOrder (order : option json * string) : R OrderExpr :=
  expr ← wrap_err (JWrapped "unmarshal order expr") (unmarshal_expr order.1);
  Ok (mkOrder expr (if String.eqb order.2 "" then SortAsc else SortDirection_of order.2)).

(** [queryDocument]. *)
Record queryDocument := mkDocument {
  docVersion : string;
  docFrom : string;
  docWhere : option json;
  docOrderBy : list (option json * string);
  docLimit : option Z;
  docOffset : option Z
}.

Definition readDocument (data : json) : R queryDocument :=
  doc ← typed "" (as_object data);
  version ← typed "version" (text_field "version" doc);
  from ← typed "from" (text_field "from" doc);
  raws ← typed "order_by" (match get_field "order_by" doc with Some j => as_array j | None => Some [] end);
  orders ← mapM_result readOrder raws;
  limit ← typed "limit" (as_int_ptr (get_field "limit" doc));
  offset ← typed "offset" (as_int_ptr (get_field "offset" doc));
  Ok (mkDocument version from (get_field "where" doc) orders limit offset).

Definition UnmarshalQuery (data : json) : R Query :=
  doc ← wrap_err (JWrapped "unmarshal query") (readDocument data);
  where_ ← wrap_err (JWrapped "unmarshal query where") (unmarshal_expr (docWhere doc));
  order_by ← mapM_result unmarshalOrder (docOrderBy doc);
  Ok (mkQuery (docVersion doc) (Target_of (docFrom doc)) where_ order_by (docLimit doc) (docOffset doc)).

(** ** The round trip *)

(** The strings a document keeps: UTF-8, and for an enumeration, a string that is
    read back as the same constant. *)
Definition stable {A} `{EqDecision A} (str : A -> string) (conv : string -> A) (a : A) : bool :=
  valid_utf8 (str a) && bool_decide (conv (str a) = a).

Definition json_time (t : Time) : bool :=
  (0 <=? Year (UTC t)) && (Year (UTC t) <=? 9999) && (0 <=? nsec t) && (nsec t <? 1000000000)
  && bool_decide (UTC t = t).

(** The expressions that JSON can hold: no nil inside, valid strings, finite
    floats, 64-bit integers and UTC times of four-digit years. *)
Fixpoint json_ok (e : Expr) : bool :=
  match e with
  | NilExpr => false
  | BoolExpr op ts => stable BoolOp_string BoolOp_of op && forallb json_ok ts
  | NotExpr _ e => json_ok e
  | Comparison _ op l r => stable ComparisonOp_string ComparisonOp_of op && json_ok l && json_ok r
  | InComparison _ l vs => json_ok l && forallb json_ok vs
  | BetweenComparison _ l lo up => json_ok l && json_ok lo && json_ok up
  | NullComparison _ l _ => json_ok l
  | RelationPredicate _ t d =>
      valid_utf8 t && stable RelationDirection_string RelationDirection_of d
      && negb (String.eqb (RelationDirection_string d) "")
  | BucketPredicate _ s | FieldRef s | AttrRef s | StringLiteral s | IntervalLiteral s => valid_utf8 s
  | CastExpr e t => json_ok e && stable ValueType_string ValueType_of t
  | IntLiteral z => in_int64 z
  | FloatLiteral f => finite f
  | TimestampLiteral t => json_time t
  | ArithmeticExpr op l r => stable ArithmeticOp_string ArithmeticOp_of op && json_ok l && json_ok r
  | BoolLiteral _ | NowExpr | NullLiteral => true
  end.

(** The decoder's choice between a node and a pointer to one. *)
Fixpoint canon (e : Expr) : Expr :=
  match e with
  | BoolExpr op ts => BoolExpr op (map canon ts)
  | NotExpr _ e => NotExpr Ptr (canon e)
  | Comparison _ op l r => Comparison Val op (canon l) (canon r)
  | InComparison _ l vs => InComparison Ptr (canon l) (map canon vs)
  | BetweenComparison _ l lo up => BetweenComparison Ptr (canon l) (canon lo) (canon up)
  | NullComparison _ l n => NullComparison Ptr (canon l) n
  | RelationPredicate _ t d => RelationPredicate Val t d
  | BucketPredicate _ n => BucketPredicate Val n
  | CastExpr e t => CastExpr (canon e) t
  | ArithmeticExpr op l r => ArithmeticExpr op (canon l) (canon r)
  | e => e
  end.

Lemma canon_equiv e : canon e ≡ e.
Proof.
  unfold equiv, Expr_equiv. induction e using Expr_ind'; cbn; try congruence.
  - f_equal. rewrite map_map. by apply map_ext_Forall.
  - f_equal; [done|]. rewrite map_map. by apply map_ext_Forall.
Qed.

(** [reads j e]: with enough fuel, [j] is read as [e]. *)
Definition reads (j : json) (e : Expr) : Prop :=
  forall fuel, (depth j < fuel)%nat -> unmarshalExpr fuel (Some j) = Ok e.

Definition round_trips (e : Expr) : Prop :=
  json_ok e = true -> exists j, marshalExpr e = Ok (Some j) /\ reads j (canon e).

(** A member of an object is read with what is left of the fuel. *)
Lemma reads_in j e n : reads j e -> (depth j < n)%nat -> unmarshalExpr n (Some j) = Ok e.
Proof. auto. Qed.

Lemma mapM_round_trips es :
  Forall round_trips es -> forallb json_ok es = true ->
  exists js, mapM_result marshalExpr es = Ok (map Some js) /\ Forall2 reads js (map canon es).
Proof.
  induction 1 as [|e es He Hes IH]; cbn.
  - intros _. exists []. split; [done|constructor].
  - intros [Hok Hoks]%andb_true_iff. destruct (He Hok) as (j & Hj & Hr). destruct (IH Hoks) as (js & Hjs & Hrs).
    exists (j :: js). rewrite Hj. cbn. rewrite Hjs. split; [done|by constructor].
Qed.

Lemma map_raw_Some js : map raw (map Some js) = js.
Proof. rewrite map_map. apply map_id. Qed.

Lemma mapM_reads js es fuel :
  Forall2 reads js es -> (forall j, j ∈ js -> (depth j < fuel)%nat) ->
  mapM_result (fun v => unmarshalExpr fuel (Some v)) js = Ok es.
Proof.
  induction 1 as [|j e js es Hj Hjs IH]; intros Hd; cbn; [done|].
  rewrite Hj by (apply Hd; left). cbn. rewrite IH by (intros; apply Hd; by right). done.
Qed.

Lemma stable_spec {A} `{EqDecision A} (str : A -> string) (conv : string -> A) (a : A) :
  stable str conv a = true -> coerceUTF8 (str a) = str a /\ conv (str a) = a.
Proof.
  unfold stable. intros [Hv Ho]%andb_true_iff. split; [by apply valid_utf8_eq|by apply bool_decide_eq_true in Ho].
Qed.

(** The fields of the bodies. *)
Lemma fields_in a b :
  get_field "left" [("left", a); ("values", b)] = Some a /\ get_field "values" [("left", a); ("values", b)] = Some b.
Proof. done. Qed.
Lemma fields_between a b c :
  get_field "left" [("left", a); ("lower", b); ("upper", c)] = Some a /\
  get_field "lower" [("left", a); ("lower", b); ("upper", c)] = Some b /\
  get_field "upper" [("left", a); ("lower", b); ("upper", c)] = Some c.
Proof. done. Qed.
Lemma fields_null a b :
  get_field "left" [("left", a); ("not", b)] = Some a /\ get_field "not" [("left", a); ("not", b)] = Some b.
Proof. done. Qed.
Lemma fields_cast a b :
  get_field "expr" [("expr", a); ("type", b)] = Some a /\ get_field "type" [("expr", a); ("type", b)] = Some b.
Proof. done. Qed.

(** Compute the lookups of an object with known keys, and the bounds on depths. *)
Ltac eval_shape :=
  cbn [tagged unmarshalExpr as_object typed mbind result_bind wrap_err];
  cbv [unmarshalShape get tagged jstring String.eqb Ascii.eqb Bool.eqb app];
  cbn [typed as_text as_bool as_int64 as_float64 as_object as_array mbind result_bind].
Ltac solve_depth := cbn [depth map fold_right snd tagged] in *; lia.

(** The text of a time is ASCII. *)
Definition is_ascii (c : ascii) : bool := byte c <? 128.
Lemma digits_ascii s : string_forall IsDigit s = true -> string_forall is_ascii s = true.
Proof.
  apply string_forall_impl. intros c. unfold IsDigit, in_range, is_ascii. rewrite andb_true_iff. lia.
Qed.

Lemma appendInt_ascii n w : 0 <= n -> string_forall is_ascii (appendInt n w) = true.
Proof.
  intros Hn. unfold appendInt. rewrite (proj2 (Z.ltb_ge _ _)) by done. apply digits_ascii.
  destruct (pad_itoa_spec w n Hn) as [Hd _]. unfold is_digits in Hd. by apply andb_true_iff in Hd as [? ?].
Qed.

Lemma format_valid t :
  0 <= Year (UTC t) -> 0 <= nsec t < 1000000000 -> valid_utf8 (FormatRFC3339NanoUTC t) = true.
Proof.
  intros Hy Hn. apply ascii_valid. change (string_forall is_ascii (FormatRFC3339NanoUTC t) = true).
  unfold FormatRFC3339NanoUTC, FormatDateOnly. unfold Year in Hy.
  pose proof (civil_from_days_spec (local_secs (UTC t) / 86400)) as Hc. unfold civil in *.
  destruct (civil_from_days _) as [[y m] d]. cbn [fst snd] in *. destruct Hc as (Hm & Hd & _).
  rewrite !string_forall_app, !appendInt_ascii; try done; try (apply Z.mod_pos_bound; lia); try lia.
  - cbn [andb string_forall]. unfold format_frac. change (nsec (UTC t)) with (nsec t).
    destruct (Z.eqb_spec (nsec t) 0); [done|].
    destruct (frac_digits_spec 9 100000000 (nsec t)) as [Hf _]; [done|lia|lia|].
    change (string_forall is_ascii ("." +:+ frac_digits 9 100000000 (nsec t)) && true = true).
    rewrite andb_true_r, string_forall_app. by rewrite (digits_ascii _ Hf).
  - unfold Minute. apply Z.div_pos; [|lia]. apply Z.mod_pos_bound. lia.
  - unfold Hour. apply Z.div_pos; [|lia]. apply Z.mod_pos_bound. lia.
Qed.

(** Take the hypotheses of the induction at the parts of an expression. *)
Ltac take_parts :=
  repeat match goal with
  | IH : round_trips ?e, H : json_ok ?e = true |- _ =>
      let j := fresh "j" in let E := fresh "E" in let Hr := fresh "Hr" in
      destruct (IH H) as (j & E & Hr); clear IH; rewrite ?E; cbn [mbind result_bind raw default]
  | IH : Forall _ ?ts, H : forallb json_ok ?ts = true |- _ =>
      let js := fresh "js" in let E := fresh "E" in let Hr := fresh "Hrs" in
      destruct (mapM_round_trips ts IH H) as (js & E & Hr); clear IH; rewrite ?E;
      cbn [mbind result_bind]; rewrite ?map_raw_Some
  end.
Ltac read_part :=
  repeat match goal with
  | Hr : reads ?j _ |- context [unmarshalExpr ?n (Some ?j)] =>
      rewrite (reads_in j _ n Hr) by solve_depth; cbn [mbind result_bind]
  end.
Ltac start_read := eexists; split; [reflexivity|]; intros [|fuel] Hf; [solve_depth|]; eval_shape.

Lemma marshalExpr_round_trips e : round_trips e.
Proof.
  induction e using Expr_ind'; unfold round_trips; cbn [json_ok marshalExpr canon]; intros Hok;
    rewrite ?andb_true_iff in Hok; try discriminate Hok.
  all: try (start_read; rewrite ?valid_utf8_eq by done; reflexivity).
  - destruct Hok as [[Hs Hc]%stable_spec Hts]. take_parts. start_read. rewrite Hs, Hc.
    rewrite (mapM_reads js (map canon ts)); [done|done|]. intros j Hj. pose proof (depth_array js j Hj). solve_depth.
  - take_parts. start_read. read_part. done.
  - destruct Hok as [[[Hs Hc]%stable_spec Hl] Hr]. take_parts. start_read. rewrite Hs, Hc. read_part. done.
  - destruct Hok as [Hl Hvs]. take_parts. start_read.
    destruct (fields_in j (JArray js)) as [-> ->]. cbn [as_array typed mbind result_bind]. read_part.
    rewrite (mapM_reads js (map canon vs)); [done|done|]. intros j' Hj. pose proof (depth_array js j' Hj). solve_depth.
  - destruct Hok as [[Hl Hlo] Hup]. take_parts. start_read.
    destruct (fields_between j1 j0 j) as (-> & -> & ->). read_part. done.
  - take_parts. start_read. destruct (fields_null j (JBool n)) as [-> ->]. cbn [as_bool typed mbind result_bind].
    read_part. done.
  - destruct Hok as [[Hv [Hs Hc]%stable_spec] Hne]. apply negb_true_iff in Hne. rewrite Hne.
    case_bool_decide as Hd; cbn [orb]; start_read.
    + rewrite valid_utf8_eq by done. by subst d.
    + rewrite valid_utf8_eq by done. by rewrite Hs, Hc.
  - destruct Hok as [He [Hs Hc]%stable_spec]. take_parts. start_read. unfold text_field.
    destruct (fields_cast j (JString (coerceUTF8 (ValueType_string t)))) as [-> ->].
    cbn [as_text typed mbind result_bind]. read_part. by rewrite Hs, Hc.
  - start_read. by rewrite Hok.
  - rewrite Hok. by start_read.
  - unfold json_time in Hok. rewrite !andb_true_iff, !Z.leb_le, Z.ltb_lt, bool_decide_eq_true in Hok.
    destruct Hok as [[[[Hy1 Hy2] Hn1] Hn2] Hu]. start_read.
    rewrite (valid_utf8_eq (FormatRFC3339NanoUTC t)) by (apply format_valid; [done|by split]). rewrite ParseRFC3339_Format by (split; done). by rewrite Hu, Hu.
  - destruct Hok as [[[Hs Hc]%stable_spec Hl] Hr]. take_parts. start_read. rewrite Hs, Hc. read_part. done.
Qed.

(** ** Documents *)

Definition json_ok_order (o : OrderExpr) : bool :=
  json_ok (oExpr o) && stable SortDirection_string SortDirection_of (oDirection o)
  && negb (String.eqb (SortDirection_string (oDirection o)) "").
Definition json_ok_int (o : option Z) : bool := match o with Some z => in_int64 z | None => true end.
Definition json_ok_query (q : Query) : bool :=
  valid_utf8 (Version q) && stable Target_string Target_of (From q)
  && match Where q with NilExpr => true | e => json_ok e end
  && forallb json_ok_order (OrderBy q) && json_ok_int (Limit q) && json_ok_int (Offset q).

Definition canon_order (o : OrderExpr) : OrderExpr := mkOrder (canon (oExpr o)) (oDirection o).
Definition canon_query (q : Query) : Query :=
  mkQuery (Version q) (From q) (canon (Where q)) (map canon_order (OrderBy q)) (Limit q) (Offset q).

Lemma canon_query_equiv q : canon_query q ≡ q.
Proof.
  unfold equiv, Query_equiv, strip_query, canon_query. cbn. f_equal; [apply canon_equiv|].
  rewrite map_map. apply map_ext. intros o. unfold strip_order, canon_order. cbn. f_equal. apply canon_equiv.
Qed.

Lemma unmarshal_expr_reads j e : reads j e -> unmarshal_expr (Some j) = Ok e.
Proof. intros H. apply H. lia. Qed.

Lemma option_eta {A} (o : option A) : match o with Some v => Some v | None => None end = o.
Proof. by destruct o. Qed.

Lemma get_field_app name a b :
  get_field name (a ++ b) = match get_field name b with Some v => Some v | None => get_field name a end.
Proof.
  induction a as [|[k v] a IH]; cbn; [by destruct (get_field name b)|].
  rewrite IH. by destruct (get_field name b).
Qed.

Lemma get_field_int name m o :
  get_field name (int_member m o) = if EqualFold m name then JInt <$> o else None.
Proof. destruct o; cbn; by destruct (EqualFold m name). Qed.

Ltac eval_fold :=
  repeat match goal with
  | |- context [EqualFold ?a ?b] => let v := eval vm_compute in (EqualFold a b) in change (EqualFold a b) with v
  end.

Lemma marshalOrder_round_trips o :
  json_ok_order o = true ->
  exists j raw, marshalOrder o = Ok j /\ readOrder j = Ok raw /\ unmarshalOrder raw = Ok (canon_order o).
Proof.
  unfold json_ok_order. rewrite !andb_true_iff, negb_true_iff.
  intros [[He [Hs Hc]%stable_spec] Hne]. destruct (marshalExpr_round_trips _ He) as (j & Ej & Hr).
  unfold marshalOrder. rewrite Ej. cbn [wrap_err mbind result_bind raw]. rewrite Hne.
  eexists _, (Some j, SortDirection_string (oDirection o)). split; [reflexivity|]. split.
  - unfold readOrder. cbn [as_object typed mbind result_bind]. unfold text_field. cbn [get_field]. eval_fold.
    cbn [jstring as_text typed mbind result_bind]. by rewrite Hs.
  - unfold unmarshalOrder. cbn [fst snd]. rewrite (unmarshal_expr_reads _ _ Hr). cbn. by rewrite Hne, Hc.
Qed.

Lemma orders_round_trip os :
  forallb json_ok_order os = true ->
  exists js raws, mapM_result marshalOrder os = Ok js /\ (js = [] -> os = []) /\
    mapM_result readOrder js = Ok raws /\ mapM_result unmarshalOrder raws = Ok (map canon_order os).
Proof.
  induction os as [|o os IH]; cbn; [intros _; by exists [], []|].
  intros [Ho Hos]%andb_true_iff. destruct (marshalOrder_round_trips o Ho) as (j & r & Ej & Er & Eu).
  destruct (IH Hos) as (js & rs & Ejs & _ & Ers & Eus). exists (j :: js), (r :: rs).
  rewrite Ej. cbn. rewrite Ejs. cbn. rewrite Er. cbn. rewrite Ers. cbn. rewrite Eu. cbn. by rewrite Eus.
Qed.

Lemma as_int_ptr_ok o : json_ok_int o = true -> as_int_ptr (JInt <$> o) = Some o.
Proof. destruct o; cbn; [by intros ->|done]. Qed.

(** C25: a query that JSON can hold is marshalled, and reading the document gives
    back the same query, up to which nodes are held by pointer. *)
Theorem UnmarshalQuery_MarshalQuery q :
  json_ok_query q = true ->
  exists doc q', MarshalQuery q = Ok doc /\ UnmarshalQuery doc = Ok q' /\ q' ≡ q.
Proof.
  unfold json_ok_query. rewrite !andb_true_iff.
  intros [[[[[Hv [Hs Hc]%stable_spec] Hw] Ho] Hl] Hf].
  assert (exists w, marshalExpr (Where q) = Ok w /\ unmarshal_expr w = Ok (canon (Where q))) as (w & Ew & Uw).
  { destruct (Where q) eqn:E; try (destruct (marshalExpr_round_trips _ Hw) as (j & Ej & Hr); exists (Some j);
      split; [exact Ej|by apply unmarshal_expr_reads]). by exists None. }
  destruct (orders_round_trip _ Ho) as (js & rs & Ejs & Hnil & Ers & Eus).
  unfold MarshalQuery. rewrite Ew. cbn [wrap_err mbind result_bind]. rewrite Ejs. cbn [mbind result_bind].
  eexists _, (canon_query q). split; [reflexivity|]. split; [|apply canon_query_equiv].
  unfold UnmarshalQuery, readDocument, text_field. cbn [as_object typed mbind result_bind].
  rewrite !get_field_app, !get_field_int.
  assert (forall name, get_field name match w with Some w => [("where", w)] | None => [] end
    = if EqualFold "where" name then w else None) as Hgw.
  { intros name. destruct w; cbn [get_field]; by destruct (EqualFold "where" name). }
  assert (forall name, get_field name match js with [] => [] | _ => [("order_by", JArray js)] end
    = if EqualFold "order_by" name then match js with [] => None | _ => Some (JArray js) end else None) as Hgo.
  { intros name. destruct js; cbn [get_field]; by destruct (EqualFold "order_by" name). }
  rewrite !Hgw, !Hgo. cbn [get_field]. eval_fold.
  cbn [typed mbind result_bind as_text jstring wrap_err].
  rewrite (valid_utf8_eq _ Hv), Hs.
  rewrite !option_eta.
  assert (match match js with [] => None | _ => Some (JArray js) end with Some j => as_array j | None => Some [] end
    = Some js) as -> by by destruct js.
  cbn [typed mbind result_bind]. rewrite Ers. cbn [mbind result_bind].
  rewrite (as_int_ptr_ok _ Hl), (as_int_ptr_ok _ Hf).
  cbn [typed mbind result_bind wrap_err docWhere docOrderBy docVersion docFrom docLimit docOffset].
  rewrite Uw. cbn [mbind result_bind wrap_err]. rewrite Eus. cbn [mbind result_bind]. by rewrite Hc.
Qed.

(** ** Fuel *)

(** Results other than the end of the fuel. *)
Definition fuelled {A} (r : R A) : Prop := r <> Err JOutOfFuel.

Create HintDb fuel.
Lemma fuelled_Ok {A} (a : A) : fuelled (Ok a : R A).
Proof. done. Qed.
Lemma fuelled_typed {A} member (o : option A) : fuelled (typed member o).
Proof. by destruct o. Qed.
Lemma fuelled_bind {A B} (m : R A) (f : A -> R B) :
  fuelled m -> (forall a, m = Ok a -> fuelled (f a)) -> fuelled (m ≫= f).
Proof. unfold fuelled. destruct m as [a|e]; cbn; [intros _ H; by apply H|congruence]. Qed.
Lemma fuelled_mapM {A B} (f : A -> R B) l :
  (forall a, a ∈ l -> fuelled (f a)) -> fuelled (mapM_result f l).
Proof.
  induction l as [|a l IH]; cbn; intros H; [done|]. apply fuelled_bind; [apply H; left|].
  intros b _. apply fuelled_bind; [apply IH; intros; apply H; by right|]. done.
Qed.
#[export] Hint Resolve fuelled_Ok fuelled_typed fuelled_bind fuelled_mapM : fuel.

(** The raw messages that fit in [n]. *)
Definition fits (n : nat) (data : option json) : Prop :=
  match data with Some j => (depth j < n)%nat | None => True end.

Lemma typed_Ok {A} member (o : option A) a : typed member o = Ok a -> o = Some a.
Proof. destruct o; cbn; congruence. Qed.

(** What is inside a member that fits also fits. *)
Lemma fits_body n j body member name :
  (depth j < n)%nat -> typed member (as_object j) = Ok body -> fits n (get_field name body).
Proof.
  intros Hj Hb%typed_Ok. destruct (get_field name body) as [v|] eqn:E; [|done].
  apply get_field_elem in E as [k Hk]. pose proof (as_object_depth j body k v Hb Hk). cbn. lia.
Qed.
Lemma fits_element n j l v : (depth j < n)%nat -> as_array j = Some l -> v ∈ l -> fits n (Some v).
Proof. intros Hj Hl Hv. pose proof (as_array_depth j l v Hl Hv). cbn. lia. Qed.

Lemma unmarshalShape_fuelled n rec object :
  (forall data, fits n data -> fuelled (rec data)) ->
  (forall k v, (k, v) ∈ object -> (depth v < n)%nat) ->
  fuelled (unmarshalShape rec object).
Proof.
  intros Hrec Hobj.
  assert (forall key, fits n (get key object)) as Hget.
  { intros key. destruct (get key object) eqn:E; [|done]. apply get_elem in E. by eapply Hobj. }
  unfold unmarshalShape.
  repeat match goal with
  | |- fuelled (match get ?k object with _ => _ end) =>
      let E := fresh "E" in pose proof (Hget k); destruct (get k object) eqn:E
  end; try done.
  all: repeat (apply fuelled_bind; [solve [eauto using fits_body with fuel]|intros ? ?]); eauto with fuel.
  - by destruct (ParseRFC3339 _).
  - destruct (get "direction" object); eauto with fuel.
  - match goal with H : typed "values" _ = Ok _ |- _ => apply typed_Ok in H as Hraws end.
    match goal with H : typed "in" _ = Ok _ |- _ => apply typed_Ok in H as Hbody end.
    apply fuelled_bind; [|eauto with fuel]. apply fuelled_mapM. intros v Hv. apply Hrec.
    destruct (get_field "values" _) as [vs|] eqn:Ev; [|injection Hraws as <-; by apply elem_of_nil in Hv].
    apply get_field_elem in Ev as [k Hk]. pose proof (as_object_depth _ _ _ _ Hbody Hk).
    eapply fits_element; [|done|done]. cbn in *. lia.
  - pose proof (Hget "terms") as Ht. destruct (get "terms" object) as [ts|].
    + apply fuelled_bind; [eauto with fuel|]. intros raws Hraws%typed_Ok.
      apply fuelled_bind; [|eauto with fuel]. apply fuelled_mapM. intros v Hv.
      apply Hrec. by eapply fits_element.
    + repeat (apply fuelled_bind; [by apply Hrec|intros ? ?]). done.
Qed.

(** The fuel of [unmarshal_expr] is enough: no document runs out of it. *)
Lemma unmarshalExpr_fuelled fuel data : fits fuel data -> fuelled (unmarshalExpr fuel data).
Proof.
  revert data; induction fuel as [|fuel IH]; intros [j|] Hf; cbn in *; try done; [lia|].
  destruct (as_object j) as [object|] eqn:E; cbn; [|done].
  apply (unmarshalShape_fuelled fuel); [exact IH|].
  intros k v Hk. pose proof (as_object_depth j object k v E Hk). lia.
Qed.
Lemma unmarshal_expr_fuelled data : fuelled (unmarshal_expr data).
Proof. apply unmarshalExpr_fuelled. destruct data; cbn; [lia|done]. Qed.

(** ** Witness *)

Definition json_example : Query :=
  mkQuery VersionV1 TargetObjects
    (BoolExpr BoolAnd
       [Comparison Val OpGt (AttrRef "upstream.size") (IntLiteral 10);
        NotExpr Val (BucketPredicate Val "photos");
        InComparison Val (FieldRef "key") [StringLiteral "a"; StringLiteral "b"]])
    [mkOrder (FieldRef "key") SortDesc] (Some 5) None.

Lemma UnmarshalQuery_MarshalQuery_witness :
  json_ok_query json_example = true /\
  exists doc q', MarshalQuery json_example = Ok doc /\ UnmarshalQuery doc = Ok q' /\ q' ≡ json_example.
Proof.
  assert (json_ok_query json_example = true) as H by (vm_compute; reflexivity).
  split; [exact H|]. exact (UnmarshalQuery_MarshalQuery json_example H).
Defined.
