(* ===== verification/ErrState.v ===== *)
(** * ErrState

    The computations of the job handlers: a state, a result and an error.  The
    handlers of the worker run statements on the database, call the object store
    and stop at the first error; [M S A] is that, for a state [S].  The triples
    below specify a computation by a precondition, a postcondition for its result
    and one for its error, as in a Hoare logic. *)
From S2P Require Import Prelude JobRuns.
Local Open Scope Z_scope.

(** An error the code returns, or a loop of the model that was given too little
    fuel (see the termination theorems). *)
Inductive run_error := Failure (e : store_error) | OutOfFuel.

Definition M (S A : Type) : Type := S -> result run_error A * S.

#[export] Instance M_ret S : MRet (M S) := fun A a s => (Ok a, s).
#[export] Instance M_bind S : MBind (M S) := fun A B f m s =>
  match m s with
  | (Ok a, s') => f a s'
  | (Err e, s') => (Err e, s')
  end.

(** A computation given as a function of the state. *)
Definition action {S A} (f : S -> result run_error A * S) : M S A := f.
Definition fail {S A} (e : run_error) : M S A := fun s => (Err e, s).
Definition fail_with {S A} (message : string) : M S A := fail (Failure (Errorf message)).
Definition gets {S A} (f : S -> A) : M S A := fun s => (Ok (f s), s).
Definition puts {S} (f : S -> S) : M S unit := fun s => (Ok tt, f s).
Definition of_result {S A} (r : result store_error A) : M S A := fun s =>
  match r with Ok a => (Ok a, s) | Err e => (Err (Failure e), s) end.

(** [for _, x := range xs { if err := f(x); err != nil { return err } }]. *)
Fixpoint for_each {S A} (f : A -> M S unit) (xs : list A) : M S unit :=
  match xs with
  | [] => mret tt
  | x :: xs => _ ← f x; for_each f xs
  end.

(** The same with a local variable that the body updates. *)
Fixpoint for_acc {S A B} (f : B -> A -> M S B) (acc : B) (xs : list A) : M S B :=
  match xs with
  | [] => mret acc
  | x :: xs => acc ← f acc x; for_acc f acc xs
  end.

(** ** Triples *)

Definition post {S A} (Q : A -> S -> Prop) (F : run_error -> S -> Prop) (r : result run_error A * S) : Prop :=
  match r with
  | (Ok a, s) => Q a s
  | (Err e, s) => F e s
  end.

Definition triple {S A} (P : S -> Prop) (m : M S A) (Q : A -> S -> Prop) (F : run_error -> S -> Prop) : Prop :=
  forall s, P s -> post Q F (m s).

Section Triples.
Context {S : Type}.
Implicit Types (P : S -> Prop) (F : run_error -> S -> Prop).

Lemma triple_ret {A} (a : A) Q F : triple (Q a) (mret a) Q F.
Proof. intros s Hs. exact Hs. Qed.

Lemma triple_fail {A} e (Q : A -> S -> Prop) F : triple (F e) (fail e) Q F.
Proof. intros s Hs. exact Hs. Qed.

Lemma triple_bind {A B} P (m : M S A) (f : A -> M S B) R Q F :
  triple P m R F -> (forall a, triple (R a) (f a) Q F) -> triple P (m ≫= f) Q F.
Proof.
  intros Hm Hf s Hs. specialize (Hm s Hs). unfold mbind, M_bind.
  destruct (m s) as [[a|e] s']; [|exact Hm]. exact (Hf a s' Hm).
Qed.

Lemma triple_pre {A} P P' (m : M S A) Q F :
  (forall s, P s -> P' s) -> triple P' m Q F -> triple P m Q F.
Proof. intros HP Hm s Hs. apply Hm, HP, Hs. Qed.

Lemma triple_post {A} P (m : M S A) Q Q' F F' :
  triple P m Q F -> (forall a s, Q a s -> Q' a s) -> (forall e s, F e s -> F' e s) -> triple P m Q' F'.
Proof.
  intros Hm HQ HF s Hs. specialize (Hm s Hs). destruct (m s) as [[a|e] s']; cbn in *; auto.
Qed.

Lemma triple_prop {A} (p : Prop) P (m : M S A) Q F :
  (p -> triple P m Q F) -> triple (fun s => p /\ P s) m Q F.
Proof. intros Hm s [Hp Hs]. by apply Hm. Qed.

Lemma triple_exists {A X} (P : X -> S -> Prop) (m : M S A) Q F :
  (forall x, triple (P x) m Q F) -> triple (fun s => exists x, P x s) m Q F.
Proof. intros Hm s [x Hs]. by apply (Hm x). Qed.

(** A computation that keeps a predicate of the state, whatever it returns. *)
Definition keeps (I : S -> Prop) {A} (m : M S A) : Prop := triple I m (fun _ => I) (fun _ => I).

Lemma keeps_mret I {A} (a : A) : keeps I (mret a).
Proof. exact (triple_ret a (fun _ => I) (fun _ => I)). Qed.

Lemma keeps_fail I {A} e : keeps I (fail (A := A) e).
Proof. apply (triple_fail (A:=A) e (fun _ => I) (fun _ => I)). Qed.

Lemma keeps_mbind I {A B} (m : M S A) (f : A -> M S B) :
  keeps I m -> (forall a, keeps I (f a)) -> keeps I (m ≫= f).
Proof. intros Hm Hf. eapply triple_bind; [exact Hm|exact Hf]. Qed.

Lemma keeps_for_each I {A} (f : A -> M S unit) xs : (forall x, x ∈ xs -> keeps I (f x)) -> keeps I (for_each f xs).
Proof.
  induction xs as [|x xs IH]; intros H; cbn; [apply keeps_mret|].
  apply keeps_mbind; [apply H; left|intros _; apply IH]. intros y Hy. apply H. by right.
Qed.

Lemma keeps_for_acc I {A B} (f : B -> A -> M S B) xs :
  (forall acc x, x ∈ xs -> keeps I (f acc x)) -> forall acc, keeps I (for_acc f acc xs).
Proof.
  induction xs as [|x xs IH]; intros H acc; cbn; [apply keeps_mret|].
  apply keeps_mbind; [apply H; left|intros acc'; apply IH]. intros acc0 y Hy. apply H. by right.
Qed.

Lemma keeps_of_result I {A} (r : result store_error A) : keeps I (of_result r).
Proof. intros s Hs. by destruct r. Qed.

(** The rule of a loop: an invariant of the elements already visited. *)
Lemma triple_for_acc {A B} (I : list A -> B -> S -> Prop) F (f : B -> A -> M S B) xs :
  (forall pre x suf acc, xs = pre ++ x :: suf -> triple (I pre acc) (f acc x) (fun acc' => I (pre ++ [x]) acc') F) ->
  forall acc, triple (I [] acc) (for_acc f acc xs) (fun acc' => I xs acc') F.
Proof.
  intros Hf acc. cut (forall pre suf acc, xs = pre ++ suf ->
    triple (I pre acc) (for_acc f acc suf) (fun acc' => I xs acc') F); [intros H; by apply (H [])|].
  clear acc. intros pre suf. revert pre. induction suf as [|x suf IH]; intros pre acc E; cbn.
  - rewrite E, app_nil_r. intros s Hs. exact Hs.
  - eapply triple_bind; [by apply Hf with suf|]. intros acc'. apply IH. by rewrite <- app_assoc.
Qed.

Lemma triple_for_each {A} (I : list A -> S -> Prop) F (f : A -> M S unit) xs :
  (forall pre x suf, xs = pre ++ x :: suf -> triple (I pre) (f x) (fun _ => I (pre ++ [x])) F) ->
  triple (I []) (for_each f xs) (fun _ => I xs) F.
Proof.
  intros Hf. cut (forall pre suf, xs = pre ++ suf -> triple (I pre) (for_each f suf) (fun _ => I xs) F);
    [intros H; by apply (H [])|].
  intros pre suf. revert pre. induction suf as [|x suf IH]; intros pre E; cbn.
  - rewrite E, app_nil_r. intros s Hs. exact Hs.
  - eapply triple_bind; [by apply Hf with suf|]. intros ?. apply IH. by rewrite <- app_assoc.
Qed.
End Triples.

(** The result of a computation that satisfies a triple. *)
Lemma triple_Ok {S A} P (m : M S A) Q F s a s' : triple P m Q F -> P s -> m s = (Ok a, s') -> Q a s'.
Proof. intros Hm Hs E. specialize (Hm s Hs). by rewrite E in Hm. Qed.
