(* ===== verification/Request.v ===== *)
(** * Request

    A request of the API among other requests: a computation on a database that others
    change between its statements, with a clock, a source of random bytes, and statements
    that may fail.  The number of the statement, or of the reading of the clock or of the
    random source, selects what the surroundings do. *)
From S2P Require Import Prelude GoTime JobRuns ErrState.
Local Open Scope Z_scope.

#[export] Instance store_error_eq_dec : EqDecision store_error. Proof. solve_decision. Defined.
#[export] Instance run_error_eq_dec : EqDecision run_error. Proof. solve_decision. Defined.

(** A statement fails before it has an effect, or its answer is lost after it. *)
Inductive fault := NotRun (e : store_error) | AnswerLost (e : store_error).

Record Surroundings (D : Type) := mkSurroundings {
  meanwhile : nat -> D -> D;
  failing : nat -> option fault;
  db_time : nat -> Z;
  wall : nat -> Time;
  random_bytes : nat -> nat -> list Z
}.
Arguments mkSurroundings {D} _ _ _ _ _.
Arguments meanwhile {D} _ _ _.
Arguments failing {D} _ _.
Arguments db_time {D} _ _.
Arguments wall {D} _ _.
Arguments random_bytes {D} _ _ _.

Record Server (D : Type) := mkServer { ticks : nat; data : D }.
Arguments mkServer {D} _ _.
Arguments ticks {D} _.
Arguments data {D} _.

Section Request.
Context {D : Type} (E : Surroundings D).

Definition statement {A} (m : nat -> M D A) : M (Server D) A := fun w =>
  let n := ticks w in
  let d := meanwhile E n (data w) in
  match failing E n with
  | Some (NotRun e) => (Err (Failure e), mkServer (S n) d)
  | Some (AnswerLost e) => (Err (Failure e), mkServer (S n) (m n d).2)
  | None => let '(r, d') := m n d in (r, mkServer (S n) d')
  end.

Definition read_clock : M (Server D) Time := fun w => (Ok (wall E (ticks w)), mkServer (S (ticks w)) (data w)).

(** [io.ReadFull(rand.Reader, raw)] for [count] bytes. *)
Definition read_random (count : nat) : M (Server D) (list Z) := fun w =>
  (Ok (random_bytes E (ticks w) count), mkServer (S (ticks w)) (data w)).

(** The error as a value: [x, err := f()]. *)
Definition attempted {S A} (m : M S A) : M S (result run_error A) := fun s =>
  match m s with (r, s') => (Ok r, s') end.

(** ** Invariants *)

Variable I : D -> Prop.
Hypothesis meanwhile_keeps : forall n d, I d -> I (meanwhile E n d).

Definition holds (w : Server D) : Prop := I (data w).

Lemma keeps_statement {A} (m : nat -> M D A) : (forall n, keeps I (m n)) -> keeps holds (statement m).
Proof.
  intros Hm w Hw. pose proof (Hm (ticks w) _ (meanwhile_keeps (ticks w) _ Hw)) as H. unfold statement.
  destruct (failing E (ticks w)) as [[e|e]|]; cbn.
  - by apply meanwhile_keeps.
  - by destruct (m (ticks w) _) as [[a|e'] d'].
  - by destruct (m (ticks w) _) as [[a|e'] d'].
Qed.

Lemma keeps_read_clock : keeps holds read_clock.
Proof. intros w Hw. exact Hw. Qed.
Lemma keeps_read_random count : keeps holds (read_random count).
Proof. intros w Hw. exact Hw. Qed.
Lemma keeps_attempted {A} (m : M (Server D) A) : keeps holds m -> keeps holds (attempted m).
Proof. intros Hm w Hw. specialize (Hm w Hw). unfold attempted. by destruct (m w) as [[a|e] w']. Qed.
End Request.

(** Surroundings in which nothing else happens and no statement fails. *)
Record quiet_server {D} (E : Surroundings D) : Prop := {
  quiet_meanwhile n d : meanwhile E n d = d;
  quiet_failing n : failing E n = None
}.

Lemma statement_quiet {D A} (E : Surroundings D) (m : nat -> M D A) n d : quiet_server E ->
  statement E m (mkServer n d) = ((m n d).1, mkServer (S n) (m n d).2).
Proof.
  intros [Ho Hf]. unfold statement. cbn [ticks data]. rewrite Ho, Hf. by destruct (m n d).
Qed.

(** Taking a computation apart. *)
Lemma bind_run {S A B} (m : M S A) (f : A -> M S B) s :
  (m ≫= f) s = match m s with (Ok a, s') => f a s' | (Err e, s') => (Err e, s') end.
Proof. reflexivity. Qed.
