(* ===== verification/Passwords.v ===== *)
(** * Passwords

    packages/secrets/password.go.  The key derivation of golang.org/x/crypto/argon2 is a
    parameter. *)
From S2P Require Import Prelude GoStrings GoSha256 JobRuns ErrState Request.
Local Open Scope Z_scope.

Definition AlgorithmArgon2id : string := "argon2id".

Definition ErrUnsupportedAlgorithm : store_error := Errorf "secrets: unsupported algorithm".
Definition ErrInvalidPassword : store_error := Errorf "secrets: invalid password".
Definition ErrInvalidPasswordHash : store_error := Errorf "secrets: invalid password hash".
Definition ErrPasswordMismatch : store_error := Errorf "secrets: password mismatch".

Record PasswordHash := mkPasswordHash {
  phAlgorithm : string; phMemoryKiB : Z; phTime : Z; phThreads : Z; phSalt : list Z; phHash : list Z
}.
#[export] Instance PasswordHash_eq_dec : EqDecision PasswordHash. Proof. solve_decision. Defined.

Record Argon2idPasswordParams := mkPasswordParams { MemoryKiB : Z; TimeCost : Z; Threads : Z; SaltBytes : Z; HashBytes : Z }.

Definition defaultArgon2idPasswordParams : Argon2idPasswordParams := mkPasswordParams (64 * 1024) 3 1 16 32.

Definition ValidateParams (p : Argon2idPasswordParams) : result store_error unit :=
  if (MemoryKiB p =? 0) || (TimeCost p =? 0) || (Threads p =? 0) || (SaltBytes p <=? 0) || (HashBytes p <=? 0)
  then Err ErrInvalidPasswordHash else Ok tt.

Definition ValidateHash (h : PasswordHash) : result store_error unit :=
  if negb (String.eqb (phAlgorithm h) AlgorithmArgon2id) then Err ErrUnsupportedAlgorithm
  else if (phMemoryKiB h =? 0) || (phTime h =? 0) || (phThreads h =? 0)
          || bool_decide (phSalt h = []) || bool_decide (phHash h = [])
  then Err ErrInvalidPasswordHash else Ok tt.

(** [argon2.IDKey(password, salt, time, memory, threads, keyLen)]. *)
Class Argon2 := IDKey : list Z -> list Z -> Z -> Z -> Z -> Z -> list Z.

Section Hasher.
Context `{Argon2}.

(** [HashPassword], once the salt is read: it is read after the two checks. *)
Definition hash_with (params : Argon2idPasswordParams) (password : string) (salt : list Z) : PasswordHash :=
  mkPasswordHash AlgorithmArgon2id (MemoryKiB params) (TimeCost params) (Threads params) salt
    (IDKey (bytes_of password) salt (TimeCost params) (MemoryKiB params) (Threads params) (HashBytes params mod 2 ^ 32)).

Definition HashPassword {D} (E : Surroundings D) (params : Argon2idPasswordParams) (password : string) : M (Server D) PasswordHash :=
  if String.eqb password "" then fail (Failure ErrInvalidPassword)
  else
    _ ← of_result (ValidateParams params);
    salt ← read_random E (Z.to_nat (SaltBytes params));
    mret (hash_with params password salt).

Definition VerifyPassword (password : string) (hash : PasswordHash) : result store_error unit :=
  if String.eqb password "" then Err ErrInvalidPassword
  else
    _ ← ValidateHash hash;
    let candidate := IDKey (bytes_of password) (phSalt hash) (phTime hash) (phMemoryKiB hash) (phThreads hash)
      (Z.of_nat (List.length (phHash hash)) mod 2 ^ 32) in
    if bool_decide (candidate = phHash hash) then Ok tt else Err ErrPasswordMismatch.

(** The key derivation returns as many bytes as it is asked for. *)
Hypothesis IDKey_length : forall password salt time memory threads keyLen, 0 <= keyLen < 2 ^ 32 ->
  Z.of_nat (List.length (IDKey password salt time memory threads keyLen)) = keyLen.

(** A fresh hash verifies the password it was made from, and another password exactly when
    the key derivation sends both to the same key. *)
Lemma verify_hash_with params password salt other :
  password <> "" -> other <> "" -> ValidateParams params = Ok tt -> HashBytes params < 2 ^ 32 ->
  Z.of_nat (List.length salt) = SaltBytes params ->
  VerifyPassword password (hash_with params password salt) = Ok tt /\
  (VerifyPassword other (hash_with params password salt) = Ok tt <->
   IDKey (bytes_of other) salt (TimeCost params) (MemoryKiB params) (Threads params) (HashBytes params) =
   IDKey (bytes_of password) salt (TimeCost params) (MemoryKiB params) (Threads params) (HashBytes params)).
Proof.
  intros Hp Ho Hv Hb Hs. unfold ValidateParams in Hv. case_match eqn:Hz; [done|]. clear Hv.
  rewrite !orb_false_iff in Hz. destruct Hz as ((((H1 & H2) & H3) & H4) & H5).
  assert (0 < SaltBytes params) by lia. assert (0 < HashBytes params) by lia.
  assert (ValidateHash (hash_with params password salt) = Ok tt) as Hval.
  { unfold ValidateHash, hash_with. cbn [phAlgorithm phMemoryKiB phTime phThreads phSalt phHash].
    rewrite String.eqb_refl, H1, H2, H3. cbn [negb orb]. rewrite Z.mod_small by lia.
    rewrite !bool_decide_false; [done| |].
    - intros Hn. pose proof (IDKey_length (bytes_of password) salt (TimeCost params) (MemoryKiB params) (Threads params) (HashBytes params) ltac:(lia)) as Hl.
      rewrite Hn in Hl. cbn in Hl. lia.
    - intros ->. cbn in Hs. lia. }
  unfold VerifyPassword. apply String.eqb_neq in Hp, Ho. rewrite Hp, Ho, Hval. cbn [mbind result_bind].
  unfold hash_with. cbn [phSalt phTime phMemoryKiB phThreads phHash].
  rewrite (Z.mod_small (HashBytes params)) by lia. rewrite IDKey_length by lia. rewrite Z.mod_small by lia.
  split; [by rewrite bool_decide_true|]. case_bool_decide; split; done.
Qed.
End Hasher.
