(* ===== verification/Settings.v ===== *)
(** * Settings

    The runtime settings: their definitions and validation (packages/storage/setting.go),
    the settings table and its repository (settings_repository.go, migration 000010), and
    the cache of a worker (apps/worker/internal/settings/cache.go).  The lock of the cache
    protects one assignment; the model is the cache between two refreshes. *)
From S2P Require Import Prelude GoStrings GoDuration JobPayload JobRuns ErrState.
Local Open Scope Z_scope.

(** ** setting.go *)

Inductive SettingType := SettingTypeDuration | SettingTypeBool.

Definition SettingWorkerRunnerPollInterval : string := "WORKER_RUNNER_POLL_INTERVAL".
Definition SettingWorkerRunnerRetryDelay : string := "WORKER_RUNNER_RETRY_DELAY".
Definition SettingWorkerScanSchedulerInterval : string := "WORKER_SCAN_SCHEDULER_INTERVAL".
Definition SettingWorkerScanStagger : string := "WORKER_SCAN_STAGGER".
Definition SettingWorkerDuplicateDetectionSchedulerInterval : string := "WORKER_DUPLICATE_DETECTION_SCHEDULER_INTERVAL".
Definition SettingWorkerUpstreamProcessorInterval : string := "WORKER_UPSTREAM_PROCESSOR_INTERVAL".
Definition SettingWorkerConfigRefetchInterval : string := "WORKER_CONFIG_REFETCH_INTERVAL".
Definition SettingWorkerJobStaleTimeout : string := "WORKER_JOB_STALE_TIMEOUT".
Definition SettingScanBucketEnabled : string := "SCAN_BUCKET_ENABLED".
Definition SettingScanBucketInterval : string := "SCAN_BUCKET_INTERVAL".
Definition SettingDuplicateDetectionEnabled : string := "DUPLICATE_DETECTION_ENABLED".
Definition SettingDuplicateDetectionInterval : string := "DUPLICATE_DETECTION_INTERVAL".

Record SettingDefinition := mkDefinition { dKey : string; dDefault : string; dType : SettingType; dEncrypted : bool }.
Record Setting := mkSetting {
  sKey : string; sValue : string; sEncrypted : bool; sUpdatedAt : Z; sUpdatedBy : option string
}.

Definition SettingDefinitions : list SettingDefinition := [
  mkDefinition SettingWorkerRunnerPollInterval "2s" SettingTypeDuration false;
  mkDefinition SettingWorkerRunnerRetryDelay "30s" SettingTypeDuration false;
  mkDefinition SettingWorkerScanSchedulerInterval "2s" SettingTypeDuration false;
  mkDefinition SettingWorkerScanStagger "30s" SettingTypeDuration false;
  mkDefinition SettingWorkerDuplicateDetectionSchedulerInterval "2s" SettingTypeDuration false;
  mkDefinition SettingWorkerUpstreamProcessorInterval "2s" SettingTypeDuration false;
  mkDefinition SettingWorkerConfigRefetchInterval "5m" SettingTypeDuration false;
  mkDefinition SettingWorkerJobStaleTimeout "15m" SettingTypeDuration false;
  mkDefinition SettingScanBucketEnabled "true" SettingTypeBool false;
  mkDefinition SettingScanBucketInterval "24h" SettingTypeDuration false;
  mkDefinition SettingDuplicateDetectionEnabled "false" SettingTypeBool false;
  mkDefinition SettingDuplicateDetectionInterval "24h" SettingTypeDuration false].

Definition SettingDefinitionByKey (key : string) : option SettingDefinition :=
  List.find (fun definition => String.eqb (dKey definition) key) SettingDefinitions.

Definition ValidateSettingValue (definition : SettingDefinition) (value : string) : result store_error unit :=
  match dType definition with
  | SettingTypeDuration =>
      match ParseDuration value with
      | None => Err (Errorf "invalid duration for %s: %w")
      | Some parsed => if parsed <=? 0 then Err (Errorf "invalid duration for %s: must be positive") else Ok tt
      end
  | SettingTypeBool =>
      match ParseBool value with None => Err (Errorf "invalid bool for %s: %w") | Some _ => Ok tt end
  end.

Definition unknown_setting {A} : result store_error A := Err (Errorf "unknown setting %q").

(** The parsers after their validation. *)
Definition parsed_or {A} (value : option A) : result store_error A :=
  match value with Some v => Ok v | None => Err (Errorf "time: invalid duration") end.
Definition ParseSettingDuration (key value : string) : result store_error Z :=
  match SettingDefinitionByKey key with
  | None => unknown_setting
  | Some definition => _ ← ValidateSettingValue definition value; parsed_or (ParseDuration value)
  end.
Definition ParseSettingBool (key value : string) : result store_error bool :=
  match SettingDefinitionByKey key with
  | None => unknown_setting
  | Some definition => _ ← ValidateSettingValue definition value; parsed_or (ParseBool value)
  end.

(** ** settings_repository.go *)

Notation settings := (gmap string Setting).

Definition ErrSettingUnknown : store_error := Errorf "storage: unknown setting key".
Definition ErrSettingInvalidValue : store_error := Errorf "storage: invalid setting value".

(** The checks of the table. *)
Definition setting_row_ok (s : Setting) : bool := negb (blank (sKey s)) && negb (blank (sValue s)).

Definition ListSettings : M settings (list Setting) :=
  gets (fun t => sort_by (fun a b => String.ltb (sKey a) (sKey b)) (map snd (map_to_list t))).

Definition GetSetting (key : string) : M settings Setting := fun t =>
  match t !! key with Some s => (Ok s, t) | None => (Err (Failure ErrNotFound), t) end.

Definition SetSetting (now : Z) (key value updatedBy : string) : M settings unit :=
  match SettingDefinitionByKey key with
  | None => fail (Failure ErrSettingUnknown)
  | Some definition =>
      match ValidateSettingValue definition value with
      | Err e => fail (Failure (Wrapf "storage: invalid setting value: %v" ErrSettingInvalidValue))
      | Ok _ => fun t =>
          match t !! key with
          | None => (Err (Failure ErrNotFound), t)
          | Some s =>
              let row := mkSetting (sKey s) value (sEncrypted s) now (if String.eqb updatedBy "" then None else Some updatedBy) in
              if setting_row_ok row then (Ok tt, <[key := row]> t) else (Err (Failure (Errorf "set setting %q: %w")), t)
          end
      end
  end.

(** [INSERT ... ON CONFLICT (key) DO NOTHING]. *)
Definition seed_setting (now : Z) (definition : SettingDefinition) : M settings unit := fun t =>
  let row := mkSetting (dKey definition) (dDefault definition) (dEncrypted definition) now None in
  if setting_row_ok row then
    match t !! dKey definition with Some _ => (Ok tt, t) | None => (Ok tt, <[dKey definition := row]> t) end
  else (Err (Failure (Errorf "seed setting %q: %w")), t).

Definition SeedSettings (now : Z) : M settings unit := for_each (seed_setting now) SettingDefinitions.

(** ** cache.go *)

Notation cache := (gmap string string).

Definition StaticFromRegistry : cache :=
  fold_left (fun values definition => <[dKey definition := dDefault definition]> values) SettingDefinitions ∅.
Definition NewCache : cache := StaticFromRegistry.

(** [Refresh], with the list it reads. *)
Definition refreshed (rows : list Setting) : cache :=
  fold_left (fun values s => <[sKey s := sValue s]> values) rows StaticFromRegistry.
Definition RefreshCache (list_settings : result run_error (list Setting)) (c : cache) : result run_error unit * cache :=
  match list_settings with Err e => (Err e, c) | Ok rows => (Ok tt, refreshed rows) end.

Definition defaultRaw (key : string) : string :=
  match SettingDefinitionByKey key with Some definition => dDefault definition | None => "" end.
Definition defaultDuration (key : string) : Z := default Second (ParseDuration (defaultRaw key)).
Definition defaultBool (key : string) : bool := default false (ParseBool (defaultRaw key)).

Definition Raw (c : cache) (key : string) : string :=
  match c !! key with Some value => value | None => defaultRaw key end.
Definition Duration (c : cache) (key : string) : Z :=
  match ParseSettingDuration key (Raw c key) with Ok parsed => parsed | Err _ => defaultDuration key end.
Definition Bool (c : cache) (key : string) : bool :=
  match ParseSettingBool key (Raw c key) with Ok parsed => parsed | Err _ => defaultBool key end.

Definition defaultConfigRefetchInterval : Z := 5 * Minute.
Definition RefetchInterval (c : cache) : Z :=
  let interval := Duration c SettingWorkerConfigRefetchInterval in
  if interval <=? 0 then defaultConfigRefetchInterval else interval.

(** ** The table that the operations keep *)

Record settings_ok (t : settings) : Prop := {
  so_keyed key s : t !! key = Some s -> sKey s = key;
  so_valid key s : t !! key = Some s ->
    exists definition, SettingDefinitionByKey key = Some definition /\ ValidateSettingValue definition (sValue s) = Ok tt
}.

Inductive setting_op := OpSeed (now : Z) | OpSet (now : Z) (key value updatedBy : string).
Definition run_setting_op (o : setting_op) (t : settings) : settings :=
  match o with
  | OpSeed now => (SeedSettings now t).2
  | OpSet now key value updatedBy => (SetSetting now key value updatedBy t).2
  end.

Lemma empty_settings_ok : settings_ok ∅.
Proof. by split; intros key s; rewrite lookup_empty. Qed.

(** The defaults are valid, and their keys are distinct. *)
Lemma defaults_valid : Forall (fun d => SettingDefinitionByKey (dKey d) = Some d /\
  ValidateSettingValue d (dDefault d) = Ok tt) SettingDefinitions.
Proof. repeat constructor; vm_compute; reflexivity. Qed.

Lemma definition_key key d : SettingDefinitionByKey key = Some d -> dKey d = key /\ d ∈ SettingDefinitions.
Proof.
  intros Hd. split; [|by apply list_elem_of_In, (find_some _ _ Hd)].
  apply find_some in Hd as [_ Hd]. by apply String.eqb_eq in Hd.
Qed.

Lemma insert_setting_ok t s d :
  settings_ok t -> SettingDefinitionByKey (sKey s) = Some d -> ValidateSettingValue d (sValue s) = Ok tt ->
  settings_ok (<[sKey s := s]> t).
Proof.
  intros [Hk Hv] Hd Hs. split; intros key r; rewrite lookup_insert_Some; intros [[<- <-]|[_ Hr]]; eauto.
Qed.

Lemma seed_setting_ok now d t : d ∈ SettingDefinitions -> settings_ok t -> settings_ok (seed_setting now d t).2.
Proof.
  intros Hd Ht. pose proof defaults_valid as Hall. rewrite list.Forall_forall in Hall. destruct (Hall d Hd) as [H1 H2].
  unfold seed_setting. cbv zeta. case_match; [|done]. case_match; [done|].
  by apply (insert_setting_ok t (mkSetting (dKey d) (dDefault d) (dEncrypted d) now None) d).
Qed.

Lemma for_each_kept {S A} (I : S -> Prop) (f : A -> M S unit) xs s :
  (forall x s, x ∈ xs -> I s -> I (f x s).2) -> I s -> I (for_each f xs s).2.
Proof.
  revert s. induction xs as [|x xs IH]; intros s Hf Hs; [done|]. cbn [for_each]. unfold mbind, M_bind.
  pose proof (Hf x s ltac:(by left) Hs) as H1. destruct (f x s) as [[u|e] s']; [|done].
  apply IH; [|done]. intros y s0 Hy. apply Hf. by right.
Qed.

Lemma run_setting_op_ok o t : settings_ok t -> settings_ok (run_setting_op o t).
Proof.
  intros Ht. destruct o as [now|now key value updatedBy]; cbn [run_setting_op].
  - unfold SeedSettings. apply for_each_kept; [|done]. intros d s. apply seed_setting_ok.
  - unfold SetSetting. destruct (SettingDefinitionByKey key) as [d|] eqn:Hd; [|done].
    destruct (ValidateSettingValue d value) as [[]|e] eqn:Hv; [|done].
    destruct (t !! key) as [s|] eqn:Hs; [|done]. cbv zeta. case_match; [|done]. cbn [snd].
    pose proof (so_keyed t Ht key s Hs) as Hkey. rewrite <- Hkey at 1.
    apply (insert_setting_ok t (mkSetting (sKey s) value (sEncrypted s) now _) d); [done| |done].
    change (SettingDefinitionByKey (sKey s) = Some d). by rewrite Hkey.
Qed.

(** What a worker reads after a refresh. *)
Definition stored_rows (t : settings) : list Setting := sort_by (fun a b => String.ltb (sKey a) (sKey b)) (map snd (map_to_list t)).

Lemma static_lookup key : StaticFromRegistry !! key = dDefault <$> SettingDefinitionByKey key.
Proof.
  assert (forall ds (m : gmap string string), NoDup (map dKey ds) -> fold_left (fun values d => <[dKey d := dDefault d]> values) ds m !! key =
    match List.find (fun d => String.eqb (dKey d) key) ds with Some d => Some (dDefault d) | None => m !! key end) as H.
  { induction ds as [|d ds IH]; intros m Hnd; [done|]. cbn in Hnd |- *. inversion Hnd as [|? ? Hni Hnd']; subst.
    rewrite IH by done. destruct (String.eqb_spec (dKey d) key) as [<-|Hne].
    - destruct (List.find _ ds) as [d'|] eqn:Hf; [|by rewrite lookup_insert_eq]. exfalso. apply Hni.
      apply find_some in Hf as [Hin He]. apply String.eqb_eq in He. rewrite <- He. apply list_elem_of_fmap.
      exists d'. split; [done|by apply list_elem_of_In].
    - case_match; [done|]. by rewrite lookup_insert_ne. }
  unfold StaticFromRegistry, SettingDefinitionByKey. rewrite H; [by case_match|].
  apply (bool_decide_unpack _). vm_compute. exact I.
Qed.

Lemma refreshed_lookup t key :
  settings_ok t -> refreshed (stored_rows t) !! key =
  match t !! key with Some s => Some (sValue s) | None => StaticFromRegistry !! key end.
Proof.
  intros Ht. unfold refreshed.
  assert (forall rows, fold_left (fun values s => <[sKey s := sValue s]> values) rows StaticFromRegistry =
    list_to_map (map (fun s => (sKey s, sValue s)) (rev rows)) ∪ StaticFromRegistry) as H.
  { intros rows. induction rows as [|s rows IH] using rev_ind; [cbn; by rewrite map_empty_union|].
    rewrite fold_left_app, rev_app_distr. cbn [fold_left rev app map]. rewrite IH, list_to_map_cons. by rewrite insert_union_l. }
  rewrite H. clear H. rewrite lookup_union.
  assert ((list_to_map (map (fun s => (sKey s, sValue s)) (rev (stored_rows t))) : gmap string string) = sValue <$> t) as ->.
  { assert (map (fun s => (sKey s, sValue s)) (rev (stored_rows t)) ≡ₚ map_to_list (sValue <$> t)) as Hp.
    { unfold stored_rows. rewrite <- Permutation_rev, sort_by_perm, map_to_list_fmap, List.map_map.
      match goal with |- ?a ≡ₚ ?b => enough (a = b) as Heq by (by rewrite Heq) end. apply List.map_ext_in. intros [k s] Hin. apply list_elem_of_In, elem_of_map_to_list in Hin. cbn. f_equal.
      by apply (so_keyed t Ht). }
    etransitivity; [apply list_to_map_proper; [|exact Hp]|apply list_to_map_to_list].
    rewrite Hp. apply NoDup_fst_map_to_list. }
  rewrite lookup_fmap. generalize (StaticFromRegistry !! key) as v. intros v. by destruct (t !! key), v.
Qed.

Lemma raw_refreshed t key :
  settings_ok t -> Raw (refreshed (stored_rows t)) key = match t !! key with Some s => sValue s | None => defaultRaw key end.
Proof.
  intros Ht. unfold Raw. rewrite refreshed_lookup by done. destruct (t !! key); [done|]. rewrite static_lookup.
  unfold defaultRaw. by destruct (SettingDefinitionByKey key).
Qed.

Lemma raw_valid t d : settings_ok t -> SettingDefinitionByKey (dKey d) = Some d ->
  ValidateSettingValue d (Raw (refreshed (stored_rows t)) (dKey d)) = Ok tt.
Proof.
  intros Ht Hd. rewrite raw_refreshed by done. destruct (t !! dKey d) as [s|] eqn:Hs.
  - destruct (so_valid t Ht _ _ Hs) as (d' & Hd' & Hv). congruence.
  - unfold defaultRaw. rewrite Hd. pose proof defaults_valid as Hall. rewrite list.Forall_forall in Hall.
    by apply Hall, (definition_key _ _ Hd).
Qed.

(** C30: whatever sequence of seeds and updates produced the table, what a worker reads
    after a refresh is in force: the raw value is the stored one, or the default of a key
    that is not stored; a duration setting is that value parsed, and positive, so that no
    loop of a worker spins; and an accepted update is what the next refresh reads. *)
Theorem settings_in_force ops d :
  d ∈ SettingDefinitions ->
  let t := fold_left (fun t o => run_setting_op o t) ops ∅ in
  let c := (RefreshCache (ListSettings t).1 NewCache).2 in
  Raw c (dKey d) = match t !! dKey d with Some s => sValue s | None => dDefault d end /\
  match dType d with
  | SettingTypeDuration => ParseDuration (Raw c (dKey d)) = Some (Duration c (dKey d)) /\ 0 < Duration c (dKey d)
  | SettingTypeBool => ParseBool (Raw c (dKey d)) = Some (Bool c (dKey d))
  end /\
  (forall now value by_, (SetSetting now (dKey d) value by_ t).1 = Ok tt ->
     Raw (RefreshCache (ListSettings (SetSetting now (dKey d) value by_ t).2).1 c).2 (dKey d) = value).
Proof.
  intros Hin t c. pose proof defaults_valid as Hall. rewrite list.Forall_forall in Hall. destruct (Hall d Hin) as [Hd _].
  assert (settings_ok t) as Ht.
  { unfold t. pose proof empty_settings_ok as H0. revert H0. generalize (∅ : settings).
    induction ops as [|o ops IH]; intros t0 H0; [done|].
    by apply IH, run_setting_op_ok. }
  change c with (refreshed (stored_rows t)). split; [|split].
  - rewrite raw_refreshed by done. unfold defaultRaw. by rewrite Hd.
  - pose proof (raw_valid t d Ht Hd) as Hv. unfold Duration, Bool, ParseSettingDuration, ParseSettingBool. rewrite Hd.
    rewrite Hv. unfold ValidateSettingValue in Hv. destruct (dType d).
    + destruct (ParseDuration _) as [v|]; [|done]. destruct (Z.leb_spec v 0); [done|]. by split.
    + by destruct (ParseBool _).
  - intros now value by_ Hset. pose proof (run_setting_op_ok (OpSet now (dKey d) value by_) t Ht) as Ht'.
    cbn [run_setting_op] in Ht'. change (RefreshCache _ _).2 with (refreshed (stored_rows (SetSetting now (dKey d) value by_ t).2)).
    rewrite raw_refreshed by done. revert Hset. unfold SetSetting. rewrite Hd. destruct (ValidateSettingValue d value) as [u|e]; [|done].
    destruct (t !! dKey d); [|done]. cbv zeta. case_match; [|done]. cbn. intros _. by rewrite lookup_insert_eq.
Qed.

Lemma settings_in_force_witness :
  let d := mkDefinition SettingWorkerScanStagger "30s" SettingTypeDuration false in
  d ∈ SettingDefinitions /\
  let t := fold_left (fun t o => run_setting_op o t) [OpSeed 0; OpSet 1 SettingWorkerScanStagger "1m" "admin"] ∅ in
  Raw (RefreshCache (ListSettings t).1 NewCache).2 (dKey d) = "1m".
Proof.
  assert (mkDefinition SettingWorkerScanStagger "30s" SettingTypeDuration false ∈ SettingDefinitions) as Hin
    by (apply list_elem_of_In; cbn; tauto).
  split; [exact Hin|]. cbv zeta.
  rewrite (proj1 (settings_in_force [OpSeed 0; OpSet 1 SettingWorkerScanStagger "1m" "admin"] _ Hin)). vm_compute. reflexivity.
Defined.
