(* ===== verification/Managed.v ===== *)
(** * Managed goroutines

    The pattern that two loops of a worker share: the supervisor of the optional workers
    (apps/worker/internal/supervisor/supervisor.go) and the manager of the JetStream
    consumers (apps/worker/internal/jetstreamconsumer/manager.go).  A loop keeps a register
    of the goroutines that it started, by name; a round cancels those that are no longer
    wanted, waits until they have ended, and starts what is missing; a goroutine whose [Run]
    returns takes itself out of the register.

    The loop and its goroutines are one transition system.  A section that holds the mutex
    is one step; the wait on [done] between two such sections is one step per goroutine.
    What a goroutine does in its [Run] is left open: it may return at any time, and need not
    return when it is cancelled.  The class [Managed] says what the loops differ in, and
    [round] which registers a round may call for; [Failed] is the loop that returned because
    the round could not be prepared, which stops none of the goroutines. *)
From S2P Require Import Prelude.
Local Open Scope nat_scope.

(** A goroutine: its [Run] is running, has returned, it is no longer registered, and [done]
    is closed. *)
Inductive phase := Running | Ended | Removed | Done.

(** The errors that a loop or a component returns: the one of a cancelled context, or
    another. *)
Inductive loop_error := Canceled | Broken (message : string).
#[export] Instance loop_error_eq_dec : EqDecision loop_error. Proof. solve_decision. Defined.

(** What differs between two such loops: when a goroutine still has the configuration that
    is called for, and whether it can be made. *)
Class Managed (C : Type) := {
  same : C -> C -> bool;
  makes : string -> C -> bool;
  same_eq c c' : same c c' = true <-> c = c'
}.

Record managed (C : Type) := mkManaged { mName : string; mConfig : C; mCancelled : bool; mPhase : phase }.
Arguments mkManaged {C}. Arguments mName {C}. Arguments mConfig {C}. Arguments mCancelled {C}. Arguments mPhase {C}.

(** The loop: between two rounds, waiting for the cancelled goroutines before it starts
    others or before it returns, gone because its context was cancelled, or gone because a
    round could not be prepared. *)
Inductive pc (C : Type) :=
| Idle
| Waiting (waiting : list nat) (desired : gmap string C)
| Leaving (waiting : list nat)
| Left
| Failed (err : loop_error).
Arguments Idle {C}. Arguments Waiting {C}. Arguments Leaving {C}. Arguments Left {C}. Arguments Failed {C}.

(** [register] holds indexes in [goroutines]; [ctxDone]: the context of the loop is
    cancelled. *)
Record machine (C : Type) :=
  mkMachine { register : gmap string nat; goroutines : list (managed C); loop : pc C; ctxDone : bool }.
Arguments mkMachine {C}. Arguments register {C}. Arguments goroutines {C}. Arguments loop {C}. Arguments ctxDone {C}.

Section Machine.
Context {C : Type} `{Managed C}.

Definition cancel (w : managed C) : managed C := mkManaged (mName w) (mConfig w) true (mPhase w).
Definition set_phase (p : phase) (w : managed C) : managed C := mkManaged (mName w) (mConfig w) (mCancelled w) p.
Definition cancel_all (ids : list nat) (ws : list (managed C)) : list (managed C) :=
  fold_left (fun ws i => alter cancel i ws) ids ws.

(** The indexes of a part of the register, in the order of a [range]. *)
Definition indexes_of (part : gmap string nat) (ids : list nat) : Prop := ids ≡ₚ (map_to_list part).*2.

(** What is registered goes on when it is desired with the configuration that it has. *)
Definition stays (desired : gmap string C) (ws : list (managed C)) (entry : string * nat) : bool :=
  match desired !! entry.1, ws !! entry.2 with Some c, Some w => same c (mConfig w) | _, _ => false end.

(** A new goroutine; its context comes from that of the loop, which is cancelled if [k]. *)
Definition launch (k : bool) (s : gmap string nat * list (managed C)) (entry : string * C) : gmap string nat * list (managed C) :=
  if makes entry.1 entry.2
  then (<[entry.1 := List.length s.2]> s.1, s.2 ++ [mkManaged entry.1 entry.2 k Running])
  else s.

Definition start_one (k : bool) (s : gmap string nat * list (managed C)) (entry : string * C) : gmap string nat * list (managed C) :=
  match s.1 !! entry.1 with
  | Some i =>
      match s.2 !! i with
      | Some w => if same entry.2 (mConfig w) then s else launch k s entry
      | None => launch k s entry
      end
  | None => launch k s entry
  end.

(** A goroutine takes itself out of the register, unless another is there. *)
Definition unregister (m : gmap string nat) (name : string) (i : nat) : gmap string nat :=
  if bool_decide (m !! name = Some i) then delete name m else m.

(** The context of the loop is cancelled, and with it those of its goroutines. *)
Definition cancel_context (s : machine C) : machine C :=
  mkMachine (register s) (cancel <$> goroutines s) (loop s) true.

Definition start : machine C := mkMachine ∅ [] Idle false.

Section Steps.
Variable round : gmap string C -> Prop.

Inductive step : machine C -> machine C -> Prop :=
(* a round up to the first unlock *)
| step_cancel m ws k desired ids :
    round desired ->
    indexes_of (filter (fun e => stays desired ws e = false) m) ids ->
    step (mkMachine m ws Idle k)
      (mkMachine (filter (fun e => stays desired ws e = true) m) (cancel_all ids ws) (Waiting ids desired) k)
| step_wait m ws k i ids desired w :
    ws !! i = Some w -> mPhase w = Done ->
    step (mkMachine m ws (Waiting (i :: ids) desired) k) (mkMachine m ws (Waiting ids desired) k)
(* the rest of the round *)
| step_start m ws k desired entries m' ws' :
    entries ≡ₚ map_to_list desired ->
    fold_left (start_one k) entries (m, ws) = (m', ws') ->
    step (mkMachine m ws (Waiting [] desired) k) (mkMachine m' ws' Idle k)
(* the round cannot be prepared: the loop returns *)
| step_fail m ws k err :
    (err = Canceled -> k = true) -> step (mkMachine m ws Idle k) (mkMachine m ws (Failed err) k)
(* the context is done: cancel all, and wait *)
| step_stop m ws ids :
    indexes_of m ids -> step (mkMachine m ws Idle true) (mkMachine ∅ (cancel_all ids ws) (Leaving ids) true)
| step_leave m ws k i ids w :
    ws !! i = Some w -> mPhase w = Done ->
    step (mkMachine m ws (Leaving (i :: ids)) k) (mkMachine m ws (Leaving ids) k)
| step_left m ws k : step (mkMachine m ws (Leaving []) k) (mkMachine m ws Left k)
(* a goroutine: [Run] returns, it is taken out of the register, [close(done)] *)
| step_end m ws l k i w :
    ws !! i = Some w -> mPhase w = Running -> step (mkMachine m ws l k) (mkMachine m (<[i := set_phase Ended w]> ws) l k)
| step_remove m ws l k i w :
    ws !! i = Some w -> mPhase w = Ended ->
    step (mkMachine m ws l k) (mkMachine (unregister m (mName w) i) (<[i := set_phase Removed w]> ws) l k)
| step_done m ws l k i w :
    ws !! i = Some w -> mPhase w = Removed -> step (mkMachine m ws l k) (mkMachine m (<[i := set_phase Done w]> ws) l k).

Inductive moves (s : machine C) : machine C -> Prop :=
| moves_step s' : step s s' -> moves s s'
| moves_context : moves s (cancel_context s).

Definition reachable (s : machine C) : Prop := rtc moves start s.
End Steps.

(** What the loop has returned. *)
Definition returned (s : machine C) : option loop_error :=
  match loop s with Left => Some Canceled | Failed err => Some err | _ => None end.

(** ** The invariant *)

Definition waiting_of (l : pc C) : list nat :=
  match l with Waiting ids _ | Leaving ids => ids | Idle | Left | Failed _ => [] end.

(** A goroutine is live until it is no longer registered. *)
Definition live (w : managed C) : Prop := mPhase w = Running \/ mPhase w = Ended.

Record machine_ok (s : machine C) : Prop := {
  (* what is registered is live, under its name, can be made, and is cancelled with the loop *)
  ok_registered name i : register s !! name = Some i ->
    exists w, goroutines s !! i = Some w /\ mName w = name /\ live w /\ mCancelled w = ctxDone s /\ makes name (mConfig w) = true;
  (* a live goroutine is registered, or the loop waits for it *)
  ok_live i w : goroutines s !! i = Some w -> live w -> register s !! mName w = Some i \/ i ∈ waiting_of (loop s);
  (* the names that are waited for are free, and each is waited for once *)
  ok_waiting i w : i ∈ waiting_of (loop s) -> goroutines s !! i = Some w -> register s !! mName w = None;
  ok_once i j w w' : i ∈ waiting_of (loop s) -> j ∈ waiting_of (loop s) -> goroutines s !! i = Some w ->
    goroutines s !! j = Some w' -> mName w = mName w' -> i = j;
  (* what is waited for exists and is cancelled *)
  ok_waited i : i ∈ waiting_of (loop s) -> exists w, goroutines s !! i = Some w /\ mCancelled w = true;
  (* only what is desired is registered while the loop waits *)
  ok_desired ids desired name i : loop s = Waiting ids desired -> register s !! name = Some i ->
    exists w, goroutines s !! i = Some w /\ desired !! name = Some (mConfig w);
  (* the loop stops only when its context is done, and has then nothing registered *)
  ok_leaving : match loop s with Leaving _ | Left => register s = ∅ /\ ctxDone s = true | Failed Canceled => ctxDone s = true | _ => True end
}.

Lemma machine_start_ok : machine_ok start.
Proof. split; cbn; intros; try set_solver. Qed.

Lemma lookup_cancel_all ids ws i :
  cancel_all ids ws !! i = (fun w => if bool_decide (i ∈ ids) then cancel w else w) <$> ws !! i.
Proof.
  unfold cancel_all. revert ws. induction ids as [|j ids IH]; intros ws; cbn [fold_left].
  - rewrite bool_decide_false by set_solver. by destruct (ws !! i).
  - rewrite IH. destruct (decide (j = i)) as [->|Hne].
    + rewrite list_lookup_alter_eq. rewrite (bool_decide_true (i ∈ i :: ids)) by left. destruct (ws !! i) as [w|]; [|done].
      cbn. by case_bool_decide.
    + rewrite list_lookup_alter_ne by done. destruct (ws !! i) as [w|]; [|done]. cbn. f_equal.
      do 2 case_bool_decide; try done; set_solver.
Qed.

Lemma elem_of_indexes part ids i : indexes_of part ids -> i ∈ ids <-> exists name, part !! name = Some i.
Proof.
  intros Hi. rewrite Hi, list_elem_of_fmap. split.
  - intros ([name j] & -> & Hin%elem_of_map_to_list). by exists name.
  - intros [name Hn]. exists (name, i). split; [done|by apply elem_of_map_to_list].
Qed.

(** What is registered has one name. *)
Lemma registered_inj s name name' i : machine_ok s ->
  register s !! name = Some i -> register s !! name' = Some i -> name = name'.
Proof.
  intros Hs H1 H2. destruct (ok_registered s Hs _ _ H1) as (w & Hw & <- & _).
  destruct (ok_registered s Hs _ _ H2) as (w' & Hw' & <- & _). congruence.
Qed.

(** Cancelling keeps the name, the configuration and the phase. *)
Lemma cancel_all_back ids ws i w : cancel_all ids ws !! i = Some w ->
  exists w0, ws !! i = Some w0 /\ mName w = mName w0 /\ mConfig w = mConfig w0 /\ mPhase w = mPhase w0 /\
    (i ∉ ids -> w = w0) /\ (i ∈ ids -> mCancelled w = true).
Proof.
  rewrite lookup_cancel_all. destruct (ws !! i) as [w0|]; [|done]. intros [= <-].
  exists w0. case_bool_decide; by split_and!.
Qed.

(** Cancelling a part [gone] of what is registered and waiting for it. *)
Lemma cancel_part m ws k (gone kept : gmap string nat) ids l :
  machine_ok (mkMachine m ws Idle k) -> indexes_of gone ids ->
  (forall name i, m !! name = Some i <-> gone !! name = Some i \/ kept !! name = Some i) ->
  (forall name i j, gone !! name = Some i -> kept !! name = Some j -> False) ->
  waiting_of l = ids ->
  (forall ids' desired name i, l = Waiting ids' desired -> kept !! name = Some i ->
     exists w, ws !! i = Some w /\ desired !! name = Some (mConfig w)) ->
  match l with Leaving _ | Left => kept = ∅ /\ k = true | Failed Canceled => k = true | _ => True end ->
  machine_ok (mkMachine kept (cancel_all ids ws) l k).
Proof.
  intros Hs Hids Hm Hdisj Hl Hdes Hleave.
  assert (forall name i, gone !! name = Some i -> exists w, ws !! i = Some w /\ mName w = name) as Hgone.
  { intros name i Hg. destruct (ok_registered _ Hs name i) as (w & Hw & Hn & _); [by apply Hm; left|eauto]. }
  assert (forall name i, kept !! name = Some i -> i ∉ ids) as Hkept.
  { intros name i Hk Hin. apply (elem_of_indexes _ _ _ Hids) in Hin as [name' Hg].
    assert (name' = name) as -> by (eapply (registered_inj _ _ _ i Hs); apply Hm; first [by left | by right]). by eapply Hdisj. }
  split; cbn [register goroutines loop ctxDone]; try done.
  - intros name i Hk. destruct (ok_registered _ Hs name i) as (w & Hw & Hrest); [by apply Hm; right|].
    cbn in Hw, Hrest. exists w. split; [|done]. rewrite lookup_cancel_all, Hw. cbn. rewrite bool_decide_false; [done|by eapply Hkept].
  - intros i w Hw Hlive. destruct (cancel_all_back _ _ i w Hw) as (w0 & Hw0 & Hn & _ & Hp & _).
    destruct (ok_live _ Hs i w0 Hw0) as [Hr|Hr]; [unfold live in *; congruence| |by apply not_elem_of_nil in Hr].
    cbn in Hr. rewrite Hn, Hl. apply Hm in Hr as [Hg|Hk]; [right|by left]. apply (elem_of_indexes _ _ _ Hids). eauto.
  - intros i w Hin Hw. rewrite Hl in Hin. apply (elem_of_indexes _ _ _ Hids) in Hin as [name Hg].
    destruct (cancel_all_back _ _ i w Hw) as (w0 & Hw0 & Hn & _). destruct (Hgone _ _ Hg) as (w' & Hw' & Hn').
    destruct (kept !! mName w) as [j|] eqn:Hk; [|done]. exfalso. apply (Hdisj name i j Hg). congruence.
  - intros i j w w' Hi Hj Hw Hw' He. rewrite Hl in Hi, Hj. apply (elem_of_indexes _ _ _ Hids) in Hi as [n1 H1], Hj as [n2 H2].
    destruct (cancel_all_back _ _ i w Hw) as (w0 & Hw0 & Hn & _), (cancel_all_back _ _ j w' Hw') as (w0' & Hw0' & Hn' & _).
    destruct (Hgone _ _ H1) as (v1 & Hv1 & E1), (Hgone _ _ H2) as (v2 & Hv2 & E2).
    assert (n1 = n2) by congruence. congruence.
  - intros i Hin. rewrite Hl in Hin. pose proof Hin as Hin'. apply (elem_of_indexes _ _ _ Hids) in Hin as [name Hg].
    destruct (Hgone _ _ Hg) as (w & Hw & _). exists (cancel w). split; [|done]. rewrite lookup_cancel_all, Hw. cbn.
    by rewrite bool_decide_true.
  - intros ids' desired name i Hl' Hk. destruct (Hdes ids' desired name i Hl' Hk) as (w & Hw & Hd). exists w. split; [|done].
    rewrite lookup_cancel_all, Hw. cbn. rewrite bool_decide_false; [done|by eapply Hkept].
Qed.

(** The entries of a list in which one goroutine has moved on. *)
Lemma moved_back (ws : list (managed C)) i w p j v : ws !! i = Some w ->
  <[i := set_phase p w]> ws !! j = Some v -> (j = i /\ v = set_phase p w) \/ (j <> i /\ ws !! j = Some v).
Proof.
  intros Hw Hj. assert (i < List.length ws) as Hlt by (by eapply lookup_lt_Some). destruct (decide (i = j)) as [<-|Hne].
  - left. rewrite list_lookup_insert_eq in Hj by done. by injection Hj as <-.
  - right. by rewrite list_lookup_insert_ne in Hj.
Qed.
Lemma moved_forth (ws : list (managed C)) i w p j v : ws !! i = Some w -> ws !! j = Some v ->
  exists v', <[i := set_phase p w]> ws !! j = Some v' /\ mName v' = mName v /\ mConfig v' = mConfig v /\
    mCancelled v' = mCancelled v /\ (j <> i -> v' = v).
Proof.
  intros Hw Hj. assert (i < List.length ws) as Hlt by (by eapply lookup_lt_Some). destruct (decide (i = j)) as [<-|Hne].
  - exists (set_phase p w). rewrite list_lookup_insert_eq by done. assert (v = w) as -> by congruence. by split_and!.
  - exists v. by rewrite list_lookup_insert_ne.
Qed.

(** One goroutine moves on, and leaves the register if it is there. *)
Lemma move_on m m' ws l k i w p :
  machine_ok (mkMachine m ws l k) -> ws !! i = Some w ->
  (forall name j, m' !! name = Some j <-> m !! name = Some j /\ (live (set_phase p w) \/ j <> i)) ->
  (live (set_phase p w) -> live w) ->
  machine_ok (mkMachine m' (<[i := set_phase p w]> ws) l k).
Proof.
  intros Hs Hw Hm' Hback.
  assert (forall j v, <[i := set_phase p w]> ws !! j = Some v -> exists v0, ws !! j = Some v0 /\ mName v = mName v0) as Hname.
  { intros j v [[-> ->]|[_ Hj]]%(moved_back _ _ _ _ _ _ Hw); eauto. }
  split; cbn [register goroutines loop ctxDone].
  - intros name j [Hr Hl]%Hm'. destruct (ok_registered _ Hs name j Hr) as (v & Hj & Hn & Hlive & Hc & Hmk). cbn in Hj, Hc.
    destruct (moved_forth ws i w p j v Hw Hj) as (v' & Hv' & Hn' & Hc' & Hk' & Hsame).
    exists v'. split; [done|]. split; [congruence|]. split; [|split; congruence].
    destruct (decide (j = i)) as [->|Hne]; [|by rewrite Hsame]. destruct Hl as [Hl|]; [|done].
    apply (moved_back _ _ _ _ _ _ Hw) in Hv' as [[_ ->]|[? _]]; done.
  - intros j v Hj Hlive. apply (moved_back _ _ _ _ _ _ Hw) in Hj as [[-> ->]|[Hne Hj]].
    + destruct (ok_live _ Hs i w Hw (Hback Hlive)) as [Hr|Hr]; [left|by right]. apply Hm'. split; [done|by left].
    + destruct (ok_live _ Hs j v Hj Hlive) as [Hr|Hr]; [left|by right]. apply Hm'. split; [done|by right].
  - intros j v Hin Hj. destruct (Hname j v Hj) as (v0 & Hj0 & Hn). pose proof (ok_waiting _ Hs j v0 Hin Hj0) as Hno. cbn in Hno.
    rewrite Hn. destruct (m' !! mName v0) as [k'|] eqn:E; [|done]. apply Hm' in E as [E _]. congruence.
  - intros j k' v v' Hj Hk Hv1 Hv2 He. destruct (Hname j v Hv1) as (v0 & H1 & N1), (Hname k' v' Hv2) as (v0' & H2 & N2).
    apply (ok_once _ Hs j k' v0 v0' Hj Hk H1 H2). congruence.
  - intros j Hin. destruct (ok_waited _ Hs j Hin) as (v & Hj & Hc). cbn in Hj.
    destruct (moved_forth ws i w p j v Hw Hj) as (v' & Hv' & _ & _ & Hc' & _). exists v'. split; [done|congruence].
  - intros ids desired name j Hl [Hr _]%Hm'. destruct (ok_desired _ Hs ids desired name j Hl Hr) as (v & Hj & Hd). cbn in Hj.
    destruct (moved_forth ws i w p j v Hw Hj) as (v' & Hv' & _ & Hc' & _). exists v'. split; [done|congruence].
  - pose proof (ok_leaving _ Hs) as Hl. cbn in Hl. destruct l as [| | | |[]]; try done; destruct Hl as [-> ->];
      (split; [|done]); apply map_eq; intros name; rewrite lookup_empty; destruct (m' !! name) as [j|] eqn:E; try done;
      apply Hm' in E as [E _]; by rewrite lookup_empty in E.
Qed.

(** The loop stops waiting for goroutines that are not live. *)
Lemma stop_waiting m ws k l l' : machine_ok (mkMachine m ws l k) ->
  (forall i, i ∈ waiting_of l' -> i ∈ waiting_of l) ->
  (forall i w, i ∈ waiting_of l -> i ∉ waiting_of l' -> ws !! i = Some w -> ~ live w) ->
  (forall ids desired, l' = Waiting ids desired -> exists ids', l = Waiting ids' desired) ->
  match l' with Leaving _ | Left => m = ∅ /\ k = true | Failed Canceled => k = true | _ => True end ->
  machine_ok (mkMachine m ws l' k).
Proof.
  intros Hs Hsub Hdead Hdes Hleave. split; cbn [register goroutines loop ctxDone]; try done.
  - apply Hs.
  - intros i w Hw Hlive. destruct (ok_live _ Hs i w Hw Hlive) as [Hr|Hr]; [by left|]. cbn in Hr.
    destruct (decide (i ∈ waiting_of l')) as [Hi|Hi]; [by right|]. exfalso. by eapply Hdead.
  - intros i w Hi. apply (ok_waiting _ Hs). by apply Hsub.
  - intros i j w w' Hi Hj. apply (ok_once _ Hs); by apply Hsub.
  - intros i Hi. apply (ok_waited _ Hs). by apply Hsub.
  - intros ids desired name i Hl Hr. destruct (Hdes _ _ Hl) as [ids' ->]. by eapply (ok_desired _ Hs).
Qed.

(** Starting what is desired: nothing that is registered has another configuration, so that
    no goroutine is put in the place of another. *)
Lemma start_one_ok m ws k desired name c :
  machine_ok (mkMachine m ws (Waiting [] desired) k) -> desired !! name = Some c ->
  machine_ok (mkMachine (start_one k (m, ws) (name, c)).1 (start_one k (m, ws) (name, c)).2 (Waiting [] desired) k).
Proof.
  intros Hs Hc.
  assert (m !! name = None -> machine_ok (mkMachine (launch k (m, ws) (name, c)).1 (launch k (m, ws) (name, c)).2 (Waiting [] desired) k)) as Hl.
  { intros Hname. unfold launch. cbn [fst snd]. destruct (makes name c) eqn:Hmk; [|done]. cbn [fst snd].
    set (new := mkManaged name c k Running).
    assert (forall i w, (ws ++ [new]) !! i = Some w -> ws !! i = Some w \/ i = List.length ws /\ w = new) as Hv.
    { intros i w [Hw|(Hle & Hw)]%lookup_app_Some; [by left|right]. apply list_lookup_singleton_Some in Hw as [Hi <-]. split; [lia|done]. }
    split; cbn [register goroutines loop ctxDone waiting_of]; try done.
    - intros n i. rewrite lookup_insert_Some. intros [[<- <-]|[Hne Hr]].
      + exists new. split; [by apply list_lookup_middle|]. split_and!; [done|by left|done..].
      + destruct (ok_registered _ Hs n i Hr) as (w & Hw & ?). exists w. split; [by apply lookup_app_l_Some|done].
    - intros i w [Hw|[-> ->]]%Hv Hlive; left; cbn [mName]; [|by apply lookup_insert_eq].
      destruct (ok_live _ Hs i w Hw Hlive) as [Hr|Hr]; [|by apply not_elem_of_nil in Hr]. cbn in Hr.
      rewrite lookup_insert_ne; [done|congruence].
    - by intros i w ?%not_elem_of_nil.
    - by intros i j w w' ?%not_elem_of_nil.
    - by intros i ?%not_elem_of_nil.
    - intros ids desired' n i [= <- <-]. rewrite lookup_insert_Some. intros [[<- <-]|[Hne Hr]].
      + exists new. by split; [apply list_lookup_middle|].
      + destruct (ok_desired _ Hs [] desired n i eq_refl Hr) as (w & Hw & Hd). exists w. by split; [apply lookup_app_l_Some|]. }
  unfold start_one. cbn [fst snd]. destruct (m !! name) as [i|] eqn:Hname; [|by apply Hl].
  destruct (ok_desired _ Hs [] desired name i eq_refl Hname) as (w & Hw & Hd). cbn in Hw. rewrite Hw.
  replace (same c (mConfig w)) with true; [done|]. symmetry. apply same_eq. congruence.
Qed.

(** The configuration under which a name is registered. *)
Definition config_at (m : gmap string nat) (ws : list (managed C)) (name : string) : option C :=
  i ← m !! name; mConfig <$> ws !! i.

Lemma start_one_config m ws k desired name c name' :
  machine_ok (mkMachine m ws (Waiting [] desired) k) -> desired !! name = Some c ->
  let s := start_one k (m, ws) (name, c) in
  config_at s.1 s.2 name' = if bool_decide (name = name') then (if makes name c then Some c else None) else config_at m ws name'.
Proof.
  intros Hs Hc s. unfold s, start_one, launch. cbn [fst snd].
  assert (forall i, m !! name = Some i -> exists w, ws !! i = Some w /\ mConfig w = c /\ makes name c = true) as Hin.
  { intros i Hi. destruct (ok_registered _ Hs name i Hi) as (w & Hw & _ & _ & _ & Hmk).
    destruct (ok_desired _ Hs [] desired name i eq_refl Hi) as (w' & Hw' & Hd). cbn in Hw, Hw'. exists w.
    assert (w' = w) as -> by congruence. assert (mConfig w = c) as E by congruence. split; [done|]. split; [done|]. by rewrite <- E. }
  assert (forall (m' : gmap string nat) ws', (forall n i, m !! n = Some i -> n = name' -> m' !! n = Some i) -> (m !! name' = None -> m' !! name' = None) ->
    ws' = ws \/ ws' = ws ++ [mkManaged name c k Running] -> config_at m' ws' name' = config_at m ws name') as Hsame.
  { intros m' ws' H1 H2 H3. unfold config_at. destruct (m !! name') as [i|] eqn:Hi.
    - rewrite (H1 _ _ Hi eq_refl). cbn. destruct (ok_registered _ Hs name' i Hi) as (w & Hw & _). cbn in Hw. rewrite Hw.
      destruct H3 as [->| ->]; [by rewrite Hw|]. by rewrite (lookup_app_l_Some _ _ _ _ Hw).
    - by rewrite H2. }
  destruct (m !! name) as [i|] eqn:Hname.
  - destruct (Hin i eq_refl) as (w & Hw & Hcfg & Hmk). rewrite Hw, (proj2 (same_eq c (mConfig w))) by done. cbn [fst snd].
    case_bool_decide as E; [|done]. subst name'. unfold config_at. rewrite Hname. cbn. by rewrite Hw, Hmk, <- Hcfg.
  - destruct (makes name c) eqn:Hmk; cbn [fst snd]; case_bool_decide as E.
    + subst name'. unfold config_at. rewrite lookup_insert_eq. cbn. by rewrite list_lookup_middle.
    + apply Hsame; [|by rewrite lookup_insert_ne|by right]. intros n j Hj ->. by rewrite lookup_insert_ne.
    + subst name'. unfold config_at. by rewrite Hname.
    + done.
Qed.

Lemma start_all_ok k desired entries : (forall name c, (name, c) ∈ entries -> desired !! name = Some c) -> forall m ws,
  machine_ok (mkMachine m ws (Waiting [] desired) k) ->
  machine_ok (mkMachine (fold_left (start_one k) entries (m, ws)).1 (fold_left (start_one k) entries (m, ws)).2 (Waiting [] desired) k).
Proof.
  induction entries as [|[name c] entries IH]; intros Hd m ws Hs; cbn [fold_left]; [done|].
  pose proof (start_one_ok m ws k desired name c Hs (Hd _ _ ltac:(left))) as H1.
  destruct (start_one k (m, ws) (name, c)) as [m1 ws1]. apply IH; [|done]. intros n c' Hin. apply Hd. by right.
Qed.

Lemma start_all_config k desired entries : NoDup entries.*1 -> (forall name c, (name, c) ∈ entries -> desired !! name = Some c) -> forall m ws,
  machine_ok (mkMachine m ws (Waiting [] desired) k) -> forall name,
  let s := fold_left (start_one k) entries (m, ws) in
  (forall c, (name, c) ∈ entries -> config_at s.1 s.2 name = if makes name c then Some c else None) /\
  (name ∉ entries.*1 -> config_at s.1 s.2 name = config_at m ws name).
Proof.
  induction entries as [|[n c] entries IH]; intros Hnd Hd m ws Hs name; cbn [fold_left]; [split; [set_solver|done]|].
  cbn in Hnd. apply list.NoDup_cons in Hnd as [Hnin Hnd].
  pose proof (start_one_ok m ws k desired n c Hs (Hd _ _ ltac:(left))) as H1.
  pose proof (start_one_config m ws k desired n c name Hs (Hd _ _ ltac:(left))) as H2. cbv zeta in H2.
  destruct (start_one k (m, ws) (n, c)) as [m1 ws1]. cbn [fst snd] in H1, H2.
  destruct (IH Hnd (fun n' c' Hin => Hd _ _ ltac:(by right)) m1 ws1 H1 name) as [IHin IHout]. split.
  - intros c' [[= -> ->]|Hin]%elem_of_cons; [|by apply IHin]. rewrite IHout by done. rewrite H2. by rewrite bool_decide_true.
  - cbn. intros Hout. rewrite IHout by set_solver. rewrite H2. rewrite bool_decide_false; [done|set_solver].
Qed.

Lemma waits_for_done m ws k i ids w l l' : ws !! i = Some w -> mPhase w = Done -> machine_ok (mkMachine m ws l k) ->
  waiting_of l = i :: ids -> waiting_of l' = ids -> (forall ids' desired, l' = Waiting ids' desired -> exists ids', l = Waiting ids' desired) ->
  match l' with Leaving _ | Left => m = ∅ /\ k = true | Failed Canceled => k = true | _ => True end ->
  machine_ok (mkMachine m ws l' k).
Proof.
  intros Hw Hp Hs Hl Hl' Hdes Hleave. eapply stop_waiting; [exact Hs|rewrite Hl, Hl'; set_solver| |exact Hdes|exact Hleave].
  rewrite Hl, Hl'. intros j v [->|Hj]%elem_of_cons Hj' Hv; [|done]. unfold live. rewrite Hw in Hv. injection Hv as <-. rewrite Hp. by intros [|].
Qed.

Lemma unregister_lookup m ws l k i w : machine_ok (mkMachine m ws l k) -> ws !! i = Some w ->
  forall name j, unregister m (mName w) i !! name = Some j <-> m !! name = Some j /\ j <> i.
Proof.
  intros Hs Hw name j. unfold unregister. case_bool_decide as Hreg.
  - rewrite lookup_delete_Some. split; [|intros [Hr Hj]; split; [congruence|done]]. intros [Hne Hr]. split; [done|]. intros ->.
    apply Hne. by eapply (registered_inj _ _ _ i Hs).
  - split; [|tauto]. intros Hr. split; [done|]. intros ->. destruct (ok_registered _ Hs name i Hr) as (v & Hv & Hn & _). cbn in Hv. congruence.
Qed.

Lemma context_keeps_ok s : machine_ok s -> machine_ok (cancel_context s).
Proof.
  intros Hs. destruct s as [m ws l k]. unfold cancel_context. cbn.
  assert (forall i w, (cancel <$> ws) !! i = Some w -> exists w0, ws !! i = Some w0 /\ w = cancel w0) as Hv.
  { intros i w Hw. rewrite list_lookup_fmap in Hw. destruct (ws !! i) as [w0|]; [|done]. injection Hw as <-. eauto. }
  assert (forall i w, ws !! i = Some w -> (cancel <$> ws) !! i = Some (cancel w)) as Hf by (intros i w Hw; by rewrite list_lookup_fmap, Hw).
  split; cbn [register goroutines loop ctxDone].
  - intros name i Hr. destruct (ok_registered _ Hs name i Hr) as (w & Hw & Hn & Hlive & _ & Hmk). exists (cancel w).
    split; [by apply Hf|]. by split_and!.
  - intros i w (w0 & Hw0 & ->)%Hv Hlive. exact (ok_live _ Hs i w0 Hw0 Hlive).
  - intros i w Hin (w0 & Hw0 & ->)%Hv. exact (ok_waiting _ Hs i w0 Hin Hw0).
  - intros i j w w' Hi Hj (v & Hv1 & ->)%Hv (v' & Hv2 & ->)%Hv He. exact (ok_once _ Hs i j v v' Hi Hj Hv1 Hv2 He).
  - intros i Hin. destruct (ok_waited _ Hs i Hin) as (w & Hw & _). exists (cancel w). split; [by apply Hf|done].
  - intros ids desired name i Hl Hr. destruct (ok_desired _ Hs ids desired name i Hl Hr) as (w & Hw & Hd). exists (cancel w).
    split; [by apply Hf|done].
  - pose proof (ok_leaving _ Hs) as Hl. cbn in Hl. destruct l as [| | | |[]]; tauto.
Qed.

(** ** What holds of every such loop *)

(** At most one goroutine runs under a name, and the one that runs is registered, or the
    loop waits for it to return. *)
Lemma one_per_name s i j w w' : machine_ok s -> goroutines s !! i = Some w -> goroutines s !! j = Some w' ->
  live w -> live w' -> mName w = mName w' -> i = j.
Proof.
  intros Hs Hw Hw' Hp Hp' He. destruct (ok_live s Hs i w Hw Hp) as [H1|H1], (ok_live s Hs j w' Hw' Hp') as [H2|H2].
  - congruence.
  - pose proof (ok_waiting s Hs j w' H2 Hw'). congruence.
  - pose proof (ok_waiting s Hs i w H1 Hw). congruence.
  - by apply (ok_once s Hs i j w w').
Qed.

(** A goroutine that runs while nothing asks it to end is registered. *)
Lemma not_cancelled_registered s i w : machine_ok s -> goroutines s !! i = Some w -> live w -> mCancelled w = false ->
  register s !! mName w = Some i.
Proof.
  intros Hs Hw Hl Hc. destruct (ok_live s Hs i w Hw Hl) as [|Hr]; [done|].
  destruct (ok_waited s Hs i Hr) as (w' & Hw' & Hc'). congruence.
Qed.

(** Once the loop has stopped because its context is done, nothing runs; once it has
    returned at all, only goroutines run that are cancelled if the context is done. *)
Lemma left_none_live s i w : machine_ok s -> loop s = Left -> goroutines s !! i = Some w -> ~ live w.
Proof.
  intros Hs Hl Hw Hlive. pose proof (ok_leaving s Hs) as Hempty. rewrite Hl in Hempty. destruct Hempty as [Hempty _].
  destruct (ok_live s Hs i w Hw Hlive) as [H1|H1]; [by rewrite Hempty, lookup_empty in H1|].
  rewrite Hl in H1. by apply not_elem_of_nil in H1.
Qed.

Lemma cancelled_with_context s i w : machine_ok s -> ctxDone s = true -> goroutines s !! i = Some w -> live w -> mCancelled w = true.
Proof.
  intros Hs Hk Hw Hlive. destruct (mCancelled w) eqn:Hc; [done|].
  pose proof (not_cancelled_registered s i w Hs Hw Hlive Hc) as Hr. destruct (ok_registered s Hs _ _ Hr) as (w' & Hw' & _ & _ & Hc' & _). congruence.
Qed.

(** What runs once the loop has returned belongs to a loop that failed, and is asked to
    stop exactly when the context is done. *)
Lemma returned_orphans s i w : machine_ok s -> is_Some (returned s) -> goroutines s !! i = Some w -> live w ->
  (exists err, loop s = Failed err) /\ mCancelled w = ctxDone s.
Proof.
  intros Hs Hret Hw Hlive. assert (exists err, loop s = Failed err) as [err Hl].
  { unfold returned in Hret. destruct (loop s) as [| | | |err] eqn:Hl; try (by destruct Hret); [|by exists err].
    exfalso. by eapply (left_none_live s i w). }
  split; [by exists err|]. destruct (ok_live s Hs i w Hw Hlive) as [Hr|Hr].
  - destruct (ok_registered s Hs _ _ Hr) as (w' & Hw' & _ & _ & Hc & _). congruence.
  - rewrite Hl in Hr. by apply not_elem_of_nil in Hr.
Qed.

(** ** The loop returns when its goroutines do *)

Definition phase_work (p : phase) : nat := match p with Running => 3 | Ended => 2 | Removed => 1 | Done => 0 end.
Definition goroutine_work (ws : list (managed C)) : nat := sum_list_with (fun w => phase_work (mPhase w)) ws.

(** What is left to do once the context is done. *)
Definition loop_work (l : pc C) : nat :=
  match l with Waiting ids _ => 3 + List.length ids | Idle => 2 | Leaving ids => 1 + List.length ids | Left | Failed _ => 0 end.
Definition work (s : machine C) : nat := goroutine_work (goroutines s) + loop_work (loop s).

Lemma goroutine_work_insert (ws : list (managed C)) i w p : ws !! i = Some w -> phase_work p < phase_work (mPhase w) ->
  goroutine_work (<[i := set_phase p w]> ws) < goroutine_work ws.
Proof.
  unfold goroutine_work. revert i. induction ws as [|v ws IH]; intros [|i]; cbn; try done.
  - intros [= ->] Hp. lia.
  - intros Hw Hp. exact (proj1 (Nat.add_lt_mono_l _ _ _) (IH i Hw Hp)).
Qed.

(** ** The steps *)

Section Invariant.
Variable round : gmap string C -> Prop.

Notation step := (step round).
Notation moves := (moves round).
Notation reachable := (reachable round).

Lemma step_keeps_ok s s' : step s s' -> machine_ok s -> machine_ok s'.
Proof.
  destruct 1 as [m ws k desired ids Hd Hids|m ws k i ids desired w Hw Hp|m ws k desired entries m' ws' Hn Hf|m ws k err Herr|m ws ids Hids
    |m ws k i ids w Hw Hp|m ws k|m ws l k i w Hw Hp|m ws l k i w Hw Hp|m ws l k i w Hw Hp]; intros Hs.
  - eapply cancel_part; [exact Hs|exact Hids|..|done].
    + intros name i. rewrite !map_lookup_filter_Some. destruct (stays desired ws (name, i)); intuition congruence.
    + intros name i j [H1 H2]%map_lookup_filter_Some [H3 H4]%map_lookup_filter_Some. congruence.
    + done.
    + intros ids' desired' name i [= <- <-] [H1 H2]%map_lookup_filter_Some. unfold stays in H2. cbn in H2.
      destruct (desired !! name) as [c|]; [|done]. destruct (ws !! i) as [w|]; [|done]. apply same_eq in H2 as ->. eauto.
  - eapply waits_for_done; [exact Hw|exact Hp|exact Hs|done..|by intros ids' d' [= <- <-]; eauto|done].
  - pose proof (start_all_ok k desired entries) as H1. specialize (H1 ltac:(intros n c Hin; rewrite Hn in Hin; by apply elem_of_map_to_list) m ws Hs).
    rewrite Hf in H1. eapply stop_waiting; [exact H1|done|cbn; set_solver|done|done].
  - eapply stop_waiting; [exact Hs|done|cbn; set_solver|done|]. destruct err; [by apply Herr|done].
  - eapply cancel_part; [exact Hs|exact Hids|..|done|done|by split]; [|intros name i j _ H1; by rewrite lookup_empty in H1].
    intros name i. rewrite lookup_empty. intuition congruence.
  - eapply waits_for_done; [exact Hw|exact Hp|exact Hs|done..|]. exact (ok_leaving _ Hs).
  - eapply stop_waiting; [exact Hs|done|cbn; set_solver|done|]. exact (ok_leaving _ Hs).
  - eapply move_on; [exact Hs|exact Hw| |by left]. intros name j. split; [|tauto]. intros Hr. split; [done|]. left. by right.
  - eapply move_on; [exact Hs|exact Hw| |by intros [|]]. intros name j. rewrite (unregister_lookup _ _ _ _ _ _ Hs Hw).
    assert (~ live (set_phase Removed w)) as Hnl by (intros [|]; done). tauto.
  - assert (forall name, m !! name <> Some i) as Hno.
    { intros name Hr. destruct (ok_registered _ Hs name i Hr) as (v & Hv & _ & Hlive & _). cbn in Hv. destruct Hlive; congruence. }
    eapply move_on; [exact Hs|exact Hw| |by intros [|]]. intros name j. split; [|tauto]. intros Hr. split; [done|].
    right. intros ->. by apply (Hno name).
Qed.

Lemma moves_keeps_ok s s' : moves s s' -> machine_ok s -> machine_ok s'.
Proof. destruct 1; [by apply step_keeps_ok|apply context_keeps_ok]. Qed.

Lemma machine_reachable_ok s : reachable s -> machine_ok s.
Proof. revert s. apply (rtc_ind_r machine_ok); [apply machine_start_ok|]. intros s s' _. apply moves_keeps_ok. Qed.

(** When a round ends, what is registered is exactly what it called for and could be made,
    with its configuration, whatever ended meanwhile. *)
Lemma round_end s s' desired : machine_ok s -> step s s' -> loop s = Waiting [] desired -> loop s' = Idle ->
  forall name, config_at (register s') (goroutines s') name =
    c ← desired !! name; if makes name c then Some c else None.
Proof.
  intros Hs Hstep Hl Hl' name. inversion Hstep; subst; cbn in Hl, Hl'; try congruence. injection Hl as ->. cbn [register goroutines].
  match goal with Hp : entries ≡ₚ _, Hf : fold_left _ _ _ = _ |- _ => rename Hp into Hent; rename Hf into Hfold end.
  assert (NoDup entries.*1) as Hnd by (rewrite Hent; apply NoDup_fst_map_to_list).
  assert (forall n c, (n, c) ∈ entries <-> desired !! n = Some c) as Hin by (intros n c; rewrite Hent; apply elem_of_map_to_list).
  destruct (start_all_config k desired entries Hnd (fun n c Hi => proj1 (Hin n c) Hi) m ws Hs name) as [H1 H2].
  rewrite Hfold in H1, H2. cbn [fst snd] in H1, H2. destruct (desired !! name) as [c|] eqn:Hc; cbn.
  - by apply H1, Hin.
  - rewrite H2.
    + unfold config_at. destruct (m !! name) as [i|] eqn:Hi; [|done]. destruct (ok_desired _ Hs [] desired name i eq_refl Hi) as (w & _ & Hd). congruence.
    + intros ([n c] & -> & Hi)%list_elem_of_fmap. apply Hin in Hi. cbn in Hc. congruence.
Qed.

Lemma goroutine_step_shrinks s s' : step s s' -> loop s' = loop s -> goroutine_work (goroutines s') < goroutine_work (goroutines s).
Proof.
  destruct 1; cbn [loop goroutines]; intros Hl;
    try (eapply goroutine_work_insert; [eassumption|match goal with E : mPhase _ = _ |- _ => rewrite E end; cbn; lia]);
    exfalso; try discriminate Hl; injection Hl as Hl; by apply (f_equal List.length) in Hl; cbn in Hl; lia.
Qed.

(** Once the loop leaves, every step brings it nearer to its end. *)
Lemma leaving_shrinks s s' : step s s' -> match loop s with Leaving _ | Left => True | _ => False end ->
  work s' < work s /\ match loop s' with Leaving _ | Left => True | _ => False end.
Proof.
  intros Hstep Hl. pose proof (goroutine_step_shrinks s s' Hstep) as Hg. unfold work.
  destruct Hstep; cbn [loop goroutines] in *; try done; try (specialize (Hg eq_refl); split; [lia|done]); cbn; split; try done; lia.
Qed.

(** A loop that waits is never stuck: a goroutine it waits for can move, or is done. *)
Lemma waiting_progress s : machine_ok s ->
  match loop s with Waiting _ _ | Leaving _ => True | _ => False end -> exists s', step s s'.
Proof.
  destruct s as [m ws l k]. intros Hs Hl.
  assert (forall i, i ∈ waiting_of l -> exists w, ws !! i = Some w /\ (mPhase w = Done \/ exists s', step (mkMachine m ws l k) s')) as Hw.
  { intros i Hin. destruct (ok_waited _ Hs i Hin) as (w & Hw & _). cbn in Hw. exists w. split; [done|].
    destruct (mPhase w) eqn:Hp; [right|right|right|by left]; eexists; [by eapply step_end|by eapply step_remove|by eapply step_done]. }
  cbn in Hl. destruct l as [|[|i ids] desired|[|i ids]| |]; try done.
  - destruct (fold_left (start_one k) (map_to_list desired) (m, ws)) as [m' ws'] eqn:Hf. eexists. by eapply step_start.
  - destruct (Hw i ltac:(by left)) as (w & Hi & [Hp|Hp]); [|done]. eexists. by eapply step_wait.
  - eexists. apply step_left.
  - destruct (Hw i ltac:(by left)) as (w & Hi & [Hp|Hp]); [|done]. eexists. by eapply step_leave.
Qed.

(** A loop that failed goes no further: nobody is left to cancel the goroutines that it
    started, except for its context, or to wait for them. *)
Lemma failed_orphans s s' err : rtc step s s' -> loop s = Failed err -> loop s' = Failed err /\
  forall i w, goroutines s !! i = Some w -> exists w', goroutines s' !! i = Some w' /\ mCancelled w' = mCancelled w.
Proof.
  induction 1 as [x|x y z Hxy _ IH]; intros Hl; [eauto|].
  assert (loop y = Failed err /\ forall i w, goroutines x !! i = Some w -> exists w', goroutines y !! i = Some w' /\ mCancelled w' = mCancelled w)
    as [Hy Hk].
  { destruct Hxy; cbn [loop goroutines] in Hl |- *; try discriminate Hl; (split; [exact Hl|]); intros j v Hj;
      match goal with Hw : ?ws !! ?i = Some ?w |- context [<[?i := set_phase ?p ?w]> ?ws] =>
        destruct (moved_forth ws i w p j v Hw Hj) as (v' & Hv' & _ & _ & Hc & _); by exists v' end. }
  destruct (IH Hy) as [Hz Hk']. split; [done|]. intros i w Hi. destruct (Hk i w Hi) as (w1 & H1 & E1).
  destruct (Hk' i w1 H1) as (w2 & H2 & E2). exists w2. split; [done|congruence].
Qed.
End Invariant.
End Machine.
