(* ===== verification/Supervisor.v ===== *)
(** * Supervisor

    The supervisor of the optional workers (apps/worker/internal/supervisor/supervisor.go):
    which workers the settings call for ([reconcile]), and its loop ([supervisorLoop],
    [reconcileWorkers], [startLocked], [removeSupervised], [stopSupervised]) as the instance
    of the machine of Managed.v whose rounds take the settings of any cache.  [Run], which
    starts the loop with the other components of a worker, is in WorkerRun.v. *)
From S2P Require Import Prelude JobRuns Settings Managed.
Local Open Scope nat_scope.

Definition workerScanScheduler : string := "scan_scheduler".
Definition workerDuplicateDetection : string := "duplicate_detection".

(** [newSupervisedWorker] knows two workers; a worker that is registered is not replaced. *)
Definition newSupervisedWorker (name : string) : bool :=
  String.eqb name workerScanScheduler || String.eqb name workerDuplicateDetection.

#[export] Program Instance supervised_worker : Managed unit := {
  same _ _ := true;
  makes name _ := newSupervisedWorker name
}.
Next Obligation. by intros [] []. Qed.

(** [reconcile]: the workers the settings call for. *)
Definition desired_workers (c : cache) : gmap string bool :=
  <[workerScanScheduler := Bool c SettingScanBucketEnabled]>
    {[workerDuplicateDetection := Bool c SettingDuplicateDetectionEnabled]}.

Definition is_desired (desired : gmap string bool) (name : string) : bool := default false (desired !! name).

(** The workers among the desired that are enabled: [reconcileWorkers] passes over the
    others. *)
Definition enabled_workers (desired : gmap string bool) : gmap string unit :=
  (fun _ => tt) <$> filter (fun e => e.2 = true) desired.

(** A round reads the settings from the cache as it is. *)
Definition supervisor_round (wanted : gmap string unit) : Prop := exists c, wanted = enabled_workers (desired_workers c).

Definition supervisor_step : machine unit -> machine unit -> Prop := step supervisor_round.
Definition supervisor_reachable : machine unit -> Prop := reachable supervisor_round.

Lemma enabled_workers_lookup desired name : enabled_workers desired !! name = if is_desired desired name then Some tt else None.
Proof.
  unfold enabled_workers, is_desired. rewrite lookup_fmap. destruct (desired !! name) as [[]|] eqn:Hd; cbn.
  - by rewrite (proj2 (map_lookup_filter_Some _ desired name true)).
  - rewrite (proj2 (map_lookup_filter_None _ desired name)); [done|]. right. intros b Hb. cbn. congruence.
  - rewrite (proj2 (map_lookup_filter_None _ desired name)); [done|]. by left.
Qed.

(** A round keeps a registered worker exactly when the settings call for it. *)
Lemma stays_desired desired ws name i : is_Some (ws !! i) -> stays (enabled_workers desired) ws (name, i) = is_desired desired name.
Proof. intros [w Hw]. unfold stays. cbn. rewrite enabled_workers_lookup, Hw. by destruct (is_desired desired name). Qed.

Lemma desired_made c name : is_desired (desired_workers c) name = true -> newSupervisedWorker name = true.
Proof.
  unfold is_desired, desired_workers, newSupervisedWorker. destruct (String.eqb_spec name workerScanScheduler) as [|H1]; [done|].
  destruct (String.eqb_spec name workerDuplicateDetection) as [|H2]; [done|].
  rewrite lookup_insert_ne by congruence. by rewrite lookup_singleton_ne by congruence.
Qed.

(** C31: whatever the settings and the workers do, two schedulers of the same kind never run
    at the same time, a cancelled one included; the worker that runs is registered, or the
    supervisor is waiting for it to return; once the supervisor has stopped because its
    context was cancelled, none runs; when it has ended because the settings could not be
    read, its workers may run on, each registered and asked to stop exactly if the context
    is cancelled; and when a round ends, the registered workers are exactly those that the
    settings of the round call for. *)
Theorem one_worker_per_name s :
  supervisor_reachable s ->
  (forall i j w w', goroutines s !! i = Some w -> goroutines s !! j = Some w' -> mPhase w = Running -> mPhase w' = Running ->
     mName w = mName w' -> i = j) /\
  (forall i w, goroutines s !! i = Some w -> mPhase w = Running ->
     register s !! mName w = Some i \/ (i ∈ waiting_of (loop s) /\ mCancelled w = true)) /\
  (loop s = Left -> forall i w, goroutines s !! i = Some w -> mPhase w <> Running) /\
  (forall err i w, loop s = Failed err -> goroutines s !! i = Some w -> mPhase w = Running ->
     register s !! mName w = Some i /\ mCancelled w = ctxDone s) /\
  (forall s' c, supervisor_step s s' -> loop s = Waiting [] (enabled_workers (desired_workers c)) -> loop s' = Idle ->
     forall name, is_Some (register s' !! name) <-> is_desired (desired_workers c) name = true).
Proof.
  intros Hr. pose proof (machine_reachable_ok _ s Hr) as Hs. split_and!.
  - intros i j w w' Hw Hw' Hp Hp'. by apply (one_per_name s); [..|left|left].
  - intros i w Hw Hp. destruct (ok_live s Hs i w Hw (or_introl Hp)) as [|Hin]; [by left|right]. split; [done|].
    destruct (ok_waited s Hs i Hin) as (w' & Hw' & Hc). congruence.
  - intros Hl i w Hw Hp. apply (left_none_live s i w Hs Hl Hw). by left.
  - intros err i w Hl Hw Hp. assert (live w) as Hlive by (by left). split.
    + destruct (ok_live s Hs i w Hw Hlive) as [|Hin]; [done|]. rewrite Hl in Hin. by apply not_elem_of_nil in Hin.
    + apply (returned_orphans s i w Hs); [unfold returned; by rewrite Hl|done|done].
  - intros s' c Hstep Hl Hl' name. pose proof (round_end _ s s' _ Hs Hstep Hl Hl' name) as Hend.
    rewrite enabled_workers_lookup in Hend. pose proof (step_keeps_ok _ s s' Hstep Hs) as Hs'. unfold config_at in Hend.
    destruct (is_desired (desired_workers c) name) eqn:Hd; cbn in Hend.
    + rewrite (desired_made c name Hd) in Hend. destruct (register s' !! name); [|done]. split; [done|eauto].
    + split; [|done]. intros [i Hi]. rewrite Hi in Hend. destruct (ok_registered s' Hs' name i Hi) as (w & Hw & _). cbn in Hend. by rewrite Hw in Hend.
Qed.

(** When the loop ends because the settings cannot be read, the workers that it started go
    on running: nobody is left to cancel them or to wait for them. *)
Lemma failed_refresh_orphans m ws k message : supervisor_reachable (mkMachine m ws Idle k) ->
  supervisor_reachable (mkMachine m ws (Failed (Broken message)) k) /\
  forall s, rtc supervisor_step (mkMachine m ws (Failed (Broken message)) k) s -> loop s = Failed (Broken message) /\
    forall i w, ws !! i = Some w -> exists w', goroutines s !! i = Some w' /\ mCancelled w' = mCancelled w.
Proof.
  intros Hr. split; [eapply rtc_r; [exact Hr|]; left; by constructor|]. intros s Hs. by apply (failed_orphans _ _ s (Broken message) Hs).
Qed.

(** ** Witnesses: the first round, with the default settings *)

Definition first_wanted : gmap string unit := enabled_workers (desired_workers NewCache).
Definition first_waiting : machine unit := mkMachine ∅ [] (Waiting [] first_wanted) false.
Definition first_started : machine unit :=
  mkMachine {[workerScanScheduler := 0]} [mkManaged workerScanScheduler tt false Running] Idle false.

Lemma first_steps : supervisor_step start first_waiting /\ supervisor_step first_waiting first_started.
Proof.
  split.
  - pose proof (step_cancel supervisor_round ∅ [] false first_wanted []) as Hstep. rewrite !map_filter_empty in Hstep.
    apply Hstep; [by exists NewCache|exact (Permutation_refl [])].
  - apply (step_start supervisor_round ∅ [] false first_wanted [(workerScanScheduler, tt)]); [|vm_compute; reflexivity].
    match goal with |- _ ≡ₚ ?l => assert ([(workerScanScheduler, tt)] = l) as <-; [vm_compute|]; reflexivity end.
Qed.

Lemma first_reachable : supervisor_reachable first_waiting /\ supervisor_reachable first_started.
Proof.
  destruct first_steps as [H1 H2]. split; [by apply rtc_once; left|]. eapply rtc_l; [by left|]. by apply rtc_once; left.
Qed.

Lemma one_worker_per_name_witness :
  supervisor_reachable first_waiting /\ supervisor_step first_waiting first_started /\
  (is_Some (register first_started !! workerScanScheduler) <-> is_desired (desired_workers NewCache) workerScanScheduler = true).
Proof.
  split; [exact (proj1 first_reachable)|]. split; [exact (proj2 first_steps)|].
  exact (proj2 (proj2 (proj2 (proj2 (one_worker_per_name first_waiting (proj1 first_reachable))))) first_started NewCache (proj2 first_steps) eq_refl eq_refl
    workerScanScheduler).
Defined.
