(* ===== verification/S3Listing.v ===== *)
(** * S3Listing

    The listing of a bucket: the types of packages/upstreams/s3compat that a
    listing uses ([ListObjectsInput], [ObjectPage], [ListedObject]), its S3
    client over the SDK (client.go, sdk.go), and the loop over the pages of
    apps/worker/internal/jobs/list_objects.go.

    [ListAllObjects] is the same code for the sync and the scan of a bucket: its
    state [S] is the one of the caller, whose client, budget and callbacks are
    computations on it.  The fuel bounds the number of pages. *)
From S2P Require Import Prelude GoStrings GoTime JobRuns ErrState.
Local Open Scope Z_scope.

(** ** The object store *)

Record ListedObject := mkListed {
  lKey : string;
  lETag : string;
  lSize : Z;
  lLastModified : Time;
  lStorageClass : string
}.

Record ObjectPage := mkPage {
  Objects : list ListedObject;
  IsTruncated : bool;
  NextMarker : string;
  NextContinuationToken : string
}.

Record ListObjectsInput := mkListInput {
  iBucket : string;
  iPrefix : string;
  iContinuationToken : string;
  iMarker : string
}.

#[export] Instance ListedObject_eq_dec : EqDecision ListedObject. Proof. solve_decision. Defined.

(** *** The SDK client (client.go, sdk.go): a nil pointer is [None] *)

Record SDKObject := mkSDKObject {
  sdkKey : option string;
  sdkETag : option string;
  sdkSize : option Z;
  sdkLastModified : option Time;
  sdkStorageClass : string
}.
Record ListOutput := mkListOutput {
  Contents : list SDKObject;
  outIsTruncated : option bool;
  outNext : option string   (* NextContinuationToken, or NextMarker of the legacy call *)
}.

Definition optionalString (value : string) : option string :=
  if String.eqb value "" then None else Some value.

Definition sdkTime (value : option Time) : Time :=
  match value with None => zeroTime | Some t => UTC t end.

Definition listedObjectsFromSDKObjects (objects : list SDKObject) : list ListedObject :=
  map (fun object => mkListed (default "" (sdkKey object)) (default "" (sdkETag object))
    (default 0 (sdkSize object)) (sdkTime (sdkLastModified object)) (sdkStorageClass object)) objects.

Definition ObjectPageFromListObjectsV2Output (output : option ListOutput) : ObjectPage :=
  match output with
  | None => mkPage [] false "" ""
  | Some output =>
      mkPage (listedObjectsFromSDKObjects (Contents output)) (default false (outIsTruncated output))
        "" (default "" (outNext output))
  end.

Definition ObjectPageFromListObjectsOutput (output : option ListOutput) : ObjectPage :=
  match output with
  | None => mkPage [] false "" ""
  | Some output =>
      mkPage (listedObjectsFromSDKObjects (Contents output)) (default false (outIsTruncated output))
        (default "" (outNext output)) ""
  end.

(** The two list calls of the SDK: the bucket, the prefix and where to start. *)
Record S3API (S : Type) := mkS3API {
  ListObjectsV2 : string -> option string -> option string -> M S (option ListOutput);
  LegacyListObjects : string -> option string -> option string -> M S (option ListOutput)
}.
Arguments ListObjectsV2 {S}.
Arguments LegacyListObjects {S}.

(** [SDKClient.ListObjects]. *)
Definition SDKListObjects {S} (api : S3API S) (useLegacyList : bool) (input : ListObjectsInput) : M S ObjectPage :=
  if useLegacyList then
    output ← LegacyListObjects api (iBucket input) (optionalString (iPrefix input)) (optionalString (iMarker input));
    mret (ObjectPageFromListObjectsOutput output)
  else
    output ← ListObjectsV2 api (iBucket input) (optionalString (iPrefix input)) (optionalString (iContinuationToken input));
    mret (ObjectPageFromListObjectsV2Output output).

(** ** ListAllObjects *)

(** The interface [ObjectListBudget], less [ObjectsListed], which no code calls. *)
Record ObjectListBudget (S : Type) := mkBudget { Allow : Z -> M S bool; Record_ : Z -> M S unit }.
Arguments Allow {S}.
Arguments Record_ {S}.

Record ListCheckpoint := mkCheckpoint { ContinuationToken : string; Marker : string; cpObjectsListed : Z }.

Record ListObjectsPageProgress := mkPageProgress {
  PageObjects : list ListedObject;
  ObjectsListed : Z;
  Checkpoint : ListCheckpoint;
  ListingComplete : bool
}.

Record ListAllObjectsOptions (S : Type) := mkListOptions {
  Client : option (ListObjectsInput -> M S ObjectPage);
  BucketName : string;
  Prefix : string;
  BucketLabel : string;
  Budget : option (ObjectListBudget S);
  Start : ListCheckpoint;
  Filter : option (ListedObject -> bool);
  OnObject : option (ListedObject -> M S unit);
  OnPage : option (ListObjectsPageProgress -> M S unit)
}.
Arguments Client {S}.
Arguments BucketName {S}.
Arguments Prefix {S}.
Arguments BucketLabel {S}.
Arguments Budget {S}.
Arguments Start {S}.
Arguments Filter {S}.
Arguments OnObject {S}.
Arguments OnPage {S}.
Arguments mkListOptions {S}.

Section ListAllObjects.
Context {S : Type} (options : ListAllObjectsOptions S).

Definition filtered_out (o : ListedObject) : bool :=
  match Filter options with Some filter => negb (filter o) | None => false end.
Definition allows (count : Z) : M S bool :=
  match Budget options with Some budget => Allow budget count | None => mret true end.
Definition records (count : Z) : M S unit :=
  match Budget options with Some budget => Record_ budget count | None => mret tt end.

(** The loop over the objects of a page: the objects kept and the number listed,
    or [None] with that number when the budget stopped it. *)
Fixpoint scan_page (onObject : ListedObject -> M S unit) (kept : list ListedObject) (objectsListed : Z)
    (objects : list ListedObject) : M S (option (list ListedObject) * Z) :=
  match objects with
  | [] => mret (Some kept, objectsListed)
  | listedObject :: objects =>
      if filtered_out listedObject then scan_page onObject kept objectsListed objects
      else
        allowed ← allows 1;
        if negb allowed then mret (None, objectsListed)
        else
          _ ← onObject listedObject;
          _ ← records 1;
          scan_page onObject (kept ++ [listedObject]) (objectsListed + 1) objects
  end.

Definition list_input (continuationToken marker : string) : ListObjectsInput :=
  mkListInput (BucketName options) (Prefix options) continuationToken marker.

Definition no_token_message (bucketLabel : string) : string :=
  "list all objects " +:+ quoted bucketLabel +:+ ": truncated page did not include a continuation token or marker".

(** The loop over the pages. *)
Fixpoint list_pages (fuel : nat) (client : ListObjectsInput -> M S ObjectPage) (onObject : ListedObject -> M S unit)
    (bucketLabel continuationToken marker : string) (objectsListed : Z) : M S (bool * Z) :=
  match fuel with
  | O => fail OutOfFuel
  | Datatypes.S fuel =>
      page ← client (list_input continuationToken marker);
      scanned ← scan_page onObject [] objectsListed (Objects page);
      match scanned with
      | (None, objectsListed) => mret (false, objectsListed)
      | (Some pageObjects, objectsListed) =>
          let listingComplete := negb (IsTruncated page) in
          let nextContinuationToken := NextContinuationToken page in
          let nextMarker := NextMarker page in
          if negb listingComplete && String.eqb nextContinuationToken "" && String.eqb nextMarker ""
          then fail_with (no_token_message bucketLabel)
          else
            _ ← match OnPage options with
                | Some onPage => onPage (mkPageProgress pageObjects objectsListed
                    (mkCheckpoint nextContinuationToken nextMarker objectsListed) listingComplete)
                | None => mret tt
                end;
            if listingComplete then mret (true, objectsListed)
            else
              allowed ← allows 0;
              if negb allowed then mret (false, objectsListed)
              else list_pages fuel client onObject bucketLabel nextContinuationToken nextMarker objectsListed
      end
  end.

Definition ListAllObjects (fuel : nat) : M S (bool * Z) :=
  match Client options, OnObject options with
  | None, _ => fail_with "list all objects: client is required"
  | _, None => fail_with "list all objects: on object callback is required"
  | Some client, Some onObject =>
      let bucketLabel := if String.eqb (BucketLabel options) "" then BucketName options else BucketLabel options in
      list_pages fuel client onObject bucketLabel (ContinuationToken (Start options)) (Marker (Start options))
        (cpObjectsListed (Start options))
  end.
End ListAllObjects.

(** ** The rule of the listing

    An invariant [I] of the pages already listed and of the cursor, and one, [J],
    of the objects of a page already visited. *)
Section Rule.
Context {S : Type} (options : ListAllObjectsOptions S).
Variables (client : ListObjectsInput -> M S ObjectPage) (onObject : ListedObject -> M S unit) (label : string).
Variable I : list ObjectPage -> string -> string -> Z -> S -> Prop.
Variable J : list ObjectPage -> ObjectPage -> list ListedObject -> list ListedObject -> Z -> S -> Prop.
Variable Q : bool -> Z -> S -> Prop.
Variable F : run_error -> S -> Prop.

Definition visit (x : ListedObject) : M S bool :=
  allowed ← allows options 1;
  if negb allowed then mret false else _ ← onObject x; _ ← records options 1; mret true.

Definition stuck (page : ObjectPage) : bool :=
  IsTruncated page && String.eqb (NextContinuationToken page) "" && String.eqb (NextMarker page) "".

Definition on_page (page : ObjectPage) (kept : list ListedObject) (n : Z) : M S unit :=
  match OnPage options with
  | Some onPage => onPage (mkPageProgress kept n
      (mkCheckpoint (NextContinuationToken page) (NextMarker page) n) (negb (IsTruncated page)))
  | None => mret tt
  end.

Hypothesis Hfuel : forall pages tok mk n s, I pages tok mk n s -> F OutOfFuel s.
Hypothesis Hclient : forall pages tok mk n,
  triple (I pages tok mk n) (client (list_input options tok mk)) (fun page => J pages page [] [] n) F.
Hypothesis Hskip : forall pages page pre x kept n s,
  filtered_out options x = true -> J pages page pre kept n s -> J pages page (pre ++ [x]) kept n s.
Hypothesis Hvisit : forall pages page pre x suf kept n,
  Objects page = pre ++ x :: suf -> filtered_out options x = false ->
  triple (J pages page pre kept n) (visit x)
    (fun b s => if b then J pages page (pre ++ [x]) (kept ++ [x]) (n + 1) s else Q false n s) F.
Hypothesis Hstuck : forall pages page kept n s,
  stuck page = true -> J pages page (Objects page) kept n s -> F (Failure (Errorf (no_token_message label))) s.
Hypothesis Hpage : forall pages page kept n,
  stuck page = false ->
  triple (J pages page (Objects page) kept n) (on_page page kept n)
    (fun _ s => if IsTruncated page then I (pages ++ [page]) (NextContinuationToken page) (NextMarker page) n s
                else Q true n s) F.
Hypothesis Hallow : forall pages tok mk n,
  triple (I pages tok mk n) (allows options 0)
    (fun b s => if b then I pages tok mk n s else Q false n s) F.

Lemma scan_page_visit kept n x objects s :
  filtered_out options x = false ->
  scan_page options onObject kept n (x :: objects) s =
  (visit x ≫= fun b : bool => if b then scan_page options onObject (kept ++ [x]) (n + 1) objects
                             else mret (None, n)) s.
Proof.
  intros Hx. cbn [scan_page]. rewrite Hx. unfold visit, mbind, M_bind.
  destruct (allows options 1 s) as [[[|]|e] s1]; cbn [negb]; try done.
  destruct (onObject x s1) as [[[]|e] s2]; [|done]. by destruct (records options 1 s2) as [[[]|e] s3].
Qed.

Lemma scan_page_triple pages page : forall suf pre kept n,
  Objects page = pre ++ suf ->
  triple (J pages page pre kept n) (scan_page options onObject kept n suf)
    (fun r s => match r with
                | (Some kept', n') => J pages page (Objects page) kept' n' s
                | (None, n') => Q false n' s
                end) F.
Proof.
  induction suf as [|x suf IH]; intros pre kept n E.
  - intros s Hs. cbn. rewrite E, app_nil_r. exact Hs.
  - assert (Objects page = (pre ++ [x]) ++ suf) as E' by (by rewrite <- app_assoc).
    intros s Hs. destruct (filtered_out options x) eqn:Hx.
    + cbn [scan_page]. rewrite Hx. apply (IH (pre ++ [x]) kept n E'). by apply Hskip.
    + rewrite scan_page_visit by done.
      eapply triple_bind; [by eapply Hvisit| |exact Hs]. intros [|]; cbn.
      * by apply IH.
      * intros s' Hs'. exact Hs'.
Qed.

Lemma list_pages_triple : forall fuel pages tok mk n,
  triple (I pages tok mk n) (list_pages options fuel client onObject label tok mk n)
    (fun r => Q r.1 r.2) F.
Proof.
  induction fuel as [|fuel IH]; intros pages tok mk n.
  - intros s Hs. cbn. eauto.
  - cbn [list_pages]. eapply triple_bind; [apply Hclient|]. intros page.
    eapply triple_bind; [by apply (scan_page_triple pages page (Objects page) [])|].
    intros [[kept|] n']; [|by intros s Hs]. cbn zeta. rewrite negb_involutive.
    change (IsTruncated page && (NextContinuationToken page =? "")%string && (NextMarker page =? "")%string)
      with (stuck page).
    destruct (stuck page) eqn:Hs.
    { intros s HJ. cbn. by eapply Hstuck. }
    eapply triple_bind; [by apply Hpage|]. intros []. destruct (IsTruncated page); cbn [negb].
    + eapply triple_bind; [apply Hallow|]. intros [|]; cbn; [apply IH|]. by intros s HQ.
    + by intros s HQ.
Qed.
End Rule.
