(* ===== verification/Catalog.v ===== *)
(** * Catalog

    The tables of the catalog, next to the job tables of [JobRuns]: buckets,
    objects, attribute_catalog, relations and upstream_events
    (packages/storage/migrations).  A table is a finite map from its primary key
    to its row; a column of type timestamptz is a number of microseconds. *)
From S2P Require Import Prelude GoStrings GoTime Ast JobPayload JobRuns ErrState.
Local Open Scope Z_scope.

(** ** Rows *)

(** [secrets.Envelope]. *)
Record Envelope := mkEnvelope { KeyID : string; Algorithm : string; Nonce : string; Ciphertext : string }.

(** [BucketPithosysConfig] (bucket_pithosys_config.go); the column holds its JSON. *)
Record BucketScanConfig := mkScanConfig { Enabled : option bool; Interval : string }.

Record Bucket := mkBucket {
  bID : string;
  bName : string;
  bUpstream : string;
  bEndpointURL : string;
  bRegion : string;
  bBucketName : string;
  bPrefix : string;
  bUpstreamConfig : payload;
  bEncryptedCredentials : Envelope;
  bPithosysConfig : BucketScanConfig;
  bCreatedAt : Z;
  bUpdatedAt : Z
}.

Record ObjectRow := mkObjectRow {
  oid : string;
  obucket_id : string;
  okey : string;
  oattributes : payload;
  oattribute_provenance : gmap string string;
  ocreated_at : Z;
  oupdated_at : Z
}.

Record CatalogRow := mkCatalogRow {
  crpath : string;
  crvalue_type : string;
  crsource : string;
  crfirst_seen_at : Z;
  crupdated_at : Z
}.

Record Relation := mkRelation {
  rID : string;
  rSourceObjectID : string;
  rTargetObjectID : string;
  rRelationType : string;
  rAttributes : payload;
  rCreatedByType : string;
  rCreatedByID : string;
  rCreatedByName : string;
  rCreatedByRunID : string;
  rCreatedAt : Z;
  rUpdatedAt : Z
}.

Inductive UpstreamEventState := EventPending | EventProcessed | EventSkipped | EventFailed.

Record UpstreamEvent := mkEvent {
  eID : string;
  eBucketID : string;
  eEventName : string;
  eObjectKey : string;
  eEnvelope : payload;
  eDedupeKey : string;
  eTransport : string;
  eState : UpstreamEventState;
  eEventTime : option Z;
  eReceivedAt : Z;
  eProcessedAt : option Z;
  eErrorMessage : string;
  eCreatedAt : Z;
  eUpdatedAt : Z
}.

(** [UpstreamCaptureField] (upstream_capture_field.go), the row as it is. *)
Inductive CaptureFieldCategory := CaptureFieldCategoryRequired | CaptureFieldCategoryOptional.
Inductive CaptureFieldOrigin := CaptureFieldOriginPlatform | CaptureFieldOriginUser.
Inductive CaptureSource := CaptureSourceHead | CaptureSourceTagging | CaptureSourceOther (s : string).
Inductive CaptureExtractorType :=
| CaptureExtractorSDKField | CaptureExtractorResponseHeader | CaptureExtractorMetadataKey | CaptureExtractorMetadataAll
| CaptureExtractorTagKey | CaptureExtractorTaggingAll | CaptureExtractorOther (s : string).

#[export] Instance CaptureFieldCategory_eq_dec : EqDecision CaptureFieldCategory. Proof. solve_decision. Defined.
#[export] Instance CaptureFieldOrigin_eq_dec : EqDecision CaptureFieldOrigin. Proof. solve_decision. Defined.
#[export] Instance CaptureSource_eq_dec : EqDecision CaptureSource. Proof. solve_decision. Defined.
#[export] Instance CaptureExtractorType_eq_dec : EqDecision CaptureExtractorType. Proof. solve_decision. Defined.

Record UpstreamCaptureField := mkCapture {
  cfID : string;
  cfAttributePath : string;
  cfEnabled : bool;
  cfCategory : CaptureFieldCategory;
  cfOrigin : CaptureFieldOrigin;
  cfCaptureSource : CaptureSource;
  cfExtractorType : CaptureExtractorType;
  cfExtractorRef : string;
  cfValueType : ValueType;
  cfCreatedAt : Z;
  cfUpdatedAt : Z
}.

#[export] Instance UpstreamEventState_eq_dec : EqDecision UpstreamEventState. Proof. solve_decision. Defined.

(** ** The database *)

Record Catalog := mkCatalog {
  buckets : gmap string Bucket;
  objects : gmap string ObjectRow;
  attribute_catalog : gmap string CatalogRow;
  relations : gmap string Relation;
  upstream_events : gmap string UpstreamEvent;
  capture_fields : gmap string UpstreamCaptureField
}.

Definition set_buckets v c := mkCatalog v (objects c) (attribute_catalog c) (relations c) (upstream_events c) (capture_fields c).
Definition set_objects v c := mkCatalog (buckets c) v (attribute_catalog c) (relations c) (upstream_events c) (capture_fields c).
Definition set_attribute_catalog v c := mkCatalog (buckets c) (objects c) v (relations c) (upstream_events c) (capture_fields c).
Definition set_relations v c := mkCatalog (buckets c) (objects c) (attribute_catalog c) v (upstream_events c) (capture_fields c).
Definition set_upstream_events v c := mkCatalog (buckets c) (objects c) (attribute_catalog c) (relations c) v (capture_fields c).
Definition set_capture_fields v c :=
  mkCatalog (buckets c) (objects c) (attribute_catalog c) (relations c) (upstream_events c) v.

Definition empty_catalog : Catalog := mkCatalog ∅ ∅ ∅ ∅ ∅ ∅.

(** The whole database: the job tables and the catalog. *)
Record Store := mkStore { jobs : db; catalog : Catalog }.

Definition set_jobs v s := mkStore v (catalog s).
Definition set_catalog v s := mkStore (jobs s) v.

(** A statement on one part of the database. *)
Definition on_jobs {A} (m : DB A) : M Store A := fun s =>
  match m (jobs s) with
  | (Ok a, d) => (Ok a, set_jobs d s)
  | (Err e, d) => (Err (Failure e), set_jobs d s)
  end.
Definition on_catalog {A} (m : M Catalog A) : M Store A := fun s =>
  match m (catalog s) with
  | (Ok a, c) => (Ok a, set_catalog c s)
  | (Err e, c) => (Err e, set_catalog c s)
  end.

(** [Store.WithTx]: the effects of [fn] are kept only when it succeeds. *)
Definition WithTx {S A} (fn : M S A) : M S A := fun s =>
  match fn s with
  | (Ok a, s') => (Ok a, s')
  | (Err e, _) => (Err e, s)
  end.

(** A timestamptz, in microseconds, as the driver reads it. *)
Definition time_of_micros (t : Z) : Time := mkTime (t / 1000000) (t mod 1000000 * 1000) 0.

(** ** Tables *)

Definition table_rows {R} (t : gmap string R) : list R := (map_to_list t).*2.

(** [SELECT ... WHERE p ORDER BY lt]. *)
Definition select_rows {R} (p : R -> bool) (lt : R -> R -> bool) (t : gmap string R) : list R :=
  sort_by lt (List.filter p (table_rows t)).

(** [DELETE ... WHERE p]: the table left and the number of rows deleted. *)
Definition delete_rows {R} (p : R -> bool) (t : gmap string R) : gmap string R :=
  filter (fun e => p e.2 = false) t.
Definition count_rows {R} (p : R -> bool) (t : gmap string R) : Z :=
  Z.of_nat (List.length (List.filter p (table_rows t))).

(** [LIMIT $1 OFFSET $2] after the defaults of the list functions. *)
Definition page_rows {R} (limit offset : Z) (l : list R) : list R :=
  firstn (Z.to_nat (clamp_limit limit)) (skipn (Z.to_nat (if offset <? 0 then 0 else offset)) l).

(** The order in which Go ranges over a map: one that the [n]-th [range]
    statement takes for a map with these keys. *)
Class MapOrder := {
  range_keys : nat -> list string -> list string;
  range_keys_perm n l : Permutation (range_keys n l) l
}.

(** The entries of a map as the [n]-th [range] statement visits them. *)
Definition range_map `{MapOrder} {A} (n : nat) (m : gmap string A) : list (string * A) :=
  omap (fun key => (fun a => (key, a)) <$> m !! key) (range_keys n (map_to_list m).*1).

(** The order of text columns in the collation of the database. *)
Class Collation := collate : string -> string -> bool.

Lemma elem_of_table_rows {R} (r : R) t : r ∈ table_rows t <-> exists key, t !! key = Some r.
Proof.
  unfold table_rows. rewrite list_elem_of_fmap. split.
  - intros ([key r'] & -> & H). exists key. by apply elem_of_map_to_list.
  - intros (key & H). exists (key, r). split; [done|]. by apply elem_of_map_to_list.
Qed.

Lemma elem_of_select_rows {R} p lt (r : R) t :
  r ∈ select_rows p lt t <-> p r = true /\ exists key, t !! key = Some r.
Proof.
  unfold select_rows. rewrite (sort_by_perm lt), list_elem_of_In, filter_In, <- list_elem_of_In,
    elem_of_table_rows. tauto.
Qed.

Lemma lookup_delete_rows {R} p (t : gmap string R) key r :
  delete_rows p t !! key = Some r <-> t !! key = Some r /\ p r = false.
Proof. unfold delete_rows. rewrite map_lookup_filter_Some. done. Qed.

(** A statement on the jobs keeps the catalog, and the converse. *)
Lemma on_jobs_eq {A} (m : DB A) s :
  on_jobs m s = (match (m (jobs s)).1 with Ok a => Ok a | Err e => Err (Failure e) end,
                 set_jobs (m (jobs s)).2 s).
Proof. unfold on_jobs. by destruct (m (jobs s)) as [[]]. Qed.
Lemma on_catalog_eq {A} (m : M Catalog A) s :
  on_catalog m s = ((m (catalog s)).1, set_catalog (m (catalog s)).2 s).
Proof. unfold on_catalog. by destruct (m (catalog s)) as [[]]. Qed.

Lemma elem_of_range_map `{MapOrder} {A} n (m : gmap string A) key a :
  (key, a) ∈ range_map n m <-> m !! key = Some a.
Proof.
  unfold range_map. rewrite list_elem_of_omap. split.
  - intros (key' & _ & (a' & Ha & [= -> ->])%fmap_Some). done.
  - intros Hm. exists key. split.
    + rewrite range_keys_perm. apply list_elem_of_fmap. exists (key, a). split; [done|]. by apply elem_of_map_to_list.
    + by rewrite Hm.
Qed.

Lemma omap_keys {A} (m : gmap string A) l :
  Forall (fun key => is_Some (m !! key)) l -> (omap (fun key => (fun a => (key, a)) <$> m !! key) l).*1 = l.
Proof. induction 1 as [|key l [a Ha] _ IH]; cbn; [done|]. rewrite Ha. cbn. by rewrite IH. Qed.

Lemma range_map_keys `{MapOrder} {A} n (m : gmap string A) :
  (range_map n m).*1 = range_keys n (map_to_list m).*1.
Proof.
  apply omap_keys. apply list.Forall_forall. intros key Hk. rewrite range_keys_perm in Hk.
  apply list_elem_of_fmap in Hk as ([key' a] & -> & Ha). apply elem_of_map_to_list in Ha. by exists a.
Qed.

Lemma range_map_NoDup `{MapOrder} {A} n (m : gmap string A) : NoDup (range_map n m).*1.
Proof. rewrite range_map_keys, range_keys_perm. apply NoDup_fst_map_to_list. Qed.

Lemma filter_Permutation {R} (p : R -> bool) l l' : l ≡ₚ l' -> List.filter p l ≡ₚ List.filter p l'.
Proof.
  induction 1 as [|x l l' _ IH|x y l|l1 l2 l3 _ IH1 _ IH2]; cbn; [done| | |by etransitivity].
  - by destruct (p x); rewrite ?IH.
  - destruct (p x), (p y); try done. apply perm_swap.
Qed.

Lemma range_map_perm `{MapOrder} {A} n n' (m : gmap string A) : range_map n m ≡ₚ range_map n' m.
Proof.
  apply NoDup_Permutation; [apply (NoDup_fmap_1 fst), range_map_NoDup..|]. intros [key a]. by rewrite !elem_of_range_map.
Qed.
