(* ===== verification/AttributeCatalog.v ===== *)
(** * AttributeCatalog

    The catalog of the attribute paths and their types, and how it observes the
    attributes written to objects: packages/storage/attribute_catalog.go,
    attribute_catalog_codec.go, attribute_observation.go, and
    [splitAttributePath] of object_core.go. *)
From S2P Require Import Prelude GoStrings GoFloat GoTime Ast SearchDefs JobPayload JobRuns ErrState Catalog.
Local Open Scope Z_scope.

(** ** Types in the table (attribute_catalog_codec.go) *)

Definition catalogValueTypeToDB (typ : ValueType) : result store_error string :=
  match typ with
  | TypeString => Ok "string"
  | TypeInteger => Ok "integer"
  | TypeFloat => Ok "float"
  | TypeBoolean => Ok "boolean"
  | TypeTimestamp => Ok "timestamp"
  | TypeUnknown => Ok "unknown"
  | _ => Err (Errorf "catalog value type %q cannot be stored")
  end.

Definition catalogValueTypeFromDB (value : string) : result store_error ValueType :=
  if String.eqb value "string" then Ok TypeString
  else if String.eqb value "integer" then Ok TypeInteger
  else if String.eqb value "float" then Ok TypeFloat
  else if String.eqb value "boolean" then Ok TypeBoolean
  else if String.eqb value "timestamp" then Ok TypeTimestamp
  else if String.eqb value "json" then Ok TypeUnknown
  else if String.eqb value "unknown" then Ok TypeUnknown
  else Err (Errorf "unknown catalog value type %q").

Definition isCatalogNumericType (typ : ValueType) : bool :=
  bool_decide (typ = TypeInteger) || bool_decide (typ = TypeFloat).

Definition widenCatalogValueType (existing incoming : ValueType) : option ValueType :=
  if bool_decide (existing = incoming) then Some existing
  else if bool_decide (existing = TypeUnknown) then Some incoming
  else if bool_decide (incoming = TypeUnknown) then Some existing
  else if isCatalogNumericType existing && isCatalogNumericType incoming then
    if bool_decide (existing = TypeFloat) || bool_decide (incoming = TypeFloat)
    then Some TypeFloat else Some TypeInteger
  else None.

(** ** The table (attribute_catalog.go) *)

Definition CatalogSourceBuiltin : string := "builtin".
Definition CatalogSourceRegistered : string := "registered".
Definition CatalogSourceObserved : string := "observed".

Record CatalogEntry := mkEntry {
  Path : string;
  EntryType : ValueType;
  Source : string;
  FirstSeenAt : Z;
  EntryUpdatedAt : Z
}.

Definition scanCatalogEntry (r : CatalogRow) : result store_error CatalogEntry :=
  typ ← catalogValueTypeFromDB (crvalue_type r);
  Ok (mkEntry (crpath r) typ (crsource r) (crfirst_seen_at r) (crupdated_at r)).

Definition Resolve (path : string) : M Catalog (option CatalogEntry) := fun c =>
  match attribute_catalog c !! path with
  | None => (Ok None, c)
  | Some r =>
      match scanCatalogEntry r with
      | Ok entry => (Ok (Some entry), c)
      | Err e => (Err (Failure (Wrapf "resolve attribute catalog path: %w" e)), c)
      end
  end.

Definition ListEntries `{Collation} : M Catalog (list CatalogEntry) := fun c =>
  of_result (mapM_result scanCatalogEntry
    (select_rows (fun _ => true) (fun a b => collate (crpath a) (crpath b)) (attribute_catalog c))) c.

(** The checks of the table on a row. *)
Definition catalog_row_ok (r : CatalogRow) : bool :=
  negb (blank (crpath r))
  && bool_decide (crsource r ∈ [CatalogSourceBuiltin; CatalogSourceRegistered; CatalogSourceObserved])
  && bool_decide (crvalue_type r ∈ ["string"; "integer"; "float"; "boolean"; "timestamp"; "json"; "unknown"]).

(** [UPDATE attribute_catalog SET f WHERE path = $1 AND source = 'observed']. *)
Definition update_observed (path : string) (f : CatalogRow -> CatalogRow) : M Catalog unit :=
  puts (fun c => set_attribute_catalog
    (alter (fun r => if String.eqb (crsource r) CatalogSourceObserved then f r else r) path
       (attribute_catalog c)) c).

(** [INSERT ... ON CONFLICT (path) DO NOTHING]. *)
Definition insert_observed (now : Z) (path dbType : string) : M Catalog unit := fun c =>
  let r := mkCatalogRow path dbType CatalogSourceObserved now now in
  if negb (catalog_row_ok r) then (Err (Failure (Errorf "insert observed catalog path: %w")), c)
  else if bool_decide (is_Some (attribute_catalog c !! path)) then (Ok tt, c)
  else (Ok tt, set_attribute_catalog (<[path := r]> (attribute_catalog c)) c).

Definition ErrCatalogTypeConflict : store_error := Errorf "storage: attribute catalog type conflict".

Definition UpsertObserved (now : Z) (path : string) (typ : ValueType) : M Catalog unit :=
  if String.eqb path "" then fail_with "upsert observed catalog path: path is required"
  else
    dbType ← of_result (wrap_err (Wrapf "upsert observed catalog path: %w") (catalogValueTypeToDB typ));
    existing ← Resolve path;
    match existing with
    | Some existing =>
        if String.eqb (Source existing) CatalogSourceBuiltin || String.eqb (Source existing) CatalogSourceRegistered
        then mret tt
        else if String.eqb (Source existing) CatalogSourceObserved then
          match widenCatalogValueType (EntryType existing) typ with
          | None => fail (Failure ErrCatalogTypeConflict)
          | Some widened =>
              if bool_decide (widened = EntryType existing)
              then update_observed path (fun r => mkCatalogRow (crpath r) (crvalue_type r) (crsource r) (crfirst_seen_at r) now)
              else
                widenedDB ← of_result (wrap_err (Wrapf "upsert observed catalog path: %w") (catalogValueTypeToDB widened));
                update_observed path (fun r => mkCatalogRow (crpath r) widenedDB (crsource r) (crfirst_seen_at r) now)
          end
        else fail_with "upsert observed catalog path: unsupported source %q"
    | None => insert_observed now path dbType
    end.

Definition encodeCatalogSeedRow (source : string) (entry : AttributeDefinition) : result store_error (string * string) :=
  if String.eqb (aPath entry) "" then Err (Errorf "encode catalog seed rows: path is required")
  else
    dbType ← wrap_err (Wrapf "encode catalog seed rows for path %q: %w") (catalogValueTypeToDB (aType entry));
    Ok (aPath entry, dbType).

Definition encodeCatalogSeedRows (entries : list AttributeDefinition) (source : string) :
    result store_error (list (string * string)) :=
  mapM_result (encodeCatalogSeedRow source) entries.

Definition seeded (source : string) : bool :=
  bool_decide (source ∈ [CatalogSourceBuiltin; CatalogSourceRegistered]).

(** [INSERT ... ON CONFLICT (path) DO UPDATE ... WHERE ...]: the statement fails on
    a path that occurs twice among the rows it writes. *)
Fixpoint seed_rows (now : Z) (source : string) (done : list string) (rows : list (string * string)) : M Catalog unit :=
  match rows with
  | [] => mret tt
  | (path, dbType) :: rows => fun c =>
      let r := mkCatalogRow path dbType source now now in
      if negb (catalog_row_ok r) then (Err (Failure (Errorf "seed attribute catalog (%s): %w")), c)
      else
        match attribute_catalog c !! path with
        | None => seed_rows now source (path :: done) rows (set_attribute_catalog (<[path := r]> (attribute_catalog c)) c)
        | Some old =>
            if bool_decide (path ∈ done)
            then (Err (Failure (Errorf "ON CONFLICT DO UPDATE command cannot affect row a second time")), c)
            else if seeded (crsource old) && seeded source
            then seed_rows now source (path :: done) rows
                   (set_attribute_catalog (<[path := mkCatalogRow path dbType source (crfirst_seen_at old) now]>
                      (attribute_catalog c)) c)
            else seed_rows now source done rows c
        end
  end.

Definition seedDefinitions (now : Z) (entries : list AttributeDefinition) (source : string) : M Catalog unit :=
  match entries with
  | [] => mret tt
  | _ =>
      rows ← of_result (encodeCatalogSeedRows entries source);
      WithTx (seed_rows now source [] rows)
  end.

Definition SeedBuiltin (now : Z) (entries : list AttributeDefinition) : M Catalog unit :=
  seedDefinitions now entries CatalogSourceBuiltin.
Definition SeedRegistered (now : Z) (entries : list AttributeDefinition) : M Catalog unit :=
  seedDefinitions now entries CatalogSourceRegistered.

(** ** Observation (attribute_observation.go) *)

Definition splitAttributePath (path : string) : list string :=
  List.filter (fun segment => negb (String.eqb segment "")) (Split "." path).

Definition joinAttributePath (prefix segment : string) : string :=
  if String.eqb prefix "" then segment
  else if String.eqb segment "" then prefix
  else prefix +:+ "." +:+ segment.

(** [strings.Join(parts[:index], ".")] for 1 <= index < len(parts). *)
Definition attributePathPrefixes (path : string) : list string :=
  let parts := splitAttributePath path in
  map (fun index => Join (firstn index parts) ".") (seq 1 (List.length parts - 1)).

(** [typed == math.Trunc(typed)]. *)
Definition integral (f : spec_float) : bool :=
  match f with
  | S754_nan => false
  | S754_finite _ m e => (0 <=? e) || (Zpos m mod 2 ^ (- e) =? 0)
  | _ => true
  end.

Definition inferCatalogValueType (v : value) : option ValueType :=
  match v with
  | VNil => None
  | VString s => match ParseRFC3339 s with Some _ => Some TypeTimestamp | None => Some TypeString end
  | VBool _ => Some TypeBoolean
  | VInt _ => Some TypeInteger
  | VFloat f => Some (if integral f then TypeInteger else TypeFloat)
  | VSlice _ | VMap _ => Some TypeUnknown
  | VStrings _ | VStringsMap _ => None
  end.

Section Observation.
Context `{MapOrder}.

(** The assignments to [paths], in order. *)
Fixpoint flattenAttributeValue (v : value) (prefix : string) : list (string * ValueType) :=
  match v with
  | VMap m =>
      List.concat (map (fun e : string * (string -> list (string * ValueType)) =>
          e.2 (joinAttributePath prefix e.1))
        (range_map 0 (flattenAttributeValue <$> m)))
  | _ =>
      if String.eqb prefix "" then []
      else match inferCatalogValueType v with Some typ => [(prefix, typ)] | None => [] end
  end.

Definition flattenObjectAttributes (attributes : payload) : gmap string ValueType :=
  fold_left (fun paths e => <[e.1 := e.2]> paths) (flattenAttributeValue (VMap attributes) "") ∅.

Definition mergeObservedCatalogType (observed : gmap string ValueType) (path : string) (typ : ValueType) :
    result store_error (gmap string ValueType) :=
  match observed !! path with
  | None => Ok (<[path := typ]> observed)
  | Some existing =>
      match widenCatalogValueType existing typ with
      | Some widened => Ok (<[path := widened]> observed)
      | None => Err (Wrapf "observe attribute catalog path %q: %w" ErrCatalogTypeConflict)
      end
  end.

(** One path of an object: the path itself, then its proper prefixes. *)
Definition observe_path (observed : gmap string ValueType) (e : string * ValueType) :
    result store_error (gmap string ValueType) :=
  observed ← mergeObservedCatalogType observed e.1 e.2;
  foldM_result (fun observed prefix => mergeObservedCatalogType observed prefix TypeUnknown) observed
    (attributePathPrefixes e.1).

Definition observe_object (observed : gmap string ValueType) (attributes : payload) :
    result store_error (gmap string ValueType) :=
  foldM_result observe_path observed (range_map 1 (flattenObjectAttributes attributes)).

(** The parameters are the attributes of the objects written. *)
Definition observeAttributeCatalog (now : Z) (params : list payload) : M Catalog unit :=
  match params with
  | [] => mret tt
  | _ =>
      observed ← of_result (foldM_result observe_object ∅ params);
      for_each (fun e : string * ValueType => fun c =>
        match UpsertObserved now e.1 e.2 c with
        | (Err (Failure err), c) => (Err (Failure (Wrapf "observe attribute catalog path %q: %w" err)), c)
        | r => r
        end) (range_map 2 observed)
  end.
End Observation.

(** ** The order of types *)

(** [a] is widened to [b]. *)
Definition narrower (a b : ValueType) : Prop := widenCatalogValueType a b = Some b.

Ltac by_types :=
  unfold narrower, widenCatalogValueType, isCatalogNumericType;
  repeat (let E := fresh in case_bool_decide as E; subst; cbn; try congruence);
  intros; simplify_eq; repeat (let E := fresh in case_bool_decide as E; subst; cbn); naive_solver.

Lemma widen_comm a b : widenCatalogValueType a b = widenCatalogValueType b a.
Proof. by_types. Qed.

Lemma narrower_refl a : narrower a a.
Proof. unfold narrower, widenCatalogValueType. by rewrite bool_decide_true. Qed.

Lemma widen_upper a b t : widenCatalogValueType a b = Some t -> narrower a t /\ narrower b t.
Proof. by_types. Qed.

Lemma narrower_trans a b t : narrower a b -> narrower b t -> narrower a t.
Proof. by_types. Qed.

(** ** What a write to the catalog may change *)

Definition row_type (r : CatalogRow) : result store_error ValueType := catalogValueTypeFromDB (crvalue_type r).

(** A row after a write: the type may only be widened, and only when the path was
    observed, not declared. *)
Definition row_le (r r' : CatalogRow) : Prop :=
  crpath r' = crpath r /\ crsource r' = crsource r /\ crfirst_seen_at r' = crfirst_seen_at r /\
  (r' = r \/ crsource r = CatalogSourceObserved /\
    exists typ typ', row_type r = Ok typ /\ row_type r' = Ok typ' /\ narrower typ typ').

Definition catalog_le (c c' : Catalog) : Prop :=
  set_attribute_catalog (attribute_catalog c) c' = c /\
  forall path r, attribute_catalog c !! path = Some r ->
    exists r', attribute_catalog c' !! path = Some r' /\ row_le r r'.

(** The catalog knows the path with at least that type. *)
Definition covered (c : Catalog) (path : string) (typ : ValueType) : Prop :=
  exists r, attribute_catalog c !! path = Some r /\
    (crsource r = CatalogSourceObserved -> exists typ', row_type r = Ok typ' /\ narrower typ typ').

Lemma row_le_refl r : row_le r r.
Proof. unfold row_le. auto. Qed.
Lemma row_le_trans r r' r'' : row_le r r' -> row_le r' r'' -> row_le r r''.
Proof.
  intros (P1 & S1 & F1 & D1) (P2 & S2 & F2 & D2). unfold row_le. split_and!; try congruence.
  destruct D1 as [->|(O1 & t1 & t1' & T1 & T1' & N1)]; [done|].
  destruct D2 as [->|(O2 & t2 & t2' & T2 & T2' & N2)]; [right; eauto 10|].
  right. split; [done|]. exists t1, t2'. split_and!; try done.
  rewrite T1' in T2. injection T2 as <-. by eapply narrower_trans.
Qed.

#[export] Instance catalog_le_preorder : PreOrder catalog_le.
Proof.
  split.
  - intros c. split; [by destruct c|]. intros path r Hr. exists r. split; [done|apply row_le_refl].
  - intros c c' c'' [E1 H1] [E2 H2]. split.
    + destruct c, c', c''. unfold set_attribute_catalog in *. cbn in *. simplify_eq. done.
    + intros path r Hr. destruct (H1 path r Hr) as (r' & Hr' & L1). destruct (H2 path r' Hr') as (r'' & Hr'' & L2).
      exists r''. split; [done|by eapply row_le_trans].
Qed.

Lemma covered_le c c' path typ : covered c path typ -> catalog_le c c' -> covered c' path typ.
Proof.
  intros (r & Hr & Hc) [_ Hle]. destruct (Hle path r Hr) as (r' & Hr' & _ & HS & _ & Hd).
  exists r'. split; [done|]. intros Ho. rewrite HS in Ho. destruct (Hc Ho) as (t & Ht & N).
  destruct Hd as [->|(_ & t1 & t2 & T1 & T2 & N2)]; [eauto|]. exists t2. split; [done|].
  rewrite Ht in T1. injection T1 as <-. by eapply narrower_trans.
Qed.

Lemma toDB_fromDB typ s : catalogValueTypeToDB typ = Ok s -> catalogValueTypeFromDB s = Ok typ.
Proof. destruct typ; cbn; intros [= <-]; reflexivity. Qed.

Lemma covered_narrower c path a b : narrower a b -> covered c path b -> covered c path a.
Proof.
  intros N (r & Hr & Hc). exists r. split; [done|]. intros Ho. destruct (Hc Ho) as (t & Ht & Nt).
  exists t. split; [done|by eapply narrower_trans].
Qed.

(** Setting the observed row of a path to a wider type. *)
Lemma update_observed_le c path f r :
  attribute_catalog c !! path = Some r -> crsource r = CatalogSourceObserved -> row_le r (f r) ->
  let c' := set_attribute_catalog
    (alter (fun r => if String.eqb (crsource r) CatalogSourceObserved then f r else r) path (attribute_catalog c)) c in
  catalog_le c c' /\ attribute_catalog c' !! path = Some (f r).
Proof.
  intros Hr Ho Hle. cbn. rewrite lookup_alter_eq, Hr. cbn. rewrite Ho. cbn. split; [|done].
  split; [by destruct c|]. cbn. intros path' r0 Hr0. destruct (decide (path = path')) as [<-|Hne].
  - rewrite lookup_alter_eq, Hr. cbn. rewrite Ho. eexists. split; [reflexivity|]. cbn. by simplify_eq.
  - rewrite lookup_alter_ne by done. exists r0. split; [done|apply row_le_refl].
Qed.

Lemma UpsertObserved_post now path typ c :
  let '(r, c') := UpsertObserved now path typ c in
  catalog_le c c' /\ (is_ok r = true -> covered c' path typ).
Proof.
  unfold UpsertObserved. destruct (String.eqb path ""); [by cbn|].
  unfold mbind, M_bind, of_result. destruct (catalogValueTypeToDB typ) as [dbType|e] eqn:Edb; [|by cbn].
  cbn [wrap_err]. unfold Resolve. destruct (attribute_catalog c !! path) as [r|] eqn:Er.
  2:{ unfold insert_observed. destruct (negb _); [by cbn|]. rewrite bool_decide_false by (rewrite Er; by intros [? ?]).
      cbn. split.
      - split; [by destruct c|]. intros p r0 Hr0. cbn. exists r0. split; [|apply row_le_refl].
        rewrite lookup_insert_ne; [done|]. congruence.
      - intros _. eexists. cbn. rewrite lookup_insert_eq. split; [done|]. intros _. exists typ.
        split; [by apply toDB_fromDB|apply narrower_refl]. }
  unfold scanCatalogEntry. destruct (catalogValueTypeFromDB (crvalue_type r)) as [old|e] eqn:Eold; [|by cbn].
  cbn [mbind result_bind Source EntryType]. case (String.eqb_spec (crsource r) CatalogSourceBuiltin) as [HB|HB].
  { cbn. split; [done|]. intros _. exists r. split; [done|]. by rewrite HB. }
  case (String.eqb_spec (crsource r) CatalogSourceRegistered) as [HG|HG].
  { cbn. split; [done|]. intros _. exists r. split; [done|]. by rewrite HG. }
  cbn [orb]. case (String.eqb_spec (crsource r) CatalogSourceObserved) as [HO|HO]; [|by cbn].
  destruct (widenCatalogValueType old typ) as [widened|] eqn:Ew; [|by cbn].
  pose proof (widen_upper _ _ _ Ew) as [N1 N2]. case_bool_decide as Hw.
  - unfold update_observed, puts.
    destruct (update_observed_le c path (fun r => mkCatalogRow (crpath r) (crvalue_type r) (crsource r) (crfirst_seen_at r) now)
      r Er HO) as [Hle Hget].
    { unfold row_le. cbn. split_and!; try done. right. split; [done|]. exists old, old.
      split_and!; [done|done|apply narrower_refl]. }
    split; [exact Hle|]. intros _. eexists. split; [exact Hget|]. intros _. exists old. split; [done|]. by rewrite <- Hw.
  - destruct (catalogValueTypeToDB widened) as [wdb|e] eqn:Ewdb; [|by cbn]. cbn [wrap_err].
    unfold update_observed, puts.
    destruct (update_observed_le c path (fun r => mkCatalogRow (crpath r) wdb (crsource r) (crfirst_seen_at r) now)
      r Er HO) as [Hle Hget].
    { unfold row_le. cbn. split_and!; try done. right. split; [done|]. exists old, widened.
      split_and!; [done|by apply toDB_fromDB|done]. }
    split; [exact Hle|]. intros _. eexists. split; [exact Hget|]. intros _. exists widened.
    split; [by apply toDB_fromDB|done].
Qed.

(** ** What is observed *)

(** [typ] or a narrower type than the one observed for the path. *)
Definition observed_as (observed : gmap string ValueType) (path : string) (typ : ValueType) : Prop :=
  exists t, observed !! path = Some t /\ narrower typ t.

Definition obs_le (o o' : gmap string ValueType) : Prop := forall path typ, observed_as o path typ -> observed_as o' path typ.

#[export] Instance obs_le_preorder : PreOrder obs_le.
Proof. split; unfold obs_le; [auto|]. intros a b c Hab Hbc path typ Ha. auto. Qed.

Lemma merge_post o path typ o' :
  mergeObservedCatalogType o path typ = Ok o' -> obs_le o o' /\ observed_as o' path typ.
Proof.
  unfold mergeObservedCatalogType. destruct (o !! path) as [old|] eqn:E.
  - destruct (widenCatalogValueType old typ) as [w|] eqn:Ew; [|done]. intros [= <-].
    apply widen_upper in Ew as [N1 N2]. split.
    + intros p t (t' & Ht' & N). destruct (decide (path = p)) as [<-|Hne].
      * exists w. rewrite lookup_insert_eq. split; [done|]. simplify_eq. by eapply narrower_trans.
      * exists t'. by rewrite lookup_insert_ne.
    + exists w. by rewrite lookup_insert_eq.
  - intros [= <-]. split.
    + intros p t (t' & Ht' & N). exists t'. rewrite lookup_insert_ne; [done|]. congruence.
    + exists typ. rewrite lookup_insert_eq. split; [done|apply narrower_refl].
Qed.

(** A fold whose steps go up in a preorder, each one establishing a property that
    lasts. *)
Lemma foldM_result_up {E A S} (R : S -> S -> Prop) `{!PreOrder R} (P : A -> S -> Prop) (f : S -> A -> result E S) l :
  (forall s x s', f s x = Ok s' -> R s s' /\ P x s') -> (forall x s s', P x s -> R s s' -> P x s') ->
  forall s s', foldM_result f s l = Ok s' -> R s s' /\ forall x, x ∈ l -> P x s'.
Proof.
  intros Hf HP. induction l as [|x l IH]; intros s s'; cbn.
  - intros [= <-]. split; [done|]. by intros x ?%not_elem_of_nil.
  - intros (s1 & H1 & H2)%bind_Ok. apply Hf in H1 as [R1 P1]. apply IH in H2 as [R2 P2].
    split; [by transitivity s1|]. intros y [->|Hy]%elem_of_cons; [by eapply HP|by apply P2].
Qed.

Section Observed.
Context `{MapOrder}.

Lemma observe_path_post o e o' :
  observe_path o e = Ok o' ->
  obs_le o o' /\ observed_as o' e.1 e.2 /\
  forall prefix, prefix ∈ attributePathPrefixes e.1 -> observed_as o' prefix TypeUnknown.
Proof.
  unfold observe_path. intros (o1 & H1 & H2)%bind_Ok. apply merge_post in H1 as [L1 C1].
  apply (foldM_result_up obs_le (fun prefix o => observed_as o prefix TypeUnknown)) in H2 as [L2 C2].
  - split; [by transitivity o1|]. split; [by apply L2|exact C2].
  - intros s x s' Hm. by apply merge_post in Hm.
  - intros x s s' Hx Hle. by apply Hle.
Qed.

(** The types an object's attributes give to its paths. *)
Definition attribute_types (attributes : payload) (path : string) (typ : ValueType) : Prop :=
  flattenObjectAttributes attributes !! path = Some typ \/
  typ = TypeUnknown /\ exists path' typ', flattenObjectAttributes attributes !! path' = Some typ' /\
    path ∈ attributePathPrefixes path'.

Lemma observe_objects_post o params o' :
  foldM_result observe_object o params = Ok o' ->
  obs_le o o' /\ forall attributes, attributes ∈ params ->
    forall path typ, attribute_types attributes path typ -> observed_as o' path typ.
Proof.
  intros Hf. apply (foldM_result_up obs_le (fun attributes o =>
    forall path typ, attribute_types attributes path typ -> observed_as o path typ)) in Hf; [done| |].
  - intros s x s' Hx. unfold observe_object in Hx.
    apply (foldM_result_up obs_le (fun e o => observed_as o e.1 e.2 /\
      forall prefix, prefix ∈ attributePathPrefixes e.1 -> observed_as o prefix TypeUnknown)) in Hx as [Hle Hall].
    + split; [done|]. intros path typ [Hp|[-> (path' & typ' & Hp & Hin)]].
      * apply (elem_of_range_map 1) in Hp. by destruct (Hall _ Hp).
      * apply (elem_of_range_map 1) in Hp. destruct (Hall _ Hp) as [_ Hpre]. by apply Hpre.
    + intros s0 e s0' He. apply observe_path_post in He as (L & C & Pr). split; [exact L|]. split; [exact C|exact Pr].
    + intros e s0 s0' [C Pr] Hle. split; [by apply Hle|]. intros prefix Hin. by apply Hle, Pr.
  - intros x s s' Hx Hle path typ Ht. by apply Hle, Hx.
Qed.

Lemma observeAttributeCatalog_post now params c :
  let '(r, c') := observeAttributeCatalog now params c in
  catalog_le c c' /\
  (is_ok r = true -> forall attributes, attributes ∈ params ->
     forall path typ, attribute_types attributes path typ -> covered c' path typ).
Proof.
  destruct (observeAttributeCatalog now params c) as [r c'] eqn:E. unfold observeAttributeCatalog in E.
  destruct params as [|p0 params0].
  { injection E as <- <-. split; [done|]. by intros _ a ?%not_elem_of_nil. }
  set (params := p0 :: params0) in *. unfold mbind, M_bind, of_result in E.
  destruct (foldM_result observe_object ∅ params) as [observed|e] eqn:Eo.
  2:{ injection E as <- <-. by split. }
  apply observe_objects_post in Eo as [_ Hobs].
  set (body := fun e : string * ValueType => _) in E.
  assert (triple (catalog_le c) (for_each body (range_map 2 observed))
    (fun _ c' => catalog_le c c' /\ forall e, e ∈ range_map 2 observed -> covered c' e.1 e.2)
    (fun _ => catalog_le c)) as HT.
  { eapply triple_pre with (P' := fun c' => catalog_le c c' /\ forall e, e ∈ [] -> covered c' e.1 e.2).
    { intros s Hs. split; [done|]. by intros e ?%not_elem_of_nil. }
    apply (triple_for_each (fun pre c' => catalog_le c c' /\ forall e, e ∈ pre -> covered c' e.1 e.2)).
    intros pre x suf _ s [Hle Hcov]. unfold body.
    pose proof (UpsertObserved_post now x.1 x.2 s) as Hpost.
    destruct (UpsertObserved now x.1 x.2 s) as [[u|err] s'] eqn:EU.
    - destruct Hpost as [Hle' Hcov']. cbn. split; [by transitivity s|].
      intros e [He|He]%elem_of_app; [eapply covered_le; [by apply Hcov|done]|].
      apply list_elem_of_singleton in He as ->. by apply Hcov'.
    - destruct Hpost as [Hle' _]. assert (catalog_le c s') by (by transitivity s). by destruct err. }
  specialize (HT c ltac:(reflexivity)). rewrite E in HT. destruct r as [[]|err]; cbn in HT.
  - destruct HT as [Hle Hcov]. split; [done|]. intros _ attributes Ha path typ Ht.
    destruct (Hobs attributes Ha path typ Ht) as (t & Hget & N).
    eapply covered_narrower; [exact N|]. apply (Hcov (path, t)). by apply elem_of_range_map.
  - by split.
Qed.
End Observed.

(** Writing objects only widens the catalog: an observed path keeps its row with
    a type at least as wide, a declared path is never touched, and no other table
    is.  After a successful observation every path of the attributes, and every
    proper prefix of one, is in the catalog with a type that covers its value. *)
Theorem observeAttributeCatalog_spec `{MapOrder} now params c :
  let '(r, c') := observeAttributeCatalog now params c in
  catalog_le c c' /\
  (is_ok r = true -> forall attributes, attributes ∈ params ->
     forall path typ, attribute_types attributes path typ -> covered c' path typ).
Proof. apply observeAttributeCatalog_post. Qed.
