(* ===== verification/Capture.v ===== *)
(** * Capture

    The fields captured from the upstream for each object:
    packages/storage/upstream_capture_field.go,
    upstream_capture_field_repository.go, upstream_capture_platform.go and
    upstream_capture_seed.go, and the table of
    migrations/000007_create_upstream_capture_fields.up.sql. *)
From S2P Require Import Prelude GoStrings GoFloat GoTime Ast JobPayload JobRuns ErrState Catalog.
Local Open Scope Z_scope.

(** ** upstream_capture_field.go *)

Record UpstreamCaptureFieldSeed := mkSeed {
  sdID : string;
  sdAttributePath : string;
  sdEnabled : bool;
  sdCategory : CaptureFieldCategory;
  sdCaptureSource : CaptureSource;
  sdExtractorType : CaptureExtractorType;
  sdExtractorRef : string;
  sdValueType : ValueType
}.

Record CreateUpstreamCaptureFieldParams := mkCreateCapture {
  ccAttributePath : string;
  ccEnabled : bool;
  ccCaptureSource : CaptureSource;
  ccExtractorType : CaptureExtractorType;
  ccExtractorRef : string;
  ccValueType : ValueType
}.

Record UpdateUpstreamCaptureFieldParams := mkUpdateCapture {
  ucAttributePath : option string;
  ucEnabled : option bool;
  ucCaptureSource : option CaptureSource;
  ucExtractorType : option CaptureExtractorType;
  ucExtractorRef : option string;
  ucValueType : option ValueType
}.

Definition ValidateUpstreamCaptureAttributePath (path : string) : result store_error unit :=
  let path := TrimSpace path in
  if String.eqb path "" then Err (Errorf "attribute_path is required")
  else if negb (HasPrefix path "upstream.") then Err (Errorf "attribute_path must start with upstream.")
  else if Contains path ".." then Err (Errorf "attribute_path must not contain ..")
  else
    let remainder := TrimPrefix path "upstream." in
    if String.eqb remainder "" then Err (Errorf "attribute_path must include a field after upstream.")
    else if existsb (fun segment => String.eqb segment "") (Split "." remainder)
    then Err (Errorf "attribute_path must not contain empty segments")
    else Ok tt.

Definition ValidateUpstreamCaptureExtractor (extractorType : CaptureExtractorType) (extractorRef : string)
    (origin : CaptureFieldOrigin) : result store_error unit :=
  let extractorRef := TrimSpace extractorRef in
  if String.eqb extractorRef "" then Err (Errorf "extractor_ref is required")
  else match extractorType with
  | CaptureExtractorSDKField =>
      if bool_decide (origin = CaptureFieldOriginUser) then Err (Errorf "sdk_field extractors are platform-only")
      else Ok tt
  | CaptureExtractorResponseHeader | CaptureExtractorMetadataKey | CaptureExtractorTagKey =>
      if Contains extractorRef ".." then Err (Errorf "extractor_ref must not contain ..") else Ok tt
  | CaptureExtractorMetadataAll | CaptureExtractorTaggingAll =>
      if negb (String.eqb extractorRef "*") then Err (Errorf "extractor_ref must be * for %s") else Ok tt
  | CaptureExtractorOther _ => Err (Errorf "unsupported extractor_type %q")
  end.

Definition NormalizeCaptureExtractorRef (extractorType : CaptureExtractorType) (extractorRef : string) : string :=
  let extractorRef := TrimSpace extractorRef in
  if bool_decide (extractorType = CaptureExtractorResponseHeader) then ToLower extractorRef else extractorRef.

Definition CaptureFieldsNeedTagging (fields : list UpstreamCaptureField) : bool :=
  existsb (fun field => cfEnabled field && bool_decide (cfCaptureSource field = CaptureSourceTagging)) fields.

(** ** The table *)

Definition known_source (s : CaptureSource) : bool := match s with CaptureSourceOther _ => false | _ => true end.
Definition known_extractor (t : CaptureExtractorType) : bool :=
  match t with CaptureExtractorOther _ => false | _ => true end.

(** The CHECK constraints. *)
Definition capture_row_ok (f : UpstreamCaptureField) : bool :=
  negb (blank (cfAttributePath f)) && HasPrefix (cfAttributePath f) "upstream." && negb (blank (cfExtractorRef f))
  && known_source (cfCaptureSource f) && known_extractor (cfExtractorType f)
  && bool_decide (ValueType_string (cfValueType f) ∈ ["string"; "integer"; "float"; "boolean"; "timestamp"; "json"; "unknown"]).

(** The unique indexes, on the path and on the extractor. *)
Definition same_capture (f g : UpstreamCaptureField) : bool :=
  String.eqb (cfAttributePath f) (cfAttributePath g)
  || (bool_decide (cfCaptureSource f = cfCaptureSource g) && bool_decide (cfExtractorType f = cfExtractorType g)
      && String.eqb (cfExtractorRef f) (cfExtractorRef g)).
Definition capture_taken (f : UpstreamCaptureField) (t : gmap string UpstreamCaptureField) : bool :=
  existsb (fun g => negb (String.eqb (cfID g) (cfID f)) && same_capture f g) (table_rows t).

(** ** upstream_capture_field_repository.go *)

Definition ErrCaptureFieldNotFound : store_error := Errorf "storage: upstream capture field not found".
Definition ErrCaptureFieldRequired : store_error := Errorf "storage: required upstream capture field cannot be disabled".
Definition ErrCaptureFieldPlatformOnly : store_error := Errorf "storage: platform upstream capture field cannot be deleted".
Definition ErrCaptureFieldConflict : store_error := Errorf "storage: upstream capture field conflict".
Definition ErrCaptureFieldInvalidUpdate : store_error := Errorf "storage: invalid upstream capture field update".

(** A statement that writes the row [f], new or in place of its old version. *)
Definition write_capture (f : UpstreamCaptureField) : M Catalog UpstreamCaptureField := fun c =>
  if negb (capture_row_ok f) then (Err (Failure (Wrapf "upsert upstream capture field: %w" (Errorf "check_violation"))), c)
  else if capture_taken f (capture_fields c) then (Err (Failure ErrCaptureFieldConflict), c)
  else (Ok f, set_capture_fields (<[cfID f := f]> (capture_fields c)) c).

Section Repository.
Context `{Collation}.

Definition by_attribute_path (f g : UpstreamCaptureField) : bool := collate (cfAttributePath f) (cfAttributePath g).

Definition ListFields : M Catalog (list UpstreamCaptureField) :=
  gets (fun c => select_rows (fun _ => true) by_attribute_path (capture_fields c)).

Definition ListEnabled : M Catalog (list UpstreamCaptureField) :=
  gets (fun c => select_rows cfEnabled by_attribute_path (capture_fields c)).

Definition GetField (id : string) : M Catalog UpstreamCaptureField := fun c =>
  match capture_fields c !! id with
  | Some f => (Ok f, c)
  | None => (Err (Failure ErrCaptureFieldNotFound), c)
  end.

Definition validateCreateUpstreamCaptureFieldParams (params : CreateUpstreamCaptureFieldParams) : result store_error unit :=
  _ ← ValidateUpstreamCaptureAttributePath (ccAttributePath params);
  _ ← ValidateUpstreamCaptureExtractor (ccExtractorType params) (ccExtractorRef params) CaptureFieldOriginUser;
  if String.eqb (ValueType_string (ccValueType params)) "" then Err (Errorf "value_type is required")
  else if known_source (ccCaptureSource params) then Ok tt else Err (Errorf "unsupported capture_source %q").

Definition newUpstreamCaptureFieldID (random : list Z) : string := "capture_" +:+ hex_encode random.

Definition CreateUser (random : list Z) (now : Z) (params : CreateUpstreamCaptureFieldParams) :
    M Catalog UpstreamCaptureField :=
  _ ← of_result (validateCreateUpstreamCaptureFieldParams params);
  let f := mkCapture (newUpstreamCaptureFieldID random) (TrimSpace (ccAttributePath params)) (ccEnabled params)
    CaptureFieldCategoryOptional CaptureFieldOriginUser (ccCaptureSource params) (ccExtractorType params)
    (NormalizeCaptureExtractorRef (ccExtractorType params) (ccExtractorRef params)) (ccValueType params) now now in
  action (fun c =>
    if bool_decide (is_Some (capture_fields c !! cfID f)) then (Err (Failure ErrCaptureFieldConflict), c)
    else write_capture f c).

Definition set_enabled (now : Z) (enabled : bool) (f : UpstreamCaptureField) : UpstreamCaptureField :=
  mkCapture (cfID f) (cfAttributePath f) enabled (cfCategory f) (cfOrigin f) (cfCaptureSource f) (cfExtractorType f)
    (cfExtractorRef f) (cfValueType f) (cfCreatedAt f) now.

(** The field a user field becomes. *)
Definition next_field (now : Z) (params : UpdateUpstreamCaptureFieldParams) (current : UpstreamCaptureField) :
    result store_error UpstreamCaptureField :=
  attributePath ← match ucAttributePath params with
    | Some path => _ ← ValidateUpstreamCaptureAttributePath path; Ok (TrimSpace path)
    | None => Ok (cfAttributePath current)
    end;
  let extractorType := default (cfExtractorType current) (ucExtractorType params) in
  let extractorRef := match ucExtractorRef params with
    | Some ref => NormalizeCaptureExtractorRef extractorType ref
    | None => cfExtractorRef current
    end in
  let next := mkCapture (cfID current) attributePath (default (cfEnabled current) (ucEnabled params)) (cfCategory current)
    (cfOrigin current) (default (cfCaptureSource current) (ucCaptureSource params)) extractorType extractorRef
    (default (cfValueType current) (ucValueType params)) (cfCreatedAt current) now in
  _ ← ValidateUpstreamCaptureExtractor extractorType extractorRef CaptureFieldOriginUser;
  if negb (cfEnabled next) && bool_decide (cfCategory next = CaptureFieldCategoryRequired)
  then Err ErrCaptureFieldRequired else Ok next.

(** What a platform field refuses. *)
Definition platform_update_ok (params : UpdateUpstreamCaptureFieldParams) (current : UpstreamCaptureField) :
    result store_error unit :=
  if bool_decide (is_Some (ucAttributePath params)) || bool_decide (is_Some (ucCaptureSource params))
     || bool_decide (is_Some (ucExtractorType params)) || bool_decide (is_Some (ucExtractorRef params))
     || bool_decide (is_Some (ucValueType params))
  then Err ErrCaptureFieldInvalidUpdate
  else if bool_decide (ucEnabled params = Some false) && bool_decide (cfCategory current = CaptureFieldCategoryRequired)
  then Err ErrCaptureFieldRequired else Ok tt.

(** [UPDATE upstream_capture_fields ... WHERE id = $1]: no row is an error, as for
    any failure of the statement. *)
Definition update_capture (id : string) (f : UpstreamCaptureField -> UpstreamCaptureField) :
    M Catalog UpstreamCaptureField := fun c =>
  match capture_fields c !! id with
  | Some current => write_capture (f current) c
  | None => (Err (Failure (Wrapf "upsert upstream capture field: %w" (Errorf "no rows in result set"))), c)
  end.

Definition UpdateField (now : Z) (id : string) (params : UpdateUpstreamCaptureFieldParams) : M Catalog UpstreamCaptureField :=
  current ← GetField id;
  if bool_decide (cfOrigin current = CaptureFieldOriginPlatform) then
    _ ← of_result (platform_update_ok params current);
    match ucEnabled params with
    | None => mret current
    | Some enabled => update_capture id (set_enabled now enabled)
    end
  else
    next ← of_result (next_field now params current);
    update_capture id (fun _ => next).

Definition DeleteUser (id : string) : M Catalog unit :=
  current ← GetField id;
  if bool_decide (cfOrigin current = CaptureFieldOriginPlatform) then fail (Failure ErrCaptureFieldPlatformOnly)
  else puts (fun c => set_capture_fields (delete id (capture_fields c)) c).

(** The INSERT ... ON CONFLICT (id) DO UPDATE ... WHERE origin = 'platform'. *)
Definition seeded_field (now : Z) (seed : UpstreamCaptureFieldSeed) (old : option UpstreamCaptureField) : UpstreamCaptureField :=
  mkCapture (sdID seed) (sdAttributePath seed) (match old with Some f => cfEnabled f | None => sdEnabled seed end)
    (sdCategory seed) CaptureFieldOriginPlatform (sdCaptureSource seed) (sdExtractorType seed)
    (NormalizeCaptureExtractorRef (sdExtractorType seed) (sdExtractorRef seed)) (sdValueType seed)
    (match old with Some f => cfCreatedAt f | None => now end) now.

Definition seed_field (now : Z) (seed : UpstreamCaptureFieldSeed) : M Catalog unit := fun c =>
  let old := capture_fields c !! sdID seed in
  if match old with Some f => bool_decide (cfOrigin f = CaptureFieldOriginPlatform) | None => true end
  then match write_capture (seeded_field now seed old) c with
       | (Ok _, c) => (Ok tt, c)
       | (Err _, c) => (Err (Failure (Errorf "seed upstream capture field %q: %w")), c)
       end
  else (Ok tt, c).

Definition SeedPlatform (now : Z) (seeds : list UpstreamCaptureFieldSeed) : M Catalog unit := for_each (seed_field now) seeds.
End Repository.

(** ** upstream_capture_platform.go *)

Definition PlatformUpstreamCaptureFields : list UpstreamCaptureFieldSeed := [
  mkSeed "upstream.head.etag" "upstream.etag" true CaptureFieldCategoryRequired CaptureSourceHead
    CaptureExtractorSDKField "ETag" TypeString;
  mkSeed "upstream.head.size" "upstream.size" true CaptureFieldCategoryRequired CaptureSourceHead
    CaptureExtractorSDKField "ContentLength" TypeInteger;
  mkSeed "upstream.head.last_modified" "upstream.last_modified" true CaptureFieldCategoryRequired CaptureSourceHead
    CaptureExtractorSDKField "LastModified" TypeTimestamp;
  mkSeed "upstream.head.header.accept_ranges" "upstream.header.accept_ranges" true CaptureFieldCategoryOptional CaptureSourceHead
    CaptureExtractorSDKField "AcceptRanges" TypeString;
  mkSeed "upstream.head.header.cache_control" "upstream.header.cache_control" true CaptureFieldCategoryOptional CaptureSourceHead
    CaptureExtractorSDKField "CacheControl" TypeString;
  mkSeed "upstream.head.header.content_type" "upstream.header.content_type" true CaptureFieldCategoryOptional CaptureSourceHead
    CaptureExtractorSDKField "ContentType" TypeString;
  mkSeed "upstream.head.header.content_disposition" "upstream.header.content_disposition" true CaptureFieldCategoryOptional CaptureSourceHead
    CaptureExtractorSDKField "ContentDisposition" TypeString;
  mkSeed "upstream.head.header.content_encoding" "upstream.header.content_encoding" true CaptureFieldCategoryOptional CaptureSourceHead
    CaptureExtractorSDKField "ContentEncoding" TypeString;
  mkSeed "upstream.head.header.content_language" "upstream.header.content_language" true CaptureFieldCategoryOptional CaptureSourceHead
    CaptureExtractorSDKField "ContentLanguage" TypeString;
  mkSeed "upstream.head.metadata_all" "upstream.metadata" true CaptureFieldCategoryOptional CaptureSourceHead
    CaptureExtractorMetadataAll "*" TypeString;
  mkSeed "upstream.s3.storage_class" "upstream.s3.storage_class" true CaptureFieldCategoryOptional CaptureSourceHead
    CaptureExtractorSDKField "StorageClass" TypeString;
  mkSeed "upstream.s3.version_id" "upstream.s3.version_id" true CaptureFieldCategoryOptional CaptureSourceHead
    CaptureExtractorSDKField "VersionId" TypeString;
  mkSeed "upstream.s3.server_side_encryption" "upstream.s3.server_side_encryption" true CaptureFieldCategoryOptional CaptureSourceHead
    CaptureExtractorSDKField "ServerSideEncryption" TypeString;
  mkSeed "upstream.s3.sse_kms_key_id" "upstream.s3.sse_kms_key_id" true CaptureFieldCategoryOptional CaptureSourceHead
    CaptureExtractorSDKField "SSEKMSKeyId" TypeString;
  mkSeed "upstream.s3.sse_customer_algorithm" "upstream.s3.sse_customer_algorithm" true CaptureFieldCategoryOptional CaptureSourceHead
    CaptureExtractorSDKField "SSECustomerAlgorithm" TypeString;
  mkSeed "upstream.s3.sse_customer_key_md5" "upstream.s3.sse_customer_key_md5" true CaptureFieldCategoryOptional CaptureSourceHead
    CaptureExtractorSDKField "SSECustomerKeyMD5" TypeString;
  mkSeed "upstream.s3.website_redirect_location" "upstream.s3.website_redirect_location" true CaptureFieldCategoryOptional CaptureSourceHead
    CaptureExtractorSDKField "WebsiteRedirectLocation" TypeString;
  mkSeed "upstream.s3.expiration" "upstream.s3.expiration" true CaptureFieldCategoryOptional CaptureSourceHead
    CaptureExtractorSDKField "Expiration" TypeString;
  mkSeed "upstream.s3.checksum_crc32" "upstream.s3.checksum_crc32" true CaptureFieldCategoryOptional CaptureSourceHead
    CaptureExtractorSDKField "ChecksumCRC32" TypeString;
  mkSeed "upstream.s3.checksum_crc32c" "upstream.s3.checksum_crc32c" true CaptureFieldCategoryOptional CaptureSourceHead
    CaptureExtractorSDKField "ChecksumCRC32C" TypeString;
  mkSeed "upstream.s3.checksum_crc64nvme" "upstream.s3.checksum_crc64nvme" true CaptureFieldCategoryOptional CaptureSourceHead
    CaptureExtractorSDKField "ChecksumCRC64NVME" TypeString;
  mkSeed "upstream.s3.checksum_sha1" "upstream.s3.checksum_sha1" true CaptureFieldCategoryOptional CaptureSourceHead
    CaptureExtractorSDKField "ChecksumSHA1" TypeString;
  mkSeed "upstream.s3.checksum_sha256" "upstream.s3.checksum_sha256" true CaptureFieldCategoryOptional CaptureSourceHead
    CaptureExtractorSDKField "ChecksumSHA256" TypeString;
  mkSeed "upstream.s3.checksum_sha512" "upstream.s3.checksum_sha512" true CaptureFieldCategoryOptional CaptureSourceHead
    CaptureExtractorSDKField "ChecksumSHA512" TypeString;
  mkSeed "upstream.s3.checksum_md5" "upstream.s3.checksum_md5" true CaptureFieldCategoryOptional CaptureSourceHead
    CaptureExtractorSDKField "ChecksumMD5" TypeString;
  mkSeed "upstream.s3.bucket_key_enabled" "upstream.s3.bucket_key_enabled" true CaptureFieldCategoryOptional CaptureSourceHead
    CaptureExtractorSDKField "BucketKeyEnabled" TypeBoolean;
  mkSeed "upstream.s3.archive_status" "upstream.s3.archive_status" true CaptureFieldCategoryOptional CaptureSourceHead
    CaptureExtractorSDKField "ArchiveStatus" TypeString;
  mkSeed "upstream.s3.replication_status" "upstream.s3.replication_status" true CaptureFieldCategoryOptional CaptureSourceHead
    CaptureExtractorSDKField "ReplicationStatus" TypeString;
  mkSeed "upstream.s3.object_lock_mode" "upstream.s3.object_lock_mode" true CaptureFieldCategoryOptional CaptureSourceHead
    CaptureExtractorSDKField "ObjectLockMode" TypeString;
  mkSeed "upstream.s3.object_lock_legal_hold_status" "upstream.s3.object_lock_legal_hold_status" true CaptureFieldCategoryOptional CaptureSourceHead
    CaptureExtractorSDKField "ObjectLockLegalHoldStatus" TypeString;
  mkSeed "upstream.s3.object_lock_retain_until_date" "upstream.s3.object_lock_retain_until_date" true CaptureFieldCategoryOptional CaptureSourceHead
    CaptureExtractorSDKField "ObjectLockRetainUntilDate" TypeTimestamp;
  mkSeed "upstream.s3.parts_count" "upstream.s3.parts_count" true CaptureFieldCategoryOptional CaptureSourceHead
    CaptureExtractorSDKField "PartsCount" TypeInteger;
  mkSeed "upstream.s3.delete_marker" "upstream.s3.delete_marker" true CaptureFieldCategoryOptional CaptureSourceHead
    CaptureExtractorSDKField "DeleteMarker" TypeBoolean;
  mkSeed "upstream.tagging_all" "upstream.tag" true CaptureFieldCategoryOptional CaptureSourceTagging
    CaptureExtractorTaggingAll "*" TypeString
].

Definition SeedUpstreamCaptureFields (now : Z) : M Catalog unit := SeedPlatform now PlatformUpstreamCaptureFields.

(** ** The invariant of the table *)

Definition capture_keyed (c : Catalog) : Prop := forall id f, capture_fields c !! id = Some f -> cfID f = id.

(** No two fields have the same path or the same extractor. *)
Definition capture_distinct (c : Catalog) : Prop :=
  forall f g, f ∈ table_rows (capture_fields c) -> g ∈ table_rows (capture_fields c) -> same_capture f g = true -> cfID f = cfID g.

(** Every platform field is there as the platform declares it, and enabled when it is
    required. *)
Definition platform_field (seed : UpstreamCaptureFieldSeed) (f : UpstreamCaptureField) : Prop :=
  cfOrigin f = CaptureFieldOriginPlatform /\ cfCategory f = sdCategory seed /\ cfAttributePath f = sdAttributePath seed /\
  cfCaptureSource f = sdCaptureSource seed /\ cfExtractorType f = sdExtractorType seed /\
  cfExtractorRef f = NormalizeCaptureExtractorRef (sdExtractorType seed) (sdExtractorRef seed) /\
  cfValueType f = sdValueType seed /\ (cfCategory f = CaptureFieldCategoryRequired -> cfEnabled f = true).
Definition platform_fields (seeds : list UpstreamCaptureFieldSeed) (c : Catalog) : Prop :=
  forall seed, seed ∈ seeds -> exists f, capture_fields c !! sdID seed = Some f /\ platform_field seed f.

Record captures_ok (c : Catalog) : Prop := {
  co_keyed : capture_keyed c;
  co_distinct : capture_distinct c;
  co_checks : forall id f, capture_fields c !! id = Some f -> capture_row_ok f = true;
  co_user : forall id f, capture_fields c !! id = Some f -> cfOrigin f = CaptureFieldOriginUser -> cfCategory f = CaptureFieldCategoryOptional
}.

Lemma platform_seeds_NoDup : NoDup (map sdID PlatformUpstreamCaptureFields).
Proof. apply (bool_decide_unpack _). vm_compute. exact I. Qed.

Lemma write_capture_cases f c :
  (exists e, write_capture f c = (Err (Failure e), c)) \/
  (write_capture f c = (Ok f, set_capture_fields (<[cfID f := f]> (capture_fields c)) c) /\
   capture_row_ok f = true /\ capture_taken f (capture_fields c) = false).
Proof.
  unfold write_capture. destruct (capture_row_ok f); [|left; eauto]. destruct (capture_taken _ _); [left; eauto|by right].
Qed.

Lemma same_capture_sym f g : same_capture f g = same_capture g f.
Proof.
  unfold same_capture. rewrite (String.eqb_sym (cfAttributePath f)), (String.eqb_sym (cfExtractorRef f)).
  f_equal. f_equal. f_equal; apply bool_decide_ext; split; congruence.
Qed.

Lemma captures_ok_insert f c :
  captures_ok c -> capture_row_ok f = true -> capture_taken f (capture_fields c) = false ->
  (cfOrigin f = CaptureFieldOriginUser -> cfCategory f = CaptureFieldCategoryOptional) ->
  captures_ok (set_capture_fields (<[cfID f := f]> (capture_fields c)) c).
Proof.
  intros [Hk Hd Hc Hu] Hok Hnt Hcat.
  assert (forall g, g ∈ table_rows (capture_fields c) -> cfID g <> cfID f -> same_capture f g = false) as Hnew.
  { intros g Hg Hne. destruct (same_capture f g) eqn:E; [|done].
    assert (capture_taken f (capture_fields c) = true); [|congruence].
    apply existsb_elem. exists g. split; [done|]. by rewrite E, andb_true_r, negb_true_iff, String.eqb_neq. }
  assert (forall g, g ∈ table_rows (<[cfID f := f]> (capture_fields c)) -> g = f \/ (g ∈ table_rows (capture_fields c) /\ cfID g <> cfID f)) as Hrows.
  { intros g (id & [[_ ->]|[Hne Hg]]%lookup_insert_Some)%elem_of_table_rows; [by left|].
    right. split; [apply elem_of_table_rows; eauto|]. rewrite (Hk id g Hg). congruence. }
  split; unfold capture_keyed, capture_distinct; cbn [capture_fields set_capture_fields].
  - intros id g [[<- ->]|[_ Hg]]%lookup_insert_Some; [done|by apply Hk].
  - intros g h [->|[Hg Hgf]]%Hrows [->|[Hh Hhf]]%Hrows; [done|..|by apply Hd].
    + by rewrite Hnew.
    + rewrite same_capture_sym. by rewrite Hnew.
  - intros id g [[_ ->]|[_ Hg]]%lookup_insert_Some; [done|by eapply Hc].
  - intros id g [[_ ->]|[_ Hg]]%lookup_insert_Some; [done|by eapply Hu].
Qed.

(** The rows that are not [id] are left alone. *)
Definition others_kept (id : string) (c c' : Catalog) : Prop :=
  forall key, key <> id -> capture_fields c' !! key = capture_fields c !! key.

(** ** Operations *)

Inductive capture_op :=
| CaptureCreate (random : list Z) (now : Z) (params : CreateUpstreamCaptureFieldParams)
| CaptureUpdate (now : Z) (id : string) (params : UpdateUpstreamCaptureFieldParams)
| CaptureDelete (id : string)
| CaptureSeed (now : Z).

Definition run_capture_op (o : capture_op) (c : Catalog) : Catalog :=
  match o with
  | CaptureCreate random now params => (CreateUser random now params c).2
  | CaptureUpdate now id params => (UpdateField now id params c).2
  | CaptureDelete id => (DeleteUser id c).2
  | CaptureSeed now => (SeedUpstreamCaptureFields now c).2
  end.

(** The invariant of the table: no operation changes what a platform field captures
    or disables a required one. *)
Definition capture_invariant (c : Catalog) : Prop := captures_ok c /\ platform_fields PlatformUpstreamCaptureFields c.

(** Writing a field keeps the platform fields when the written field is not one of
    them, or is one as declared. *)
Lemma platform_fields_insert f c :
  platform_fields PlatformUpstreamCaptureFields c ->
  (forall seed, seed ∈ PlatformUpstreamCaptureFields -> sdID seed = cfID f -> platform_field seed f) ->
  platform_fields PlatformUpstreamCaptureFields (set_capture_fields (<[cfID f := f]> (capture_fields c)) c).
Proof.
  intros Hp Hf seed Hs. cbn [capture_fields set_capture_fields]. destruct (decide (cfID f = sdID seed)) as [E|Hne].
  - exists f. rewrite E, lookup_insert_eq. split; [done|]. by apply Hf.
  - rewrite lookup_insert_ne by done. by apply Hp.
Qed.

Lemma write_capture_invariant f c :
  capture_invariant c ->
  (cfOrigin f = CaptureFieldOriginUser -> cfCategory f = CaptureFieldCategoryOptional) ->
  (forall seed, seed ∈ PlatformUpstreamCaptureFields -> sdID seed = cfID f -> platform_field seed f) ->
  capture_invariant (write_capture f c).2.
Proof.
  intros [Hok Hp] Hu Hf. destruct (write_capture_cases f c) as [[e ->]|(-> & Hr & Ht)]; [by split|].
  split; [by apply captures_ok_insert|by apply platform_fields_insert].
Qed.

Lemma seed_of_same_id seed seed' :
  seed ∈ PlatformUpstreamCaptureFields -> seed' ∈ PlatformUpstreamCaptureFields -> sdID seed = sdID seed' -> seed = seed'.
Proof.
  intros H1 H2 E. apply list_elem_of_lookup in H1 as [i Hi], H2 as [j Hj].
  assert (i = j) as <-; [|congruence].
  apply (NoDup_lookup (map sdID PlatformUpstreamCaptureFields) i j (sdID seed) platform_seeds_NoDup).
  - by rewrite list_lookup_fmap, Hi.
  - by rewrite list_lookup_fmap, Hj, E.
Qed.

Lemma seed_field_invariant now seed c :
  seed ∈ PlatformUpstreamCaptureFields -> capture_invariant c -> capture_invariant (seed_field now seed c).2.
Proof.
  intros Hs HI. unfold seed_field. destruct (proj2 HI seed Hs) as (f & Hf & Ho & Hcat & Hpf). rewrite Hf.
  rewrite bool_decide_eq_true_2 by done.
  assert (capture_invariant (write_capture (seeded_field now seed (Some f)) c).2) as Hw.
  { apply write_capture_invariant; [done|done|]. intros seed' Hs' E. cbn in E.
    rewrite (seed_of_same_id seed' seed Hs' Hs E). repeat split; try done. cbn. rewrite <- Hcat.
    by destruct Hpf as (_ & _ & _ & _ & _ & Hen). }
  by destruct (write_capture _ c) as [[g|e] c'].
Qed.

Lemma seeds_invariant now seeds c :
  (forall seed, seed ∈ seeds -> seed ∈ PlatformUpstreamCaptureFields) -> capture_invariant c ->
  capture_invariant (SeedPlatform now seeds c).2.
Proof.
  revert c. induction seeds as [|seed seeds IH]; intros c Hs HI; [done|]. unfold SeedPlatform. cbn [for_each].
  unfold mbind, M_bind. pose proof (seed_field_invariant now seed c) as Hf.
  lapply Hf; [clear Hf; intros Hf|apply Hs; left]. specialize (Hf HI).
  destruct (seed_field now seed c) as [[u|e] c']; cbn in Hf |- *; [|done].
  apply IH; [|done]. intros s ?. apply Hs. by right.
Qed.

Lemma user_id_not_platform c id f :
  capture_invariant c -> capture_fields c !! id = Some f -> cfOrigin f <> CaptureFieldOriginPlatform ->
  forall seed, seed ∈ PlatformUpstreamCaptureFields -> sdID seed <> id.
Proof. intros [_ Hp] Hf Ho seed Hs <-. destruct (Hp seed Hs) as (g & Hg & Hg' & _). congruence. Qed.

Lemma UpdateField_invariant now id params c : capture_invariant c -> capture_invariant (UpdateField now id params c).2.
Proof.
  intros HI. unfold UpdateField, GetField, mbind, M_bind. destruct (capture_fields c !! id) as [f|] eqn:Hf; [|done].
  pose proof (co_keyed _ (proj1 HI) id f Hf) as Hid. case_bool_decide as Ho; unfold of_result.
  - destruct (platform_update_ok params f) as [u|e] eqn:Ep; cbn [fst snd]; [|done].
    destruct (ucEnabled params) as [en|] eqn:Een; [|done]. unfold update_capture. rewrite Hf.
    apply write_capture_invariant; [done|cbn; by rewrite Ho|].
    intros seed Hs E. cbn in E. rewrite Hid in E. destruct (proj2 HI seed Hs) as (g & Hg & Hgp). rewrite E, Hf in Hg. injection Hg as <-.
    destruct Hgp as (H1 & H2 & H3 & H4 & H5 & H6 & H7 & _). repeat split; try done. cbn. intros Hreq.
    unfold platform_update_ok in Ep. destruct (_ || _); [done|]. destruct en; [done|].
    rewrite Een, bool_decide_eq_true_2, bool_decide_eq_true_2 in Ep by done. done.
  - destruct (next_field now params f) as [next|e] eqn:En; cbn [fst snd]; [|done]. unfold update_capture. rewrite Hf.
    assert (cfID next = id /\ cfOrigin next = cfOrigin f /\ cfCategory next = cfCategory f) as (E1 & E2 & E3).
    { unfold next_field in En. apply bind_Ok in En as (path & _ & En). cbn zeta in En. apply bind_Ok in En as (u & _ & En).
      destruct (_ && _); [done|]. injection En as <-. cbn. done. }
    apply write_capture_invariant; [done| |].
    + rewrite E2, E3. by apply (co_user _ (proj1 HI) id).
    + intros seed Hs E. rewrite E1 in E. by destruct (user_id_not_platform c id f HI Hf Ho seed Hs).
Qed.

Lemma CreateUser_invariant random now params c : capture_invariant c -> capture_invariant (CreateUser random now params c).2.
Proof.
  intros HI. unfold CreateUser, mbind, M_bind, of_result, action.
  destruct (validateCreateUpstreamCaptureFieldParams params); [|done]. cbn zeta. case_bool_decide as Hex; [done|].
  apply write_capture_invariant; [done|done|]. intros seed Hs E. destruct Hex.
  destruct (proj2 HI seed Hs) as (g & Hg & _). exists g. cbn in E |- *. congruence.
Qed.

Lemma DeleteUser_invariant id c : capture_invariant c -> capture_invariant (DeleteUser id c).2.
Proof.
  intros HI. unfold DeleteUser, GetField, mbind, M_bind. destruct (capture_fields c !! id) as [f|] eqn:Hf; [|done].
  case_bool_decide as Ho; [done|]. cbn. pose proof HI as [[Hk Hd Hc Hu] Hp]. split; [split|].
  - intros id' g. cbn. intros [_ Hg]%lookup_delete_Some. by apply Hk.
  - intros g h. cbn. intros (i & [_ Hg]%lookup_delete_Some)%elem_of_table_rows (j & [_ Hh]%lookup_delete_Some)%elem_of_table_rows.
    apply Hd; apply elem_of_table_rows; eauto.
  - intros id' g. cbn. intros [_ Hg]%lookup_delete_Some. by eapply Hc.
  - intros id' g. cbn. intros [_ Hg]%lookup_delete_Some. by eapply Hu.
  - intros seed Hs. destruct (Hp seed Hs) as (g & Hg & Hgp). exists g. cbn. split; [|done].
    rewrite lookup_delete_ne; [done|]. intros E. by apply (user_id_not_platform c id f HI Hf Ho seed Hs).
Qed.

(** C28: whatever users do with the captured fields, and however often the platform
    seeds them, every platform field captures what the platform declares, the
    required ones are enabled, and no two fields have the same path or extractor. *)
Theorem capture_invariant_ops ops c :
  capture_invariant c -> capture_invariant (fold_left (fun c o => run_capture_op o c) ops c).
Proof.
  revert c. induction ops as [|o ops IH]; intros c HI; [done|]. cbn. apply IH.
  destruct o; cbn [run_capture_op]; [by apply CreateUser_invariant|by apply UpdateField_invariant|by apply DeleteUser_invariant|].
  unfold SeedUpstreamCaptureFields. by apply seeds_invariant.
Qed.

(** The table after the migrations and the first start. *)
Definition seeded_catalog (now : Z) : Catalog := (SeedUpstreamCaptureFields now empty_catalog).2.

(** Seeding new fields, when it succeeds. *)
Lemma seed_fresh now seeds : forall done c c',
  captures_ok c -> platform_fields done c -> (forall seed, seed ∈ seeds -> capture_fields c !! sdID seed = None) ->
  NoDup (map sdID seeds) -> (forall seed, seed ∈ seeds -> sdEnabled seed = true) ->
  SeedPlatform now seeds c = (Ok tt, c') -> captures_ok c' /\ platform_fields (done ++ seeds) c'.
Proof.
  unfold SeedPlatform. induction seeds as [|seed seeds IH]; intros done c c' Hok Hp Hnew Hnd Hen.
  - intros [= <-]. by rewrite app_nil_r.
  - cbn [for_each]. unfold mbind, M_bind, seed_field at 1. rewrite (Hnew seed) by left.
    destruct (write_capture_cases (seeded_field now seed None) c) as [[e ->]|(-> & Hr & Ht)]; [done|].
    cbn [map] in Hnd. apply list.NoDup_cons in Hnd as [Hni Hnd]. intros Hs.
    change (done ++ seed :: seeds) with (done ++ [seed] ++ seeds). rewrite app_assoc.
    refine (IH (done ++ [seed]) _ c' _ _ _ Hnd _ Hs).
    + by apply captures_ok_insert.
    + intros s' [Hs'|Hs']%elem_of_app; cbn [capture_fields set_capture_fields cfID seeded_field].
      * destruct (Hp s' Hs') as (f & Hf & Hpf). exists f. rewrite lookup_insert_ne; [done|]. intros E.
        rewrite <- E, (Hnew seed) in Hf by left. done.
      * apply list_elem_of_singleton in Hs' as ->. rewrite lookup_insert_eq. eexists. split; [done|].
        repeat split. cbn. intros _. apply Hen. left.
    + intros s' Hs'. cbn. rewrite lookup_insert_ne; [apply Hnew; by right|]. intros E. apply Hni. rewrite E.
      by apply list_elem_of_fmap_2.
    + intros s' ?. apply Hen. by right.
Qed.

Lemma empty_captures_ok : captures_ok empty_catalog.
Proof.
  split.
  - intros id f Hf. cbn in Hf. by rewrite lookup_empty in Hf.
  - intros f g (id & Hf)%elem_of_table_rows. cbn in Hf. by rewrite lookup_empty in Hf.
  - intros id f Hf. cbn in Hf. by rewrite lookup_empty in Hf.
  - intros id f Hf. cbn in Hf. by rewrite lookup_empty in Hf.
Qed.

Lemma platform_fields_nil c : platform_fields [] c.
Proof. intros seed Hs. by apply not_elem_of_nil in Hs. Qed.

Lemma empty_new (seeds : list UpstreamCaptureFieldSeed) seed : seed ∈ seeds -> capture_fields empty_catalog !! sdID seed = None.
Proof. intros _. apply lookup_empty. Qed.

Lemma platform_enabled seed : seed ∈ PlatformUpstreamCaptureFields -> sdEnabled seed = true.
Proof. apply (forallb_elem sdEnabled PlatformUpstreamCaptureFields seed). reflexivity. Qed.

Lemma first_seed_succeeds : (SeedUpstreamCaptureFields 0 empty_catalog).1 = Ok tt.
Proof. vm_compute. reflexivity. Qed.

Lemma seeded_catalog_ok : capture_invariant (seeded_catalog 0).
Proof.
  exact (seed_fresh 0 PlatformUpstreamCaptureFields [] empty_catalog (seeded_catalog 0) empty_captures_ok
    (platform_fields_nil _) (empty_new _) platform_seeds_NoDup platform_enabled
    (eq_trans (surjective_pairing _) (f_equal (fun r => (r, seeded_catalog 0)) first_seed_succeeds))).
Qed.

Lemma capture_invariant_ops_witness :
  let ops := [CaptureCreate [1] 1 (mkCreateCapture "upstream.metadata.owner" true CaptureSourceHead
                CaptureExtractorMetadataKey "owner" TypeString);
              CaptureUpdate 2 "upstream.head.etag" (mkUpdateCapture None (Some false) None None None None);
              CaptureSeed 3; CaptureDelete "upstream.head.size"] in
  capture_invariant (fold_left (fun c o => run_capture_op o c) ops (seeded_catalog 0)).
Proof. cbv zeta. apply capture_invariant_ops. apply seeded_catalog_ok. Defined.
