(* ===== verification/Buckets.v ===== *)
(** * Buckets

    The buckets table and the operations on it: packages/storage/bucket_repository.go. *)
From S2P Require Import Prelude GoStrings JobPayload JobRuns ErrState Catalog.
Local Open Scope Z_scope.

Definition BucketUpstreamS3 : string := "s3".

Record CreateBucketParams := mkCreateBucket {
  cbName : string;
  cbUpstream : string;
  cbEndpointURL : string;
  cbRegion : string;
  cbBucketName : string;
  cbPrefix : string;
  cbUpstreamConfig : payload;
  cbEncryptedCredentials : Envelope;
  cbPithosysConfig : BucketScanConfig
}.

Record UpdateBucketParams := mkUpdateBucket {
  ubID : string;
  ubName : option string;
  ubEndpointURL : option string;
  ubRegion : option string;
  ubPrefix : option string;
  ubUpstreamConfig : option payload;
  ubEncryptedCredentials : option Envelope;
  ubPithosysConfig : option BucketScanConfig
}.

Definition DefaultBucketPithosysConfig : BucketScanConfig := mkScanConfig (Some true) "24h".

Definition pithosysConfigForCreate (config : BucketScanConfig) : BucketScanConfig :=
  if bool_decide (Enabled config = None) && String.eqb (Interval config) ""
  then DefaultBucketPithosysConfig else config.

Definition newBucketID (random : list Z) : string := "bucket_" +:+ hex_encode random.

Definition encodeUpstreamConfig (config : payload) : result store_error payload :=
  match encodeJobRunPayload config with
  | Some encoded => Ok encoded
  | None => Err (Errorf "encode bucket upstream config: %w")
  end.

(** The row as Go reads it: the upstream config is decoded. *)
Definition scanBucket (b : Bucket) : Bucket :=
  mkBucket (bID b) (bName b) (bUpstream b) (bEndpointURL b) (bRegion b) (bBucketName b) (bPrefix b)
    (decodeJobRunPayload (bUpstreamConfig b)) (bEncryptedCredentials b) (bPithosysConfig b) (bCreatedAt b) (bUpdatedAt b).

(** The checks of the table. *)
Definition bucket_row_ok (b : Bucket) : bool :=
  negb (blank (bName b)) && negb (blank (bUpstream b)) && negb (blank (bBucketName b))
  && negb (String.eqb (Nonce (bEncryptedCredentials b)) "")
  && negb (String.eqb (Ciphertext (bEncryptedCredentials b)) "").

(** The unique index on the names. *)
Definition name_taken (b : Bucket) (t : gmap string Bucket) : bool :=
  existsb (fun b' => String.eqb (bName b') (bName b) && negb (String.eqb (bID b') (bID b))) (table_rows t).

Definition CreateBucket (random : list Z) (now : Z) (params : CreateBucketParams) : M Catalog Bucket :=
  let id := newBucketID random in
  let config := pithosysConfigForCreate (cbPithosysConfig params) in
  upstreamConfig ← of_result (encodeUpstreamConfig (cbUpstreamConfig params));
  action (fun c =>
    let b := mkBucket id (cbName params) (cbUpstream params) (cbEndpointURL params) (cbRegion params)
      (cbBucketName params) (cbPrefix params) upstreamConfig (cbEncryptedCredentials params) config now now in
    if negb (bucket_row_ok b) then (Err (Failure (Errorf "violates check constraint")), c)
    else if bool_decide (is_Some (buckets c !! id)) || name_taken b (buckets c)
    then (Err (Failure (Errorf "duplicate key value")), c)
    else (Ok (scanBucket b), set_buckets (<[id := b]> (buckets c)) c)).

Definition GetBucket (id : string) : M Catalog Bucket := fun c =>
  match buckets c !! id with
  | Some b => (Ok (scanBucket b), c)
  | None => (Err (Failure ErrNotFound), c)
  end.

(** [ORDER BY created_at DESC, id DESC]. *)
Definition bucket_by_created_desc (a b : Bucket) : bool :=
  (bCreatedAt b <? bCreatedAt a) || ((bCreatedAt b =? bCreatedAt a) && String.ltb (bID b) (bID a)).

Definition ListBuckets (upstream : string) (limit offset : Z) : M Catalog (list Bucket) :=
  gets (fun c => map scanBucket (page_rows limit offset
    (select_rows (fun b => String.eqb upstream "" || String.eqb (bUpstream b) upstream)
       bucket_by_created_desc (buckets c)))).

Definition update_bucket (now : Z) (params : UpdateBucketParams) (upstreamConfig : option payload) (b : Bucket) : Bucket :=
  mkBucket (bID b) (default (bName b) (ubName params)) (bUpstream b)
    (default (bEndpointURL b) (ubEndpointURL params)) (default (bRegion b) (ubRegion params)) (bBucketName b)
    (default (bPrefix b) (ubPrefix params)) (default (bUpstreamConfig b) upstreamConfig)
    (default (bEncryptedCredentials b) (ubEncryptedCredentials params))
    (default (bPithosysConfig b) (ubPithosysConfig params)) (bCreatedAt b) now.

Definition UpdateBucket (now : Z) (params : UpdateBucketParams) : M Catalog Bucket :=
  upstreamConfig ← match ubUpstreamConfig params with
    | None => mret None
    | Some config => encoded ← of_result (encodeUpstreamConfig config); mret (Some encoded)
    end;
  action (fun c =>
    match buckets c !! ubID params with
    | None => (Err (Failure ErrNotFound), c)
    | Some b =>
        let b := update_bucket now params upstreamConfig b in
        if negb (bucket_row_ok b) then (Err (Failure (Errorf "violates check constraint")), c)
        else if name_taken b (buckets c) then (Err (Failure (Errorf "duplicate key value")), c)
        else (Ok (scanBucket b), set_buckets (<[ubID params := b]> (buckets c)) c)
    end).

(** The rows of the bucket in the other tables go with it, and with its objects
    their relations. *)
Definition delete_bucket (id : string) (c : Catalog) : Catalog :=
  let left := delete_rows (fun r => String.eqb (obucket_id r) id) (objects c) in
  mkCatalog (delete id (buckets c)) left (attribute_catalog c)
    (delete_rows (fun r =>
        negb (bool_decide (is_Some (left !! rSourceObjectID r)) && bool_decide (is_Some (left !! rTargetObjectID r))))
      (relations c))
    (delete_rows (fun e => String.eqb (eBucketID e) id) (upstream_events c)) (capture_fields c).

Definition DeleteBucket (id : string) : M Catalog unit := fun c =>
  if bool_decide (is_Some (buckets c !! id)) then (Ok tt, delete_bucket id c)
  else (Err (Failure ErrNotFound), c).
