(* ===== verification/JetStream.v ===== *)
(** * JetStream

    Which buckets have a consumer of their events: the part "jetstream" of the upstream
    configuration of a bucket (packages/storage/bucket_jetstream_config.go) and the manager
    of the consumers (apps/worker/internal/jetstreamconsumer/manager.go, NewConsumer of
    consumer.go).  A round of the manager is here one step, in which a consumer runs until it
    is cancelled; the second part has the rounds among the goroutines of the consumers;
    what a consumer does is in EventIngest.v. *)
From S2P Require Import Prelude GoStrings JobPayload JobRuns ErrState Request Managed Catalog Buckets.
Local Open Scope Z_scope.

Record BucketJetStreamConfig := mkJetStream { URL : string; Stream : string; Subject : string; Consumer : string }.
#[export] Instance BucketJetStreamConfig_eq_dec : EqDecision BucketJetStreamConfig. Proof. solve_decision. Defined.

Definition Equal (c other : BucketJetStreamConfig) : bool :=
  String.eqb (URL c) (URL other) && String.eqb (Stream c) (Stream other)
  && String.eqb (Subject c) (Subject other) && String.eqb (Consumer c) (Consumer other).

Definition DefaultJetStreamConsumerName (bucketID : string) : string := "pithosys-" +:+ bucketID.

(** [None]: the nil map, for no configuration. *)
Definition jetstreamConfigMap (config : payload) : result store_error (option payload) :=
  match config !! "jetstream" with
  | None | Some VNil => Ok None
  | Some (VMap typed) => Ok (Some typed)
  | Some _ => Err (Errorf "upstream_config.jetstream must be an object")
  end.

Definition jetstreamStringConfig (config : payload) (key : string) : result store_error string :=
  match config !! key with
  | None | Some VNil => Ok ""
  | Some (VString typed) => Ok typed
  | Some _ => Err (Errorf "upstream_config.jetstream.%s must be a string")
  end.

Definition populated (s : string) : Z := if String.eqb s "" then 0 else 1.

(** [None]: not enabled. *)
Definition ParseBucketJetStreamConfig (bucketID : string) (config : payload) : result store_error (option BucketJetStreamConfig) :=
  jetstream ← jetstreamConfigMap config;
  match jetstream with
  | None => Ok None
  | Some jetstream =>
      url ← jetstreamStringConfig jetstream "url";
      stream ← jetstreamStringConfig jetstream "stream";
      subject ← jetstreamStringConfig jetstream "subject";
      consumer ← jetstreamStringConfig jetstream "consumer";
      let url := TrimSpace url in let stream := TrimSpace stream in
      let subject := TrimSpace subject in let consumer := TrimSpace consumer in
      let n := populated url + populated stream + populated subject in
      if n =? 0 then Ok None
      else if n =? 3 then
        Ok (Some (mkJetStream url stream subject (if String.eqb consumer "" then DefaultJetStreamConsumerName bucketID else consumer)))
      else Err (Errorf "upstream_config.jetstream requires url, stream, and subject when jetstream ingest is configured")
  end.

(** ** The manager *)

(** A consumer of the events of a bucket. *)
Record JetStreamConsumer := mkConsumer { cnBucketID : string; cnURL : string; cnStream : string; cnSubject : string; cnConsumer : string }.

Definition NewConsumer (bucketID : string) (cfg : BucketJetStreamConfig) : result store_error JetStreamConsumer :=
  if String.eqb (TrimSpace bucketID) "" then Err (Errorf "create jetstream consumer: bucket id is required")
  else if String.eqb (TrimSpace (URL cfg)) "" then Err (Errorf "create jetstream consumer: nats url is required")
  else if String.eqb (TrimSpace (Stream cfg)) "" then Err (Errorf "create jetstream consumer: stream is required")
  else if String.eqb (TrimSpace (Subject cfg)) "" then Err (Errorf "create jetstream consumer: subject is required")
  else
    let consumer := TrimSpace (Consumer cfg) in
    Ok (mkConsumer (TrimSpace bucketID) (TrimSpace (URL cfg)) (TrimSpace (Stream cfg)) (TrimSpace (Subject cfg))
      (if String.eqb consumer "" then DefaultJetStreamConsumerName bucketID else consumer)).

(** The configurations of the consumers that run, by bucket. *)
Notation consumers := (gmap string BucketJetStreamConfig).

(** The buckets of a page: their configurations, and those that are invalid. *)
Definition add_bucket (acc : consumers * gset string) (bucket : Bucket) : consumers * gset string :=
  match ParseBucketJetStreamConfig (bID bucket) (bUpstreamConfig bucket) with
  | Err _ => (acc.1, {[bID bucket]} ∪ acc.2)
  | Ok (Some cfg) => (<[bID bucket := cfg]> acc.1, acc.2)
  | Ok None => acc
  end.

Section Manager.
Context `{MapOrder} (E : Surroundings Catalog).

Definition pageSize : Z := 500.

(** The loop over the pages, with fuel. *)
Fixpoint load_pages (fuel : nat) (offset : Z) (acc : consumers * gset string) : M (Server Catalog) (consumers * gset string) :=
  match fuel with
  | O => fail OutOfFuel
  | S fuel =>
      found ← statement E (fun _ => ListBuckets "" pageSize offset);
      let acc := fold_left add_bucket found acc in
      if Z.of_nat (List.length found) <? pageSize then mret acc else load_pages fuel (offset + pageSize) acc
  end.
Definition loadDesiredConfigs (fuel : nat) : M (Server Catalog) (consumers * gset string) := load_pages fuel 0 (∅, ∅).

(** A bucket of [running] that [reconcile] stops. *)
Definition stops_consumer (desired : consumers) (bucketID : string) (current : BucketJetStreamConfig) : bool :=
  match desired !! bucketID with Some cfg => negb (Equal cfg current) | None => true end.

Definition startLocked (running : consumers) (bucketID : string) (cfg : BucketJetStreamConfig) : consumers * bool :=
  match NewConsumer bucketID cfg with
  | Err _ => (running, false)
  | Ok _ => (<[bucketID := cfg]> running, true)
  end.

(** The second loop of [reconcile]: the consumers, and how many were started and left. *)
Definition start_desired (state : consumers * Z * Z) (entry : string * BucketJetStreamConfig) : consumers * Z * Z :=
  let '(running, started, unchanged) := state in
  match running !! entry.1 with
  | Some current =>
      if Equal entry.2 current then (running, started, unchanged + 1)
      else let '(running, ok) := startLocked running entry.1 entry.2 in (running, if ok : bool then started + 1 else started, unchanged)
  | None => let '(running, ok) := startLocked running entry.1 entry.2 in (running, if ok : bool then started + 1 else started, unchanged)
  end.

(** No consumer ends by itself meanwhile; the stopped ones have ended before the start. *)
Definition reconcile (running desired : consumers) : consumers * (Z * Z * Z) :=
  let stopped := Z.of_nat (List.length (List.filter (fun e => stops_consumer desired e.1 e.2) (range_map 6 running))) in
  let kept := filter (fun e => stops_consumer desired e.1 e.2 = false) running in
  let '(running, started, unchanged) := fold_left start_desired (range_map 7 desired) (kept, 0, 0) in
  (running, (started, stopped, unchanged)).

(** [sync]. *)
Definition sync (fuel : nat) (running : consumers) : M (Server Catalog) (consumers * (Z * Z * Z)) :=
  desired ← loadDesiredConfigs fuel;
  mret (reconcile running desired.1).

(** ** What to start and stop *)

Definition starts_consumer (running : consumers) (bucketID : string) (cfg : BucketJetStreamConfig) : bool :=
  match running !! bucketID with Some current => negb (Equal cfg current) | None => true end.

Definition diffJetStreamConsumers (desired running : consumers) : list string * list string * list string :=
  let entries := range_map 8 desired in
  (map fst (List.filter (fun e => starts_consumer running e.1 e.2) entries),
   map fst (List.filter (fun e => stops_consumer desired e.1 e.2) (range_map 9 running)),
   map fst (List.filter (fun e => negb (starts_consumer running e.1 e.2)) entries)).
End Manager.

(** ** Trimmed names *)

Lemma trimLeft_ind (P : string -> Prop) : P "" ->
  (forall a s, space1 a = true -> P s -> P (String a s)) ->
  (forall a b s, space1 a = false -> space2 a b = true -> P s -> P (String a (String b s))) ->
  (forall a b c s, space1 a = false -> space2 a b = false -> space3 a b c = true -> P s -> P (String a (String b (String c s)))) ->
  (forall s, s <> "" -> trimLeft s = s -> P s) -> forall s, P s.
Proof.
  intros H0 H1 H2 H3 H4 s. remember (String.length s) as n eqn:Hn. revert s Hn.
  induction n as [n IH] using lt_wf_ind. intros [|a s] Hn; [done|]. destruct (space1 a) eqn:E1.
  { apply H1; [done|]. apply (IH (String.length s)); [cbn in Hn; lia|done]. }
  destruct s as [|b s]; [apply H4; [done|]; cbn; by rewrite E1|]. destruct (space2 a b) eqn:E2.
  { apply H2; [done..|]. apply (IH (String.length s)); [cbn in Hn; lia|done]. }
  destruct s as [|c s]; [apply H4; [done|]; cbn; by rewrite E1, E2|]. destruct (space3 a b c) eqn:E3.
  - apply H3; [done..|]. apply (IH (String.length s)); [cbn in Hn; lia|done].
  - apply H4; [done|]. cbn [trimLeft]. by rewrite E1, E2, E3.
Qed.

Lemma trimLeft_idemp s : trimLeft (trimLeft s) = trimLeft s.
Proof.
  induction s as [|a s E1 IH|a b s E1 E2 IH|a b c s E1 E2 E3 IH|s Hne Hs] using trimLeft_ind; [done| | | |by rewrite Hs].
  - cbn [trimLeft]. by rewrite E1.
  - cbn [trimLeft]. by rewrite E1, E2.
  - cbn [trimLeft]. by rewrite E1, E2, E3.
Qed.

Lemma trimLeft_blank a s : trimLeft a = "" -> trimLeft (a +:+ s) = trimLeft s.
Proof.
  induction a as [|x a E1 IH|x y a E1 E2 IH|x y z a E1 E2 E3 IH|a Hne Ha] using trimLeft_ind; [done| | | |congruence].
  - cbn [trimLeft String.append]. rewrite E1. exact IH.
  - cbn [trimLeft String.append]. rewrite E1, E2. exact IH.
  - cbn [trimLeft String.append]. rewrite E1, E2, E3. exact IH.
Qed.

Lemma trimRight_rest s : exists rest, s = trimRight s +:+ rest /\ trimLeft rest = "".
Proof.
  induction s as [|c s [rest [Hs Hr]]]; [by exists ""|]. cbn [trimRight]. destruct (String.eqb_spec (trimLeft (String c s)) "") as [E|_].
  - by exists (String c s).
  - exists rest. split; [|done]. cbn [String.append]. by rewrite <- Hs.
Qed.

Lemma trimRight_blank s : trimRight s = "" -> trimLeft s = "".
Proof. destruct (trimRight_rest s) as (rest & Hs & Hr). intros E. rewrite E in Hs. cbn in Hs. by subst. Qed.

Lemma TrimSpace_again s : TrimSpace s <> "" -> TrimSpace (TrimSpace s) <> "".
Proof.
  intros Hne H%trimRight_blank. rewrite trimLeft_idemp in H. unfold TrimSpace in *. destruct (trimRight_rest (trimLeft s)) as (rest & Hs & Hr).
  apply Hne. assert (trimLeft (trimLeft s) = "") as E by (rewrite Hs, trimLeft_blank by done; exact Hr). rewrite trimLeft_idemp in E. by rewrite E.
Qed.

(** ** Reconciling *)

Lemma config_Equal_iff c c' : Equal c c' = true <-> c = c'.
Proof.
  unfold Equal. rewrite !andb_true_iff, !String.eqb_eq. destruct c, c'; cbn. split; [intros [[[-> ->] ->] ->]; done|by intros [= -> -> -> ->]].
Qed.

Definition startable (bucketID : string) (cfg : BucketJetStreamConfig) : Prop := is_ok (NewConsumer bucketID cfg) = true.

Lemma start_desired_eq running s u id cfg : startable id cfg ->
  start_desired (running, s, u) (id, cfg) =
    if starts_consumer running id cfg then (<[id := cfg]> running, s + 1, u) else (<[id := cfg]> running, s, u + 1).
Proof.
  unfold startable. intros Hs. unfold start_desired, starts_consumer, startLocked. cbn [fst snd]. destruct (NewConsumer id cfg); [|done].
  destruct (running !! id) as [current|] eqn:Hr; [|done]. destruct (Equal cfg current) eqn:He; cbn; [|done].
  apply config_Equal_iff in He as <-. by rewrite insert_id.
Qed.

Lemma start_desired_fold l : NoDup l.*1 -> Forall (fun e => startable e.1 e.2) l -> forall running s u,
  fold_left start_desired l (running, s, u) =
    (list_to_map l ∪ running, s + Z.of_nat (List.length (List.filter (fun e => starts_consumer running e.1 e.2) l)),
     u + Z.of_nat (List.length (List.filter (fun e => negb (starts_consumer running e.1 e.2)) l))).
Proof.
  induction l as [|[id cfg] l IH]; intros Hnd Hs running s u; cbn [fold_left].
  { cbn. rewrite (left_id_L ∅ (∪)). by rewrite !Z.add_0_r. }
  inversion_clear Hs as [|? ? Hid Hs']. cbn in Hnd. apply list.NoDup_cons in Hnd as [Hnin Hnd]. rewrite start_desired_eq by done.
  assert (forall e, In e l -> starts_consumer (<[id := cfg]> running) e.1 e.2 = starts_consumer running e.1 e.2) as Hsame.
  { intros e He. unfold starts_consumer. rewrite lookup_insert_ne; [done|]. intros ->. apply Hnin, list_elem_of_fmap. exists e. split; [done|]. by apply list_elem_of_In. }
  assert (list_to_map l ∪ <[id := cfg]> running = list_to_map ((id, cfg) :: l) ∪ running) as Hmap.
  { cbn. rewrite <- insert_union_l. rewrite insert_union_r; [done|]. by apply not_elem_of_list_to_map. }
  assert (List.filter (fun e => starts_consumer (<[id := cfg]> running) e.1 e.2) l = List.filter (fun e => starts_consumer running e.1 e.2) l) as H1
    by (by apply filter_ext_in).
  assert (List.filter (fun e => negb (starts_consumer (<[id := cfg]> running) e.1 e.2)) l = List.filter (fun e => negb (starts_consumer running e.1 e.2)) l) as H2
    by (apply filter_ext_in; intros e He; by rewrite Hsame).
  cbn [List.filter fst snd]. destruct (starts_consumer running id cfg); rewrite IH, Hmap, H1, H2 by done; cbn [negb List.length];
    repeat lazymatch goal with |- (_, _) = (_, _) => apply f_equal2 end; first [reflexivity | lia].
Qed.

Section Reconcile.
Context `{MapOrder}.

Lemma range_to_map {A} n (m : gmap string A) : list_to_map (range_map n m) = m.
Proof.
  apply map_eq. intros i. apply option_eq. intros a. rewrite <- elem_of_list_to_map by apply range_map_NoDup. apply elem_of_range_map.
Qed.

(** Reconciling makes the running consumers exactly the desired ones, and starts, stops and
    leaves alone as many as [diffJetStreamConsumers] tells. *)
Lemma reconcile_spec running desired : (forall id cfg, desired !! id = Some cfg -> startable id cfg) ->
  reconcile running desired =
    let '(toStart, toStop, unchanged) := diffJetStreamConsumers desired running in
    (desired, (Z.of_nat (List.length toStart), Z.of_nat (List.length toStop), Z.of_nat (List.length unchanged))).
Proof.
  intros Hs. unfold reconcile, diffJetStreamConsumers. cbv zeta. set (kept := filter _ running).
  assert (Forall (fun e => startable e.1 e.2) (range_map 7 desired)) as Hall.
  { apply list.Forall_forall. intros [id cfg] He. apply elem_of_range_map in He. by apply Hs. }
  rewrite start_desired_fold by (done || apply range_map_NoDup). rewrite range_to_map.
  assert (desired ∪ kept = desired) as ->.
  { apply map_eq. intros id. destruct (desired !! id) as [cfg|] eqn:Hd; [by rewrite (lookup_union_Some_l _ _ _ cfg)|].
    rewrite lookup_union_r by done. unfold kept. apply map_lookup_filter_None. right. intros current _. unfold stops_consumer. cbn. by rewrite Hd. }
  assert (forall e, In e (range_map 7 desired) -> starts_consumer kept e.1 e.2 = starts_consumer running e.1 e.2) as Hk.
  { intros [id cfg] He%list_elem_of_In%elem_of_range_map. cbn [fst snd]. unfold starts_consumer, kept. destruct (running !! id) as [current|] eqn:Hr.
    - destruct (Equal cfg current) eqn:E.
      + rewrite (proj2 (map_lookup_filter_Some _ _ id current)); [by rewrite E|]. split; [done|]. unfold stops_consumer. cbn. by rewrite He, E.
      + rewrite (proj2 (map_lookup_filter_None _ _ id)); [done|]. right. intros x Hx. rewrite Hr in Hx. injection Hx as <-.
        unfold stops_consumer. cbn. by rewrite He, E.
    - rewrite (proj2 (map_lookup_filter_None _ _ id)); [done|]. by left. }
  rewrite (List.filter_ext_in _ (fun e => starts_consumer running e.1 e.2) _ Hk).
  rewrite (List.filter_ext_in (fun e => negb (starts_consumer kept e.1 e.2)) (fun e => negb (starts_consumer running e.1 e.2)))
    by (intros e He; by rewrite Hk).
  rewrite !length_map. repeat lazymatch goal with |- (_, _) = (_, _) => apply f_equal2 end; try reflexivity;
    rewrite ?Z.add_0_l; f_equal; apply Permutation_length, filter_Permutation, range_map_perm.
Qed.
End Reconcile.

Lemma parsed_startable id config cfg : TrimSpace id <> "" -> ParseBucketJetStreamConfig id config = Ok (Some cfg) -> startable id cfg.
Proof.
  intros Hid. unfold ParseBucketJetStreamConfig. destruct (jetstreamConfigMap config) as [[jetstream|]|]; cbn; try done.
  destruct (jetstreamStringConfig jetstream "url") as [url|]; cbn; [|done]. destruct (jetstreamStringConfig jetstream "stream") as [stream|]; cbn; [|done].
  destruct (jetstreamStringConfig jetstream "subject") as [subject|]; cbn; [|done]. destruct (jetstreamStringConfig jetstream "consumer") as [consumer|]; cbn; [|done].
  destruct (_ =? 0); [done|]. destruct (_ =? 3) eqn:E3; [|done]. intros [= <-]. unfold startable, NewConsumer, populated in *. cbn [URL Stream Subject].
  destruct (String.eqb_spec (TrimSpace url) "") as [|H1]; [repeat case_match; lia|].
  destruct (String.eqb_spec (TrimSpace stream) "") as [|H2]; [repeat case_match; lia|].
  destruct (String.eqb_spec (TrimSpace subject) "") as [|H3]; [repeat case_match; lia|].
  apply TrimSpace_again in H1, H2, H3. apply String.eqb_neq in H1, H2, H3, Hid. by rewrite Hid, H1, H2, H3.
Qed.

(** ** Loading *)

Section Load.
Context `{MapOrder} (E : Surroundings Catalog).
Hypothesis quiet : quiet_server E.

Definition bucket_list (c : Catalog) : list Bucket := map scanBucket (select_rows (fun _ => true) bucket_by_created_desc (buckets c)).

Lemma page_of c offset : 0 <= offset ->
  (ListBuckets "" pageSize offset c) = (Ok (firstn 500 (skipn (Z.to_nat offset) (bucket_list c))), c).
Proof.
  intros Ho. unfold ListBuckets, gets, page_rows, bucket_list. rewrite skipn_map, firstn_map. change (Z.to_nat (clamp_limit pageSize)) with 500%nat.
  destruct (Z.ltb_spec offset 0); [lia|]. done.
Qed.

Lemma load_pages_quiet c : forall fuel offset n acc, 0 <= offset -> (Z.to_nat offset <= List.length (bucket_list c))%nat ->
  (List.length (bucket_list c) < Z.to_nat offset + 500 * fuel)%nat ->
  exists n', load_pages E fuel offset acc (mkServer n c) =
    (Ok (fold_left add_bucket (skipn (Z.to_nat offset) (bucket_list c)) acc), mkServer n' c).
Proof.
  induction fuel as [|fuel IH]; intros offset n acc Ho Hle Hf; [lia|]. cbn [load_pages]. rewrite bind_run, statement_quiet by done.
  rewrite page_of by done. cbn [fst snd]. set (rest := skipn (Z.to_nat offset) (bucket_list c)).
  assert (List.length rest = List.length (bucket_list c) - Z.to_nat offset)%nat as Hlen by apply length_skipn.
  destruct (Z.of_nat (List.length (firstn 500 rest)) <? pageSize) eqn:Hp; rewrite length_firstn in Hp; unfold pageSize in *.
  - apply Z.ltb_lt in Hp. assert (List.length rest <= 500)%nat as Hshort by (clear - Hp; lia). rewrite firstn_all2 by exact Hshort. by eexists.
  - apply Z.ltb_ge in Hp. assert (500 <= List.length rest)%nat by (clear - Hp; lia).
    destruct (IH (offset + 500) (S n) (fold_left add_bucket (firstn 500 rest) acc)) as [n' ->]; [lia..|].
    rewrite <- fold_left_app. exists n'. do 3 f_equal. unfold rest.
    replace (Z.to_nat (offset + 500)) with (500 + Z.to_nat offset)%nat by lia. rewrite <- skipn_skipn. apply firstn_skipn.
Qed.

(** The buckets that are enabled, and those whose configuration is invalid. *)
Lemma add_buckets_lookup l : NoDup (map bID l) -> forall acc, (forall b, b ∈ l -> acc.1 !! bID b = None) -> forall id cfg,
  (fold_left add_bucket l acc).1 !! id = Some cfg <->
  acc.1 !! id = Some cfg \/ exists b, b ∈ l /\ bID b = id /\ ParseBucketJetStreamConfig id (bUpstreamConfig b) = Ok (Some cfg).
Proof.
  induction l as [|b l IH]; intros Hnd acc Hacc id cfg; cbn [fold_left]; [split; [by left|intros [?|(b & Hb & _)]; [done|set_solver]]|].
  cbn in Hnd. apply list.NoDup_cons in Hnd as [Hnin Hnd]. rewrite IH; [|done|].
  - unfold add_bucket. destruct (ParseBucketJetStreamConfig (bID b) (bUpstreamConfig b)) as [[cfg'|]|e] eqn:Hp; cbn [fst].
    + rewrite lookup_insert_Some. split.
      * intros [[[<- <-]|[Hne Hl]]|(b' & Hb' & Hid & Hparse)]; [right; exists b; set_solver|by left|right; exists b'; set_solver].
      * intros [Hl|(b' & [->|Hb']%elem_of_cons & <- & Hparse)].
        -- left. right. split; [|done]. intros <-. rewrite Hacc in Hl; [done|set_solver].
        -- left. left. split; [done|]. congruence.
        -- right. by exists b'.
    + split; [intros [?|(b' & ? & ? & ?)]; [by left|right; exists b'; set_solver]|].
      intros [?|(b' & [->|Hb']%elem_of_cons & <- & Hparse)]; [by left|congruence|right; by exists b'].
    + split; [intros [?|(b' & ? & ? & ?)]; [by left|right; exists b'; set_solver]|].
      intros [?|(b' & [->|Hb']%elem_of_cons & <- & Hparse)]; [by left|congruence|right; by exists b'].
  - intros b' Hb'. unfold add_bucket. destruct (ParseBucketJetStreamConfig _ _) as [[cfg'|]|e]; cbn [fst]; [|apply Hacc; set_solver..].
    rewrite lookup_insert_ne; [apply Hacc; set_solver|]. intros E0. apply Hnin. rewrite E0. by apply list_elem_of_fmap_2.
Qed.

Lemma bucket_list_spec c : (forall id b, buckets c !! id = Some b -> bID b = id) ->
  NoDup (map bID (bucket_list c)) /\ (List.length (bucket_list c) = size (buckets c)) /\
  forall b, b ∈ bucket_list c <-> exists id b', buckets c !! id = Some b' /\ b = scanBucket b'.
Proof.
  intros Hk. unfold bucket_list, select_rows. rewrite map_map.
  assert (forall l : list Bucket, List.filter (fun _ => true) l = l) as Hf by (induction l; cbn; congruence). split_and!.
  - rewrite (sort_by_perm bucket_by_created_desc). rewrite Hf. unfold table_rows. rewrite (map_ext _ bID) by done.
    assert (forall l : list (string * Bucket), Forall (fun e => bID e.2 = e.1) l -> map bID l.*2 = l.*1) as Hkeys by (induction 1; cbn; congruence).
    rewrite Hkeys; [apply NoDup_fst_map_to_list|]. apply list.Forall_forall. intros [id b] Hb%elem_of_map_to_list. by apply Hk.
  - rewrite length_map, (sort_by_perm bucket_by_created_desc), Hf. unfold table_rows. by rewrite length_fmap, length_map_to_list.
  - intros b. rewrite list_elem_of_In, in_map_iff. split.
    + intros (b' & <- & Hb). apply list_elem_of_In in Hb. rewrite (sort_by_perm bucket_by_created_desc), Hf in Hb.
      apply elem_of_table_rows in Hb as [id Hb]. by exists id, b'.
    + intros (id & b' & Hb & ->). exists b'. split; [done|]. apply list_elem_of_In. rewrite (sort_by_perm bucket_by_created_desc), Hf.
      apply elem_of_table_rows. by exists id.
Qed.

(** What is loaded: the configurations of the buckets that enable one. *)
Lemma loaded_configs fuel n c :
  (forall id b, buckets c !! id = Some b -> bID b = id /\ TrimSpace id <> "") -> (size (buckets c) < 500 * fuel)%nat ->
  exists desired parseErrors w', loadDesiredConfigs E fuel (mkServer n c) = (Ok (desired, parseErrors), w') /\
    forall id cfg, desired !! id = Some cfg <-> exists b, buckets c !! id = Some b /\
      ParseBucketJetStreamConfig id (decodeJobRunPayload (bUpstreamConfig b)) = Ok (Some cfg).
Proof.
  intros Hk Hf. destruct (bucket_list_spec c) as (Hnd & Hlen & Hin); [intros id b Hb; by apply Hk|]. unfold loadDesiredConfigs.
  destruct (load_pages_quiet c fuel 0 n (∅, ∅)) as [n' ->]; [lia..|]. change (skipn (Z.to_nat 0) (bucket_list c)) with (bucket_list c).
  destruct (fold_left add_bucket (bucket_list c) (∅, ∅)) as [desired parseErrors] eqn:Hd. exists desired, parseErrors, (mkServer n' c).
  split; [done|]. intros id cfg. replace desired with (fold_left add_bucket (bucket_list c) (∅, ∅)).1 by (by rewrite Hd).
  rewrite add_buckets_lookup by done. cbn [fst]. rewrite lookup_empty. split.
  - intros [|(b & Hb & Hid & Hp)]; [done|]. apply Hin in Hb as (id' & b' & Hb & ->). exists b'.
    assert (bID b' = id') as Hid' by (by apply Hk). cbn in Hid, Hp. by subst.
  - intros (b & Hb & Hp). right. exists (scanBucket b). split; [apply Hin; by exists id, b|]. split; [|exact Hp]. exact (proj1 (Hk id b Hb)).
Qed.

(** A round of the manager makes the running consumers exactly those of the buckets whose
    configuration enables one, whatever ran before and however many pages the buckets fill, and
    starts, stops and leaves alone as many as [diffJetStreamConsumers] tells. *)
Theorem sync_runs_enabled fuel running n c :
  (forall id b, buckets c !! id = Some b -> bID b = id /\ TrimSpace id <> "") -> (size (buckets c) < 500 * fuel)%nat ->
  exists desired w', sync E fuel running (mkServer n c) =
      (Ok (desired, let '(toStart, toStop, unchanged) := diffJetStreamConsumers desired running in
         (Z.of_nat (List.length toStart), Z.of_nat (List.length toStop), Z.of_nat (List.length unchanged))), w') /\
    forall id cfg, desired !! id = Some cfg <-> exists b, buckets c !! id = Some b /\
      ParseBucketJetStreamConfig id (decodeJobRunPayload (bUpstreamConfig b)) = Ok (Some cfg).
Proof.
  intros Hk Hf. destruct (loaded_configs fuel n c Hk Hf) as (desired & parseErrors & w' & Hload & Hd).
  exists desired, w'. split; [|exact Hd]. unfold sync. rewrite bind_run, Hload. unfold mret, M_ret. f_equal. f_equal. cbn [fst]. rewrite reconcile_spec.
  - destruct (diffJetStreamConsumers desired running) as [[? ?] ?]. done.
  - intros id cfg (b & Hb & Hp)%Hd. exact (parsed_startable id _ _ (proj2 (Hk id b Hb)) Hp).
Qed.
End Load.

(** ** A round *)

Definition quiet_catalog : Surroundings Catalog :=
  mkSurroundings (fun _ t => t) (fun _ => None) (fun n => Z.of_nat n) (fun n => GoTime.mkTime (Z.of_nat n) 0 0) (fun _ count => repeat 0 count).
Definition key_order : MapOrder := {| range_keys := fun _ l => l; range_keys_perm := fun _ l => Permutation_refl _ |}.
Definition demo_jetstream_bucket : Bucket :=
  mkBucket "b1" "mine" "s3" "" "" "bucket" ""
    {["jetstream" := VMap {["url" := VString "nats://n"; "stream" := VString "s"; "subject" := VString "x"]}]}
    (mkEnvelope "k" "a" "n" "c") (mkScanConfig None "") 0 0.
Definition demo_jetstream_catalog : Catalog := set_buckets {["b1" := demo_jetstream_bucket]} empty_catalog.

Lemma sync_runs_enabled_witness :
  exists desired counts w', sync (H := key_order) quiet_catalog 1 {["b2" := mkJetStream "u" "s" "x" "c"]} (mkServer 0 demo_jetstream_catalog) = (Ok (desired, counts), w') /\
    desired !! "b1" = Some (mkJetStream "nats://n" "s" "x" "pithosys-b1").
Proof.
  destruct (sync_runs_enabled (H := key_order) quiet_catalog) with (fuel := 1%nat) (running := {["b2" := mkJetStream "u" "s" "x" "c"]} : gmap string BucketJetStreamConfig)
    (n := 0%nat) (c := demo_jetstream_catalog) as (desired & w' & Hs & Hd).
  - by split.
  - intros id b Hb. change (({["b1" := demo_jetstream_bucket]} : gmap string Bucket) !! id = Some b) in Hb. by apply lookup_singleton_Some in Hb as [<- <-].
  - vm_compute. lia.
  - eexists desired, _, w'. split; [exact Hs|]. apply Hd. exists demo_jetstream_bucket. split; [reflexivity|by vm_compute].
Defined.

(** * The loop of the manager

    The loop of the manager of the JetStream consumers
    (apps/worker/internal/jetstreamconsumer/manager.go: [Run], [sync], [reconcile],
    [startLocked], [removeRunning], [stopAll]) as the instance of the machine of Managed.v
    whose rounds load the configurations of the buckets.  A consumer may end at any time, by
    itself or because it was cancelled.  [reconcile] of the first part, which computes the round
    as a function, is shown to be what the machine does. *)

(** A consumer is kept when its configuration is the desired one; [NewConsumer] may refuse a
    configuration. *)
Definition consumer_made (bucketID : string) (cfg : BucketJetStreamConfig) : bool :=
  is_ok (NewConsumer bucketID cfg).

#[export] Program Instance managed_consumer : Managed BucketJetStreamConfig := {
  same := Equal;
  makes := consumer_made
}.
Next Obligation. intros c c'. apply config_Equal_iff. Qed.

Section Manager.
Context (E : Surroundings Catalog).

(** A round: the configurations are loaded from the database as it is then, among other
    requests. *)
Definition manager_round (desired : gmap string BucketJetStreamConfig) : Prop :=
  exists fuel w w' parseErrors, loadDesiredConfigs E fuel w = (Ok (desired, parseErrors), w').

Definition manager_step : machine BucketJetStreamConfig -> machine BucketJetStreamConfig -> Prop := step manager_round.
Definition manager_reachable : machine BucketJetStreamConfig -> Prop := reachable manager_round.

(** The configurations of what is registered. *)
Definition running_configs (s : machine BucketJetStreamConfig) : gmap string BucketJetStreamConfig :=
  omap (fun i => mConfig <$> goroutines s !! i) (register s).

Lemma running_configs_lookup s id : running_configs s !! id = config_at (register s) (goroutines s) id.
Proof. unfold running_configs, config_at. by rewrite lookup_omap. Qed.

End Manager.

(** ** The refinement of [reconcile] *)

Section Refinement.
Context `{MapOrder} (E : Surroundings Catalog).

(** The register at the end of a round, whatever ended meanwhile, is the one that
    [reconcile] computes from any consumers that ran before. *)
Lemma round_refines_reconcile s s' running desired : manager_reachable E s -> manager_step E s s' ->
  loop s = Waiting [] desired -> loop s' = Idle -> (forall id cfg, desired !! id = Some cfg -> startable id cfg) ->
  running_configs s' = (reconcile running desired).1.
Proof.
  intros Hr Hstep Hl Hl' Hstart. pose proof (machine_reachable_ok _ s Hr) as Hs.
  assert ((reconcile running desired).1 = desired) as ->.
  { rewrite reconcile_spec by done. by destruct (diffJetStreamConsumers desired running) as [[? ?] ?]. }
  apply map_eq. intros id. rewrite running_configs_lookup, (round_end _ s s' desired Hs Hstep Hl Hl' id).
  destruct (desired !! id) as [cfg|] eqn:Hd; cbn; [|done]. unfold consumer_made. by rewrite (Hstart id cfg Hd).
Qed.

(** C36: the consumers under every interleaving: at most one consumer of a bucket runs at
    any time, a cancelled one included; none runs once the manager has stopped because its
    context was cancelled; and when a round that loaded the buckets of a database ends, the
    registered consumers are exactly those of the buckets that enable one, with the
    configuration stored, whatever ended by itself meanwhile. *)
Theorem consumers_follow_buckets s :
  manager_reachable E s ->
  (forall i j w w', goroutines s !! i = Some w -> goroutines s !! j = Some w' -> mPhase w = Running -> mPhase w' = Running ->
     mName w = mName w' -> i = j) /\
  (loop s = Left -> forall i w, goroutines s !! i = Some w -> mPhase w <> Running) /\
  (forall s' desired parseErrors fuel n c w, manager_step E s s' -> loop s = Waiting [] desired -> loop s' = Idle ->
     quiet_server E -> (forall id b, buckets c !! id = Some b -> bID b = id /\ TrimSpace id <> "") -> (size (buckets c) < 500 * fuel)%nat ->
     loadDesiredConfigs E fuel (mkServer n c) = (Ok (desired, parseErrors), w) ->
     forall id cfg, running_configs s' !! id = Some cfg <-> exists b, buckets c !! id = Some b /\
       ParseBucketJetStreamConfig id (decodeJobRunPayload (bUpstreamConfig b)) = Ok (Some cfg)).
Proof.
  intros Hr. pose proof (machine_reachable_ok _ s Hr) as Hs. split_and!.
  - intros i j w w' Hw Hw' Hp Hp'. by apply (one_per_name s); [..|left|left].
  - intros Hl i w Hw Hp. apply (left_none_live s i w Hs Hl Hw). by left.
  - intros s' desired parseErrors fuel n c w Hstep Hl Hl' Hq Hk Hf Hload id cfg.
    destruct (loaded_configs E Hq fuel n c Hk Hf) as (desired' & parseErrors' & w' & Hload' & Hd). rewrite Hload in Hload'. injection Hload' as <- <- <-.
    rewrite <- Hd, running_configs_lookup, (round_end _ s s' desired Hs Hstep Hl Hl' id). destruct (desired !! id) as [cfg'|] eqn:Hdi; cbn; [|done].
    apply Hd in Hdi as (b & Hb & Hp). unfold consumer_made. by rewrite (parsed_startable id _ cfg' (proj2 (Hk id b Hb)) Hp).
Qed.
End Refinement.

(** ** A round that starts a consumer *)

Definition demo_config : BucketJetStreamConfig := mkJetStream "nats://n" "s" "x" "pithosys-b1".
Definition demo_waiting : machine BucketJetStreamConfig := mkMachine ∅ [] (Waiting [] {["b1" := demo_config]}) false.
Definition demo_running : machine BucketJetStreamConfig :=
  mkMachine {["b1" := 0%nat]} [mkManaged "b1" demo_config false Running] Idle false.

Lemma demo_load : exists parseErrors w, loadDesiredConfigs quiet_catalog 1 (mkServer 0 demo_jetstream_catalog) = (Ok ({["b1" := demo_config]}, parseErrors), w).
Proof. eexists _, _. vm_compute. reflexivity. Qed.

Lemma demo_rounds : manager_reachable quiet_catalog demo_waiting /\ manager_step quiet_catalog demo_waiting demo_running.
Proof.
  split.
  - apply rtc_once. left. pose proof (step_cancel (manager_round quiet_catalog) ∅ [] false {["b1" := demo_config]} []) as Hstep.
    rewrite !map_filter_empty in Hstep. apply Hstep; [|exact (Permutation_refl [])].
    destruct demo_load as (parseErrors & w & Hload). by exists 1%nat, (mkServer 0 demo_jetstream_catalog), w, parseErrors.
  - apply (step_start _ ∅ [] false _ [("b1", demo_config)]); [by rewrite map_to_list_singleton|vm_compute; reflexivity].
Qed.

Lemma consumers_follow_buckets_witness :
  manager_reachable quiet_catalog demo_waiting /\ running_configs demo_running !! "b1" = Some demo_config.
Proof.
  split; [exact (proj1 demo_rounds)|]. destruct demo_load as (parseErrors & w & Hload).
  apply (proj2 (proj2 (consumers_follow_buckets quiet_catalog demo_waiting (proj1 demo_rounds))) demo_running _ parseErrors 1%nat 0%nat
    demo_jetstream_catalog w (proj2 demo_rounds) eq_refl eq_refl).
  - by split.
  - intros id b Hb. change (({["b1" := demo_jetstream_bucket]} : gmap string Bucket) !! id = Some b) in Hb. by apply lookup_singleton_Some in Hb as [<- <-].
  - vm_compute. lia.
  - exact Hload.
  - exists demo_jetstream_bucket. split; [reflexivity|by vm_compute].
Defined.
