(* ===== verification/WorkerRun.v ===== *)
(** * WorkerRun

    [Supervisor.Run] (apps/worker/internal/supervisor/supervisor.go): it starts the four
    components of a worker, the job runner, the processor of upstream events, the manager of
    the JetStream consumers and the loop of the supervisor, under one context, and collects
    what they return from the channel [errCh].  The two loops are those of
    JetStream.v and Supervisor.v; the job runner and the processor return at any time
    with an error ([Run] of each returns only an error of the database or that of the
    context).  The settings are refreshed once before; when that fails nothing is started. *)
From S2P Require Import Prelude JobRuns Catalog Request Settings JetStream Managed Supervisor.
Local Open Scope nat_scope.

Inductive component := JobRunner | UpstreamProcessor | ConsumerManager | SupervisorLoop.
#[export] Instance component_eq_dec : EqDecision component. Proof. solve_decision. Defined.
Definition components : list component := [JobRunner; UpstreamProcessor; ConsumerManager; SupervisorLoop].

(** [sent]: the components that have returned and sent their error to [errCh], in this
    order; [received]: how many of them [Run] has received; [runErr]: its variable. *)
Record worker_run := mkRun {
  jobRunner : option loop_error;
  upstreamProcessor : option loop_error;
  consumerManager : machine BucketJetStreamConfig;
  supervisorLoop : machine unit;
  context : bool;
  sent : list component;
  received : nat;
  runErr : option loop_error
}.

Definition run_started : worker_run := mkRun None None Managed.start Managed.start false [] 0 None.

(** What the [Run] of a component has returned. *)
Definition component_result (s : worker_run) (c : component) : option loop_error :=
  match c with
  | JobRunner => jobRunner s
  | UpstreamProcessor => upstreamProcessor s
  | ConsumerManager => returned (consumerManager s)
  | SupervisorLoop => returned (supervisorLoop s)
  end.

(** [if err := <-errCh; err != nil && !errors.Is(err, context.Canceled) { runErr = err }]. *)
Definition receive (runErr err : option loop_error) : option loop_error :=
  match err with Some (Broken message) => Some (Broken message) | _ => runErr end.

Section Run.
Context (E : Surroundings Catalog).

Inductive run_step : worker_run -> worker_run -> Prop :=
(* a component returns; the error of the context only when that is cancelled *)
| run_runner p m l k sent n e err : (err = Canceled -> k = true) ->
    run_step (mkRun None p m l k sent n e) (mkRun (Some err) p m l k sent n e)
| run_processor r m l k sent n e err : (err = Canceled -> k = true) ->
    run_step (mkRun r None m l k sent n e) (mkRun r (Some err) m l k sent n e)
| run_manager r p m m' l k sent n e : manager_step E m m' ->
    run_step (mkRun r p m l k sent n e) (mkRun r p m' l k sent n e)
| run_supervisor r p m l l' k sent n e : supervisor_step l l' ->
    run_step (mkRun r p m l k sent n e) (mkRun r p m l' k sent n e)
(* a signal cancels the context *)
| run_context r p m l k sent n e :
    run_step (mkRun r p m l k sent n e) (mkRun r p (cancel_context m) (cancel_context l) true sent n e)
(* errCh <- err: the channel has room for all four *)
| run_send s c err : component_result s c = Some err -> c ∉ sent s ->
    run_step s (mkRun (jobRunner s) (upstreamProcessor s) (consumerManager s) (supervisorLoop s) (context s) (sent s ++ [c]) (received s) (runErr s))
(* <-errCh *)
| run_receive s c : sent s !! received s = Some c -> received s < 4 ->
    run_step s (mkRun (jobRunner s) (upstreamProcessor s) (consumerManager s) (supervisorLoop s) (context s) (sent s) (S (received s))
      (receive (runErr s) (component_result s c))).

Definition run_reachable : worker_run -> Prop := rtc run_step run_started.

(** [Run] has returned. *)
Definition run_returned (s : worker_run) : Prop := received s = 4.

(** ** The invariant *)

(** The error that is kept of those received. *)
Definition kept_error (s : worker_run) (cs : list component) : option loop_error :=
  fold_left (fun e c => receive e (component_result s c)) cs None.

Record run_ok (s : worker_run) : Prop := {
  rk_manager : machine_ok (consumerManager s);
  rk_supervisor : machine_ok (supervisorLoop s);
  rk_context : ctxDone (consumerManager s) = context s /\ ctxDone (supervisorLoop s) = context s;
  rk_canceled c : component_result s c = Some Canceled -> context s = true;
  rk_sent : NoDup (sent s) /\ forall c, c ∈ sent s -> is_Some (component_result s c);
  rk_received : received s <= List.length (sent s) /\ received s <= 4;
  rk_error : runErr s = kept_error s (firstn (received s) (sent s))
}.

Lemma run_started_ok : run_ok run_started.
Proof.
  split; [apply machine_start_ok|apply machine_start_ok|done|by intros []| |cbn; lia|done].
  split; [constructor|]. by intros c ?%not_elem_of_nil.
Qed.

(** The steps of a machine leave its context alone, and what it has returned. *)
Lemma step_context {C} `{Managed C} round (s s' : machine C) : Managed.step round s s' -> ctxDone s' = ctxDone s.
Proof. by destruct 1. Qed.
Lemma step_returned {C} `{Managed C} round (s s' : machine C) err : Managed.step round s s' -> returned s = Some err -> returned s' = Some err.
Proof. by destruct 1. Qed.
Lemma returned_canceled {C} `{Managed C} (s : machine C) : machine_ok s -> returned s = Some Canceled -> ctxDone s = true.
Proof.
  intros Hs. pose proof (ok_leaving s Hs) as Hl. unfold returned. destruct (loop s) as [| | | |[]]; try done. by intros _; apply Hl.
Qed.

(** A step in which components only return something keeps the invariant of the channel. *)
Lemma results_grow s s' : run_ok s -> sent s' = sent s -> received s' = received s -> runErr s' = runErr s ->
  (forall c err, component_result s c = Some err -> component_result s' c = Some err) ->
  machine_ok (consumerManager s') -> machine_ok (supervisorLoop s') ->
  ctxDone (consumerManager s') = context s' /\ ctxDone (supervisorLoop s') = context s' ->
  (forall c, component_result s' c = Some Canceled -> context s' = true) -> run_ok s'.
Proof.
  intros Hs Hsent Hrec Herr Hgrow Hm Hl Hk Hc. split; rewrite ?Hsent, ?Hrec, ?Herr; try done; try apply Hs.
  - split; [apply Hs|]. intros c Hin. destruct (proj2 (rk_sent s Hs) c Hin) as [err Hr]. exists err. by apply Hgrow.
  - rewrite (rk_error s Hs). unfold kept_error. pose proof (proj2 (rk_sent s Hs)) as Hin.
    assert (forall c, c ∈ firstn (received s) (sent s) -> component_result s' c = component_result s c) as Heq.
    { intros c Hc'. apply elem_of_take in Hc' as (i & Hc' & _). destruct (Hin c) as [err Hr]; [by eapply list_elem_of_lookup_2|]. rewrite Hr. by apply Hgrow. }
    revert Heq. generalize (@None loop_error) as e. induction (firstn (received s) (sent s)) as [|c cs IH]; intros e Heq; cbn; [done|].
    rewrite (Heq c) by left. apply IH. intros c' Hc'. apply Heq. by right.
Qed.

Lemma run_step_ok s s' : run_step s s' -> run_ok s -> run_ok s'.
Proof.
  destruct 1 as [p m l k sent n e err Herr|r m l k sent n e err Herr|r p m m' l k sent n e Hstep|r p m l l' k sent n e Hstep|r p m l k sent n e
    |s c err Hc Hnin|s c Hc Hlt]; intros Hs.
  1-5: pose proof (rk_manager _ Hs) as Hm; pose proof (rk_supervisor _ Hs) as Hl; destruct (rk_context _ Hs) as [Hk1 Hk2];
    pose proof (rk_canceled _ Hs) as Hcan; cbn [consumerManager supervisorLoop context] in *;
    (eapply results_grow; [exact Hs|done|done|done|..]); cbn [consumerManager supervisorLoop context]; try done.
  - by intros [] err'.
  - intros []; cbn; [by intros [= ->]; apply Herr|apply (Hcan UpstreamProcessor)|apply (Hcan ConsumerManager)|apply (Hcan SupervisorLoop)].
  - by intros [] err'.
  - intros []; cbn; [apply (Hcan JobRunner)|by intros [= ->]; apply Herr|apply (Hcan ConsumerManager)|apply (Hcan SupervisorLoop)].
  - intros [] err'; try done. by apply (step_returned _ _ _ _ Hstep).
  - by eapply step_keeps_ok.
  - rewrite (step_context _ _ _ Hstep). by split.
  - intros []; cbn; [apply (Hcan JobRunner)|apply (Hcan UpstreamProcessor)| |apply (Hcan SupervisorLoop)]. intros Hr.
    rewrite <- Hk1, <- (step_context _ _ _ Hstep). apply returned_canceled; [by eapply step_keeps_ok|done].
  - intros [] err'; try done. by apply (step_returned _ _ _ _ Hstep).
  - by eapply step_keeps_ok.
  - rewrite (step_context _ _ _ Hstep). by split.
  - intros []; cbn; [apply (Hcan JobRunner)|apply (Hcan UpstreamProcessor)|apply (Hcan ConsumerManager)|]. intros Hr.
    rewrite <- Hk2, <- (step_context _ _ _ Hstep). apply returned_canceled; [by eapply step_keeps_ok|done].
  - by apply context_keeps_ok.
  - by apply context_keeps_ok.
  - destruct Hs as [? ? ? ? [Hnd Hsent] [Hle H4] Herr]. split; cbn; try done.
    + split; [apply list.NoDup_app; split_and!; [done|set_solver|apply NoDup_singleton]|].
      intros c' [Hin| ->%list_elem_of_singleton]%elem_of_app; [by apply Hsent|by eexists].
    + rewrite length_app. cbn. lia.
    + rewrite firstn_app. replace (received s - List.length (sent s)) with 0 by lia. cbn. by rewrite app_nil_r.
  - destruct Hs as [? ? ? ? ? [Hle H4] Herr]. split; cbn; try done.
    + split; [|lia]. apply lookup_lt_Some in Hc. lia.
    + rewrite (take_S_r _ _ _ Hc). unfold kept_error in *. rewrite fold_left_app. cbn. by rewrite Herr.
Qed.

Lemma run_reachable_ok s : run_reachable s -> run_ok s.
Proof. revert s. apply (rtc_ind_r run_ok); [apply run_started_ok|]. intros s s' _. apply run_step_ok. Qed.

(** ** What Run returns *)

Lemma elem_of_components c : c ∈ components.
Proof. destruct c; set_solver. Qed.

(** When a component has not sent, there is one that has not. *)
Lemma not_all_sent s : run_ok s -> List.length (sent s) < 4 -> exists c, c ∉ sent s.
Proof.
  intros Hs Hlt. destruct (decide (Forall (fun c => c ∈ sent s) components)) as [Hall|Hnot].
  - exfalso. assert (components ⊆+ sent s) as Hsub%submseteq_length; [|cbn in Hsub; lia].
    apply NoDup_submseteq; [repeat constructor; set_solver|]. intros c Hc. by apply (proj1 (list.Forall_forall _ _) Hall).
  - apply not_Forall_Exists in Hnot; [|intros c; apply _]. apply Exists_exists in Hnot as (c & _ & Hc). by exists c.
Qed.

Lemma all_sent s c : run_ok s -> run_returned s -> c ∈ sent s.
Proof.
  intros Hs Hr. destruct (rk_sent s Hs) as [Hnd _]. destruct (rk_received s Hs) as [Hle _]. unfold run_returned in Hr.
  assert (sent s ⊆+ components) as Hsub by (apply NoDup_submseteq; [done|]; intros c' _; apply elem_of_components).
  apply (submseteq_length_Permutation) in Hsub as Hp; [|cbn; lia]. rewrite Hp. apply elem_of_components.
Qed.

(** The failure of a component. *)
Definition broken (s : worker_run) (c : component) : option loop_error :=
  match component_result s c with Some (Broken message) => Some (Broken message) | _ => None end.

Lemma kept_error_last s cs : kept_error s cs = list.last (omap (broken s) cs).
Proof.
  unfold kept_error. rewrite <- (rev_involutive cs). induction (rev cs) as [|c l IH]; [done|]. cbn [rev].
  rewrite fold_left_app, omap_app. cbn [fold_left]. rewrite IH.
  assert (omap (broken s) [c] = match broken s c with Some e => [e] | None => [] end) as -> by done.
  unfold broken at 3. unfold receive. destruct (component_result s c) as [[|message]|]; [by rewrite app_nil_r|by rewrite last_snoc|by rewrite app_nil_r].
Qed.

Lemma returned_error s : run_ok s -> run_returned s -> runErr s = list.last (omap (broken s) (sent s)).
Proof.
  intros Hs Hr. rewrite (rk_error s Hs), kept_error_last, Hr, take_ge; [done|].
  destruct (rk_sent s Hs) as [Hnd _]. pose proof (submseteq_length (sent s) components) as H. cbn in H. apply H.
  apply NoDup_submseteq; [done|]. intros c _. apply elem_of_components.
Qed.

(** [Run] returns once the components have: nothing that they send blocks. *)
Lemma run_collects s : run_ok s -> (forall c, is_Some (component_result s c)) -> exists s', rtc run_step s s' /\ run_returned s'.
Proof.
  remember ((4 - List.length (sent s)) + (4 - received s)) as n eqn:Hn. revert s Hn. induction n as [n IH] using lt_wf_ind. intros s Hn Hs Hall.
  destruct (rk_received s Hs) as [Hle H4]. destruct (decide (received s = 4)) as [Hr|Hr]; [by exists s|].
  assert (exists s1, run_step s s1 /\ (4 - List.length (sent s1)) + (4 - received s1) < n /\ forall c, is_Some (component_result s1 c)) as (s1 & Hstep & Hlt & Hall1).
  { destruct (decide (received s < List.length (sent s))) as [Hlt|Hge].
    - destruct (lookup_lt_is_Some_2 (sent s) (received s) Hlt) as [c Hc]. eexists. split; [apply (run_receive s c Hc); lia|]. cbn. split; [lia|done].
    - destruct (not_all_sent s Hs) as [c Hc]; [lia|]. destruct (Hall c) as [err Herr]. eexists. split; [by apply (run_send s c err Herr)|].
      cbn [sent received]. rewrite length_app. cbn. split; [lia|done]. }
  destruct (IH _ Hlt s1 eq_refl (run_step_ok _ _ Hstep Hs) Hall1) as (s' & Hsteps & Hret). exists s'. split; [|done]. by eapply rtc_l.
Qed.

(** C24: [Run] returns only when all four components of the worker have returned, and can
    return as soon as they have.  It returns the error of the last of them to fail, and nil
    only when the worker was asked to stop and each ended because of that.  What it leaves
    running is no component: it is a scheduler or a consumer whose loop did not stop it
    because it ended in a failure (or was stopped in the middle of a round), and it has
    been asked to stop exactly if the context is cancelled, as it is when [Run] returns
    nil. *)
Theorem worker_shutdown s :
  run_reachable s ->
  (run_returned s ->
     (forall c, is_Some (component_result s c)) /\ runErr s = list.last (omap (broken s) (sent s)) /\ sent s ≡ₚ components /\
     (runErr s = None -> context s = true /\ forall c, component_result s c = Some Canceled) /\
     (forall i w, goroutines (consumerManager s) !! i = Some w -> live w ->
        (exists err, loop (consumerManager s) = Failed err) /\ mCancelled w = context s) /\
     (forall i w, goroutines (supervisorLoop s) !! i = Some w -> live w ->
        (exists err, loop (supervisorLoop s) = Failed err) /\ mCancelled w = context s)) /\
  ((forall c, is_Some (component_result s c)) -> exists s', rtc run_step s s' /\ run_returned s').
Proof.
  intros Hr%run_reachable_ok. split; [|by apply run_collects]. intros Hret.
  assert (forall c, is_Some (component_result s c)) as Hall by (intros c; apply (rk_sent s Hr); by apply all_sent).
  destruct (rk_context s Hr) as [Hk1 Hk2]. split; [done|]. split; [by apply returned_error|]. split.
  { apply NoDup_Permutation; [apply (rk_sent s Hr)|repeat constructor; set_solver|]. intros c. split; intros _; [apply elem_of_components|by apply all_sent]. }
  split; [intros Hnone|split; intros i w Hw Hlive].
  - rewrite returned_error in Hnone by done.
    assert (forall c, component_result s c = Some Canceled) as Hcan.
    { intros c. destruct (Hall c) as [[|message] Hc]; [done|]. exfalso. apply last_None in Hnone.
      apply (not_elem_of_nil (Broken message)). rewrite <- Hnone. apply list_elem_of_omap. exists c. split; [by apply all_sent|]. unfold broken. by rewrite Hc. }
    split; [|done]. exact (rk_canceled s Hr JobRunner (Hcan JobRunner)).
  - rewrite <- Hk1. eapply returned_orphans; [apply Hr|exact (Hall ConsumerManager)|done|done].
  - rewrite <- Hk2. eapply returned_orphans; [apply Hr|exact (Hall SupervisorLoop)|done|done].
Qed.
End Run.

(** ** A worker that is stopped at once, whose job runner fails meanwhile *)

Definition stopped (C : Type) : machine C := mkMachine ∅ [] Left true.
Definition demo_stopped (runner : loop_error) (err : option loop_error) : worker_run :=
  mkRun (Some runner) (Some Canceled) (stopped _) (stopped _) true components 4 err.

Lemma stops_at_once {C} `{Managed C} round : rtc (Managed.step round) (mkMachine ∅ [] Idle true) (stopped C).
Proof.
  eapply rtc_l; [apply (step_stop round ∅ [] []); exact (Permutation_refl [])|]. apply rtc_once. exact (step_left round ∅ [] true).
Qed.

Lemma run_manager_steps E r p l k sent n e m m' : rtc (manager_step E) m m' ->
  rtc (run_step E) (mkRun r p m l k sent n e) (mkRun r p m' l k sent n e).
Proof. induction 1; [done|]. eapply rtc_l; [by apply run_manager|done]. Qed.
Lemma run_supervisor_steps E r p m k sent n e l l' : rtc supervisor_step l l' ->
  rtc (run_step E) (mkRun r p m l k sent n e) (mkRun r p m l' k sent n e).
Proof. induction 1; [done|]. eapply rtc_l; [by apply run_supervisor|done]. Qed.

Lemma demo_stopped_reachable runner : run_reachable quiet_catalog (demo_stopped runner (receive None (Some runner))).
Proof.
  unfold run_reachable, run_started. eapply rtc_l; [apply run_context|]. cbn.
  eapply rtc_l; [by apply (run_runner _ _ _ _ _ _ _ _ runner)|]. eapply rtc_l; [by apply (run_processor _ _ _ _ _ _ _ _ Canceled)|].
  etrans; [apply run_manager_steps, stops_at_once|]. etrans; [apply run_supervisor_steps, stops_at_once|].
  do 4 (eapply rtc_l; [first [by eapply (run_send _ _ JobRunner); [done|set_solver] | by eapply (run_send _ _ UpstreamProcessor); [done|set_solver]
    | by eapply (run_send _ _ ConsumerManager); [done|set_solver] | by eapply (run_send _ _ SupervisorLoop); [done|set_solver]]|]; cbn).
  do 4 (eapply rtc_l; [eapply run_receive; [reflexivity|cbn; lia]|]; cbn). by destruct runner.
Qed.

Lemma worker_shutdown_witness :
  run_reachable quiet_catalog (demo_stopped Canceled None) /\ context (demo_stopped Canceled None) = true /\
  Some (Broken "connection lost") = list.last (omap (broken (demo_stopped (Broken "connection lost") (Some (Broken "connection lost")))) components).
Proof.
  split; [exact (demo_stopped_reachable Canceled)|]. split.
  - apply (proj1 (proj2 (proj2 (proj2 (proj1 (worker_shutdown quiet_catalog (demo_stopped Canceled None) (demo_stopped_reachable Canceled)) eq_refl))))). reflexivity.
  - exact (proj1 (proj2 (proj1 (worker_shutdown quiet_catalog _ (demo_stopped_reachable (Broken "connection lost"))) eq_refl))).
Defined.
