(* ===== verification/Relations.v ===== *)
(** * Relations

    The relations table: packages/storage/relation_repository.go and the migrations 5
    and 8. *)
From S2P Require Import Prelude GoStrings JobPayload JobRuns ErrState Catalog.
Local Open Scope Z_scope.

Definition RelationTypeDuplicate : string := "duplicate".

Record CreateRelationParams := mkCreateRelation {
  crSourceObjectID : string;
  crTargetObjectID : string;
  crRelationType : string;
  crAttributes : payload;
  crCreatedByType : string;
  crCreatedByID : string;
  crCreatedByName : string;
  crCreatedByRunID : string
}.

Definition newRelationID (random : list Z) : string := "relation_" +:+ hex_encode random.

Definition encodeRelationAttributes (attributes : payload) : result store_error payload :=
  match encodeJobRunPayload attributes with
  | Some encoded => Ok encoded
  | None => Err (Errorf "encode relation attributes: %w")
  end.

(** The row as Go reads it: a NULL text is empty. *)
Definition scanRelation (r : Relation) : Relation :=
  mkRelation (rID r) (rSourceObjectID r) (rTargetObjectID r) (rRelationType r) (decodeJobRunPayload (rAttributes r))
    (rCreatedByType r) (rCreatedByID r) (rCreatedByName r) (rCreatedByRunID r) (rCreatedAt r) (rUpdatedAt r).

(** The checks of the table. *)
Definition relation_row_ok (r : Relation) : bool :=
  negb (String.eqb (rSourceObjectID r) (rTargetObjectID r)) && negb (blank (rRelationType r)).

(** The unique index: at most one relation of a type from an object to another. *)
Definition same_pair (a b : Relation) : bool :=
  String.eqb (rSourceObjectID a) (rSourceObjectID b) && String.eqb (rTargetObjectID a) (rTargetObjectID b)
  && String.eqb (rRelationType a) (rRelationType b).

(** [ON CONFLICT ... DO UPDATE]. *)
Definition update_relation (now : Z) (old new : Relation) : Relation :=
  mkRelation (rID old) (rSourceObjectID old) (rTargetObjectID old) (rRelationType old) (rAttributes new)
    (rCreatedByType old) (rCreatedByID old) (rCreatedByName old) (rCreatedByRunID new) (rCreatedAt old) now.

Definition insert_relation (now : Z) (r : Relation) : M Catalog Relation := fun c =>
  let error e := (Err (Failure (Wrapf "scan relation: %w" (Errorf e))), c) in
  if negb (relation_row_ok r) then error "violates check constraint"
  else match List.find (same_pair r) (table_rows (relations c)) with
       | Some old => let r := update_relation now old r in
                     (Ok (scanRelation r), set_relations (<[rID old := r]> (relations c)) c)
       | None =>
           if bool_decide (is_Some (relations c !! rID r)) then error "duplicate key value"
           else if negb (bool_decide (is_Some (objects c !! rSourceObjectID r)) && bool_decide (is_Some (objects c !! rTargetObjectID r)))
           then error "violates foreign key constraint"
           else (Ok (scanRelation r), set_relations (<[rID r := r]> (relations c)) c)
       end.

Definition CreateRelation (random : list Z) (now : Z) (params : CreateRelationParams) : M Catalog Relation :=
  if String.eqb (crSourceObjectID params) "" || String.eqb (crTargetObjectID params) ""
  then fail_with "create relation: source and target object ids are required"
  else if String.eqb (crSourceObjectID params) (crTargetObjectID params)
  then fail_with "create relation: source and target must differ"
  else
    let relationType := if String.eqb (crRelationType params) "" then RelationTypeDuplicate else crRelationType params in
    attributes ← of_result (encodeRelationAttributes (crAttributes params));
    insert_relation now (mkRelation (newRelationID random) (crSourceObjectID params) (crTargetObjectID params) relationType
      attributes (crCreatedByType params) (crCreatedByID params) (crCreatedByName params) (crCreatedByRunID params) now now).

Definition duplicate_between (ids : list string) (r : Relation) : bool :=
  String.eqb (rRelationType r) RelationTypeDuplicate && bool_decide (rSourceObjectID r ∈ ids) && bool_decide (rTargetObjectID r ∈ ids).

Definition DeleteDuplicateRelationsBetween (objectIDs : list string) : M Catalog Z :=
  match objectIDs with
  | [] => mret 0
  | _ => fun c => (Ok (count_rows (duplicate_between objectIDs) (relations c)),
                   set_relations (delete_rows (duplicate_between objectIDs) (relations c)) c)
  end.

Definition ListDuplicateRelationsBetween (objectIDs : list string) : M Catalog (list Relation) :=
  match objectIDs with
  | [] => mret []
  | _ => gets (fun c => map scanRelation (select_rows (duplicate_between objectIDs)
                          (fun a b => rCreatedAt a <? rCreatedAt b) (relations c)))
  end.

Definition ListRelationTypes `{Collation} : M Catalog (list string) :=
  gets (fun c => sort_by collate (remove_dups (map rRelationType (table_rows (relations c))))).

(** ** The table among its statements *)

(** Rows under their identifiers, one for each pair and type, between two different
    objects that the catalog has. *)
Record relations_ok (c : Catalog) : Prop := {
  rel_keyed id r : relations c !! id = Some r -> rID r = id;
  rel_unique id1 id2 r1 r2 : relations c !! id1 = Some r1 -> relations c !! id2 = Some r2 -> same_pair r1 r2 = true -> id1 = id2;
  rel_checked id r : relations c !! id = Some r -> relation_row_ok r = true;
  rel_objects id r : relations c !! id = Some r ->
    is_Some (objects c !! rSourceObjectID r) /\ is_Some (objects c !! rTargetObjectID r)
}.

Lemma same_pair_iff a b : same_pair a b = true <->
  rSourceObjectID a = rSourceObjectID b /\ rTargetObjectID a = rTargetObjectID b /\ rRelationType a = rRelationType b.
Proof. unfold same_pair. rewrite !andb_true_iff, !String.eqb_eq. tauto. Qed.

Lemma insert_relation_ok now r c : relations_ok c -> relations_ok (insert_relation now r c).2.
Proof.
  intros Hok. unfold insert_relation. destruct (negb (relation_row_ok r)) eqn:Erow; [done|]. apply negb_false_iff in Erow.
  destruct (List.find _ _) as [old|] eqn:Ef.
  - apply find_some in Ef as [Hin Hs]. apply list_elem_of_In, elem_of_table_rows in Hin as [id Hold].
    pose proof (rel_keyed c Hok id old Hold) as Hid. subst id. cbn [snd].
    assert (forall id r', relations c !! id = Some r' -> same_pair old r' = true -> id = rID old) as Hu
      by (intros id r' Hr' Hs'; symmetry; by apply (rel_unique c Hok _ _ _ _ Hold Hr')).
    split; cbn [relations objects set_relations].
    + intros id r' [[<- <-]|[_ Hr']]%lookup_insert_Some; [done|by apply (rel_keyed c Hok)].
    + intros id1 id2 r1 r2 [[<- <-]|[_ H1]]%lookup_insert_Some [[<- <-]|[_ H2]]%lookup_insert_Some Hs'; [done|..].
      * symmetry. by apply (Hu id2 r2).
      * apply (Hu id1 r1 H1). apply same_pair_iff in Hs'. apply same_pair_iff. cbn in Hs'. intuition congruence.
      * by apply (rel_unique c Hok _ _ _ _ H1 H2).
    + intros id r' [[<- <-]|[_ Hr']]%lookup_insert_Some; [exact (rel_checked c Hok _ _ Hold)|by apply (rel_checked c Hok id)].
    + intros id r' [[<- <-]|[_ Hr']]%lookup_insert_Some; [exact (rel_objects c Hok _ _ Hold)|by apply (rel_objects c Hok id)].
  - case_bool_decide as Hid; [done|]. destruct (negb (_ && _)) eqn:Efk; [done|]. cbn [snd].
    apply negb_false_iff, andb_true_iff in Efk as [H1 H2]. apply bool_decide_eq_true in H1, H2.
    assert (forall id r', relations c !! id = Some r' -> same_pair r r' = false) as Hn.
    { intros id r' Hr'. apply (find_none _ _ Ef). apply list_elem_of_In, elem_of_table_rows. by exists id. }
    split; cbn [relations objects set_relations].
    + intros id r' [[<- <-]|[_ Hr']]%lookup_insert_Some; [done|by apply (rel_keyed c Hok)].
    + intros id1 id2 r1 r2 [[<- <-]|[_ Hr1]]%lookup_insert_Some [[<- <-]|[_ Hr2]]%lookup_insert_Some Hs'; [done|..].
      * rewrite (Hn _ _ Hr2) in Hs'. done.
      * assert (same_pair r r1 = true) as Hs2; [|by rewrite (Hn _ _ Hr1) in Hs2].
        apply same_pair_iff in Hs'. apply same_pair_iff. intuition congruence.
      * by apply (rel_unique c Hok _ _ _ _ Hr1 Hr2).
    + intros id r' [[<- <-]|[_ Hr']]%lookup_insert_Some; [done|by apply (rel_checked c Hok id)].
    + intros id r' [[<- <-]|[_ Hr']]%lookup_insert_Some; [done|by apply (rel_objects c Hok id)].
Qed.

Lemma CreateRelation_ok random now params c : relations_ok c -> relations_ok (CreateRelation random now params c).2.
Proof.
  intros Hok. unfold CreateRelation. destruct (_ || _); [done|]. destruct (String.eqb _ _); [done|].
  destruct (encodeRelationAttributes _); [|done]. cbn [of_result mbind M_bind]. by apply insert_relation_ok.
Qed.

Lemma delete_relations_ok p c : relations_ok c -> relations_ok (set_relations (delete_rows p (relations c)) c).
Proof.
  intros Hok. split; cbn [relations objects set_relations].
  - intros id r [Hr _]%lookup_delete_rows. by apply (rel_keyed c Hok).
  - intros id1 id2 r1 r2 [H1 _]%lookup_delete_rows [H2 _]%lookup_delete_rows. by apply (rel_unique c Hok).
  - intros id r [Hr _]%lookup_delete_rows. by apply (rel_checked c Hok id).
  - intros id r [Hr _]%lookup_delete_rows. by apply (rel_objects c Hok id).
Qed.

(** A relation that is written is in the table. *)
Lemma insert_relation_found now r c r' c' : relations_ok c -> insert_relation now r c = (Ok r', c') ->
  exists id row, relations c' !! id = Some row /\ same_pair r row = true /\ rAttributes row = rAttributes r /\
    rCreatedByRunID row = rCreatedByRunID r.
Proof.
  intros Hok. unfold insert_relation. destruct (negb _); [done|]. destruct (List.find _ _) as [old|] eqn:Ef.
  - apply find_some in Ef as [_ Hs]. intros [= _ <-]. exists (rID old), (update_relation now old r).
    cbn [relations set_relations]. rewrite lookup_insert_eq. apply same_pair_iff in Hs. split; [done|]. split; [|done]. by apply same_pair_iff.
  - case_bool_decide; [done|]. destruct (negb _); [done|]. intros [= _ <-]. exists (rID r), r. cbn [relations set_relations].
    rewrite lookup_insert_eq. split; [done|]. split; [|done]. by apply same_pair_iff.
Qed.
