(* ===== verification/UpstreamEvents.v ===== *)
(** * UpstreamEvents

    The events that a bucket's provider reports: packages/storage/
    upstream_event_repository.go, upstream_event_list.go, the counting of
    upstream_event_stats.go and packages/upstreamevents/category.go. *)
From S2P Require Import Prelude GoStrings GoTime GoJson Sql GoSha256 JobPayload JobRuns ErrState Catalog.
Local Open Scope Z_scope.

Definition ErrUpstreamEventDuplicate : store_error := Errorf "upstream event duplicate".
Definition UpstreamEventTransportJetstream : string := "jetstream".

Definition event_state_text (s : UpstreamEventState) : string :=
  match s with
  | EventPending => "pending"
  | EventProcessed => "processed"
  | EventSkipped => "skipped"
  | EventFailed => "failed"
  end.

Record CreateUpstreamEventParams := mkCreateEvent {
  ceBucketID : string;
  ceEventName : string;
  ceObjectKey : string;
  ceEnvelope : payload;
  ceDedupeKey : string;
  ceTransport : string;
  ceEventTime : option Time
}.

Record MarkUpstreamEventParams := mkMark { meID : string; meState : UpstreamEventState; meErrorMessage : string }.

(** [State] and [Category] are the texts to compare with. *)
Record ListUpstreamEventsParams := mkListEvents {
  leBucketID : string;
  leState : string;
  leCategory : string;
  leReceivedAfter : option Z;
  leReceivedBefore : option Z;
  leLimit : Z;
  leOffset : Z
}.

(** A timestamptz keeps microseconds. *)
Definition micros (t : Time) : Z := unix t * 10 ^ 6 + nsec t / 1000.

Definition newUpstreamEventID (random : list Z) : string := "upevt_" +:+ hex_encode random.

Definition UpstreamEventDedupeKey (bucketID eventName objectKey eventID : string) (eventTime : Time) : string :=
  if negb (String.eqb eventID "") then bucketID +:+ ":" +:+ eventName +:+ ":" +:+ objectKey +:+ ":" +:+ eventID
  else sha256_hex (bucketID +:+ "|" +:+ eventName +:+ "|" +:+ objectKey +:+ "|" +:+ FormatRFC3339NanoUTC eventTime).

(** The row as Go reads it: the envelope is decoded. *)
Definition scanUpstreamEventRow (e : UpstreamEvent) : UpstreamEvent :=
  mkEvent (eID e) (eBucketID e) (eEventName e) (eObjectKey e) (decodeJobRunPayload (eEnvelope e)) (eDedupeKey e)
    (eTransport e) (eState e) (eEventTime e) (eReceivedAt e) (eProcessedAt e) (eErrorMessage e) (eCreatedAt e) (eUpdatedAt e).

(** ** The table (migration 6) *)

(** The encoding of the texts, which are not decoded from JSON, and the checks; the
    state has one of its four values by its type. *)
Definition event_row_ok (e : UpstreamEvent) : bool :=
  pg_text (eEventName e) && pg_text (eObjectKey e) && pg_text (eDedupeKey e) && negb (blank (eEventName e)) && negb (blank (eDedupeKey e)) && String.eqb (eTransport e) UpstreamEventTransportJetstream.

(** The primary key and the unique index on the deduplication keys. *)
Definition event_taken (e : UpstreamEvent) (t : gmap string UpstreamEvent) : bool :=
  existsb (fun e' => String.eqb (eID e') (eID e) || String.eqb (eDedupeKey e') (eDedupeKey e)) (table_rows t).

Definition mapCreateUpstreamEventError (unique_violation : bool) (e : store_error) : store_error :=
  if unique_violation then ErrUpstreamEventDuplicate else Wrapf "create upstream event: %w" e.

(** The [INSERT]. *)
Definition insert_event (e : UpstreamEvent) : M Catalog UpstreamEvent := fun c =>
  if negb (event_row_ok e)
  then (Err (Failure (mapCreateUpstreamEventError false (Errorf "violates check constraint"))), c)
  else if event_taken e (upstream_events c)
  then (Err (Failure (mapCreateUpstreamEventError true (Errorf "duplicate key value"))), c)
  else if negb (bool_decide (is_Some (buckets c !! eBucketID e)))
  then (Err (Failure (mapCreateUpstreamEventError false (Errorf "violates foreign key constraint"))), c)
  else (Ok (scanUpstreamEventRow e), set_upstream_events (<[eID e := e]> (upstream_events c)) c).

Definition CreateUpstreamEvent (random : list Z) (now : Z) (params : CreateUpstreamEventParams) : M Catalog UpstreamEvent :=
  if String.eqb (TrimSpace (ceBucketID params)) "" then fail_with "create upstream event: bucket id is required"
  else
    envelope ← of_result (match encodeJobRunPayload (ceEnvelope params) with
      | Some envelope => Ok envelope
      | None => Err (Errorf "encode job run payload")
      end);
    insert_event (mkEvent (newUpstreamEventID random) (ceBucketID params) (ceEventName params) (ceObjectKey params)
      envelope (ceDedupeKey params) (ceTransport params) EventPending (micros <$> ceEventTime params) now None "" now now).

Definition GetUpstreamEvent (id : string) : M Catalog UpstreamEvent := fun c =>
  match upstream_events c !! id with
  | Some e => (Ok (scanUpstreamEventRow e), c)
  | None => (Err (Failure ErrNotFound), c)
  end.

(** ** Lists (upstream_event_list.go) *)

Definition upstreamEventCategoryCase (event_name : string) : string :=
  if like "ObjectCreated:%" event_name || like "s3:ObjectCreated:%" event_name then "created"
  else if like "ObjectRemoved:%" event_name || like "s3:ObjectRemoved:%" event_name then "removed"
  else if like "%Tagging%" event_name || like "ObjectAcl:%" event_name then "metadata_changed"
  else "other".

Definition upstreamEventListWhereClause (params : ListUpstreamEventsParams) (e : UpstreamEvent) : bool :=
  (String.eqb (leBucketID params) "" || String.eqb (eBucketID e) (leBucketID params))
  && (String.eqb (leState params) "" || String.eqb (event_state_text (eState e)) (leState params))
  && match leReceivedAfter params with None => true | Some t => t <=? eReceivedAt e end
  && match leReceivedBefore params with None => true | Some t => eReceivedAt e <? t end
  && (String.eqb (leCategory params) "" || String.eqb (upstreamEventCategoryCase (eEventName e)) (leCategory params)).

Definition by_received (a b : UpstreamEvent) : bool :=
  (eReceivedAt a <? eReceivedAt b) || ((eReceivedAt a =? eReceivedAt b) && String.ltb (eID a) (eID b)).
Definition by_received_desc (a b : UpstreamEvent) : bool := by_received b a.

Definition ListUpstreamEvents (params : ListUpstreamEventsParams) : M Catalog (list UpstreamEvent) :=
  gets (fun c => map scanUpstreamEventRow (page_rows (leLimit params) (leOffset params)
    (select_rows (upstreamEventListWhereClause params) by_received_desc (upstream_events c)))).

Definition CountUpstreamEvents (params : ListUpstreamEventsParams) : M Catalog Z :=
  gets (fun c => count_rows (upstreamEventListWhereClause params) (upstream_events c)).

Definition pending (e : UpstreamEvent) : bool := bool_decide (eState e = EventPending).

(** [locked]: the rows that other transactions hold, which the statement skips. *)
Definition LockPendingEvents (locked : gset string) (limit : Z) : M Catalog (list UpstreamEvent) :=
  let limit := if limit <=? 0 then 100 else limit in
  gets (fun c => map scanUpstreamEventRow (firstn (Z.to_nat limit)
    (select_rows (fun e => pending e && bool_decide (eID e ∉ locked)) by_received (upstream_events c)))).

Definition mark_row (now : Z) (params : MarkUpstreamEventParams) (e : UpstreamEvent) : UpstreamEvent :=
  mkEvent (eID e) (eBucketID e) (eEventName e) (eObjectKey e) (eEnvelope e) (eDedupeKey e) (eTransport e)
    (meState params) (eEventTime e) (eReceivedAt e)
    (match meState params with EventPending => eProcessedAt e | _ => Some now end) (meErrorMessage params) (eCreatedAt e) now.

Definition MarkUpstreamEvent (now : Z) (params : MarkUpstreamEventParams) : M Catalog unit := fun c =>
  match upstream_events c !! meID params with
  | Some e => (Ok tt, set_upstream_events (<[meID params := mark_row now params e]> (upstream_events c)) c)
  | None => (Err (Failure ErrNotFound), c)
  end.

(** ** Categories (category.go) *)

Definition EventCategoryCreated : string := "created".
Definition EventCategoryRemoved : string := "removed".
Definition EventCategoryMetadataChanged : string := "metadata_changed".
Definition EventCategoryOther : string := "other".

Definition EventCategory (eventName : string) : string :=
  if HasPrefix eventName "ObjectCreated:" || HasPrefix eventName "s3:ObjectCreated:" then EventCategoryCreated
  else if HasPrefix eventName "ObjectRemoved:" || HasPrefix eventName "s3:ObjectRemoved:" then EventCategoryRemoved
  else if Contains eventName "Tagging" || HasPrefix eventName "ObjectAcl:" then EventCategoryMetadataChanged
  else EventCategoryOther.

Definition BucketEventStatsSeries : list string :=
  [EventCategoryCreated; EventCategoryRemoved; EventCategoryMetadataChanged; EventCategoryOther].

(** The two definitions of the category of an event, that of the queries and that of
    Go, agree on every name. *)
Theorem category_sql_go eventName : upstreamEventCategoryCase eventName = EventCategory eventName.
Proof.
unfold upstreamEventCategoryCase, EventCategory.
rewrite <- (like_prefix "ObjectCreated:"), <- (like_prefix "s3:ObjectCreated:"), <- (like_prefix "ObjectRemoved:"),
  <- (like_prefix "s3:ObjectRemoved:"), <- (like_prefix "ObjectAcl:"), <- (like_contains "Tagging") by done. reflexivity.
Qed.
