(* ===== verification/Users.v ===== *)
(** * Users

    The users and sessions tables and their repositories: packages/storage/user_repository.go
    and session_repository.go, migration 000009.  The JSON of a password hash in its column
    is read back as the hash.  The mapping of letters to lower case is [strings.ToLower] on
    ASCII; beyond ASCII, and in the database, it is a parameter. *)
From S2P Require Import Prelude GoStrings GoTime JobRuns ErrState Catalog UpstreamEvents Request Passwords.
Local Open Scope Z_scope.

(** ** Lower case *)

Class Casing := { unicode_lower : string -> string; db_lower : string -> string }.

Definition is_ascii (s : string) : bool := string_forall (fun c => byte c <? 128) s.
Fixpoint map_lower (s : string) : string :=
  match s with EmptyString => EmptyString | String c s => String (lower c) (map_lower s) end.
Definition GoToLower `{Casing} (s : string) : string := if is_ascii s then map_lower s else unicode_lower s.
Definition normalize_email `{Casing} (email : string) : string := TrimSpace (GoToLower email).

(** ** Rows *)

Notation UserRole := string (only parsing).
Definition UserRoleAdmin : UserRole := "admin".
Definition UserRoleUser : UserRole := "user".
Definition valid_role (role : UserRole) : bool := String.eqb role UserRoleAdmin || String.eqb role UserRoleUser.

(** The nullable columns are options. *)
Record UserRow := mkUserRow {
  urID : string; urEmail : string; urDisplayName : option string; urRole : UserRole; urPasswordHash : option PasswordHash;
  urOIDCSubject : option string; urDisabledAt : option Z; urCreatedAt : Z; urUpdatedAt : Z
}.
Record User := mkUser {
  uID : string; uEmail : string; uDisplayName : string; uRole : UserRole; uPasswordHash : option PasswordHash;
  uOIDCSubject : string; uDisabledAt : option Z; uCreatedAt : Z; uUpdatedAt : Z
}.
Record Session := mkSession { sessID : string; sessUserID : string; sessTokenHash : list Z; sessExpiresAt : Z; sessCreatedAt : Z }.

Record AuthTables := mkAuthTables { users : gmap string UserRow; sessions : gmap string Session }.
Definition set_users v t := mkAuthTables v (sessions t).
Definition set_sessions v t := mkAuthTables (users t) v.

(** [NULLIF($1, '')]. *)
Definition nullif_empty (s : string) : option string := if String.eqb s "" then None else Some s.

Record CreateUserParams := mkCreateUser {
  cuEmail : string; cuDisplayName : string; cuRole : UserRole; cuPasswordHash : option PasswordHash; cuOIDCSubject : string
}.
Record UpdateUserParams := mkUpdateUser {
  uuID : string; uuDisplayName : option string; uuRole : option UserRole; uuPasswordHash : option PasswordHash;
  uuOIDCSubject : option string; uuDisabled : option bool
}.

Definition newUserID (random : list Z) : string := "user_" +:+ hex_encode random.

Definition scanUser (r : UserRow) : User :=
  mkUser (urID r) (urEmail r) (default "" (urDisplayName r)) (urRole r) (urPasswordHash r) (default "" (urOIDCSubject r))
    (urDisabledAt r) (urCreatedAt r) (urUpdatedAt r).

(** The first row of a query, as [QueryRow] reads it. *)
Definition first_user (rows : list UserRow) : result run_error User :=
  match rows with [] => Err (Failure ErrNotFound) | r :: _ => Ok (scanUser r) end.

(** [errors.As(err, &pgErr) && pgErr.Code == ...] for a violated unique index. *)
Definition unique_violation : store_error := Errorf "duplicate key value".
Fixpoint is_unique_violation (e : store_error) : bool :=
  match e with
  | ErrNotFound => false
  | Errorf m => String.eqb m "duplicate key value"
  | Wrapf _ cause => is_unique_violation cause
  end.
Definition scan_user_error (e : store_error) : run_error := Failure (Wrapf "scan user: %w" e).

Section Repository.
Context `{Casing}.

(** The checks of the table and its unique indexes. *)
Definition user_row_ok (r : UserRow) : bool := negb (blank (urEmail r)) && valid_role (urRole r).
Definition users_clash (a b : UserRow) : bool :=
  String.eqb (db_lower (urEmail a)) (db_lower (urEmail b))
  || (bool_decide (is_Some (urOIDCSubject a)) && bool_decide (urOIDCSubject a = urOIDCSubject b)).
Definition user_taken (r : UserRow) (t : gmap string UserRow) : bool :=
  existsb (fun r' => negb (String.eqb (urID r') (urID r)) && users_clash r' r) (table_rows t).

(** Storing a row under its identifier. *)
Definition write_user (r : UserRow) : M AuthTables User := fun t =>
  if negb (user_row_ok r) then (Err (scan_user_error (Errorf "violates check constraint")), t)
  else if user_taken r (users t) then (Err (scan_user_error unique_violation), t)
  else (Ok (scanUser r), set_users (<[urID r := r]> (users t)) t).

Definition insert_user (r : UserRow) : M AuthTables User := fun t =>
  if bool_decide (is_Some (users t !! urID r)) then (Err (scan_user_error unique_violation), t) else write_user r t.

(** The row that [CreateUser] inserts, or its error. *)
Definition created_user (random : list Z) (now : Z) (params : CreateUserParams) : result store_error UserRow :=
  let id := newUserID random in
  let email := normalize_email (cuEmail params) in
  if String.eqb email "" then Err (Errorf "create user: email is required")
  else
    let role := if String.eqb (cuRole params) "" then UserRoleUser else cuRole params in
    if negb (String.eqb role UserRoleAdmin) && negb (String.eqb role UserRoleUser) then Err (Errorf "create user: invalid role %q")
    else Ok (mkUserRow id email (nullif_empty (cuDisplayName params)) role (cuPasswordHash params)
               (nullif_empty (cuOIDCSubject params)) None now now).

Definition GetUser (id : string) : M AuthTables User := fun t =>
  (first_user (List.filter (fun r => String.eqb (urID r) id) (table_rows (users t))), t).
Definition GetUserByEmail (email : string) : M AuthTables User := fun t =>
  (first_user (List.filter (fun r => String.eqb (db_lower (urEmail r)) (normalize_email email)) (table_rows (users t))), t).
Definition GetUserByOIDCSubject (subject : string) : M AuthTables User := fun t =>
  (first_user (List.filter (fun r => bool_decide (urOIDCSubject r = Some subject)) (table_rows (users t))), t).
Definition ListUsers : M AuthTables (list User) :=
  gets (fun t => map scanUser (select_rows (fun _ => true) (fun a b => urCreatedAt a <? urCreatedAt b) (users t))).
Definition CountUsers : M AuthTables Z := gets (fun t => count_rows (fun _ => true) (users t)).

(** The [UPDATE] of [UpdateUser]. *)
Definition update_user_row (now : Z) (id displayName : string) (role : UserRole) (passwordHash : option PasswordHash)
  (oidcSubject : string) (disabledAt : option Z) : M AuthTables User := fun t =>
  match users t !! id with
  | None => (Err (Failure ErrNotFound), t)
  | Some r =>
      write_user (mkUserRow (urID r) (urEmail r) (nullif_empty displayName) role passwordHash (nullif_empty oidcSubject)
        disabledAt (urCreatedAt r) now) t
  end.

Context (E : Surroundings AuthTables).

Definition CreateUser (params : CreateUserParams) : M (Server AuthTables) User :=
  random ← read_random E 16;
  statement E (fun n => r ← of_result (created_user random (db_time E n) params); insert_user r).

(** The reads and the write are two statements, with no transaction around them. *)
Definition UpdateUser (params : UpdateUserParams) : M (Server AuthTables) User :=
  current ← statement E (fun _ => GetUser (uuID params));
  let displayName := default (uDisplayName current) (uuDisplayName params) in
  let role := default (uRole current) (uuRole params) in
  if bool_decide (is_Some (uuRole params)) && negb (valid_role role) then fail_with "update user: invalid role %q"
  else
    let passwordHash := match uuPasswordHash params with Some h => Some h | None => uPasswordHash current end in
    let oidcSubject := default (uOIDCSubject current) (uuOIDCSubject params) in
    disabledAt ← match uuDisabled params with
      | Some true => now ← read_clock E; mret (Some (micros now))
      | Some false => mret None
      | None => mret (uDisabledAt current)
      end;
    statement E (fun n => update_user_row (db_time E n) (uuID params) displayName role passwordHash oidcSubject disabledAt).

(** ** session_repository.go *)

Record CreateSessionParams := mkCreateSession { csUserID : string; csTokenHash : list Z; csExpiresAt : Time }.

Definition newSessionID (random : list Z) : string := "session_" +:+ hex_encode random.

Definition insert_session (s : Session) : M AuthTables Session := fun t =>
  let error e := (Err (Failure (Wrapf "scan session: %w" (Errorf e))), t) in
  if bool_decide (sessTokenHash s = []) then error "violates check constraint"
  else if bool_decide (is_Some (sessions t !! sessID s)) then error "duplicate key value"
  else if negb (bool_decide (is_Some (users t !! sessUserID s))) then error "violates foreign key constraint"
  else (Ok s, set_sessions (<[sessID s := s]> (sessions t)) t).

Definition CreateSession (params : CreateSessionParams) : M (Server AuthTables) Session :=
  if String.eqb (csUserID params) "" then fail_with "create session: user id is required"
  else if bool_decide (csTokenHash params = []) then fail_with "create session: token hash is required"
  else if IsZero (csExpiresAt params) then fail_with "create session: expires_at is required"
  else
    random ← read_random E 16;
    statement E (fun n => insert_session (mkSession (newSessionID random) (csUserID params) (csTokenHash params)
      (micros (csExpiresAt params)) (db_time E n))).

Definition GetSessionByTokenHash (tokenHash : list Z) : M AuthTables Session := fun t =>
  (match List.filter (fun s => bool_decide (sessTokenHash s = tokenHash)) (table_rows (sessions t)) with
   | [] => Err (Failure ErrNotFound)
   | s :: _ => Ok s
   end, t).

Definition DeleteSession (id : string) : M AuthTables unit := fun t =>
  match sessions t !! id with
  | None => (Err (Failure ErrNotFound), t)
  | Some _ => (Ok tt, set_sessions (delete id (sessions t)) t)
  end.

Definition DeleteSessionByTokenHash (tokenHash : list Z) : M AuthTables unit := fun t =>
  (Ok tt, set_sessions (delete_rows (fun s => bool_decide (sessTokenHash s = tokenHash)) (sessions t)) t).

Definition DeleteExpiredSessions (now : Time) : M AuthTables unit := fun t =>
  (Ok tt, set_sessions (delete_rows (fun s => sessExpiresAt s <=? micros now) (sessions t)) t).

End Repository.

(** ** Reading a row *)

Lemma rows_none {R} (p : R -> bool) (t : gmap string R) :
  (forall key r, t !! key = Some r -> p r = false) -> List.filter p (table_rows t) = [].
Proof.
  intros Hn. destruct (List.filter p (table_rows t)) as [|r l] eqn:E; [done|]. exfalso.
  assert (In r (List.filter p (table_rows t))) as Hin by (rewrite E; by left).
  apply filter_In in Hin as [Hin Hp]. apply list_elem_of_In, elem_of_table_rows in Hin as [key Hr]. by rewrite (Hn _ _ Hr) in Hp.
Qed.

Lemma rows_one {R} (p : R -> bool) (t : gmap string R) key r :
  t !! key = Some r -> p r = true -> (forall key' r', t !! key' = Some r' -> p r' = true -> key' = key) ->
  List.filter p (table_rows t) = [r].
Proof.
  intros Hr Hp Hu. apply Permutation_singleton_r. unfold table_rows.
  rewrite (filter_Permutation p _ ((key, r) :: map_to_list (delete key t)).*2); [|by rewrite map_to_list_delete].
  cbn [fmap list_fmap List.filter snd]. rewrite Hp. apply Permutation_singleton_r. f_equal. apply (rows_none p (delete key t)).
  intros key' r' [Hne Hr']%lookup_delete_Some. apply not_true_iff_false. intros Hp'. by destruct Hne; symmetry; eapply Hu.
Qed.

Lemma rows_first {R} (p : R -> bool) (t : gmap string R) r l :
  List.filter p (table_rows t) = r :: l -> p r = true /\ exists key, t !! key = Some r.
Proof.
  intros E. assert (In r (List.filter p (table_rows t))) as Hin by (rewrite E; by left).
  apply filter_In in Hin as [Hin Hp]. split; [done|]. by apply list_elem_of_In, elem_of_table_rows in Hin.
Qed.

(** ** The tables that the statements keep *)

Section Invariant.
Context `{Casing}.

Record auth_ok (t : AuthTables) : Prop := {
  au_keyed key r : users t !! key = Some r -> urID r = key;
  au_checked key r : users t !! key = Some r -> user_row_ok r = true;
  au_unique k1 k2 r1 r2 : users t !! k1 = Some r1 -> users t !! k2 = Some r2 -> users_clash r1 r2 = true -> k1 = k2;
  au_session_keyed key s : sessions t !! key = Some s -> sessID s = key;
  au_session_token key s : sessions t !! key = Some s -> sessTokenHash s <> [];
  au_session_user key s : sessions t !! key = Some s -> is_Some (users t !! sessUserID s)
}.

Lemma users_clash_sym a b : users_clash a b = users_clash b a.
Proof.
  unfold users_clash. rewrite String.eqb_sym. f_equal. apply Bool.eq_iff_eq_true.
  rewrite !andb_true_iff, !bool_decide_eq_true. split; intros [H1 H2]; split; congruence.
Qed.

Lemma GetUser_spec id t : auth_ok t ->
  GetUser id t = (match users t !! id with Some r => Ok (scanUser r) | None => Err (Failure ErrNotFound) end, t).
Proof.
  intros Ht. unfold GetUser. destruct (users t !! id) as [r|] eqn:Hr.
  - rewrite (rows_one _ _ id r Hr); [done| |].
    + apply String.eqb_eq. by apply (au_keyed t Ht).
    + intros key' r' Hr' E%String.eqb_eq. rewrite <- E. symmetry. by apply (au_keyed t Ht).
  - rewrite rows_none; [done|]. intros key r Hr'. apply String.eqb_neq. intros E. rewrite (au_keyed t Ht _ _ Hr') in E. congruence.
Qed.

Lemma GetUserByEmail_spec email t : auth_ok t ->
  match (GetUserByEmail email t).1 with
  | Ok u => exists id r, users t !! id = Some r /\ u = scanUser r /\ uID u = id /\ db_lower (urEmail r) = normalize_email email
  | Err e => e = Failure ErrNotFound /\ forall id r, users t !! id = Some r -> db_lower (urEmail r) <> normalize_email email
  end.
Proof.
  intros Ht. unfold GetUserByEmail. cbn [fst]. destruct (List.filter _ _) as [|r l] eqn:E; cbn.
  - split; [done|]. intros id r Hr He. assert (In r []) as []. rewrite <- E. apply filter_In. split; [|by apply String.eqb_eq].
    apply list_elem_of_In, elem_of_table_rows. by exists id.
  - apply rows_first in E as [Hp [key Hr]]. exists key, r. apply String.eqb_eq in Hp. split; [done|]. split; [done|].
    split; [by apply (au_keyed t Ht)|done].
Qed.

(** The email decides the user. *)
Lemma GetUserByEmail_found email t id r : auth_ok t -> users t !! id = Some r -> db_lower (urEmail r) = normalize_email email ->
  GetUserByEmail email t = (Ok (scanUser r), t).
Proof.
  intros Ht Hr He. unfold GetUserByEmail. rewrite (rows_one _ _ id r Hr); [done|by apply String.eqb_eq|].
  intros id' r' Hr' He'%String.eqb_eq. apply (au_unique t Ht id' id r' r Hr' Hr). unfold users_clash.
  apply orb_true_iff. left. apply String.eqb_eq. congruence.
Qed.

Lemma write_user_ok r t : auth_ok t -> auth_ok (write_user r t).2.
Proof.
  intros Ht. unfold write_user. destruct (user_row_ok r) eqn:Er; cbn [negb]; [|done].
  destruct (user_taken r (users t)) eqn:Et; [done|]. cbn [snd].
  assert (forall k r', users t !! k = Some r' -> users_clash r' r = true -> k = urID r) as Hu.
  { intros k r' Hr' Hc. unfold user_taken in Et. rewrite existsb_false_elem in Et.
    specialize (Et r' ltac:(apply elem_of_table_rows; by exists k)). rewrite Hc, andb_true_r, negb_false_iff in Et.
    apply String.eqb_eq in Et. rewrite <- Et. symmetry. by apply (au_keyed t Ht). }
  split; cbn [users sessions set_users].
  - intros key r' [[<- <-]|[_ Hr']]%lookup_insert_Some; [done|by apply (au_keyed t Ht)].
  - intros key r' [[<- <-]|[_ Hr']]%lookup_insert_Some; [done|by eapply (au_checked t Ht)].
  - intros k1 k2 r1 r2 [[<- <-]|[_ H1]]%lookup_insert_Some [[<- <-]|[_ H2]]%lookup_insert_Some Hc; [done|..].
    + symmetry. apply (Hu k2 r2 H2). by rewrite users_clash_sym.
    + by apply (Hu k1 r1 H1).
    + by apply (au_unique t Ht _ _ _ _ H1 H2).
  - apply (au_session_keyed t Ht).
  - apply (au_session_token t Ht).
  - intros key s Hs. destruct (au_session_user t Ht key s Hs) as [r' Hr']. apply lookup_insert_is_Some.
    destruct (decide (urID r = sessUserID s)); [by left|right; split; [done|by exists r']].
Qed.

Lemma insert_user_ok r t : auth_ok t -> auth_ok (insert_user r t).2.
Proof. intros Ht. unfold insert_user. case_bool_decide; [done|]. by apply write_user_ok. Qed.

Lemma update_user_row_ok now id dn role ph sub dis t : auth_ok t -> auth_ok (update_user_row now id dn role ph sub dis t).2.
Proof. intros Ht. unfold update_user_row. destruct (users t !! id); [|done]. by apply write_user_ok. Qed.

Lemma insert_session_ok s t : auth_ok t -> auth_ok (insert_session s t).2.
Proof.
  intros Ht. unfold insert_session. case_bool_decide; [done|]. case_bool_decide as H2; [done|]. case_bool_decide as H3; [|done].
  cbn [negb snd]. split; cbn [users sessions set_sessions]; try apply Ht.
  - intros key s' [[<- <-]|[_ Hs]]%lookup_insert_Some; [done|by apply (au_session_keyed t Ht)].
  - intros key s' [[<- <-]|[_ Hs]]%lookup_insert_Some; [done|by eapply (au_session_token t Ht)].
  - intros key s' [[<- <-]|[_ Hs]]%lookup_insert_Some; [done|by eapply (au_session_user t Ht)].
Qed.

(** Fewer sessions. *)
Lemma fewer_sessions_ok m t : m ⊆ sessions t -> auth_ok t -> auth_ok (set_sessions m t).
Proof.
  intros Hm Ht. split; cbn [users sessions set_sessions]; try apply Ht; intros key s Hs; pose proof (lookup_weaken _ _ _ _ Hs Hm) as Hs'.
  - by apply (au_session_keyed t Ht).
  - by eapply (au_session_token t Ht).
  - by eapply (au_session_user t Ht).
Qed.

Lemma DeleteSession_ok id t : auth_ok t -> auth_ok (DeleteSession id t).2.
Proof. intros Ht. unfold DeleteSession. destruct (sessions t !! id); [|done]. apply fewer_sessions_ok; [apply delete_subseteq|done]. Qed.
Lemma DeleteSessionByTokenHash_ok h t : auth_ok t -> auth_ok (DeleteSessionByTokenHash h t).2.
Proof. intros Ht. apply fewer_sessions_ok; [apply map_filter_subseteq|done]. Qed.
Lemma DeleteExpiredSessions_ok now t : auth_ok t -> auth_ok (DeleteExpiredSessions now t).2.
Proof. intros Ht. apply fewer_sessions_ok; [apply map_filter_subseteq|done]. Qed.

Lemma empty_auth_ok : auth_ok (mkAuthTables ∅ ∅).
Proof. split; cbn; intros *; rewrite ?lookup_empty; done. Qed.
End Invariant.
