(* ===== verification/Auth.v ===== *)
(** * Auth

    packages/auth: principals, sessions (session.go), the service (service.go), the
    bootstrap of the administrator (bootstrap.go) and the OIDC login (oidc.go).  The
    identity provider is a parameter: the exchange of a code, and the verification of an
    ID token with its claims. *)
From S2P Require Import Prelude GoStrings GoTime GoDuration GoSha256 GoBase64 JobRuns ErrState Catalog UpstreamEvents Request Passwords Users.
Local Open Scope Z_scope.

Definition ErrInvalidCredentials : store_error := Errorf "auth: invalid credentials".
Definition ErrUnauthorized : store_error := Errorf "auth: unauthorized".
Definition ErrForbidden : store_error := Errorf "auth: forbidden".
Definition ErrUserDisabled : store_error := Errorf "auth: user disabled".
Definition ErrUserExists : store_error := Errorf "auth: user already exists".
Definition ErrPasswordNotSet : store_error := Errorf "auth: password not set".
Definition ErrOIDCNotConfigured : store_error := Errorf "auth: oidc not configured".
Definition ErrOIDCStateInvalid : store_error := Errorf "auth: oidc state invalid".
Definition ErrOIDCEmailMissing : store_error := Errorf "auth: oidc email claim missing".
Definition ErrOIDCSubjectConflict : store_error := Errorf "auth: oidc subject conflict".

(** ** principal.go *)

Notation Role := string (only parsing).
Definition RoleAdmin : Role := "admin".
Definition RoleUser : Role := "user".
Record Principal := mkPrincipal { pID : string; pEmail : string; pRole : Role }.
Definition PrincipalFromUser (user : User) : Principal := mkPrincipal (uID user) (uEmail user) (uRole user).
Definition IsAdmin (p : Principal) : bool := String.eqb (pRole p) RoleAdmin.
Definition RequireAdmin (p : Principal) : result store_error unit := if negb (IsAdmin p) then Err ErrForbidden else Ok tt.

(** ** The identity provider *)

Record Claims := mkClaims { clEmail : string; clEmailVerified : bool; clName : string }.
Record IDToken := mkIDToken { itSubject : string; itClaims : result store_error Claims }.
Record OIDCProvider := mkOIDCProvider {
  oidcSecret : list Z;
  oidcAuthCodeURL : string -> string;
  (* the [id_token] of the answer to a code, when it is a string *)
  oidcExchange : nat -> string -> result store_error (option string);
  oidcVerify : nat -> string -> result store_error IDToken
}.

Record Config := mkConfig {
  SuperuserEmail : string; SuperuserPassword : string; SessionTTL : Z; SecureCookies : bool; WebAppURL : string;
  OIDC : option OIDCProvider
}.

(** ** session.go *)

Record SessionToken := mkSessionToken { tkValue : string; tkTokenHash : list Z; tkExpiresAt : Time }.

Definition HashSessionToken (token : string) : list Z := sha256_sum (bytes_of token).
Definition string_of (l : list Z) : string := fold_right (fun b s => String (byte_of b) s) "" l.

Section Service.
Context `{Casing, Argon2} (E : Surroundings AuthTables).

Definition NewSessionToken (ttl : Z) : M (Server AuthTables) SessionToken :=
  if ttl <=? 0 then fail_with "session ttl must be positive"
  else
    raw ← read_random E 32;
    let value := raw_url_encode raw in
    now ← read_clock E;
    mret (mkSessionToken value (HashSessionToken value) (Add (UTC now) ttl)).

Definition CreateSessionFor (userID : string) (ttl : Z) : M (Server AuthTables) (SessionToken * Session) :=
  token ← NewSessionToken ttl;
  session ← CreateSession E (mkCreateSession userID (tkTokenHash token) (tkExpiresAt token));
  mret (token, session).

Definition ResolveSession (token : string) : M (Server AuthTables) Principal :=
  if String.eqb token "" then fail (Failure ErrUnauthorized)
  else
    session ← attempted (statement E (fun _ => GetSessionByTokenHash (HashSessionToken token)));
    match session with
    | Err _ => fail (Failure ErrUnauthorized)
    | Ok session =>
        now ← read_clock E;
        if negb (After (time_of_micros (sessExpiresAt session)) now) then
          _ ← attempted (statement E (fun _ => DeleteSession (sessID session)));
          fail (Failure ErrUnauthorized)
        else
          user ← attempted (statement E (fun _ => GetUser (sessUserID session)));
          match user with
          | Err _ => fail (Failure ErrUnauthorized)
          | Ok user =>
              if bool_decide (is_Some (uDisabledAt user)) then fail (Failure ErrUserDisabled) else mret (PrincipalFromUser user)
          end
    end.

Definition RevokeSession (token : string) : M (Server AuthTables) unit :=
  if String.eqb token "" then mret tt
  else statement E (fun _ => DeleteSessionByTokenHash (HashSessionToken token)).

(** ** service.go *)

Context (cfg : Config).

Definition hasher : Argon2idPasswordParams := defaultArgon2idPasswordParams.

(** The session of a user who has proved who they are. *)
Definition issue (user : User) : M (Server AuthTables) (Principal * SessionToken) :=
  created ← CreateSessionFor (uID user) (SessionTTL cfg);
  mret (PrincipalFromUser user, created.1).

Definition Login (email password : string) : M (Server AuthTables) (Principal * SessionToken) :=
  user ← attempted (statement E (fun _ => GetUserByEmail email));
  match user with
  | Err _ => fail (Failure ErrInvalidCredentials)
  | Ok user =>
      if bool_decide (is_Some (uDisabledAt user)) then fail (Failure ErrUserDisabled)
      else match uPasswordHash user with
           | None => fail (Failure ErrPasswordNotSet)
           | Some hash =>
               match VerifyPassword password hash with
               | Err _ => fail (Failure ErrInvalidCredentials)
               | Ok _ => issue user
               end
           end
  end.

Definition Logout (sessionToken : string) : M (Server AuthTables) unit := RevokeSession sessionToken.
Definition SessionFromToken (sessionToken : string) : M (Server AuthTables) Principal := ResolveSession sessionToken.

Record ServiceCreateUser := mkServiceCreate { scEmail : string; scDisplayName : string; scRole : Role; scPassword : string }.
Record ServiceUpdateUser := mkServiceUpdate {
  suID : string; suRole : option Role; suDisabled : option bool; suPassword : option string; suDisplayName : option string
}.

Definition optional_hash (password : string) : M (Server AuthTables) (option PasswordHash) :=
  if String.eqb password "" then mret None else hash ← HashPassword E hasher password; mret (Some hash).

Definition ServiceCreate (params : ServiceCreateUser) : M (Server AuthTables) User :=
  let email := normalize_email (scEmail params) in
  if String.eqb email "" then fail_with "create user: email is required"
  else
    let role := if String.eqb (scRole params) RoleAdmin then UserRoleAdmin else UserRoleUser in
    passwordHash ← optional_hash (scPassword params);
    user ← attempted (CreateUser E (mkCreateUser email (scDisplayName params) role passwordHash ""));
    match user with
    | Ok user => mret user
    | Err (Failure e) => if is_unique_violation e then fail (Failure ErrUserExists) else fail (Failure e)
    | Err OutOfFuel => fail OutOfFuel
    end.

Definition ServiceUpdate (params : ServiceUpdateUser) : M (Server AuthTables) User :=
  let role := (fun r => if String.eqb r RoleAdmin then UserRoleAdmin else UserRoleUser) <$> suRole params in
  passwordHash ← match suPassword params with
    | Some password =>
        if String.eqb password "" then fail_with "update user: password cannot be empty"
        else hash ← HashPassword E hasher password; mret (Some hash)
    | None => mret None
    end;
  UpdateUser E (mkUpdateUser (suID params) (suDisplayName params) role passwordHash None (suDisabled params)).

Definition SetPassword (userID password : string) : M (Server AuthTables) unit :=
  if String.eqb password "" then fail_with "set password: password is required"
  else
    hash ← HashPassword E hasher password;
    _ ← UpdateUser E (mkUpdateUser userID None None (Some hash) None None);
    mret tt.

(** ** bootstrap.go *)

Definition EnsureBootstrapAdmin (email password : string) : M (Server AuthTables) unit :=
  let normalizedEmail := normalize_email email in
  if String.eqb normalizedEmail "" then fail_with "bootstrap admin: email is required"
  else
    existing ← attempted (statement E (fun _ => GetUserByEmail normalizedEmail));
    match existing with
    | Err e =>
        if negb (bool_decide (e = Failure ErrNotFound)) then fail_with "bootstrap admin: lookup user: %w"
        else
          passwordHash ← optional_hash password;
          match passwordHash with
          | None => fail_with "bootstrap admin: password is required for initial admin user"
          | Some _ => _ ← CreateUser E (mkCreateUser normalizedEmail "" UserRoleAdmin passwordHash ""); mret tt
          end
    | Ok existing =>
        passwordHash ← optional_hash password;
        _ ← UpdateUser E (mkUpdateUser (uID existing) None (Some UserRoleAdmin) passwordHash None None);
        mret tt
    end.

(** ** oidc.go *)

Definition sign (p : OIDCProvider) (payload : string) : string := raw_url_encode (hmac_sha256 (oidcSecret p) (bytes_of payload)).

Definition SignState (p : OIDCProvider) (state : string) (expiresAt : Time) : string :=
  let payload := state +:+ "|" +:+ FormatRFC3339NanoUTC expiresAt in
  raw_url_encode (bytes_of (payload +:+ "|" +:+ sign p payload)).

Definition VerifyState (p : OIDCProvider) (signed : string) : M (Server AuthTables) string :=
  let invalid := fail (Failure ErrOIDCStateInvalid) in
  match raw_url_decode signed with
  | None => invalid
  | Some decoded =>
      match Split "|" (string_of decoded) with
      | [state; expiresRaw; signature] =>
          match ParseRFC3339 expiresRaw with
          | None => invalid
          | Some expiresAt =>
              now ← read_clock E;
              if negb (After expiresAt now) then invalid
              else if negb (String.eqb signature (sign p (state +:+ "|" +:+ expiresRaw))) then invalid
              else mret state
          end
      | _ => invalid
      end
  end.

Definition VerifyCallbackState (p : OIDCProvider) (returnedState signedState : string) : M (Server AuthTables) unit :=
  expected ← VerifyState p signedState;
  if String.eqb returnedState "" || negb (String.eqb returnedState expected) then fail (Failure ErrOIDCStateInvalid) else mret tt.

Definition Exchange (p : OIDCProvider) (code : string) : M (Server AuthTables) (IDToken * string * string) := fun w =>
  let n := ticks w in
  let w := mkServer (S n) (data w) in
  match oidcExchange p n code with
  | Err e => (Err (Failure (Wrapf "exchange oidc code: %w" e)), w)
  | Ok rawIDToken =>
      if String.eqb (default "" rawIDToken) "" then (Err (Failure (Errorf "exchange oidc code: missing id_token")), w)
      else match oidcVerify p n (default "" rawIDToken) with
           | Err e => (Err (Failure (Wrapf "verify oidc id token: %w" e)), w)
           | Ok idToken =>
               match itClaims idToken with
               | Err e => (Err (Failure (Wrapf "decode oidc claims: %w" e)), w)
               | Ok claims =>
                   let email := normalize_email (clEmail claims) in
                   if String.eqb email "" || negb (clEmailVerified claims) then (Err (Failure ErrOIDCEmailMissing), w)
                   else (Ok (idToken, email, TrimSpace (clName claims)), w)
               end
           end
  end.

Definition OIDCStartURL : M (Server AuthTables) (string * string * Time) :=
  match OIDC cfg with
  | None => fail (Failure ErrOIDCNotConfigured)
  | Some p =>
      raw ← read_random E 16;
      let state := hex_encode raw in
      now ← read_clock E;
      let expiresAt := Add (UTC now) (10 * GoDuration.Minute) in
      mret (oidcAuthCodeURL p state, SignState p state expiresAt, expiresAt)
  end.

Definition OIDCCallback (code returnedState signedState : string) : M (Server AuthTables) (Principal * SessionToken) :=
  match OIDC cfg with
  | None => fail (Failure ErrOIDCNotConfigured)
  | Some p =>
      _ ← VerifyCallbackState p returnedState signedState;
      exchanged ← Exchange p code;
      let '(idToken, email, displayName) := exchanged in
      existingBySubject ← attempted (statement E (fun _ => GetUserByOIDCSubject (itSubject idToken)));
      match existingBySubject with
      | Ok existing =>
          if bool_decide (is_Some (uDisabledAt existing)) then fail (Failure ErrUserDisabled) else issue existing
      | Err e =>
          if negb (bool_decide (e = Failure ErrNotFound)) then fail e
          else
            user ← attempted (statement E (fun _ => GetUserByEmail email));
            match user with
            | Err _ => fail (Failure ErrInvalidCredentials)
            | Ok user =>
                if bool_decide (is_Some (uDisabledAt user)) then fail (Failure ErrUserDisabled)
                else if negb (String.eqb (uOIDCSubject user) "") && negb (String.eqb (uOIDCSubject user) (itSubject idToken))
                then fail (Failure ErrOIDCSubjectConflict)
                else
                  let displayName := if String.eqb (uDisplayName user) "" && negb (String.eqb displayName "")
                                     then Some displayName else None in
                  user ← UpdateUser E (mkUpdateUser (uID user) displayName None None (Some (itSubject idToken)) None);
                  issue user
            end
      end
  end.
End Service.
