(* ===== verification/AuthProofs.v ===== *)
(** * AuthProofs

    The theorems on users and sessions. *)
From S2P Require Import Prelude GoStrings GoTime GoSha256 GoBase64 JobRuns ErrState Catalog UpstreamEvents Request Passwords Users Auth.
Local Open Scope Z_scope.

(** ** The operations of the service *)

Inductive auth_op :=
| OpLogin (email password : string)
| OpLogout (token : string)
| OpResolve (token : string)
| OpCreateUser (params : ServiceCreateUser)
| OpUpdateUser (params : ServiceUpdateUser)
| OpSetPassword (userID password : string)
| OpBootstrap (email password : string)
| OpCallback (code returnedState signedState : string)
| OpPurge (now : Time).

(** What the operations that succeed do to the tokens in circulation. *)
Inductive auth_event :=
| Issued (userID : string) (token : SessionToken)
| Revoked (token : string).

Section Operations.
Context `{Casing, Argon2} (E : Surroundings AuthTables) (cfg : Config).

Definition auth_step (o : auth_op) : M (Server AuthTables) (list auth_event) :=
  match o with
  | OpLogin email password => r ← Login E cfg email password; mret [Issued (pID r.1) r.2]
  | OpLogout token => _ ← Logout E token; mret (if String.eqb token "" then [] else [Revoked token])
  | OpResolve token => _ ← SessionFromToken E token; mret []
  | OpCreateUser params => _ ← ServiceCreate E params; mret []
  | OpUpdateUser params => _ ← ServiceUpdate E params; mret []
  | OpSetPassword userID password => _ ← SetPassword E userID password; mret []
  | OpBootstrap email password => _ ← EnsureBootstrapAdmin E email password; mret []
  | OpCallback code returnedState signedState => r ← OIDCCallback E cfg code returnedState signedState; mret [Issued (pID r.1) r.2]
  | OpPurge now => _ ← statement E (fun _ => DeleteExpiredSessions now); mret []
  end.

(** Operations one after the other from empty tables, with the events of those that
    succeeded. *)
Inductive auth_history : Server AuthTables -> list auth_event -> Prop :=
| history_start n : auth_history (mkServer n (mkAuthTables ∅ ∅)) []
| history_ok w es o new w' : auth_history w es -> auth_step o w = (Ok new, w') -> auth_history w' (es ++ new)
| history_err w es o e w' : auth_history w es -> auth_step o w = (Err e, w') -> auth_history w' es.

(** ** Preservation

    A predicate of the tables that the statements on users, the deletion of sessions and
    the insertion of a session keep is kept by every operation. *)
Section Keeping.
Variable I : AuthTables -> Prop.
Hypothesis meanwhile_I : forall n t, I t -> I (meanwhile E n t).
Hypothesis user_write_I : forall t m, auth_ok t -> auth_ok (set_users m t) -> I t -> I (set_users m t).
Hypothesis session_delete_I : forall t m, m ⊆ sessions t -> I t -> I (set_sessions m t).
Hypothesis I_ok : forall t, I t -> auth_ok t.

Lemma keeps_write_user r : keeps I (write_user r).
Proof.
  intros t Ht. pose proof (write_user_ok r t (I_ok t Ht)) as Hok. unfold write_user in *.
  destruct (user_row_ok r); [|done]. cbn [negb] in *. destruct (user_taken r (users t)); [done|].
  by apply user_write_I; [apply I_ok| |].
Qed.
Lemma keeps_insert_user r : keeps I (insert_user r).
Proof. intros t Ht. unfold insert_user. case_bool_decide; [done|]. by apply keeps_write_user. Qed.
Lemma keeps_update_user_row now id dn role ph sub dis : keeps I (update_user_row now id dn role ph sub dis).
Proof. intros t Ht. unfold update_user_row. destruct (users t !! id); [|done]. by apply keeps_write_user. Qed.
Lemma keeps_read_only {A} (f : AuthTables -> result run_error A) : keeps I (fun t => (f t, t)).
Proof. intros t Ht. by destruct (f t). Qed.
Lemma keeps_DeleteSession id : keeps I (DeleteSession id).
Proof.
  intros t Ht. unfold DeleteSession. destruct (sessions t !! id); [|done]. apply session_delete_I; [apply delete_subseteq|done].
Qed.
Lemma keeps_delete_sessions p : keeps I (fun t => (Ok tt, set_sessions (delete_rows p (sessions t)) t)).
Proof. intros t Ht. apply session_delete_I; [apply map_filter_subseteq|done]. Qed.

Ltac keeping_step :=
  lazymatch goal with
  | |- keeps _ (mret _) => apply keeps_mret
  | |- keeps _ (fail _) => apply keeps_fail
  | |- keeps _ (fail_with _) => apply keeps_fail
  | |- keeps _ (of_result _) => apply keeps_of_result
  | |- keeps _ (mbind _ _) => apply keeps_mbind; [|intros ?]
  | |- keeps _ (read_clock _) => apply keeps_read_clock
  | |- keeps _ (read_random _ _) => apply keeps_read_random
  | |- keeps _ (attempted _) => apply keeps_attempted
  | |- keeps _ (statement _ _) => apply keeps_statement; [exact meanwhile_I|intros ?]
  | |- keeps _ (insert_user _) => apply keeps_insert_user
  | |- keeps _ (update_user_row _ _ _ _ _ _ _) => apply keeps_update_user_row
  | |- keeps _ (DeleteSession _) => apply keeps_DeleteSession
  | |- keeps _ (DeleteSessionByTokenHash _) => apply keeps_delete_sessions
  | |- keeps _ (DeleteExpiredSessions _) => apply keeps_delete_sessions
  | |- keeps _ (GetUser _) => apply keeps_read_only
  | |- keeps _ (GetUserByEmail _) => apply keeps_read_only
  | |- keeps _ (GetUserByOIDCSubject _) => apply keeps_read_only
  | |- keeps _ (GetSessionByTokenHash _) => apply keeps_read_only
  | |- keeps _ (match ?x with _ => _ end) => destruct x
  end.
Ltac keeping := repeat keeping_step.

Notation served := (holds I).

Lemma keeps_HashPassword params password : keeps served (HashPassword E params password).
Proof. unfold HashPassword. keeping. Qed.
Lemma keeps_optional_hash password : keeps served (optional_hash E password).
Proof. unfold optional_hash. keeping. apply keeps_HashPassword. Qed.
Lemma keeps_CreateUser params : keeps served (CreateUser E params).
Proof. unfold CreateUser. keeping. Qed.
Lemma keeps_UpdateUser params : keeps served (UpdateUser E params).
Proof. unfold UpdateUser. cbv zeta. keeping. Qed.
Lemma keeps_ResolveSession token : keeps served (ResolveSession E token).
Proof. unfold ResolveSession. keeping. Qed.
Lemma keeps_Logout token : keeps served (Logout E token).
Proof. unfold Logout, RevokeSession. keeping. Qed.
Lemma keeps_ServiceCreate params : keeps served (ServiceCreate E params).
Proof. unfold ServiceCreate. cbv zeta. keeping; [apply keeps_optional_hash|apply keeps_CreateUser]. Qed.
Lemma keeps_ServiceUpdate params : keeps served (ServiceUpdate E params).
Proof. unfold ServiceUpdate. cbv zeta. keeping; first [apply keeps_HashPassword|apply keeps_UpdateUser]. Qed.
Lemma keeps_SetPassword userID password : keeps served (SetPassword E userID password).
Proof. unfold SetPassword. keeping; first [apply keeps_HashPassword|apply keeps_UpdateUser]. Qed.
Lemma keeps_Bootstrap email password : keeps served (EnsureBootstrapAdmin E email password).
Proof.
  unfold EnsureBootstrapAdmin. cbv zeta. keeping; first [apply keeps_optional_hash|apply keeps_UpdateUser|apply keeps_CreateUser].
Qed.
Lemma keeps_VerifyCallbackState p returned signed : keeps served (VerifyCallbackState E p returned signed).
Proof. unfold VerifyCallbackState, VerifyState. cbv zeta. keeping. Qed.
Lemma keeps_Exchange p code : keeps served (Exchange p code).
Proof. intros w Hw. unfold Exchange. cbv zeta. by repeat case_match. Qed.

(** The operations that issue no token. *)
Definition issues (o : auth_op) : bool := match o with OpLogin _ _ | OpCallback _ _ _ => true | _ => false end.

Lemma keeps_step o : issues o = false -> keeps served (auth_step o).
Proof.
  destruct o; intros Ho; try discriminate; cbn [auth_step]; (apply keeps_mbind; [|intros ?; apply keeps_mret]).
  - apply keeps_Logout. - apply keeps_ResolveSession. - apply keeps_ServiceCreate. - apply keeps_ServiceUpdate.
  - apply keeps_SetPassword. - apply keeps_Bootstrap. - keeping.
Qed.

(** The operations that do, given what issuing one does. *)
Variable J : SessionToken * User -> AuthTables -> Prop.
Hypothesis issue_J : forall user,
  triple served (issue E cfg user) (fun r w => r.1 = PrincipalFromUser user /\ J (r.2, user) (data w)) (fun _ => served).

Lemma triple_keeps {A B} (m : M (Server AuthTables) A) (f : A -> M (Server AuthTables) B) Q :
  keeps served m -> (forall a, triple served (f a) Q (fun _ => served)) -> triple served (m ≫= f) Q (fun _ => served).
Proof. intros Hm Hf. by eapply triple_bind. Qed.

Definition issued_user (r : Principal * SessionToken) (w : Server AuthTables) : Prop :=
  exists user, r.1 = PrincipalFromUser user /\ J (r.2, user) (data w).

Ltac issuing :=
  repeat lazymatch goal with
  | |- triple _ (fail _) _ _ => intros s Hs; exact Hs
  | |- triple _ (mbind _ _) _ _ => eapply triple_keeps; [solve [keeping]|intros ?]
  | |- triple _ (match ?x with _ => _ end) _ _ => destruct x
  end.

Lemma triple_issue user : triple served (issue E cfg user) issued_user (fun _ => served).
Proof. eapply triple_post; [apply issue_J| |done]. intros r w Hr. by exists user. Qed.

Lemma triple_Login email password : triple served (Login E cfg email password) issued_user (fun _ => served).
Proof. unfold Login. issuing; apply triple_issue. Qed.

Lemma triple_Callback code returned signed : triple served (OIDCCallback E cfg code returned signed) issued_user (fun _ => served).
Proof.
  unfold OIDCCallback. case_match; [|intros s Hs; exact Hs].
  eapply triple_keeps; [apply keeps_VerifyCallbackState|intros ?]. eapply triple_keeps; [apply keeps_Exchange|intros [[idToken email] dn]].
  issuing; try apply triple_issue. cbv zeta. eapply triple_keeps; [apply keeps_UpdateUser|intros ?; apply triple_issue].
Qed.
End Keeping.
End Operations.

(** ** The invariant of the tables *)

Section Kept.
Context `{Casing, Argon2} (E : Surroundings AuthTables) (cfg : Config).
Hypothesis meanwhile_ok : forall n t, auth_ok t -> auth_ok (meanwhile E n t).

Lemma keeps_insert_session s : keeps auth_ok (insert_session s).
Proof. intros t Ht. pose proof (insert_session_ok s t Ht) as Hk. by destruct (insert_session s t) as [[?|?] ?]. Qed.

Lemma keeps_issue_ok user : triple (holds auth_ok) (issue E cfg user)
  (fun r w => r.1 = PrincipalFromUser user /\ auth_ok (data w)) (fun _ => holds auth_ok).
Proof.
  unfold issue. apply (triple_bind _ _ _ (fun _ => holds auth_ok)); [|intros created w Hw; by split].
  change (keeps (holds auth_ok) (CreateSessionFor E (uID user) (SessionTTL cfg))).
  unfold CreateSessionFor, NewSessionToken, CreateSession. cbn [csUserID csTokenHash csExpiresAt].
  repeat lazymatch goal with
  | |- keeps _ (insert_session _) => apply keeps_insert_session
  | |- keeps _ (statement _ _) => apply keeps_statement; [exact meanwhile_ok|intros ?]
  | |- keeps _ (mbind _ _) => apply keeps_mbind; [|intros ?]
  | |- keeps _ (match ?x with _ => _ end) => destruct x
  | |- keeps _ (fail_with _) => apply keeps_fail
  | |- keeps _ (mret _) => apply keeps_mret
  | |- keeps _ (read_clock _) => apply keeps_read_clock
  | |- keeps _ (read_random _ _) => apply keeps_read_random
  end.
Qed.

Lemma step_auth_ok o w : auth_ok (data w) -> auth_ok (data (auth_step E cfg o w).2).
Proof.
  intros Hw. assert (forall t m, auth_ok t -> auth_ok (set_users m t) -> auth_ok t -> auth_ok (set_users m t)) as H1 by done.
  assert (forall t m, m ⊆ sessions t -> auth_ok t -> auth_ok (set_sessions m t)) as H2 by (intros; by apply fewer_sessions_ok).
  assert (forall t, auth_ok t -> auth_ok t) as H3 by done.
  assert (keeps (holds auth_ok) (auth_step E cfg o)) as Hk.
  { destruct (issues o) eqn:Ho; [|by apply (keeps_step E cfg auth_ok)].
    assert (forall r w, issued_user (fun _ => auth_ok) r w -> auth_ok (data w)) as Hj by (by intros r w' (user & _ & ?)).
    destruct o; try discriminate; cbn [auth_step].
    - eapply triple_bind; [by apply (triple_Login E cfg auth_ok meanwhile_ok (fun _ => auth_ok) keeps_issue_ok)|].
      intros r w' Hr. by apply (Hj r).
    - eapply triple_bind; [by apply (triple_Callback E cfg auth_ok meanwhile_ok H1 H3 (fun _ => auth_ok) keeps_issue_ok)|].
      intros r w' Hr. by apply (Hj r). }
  specialize (Hk w Hw). by destruct (auth_step E cfg o w) as [[?|?] ?].
Qed.

(** The users and sessions tables keep their invariant - rows under their
    identifiers, an email that is not blank and a known role in each user row, emails that
    are unique up to case and OIDC subjects that are unique, sessions with a token hash
    and of existing users - through every sequence of operations of the service, whatever its
    statements return and whatever other requests that keep it do in between. *)
Theorem auth_tables_kept ops w :
  auth_ok (data w) -> auth_ok (data (fold_left (fun w o => (auth_step E cfg o w).2) ops w)).
Proof.
  revert w. induction ops as [|o ops IH]; intros w Hw; [exact Hw|]. cbn [fold_left]. apply IH. by apply step_auth_ok.
Qed.
End Kept.

(** ** Where tokens come from *)

(** A session of the tables was issued, and has not been revoked since. *)
Definition issued_since (es : list auth_event) (s : Session) : Prop :=
  exists before token after, es = before ++ Issued (sessUserID s) token :: after /\
    tkTokenHash token = sessTokenHash s /\ micros (tkExpiresAt token) = sessExpiresAt s /\
    forall revoked, Revoked revoked ∈ after -> HashSessionToken revoked <> sessTokenHash s.

Definition all_issued (es : list auth_event) (t : AuthTables) : Prop :=
  forall key s, sessions t !! key = Some s -> issued_since es s.

Lemma issued_since_app es new s : issued_since es s ->
  (forall revoked, Revoked revoked ∈ new -> HashSessionToken revoked <> sessTokenHash s) -> issued_since (es ++ new) s.
Proof.
  intros (before & token & after & -> & H1 & H2 & H3) Hn. exists before, token, (after ++ new).
  split; [by rewrite <- app_assoc|]. split; [done|]. split; [done|]. intros revoked [Hin|Hin]%elem_of_app; eauto.
Qed.

Section Tokens.
Context `{Casing, Argon2} (E : Surroundings AuthTables) (cfg : Config).
Hypothesis alone : forall n t, meanwhile E n t = t.
Hypothesis answered : forall n e, failing E n <> Some (AnswerLost e).

(** A statement either runs on the tables as they are, or fails without an effect. *)
Lemma statement_alone {A} (m : nat -> M AuthTables A) w :
  (exists n, statement E m w = ((m n (data w)).1, mkServer (S (ticks w)) (m n (data w)).2)) \/
  (exists e, statement E m w = (Err (Failure e), mkServer (S (ticks w)) (data w))).
Proof.
  unfold statement. rewrite alone. destruct (failing E (ticks w)) as [[e|e]|] eqn:Hf.
  - right. by exists e.
  - by destruct (answered _ _ Hf).
  - left. exists (ticks w). by destruct (m (ticks w) (data w)).
Qed.

Lemma CreateSession_run params w :
  match CreateSession E params w with
  | (Ok s, w') => data w' = set_sessions (<[sessID s := s]> (sessions (data w))) (data w) /\
      sessUserID s = csUserID params /\ sessTokenHash s = csTokenHash params /\ sessExpiresAt s = micros (csExpiresAt params)
  | (Err _, w') => data w' = data w
  end.
Proof.
  unfold CreateSession. destruct (String.eqb _ _); [done|]. case_bool_decide; [done|]. destruct (IsZero _); [done|].
  rewrite bind_run. cbn [read_random]. unfold read_random.
  match goal with |- context [statement E ?m ?w] => destruct (statement_alone m w) as [[n ->]|[e ->]] end; [|done].
  cbn [data]. unfold insert_session. cbv zeta. cbn [sessTokenHash sessID sessUserID sessExpiresAt].
  repeat (match goal with |- context [bool_decide ?P] => destruct (bool_decide P) end; try done).
Qed.

Definition tokens_ok (es : list auth_event) (t : AuthTables) : Prop := auth_ok t /\ all_issued es t.

Lemma issue_token es user :
  triple (holds (tokens_ok es)) (issue E cfg user)
    (fun r w => r.1 = PrincipalFromUser user /\ tokens_ok (es ++ [Issued (uID user) r.2]) (data w)) (fun _ => holds (tokens_ok es)).
Proof.
  intros w [Hok Hes]. pose proof (keeps_issue_ok E cfg ltac:(intros n t; by rewrite alone) user w Hok) as Hok'.
  revert Hok'. unfold issue, CreateSessionFor, NewSessionToken. rewrite !bind_run. destruct (_ <=? 0); [done|].
  rewrite !bind_run. unfold read_random, read_clock. rewrite !bind_run. cbn [ticks data mret M_ret]. rewrite !bind_run.
  match goal with |- context [CreateSession E ?p ?w] => pose proof (CreateSession_run p w) as Hr; destruct (CreateSession E p w) as [[s|e] w'] end;
    cbn [post fst snd mret M_ret] in *; unfold M_ret; cbn [post fst snd]; intros Hok'; [|unfold holds; cbn [data] in Hr; rewrite Hr; done].
  destruct Hr as (Hd & H1 & H2 & H3). cbn [data csUserID csTokenHash csExpiresAt] in *. split; [done|]. split; [apply Hok'|].
  rewrite Hd. intros key s'. cbn [sessions set_sessions]. intros [[<- <-]|[_ Hs]]%lookup_insert_Some.
  - eexists es, _, []. rewrite H1, H2, H3. split; [reflexivity|]. split; [done|]. split; [done|]. intros ?. set_solver.
  - apply issued_since_app; [by eapply Hes|]. set_solver.
Qed.

Lemma tokens_users es t m : auth_ok t -> auth_ok (set_users m t) -> tokens_ok es t -> tokens_ok es (set_users m t).
Proof. intros _ Hok [_ Hes]. by split. Qed.
Lemma tokens_fewer es t m : m ⊆ sessions t -> tokens_ok es t -> tokens_ok es (set_sessions m t).
Proof.
  intros Hm [Hok Hes]. split; [by apply fewer_sessions_ok|]. intros key s Hs. eapply Hes. by eapply lookup_weaken.
Qed.

(** The other operations neither issue nor revoke. *)
Lemma step_silent o w new w' : issues o = false -> (match o with OpLogout _ => true | _ => false end) = false ->
  auth_step E cfg o w = (Ok new, w') -> new = [].
Proof.
  destruct o; intros; try discriminate; cbn [auth_step] in *;
    match goal with H : (?m ≫= ?f) ?w = _ |- _ => rewrite bind_run in H; destruct (m w) as [[?|?] ?]; [by injection H|discriminate] end.
Qed.

Lemma step_tokens es o :
  triple (holds (tokens_ok es)) (auth_step E cfg o) (fun new w => tokens_ok (es ++ new) (data w)) (fun _ => holds (tokens_ok es)).
Proof.
  assert (forall n t, tokens_ok es t -> tokens_ok es (meanwhile E n t)) as Hm by (intros n t; by rewrite alone).
  assert (forall t, tokens_ok es t -> auth_ok t) as Ha by (by intros t []).
  set (J := fun (r : SessionToken * User) t => tokens_ok (es ++ [Issued (uID r.2) r.1]) t).
  assert (forall r w, issued_user J r w -> tokens_ok (es ++ [Issued (pID r.1) r.2]) (data w)) as Hj.
  { intros r w (user & Hp & Hw). rewrite Hp. exact Hw. }
  destruct (issues o) eqn:Hi.
  - destruct o; try discriminate; cbn [auth_step].
    + eapply triple_bind; [by apply (triple_Login E cfg _ Hm J (issue_token es))|]. intros r w. apply Hj.
    + eapply triple_bind; [by apply (triple_Callback E cfg _ Hm (tokens_users es) Ha J (issue_token es))|]. intros r w. apply Hj.
  - destruct (match o with OpLogout _ => true | _ => false end) eqn:Hl.
    + destruct o as [|token| | | | | | |]; try discriminate. cbn [auth_step]. destruct (String.eqb_spec token "") as [->|Hne].
      { intros w Hw. change (tokens_ok (es ++ []) (data w)). by rewrite app_nil_r. }
      apply (triple_bind _ _ _ (fun _ w => tokens_ok (es ++ [Revoked token]) (data w))); [|intros ? w Hw; exact Hw].
      intros w [Hok Hes]. unfold Logout, RevokeSession. apply String.eqb_neq in Hne. rewrite Hne.
      destruct (statement_alone (fun _ => DeleteSessionByTokenHash (HashSessionToken token)) w) as [[n ->]|[e ->]]; [|by split].
      cbn [DeleteSessionByTokenHash fst snd post data]. split; [apply fewer_sessions_ok; [apply map_filter_subseteq|done]|].
      intros key s. cbn [sessions set_sessions]. rewrite lookup_delete_rows. intros [Hs Hp].
      apply issued_since_app; [by eapply Hes|]. intros revoked [= ->]%list_elem_of_singleton. apply bool_decide_eq_false in Hp. congruence.
    + intros w Hw. pose proof (keeps_step E cfg _ Hm (tokens_users es) (tokens_fewer es) Ha o Hi w Hw) as Hk.
      destruct (auth_step E cfg o w) as [[new|e] w'] eqn:Hs; [|done]. rewrite (step_silent o w new w' Hi Hl Hs).
      change (tokens_ok (es ++ []) (data w')). by rewrite app_nil_r.
Qed.

Lemma history_tokens w es : auth_history E cfg w es -> tokens_ok es (data w).
Proof.
  induction 1 as [n|w es o new w' _ IH Hs|w es o e w' _ IH Hs].
  - split; [apply empty_auth_ok|]. intros key s. cbn. by rewrite lookup_empty.
  - pose proof (step_tokens es o w IH) as Hp. by rewrite Hs in Hp.
  - pose proof (step_tokens es o w IH) as Hp. by rewrite Hs in Hp.
Qed.

(** What [ResolveSession] reads when it succeeds. *)
Lemma resolve_run token w p w' : auth_ok (data w) -> ResolveSession E token w = (Ok p, w') ->
  exists key s n r, sessions (data w) !! key = Some s /\ sessTokenHash s = HashSessionToken token /\
    After (time_of_micros (sessExpiresAt s)) (wall E n) = true /\ (ticks w <= n < ticks w')%nat /\
    users (data w) !! sessUserID s = Some r /\ urDisabledAt r = None /\ p = PrincipalFromUser (scanUser r).
Proof.
  intros Hok. unfold ResolveSession. destruct (String.eqb token ""); [done|]. rewrite bind_run. unfold attempted.
  destruct (statement_alone (fun _ => GetSessionByTokenHash (HashSessionToken token)) w) as [[n ->]|[e ->]]; [|done].
  cbn [GetSessionByTokenHash fst snd].
  destruct (List.filter _ (table_rows (sessions (data w)))) as [|s l] eqn:Hf; [done|].
  apply rows_first in Hf as [Hp [key Hs]]. apply bool_decide_eq_true in Hp. rewrite bind_run. cbn [read_clock ticks data].
  destruct (After _ _) eqn:Ha; cbn [negb].
  2: { rewrite bind_run. unfold attempted. destruct (statement_alone (fun _ => DeleteSession (sessID s)) (mkServer (S (S (ticks w))) (data w))) as [[n' ->]|[e ->]]; done. }
  rewrite bind_run. unfold attempted.
  destruct (statement_alone (fun _ => GetUser (sessUserID s)) (mkServer (S (S (ticks w))) (data w))) as [[n' ->]|[e ->]]; [|done].
  cbn [data ticks]. rewrite GetUser_spec by done. cbn [fst snd]. destruct (users (data w) !! sessUserID s) as [r|] eqn:Hr; [|done].
  case_bool_decide as Hd; [done|]. intros [= <- <-]. exists key, s, (S (ticks w)), r. cbn [ticks].
  do 4 (split; [done || lia|]). split; [done|]. split; [|done]. cbn in Hd. destruct (urDisabledAt r) eqn:Hdis; [|done]. by destruct Hd; eexists.
Qed.

(** C16: a session token is accepted only when it was issued: after any operations of the
    service on empty tables, a request is given the principal of a user only with a token
    whose hash is that of a token which a login issued to that very user, which has not
    expired, and which no logout has revoked since; and the principal is that user as the
    row is now, not disabled.  Statements may fail, without an effect, at any point. *)
Theorem resolved_was_issued w es token p w' :
  auth_history E cfg w es -> SessionFromToken E token w = (Ok p, w') ->
  exists before issued after n r, es = before ++ Issued (pID p) issued :: after /\
    tkTokenHash issued = HashSessionToken token /\
    (forall revoked, Revoked revoked ∈ after -> HashSessionToken revoked <> HashSessionToken token) /\
    (ticks w <= n < ticks w')%nat /\ After (time_of_micros (micros (tkExpiresAt issued))) (wall E n) = true /\
    users (data w) !! pID p = Some r /\ urDisabledAt r = None /\ p = PrincipalFromUser (scanUser r).
Proof.
  intros Hh Hr. apply history_tokens in Hh as [Hok Hes].
  apply (resolve_run token w p w' Hok) in Hr as (key & s & n & r & Hs & Hhash & Ha & Hn & Hu & Hd & ->).
  destruct (Hes key s Hs) as (before & issued & after & He & H1 & H2 & H3).
  assert (urID r = sessUserID s) as Hid by (by apply (au_keyed _ Hok)).
  exists before, issued, after, n, r. cbn. rewrite Hid, H2, H1, <- Hhash. eauto 10.
Qed.
End Tokens.

(** ** Updates that cross *)

Section Crossing.
Context `{Casing} (E : Surroundings AuthTables).

(** [UpdateUser] writes back every column as it read it: when another request changes
    the role, the password or the disabled mark of the user between its two statements,
    an update of the display name alone succeeds and puts the old values back.  A user
    whom an administrator disables at that moment is enabled again, and an administrator
    who is demoted keeps the role. *)
Theorem crossing_update_lost w id r r2 displayName t2 :
  auth_ok (data w) -> users (data w) !! id = Some r ->
  (forall n, failing E n = None) -> meanwhile E (ticks w) (data w) = data w ->
  meanwhile E (S (ticks w)) (data w) = t2 -> auth_ok t2 -> users t2 !! id = Some r2 ->
  urEmail r2 = urEmail r -> urOIDCSubject r2 = urOIDCSubject r ->
  exists u w' r', UpdateUser E (mkUpdateUser id (Some displayName) None None None None) w = (Ok u, w') /\ u = scanUser r' /\
    users (data w') = <[id := r']> (users t2) /\ urRole r' = urRole r /\ urPasswordHash r' = urPasswordHash r /\
    urDisabledAt r' = urDisabledAt r.
Proof.
  intros Hok Hr Hf H1 H2 Hok2 Hr2 He Hs. unfold UpdateUser. rewrite bind_run. unfold statement at 1. rewrite Hf, H1.
  cbn [uuID]. rewrite GetUser_spec by done. rewrite Hr. cbv zeta. cbn [uuRole uuDisplayName uuPasswordHash uuOIDCSubject uuDisabled default].
  cbn [uPasswordHash uRole uDisabledAt uOIDCSubject scanUser]. rewrite bool_decide_false by (by intros [? ?]). cbn [andb].
  rewrite bind_run. unfold mret, M_ret. unfold statement. cbn [ticks data]. rewrite Hf, H2. unfold update_user_row. rewrite Hr2.
  assert (urID r2 = id) as Hid by (by apply (au_keyed _ Hok2)).
  set (r' := mkUserRow _ _ _ _ _ _ _ _ _). unfold write_user.
  assert (user_row_ok r' = true) as ->.
  { pose proof (au_checked _ Hok _ _ Hr) as Hc. unfold user_row_ok, r' in *. cbn [urEmail urRole]. by rewrite He. }
  assert (user_taken r' (users t2) = false) as ->.
  { unfold user_taken. apply existsb_false_elem. intros r3 [k Hk]%elem_of_table_rows. apply not_true_iff_false.
    rewrite andb_true_iff, negb_true_iff, String.eqb_neq. intros [Hne Hc]. apply Hne.
    assert (k = id) as ->; [|by rewrite (au_keyed _ Hok2 _ _ Hk), <- Hid].
    apply (au_unique _ Hok2 k id r3 r2 Hk Hr2). unfold users_clash, r' in *. cbn [urEmail urOIDCSubject] in Hc.
    rewrite orb_true_iff in *. destruct Hc as [Hc|Hc]; [by left|right]. rewrite andb_true_iff, !bool_decide_eq_true in *.
    destruct Hc as [[sub Hsub] Hc]. split; [by exists sub|]. rewrite Hc, Hs. rewrite Hsub in Hc. unfold nullif_empty in *.
    destruct (urOIDCSubject r) as [s|]; cbn in *; [|done]. by destruct (String.eqb s ""). }
  cbn [negb]. exists (scanUser r'), (mkServer (S (S (ticks w))) (set_users (<[urID r' := r']> (users t2)) t2)), r'.
  cbn [data users set_users urID r' urRole urPasswordHash urDisabledAt]. rewrite Hid. done.
Qed.
End Crossing.
