(* ===== verification/Secrets.v ===== *)
(** * Secrets

    packages/secrets: the encryption of credentials (static_key_manager.go, envelope.go) and
    the tokens with their hashes (token.go, random_token_generator.go,
    argon2id_token_hasher.go).  The AEAD XChaCha20-Poly1305 of golang.org/x/crypto and the
    key derivation are parameters.  Strings stand for byte slices. *)
From S2P Require Import Prelude GoStrings GoSha256 GoBase64 JobRuns ErrState Catalog Request Passwords Auth.
Local Open Scope Z_scope.

Definition AlgorithmXChaCha20Poly1305 : string := "xchacha20-poly1305".
Definition NonceSizeX : nat := 24.
Definition KeySize : nat := 32.

Definition ErrMissingKeyID : store_error := Errorf "secrets: missing key id".
Definition ErrInvalidKey : store_error := Errorf "secrets: invalid key".
Definition ErrUnknownKeyID : store_error := Errorf "secrets: unknown key id".
Definition ErrInvalidEnvelope : store_error := Errorf "secrets: invalid envelope".
Definition ErrInvalidToken : store_error := Errorf "secrets: invalid token".
Definition ErrInvalidTokenHash : store_error := Errorf "secrets: invalid token hash".
Definition ErrTokenMismatch : store_error := Errorf "secrets: token mismatch".

(** [cipher.AEAD] for a key: [Seal key nonce plaintext additional] and [Open]. *)
Class AEAD := {
  Seal : string -> string -> string -> string -> string;
  Open : string -> string -> string -> string -> option string
}.

(** What the documentation of the AEAD says: a sealed text opens to what was sealed, and
    it is at least as long as the tag. *)
Class AEADLaws `{AEAD} : Prop := {
  Open_Seal key nonce plaintext additional : Open key nonce (Seal key nonce plaintext additional) additional = Some plaintext;
  Seal_tag key nonce plaintext additional : (16 <= String.length (Seal key nonce plaintext additional))%nat
}.

Record StaticKeyManager := mkKeyManager { kmKeyID : string; kmKey : string }.

Definition NewStaticKeyManager (keyID rawKey : string) : result store_error StaticKeyManager :=
  if String.eqb keyID "" then Err ErrMissingKeyID
  else if negb (Nat.eqb (String.length rawKey) KeySize) then Err (Wrapf "%w: got %d bytes, want %d" ErrInvalidKey)
  else Ok (mkKeyManager keyID rawKey).

Definition additionalData (e : Envelope) : string := KeyID e +:+ String "000" (Algorithm e).

Section Manager.
Context `{AEAD}.

Definition sealed (m : StaticKeyManager) (nonce plaintext : string) : Envelope :=
  let envelope := mkEnvelope (kmKeyID m) AlgorithmXChaCha20Poly1305 nonce "" in
  mkEnvelope (KeyID envelope) (Algorithm envelope) (Nonce envelope) (Seal (kmKey m) nonce plaintext (additionalData envelope)).

Definition Encrypt {D} (E : Surroundings D) (m : StaticKeyManager) (plaintext : string) : M (Server D) Envelope :=
  nonce ← read_random E NonceSizeX;
  mret (sealed m (string_of nonce) plaintext).

Definition Decrypt (m : StaticKeyManager) (e : Envelope) : result store_error string :=
  if negb (String.eqb (KeyID e) (kmKeyID m)) then Err ErrUnknownKeyID
  else if negb (String.eqb (Algorithm e) AlgorithmXChaCha20Poly1305) then Err ErrUnsupportedAlgorithm
  else if negb (Nat.eqb (String.length (Nonce e)) NonceSizeX) || Nat.eqb (String.length (Ciphertext e)) 0 then Err ErrInvalidEnvelope
  else match Open (kmKey m) (Nonce e) (Ciphertext e) (additionalData e) with
       | None => Err (Errorf "decrypt secret: %w")
       | Some plaintext => Ok plaintext
       end.
End Manager.

(** ** Tokens *)

Record PlainToken := mkPlainToken { ptValue : string; ptLookupPrefix : string }.
Record TokenHash := mkTokenHash { thAlgorithm : string; thMemoryKiB : Z; thTime : Z; thThreads : Z; thSalt : list Z; thHash : list Z }.
Record RandomTokenGenerator := mkGenerator { lookupBytes : Z; secretBytes : Z }.

Definition NewRandomTokenGenerator : RandomTokenGenerator := mkGenerator 8 32.

Definition LookupPrefixFromToken (token : string) : result store_error string :=
  match Split "." token with
  | [a; b; c] => if String.eqb a "" || String.eqb b "" || String.eqb c "" then Err ErrInvalidToken else Ok (a +:+ "." +:+ b)
  | _ => Err ErrInvalidToken
  end.

Definition randomURLString {D} (E : Surroundings D) (size : Z) : M (Server D) string :=
  raw ← read_random E (Z.to_nat size);
  mret (raw_url_encode raw).

Definition NewToken {D} (E : Surroundings D) (g : RandomTokenGenerator) (prefix : string) : M (Server D) PlainToken :=
  let prefix := TrimSpace prefix in
  if String.eqb prefix "" || Contains prefix "." then fail (Failure ErrInvalidToken)
  else if (lookupBytes g <=? 0) || (secretBytes g <=? 0) then fail (Failure ErrInvalidToken)
  else
    lookup ← randomURLString E (lookupBytes g);
    secret ← randomURLString E (secretBytes g);
    let lookupPrefix := prefix +:+ "." +:+ lookup in
    mret (mkPlainToken (lookupPrefix +:+ "." +:+ secret) lookupPrefix).

Definition defaultArgon2idParams : Argon2idPasswordParams := mkPasswordParams (64 * 1024) 3 1 16 32.

Definition ValidateTokenParams (p : Argon2idPasswordParams) : result store_error unit :=
  if (MemoryKiB p =? 0) || (TimeCost p =? 0) || (Threads p =? 0) || (SaltBytes p <=? 0) || (HashBytes p <=? 0)
  then Err ErrInvalidTokenHash else Ok tt.

Definition ValidateTokenHash (h : TokenHash) : result store_error unit :=
  if negb (String.eqb (thAlgorithm h) AlgorithmArgon2id) then Err ErrUnsupportedAlgorithm
  else if (thMemoryKiB h =? 0) || (thTime h =? 0) || (thThreads h =? 0) || bool_decide (thSalt h = []) || bool_decide (thHash h = [])
  then Err ErrInvalidTokenHash else Ok tt.

Section TokenHasher.
Context `{Argon2}.

Definition HashToken {D} (E : Surroundings D) (params : Argon2idPasswordParams) (token : string) : M (Server D) TokenHash :=
  if String.eqb token "" then fail (Failure ErrInvalidToken)
  else
    _ ← of_result (ValidateTokenParams params);
    salt ← read_random E (Z.to_nat (SaltBytes params));
    mret (mkTokenHash AlgorithmArgon2id (MemoryKiB params) (TimeCost params) (Threads params) salt
      (IDKey (bytes_of token) salt (TimeCost params) (MemoryKiB params) (Threads params) (HashBytes params mod 2 ^ 32))).

Definition VerifyToken (token : string) (hash : TokenHash) : result store_error unit :=
  if String.eqb token "" then Err ErrInvalidToken
  else
    _ ← ValidateTokenHash hash;
    let candidate := IDKey (bytes_of token) (thSalt hash) (thTime hash) (thMemoryKiB hash) (thThreads hash)
      (Z.of_nat (List.length (thHash hash)) mod 2 ^ 32) in
    if bool_decide (candidate = thHash hash) then Ok tt else Err ErrTokenMismatch.
End TokenHasher.

(** ** Round trips *)

(** A source of random bytes. *)
Definition random_ok {D} (E : Surroundings D) : Prop :=
  forall n count, List.length (random_bytes E n count) = count /\ Forall (fun b => 0 <= b < 256) (random_bytes E n count).

Lemma string_of_length l : String.length (string_of l) = List.length l.
Proof. unfold string_of. induction l as [|b l IH]; cbn; [done|by rewrite IH]. Qed.

Lemma Decrypt_sealed `{AEADLaws} m nonce plaintext : String.length nonce = NonceSizeX ->
  Decrypt m (sealed m nonce plaintext) = Ok plaintext.
Proof.
  intros Hn. unfold Decrypt, sealed, additionalData. cbn [KeyID Algorithm Nonce Ciphertext].
  pose proof (Seal_tag (kmKey m) nonce plaintext (kmKeyID m +:+ String "000" AlgorithmXChaCha20Poly1305)) as Htag.
  rewrite !String.eqb_refl, Hn, Nat.eqb_refl. cbn [negb orb]. case_eq (Nat.eqb (String.length (Seal (kmKey m) nonce plaintext
    (kmKeyID m +:+ String "000" AlgorithmXChaCha20Poly1305))) 0); intros E0; [apply Nat.eqb_eq in E0; lia|]. by rewrite Open_Seal.
Qed.

(** What a key manager encrypts it decrypts, for every credential and nonce, and no manager
    with another key identifier does. *)
Theorem Decrypt_Encrypt `{AEADLaws} {D} (E : Surroundings D) m plaintext w e w' :
  random_ok E -> Encrypt E m plaintext w = (Ok e, w') ->
  Decrypt m e = Ok plaintext /\ forall m', kmKeyID m' <> kmKeyID m -> Decrypt m' e = Err ErrUnknownKeyID.
Proof.
  intros Hr. unfold Encrypt. rewrite bind_run. cbn. intros [= <- <-]. split.
  - apply Decrypt_sealed. rewrite string_of_length. apply Hr.
  - intros m' Hm. unfold Decrypt, sealed. cbn [KeyID]. by destruct (String.eqb_spec (kmKeyID m) (kmKeyID m')).
Qed.

Lemma Contains_dot s : Contains s "." = false -> string_forall (fun c => negb (Ascii.eqb c ".")) s = true.
Proof.
  induction s as [|c s IH]; [done|]. cbn [Contains string_forall]. rewrite orb_false_iff. intros [Hp Hs]. rewrite IH by done. rewrite andb_true_r.
  destruct (Ascii.eqb_spec c ".") as [->|]; [by cbn in Hp; destruct s|done].
Qed.

(** The lookup prefix of a new token is read back from the token. *)
Theorem LookupPrefix_NewToken {D} (E : Surroundings D) g prefix w token w' :
  random_ok E -> NewToken E g prefix w = (Ok token, w') -> LookupPrefixFromToken (ptValue token) = Ok (ptLookupPrefix token).
Proof.
  intros Hr. unfold NewToken. cbv zeta. destruct (String.eqb_spec (TrimSpace prefix) "") as [|Hne]; [done|]. cbn [orb].
  destruct (Contains (TrimSpace prefix) ".") eqn:Hc; [done|]. destruct (_ || _) eqn:Hsize; [done|]. apply orb_false_iff in Hsize as [Hl Hs].
  unfold randomURLString. rewrite !bind_run. cbn. intros [= <- <-]. cbn [ptValue ptLookupPrefix].
  assert (forall n size, (size <=? 0) = false -> String.eqb (raw_url_encode (random_bytes E n (Z.to_nat size))) "" = false) as Hlen.
  { intros n size Hsz. destruct (Hr n (Z.to_nat size)) as [Hlength _]. destruct (random_bytes E n (Z.to_nat size)) as [|a [|b [|c l]]]; try done.
    cbn in Hlength. lia. }
  unfold LookupPrefixFromToken. rewrite !string_app_assoc. cbn [String.append].
  rewrite Split_cons, Split_cons, Split_no_sep by (try apply raw_url_encode_no_dot, Hr; by apply Contains_dot).
  rewrite !Hlen by done. destruct (String.eqb_spec (TrimSpace prefix) ""); [done|]. reflexivity.
Qed.

(** ** Witnesses *)

Definition zero_seal : AEAD :=
  {| Seal := fun key nonce plaintext additional => "0123456789abcdef" +:+ plaintext;
     Open := fun key nonce ciphertext additional => dropPrefix "0123456789abcdef" ciphertext |}.
#[export] Instance zero_seal_laws : @AEADLaws zero_seal.
Proof.
  split; intros key nonce plaintext additional.
  - reflexivity.
  - unfold Seal, zero_seal. rewrite string_length_app. cbn. lia.
Qed.

Definition zeros_surroundings : Surroundings unit :=
  mkSurroundings (fun _ t => t) (fun _ => None) (fun _ => 0) (fun _ => GoTime.mkTime 0 0 0) (fun _ count => repeat 0 count).
Lemma zeros_random_ok : random_ok zeros_surroundings.
Proof. intros n count. cbn. split; [apply repeat_length|]. apply list.Forall_forall. intros b Hb%list_elem_of_In%repeat_spec. lia. Qed.

Lemma Decrypt_Encrypt_witness :
  let m := mkKeyManager "k1" "00000000000000000000000000000000" in
  exists e w', Encrypt (H := zero_seal) zeros_surroundings m "secret" (mkServer 0 tt) = (Ok e, w') /\
    Decrypt (H := zero_seal) m e = Ok "secret".
Proof.
  cbv zeta. eexists _, _. split; [reflexivity|].
  refine (proj1 (Decrypt_Encrypt (H := zero_seal) zeros_surroundings (mkKeyManager "k1" _) "secret" (mkServer 0 tt) _ _ zeros_random_ok _)). reflexivity.
Defined.

Lemma LookupPrefix_NewToken_witness :
  exists token w', NewToken zeros_surroundings NewRandomTokenGenerator "pat" (mkServer 0 tt) = (Ok token, w') /\
    LookupPrefixFromToken (ptValue token) = Ok (ptLookupPrefix token).
Proof.
  eexists _, _. split; [reflexivity|].
  refine (LookupPrefix_NewToken zeros_surroundings NewRandomTokenGenerator "pat" (mkServer 0 tt) _ _ zeros_random_ok _). reflexivity.
Defined.
