(* ===== verification/Config.v ===== *)
(** * Config

    The configuration of the two processes: apps/api/internal/config (config.go, auth.go) and
    [loadConfig] of apps/worker/main.go.  The environment is a function, the file .env its
    text or the error of reading it, or absent; the worker has the same [loadDotEnv] and
    [stringEnv].  [same_manager]: with one environment, the two processes have one key. *)
From S2P Require Import Prelude GoStrings GoBase64 GoDuration JobRuns ErrState Catalog Passwords Auth Secrets.
Local Open Scope Z_scope.

(** ** [base64.StdEncoding] *)

Definition std_val (c : ascii) : option Z :=
  if Ascii.eqb c "+" then Some 62 else if Ascii.eqb c "/" then Some 63
  else if Ascii.eqb c "-" || Ascii.eqb c "_" then None else url_val c.

Fixpoint std_quanta (s : string) : option (list Z) :=
  match s with
  | EmptyString => Some []
  | String c0 (String c1 (String c2 (String c3 s))) =>
      v0 ← std_val c0; v1 ← std_val c1;
      if Ascii.eqb c2 "=" then
        if Ascii.eqb c3 "=" && String.eqb s "" then Some [v0 * 4 + v1 / 16] else None
      else
        v2 ← std_val c2;
        if Ascii.eqb c3 "=" then
          if String.eqb s "" then Some [v0 * 4 + v1 / 16; v1 mod 16 * 16 + v2 / 4] else None
        else
          v3 ← std_val c3; rest ← std_quanta s;
          Some (v0 * 4 + v1 / 16 :: v1 mod 16 * 16 + v2 / 4 :: v2 mod 4 * 64 + v3 :: rest)
  | _ => None
  end.
Definition std_decode (s : string) : option (list Z) := std_quanta (drop_newlines s).

Example std_decode_1 : map std_decode ["aGk="; "aA=="; "aGkh"; "aGk"; "a==="; "aA==aA=="; "-_8="] =
  [Some [104; 105]; Some [104]; Some [104; 105; 33]; None; None; None; None].
Proof. reflexivity. Qed.

(** ** The environment *)

Notation environment := (string -> option string).

Definition stringEnv (lookup : environment) (key fallback : string) : string :=
  match lookup key with
  | None => fallback
  | Some value => if String.eqb value "" then fallback else value
  end.

Definition durationEnv (lookup : environment) (key : string) (fallback : Z) : result store_error Z :=
  match lookup key with
  | None => Ok fallback
  | Some value =>
      if String.eqb value "" then Ok fallback
      else match ParseDuration value with
           | None => Err (Errorf "parse %s: %w")
           | Some parsed => if parsed <=? 0 then Err (Errorf "parse %s: duration must be positive") else Ok parsed
           end
  end.

(** [strings.Cut] at the first equals sign. *)
Fixpoint cut_equals (s : string) : option (string * string) :=
  match s with
  | EmptyString => None
  | String c s =>
      if Ascii.eqb c "=" then Some ("", s)
      else '(key, value) ← cut_equals s; Some (String c key, value)
  end.

(** [strings.Trim] of quotation marks. *)
Definition is_quote (c : ascii) : bool := (byte c =? 34) || (byte c =? 39).
Fixpoint rev_onto (s acc : string) : string := match s with EmptyString => acc | String c s => rev_onto s (String c acc) end.
Definition trim_quotes (s : string) : string :=
  let left := (span is_quote s).2 in rev_onto (span is_quote (rev_onto left "")).2 "".

(** A line, whose carriage return goes with the white space; the scanner refuses a line
    that does not fit its buffer. *)
Definition dot_env_line (values : gmap string string) (line : string) : result store_error (gmap string string) :=
  if 64 * 1024 <=? Z.of_nat (String.length line) then Err (Errorf "bufio.Scanner: token too long")
  else
    let line := TrimSpace line in
    if String.eqb line "" || HasPrefix line "#" then Ok values
    else match cut_equals line with
         | None => Err (Errorf "parse %s: invalid line %q")
         | Some (key, value) =>
             let key := TrimSpace key in
             let value := trim_quotes (TrimSpace value) in
             if String.eqb key "" then Err (Errorf "parse %s: empty key") else Ok (<[key := value]> values)
         end.

Definition loadDotEnv (file : result store_error (option string)) : result store_error (gmap string string) :=
  content ← file;
  match content with
  | None => Ok ∅
  | Some text => foldM_result dot_env_line ∅ (Split (byte_of 10) text)
  end.

(** The environment of the process before the file. *)
Definition lookup_in (env : environment) (fileEnv : gmap string string) : environment := fun key =>
  match env key with Some value => Some value | None => fileEnv !! key end.

(** ** The API: config.go and auth.go *)

Record ApiConfig := mkApiConfig {
  HTTPAddr : string; DatabaseURL : string; acSuperuserEmail : string; acSuperuserPassword : string; SessionSecret : list Z;
  acSessionTTL : Z; OIDCIssuerURL : string; OIDCClientID : string; OIDCClientSecret : string; OIDCRedirectURL : string;
  acWebAppURL : string; EncryptionKeyID : string; EncryptionKey : list Z; LogLevel : string
}.

Definition encryptionKeyEnv (value : string) : result store_error (list Z) :=
  if String.eqb value "" then Err (Errorf "ENCRYPTION_KEY_BASE64 is required")
  else match std_decode value with
       | None => Err (Errorf "parse ENCRYPTION_KEY_BASE64: %w")
       | Some decoded =>
           if negb (Nat.eqb (List.length decoded) KeySize) then Err (Errorf "parse ENCRYPTION_KEY_BASE64: decoded key is %d bytes, want %d")
           else Ok decoded
       end.
Definition sessionSecretEnv (value : string) : result store_error (list Z) :=
  match std_decode value with
  | None => Err (Errorf "parse SESSION_SECRET_BASE64: %w")
  | Some decoded =>
      if negb (Nat.eqb (List.length decoded) KeySize) then Err (Errorf "parse SESSION_SECRET_BASE64: decoded key is %d bytes, want %d")
      else Ok decoded
  end.

Definition defaultHTTPAddr : string := ":8080".
Definition defaultLogLevel : string := "info".
Definition defaultSessionTTL : Z := 168 * 3600 * 1000000000.
Definition defaultOIDCRedirect : string := "http://localhost:8080/api/auth/oidc/callback".
Definition defaultWebAppURL : string := "http://localhost:5173".

(** Some but not all of the values are set. *)
Definition partly_set (values : list string) : bool :=
  let set := List.filter (fun value => negb (String.eqb value "")) values in
  (0 <? List.length set)%nat && (List.length set <? List.length values)%nat.

Definition check_config (cfg : ApiConfig) : result store_error ApiConfig :=
  if String.eqb (DatabaseURL cfg) "" then Err (Errorf "DATABASE_URL is required")
  else if String.eqb (EncryptionKeyID cfg) "" then Err (Errorf "ENCRYPTION_KEY_ID is required")
  else if String.eqb (acSuperuserEmail cfg) "" then Err (Errorf "SUPERUSER_EMAIL is required")
  else if Nat.eqb (List.length (SessionSecret cfg)) 0 then Err (Errorf "SESSION_SECRET_BASE64 is required")
  else if String.eqb (acSuperuserPassword cfg) "" then Err (Errorf "SUPERUSER_PASSWORD is required")
  else if partly_set [OIDCIssuerURL cfg; OIDCClientID cfg; OIDCClientSecret cfg]
  then Err (Errorf "OIDC_ISSUER_URL, OIDC_CLIENT_ID, and OIDC_CLIENT_SECRET must all be set together")
  else Ok cfg.

Definition LoadFromLookup (lookup : environment) : result store_error ApiConfig :=
  encryptionKey ← encryptionKeyEnv (stringEnv lookup "ENCRYPTION_KEY_BASE64" "");
  sessionTTL ← durationEnv lookup "SESSION_TTL" defaultSessionTTL;
  let sessionSecretBase64 := stringEnv lookup "SESSION_SECRET_BASE64" "" in
  sessionSecret ← (if String.eqb sessionSecretBase64 "" then Ok [] else sessionSecretEnv sessionSecretBase64);
  check_config (mkApiConfig (stringEnv lookup "HTTP_ADDR" defaultHTTPAddr) (stringEnv lookup "DATABASE_URL" "")
    (stringEnv lookup "SUPERUSER_EMAIL" "") (stringEnv lookup "SUPERUSER_PASSWORD" "") sessionSecret sessionTTL
    (stringEnv lookup "OIDC_ISSUER_URL" "") (stringEnv lookup "OIDC_CLIENT_ID" "") (stringEnv lookup "OIDC_CLIENT_SECRET" "")
    (stringEnv lookup "OIDC_REDIRECT_URL" defaultOIDCRedirect) (stringEnv lookup "WEB_APP_URL" defaultWebAppURL)
    (stringEnv lookup "ENCRYPTION_KEY_ID" "") encryptionKey (stringEnv lookup "LOG_LEVEL" defaultLogLevel)).

Definition Load (env : environment) (file : result store_error (option string)) : result store_error ApiConfig :=
  fileEnv ← loadDotEnv file; LoadFromLookup (lookup_in env fileEnv).

Definition has_suffix (s suffix : string) : bool := HasPrefix (rev_onto s "") (rev_onto suffix "").
Definition ConfigSecureCookies (c : ApiConfig) : bool :=
  negb (Contains (HTTPAddr c) "localhost") && negb (has_suffix (HTTPAddr c) ":8080").

(** [NewOIDCProvider] makes the provider of the settings for it. *)
Definition AuthServiceConfig (provider : option OIDCProvider) (c : ApiConfig) : Config :=
  mkConfig (acSuperuserEmail c) (acSuperuserPassword c) (acSessionTTL c) (ConfigSecureCookies c) (acWebAppURL c) provider.

(** ** The worker: [loadConfig] *)

Record workerConfig := mkWorkerConfig { wcDatabaseURL : string; wcWorkerID : string; wcEncryptionKeyID : string; wcEncryptionKey : list Z }.

(** [hostname] is the answer of [os.Hostname]. *)
Definition defaultWorkerID (hostname : option string) (pid : Z) : string :=
  let hostname := match hostname with None | Some "" => "worker" | Some name => name end in
  hostname +:+ "-" +:+ itoa pid.

Definition loadConfig (env : environment) (file : result store_error (option string)) (hostname : option string) (pid : Z)
  : result store_error workerConfig :=
  fileEnv ← loadDotEnv file;
  let lookup := lookup_in env fileEnv in
  let databaseURL := stringEnv lookup "DATABASE_URL" "" in
  if String.eqb databaseURL "" then Err (Errorf "DATABASE_URL is required")
  else
    let encryptionKeyBase64 := stringEnv lookup "ENCRYPTION_KEY_BASE64" "" in
    if String.eqb encryptionKeyBase64 "" then Err (Errorf "ENCRYPTION_KEY_BASE64 is required")
    else match std_decode encryptionKeyBase64 with
         | None => Err (Errorf "parse ENCRYPTION_KEY_BASE64: %w")
         | Some encryptionKey =>
             let encryptionKeyID := stringEnv lookup "ENCRYPTION_KEY_ID" "" in
             if String.eqb encryptionKeyID "" then Err (Errorf "ENCRYPTION_KEY_ID is required")
             else Ok (mkWorkerConfig databaseURL (stringEnv lookup "WORKER_ID" (defaultWorkerID hostname pid)) encryptionKeyID encryptionKey)
         end.

(** ** The key managers of the two processes: [run] of their main.go *)

Definition api_secrets (env : environment) (file : result store_error (option string)) : result store_error StaticKeyManager :=
  cfg ← Load env file; NewStaticKeyManager (EncryptionKeyID cfg) (string_of (EncryptionKey cfg)).
Definition worker_secrets (env : environment) (file : result store_error (option string)) (hostname : option string) (pid : Z)
  : result store_error StaticKeyManager :=
  cfg ← loadConfig env file hostname pid; NewStaticKeyManager (wcEncryptionKeyID cfg) (string_of (wcEncryptionKey cfg)).

(** ** What a loaded configuration holds *)

Record config_ok (c : ApiConfig) : Prop := {
  config_key : List.length (EncryptionKey c) = KeySize;
  config_secret : List.length (SessionSecret c) = KeySize;
  config_ttl : 0 < acSessionTTL c;
  config_required : DatabaseURL c <> "" /\ EncryptionKeyID c <> "" /\ acSuperuserEmail c <> "" /\ acSuperuserPassword c <> "";
  config_oidc : (OIDCIssuerURL c = "" /\ OIDCClientID c = "" /\ OIDCClientSecret c = "") \/
                (OIDCIssuerURL c <> "" /\ OIDCClientID c <> "" /\ OIDCClientSecret c <> "")
}.

Lemma check_config_Ok cfg c : check_config cfg = Ok c ->
  c = cfg /\ DatabaseURL c <> "" /\ EncryptionKeyID c <> "" /\ acSuperuserEmail c <> "" /\ acSuperuserPassword c <> "" /\
  SessionSecret c <> [] /\ partly_set [OIDCIssuerURL c; OIDCClientID c; OIDCClientSecret c] = false.
Proof.
  unfold check_config. repeat match goal with |- (if ?b then _ else _) = _ -> _ => destruct b eqn:?; [done|] end. intros [= <-].
  repeat match goal with H : String.eqb _ _ = false |- _ => apply String.eqb_neq in H end. split_and!; try done. by destruct (SessionSecret cfg).
Qed.

Lemma partly_set_three a b c : partly_set [a; b; c] = false -> (a = "" /\ b = "" /\ c = "") \/ (a <> "" /\ b <> "" /\ c <> "").
Proof.
  unfold partly_set. cbn [List.filter]. destruct (String.eqb_spec a ""), (String.eqb_spec b ""), (String.eqb_spec c ""); cbn; intros H; try discriminate H; tauto.
Qed.

Lemma encryptionKeyEnv_Ok value key : encryptionKeyEnv value = Ok key ->
  value <> "" /\ std_decode value = Some key /\ List.length key = KeySize.
Proof.
  unfold encryptionKeyEnv. destruct (String.eqb_spec value ""); [done|]. destruct (std_decode value) as [d|]; [|done].
  destruct (Nat.eqb_spec (List.length d) KeySize); [|done]. by intros [= <-].
Qed.

(** Whatever the environment, what is loaded is complete: a key and a secret of 32 bytes, a
    positive lifetime of sessions, and the settings of the identity provider all or none. *)
Theorem LoadFromLookup_ok lookup cfg : LoadFromLookup lookup = Ok cfg -> config_ok cfg.
Proof.
  unfold LoadFromLookup. intros (key & (Hne & Hk & Hlen)%encryptionKeyEnv_Ok & H)%bind_Ok. apply bind_Ok in H as (ttl & Httl & H). cbv zeta in H.
  apply bind_Ok in H as (secret & Hs & H). apply check_config_Ok in H as (-> & H1 & H2 & H3 & H4 & H5 & H6).
  split; cbn [EncryptionKey SessionSecret acSessionTTL DatabaseURL EncryptionKeyID acSuperuserEmail acSuperuserPassword OIDCIssuerURL OIDCClientID OIDCClientSecret] in *.
  - done.
  - destruct (String.eqb _ ""); [by injection Hs as <-|]. unfold sessionSecretEnv in Hs. destruct (std_decode (stringEnv lookup "SESSION_SECRET_BASE64" "")) as [d|]; [|done].
    destruct (Nat.eqb_spec (List.length d) KeySize); [|done]. by injection Hs as <-.
  - unfold durationEnv in Httl. destruct (lookup "SESSION_TTL") as [v|]; [|by injection Httl as <-].
    destruct (String.eqb v ""); [by injection Httl as <-|]. destruct (ParseDuration v) as [d|]; [|done].
    destruct (Z.leb_spec d 0); [done|]. by injection Httl as <-.
  - done.
  - by apply partly_set_three.
Qed.

(** The worker of an environment in which the API starts has the key manager of the API. *)
Lemma same_manager env file hostname pid m : api_secrets env file = Ok m -> worker_secrets env file hostname pid = Ok m.
Proof.
  unfold api_secrets, worker_secrets, Load, loadConfig. intros (cfg & (fileEnv & -> & H)%bind_Ok & Hm)%bind_Ok. cbn [mbind result_bind].
  unfold LoadFromLookup in H. apply bind_Ok in H as (key & (Hne & Hk & Hlen)%encryptionKeyEnv_Ok & H). apply bind_Ok in H as (ttl & _ & H). cbv zeta in H.
  apply bind_Ok in H as (secret & _ & H). apply check_config_Ok in H as (-> & H1 & H2 & _). cbn [DatabaseURL EncryptionKeyID EncryptionKey] in *.
  cbv zeta. rewrite (proj2 (String.eqb_neq _ _) H1), (proj2 (String.eqb_neq _ _) Hne), Hk, (proj2 (String.eqb_neq _ _) H2). exact Hm.
Qed.

(** With the default address, and with any that ends in its port, cookies are not secure. *)
Example default_cookies_insecure : negb (has_suffix defaultHTTPAddr ":8080") = false /\ has_suffix "0.0.0.0:8080" ":8080" = true.
Proof. by split. Qed.
