(* ===== verification/AuthLogin.v ===== *)
(** * AuthLogin

    The bootstrap of the administrator followed by a login, and the state of an OIDC
    login, when no statement fails and no other request interferes. *)
From S2P Require Import Prelude GoStrings GoTime GoSha256 GoBase64 JobRuns ErrState Catalog UpstreamEvents Request Passwords Users Auth AuthProofs.
Local Open Scope Z_scope.

Section Login.
Context `{Casing, Argon2} (E : Surroundings AuthTables) (cfg : Config).
Hypothesis quiet : quiet_server E.
Hypothesis random_length : forall n count, List.length (random_bytes E n count) = count.
Hypothesis IDKey_length : forall password salt time memory threads keyLen, 0 <= keyLen < 2 ^ 32 ->
  Z.of_nat (List.length (IDKey password salt time memory threads keyLen)) = keyLen.

(** A hash that the hasher makes of a password verifies it. *)
Definition hash_of (password : string) (hash : option PasswordHash) : Prop :=
  password <> "" -> exists h, hash = Some h /\ VerifyPassword password h = Ok tt.

Lemma optional_hash_run password w : exists hash n,
  optional_hash E password w = (Ok hash, mkServer n (data w)) /\ hash_of password hash /\ (password = "" -> hash = None).
Proof.
  unfold optional_hash. destruct (String.eqb_spec password "") as [->|Hp].
  - exists None, (ticks w). destruct w. split; [done|]. split; [by intros []|done].
  - unfold HashPassword. destruct (String.eqb_spec password "") as [|_]; [done|]. rewrite !bind_run. cbn [of_result ValidateParams].
    change (ValidateParams hasher) with (Ok (E := store_error) tt). cbn [of_result]. rewrite bind_run. unfold read_random. cbn [mret M_ret].
    eexists _, _. split; [reflexivity|]. split; [|done]. intros _. eexists. split; [reflexivity|].
    apply (verify_hash_with IDKey_length hasher password _ password); try done. by rewrite random_length.
Qed.

(** A login of an enabled user with the password of the row succeeds. *)
Lemma Login_run email password w id r hash :
  auth_ok (data w) -> users (data w) !! id = Some r -> db_lower (urEmail r) = normalize_email email ->
  urDisabledAt r = None -> urPasswordHash r = Some hash -> VerifyPassword password hash = Ok tt ->
  0 < SessionTTL cfg -> urID r <> "" ->
  (forall n, IsZero (Add (UTC (wall E n)) (SessionTTL cfg)) = false) ->
  (forall n, sessions (data w) !! newSessionID (random_bytes E n 16) = None) ->
  exists token w', Login E cfg email password w = (Ok (PrincipalFromUser (scanUser r), token), w').
Proof.
  intros Hok Hr He Hd Hh Hv Httl Hid Hz Hfresh. unfold Login. rewrite bind_run. unfold attempted.
  destruct w as [n t]. rewrite statement_quiet by done. cbn [data] in *. rewrite (GetUserByEmail_found email t id r) by done. cbn [fst snd].
  cbn [uDisabledAt uPasswordHash scanUser]. rewrite Hd, bool_decide_false by (by intros [? ?]). rewrite Hh, Hv.
  unfold issue, CreateSessionFor, NewSessionToken. rewrite !bind_run. replace (SessionTTL cfg <=? 0) with false by lia.
  rewrite !bind_run. unfold read_random, read_clock. cbn [ticks data]. rewrite !bind_run. cbn [ticks data]. unfold mret, M_ret. rewrite !bind_run.
  unfold CreateSession. cbn [csUserID csTokenHash csExpiresAt tkExpiresAt tkTokenHash uID scanUser].
  apply String.eqb_neq in Hid. rewrite Hid.
  assert (forall s, HashSessionToken s <> []) as Hhash.
  { intros s Hs. unfold HashSessionToken in Hs. pose proof (sha256_sum_length (bytes_of s)) as Hl. rewrite Hs in Hl. discriminate Hl. }
  rewrite bool_decide_false by done. rewrite Hz. rewrite bind_run. unfold read_random. cbn [ticks data].
  rewrite statement_quiet by done. unfold insert_session. cbv zeta. cbn [sessTokenHash sessID sessUserID].
  rewrite bool_decide_false by done. rewrite Hfresh, bool_decide_false by (by intros [? ?]).
  assert (urID r = id) as -> by (by apply (au_keyed _ Hok)). rewrite Hr, bool_decide_true by done. cbn [negb fst snd].
  eexists _, _. reflexivity.
Qed.

(** A login of a disabled user is refused, whatever the password. *)
Lemma Login_disabled email password w id r :
  auth_ok (data w) -> users (data w) !! id = Some r -> db_lower (urEmail r) = normalize_email email ->
  is_Some (urDisabledAt r) -> exists w', Login E cfg email password w = (Err (Failure ErrUserDisabled), w').
Proof.
  intros Hok Hr He Hd. unfold Login. rewrite bind_run. unfold attempted.
  destruct w as [n t]. rewrite statement_quiet by done. cbn [data] in *. rewrite (GetUserByEmail_found email t id r) by done. cbn [fst snd].
  cbn [uDisabledAt scanUser]. rewrite bool_decide_true by done. by eexists.
Qed.

(** What the bootstrap makes of the tables [t]: the row [r] of the administrator, with
    the password, disabled exactly if it was before. *)
Record bootstrapped_row (email password : string) (t t' : AuthTables) (id : string) (r : UserRow) : Prop := {
  br_there : users t' !! id = Some r;
  br_id : urID r <> "";
  br_email : db_lower (urEmail r) = normalize_email email;
  br_role : urRole r = UserRoleAdmin;
  br_password : hash_of password (urPasswordHash r);
  br_others key : key <> id -> users t' !! key = users t !! key;
  br_before key r0 : users t !! key = Some r0 -> db_lower (urEmail r0) = normalize_email email ->
    key = id /\ urDisabledAt r = urDisabledAt r0;
  br_new : (forall key r0, users t !! key = Some r0 -> db_lower (urEmail r0) <> normalize_email email) -> urDisabledAt r = None;
  br_sessions : sessions t' = sessions t
}.

(** The update of the role, and of the password when there is one. *)
Lemma promote_run id hash w u w' r : auth_ok (data w) -> users (data w) !! id = Some r ->
  UpdateUser E (mkUpdateUser id None (Some UserRoleAdmin) hash None None) w = (Ok u, w') ->
  exists r', data w' = set_users (<[id := r']> (users (data w))) (data w) /\ urID r' = id /\ urEmail r' = urEmail r /\ urRole r' = UserRoleAdmin /\
    urDisabledAt r' = urDisabledAt r /\ (is_Some hash -> urPasswordHash r' = hash).
Proof.
  intros Hok Hr. unfold UpdateUser. rewrite bind_run. destruct w as [n t]. rewrite statement_quiet by done. cbn [data] in *.
  cbn [uuID]. rewrite GetUser_spec by done. rewrite Hr. cbn [fst snd]. cbv zeta. cbn [uuRole uuDisplayName uuPasswordHash uuOIDCSubject uuDisabled].
  change (valid_role (default _ (Some UserRoleAdmin))) with true. rewrite andb_false_r, bind_run. unfold mret, M_ret.
  rewrite statement_quiet by done. unfold update_user_row. rewrite Hr. unfold write_user. destruct (negb (user_row_ok _)); [done|].
  destruct (user_taken _ _); [done|]. cbn [fst snd data users set_users urID]. intros [= <- <-].
  assert (urID r = id) as Hid by (by apply (au_keyed _ Hok)). eexists. cbn [data]. rewrite Hid at 1.
  split; [reflexivity|]. cbn. repeat split; try done. intros [h ->]. done.
Qed.

(** The insertion of an administrator. *)
Lemma create_admin_run email hash w u w' :
  CreateUser E (mkCreateUser email "" UserRoleAdmin hash "") w = (Ok u, w') ->
  exists r, data w' = set_users (<[urID r := r]> (users (data w))) (data w) /\ urID r <> "" /\ urEmail r = normalize_email email /\
    urRole r = UserRoleAdmin /\ urPasswordHash r = hash /\ urDisabledAt r = None.
Proof.
  unfold CreateUser. rewrite bind_run. destruct w as [n t]. unfold read_random. cbn [ticks data]. rewrite statement_quiet by done.
  rewrite bind_run. unfold created_user. cbn [cuEmail cuRole cuPasswordHash cuDisplayName cuOIDCSubject]. cbv zeta.
  destruct (String.eqb _ ""); [done|]. cbn [UserRoleAdmin String.eqb of_result].
  rewrite String.eqb_refl. cbn [negb andb].
  change (if String.eqb UserRoleAdmin "" then UserRoleUser else UserRoleAdmin) with UserRoleAdmin. cbn [of_result].
  match goal with |- context [insert_user ?r] => set (row := r) end.
  unfold insert_user. case_bool_decide; [done|]. unfold write_user. destruct (negb _); [done|]. destruct (user_taken _ _); [done|].
  cbn [fst snd]. intros Heq. injection Heq as _ <-. exists row. done.
Qed.

Lemma Bootstrap_run email password w w' :
  auth_ok (data w) -> users (data w) !! "" = None ->
  normalize_email (normalize_email email) = normalize_email email -> db_lower (normalize_email email) = normalize_email email ->
  EnsureBootstrapAdmin E email password w = (Ok tt, w') ->
  exists id r, bootstrapped_row email password (data w) (data w') id r.
Proof.
  intros Hok Hne Hnorm Hdb Hrun.
  unfold EnsureBootstrapAdmin in Hrun. cbv zeta in Hrun. destruct (String.eqb _ ""); [done|]. rewrite bind_run in Hrun. unfold attempted in Hrun.
  destruct w as [n t]. rewrite statement_quiet in Hrun by done. cbn [data] in *.
  pose proof (GetUserByEmail_spec (normalize_email email) t Hok) as Hg. destruct ((GetUserByEmail (normalize_email email) t).1) as [u|e] eqn:Eg.
  - destruct Hg as (id & r & Hr & -> & Hid & He). cbn [GetUserByEmail snd] in Hrun. rewrite bind_run in Hrun.
    destruct (optional_hash_run password (mkServer (S n) t)) as (hash & n' & Eo & Hh & _). rewrite Eo, bind_run in Hrun.
    cbn [data uID scanUser] in Hid, Hrun. rewrite Hid in Hrun.
    match type of Hrun with context [UpdateUser E ?p ?w] => destruct (UpdateUser E p w) as [[u|e] w1] eqn:Hu end; [|done].
    injection Hrun as <-. apply (promote_run id hash (mkServer n' t) u w1 r Hok Hr) in Hu as (r' & Hd & H1 & H2 & H3 & H4 & H5). cbn [data] in Hd.
    exists id, r'. rewrite Hd. split; cbn [users sessions set_users].
    + apply lookup_insert_eq.
    + rewrite H1. intros ->. congruence.
    + congruence.
    + done.
    + intros Hp. destruct (Hh Hp) as (h & -> & Hv). exists h. split; [by apply H5|done].
    + intros key Hkey. by rewrite lookup_insert_ne.
    + intros key r0 Hr0 He0. pose proof (GetUserByEmail_found email t key r0 Hok Hr0 He0) as F1.
      pose proof (GetUserByEmail_found email t id r Hok Hr ltac:(congruence)) as F2. rewrite F1 in F2. injection F2 as F2.
      assert (key = id) as ->.
      { by rewrite <- (au_keyed t Hok key r0 Hr0), <- (au_keyed t Hok id r Hr). }
      split; [done|]. congruence.
    + intros Hno. exfalso. apply (Hno id r Hr). congruence.
    + done.
  - destruct Hg as [-> Hno]. cbn [GetUserByEmail snd] in Hrun. rewrite bool_decide_true in Hrun by done. cbn [negb] in Hrun.
    rewrite bind_run in Hrun. destruct (optional_hash_run password (mkServer (S n) t)) as (hash & n' & Eo & Hh & _).
    rewrite Eo in Hrun. destruct hash as [h|]; [|done]. rewrite bind_run in Hrun.
    match type of Hrun with context [CreateUser E ?p ?w] => destruct (CreateUser E p w) as [[u|e] w1] eqn:Hu end; [|done].
    injection Hrun as <-. apply create_admin_run in Hu as (r & Hd & H1 & H2 & H3 & H4 & H5). cbn [data] in Hd.
    exists (urID r), r. rewrite Hd. split; cbn [users sessions set_users]; try done.
    + apply lookup_insert_eq.
    + congruence.
    + intros Hp. destruct (Hh Hp) as (h' & [= <-] & Hv). by exists h.
    + intros key Hkey. by rewrite lookup_insert_ne.
    + intros key r0 Hr0 He0. exfalso. apply (Hno key r0 Hr0). congruence.
Qed.

(** C33: once the bootstrap of the administrator returns without an error, the user with the
    configured email exists with the role of an administrator, whether the row was there or
    not; no other user and no session has changed; and the user is disabled exactly if the
    row was there and disabled.  A user that is not disabled can log in with that email and
    the configured password, and is an administrator; a disabled one is refused. *)
Theorem bootstrap_then_login email password w w' :
  auth_ok (data w) -> users (data w) !! "" = None ->
  normalize_email (normalize_email email) = normalize_email email -> db_lower (normalize_email email) = normalize_email email ->
  EnsureBootstrapAdmin E email password w = (Ok tt, w') ->
  exists id r, bootstrapped_row email password (data w) (data w') id r /\
    (password <> "" -> urDisabledAt r = None -> 0 < SessionTTL cfg ->
     (forall n, IsZero (Add (UTC (wall E n)) (SessionTTL cfg)) = false) ->
     (forall n, sessions (data w') !! newSessionID (random_bytes E n 16) = None) ->
     exists p token w'', Login E cfg email password w' = (Ok (p, token), w'') /\ IsAdmin p = true) /\
    (is_Some (urDisabledAt r) -> exists w'', Login E cfg email password w' = (Err (Failure ErrUserDisabled), w'')).
Proof.
  intros Hok Hne Hnorm Hdb Hrun.
  assert (auth_ok (data w')) as Hok'.
  { pose proof (keeps_Bootstrap E auth_ok) as Hk. specialize (Hk ltac:(intros n t; by rewrite (quiet_meanwhile E quiet)) ltac:(done) ltac:(done) email password w Hok).
    rewrite Hrun in Hk. exact Hk. }
  destruct (Bootstrap_run email password w w' Hok Hne Hnorm Hdb Hrun) as (id & r & Hb). exists id, r. split; [exact Hb|]. destruct Hb. split.
  - intros Hp Hd Httl Hz Hf. destruct (br_password0 Hp) as (h & Eh & Hv).
    destruct (Login_run email password w' id r h Hok' br_there0 br_email0 Hd Eh Hv Httl br_id0 Hz Hf) as (token & w'' & Hl).
    exists (PrincipalFromUser (scanUser r)), token, w''. split; [done|]. unfold IsAdmin. cbn. by rewrite br_role0.
  - intros Hd. by eapply Login_disabled.
Qed.
End Login.

(** ** The state of an OIDC login *)

Lemma string_of_bytes_of s : string_of (bytes_of s) = s.
Proof. unfold string_of. induction s as [|c s IH]; cbn; [done|]. by rewrite byte_of_byte, IH. Qed.
Lemma bytes_of_bytes s : Forall (fun b => 0 <= b < 256) (bytes_of s).
Proof. induction s as [|c s IH]; constructor; [apply byte_range|done]. Qed.

Definition no_bar (s : string) : bool := string_forall (fun c => negb (Ascii.eqb c "|")) s.

Lemma no_bar_app a b : no_bar (a +:+ b) = no_bar a && no_bar b.
Proof. apply string_forall_app. Qed.

Lemma format_no_bar t : 0 <= Year (UTC t) <= 9999 -> 0 <= nsec t < 1000000000 -> no_bar (FormatRFC3339NanoUTC t) = true.
Proof.
  intros Hy Hns. unfold FormatRFC3339NanoUTC, FormatDateOnly. cbv zeta. unfold Year in Hy.
  pose proof (civil_from_days_spec (local_secs (UTC t) / 86400)) as Hc.
  unfold civil in *. destruct (civil_from_days _) as [[y m] d]. cbn [fst snd] in *. destruct Hc as (Hm & Hd & _).
  assert (daysIn m y <= 31) by (unfold daysIn; repeat case_match; lia).
  assert (forall n, 0 <= n < 100 -> no_bar (appendInt n 2) = true) as H2
    by (intros n Hn; apply (forall_below_spec 100 (fun n => no_bar (appendInt n 2))); [vm_compute; reflexivity|done]).
  assert (forall n, 0 <= n < 10000 -> no_bar (appendInt n 4) = true) as H4
    by (intros n Hn; apply (forall_below_spec 10000 (fun n => no_bar (appendInt n 4))); [vm_compute; reflexivity|done]).
  pose proof (Z.mod_pos_bound (local_secs (UTC t)) 86400 ltac:(lia)). pose proof (Z.mod_pos_bound (local_secs (UTC t)) 3600 ltac:(lia)).
  rewrite !no_bar_app, H4, !H2 by (unfold Hour, Minute, Second; first [lia|apply Z.mod_pos_bound; lia|
    split; [apply Z.div_pos; lia|apply Z.div_lt_upper_bound; lia]|
    pose proof (Z.mod_pos_bound (local_secs (UTC t)) 60); lia]).
  rewrite !andb_true_iff. repeat split; try reflexivity. unfold format_frac. destruct (_ =? 0); [done|].
  destruct (frac_digits_spec 9 100000000 (nsec (UTC t)) eq_refl ltac:(cbn; lia) ltac:(lia)) as [Hf _].
  rewrite no_bar_app. apply andb_true_iff. split; [done|]. unfold no_bar.
  eapply string_forall_impl; [|exact Hf]. intros c Hdig. apply negb_true_iff. apply not_true_iff_false. intros ->%Ascii.eqb_eq. discriminate Hdig.
Qed.

Lemma sign_no_bar p payload : no_bar (sign p payload) = true.
Proof.
  unfold sign. apply raw_url_encode_no_bar. rewrite list.Forall_forall. intros b Hb. unfold hmac_sha256 in Hb. cbv zeta in Hb.
  by eapply sha256_sum_bytes.
Qed.

(** The signed state of an OIDC login: the callback with the state that was signed is
    accepted exactly until the state expires; and a callback is accepted only when the
    signed state is what the provider's key signs for the returned state and an expiry
    that is not over, so that a state cannot be forged, altered or extended without the
    key. *)
Theorem oidc_state_roundtrip (E : Surroundings AuthTables) p w :
  (forall state expiresAt, state <> "" -> no_bar state = true -> 0 <= Year (UTC expiresAt) <= 9999 -> 0 <= nsec expiresAt < 1000000000 ->
    (VerifyCallbackState E p state (SignState p state expiresAt) w).1 =
    if After (UTC expiresAt) (wall E (ticks w)) then Ok tt else Err (Failure ErrOIDCStateInvalid)) /\
  (forall returned signed w', VerifyCallbackState E p returned signed w = (Ok tt, w') ->
    exists expiresRaw expiresAt decoded, raw_url_decode signed = Some decoded /\
      string_of decoded = (returned +:+ "|" +:+ expiresRaw) +:+ "|" +:+ sign p (returned +:+ "|" +:+ expiresRaw) /\
      ParseRFC3339 expiresRaw = Some expiresAt /\ After expiresAt (wall E (ticks w)) = true).
Proof.
  split.
  - intros state expiresAt Hne Hbar Hy Hns. unfold VerifyCallbackState, VerifyState, SignState. cbv zeta. rewrite bind_run.
    rewrite raw_url_decode_encode by apply bytes_of_bytes. rewrite string_of_bytes_of, !string_app_assoc. cbn [String.append].
    rewrite Split_cons by exact Hbar. rewrite Split_cons by (by apply format_no_bar). rewrite Split_no_sep by apply sign_no_bar.
    rewrite ParseRFC3339_Format by done. rewrite bind_run. unfold read_clock. destruct (After _ _); cbn [negb]; [|done].
    rewrite String.eqb_refl. cbn [negb]. unfold mret at 1, M_ret. apply String.eqb_neq in Hne. rewrite Hne, String.eqb_refl. done.
  - intros returned signed w'. unfold VerifyCallbackState, VerifyState. cbv zeta. rewrite bind_run.
    destruct (raw_url_decode signed) as [decoded|] eqn:Hd; [|done].
    pose proof (Split_Join "|" (string_of decoded)) as Hj.
    destruct (Split "|" (string_of decoded)) as [|state [|expiresRaw [|signature [|]]]]; try done.
    destruct (ParseRFC3339 expiresRaw) as [expiresAt|] eqn:Hp; [|done]. rewrite bind_run. unfold read_clock.
    destruct (After expiresAt _) eqn:Ha; cbn [negb]; [|done]. destruct (String.eqb_spec signature (sign p (state +:+ "|" +:+ expiresRaw))) as [Hs|]; [|done].
    cbn [negb]. unfold mret at 1, M_ret. destruct (String.eqb_spec returned "") as [|_]; [done|]. cbn [orb].
    destruct (String.eqb_spec returned state) as [->|]; [|done]. intros _. exists expiresRaw, expiresAt, decoded.
    split; [done|]. split; [|done]. rewrite <- Hj, <- Hs. unfold Join. cbn [String.concat]. by rewrite !string_app_assoc.
Qed.

(** ** Witnesses: the first administrator logs in *)

#[local] Instance plain_casing : Casing := { unicode_lower s := s; db_lower s := s }.
#[local] Instance zero_argon2 : Argon2 := fun _ _ _ _ _ keyLen => repeat 0 (Z.to_nat keyLen).
Definition calm : Surroundings AuthTables :=
  mkSurroundings (fun _ t => t) (fun _ => None) (fun n => Z.of_nat n) (fun n => mkTime (Z.of_nat n) 0 0) (fun n count => repeat (Z.of_nat n) count).
Definition plain_config : Config := mkConfig "root@x" "secret" 1000000000000 false "" None.
Definition no_tables : Server AuthTables := mkServer 0 (mkAuthTables ∅ ∅).
Definition bootstrapped : Server AuthTables := (EnsureBootstrapAdmin calm " Root@X" "secret" no_tables).2.
Definition logged_in : result run_error (list auth_event) * Server AuthTables := auth_step calm plain_config (OpLogin "root@x" "secret") bootstrapped.

Lemma calm_quiet : quiet_server calm.
Proof. split; reflexivity. Qed.
Lemma zero_argon2_length password salt time memory threads keyLen : 0 <= keyLen < 2 ^ 32 ->
  Z.of_nat (List.length (IDKey password salt time memory threads keyLen)) = keyLen.
Proof. intros Hk. unfold IDKey, zero_argon2. rewrite repeat_length. lia. Qed.

Lemma auth_tables_kept_witness :
  auth_ok (data (fold_left (fun w o => (auth_step calm plain_config o w).2) [OpBootstrap " Root@X" "secret"; OpLogin "root@x" "secret"] no_tables)).
Proof. apply (auth_tables_kept calm plain_config); [intros n t Ht; exact Ht|apply empty_auth_ok]. Defined.

Lemma bootstrapped_ok : EnsureBootstrapAdmin calm " Root@X" "secret" no_tables = (Ok tt, bootstrapped).
Proof. vm_compute. reflexivity. Qed.

Lemma bootstrap_then_login_witness :
  exists id r, users (data bootstrapped) !! id = Some r /\ urRole r = UserRoleAdmin /\
    exists p token w'', Login calm plain_config " Root@X" "secret" bootstrapped = (Ok (p, token), w'') /\ IsAdmin p = true.
Proof.
  destruct (bootstrap_then_login calm plain_config calm_quiet (fun n count => repeat_length _ count) zero_argon2_length " Root@X" "secret"
    no_tables bootstrapped (@empty_auth_ok _) eq_refl ltac:(vm_compute; reflexivity) ltac:(vm_compute; reflexivity) bootstrapped_ok) as (id & r & Hrow & Hlogin & _).
  pose proof (br_there _ _ _ _ _ _ Hrow) as Hr.
  exists id, r. split; [exact Hr|]. split; [exact (br_role _ _ _ _ _ _ Hrow)|]. apply Hlogin.
  - discriminate.
  - revert Hr. generalize (eq_refl : bool_decide (map_Forall (fun _ r => urDisabledAt r = None) (users (data bootstrapped))) = true).
    intros Hb%bool_decide_eq_true Hr. exact (Hb id r Hr).
  - reflexivity.
  - intros n. unfold IsZero, Add, UTC, calm. cbn [wall unix nsec]. apply andb_false_iff. left. apply Z.eqb_neq. cbn [SessionTTL plain_config].
    change ((0 + 1000000000000) / 1000000000) with 1000. lia.
  - intros n. change (sessions (data bootstrapped)) with (∅ : gmap string Session). apply lookup_empty.
Defined.

Definition issued_token : string := match logged_in.1 with Ok [Issued _ token] => tkValue token | _ => "" end.
Definition resolved : result run_error Principal * Server AuthTables := SessionFromToken calm issued_token logged_in.2.
Lemma logged_in_ok : exists es, logged_in = (Ok es, logged_in.2) /\ exists p, resolved = (Ok p, resolved.2).
Proof.
  destruct logged_in as [[es|e] w] eqn:Hl; [|by apply (f_equal (fun r => is_ok r.1)) in Hl; vm_compute in Hl].
  exists es. split; [done|]. destruct resolved as [[p|e] w'] eqn:Hr; [by exists p|]. by apply (f_equal (fun r => is_ok r.1)) in Hr; vm_compute in Hr.
Qed.

Lemma resolved_was_issued_witness :
  exists es p before issued after, auth_history calm plain_config logged_in.2 es /\ resolved = (Ok p, resolved.2) /\
    es = before ++ Issued (pID p) issued :: after.
Proof.
  destruct logged_in_ok as (es & Hl & p & Hr).
  assert (auth_history calm plain_config logged_in.2 (([] ++ []) ++ es)) as Hh.
  { apply (history_ok calm plain_config bootstrapped ([] ++ []) (OpLogin "root@x" "secret") es logged_in.2); [|exact Hl].
    apply (history_ok calm plain_config no_tables [] (OpBootstrap " Root@X" "secret") []); [apply history_start|].
    cbn [auth_step]. rewrite bind_run, bootstrapped_ok. reflexivity. }
  destruct (resolved_was_issued calm plain_config (fun _ _ => eq_refl) (fun n e => ltac:(discriminate)) logged_in.2 _ issued_token p resolved.2 Hh Hr)
    as (before & issued & after & _ & _ & He & _).
  exists (([] ++ []) ++ es), p, before, issued, after. split; [exact Hh|]. split; [exact Hr|exact He].
Defined.

(** A user whom an administrator disables between the two statements of an update. *)
Definition crossed_row (disabled : option Z) : UserRow := mkUserRow "user_1" "u@x" None UserRoleUser None None disabled 1 1.
Definition crossed_tables (disabled : option Z) : AuthTables := mkAuthTables {["user_1" := crossed_row disabled]} ∅.
Definition crossing : Surroundings AuthTables :=
  mkSurroundings (fun n t => if Nat.eqb n 1 then crossed_tables (Some 5) else t) (fun _ => None) (fun n => Z.of_nat n)
    (fun n => mkTime (Z.of_nat n) 0 0) (fun n count => repeat (Z.of_nat n) count).

Lemma crossed_ok disabled : auth_ok (crossed_tables disabled).
Proof.
  split; cbn [users sessions crossed_tables]; try (intros key s; rewrite lookup_empty; done).
  - by intros key r [<- <-]%lookup_singleton_Some.
  - by intros key r [<- <-]%lookup_singleton_Some.
  - by intros k1 k2 r1 r2 [<- _]%lookup_singleton_Some [<- _]%lookup_singleton_Some.
Qed.

Lemma crossing_update_lost_witness :
  exists u w' r', UpdateUser crossing (mkUpdateUser "user_1" (Some "Name") None None None None) (mkServer 0 (crossed_tables None)) = (Ok u, w') /\
    users (data w') = <["user_1" := r']> (users (crossed_tables (Some 5))) /\ urDisabledAt r' = None.
Proof.
  destruct (crossing_update_lost crossing (mkServer 0 (crossed_tables None)) "user_1" (crossed_row None) (crossed_row (Some 5)) "Name" (crossed_tables (Some 5))
    (crossed_ok None) eq_refl (fun _ => eq_refl) eq_refl eq_refl (crossed_ok (Some 5)) eq_refl eq_refl eq_refl)
    as (u & w' & r' & H1 & _ & H2 & _ & _ & H3).
  exists u, w', r'. split; [exact H1|]. split; [exact H2|exact H3].
Defined.
