(* ===== verification/Http.v ===== *)
(** * Http

    Requests and answers of the API, and its authentication middleware
    (apps/api/internal/httpserver/middleware/auth.go and provenance.go).  An answer is the
    body of a success or a status with a detail; headers other than cookies are left out. *)
From S2P Require Import Prelude GoStrings JobRuns ErrState Request Passwords Users Auth.
Local Open Scope Z_scope.

Record HttpRequest := mkHttpRequest { rqMethod : string; rqPath : string; rqSessionCookie : option string }.

(** [huma.ErrorNNN...] and the raw handlers' [writeJSONError]; another error becomes an
    internal server error. *)
Record Problem := mkProblem { prStatus : Z; prDetail : string }.
Notation answer A := (result Problem A).

Definition BadRequest (detail : string) : Problem := mkProblem 400 detail.
Definition Unauthorized (detail : string) : Problem := mkProblem 401 detail.
Definition Forbidden (detail : string) : Problem := mkProblem 403 detail.
Definition NotFound (detail : string) : Problem := mkProblem 404 detail.
Definition Conflict (detail : string) : Problem := mkProblem 409 detail.
Definition UnprocessableEntity (detail : string) : Problem := mkProblem 422 detail.
Definition InternalServerError (detail : string) : Problem := mkProblem 500 detail.
Definition ServiceUnavailable (detail : string) : Problem := mkProblem 503 detail.

(** A handler never fails: it answers.  [bind_answer] stops at a problem. *)
Definition handler (S A : Type) : Type := S -> answer A * S.
Definition respond {S A} (a : A) : handler S A := fun s => (Ok a, s).
Definition refuse {S A} (p : Problem) : handler S A := fun s => (Err p, s).
Definition bind_answer {S A B} (m : handler S A) (f : A -> handler S B) : handler S B := fun s =>
  match m s with
  | (Ok a, s') => f a s'
  | (Err p, s') => (Err p, s')
  end.

(** [x, err := f()] in a handler. *)
Definition called {S A} (m : M S A) : handler S (result run_error A) := fun s => match m s with (r, s') => (Ok r, s') end.

(** [if err != nil { return nil, problem }]. *)
Definition or_problem {S A} (problem : run_error -> Problem) (m : M S A) : handler S A := fun s =>
  match m s with
  | (Ok a, s') => (Ok a, s')
  | (Err e, s') => (Err (problem e), s')
  end.

(** [return nil, err]: huma turns an error without a status into a 500. *)
Definition internal (e : run_error) : Problem := InternalServerError "unexpected error occurred".

(** [errors.Is(err, target)]. *)
Fixpoint is_error (target e : store_error) : bool :=
  bool_decide (e = target) || match e with Wrapf _ cause => is_error target cause | _ => false end.

(** [if errors.Is(err, storage.ErrNotFound) { return nil, huma.Error404NotFound(message) }]
    and then [return nil, err]. *)
Definition not_found_run (e : run_error) : bool := match e with Failure e => IsNotFound e | OutOfFuel => false end.
Definition not_found_or_internal (message : string) (e : run_error) : Problem :=
  if not_found_run e then NotFound message else internal e.

(** [if dependencies.Storage == nil]. *)
Definition with_storage {S A} (configured : bool) (message : string) (m : handler S A) : handler S A :=
  if configured then m else refuse (InternalServerError message).

(** A value or the problem it raises. *)
Definition of_answer {S A} (a : answer A) : handler S A := fun s => (a, s).

(** A handler that keeps a predicate of the state. *)
Section Answering.
Context {S : Type} (I : S -> Prop).
Definition answering {A} (m : handler S A) : Prop := forall s, I s -> I (m s).2.

Lemma answering_refuse {A} p : answering (refuse (A := A) p).
Proof. intros s Hs. exact Hs. Qed.
Lemma answering_respond {A} (a : A) : answering (respond a).
Proof. intros s Hs. exact Hs. Qed.
Lemma answering_of_answer {A} (a : answer A) : answering (of_answer a).
Proof. intros s Hs. exact Hs. Qed.
Lemma answering_bind {A B} (m : handler S A) (f : A -> handler S B) : answering m -> (forall a, answering (f a)) -> answering (bind_answer m f).
Proof. intros Hm Hf s Hs. specialize (Hm s Hs). unfold bind_answer. destruct (m s) as [[a|p] s']; [by apply Hf|exact Hm]. Qed.
Lemma answering_called {A} (m : M S A) : keeps I m -> answering (called m).
Proof. intros Hm s Hs. specialize (Hm s Hs). unfold called. by destruct (m s) as [[a|e] s']. Qed.
Lemma answering_or_problem {A} f (m : M S A) : keeps I m -> answering (or_problem f m).
Proof. intros Hm s Hs. specialize (Hm s Hs). unfold or_problem. by destruct (m s) as [[a|e] s']. Qed.
Lemma answering_with_storage {A} configured message (m : handler S A) : answering m -> answering (with_storage configured message m).
Proof. intros Hm. destruct configured; [exact Hm|apply answering_refuse]. Qed.
End Answering.

(** A handler that also answers with what satisfies [R]. *)
Definition answering_with {S A} (I : S -> Prop) (R : A -> Prop) (m : handler S A) : Prop :=
  forall s, I s -> I (m s).2 /\ forall a, (m s).1 = Ok a -> R a.
Lemma answering_with_bind {S A B} (I : S -> Prop) R (m : handler S A) (f : A -> handler S B) :
  answering_with I R m -> (forall a, R a -> answering I (f a)) -> answering I (bind_answer m f).
Proof.
  intros Hm Hf s Hs. destruct (Hm s Hs) as [Hi Hr]. unfold bind_answer. destruct (m s) as [[a|p] s']; [|exact Hi].
  apply Hf; [by apply Hr|exact Hi].
Qed.
Lemma answering_with_refuse {S A} (I : S -> Prop) (R : A -> Prop) p : answering_with I R (refuse p).
Proof. intros s Hs. by split. Qed.
Lemma answering_with_respond {S A} (I : S -> Prop) (R : A -> Prop) a : R a -> answering_with I R (respond a).
Proof. intros Ha s Hs. split; [done|]. by intros b [= <-]. Qed.
Lemma answering_with_or_problem {S A} (I : S -> Prop) (R : A -> Prop) f (m : M S A) :
  triple I m (fun a s => I s /\ R a) (fun _ => I) -> answering_with I R (or_problem f m).
Proof.
  intros Hm s Hs. specialize (Hm s Hs). unfold or_problem. destruct (m s) as [[a|e] s']; cbn in *; [|by split].
  split; [apply Hm|]. intros b [= <-]. apply Hm.
Qed.
Lemma answering_with_chain {S A B} (I : S -> Prop) (R : A -> Prop) (Q : B -> Prop) (m : handler S A) (f : A -> handler S B) :
  answering_with I R m -> (forall a, R a -> answering_with I Q (f a)) -> answering_with I Q (bind_answer m f).
Proof.
  intros Hm Hf s Hs. destruct (Hm s Hs) as [Hi Hr]. unfold bind_answer. destruct (m s) as [[a|p] s']; [|by split].
  apply Hf; [by apply Hr|exact Hi].
Qed.

(** The handlers' own steps, one at a time; what is left is the statements. *)
Ltac answering_step :=
  lazymatch goal with
  | |- answering _ (refuse _) => apply answering_refuse
  | |- answering _ (respond _) => apply answering_respond
  | |- answering _ (of_answer _) => apply answering_of_answer
  | |- answering _ (bind_answer _ _) => apply answering_bind; [|intros ?]
  | |- answering _ (called _) => apply answering_called
  | |- answering _ (or_problem _ _) => apply answering_or_problem
  | |- answering _ (with_storage _ _ _) => apply answering_with_storage
  | |- answering _ (match ?x with _ => _ end) => destruct x
  end.

(** ** middleware/auth.go *)

Definition isPublicPath (path : string) : bool :=
  existsb (String.eqb path)
    ["/api/healthz"; "/api/openapi"; "/api/openapi.json"; "/api/docs"; "/api/schemas";
     "/api/auth/login"; "/api/auth/logout"; "/api/auth/config"; "/api/auth/oidc/start"; "/api/auth/oidc/callback"].

Definition requiresAdmin (method path : string) : bool :=
  if String.eqb method "GET" || String.eqb method "HEAD" || String.eqb method "OPTIONS" then false
  else if String.eqb method "POST" && (String.eqb path "/api/search" || String.eqb path "/api/search/validate") then false
  else if String.eqb method "PATCH" && String.eqb path "/api/auth/password" then false
  else true.

Definition sessionTokenFromRequest (r : HttpRequest) : string := default "" (rqSessionCookie r).

(** [resolve] is [SessionFromToken] of the configured service, if there is one; [next]
    is given the principal of the context. *)
Definition AuthMiddleware {S A} (resolve : option (string -> M S Principal)) (next : option Principal -> handler S A)
  (r : HttpRequest) : handler S A :=
  if isPublicPath (rqPath r) then next None
  else
    match resolve with
    | None => refuse (ServiceUnavailable "Authentication is not configured.")
    | Some resolve =>
        bind_answer (called (resolve (sessionTokenFromRequest r))) (fun principal =>
          match principal with
          | Err _ => refuse (Unauthorized "Authentication is required.")
          | Ok principal =>
              if requiresAdmin (rqMethod r) (rqPath r) && negb (is_ok (RequireAdmin principal))
              then refuse (Forbidden "You do not have permission to perform this action.")
              else next (Some principal)
          end)
    end.

Definition RequireAdminContext {S} (context : option Principal) : handler S Principal :=
  match context with
  | None => refuse (Unauthorized "Authentication is required.")
  | Some principal =>
      if negb (is_ok (RequireAdmin principal)) then refuse (Forbidden "Admin access is required.") else respond principal
  end.

(** ** middleware/provenance.go *)

Record RequestedBy := mkRequestedBy { rbType : string; rbID : string }.
Definition RequestedByFromContext (configured : bool) (context : option Principal) : RequestedBy :=
  match context with
  | Some principal => if configured then mkRequestedBy "user" (pID principal) else mkRequestedBy "api" ""
  | None => mkRequestedBy "api" ""
  end.

(** ** What the middleware guarantees *)

Lemma is_admin_iff p : is_ok (RequireAdmin p) = true <-> IsAdmin p = true.
Proof. unfold RequireAdmin. by destruct (IsAdmin p). Qed.

(** What is passed on was resolved, and is an administrator where one is required. *)
Lemma middleware_spec {S A} (resolve : option (string -> M S Principal)) (next : option Principal -> handler S A) r s :
  isPublicPath (rqPath r) = false ->
  (exists p s' f, resolve = Some f /\ f (sessionTokenFromRequest r) s = (Ok p, s') /\
     (requiresAdmin (rqMethod r) (rqPath r) = true -> IsAdmin p = true) /\ AuthMiddleware resolve next r s = next (Some p) s') \/
  (exists problem, (AuthMiddleware resolve next r s).1 = Err problem /\ In (prStatus problem) [401; 403; 503]%Z /\
     (AuthMiddleware resolve next r s).2 = match resolve with Some f => (f (sessionTokenFromRequest r) s).2 | None => s end).
Proof.
  intros Hp. unfold AuthMiddleware. rewrite Hp. destruct resolve as [f|]; [|right; eexists; split; [reflexivity|]; split; [cbn; tauto|done]].
  unfold bind_answer, called. destruct (f (sessionTokenFromRequest r) s) as [[p|e] s'] eqn:Hf.
  2: { right. eexists. split; [reflexivity|]. split; [cbn; tauto|done]. }
  destruct (requiresAdmin (rqMethod r) (rqPath r)) eqn:Hr; cbn [andb].
  - destruct (is_ok (RequireAdmin p)) eqn:Ha; cbn [negb].
    + left. exists p, s', f. repeat (split; [done|]). split; [|done]. intros _. by apply is_admin_iff.
    + right. eexists. split; [reflexivity|]. split; [cbn; tauto|done].
  - left. exists p, s', f. repeat (split; [done|]). split; done.
Qed.

Lemma answering_require_admin {S} (I : S -> Prop) context : answering I (RequireAdminContext context).
Proof. unfold RequireAdminContext. repeat answering_step. Qed.
