(* ===== verification/AuthHttp.v ===== *)
(** * AuthHttp

    The routes of authentication and of the users:
    apps/api/internal/httpserver/auth/routes.go and handlers.go.  The bodies of the requests
    are given decoded; a body that cannot be read or decoded is [None]. *)
From S2P Require Import Prelude GoStrings GoTime JobRuns ErrState Catalog Request Passwords Users Auth AuthProofs AuthLogin Http.
Local Open Scope Z_scope.

Record sessionUserResponse := mkUserResponse {
  rsID : string; rsEmail : string; rsDisplayName : string; rsRole : string; rsCreatedAt : Z; rsUpdatedAt : Z; rsDisabledAt : option Z
}.
Definition userResponseFromStorage (user : User) : sessionUserResponse :=
  mkUserResponse (uID user) (uEmail user) (uDisplayName user) (uRole user) (uCreatedAt user) (uUpdatedAt user) (uDisabledAt user).

Record createUserInput := mkCreateInput { ciEmail : string; ciDisplayName : string; ciRole : string; ciPassword : string }.
Record updateUserInput := mkUpdateInput { uiDisplayName : option string; uiRole : option string; uiDisabled : option bool; uiPassword : option string }.

(** The cookies that an answer sets: a session, or its removal; the same for the state of
    an OIDC login. *)
Inductive cookie := SetSession (token : SessionToken) | ClearSession | SetOIDCState (value : string) (expiresAt : Time) | ClearOIDCState.

Inductive auth_body :=
| BodyUser (user : sessionUserResponse)
| BodyUsers (users : list sessionUserResponse)
| BodyConfig (oidcEnabled : bool)
| NoContent
| Redirect (url : string).
Record auth_response := mkAuthResponse { arBody : auth_body; arCookies : list cookie }.
Definition plain (body : auth_body) : auth_response := mkAuthResponse body [].

(** The calls of the API that this part serves. *)
Inductive auth_call :=
| GetAuthSession
| SetAuthPassword (password : string)
| ListUsersCall
| CreateUserCall (input : createUserInput)
| UpdateUserCall (id : string) (input : updateUserInput)
| GetAuthConfig
| LoginCall (body : option (string * string))
| LogoutCall
| OIDCStart
| OIDCCallbackCall (code state : string) (stateCookie : string).

Definition call_route (c : auth_call) : string * string :=
  match c with
  | GetAuthSession => ("GET", "/api/auth/session")
  | SetAuthPassword _ => ("PATCH", "/api/auth/password")
  | ListUsersCall => ("GET", "/api/users")
  | CreateUserCall _ => ("POST", "/api/users")
  | UpdateUserCall id _ => ("PATCH", "/api/users/" +:+ id)
  | GetAuthConfig => ("GET", "/api/auth/config")
  | LoginCall _ => ("POST", "/api/auth/login")
  | LogoutCall => ("POST", "/api/auth/logout")
  | OIDCStart => ("GET", "/api/auth/oidc/start")
  | OIDCCallbackCall _ _ _ => ("GET", "/api/auth/oidc/callback")
  end.

Section Handlers.
Context `{Casing, Argon2} (E : Surroundings AuthTables) (cfg : Config).
Notation served := (handler (Server AuthTables)).

Definition authentication_required : Problem := Unauthorized "Authentication is required.".

Definition requireAdmin (context : option Principal) : served unit :=
  match context with
  | None => refuse authentication_required
  | Some principal =>
      if negb (is_ok (RequireAdmin principal)) then refuse (Forbidden "Admin access is required.") else respond tt
  end.

Definition handle_session (context : option Principal) : served auth_response :=
  match context with
  | None => refuse authentication_required
  | Some principal =>
      bind_answer (or_problem (fun _ => authentication_required) (statement E (fun _ => GetUser (pID principal)))) (fun user =>
      respond (plain (BodyUser (userResponseFromStorage user))))
  end.

Definition handle_set_password (context : option Principal) (password : string) : served auth_response :=
  match context with
  | None => refuse authentication_required
  | Some principal =>
      if String.eqb password "" then refuse (BadRequest "password is required")
      else
        bind_answer (or_problem (fun _ => InternalServerError "Failed to update password.") (SetPassword E (pID principal) password)) (fun _ =>
        respond (plain NoContent))
  end.

Definition handle_list_users (context : option Principal) : served auth_response :=
  bind_answer (requireAdmin context) (fun _ =>
  bind_answer (or_problem (fun _ => InternalServerError "Failed to list users.") (statement E (fun _ => ListUsers))) (fun users =>
  respond (plain (BodyUsers (map userResponseFromStorage users))))).

Definition handle_create_user (context : option Principal) (input : createUserInput) : served auth_response :=
  bind_answer (requireAdmin context) (fun _ =>
  let role := if String.eqb (ciRole input) "" then RoleUser else ciRole input in
  if negb (String.eqb role RoleAdmin) && negb (String.eqb role RoleUser) then refuse (BadRequest "role must be admin or user")
  else
    bind_answer (or_problem (fun e => if bool_decide (e = Failure ErrUserExists)
                                      then Conflict "A user with this email already exists."
                                      else InternalServerError "Failed to create user.")
                  (ServiceCreate E (mkServiceCreate (ciEmail input) (ciDisplayName input) role (ciPassword input)))) (fun user =>
    respond (plain (BodyUser (userResponseFromStorage user))))).

Definition handle_update_user (context : option Principal) (id : string) (input : updateUserInput) : served auth_response :=
  bind_answer (requireAdmin context) (fun _ =>
  if match uiRole input with Some role => negb (String.eqb role RoleAdmin) && negb (String.eqb role RoleUser) | None => false end
  then refuse (BadRequest "role must be admin or user")
  else
    bind_answer (or_problem (fun _ => InternalServerError "Failed to update user.")
                  (ServiceUpdate E (mkServiceUpdate id (uiRole input) (uiDisabled input) (uiPassword input) (uiDisplayName input)))) (fun user =>
    respond (plain (BodyUser (userResponseFromStorage user))))).

Definition handleLogin (body : option (string * string)) : served auth_response :=
  match body with
  | None => refuse (BadRequest "Invalid request body.")
  | Some (email, password) =>
      bind_answer (or_problem (fun e => if bool_decide (e ∈ map Failure [ErrInvalidCredentials; ErrPasswordNotSet; ErrUserDisabled])
                                        then Unauthorized "Invalid email or password."
                                        else InternalServerError "Login failed.")
                    (Login E cfg email password)) (fun r =>
      bind_answer (or_problem (fun _ => InternalServerError "Login failed.") (statement E (fun _ => GetUser (pID r.1)))) (fun user =>
      respond (mkAuthResponse (BodyUser (userResponseFromStorage user)) [SetSession r.2])))
  end.

Definition handleLogout (r : HttpRequest) : served auth_response :=
  bind_answer (called (Logout E (sessionTokenFromRequest r))) (fun _ => respond (mkAuthResponse NoContent [ClearSession])).

Definition handleOIDCStart : served auth_response :=
  match OIDC cfg with
  | None => refuse (ServiceUnavailable "OIDC is not configured.")
  | Some _ =>
      bind_answer (or_problem (fun _ => InternalServerError "Failed to start OIDC login.") (OIDCStartURL E cfg)) (fun started =>
      let '(url, signedState, expiresAt) := started in
      respond (mkAuthResponse (Redirect url) [SetOIDCState signedState expiresAt]))
  end.

(** The answer of a failed callback clears the state cookie, too. *)
Definition handleOIDCCallback (code state stateCookie : string) : served auth_response :=
  match OIDC cfg with
  | None => refuse (ServiceUnavailable "OIDC is not configured.")
  | Some _ =>
      let code := TrimSpace code in
      if String.eqb code "" then refuse (BadRequest "Missing authorization code.")
      else
        bind_answer (or_problem (fun e => if bool_decide (e ∈ map Failure [ErrInvalidCredentials; ErrUserDisabled; ErrOIDCStateInvalid])
                                          then Unauthorized "OIDC login failed."
                                          else InternalServerError "OIDC login failed.")
                      (OIDCCallback E cfg code state stateCookie)) (fun r =>
        respond (mkAuthResponse (Redirect (WebAppURL cfg)) [ClearOIDCState; SetSession r.2]))
  end.

Definition handle_call (r : HttpRequest) (c : auth_call) (context : option Principal) : served auth_response :=
  match c with
  | GetAuthSession => handle_session context
  | SetAuthPassword password => handle_set_password context password
  | ListUsersCall => handle_list_users context
  | CreateUserCall input => handle_create_user context input
  | UpdateUserCall id input => handle_update_user context id input
  | GetAuthConfig => respond (plain (BodyConfig (bool_decide (is_Some (OIDC cfg)))))
  | LoginCall body => handleLogin body
  | LogoutCall => handleLogout r
  | OIDCStart => handleOIDCStart
  | OIDCCallbackCall code state stateCookie => handleOIDCCallback code state stateCookie
  end.

(** A request as the server serves it, through the middleware. *)
Definition serve (c : auth_call) (cookie : option string) : served auth_response :=
  let r := mkHttpRequest (call_route c).1 (call_route c).2 cookie in
  AuthMiddleware (Some (SessionFromToken E)) (handle_call r c) r.
End Handlers.

(** ** Who changes users *)

Section Guarded.
Context `{Casing, Argon2} (E : Surroundings AuthTables) (cfg : Config).
Hypothesis alone : forall n t, meanwhile E n t = t.
Hypothesis answered : forall n e, failing E n <> Some (AnswerLost e).

Section Users.
(** A property of the users alone. *)
Variable U : gmap string UserRow -> Prop.
Definition on_users (t : AuthTables) : Prop := U (users t).

Lemma meanwhile_users n t : on_users t -> on_users (meanwhile E n t).
Proof. by rewrite alone. Qed.

Lemma keeps_sessions_only {A} (f : AuthTables -> result run_error A) (g : AuthTables -> gmap string Session) :
  keeps on_users (fun t => (f t, set_sessions (g t) t)).
Proof. intros t Ht. by destruct (f t). Qed.
Lemma keeps_reading {A} (f : AuthTables -> result run_error A) : keeps on_users (fun t => (f t, t)).
Proof. intros t Ht. by destruct (f t). Qed.
Lemma keeps_insert_session_users s : keeps on_users (insert_session s).
Proof. intros t Ht. unfold insert_session. cbv zeta. repeat (case_bool_decide; try done). Qed.
Lemma keeps_DeleteSession_users id : keeps on_users (DeleteSession id).
Proof. intros t Ht. unfold DeleteSession. by destruct (sessions t !! id). Qed.

Ltac sessions_only :=
  repeat lazymatch goal with
  | |- keeps _ (mret _) => apply keeps_mret
  | |- keeps _ (fail _) => apply keeps_fail
  | |- keeps _ (fail_with _) => apply keeps_fail
  | |- keeps _ (of_result _) => apply keeps_of_result
  | |- keeps _ (mbind _ _) => apply keeps_mbind; [|intros ?]
  | |- keeps _ (read_clock _) => apply keeps_read_clock
  | |- keeps _ (read_random _ _) => apply keeps_read_random
  | |- keeps _ (attempted _) => apply keeps_attempted
  | |- keeps _ (statement _ _) => apply keeps_statement; [exact meanwhile_users|intros ?]
  | |- keeps _ (insert_session _) => apply keeps_insert_session_users
  | |- keeps _ (DeleteSession _) => apply keeps_DeleteSession_users
  | |- keeps _ (DeleteSessionByTokenHash _) => apply keeps_sessions_only
  | |- keeps _ ListUsers => apply keeps_reading
  | |- keeps _ (GetUser _) => apply keeps_reading
  | |- keeps _ (GetUserByEmail _) => apply keeps_reading
  | |- keeps _ (GetSessionByTokenHash _) => apply keeps_reading
  | |- keeps _ (match ?x with _ => _ end) => destruct x
  end.

Notation users_kept := (holds on_users).

Lemma resolve_users token : keeps users_kept (SessionFromToken E token).
Proof. unfold SessionFromToken, ResolveSession. sessions_only. Qed.
Lemma login_users email password : keeps users_kept (Login E cfg email password).
Proof. unfold Login, issue, CreateSessionFor, NewSessionToken, CreateSession. sessions_only. Qed.
Lemma logout_users token : keeps users_kept (Logout E token).
Proof. unfold Logout, RevokeSession. sessions_only. Qed.
Lemma start_users : keeps users_kept (OIDCStartURL E cfg).
Proof. unfold OIDCStartURL. sessions_only. Qed.
Lemma get_user_users id : keeps users_kept (statement E (fun _ => GetUser id)).
Proof. sessions_only. Qed.
Lemma list_users_users : keeps users_kept (statement E (fun _ => ListUsers)).
Proof. sessions_only. Qed.

(** A handler that keeps the property. *)
Notation answers := (answering users_kept).

Lemma answers_requireAdmin context : answers (requireAdmin context).
Proof. unfold requireAdmin. destruct context; [|apply answering_refuse]. destruct (negb _); [apply answering_refuse|apply answering_respond]. Qed.

(** The calls that do not write users. *)
Definition writes_users (c : auth_call) : bool :=
  match c with SetAuthPassword _ | CreateUserCall _ | UpdateUserCall _ _ | OIDCCallbackCall _ _ _ => true | _ => false end.

Lemma other_calls r c context : writes_users c = false -> answers (handle_call E cfg r c context).
Proof.
  destruct c; intros Hc; try discriminate; cbn [handle_call].
  - unfold handle_session. destruct context; [|apply answering_refuse].
    apply answering_bind; [apply answering_or_problem, get_user_users|intros ?; apply answering_respond].
  - unfold handle_list_users. apply answering_bind; [apply answers_requireAdmin|intros _].
    apply answering_bind; [apply answering_or_problem, list_users_users|intros ?; apply answering_respond].
  - apply answering_respond.
  - unfold handleLogin. destruct body as [[email password]|]; [|apply answering_refuse].
    apply answering_bind; [apply answering_or_problem, login_users|intros ?].
    apply answering_bind; [apply answering_or_problem, get_user_users|intros ?; apply answering_respond].
  - unfold handleLogout. apply answering_bind; [apply answering_called, logout_users|intros ?; apply answering_respond].
  - unfold handleOIDCStart. destruct (OIDC cfg); [|apply answering_refuse].
    apply answering_bind; [apply answering_or_problem, start_users|intros [[? ?] ?]; apply answering_respond].
Qed.
End Users.

(** What [UpdateUser] writes. *)
Lemma UpdateUser_alone params w : auth_ok (data w) ->
  users (data (UpdateUser E params w).2) = users (data w) \/
  exists r r', users (data w) !! uuID params = Some r /\
    users (data (UpdateUser E params w).2) = <[uuID params := r']> (users (data w)) /\
    urRole r' = default (urRole r) (uuRole params) /\ urEmail r' = urEmail r /\
    urPasswordHash r' = (match uuPasswordHash params with Some h => Some h | None => urPasswordHash r end) /\
    (uuDisabled params = None -> urDisabledAt r' = urDisabledAt r) /\ urID r' = urID r /\ urCreatedAt r' = urCreatedAt r /\
    default "" (urDisplayName r') = default (default "" (urDisplayName r)) (uuDisplayName params) /\
    default "" (urOIDCSubject r') = default (default "" (urOIDCSubject r)) (uuOIDCSubject params).
Proof.
  assert (forall s, default "" (nullif_empty s) = s) as Hnull by (intros s; unfold nullif_empty; by destruct (String.eqb_spec s "")).
  intros Hok. unfold UpdateUser. rewrite bind_run.
  destruct (statement_alone E alone answered (fun _ => GetUser (uuID params)) w) as [[n ->]|[e ->]]; [|by left].
  rewrite GetUser_spec by done. cbn [fst snd]. destruct (users (data w) !! uuID params) as [r|] eqn:Hr; [|by left].
  cbv zeta. destruct (_ && _); [by left|].
  set (disabled := match uuDisabled params with Some true => _ | Some false => _ | None => _ end).
  assert (exists d n', disabled (mkServer (S (ticks w)) (data w)) = (Ok d, mkServer n' (data w)) /\
    (uuDisabled params = None -> d = urDisabledAt r)) as (d & n' & Hd & Hnone).
  { unfold disabled. destruct (uuDisabled params) as [[|]|]; eexists _, _; (split; [reflexivity|done]). }
  rewrite bind_run, Hd. match goal with |- context [statement E ?m ?w] => destruct (statement_alone E alone answered m w) as [[n'' ->]|[e ->]] end; [|by left].
  cbn [data snd]. unfold update_user_row. rewrite Hr. unfold write_user. destruct (negb _); [by left|]. destruct (user_taken _ _); [by left|].
  right. assert (urID r = uuID params) as Hid by (by apply (au_keyed _ Hok)). eexists r, _. split; [done|]. cbn [snd users set_users urID].
  rewrite Hid. split; [reflexivity|]. cbn. rewrite !Hnull. repeat split; done.
Qed.

(** A user whose password alone was changed, and one whom the identity provider gave its
    name and subject: nothing else is different, but the time of the update. *)
Definition new_password (r r' : UserRow) : Prop := exists h,
  scanUser r' = mkUser (urID r) (urEmail r) (uDisplayName (scanUser r)) (urRole r) (Some h) (uOIDCSubject (scanUser r)) (urDisabledAt r)
    (urCreatedAt r) (urUpdatedAt r').
Definition new_identity (r r' : UserRow) : Prop := exists displayName subject,
  scanUser r' = mkUser (urID r) (urEmail r) displayName (urRole r) (urPasswordHash r) subject (urDisabledAt r) (urCreatedAt r) (urUpdatedAt r').

(** At most one row was changed, in this way; none was added or lost. *)
Definition one_changed (P : string -> UserRow -> UserRow -> Prop) (m m' : gmap string UserRow) : Prop :=
  m' = m \/ exists id r r', m !! id = Some r /\ P id r r' /\ m' = <[id := r']> m.

(** The own password. *)
Lemma set_password_own r password p w : auth_ok (data w) ->
  one_changed (fun id r r' => id = pID p /\ new_password r r') (users (data w))
    (users (data (handle_call E cfg r (SetAuthPassword password) (Some p) w).2)).
Proof.
  intros Hok. cbn [handle_call handle_set_password]. destruct (String.eqb password ""); [by left|].
  unfold bind_answer, or_problem, SetPassword. destruct (String.eqb password ""); [by left|]. rewrite bind_run.
  pose proof (keeps_HashPassword E (eq (data w)) hasher password w eq_refl) as Hk.
  destruct (HashPassword E hasher password w) as [[h|e] w1]; unfold holds in Hk; cbn in Hk; [|left; cbn; by rewrite <- Hk].
  rewrite bind_run. rewrite Hk in Hok |- *. set (params := mkUpdateUser _ _ _ _ _ _).
  pose proof (UpdateUser_alone params w1 Hok) as Hu.
  assert (one_changed (fun id r r' => id = pID p /\ new_password r r') (users (data w1)) (users (data (UpdateUser E params w1).2))) as H1.
  { destruct Hu as [Hu|(r0 & r' & Hr0 & Hu & R1 & R2 & R3 & R4 & R5 & R6 & R7 & R8)]; [by left|]. right. exists (pID p), r0, r'.
    split; [done|]. split; [|done]. split; [done|]. exists h. unfold scanUser. cbn [uDisplayName uOIDCSubject].
    cbn in R1, R3, R7, R8. rewrite R1, R2, R3, R5, R6, R7, R8. by rewrite R4. }
  by destruct (UpdateUser E params w1) as [[u|e] w2].
Qed.

Lemma issue_users U user : keeps (holds (on_users U)) (issue E cfg user).
Proof.
  unfold issue, CreateSessionFor, NewSessionToken, CreateSession.
  repeat lazymatch goal with
  | |- keeps _ (mret _) => apply keeps_mret
  | |- keeps _ (fail_with _) => apply keeps_fail
  | |- keeps _ (mbind _ _) => apply keeps_mbind; [|intros ?]
  | |- keeps _ (read_clock _) => apply keeps_read_clock
  | |- keeps _ (read_random _ _) => apply keeps_read_random
  | |- keeps _ (statement _ _) => apply keeps_statement; [exact (meanwhile_users U)|intros ?]
  | |- keeps _ (insert_session _) => apply keeps_insert_session_users
  | |- keeps _ (match ?x with _ => _ end) => destruct x
  end.
Qed.

Lemma callback_rights code state signed w : auth_ok (data w) ->
  one_changed (fun _ => new_identity) (users (data w)) (users (data (OIDCCallback E cfg code state signed w).2)).
Proof.
  intros Hok. set (U := one_changed (fun _ => new_identity) (users (data w))).
  assert (triple (holds (eq (data w))) (OIDCCallback E cfg code state signed) (fun _ => holds (on_users U)) (fun _ => holds (on_users U))) as Ht.
  { assert (forall w', holds (eq (data w)) w' -> holds (on_users U) w') as Hw by (intros w' Hw'; unfold holds, on_users in *; rewrite <- Hw'; by left).
    unfold OIDCCallback. destruct (OIDC cfg) as [p|]; [|intros w' Hw'; by apply Hw].
    assert (forall n t, eq (data w) t -> eq (data w) (meanwhile E n t)) as Hm by (intros n t; by rewrite alone).
    assert (forall A B (m : M _ A) (f : A -> M _ B), keeps (holds (eq (data w))) m ->
      (forall a, triple (holds (eq (data w))) (f a) (fun _ => holds (on_users U)) (fun _ => holds (on_users U))) ->
      triple (holds (eq (data w))) (m ≫= f) (fun _ => holds (on_users U)) (fun _ => holds (on_users U))) as Hbind.
    { intros A B m f Hk Hf. eapply triple_bind; [|exact Hf]. eapply triple_post; [exact Hk|done|]. intros e w'. apply Hw. }
    assert (forall user, triple (holds (eq (data w))) (issue E cfg user) (fun _ => holds (on_users U)) (fun _ => holds (on_users U))) as Hissue
      by (intros user; eapply triple_pre; [exact Hw|apply issue_users]).
    assert (forall B e, triple (holds (eq (data w))) (fail e : M _ B) (fun _ => holds (on_users U)) (fun _ => holds (on_users U))) as Hfail
      by (intros B e w' Hw'; by apply Hw).
    apply Hbind; [by apply keeps_VerifyCallbackState|intros _]. apply Hbind; [apply keeps_Exchange|intros [[idToken email] dn]].
    apply Hbind; [apply keeps_attempted, keeps_statement; [exact Hm|intros ?; by apply keeps_read_only]|intros [existing|e]].
    { case_bool_decide; [apply Hfail|apply Hissue]. }
    destruct (negb _); [apply Hfail|].
    apply Hbind; [apply keeps_attempted, keeps_statement; [exact Hm|intros ?; by apply keeps_read_only]|intros [user|e0]; [|apply Hfail]].
    case_bool_decide; [apply Hfail|]. destruct (_ && _); [apply Hfail|]. cbv zeta.
    apply (triple_bind _ _ _ (fun _ => holds (on_users U))); [|intros u; apply issue_users].
    intros w' Hw'. unfold holds in Hw'. set (params := mkUpdateUser _ _ _ _ _ _).
    assert (U (users (data (UpdateUser E params w').2))) as Hs.
    { unfold U. rewrite Hw' in Hok |- *. destruct (UpdateUser_alone params w' Hok) as [->|(r & r' & Hr & -> & R1 & R2 & R3 & R4 & R5 & R6 & R7 & R8)]; [by left|].
      right. eexists _, r, r'. split; [exact Hr|]. split; [|reflexivity]. eexists _, _. unfold scanUser. cbn in R1, R3. rewrite R1, R2, R3, R5, R6. by rewrite R4. }
    by destruct (UpdateUser E params w') as [[u|e1] w2]. }
  specialize (Ht w eq_refl). by destruct (OIDCCallback E cfg code state signed w) as [[r|e] w'].
Qed.

End Guarded.

(** ** Witness: an administrator creates a user *)

#[local] Existing Instances plain_casing zero_argon2.
Definition new_user_call : auth_call := CreateUserCall (mkCreateInput "new@x" "New" "" "").
Definition created : answer auth_response * Server AuthTables := serve calm plain_config new_user_call (Some issued_token) logged_in.2.

Lemma created_changes : users (data created.2) <> users (data logged_in.2).
Proof. intros He. apply (f_equal size) in He. by vm_compute in He. Qed.
Lemma logged_in_tables : auth_ok (data logged_in.2).
Proof.
  destruct logged_in_ok as (es & Hl & _). unfold logged_in at 1.
  apply (step_auth_ok calm plain_config (fun n t Ht => Ht)). unfold bootstrapped.
  pose proof (step_auth_ok calm plain_config (fun n t Ht => Ht) (OpBootstrap " Root@X" "secret") no_tables (@empty_auth_ok _)) as Hb.
  cbn [auth_step] in Hb. rewrite bind_run, bootstrapped_ok in Hb. exact Hb.
Qed.

