(* ===== verification/Security.v ===== *)
(** * Security

    The handlers that every request of the API passes before a route is chosen: noStore and
    the chain of [Handler] (apps/api/internal/httpserver/server.go) and [ProtectRequests]
    (middleware/security.go), with [http.CrossOriginProtection] of net/http.  [url.Parse]
    and the routes behind the multiplexer are parameters; the deadline of fifteen seconds
    is left out. *)
From S2P Require Import Prelude GoStrings GoDuration JobRuns ErrState Passwords Users Auth Http.
Local Open Scope Z_scope.

(** ** Requests and answers with their headers *)

(** A body as a handler reads it: its bytes, and whether the reader ends without an error. *)
Record Body := mkBody { bdBytes : string; bdComplete : bool }.
Record Incoming := mkIncoming {
  inRequest : HttpRequest; inHost : string; inOrigin : string; inSecFetchSite : string; inBody : Body
}.
Record Response (A : Type) := mkResponse { rpHeaders : list (string * string); rpAnswer : answer A }.
Arguments mkResponse {A}. Arguments rpHeaders {A}. Arguments rpAnswer {A}.

(** [http.Handler]. *)
Definition Server (S A : Type) : Type := Incoming -> S -> Response A * S.

(** [w.Header().Set(name, value)], before the next handler answers. *)
Definition with_header {S A} (name value : string) (next : Server S A) : Server S A := fun r s =>
  let '(resp, s') := next r s in (mkResponse ((name, value) :: rpHeaders resp) (rpAnswer resp), s').

(** [http.Error]. *)
Definition http_error {S A} (status : Z) (message : string) : Server S A := fun _ s =>
  (mkResponse [("Content-Type", "text/plain; charset=utf-8"); ("X-Content-Type-Options", "nosniff")] (Err (mkProblem status message)), s).

(** A handler that sets no headers of its own. *)
Definition serve {S A} (next : Incoming -> Http.handler S A) : Server S A := fun r s =>
  let '(a, s') := next r s in (mkResponse [] a, s').

(** [http.MaxBytesReader]. *)
Definition MaxBytesReader (n : Z) (b : Body) : Body :=
  if Z.of_nat (String.length (bdBytes b)) <=? n then b else mkBody (substring 0 (Z.to_nat n) (bdBytes b)) false.

(** ** The protection of net/http *)

Record URL := mkURL { uScheme : string; uHost : string; uPath : string; uRawQuery : string; uFragment : string }.

Section Protection.
Context (parse_url : string -> option URL).

Definition AddTrustedOrigin (origin : string) (trusted : list string) : result string (list string) :=
  match parse_url origin with
  | None => Err "invalid origin"
  | Some u =>
      if String.eqb (uScheme u) "" then Err "invalid origin: scheme is required"
      else if String.eqb (uHost u) "" then Err "invalid origin: host is required"
      else if negb (String.eqb (uPath u) "" && String.eqb (uRawQuery u) "" && String.eqb (uFragment u) "")
      then Err "invalid origin: path, query, and fragment are not allowed"
      else Ok (origin :: trusted)
  end.

Definition safe_method (method : string) : bool := existsb (String.eqb method) ["GET"; "HEAD"; "OPTIONS"].
Definition exempt (trusted : list string) (r : Incoming) : bool :=
  negb (String.eqb (inOrigin r) "") && existsb (String.eqb (inOrigin r)) trusted.
Definition same_host (r : Incoming) : bool :=
  match parse_url (inOrigin r) with Some u => String.eqb (uHost u) (inHost r) | None => false end.

(** [CrossOriginProtection.Check]: the error, if any. *)
Definition check_origin (trusted : list string) (r : Incoming) : option string :=
  if safe_method (rqMethod (inRequest r)) then None
  else if String.eqb (inSecFetchSite r) "" then
    if String.eqb (inOrigin r) "" then None
    else if same_host r then None
    else if exempt trusted r then None
    else Some "cross-origin request detected, and/or browser is out of date: Sec-Fetch-Site is missing, and Origin does not match Host"
  else if String.eqb (inSecFetchSite r) "same-origin" || String.eqb (inSecFetchSite r) "none" then None
  else if exempt trusted r then None
  else Some "cross-origin request detected from Sec-Fetch-Site header".

Definition protection {S A} (trusted : list string) (next : Server S A) : Server S A := fun r =>
  match check_origin trusted r with
  | Some message => http_error 403 message r
  | None => next r
  end.

(** ** middleware/security.go and server.go *)

Definition limit_body {S A} (next : Server S A) : Server S A := fun r =>
  next (mkIncoming (inRequest r) (inHost r) (inOrigin r) (inSecFetchSite r) (MaxBytesReader (Z.shiftl 1 20) (inBody r))).

Definition ProtectRequests {S A} (next : Server S A) (webOrigin : string) : Server S A :=
  let protected trusted := protection trusted
    (with_header "X-Content-Type-Options" "nosniff" (with_header "Referrer-Policy" "same-origin" (limit_body next))) in
  if String.eqb webOrigin "" then protected []
  else match AddTrustedOrigin webOrigin [] with
    | Err _ => http_error 503 "Invalid web origin configuration"
    | Ok trusted => protected trusted
    end.

Definition noStoreMiddleware {S A} (next : Server S A) : Server S A := with_header "Cache-Control" "no-store" next.

(** [mux] is the multiplexer with the routes: it is given the request and the principal
    of its context. *)
Definition Handler {S A} (resolve : option (string -> M S Principal)) (mux : Incoming -> option Principal -> Http.handler S A)
  (webOrigin : string) : Server S A :=
  noStoreMiddleware (ProtectRequests (serve (fun r => AuthMiddleware resolve (mux r) (inRequest r))) webOrigin).

(** [New]: times are in nanoseconds. *)
Record HttpServer (S A : Type) := mkHttpServer {
  srvAddr : string; srvHandler : Server S A; ReadHeaderTimeout : Z; ReadTimeout : Z; WriteTimeout : Z; IdleTimeout : Z
}.
Definition New {S A} (addr : string) (resolve : option (string -> M S Principal)) (mux : Incoming -> option Principal -> Http.handler S A)
  (webOrigin : string) : HttpServer S A :=
  mkHttpServer S A addr (Handler resolve mux webOrigin) (5 * Second) (15 * Second) (30 * Second) (60 * Second).

(** ** What passes *)

(** A page of [origin] makes the browser send [r]: it names the page as the origin, and
    browsers of today how it stands to the host. *)
Definition sent_from (origin : string) (r : Incoming) : Prop :=
  inOrigin r = origin /\ In (inSecFetchSite r) [""; "cross-site"; "same-site"].
Definition of_host (host origin : string) : bool :=
  match parse_url origin with Some u => String.eqb (uHost u) host | None => false end.

Lemma trusted_list webOrigin trusted : AddTrustedOrigin webOrigin [] = Ok trusted -> trusted = [webOrigin].
Proof. unfold AddTrustedOrigin. destruct (parse_url webOrigin) as [u|]; [|done]. by repeat (case_match; try done); intros [= <-]. Qed.

Lemma check_foreign trusted origin r : sent_from origin r -> origin <> "" -> of_host (inHost r) origin = false -> origin ∉ trusted ->
  safe_method (rqMethod (inRequest r)) = false -> exists message, check_origin trusted r = Some message.
Proof.
  intros [Ho Hs] Hne Hh Hn Hm. assert (exempt trusted r = false) as He.
  { unfold exempt. apply andb_false_iff. right. apply existsb_false_elem. intros o Hin. apply String.eqb_neq. intros <-. congruence. }
  assert (same_host r = false) as Hsame by (unfold same_host; rewrite Ho; exact Hh).
  unfold check_origin. rewrite Hm, He, Hsame, Ho. apply String.eqb_neq in Hne. rewrite Hne.
  destruct Hs as [<-|[<-|[<-|[]]]]; cbn; by eexists.
Qed.

Lemma check_own trusted origin r : inOrigin r = origin -> origin ∈ trusted -> origin <> "" -> check_origin trusted r = None.
Proof.
  intros Ho Hin Hne. assert (exempt trusted r = true) as He.
  { unfold exempt. rewrite Ho. apply andb_true_iff. split; [by apply negb_true_iff, String.eqb_neq|].
    apply existsb_exists. exists origin. split; [by apply list_elem_of_In|apply String.eqb_refl]. }
  unfold check_origin. rewrite He. by repeat case_match.
Qed.

(** Nothing but a safe method needs no administrator, but for the searches and one's own password. *)
Lemma admin_unsafe method path : requiresAdmin method path = true -> safe_method method = false.
Proof.
  unfold requiresAdmin, safe_method. cbn [existsb].
  destruct (String.eqb method "GET"), (String.eqb method "HEAD"), (String.eqb method "OPTIONS"); cbn; congruence.
Qed.

Lemma limit_body_short {S A} (next : Server S A) r s : Z.of_nat (String.length (bdBytes (inBody r))) <= Z.shiftl 1 20 -> limit_body next r s = next r s.
Proof. intros H. unfold limit_body, MaxBytesReader. apply Z.leb_le in H. rewrite H. by destruct r. Qed.
End Protection.

(** ** Requests of other sites *)

(** With a web origin that the protection accepts, a page of another host cannot make a
    browser change anything: whatever method is not a read is answered 403 before the session
    is looked up, so the state stays as it is, and with it every call that takes an
    administrator; a page of the web application reaches the authentication as if there were
    no protection; and every answer forbids caches to store it. *)
Theorem cross_site_powerless parse_url {S A} (resolve : option (string -> M S Principal)) (mux : Incoming -> option Principal -> Http.handler S A)
  webOrigin r s :
  is_ok (AddTrustedOrigin parse_url webOrigin []) = true -> webOrigin <> "" -> Z.of_nat (String.length (bdBytes (inBody r))) <= Z.shiftl 1 20 ->
  let answered := Handler parse_url resolve mux webOrigin r s in
  In ("Cache-Control", "no-store") (rpHeaders answered.1) /\
  (forall origin, sent_from origin r -> origin <> "" -> origin <> webOrigin -> of_host parse_url (inHost r) origin = false ->
     safe_method (rqMethod (inRequest r)) = false \/ requiresAdmin (rqMethod (inRequest r)) (rqPath (inRequest r)) = true ->
     (exists message, rpAnswer answered.1 = Err (mkProblem 403 message)) /\ answered.2 = s) /\
  (inOrigin r = webOrigin ->
     rpAnswer answered.1 = (AuthMiddleware resolve (mux r) (inRequest r) s).1 /\ answered.2 = (AuthMiddleware resolve (mux r) (inRequest r) s).2).
Proof.
  intros Hok Hne Hbody. destruct (AddTrustedOrigin parse_url webOrigin []) as [trusted|] eqn:Ht; [|done].
  apply (trusted_list parse_url) in Ht as Heq. subst trusted.
  unfold Handler, noStoreMiddleware, ProtectRequests. apply String.eqb_neq in Hne as Hne'. rewrite Hne', Ht. cbv zeta.
  split; [unfold with_header at 1; case_match; left; reflexivity|]. split.
  - intros origin Hfrom Ho Hw Hh Hm.
    assert (safe_method (rqMethod (inRequest r)) = false) as Hunsafe by (destruct Hm as [Hm|Hm]; [done|by eapply admin_unsafe]).
    destruct (check_foreign parse_url [webOrigin] origin r) as [message Hc]; [done|done|done|set_solver|done|].
    unfold with_header, protection. rewrite Hc. cbn. split; [by eexists|done].
  - intros Ho. unfold with_header, protection.
    rewrite (check_own parse_url [webOrigin] webOrigin r Ho ltac:(by left) Hne).
    rewrite limit_body_short by exact Hbody. unfold serve. by destruct (AuthMiddleware _ _ _ _) as [a s'].
Qed.

Lemma length_prefix n s : (n <= String.length s)%nat -> String.length (substring 0 n s) = n.
Proof. revert n. induction s as [|a s IH]; intros [|n] Hn; cbn in *; [done|lia|done|f_equal; apply IH; lia]. Qed.

(** A body of more than a mebibyte is cut, and reading it fails. *)
Lemma body_bounded n b : 0 <= n -> n < Z.of_nat (String.length (bdBytes b)) ->
  Z.of_nat (String.length (bdBytes (MaxBytesReader n b))) = n /\ bdComplete (MaxBytesReader n b) = false.
Proof.
  intros Hn Hb. unfold MaxBytesReader. destruct (Z.leb_spec (Z.of_nat (String.length (bdBytes b))) n); [lia|]. cbn [bdBytes bdComplete].
  rewrite length_prefix by lia. split; [lia|done].
Qed.

(** An origin that the protection refuses, such as one that ends in a slash, answers every
    request with 503, reads included. *)
Lemma refused_origin parse_url {S A} (resolve : option (string -> M S Principal)) (mux : Incoming -> option Principal -> Http.handler S A) webOrigin r s :
  is_ok (AddTrustedOrigin parse_url webOrigin []) = false -> webOrigin <> "" ->
  rpAnswer (Handler parse_url resolve mux webOrigin r s).1 = Err (mkProblem 503 "Invalid web origin configuration") /\
  (Handler parse_url resolve mux webOrigin r s).2 = s.
Proof.
  intros Hok Hne. apply String.eqb_neq in Hne. unfold Handler, noStoreMiddleware, ProtectRequests, with_header. rewrite Hne.
  by destruct (AddTrustedOrigin parse_url webOrigin []).
Qed.

(** ** A request of an attacker's page *)

Definition demo_parse_url (origin : string) : option URL :=
  if String.eqb origin "http://localhost:5173" then Some (mkURL "http" "localhost:5173" "" "" "")
  else if String.eqb origin "http://localhost:5173/" then Some (mkURL "http" "localhost:5173" "/" "" "")
  else if String.eqb origin "https://attacker.example" then Some (mkURL "https" "attacker.example" "" "" "")
  else None.
Definition demo_principal : Principal := mkPrincipal "u1" "a@example.com" RoleAdmin.
Definition demo_resolve : option (string -> M nat Principal) := Some (fun _ s => (Ok demo_principal, s)).
Definition demo_mux (r : Incoming) (context : option Principal) : Http.handler nat nat := fun s => (Ok s, Datatypes.S s).
Definition demo_attack : Incoming :=
  mkIncoming (mkHttpRequest "DELETE" "/api/buckets/b1" (Some "token")) "localhost:8080" "https://attacker.example" "cross-site" (mkBody "" true).

Lemma cross_site_powerless_witness :
  (exists message, rpAnswer (Handler demo_parse_url demo_resolve demo_mux "http://localhost:5173" demo_attack 7%nat).1 = Err (mkProblem 403 message)) /\
  (Handler demo_parse_url demo_resolve demo_mux "http://localhost:5173" demo_attack 7%nat).2 = 7%nat.
Proof.
  apply (cross_site_powerless demo_parse_url demo_resolve demo_mux "http://localhost:5173" demo_attack 7%nat) with (origin := "https://attacker.example");
    [reflexivity|discriminate|apply Z.leb_le; reflexivity|split; [reflexivity|cbn; tauto]|discriminate|discriminate|reflexivity|left; reflexivity].
Defined.

Example slash_refused : is_ok (AddTrustedOrigin demo_parse_url "http://localhost:5173/" []) = false.
Proof. reflexivity. Qed.
