(* ===== verification/Startup.v ===== *)
(** * Startup

    What both processes do to the tables when they start (run of apps/worker/main.go and of
    apps/api/main.go, after the migrations): they seed the attribute catalog, the captured
    fields and the settings; the worker then registers its handlers and runs the supervisor
    (WorkerRun.v), the API ensures its administrator (AuthLogin.v) and serves requests: both
    [run] are put together at the end of the file.
    Seeding runs at every start of every process, on tables that users have changed since:
    it succeeds again and changes nothing that they set, also when processes start at the
    same time. *)
From S2P Require Import Prelude GoStrings GoFloat GoTime Ast SearchDefs JobPayload JobRuns JobTrace Runner ErrState Request.
From S2P Require Import Passwords Settings Managed Catalog AttributeCatalog Capture Users Auth AuthProofs Secrets Config AuthLogin.
Local Open Scope Z_scope.

(** The tables that are seeded. *)
Record Database := mkDatabase { dbCatalog : Catalog; dbSettings : settings }.

Definition in_catalog {A} (m : M Catalog A) : M Database A := fun d =>
  let '(r, c) := m (dbCatalog d) in (r, mkDatabase c (dbSettings d)).
Definition in_settings {A} (m : M settings A) : M Database A := fun d =>
  let '(r, t) := m (dbSettings d) in (r, mkDatabase (dbCatalog d) t).

Definition SeedAttributeCatalog (now : Z) : M Catalog unit :=
  _ ← SeedBuiltin now BuiltinAttributeDefinitions;
  SeedRegistered now RegisteredAttributeDefinitions.

(** The common part of both [run] functions. *)
Definition seed_tables (now : Z) : M Database unit :=
  _ ← in_catalog (SeedAttributeCatalog now);
  _ ← in_catalog (SeedUpstreamCaptureFields now);
  in_settings (SeedSettings now).

(** The handlers that a worker registers. *)
Definition worker_registry (sync scan importing refresh remove duplicates : handler) : result registry_error Registry :=
  NewRegistry [Some (JobTypeSyncBucket, sync); Some (JobTypeScanBucket, scan); Some (JobTypeImportObjects, importing);
    Some (JobTypeRefreshObjects, refresh); Some (JobTypeRemoveObjects, remove); Some (JobTypeDetectDuplicates, duplicates)].

(** The error with which the worker exits, from that of the supervisor. *)
Definition exit_error (err : option loop_error) : option loop_error :=
  match err with Some Canceled => None | err => err end.

(** ** The registry *)

Lemma worker_registry_types sync scan importing refresh remove duplicates : exists r,
  worker_registry sync scan importing refresh remove duplicates = Ok r /\
  Types r = ["detect_duplicates"; "import_objects"; "refresh_objects"; "remove_objects"; "scan_bucket"; "sync_bucket"] /\
  Get r JobTypeSyncBucket = Some sync /\ Get r JobTypeScanBucket = Some scan /\ Get r JobTypeImportObjects = Some importing /\
  Get r JobTypeRefreshObjects = Some refresh /\ Get r JobTypeRemoveObjects = Some remove /\ Get r JobTypeDetectDuplicates = Some duplicates.
Proof.
  exists (<[JobTypeDetectDuplicates := duplicates]> (<[JobTypeRemoveObjects := remove]> (<[JobTypeRefreshObjects := refresh]>
    (<[JobTypeImportObjects := importing]> (<[JobTypeScanBucket := scan]> {[JobTypeSyncBucket := sync]}))))).
  split; [reflexivity|]. split; [reflexivity|]. split_and!; reflexivity.
Qed.

(** ** The attribute catalog *)

(** Rows stay, those that were observed unchanged; of the seeded ones the type and the source
    may change, with the version of the program. *)
Definition rows_kept (c c' : Catalog) : Prop := forall path r, attribute_catalog c !! path = Some r ->
  exists r', attribute_catalog c' !! path = Some r' /\ crfirst_seen_at r' = crfirst_seen_at r /\ (seeded (crsource r) = false -> r' = r).

(** The other tables of the catalog. *)
Definition rest_kept (c c' : Catalog) : Prop :=
  buckets c' = buckets c /\ objects c' = objects c /\ relations c' = relations c /\ upstream_events c' = upstream_events c.

Lemma rows_kept_refl c : rows_kept c c.
Proof. intros path r Hr. by exists r. Qed.
Lemma rows_kept_trans c1 c2 c3 : rows_kept c1 c2 -> rows_kept c2 c3 -> rows_kept c1 c3.
Proof.
  intros H1 H2 path r Hr. destruct (H1 path r Hr) as (r2 & Hr2 & Hf & Hs). destruct (H2 path r2 Hr2) as (r3 & Hr3 & Hf' & Hs').
  exists r3. split; [done|]. split; [congruence|]. intros Ho. specialize (Hs Ho). subst r2. by apply Hs'.
Qed.

Lemma seed_rows_restart now source rows : seeded source = true ->
  Forall (fun e => catalog_row_ok (mkCatalogRow e.1 e.2 source now now) = true) rows -> NoDup rows.*1 -> forall done c,
  (forall path, path ∈ done -> path ∉ rows.*1) ->
  exists c', seed_rows now source done rows c = (Ok tt, c') /\ rows_kept c c' /\ rest_kept c c' /\ capture_fields c' = capture_fields c /\
    forall path, path ∈ rows.*1 -> is_Some (attribute_catalog c' !! path).
Proof.
  intros Hsrc Hok. induction Hok as [|[path dbType] rows Hrow _ IH]; intros Hnd done c Hdone; cbn [seed_rows].
  { exists c. split; [done|]. split; [apply rows_kept_refl|]. split_and!; try done. intros path Hin. by apply not_elem_of_nil in Hin. }
  cbn in Hnd. apply list.NoDup_cons in Hnd as [Hnin Hnd]. cbn [fst snd] in Hrow. rewrite Hrow. cbn [negb].
  assert (forall c1 done', rows_kept c c1 -> rest_kept c c1 -> capture_fields c1 = capture_fields c -> is_Some (attribute_catalog c1 !! path) ->
    (forall p, p ∈ done' -> p = path \/ p ∈ done) -> exists c', seed_rows now source done' rows c1 = (Ok tt, c') /\ rows_kept c c' /\ rest_kept c c' /\
      capture_fields c' = capture_fields c /\ forall p, p ∈ path :: rows.*1 -> is_Some (attribute_catalog c' !! p)) as Hnext.
  { intros c1 done' Hk (R1 & R2 & R3 & R4) Hc [r1 Hr1] Hd'. destruct (IH Hnd done' c1) as (c' & -> & Hk' & (S1 & S2 & S3 & S4) & Hc' & Hin).
    - intros p Hp. destruct (Hd' p Hp) as [->|Hp']; [done|]. specialize (Hdone p Hp'). set_solver.
    - exists c'. split; [done|]. split; [by eapply rows_kept_trans|]. split; [split_and!; congruence|]. split; [congruence|].
      intros p [->|Hp]%elem_of_cons; [|by apply Hin]. destruct (Hk' path r1 Hr1) as (r' & Hr' & _). by eexists. }
  assert (forall r', crfirst_seen_at r' = from_option crfirst_seen_at (crfirst_seen_at r') (attribute_catalog c !! path) ->
    (forall r, attribute_catalog c !! path = Some r -> seeded (crsource r) = true) ->
    rows_kept c (set_attribute_catalog (<[path := r']> (attribute_catalog c)) c)) as Hins.
  { intros r' Hf Hs p r Hr. cbn [attribute_catalog set_attribute_catalog]. destruct (decide (path = p)) as [<-|Hne].
    - exists r'. rewrite lookup_insert_eq. rewrite Hr in Hf. split_and!; [done|done|]. intros Ho. rewrite (Hs r Hr) in Ho. done.
    - exists r. by rewrite lookup_insert_ne. }
  destruct (attribute_catalog c !! path) as [old|] eqn:Hold.
  - rewrite bool_decide_false by (intros Hp; apply (Hdone path Hp); left).
    destruct (seeded (crsource old)) eqn:Hseeded; cbn [andb]; [rewrite Hsrc|].
    + apply Hnext; [apply Hins; [done|by intros r [= <-]]|by split_and!|done|cbn; by rewrite lookup_insert_eq; eauto|set_solver].
    + apply Hnext; [apply rows_kept_refl|by split_and!|done|by eexists|set_solver].
  - apply Hnext; [apply Hins; done|by split_and!|done|cbn; by rewrite lookup_insert_eq; eauto|set_solver].
Qed.

Lemma seedDefinitions_restart now entries source rows c : entries <> [] -> encodeCatalogSeedRows entries source = Ok rows -> seeded source = true ->
  Forall (fun e => catalog_row_ok (mkCatalogRow e.1 e.2 source now now) = true) rows -> NoDup rows.*1 ->
  exists c', seedDefinitions now entries source c = (Ok tt, c') /\ rows_kept c c' /\ rest_kept c c' /\ capture_fields c' = capture_fields c /\
    forall path, path ∈ rows.*1 -> is_Some (attribute_catalog c' !! path).
Proof.
  intros Hne Hrows Hsrc Hok Hnd. unfold seedDefinitions. destruct entries as [|e entries]; [done|]. rewrite Hrows.
  destruct (seed_rows_restart now source rows Hsrc Hok Hnd [] c) as (c' & Hs & H); [intros path Hp; by apply not_elem_of_nil in Hp|].
  exists c'. split; [|exact H]. unfold mbind, M_bind, of_result, WithTx. by rewrite Hs.
Qed.

(** The attributes that the program declares are there. *)
Definition declared (c : Catalog) : Prop :=
  forall d, d ∈ BuiltinAttributeDefinitions ++ RegisteredAttributeDefinitions -> is_Some (attribute_catalog c !! aPath d).

Lemma builtin_restart now c : exists c', SeedBuiltin now BuiltinAttributeDefinitions c = (Ok tt, c') /\ rows_kept c c' /\ rest_kept c c' /\
  capture_fields c' = capture_fields c /\ forall d, d ∈ BuiltinAttributeDefinitions -> is_Some (attribute_catalog c' !! aPath d).
Proof.
  destruct (seedDefinitions_restart now BuiltinAttributeDefinitions CatalogSourceBuiltin
    [("upstream.size", "integer"); ("upstream.last_modified", "timestamp"); ("upstream.header.content_type", "string"); ("upstream.s3.version_id", "string");
     ("core.first_seen_at", "timestamp"); ("core.last_seen_at", "timestamp"); ("core.object_id", "string")] c)
    as (c' & E & K & R & C & D); [done|reflexivity|reflexivity|repeat constructor|apply (bool_decide_unpack _); vm_compute; exact I|].
  exists c'. split_and!; try done; try apply R. intros d Hd. apply D. apply (list_elem_of_fmap_2 aPath) in Hd. exact Hd.
Qed.

Lemma registered_restart now c : exists c', SeedRegistered now RegisteredAttributeDefinitions c = (Ok tt, c') /\ rows_kept c c' /\ rest_kept c c' /\
  capture_fields c' = capture_fields c /\ forall d, d ∈ RegisteredAttributeDefinitions -> is_Some (attribute_catalog c' !! aPath d).
Proof.
  destruct (seedDefinitions_restart now RegisteredAttributeDefinitions CatalogSourceRegistered [("extracted.content_sha256", "string")] c)
    as (c' & E & K & R & C & D); [done|reflexivity|reflexivity|repeat constructor|apply (bool_decide_unpack _); vm_compute; exact I|].
  exists c'. split_and!; try done; try apply R. intros d Hd. apply D. apply (list_elem_of_fmap_2 aPath) in Hd. exact Hd.
Qed.

(** ** The captured fields *)

(** A field keeps all but the time of its last write, and that too when it is a user's. *)
Definition same_field (f f' : UpstreamCaptureField) : Prop :=
  f' = f \/ (cfOrigin f = CaptureFieldOriginPlatform /\ exists now, f' = set_enabled now (cfEnabled f) f).
Definition fields_kept (c c' : Catalog) : Prop := forall id f, capture_fields c !! id = Some f ->
  exists f', capture_fields c' !! id = Some f' /\ same_field f f'.

Lemma fields_kept_refl c : fields_kept c c.
Proof. intros id f Hf. exists f. split; [done|by left]. Qed.
Lemma fields_kept_trans c1 c2 c3 : fields_kept c1 c2 -> fields_kept c2 c3 -> fields_kept c1 c3.
Proof.
  intros H1 H2 id f Hf. destruct (H1 id f Hf) as (f2 & Hf2 & E). destruct (H2 id f2 Hf2) as (f3 & Hf3 & E'). exists f3. split; [done|].
  destruct E as [->|[Ho [now ->]]]; [done|]. destruct E' as [->|[_ [now' ->]]]; right; (split; [done|]); [by exists now|by exists now'].
Qed.

Lemma platform_field_kept seed f f' : same_field f f' -> platform_field seed f -> platform_field seed f'.
Proof. intros [->|[_ [now ->]]] H; exact H. Qed.

(** Tables on which the platform fields are there as they are declared, or can be written:
    those of a database that was just migrated, of one that was seeded, and of all between. *)
Definition seedable (c : Catalog) (seed : UpstreamCaptureFieldSeed) : Prop :=
  (exists f, capture_fields c !! sdID seed = Some f /\ platform_field seed f) \/
  (capture_fields c !! sdID seed = None /\ forall g, g ∈ table_rows (capture_fields c) -> same_capture (seeded_field 0 seed None) g = false).
Definition seeding_ok (c : Catalog) : Prop := captures_ok c /\ forall seed, seed ∈ PlatformUpstreamCaptureFields -> seedable c seed.

Lemma seeding_ok_seeded c : capture_invariant c -> seeding_ok c.
Proof. intros [Hok Hp]. split; [done|]. intros seed Hs. left. by apply Hp. Qed.
Lemma seeding_ok_empty c : capture_fields c = ∅ -> seeding_ok c.
Proof.
  intros E. destruct empty_captures_ok as [H1 H2 H3 H4]. split; [split; unfold capture_keyed, capture_distinct; by rewrite E|].
  intros seed _. right. rewrite E. split; [apply lookup_empty|]. intros g (id & Hg)%elem_of_table_rows. by rewrite lookup_empty in Hg.
Qed.
Lemma seeding_ok_fields c c' : capture_fields c' = capture_fields c -> seeding_ok c -> seeding_ok c'.
Proof.
  intros E [[H1 H2 H3 H4] Hs]. split; [split; unfold capture_keyed, capture_distinct; by rewrite E|]. intros seed Hin. unfold seedable. rewrite E. by apply Hs.
Qed.

(** The platform fields do not stand in each other's way, and pass the checks of the table. *)
Lemma platform_apart seed seed' : seed ∈ PlatformUpstreamCaptureFields -> seed' ∈ PlatformUpstreamCaptureFields -> sdID seed <> sdID seed' ->
  same_capture (seeded_field 0 seed None) (seeded_field 0 seed' None) = false.
Proof.
  intros H1 H2 Hne.
  pose proof (forallb_elem (fun a => forallb (fun b => String.eqb (sdID a) (sdID b) || negb (same_capture (seeded_field 0 a None) (seeded_field 0 b None)))
    PlatformUpstreamCaptureFields) PlatformUpstreamCaptureFields seed ltac:(vm_compute; reflexivity) H1) as H.
  pose proof (forallb_elem _ _ seed' H H2) as Hb. cbn beta in Hb. apply String.eqb_neq in Hne. rewrite Hne in Hb. by apply negb_true_iff.
Qed.
Lemma platform_rows_ok now seed : seed ∈ PlatformUpstreamCaptureFields -> capture_row_ok (seeded_field now seed None) = true.
Proof. exact (forallb_elem (fun s => capture_row_ok (seeded_field 0 s None)) PlatformUpstreamCaptureFields seed ltac:(vm_compute; reflexivity)). Qed.

Lemma seeded_field_present now seed f : cfID f = sdID seed -> platform_field seed f -> seeded_field now seed (Some f) = set_enabled now (cfEnabled f) f.
Proof.
  intros Hid (Ho & Hcat & Hpath & Hsrc & Hty & Href & Hval & _). unfold seeded_field, set_enabled. by rewrite <- Hid, Ho, Hcat, Hpath, Hsrc, Hty, Href, Hval.
Qed.

(** What a seed writes: its field, that nothing is in the way of. *)
Lemma seeded_field_ok now seed c : seed ∈ PlatformUpstreamCaptureFields -> seeding_ok c ->
  let f := seeded_field now seed (capture_fields c !! sdID seed) in
  platform_field seed f /\ capture_row_ok f = true /\ capture_taken f (capture_fields c) = false /\
  (forall old, capture_fields c !! sdID seed = Some old -> cfOrigin old = CaptureFieldOriginPlatform /\ f = set_enabled now (cfEnabled old) old).
Proof.
  intros Hs [Hok Hseedable]. cbv zeta. destruct (Hseedable seed Hs) as [(f & Hf & Hp)|[Hf Hfree]]; rewrite Hf.
  - rewrite (seeded_field_present now seed f (co_keyed _ Hok _ _ Hf) Hp). split; [exact Hp|]. split; [exact (co_checks _ Hok _ _ Hf)|].
    split; [|intros old [= <-]; split; [apply Hp|done]].
    apply existsb_false_elem. intros g Hg. apply andb_false_iff. destruct (same_capture (set_enabled now (cfEnabled f) f) g) eqn:E; [left|by right].
    apply negb_false_iff, String.eqb_eq. symmetry. apply (co_distinct _ Hok f g); [apply elem_of_table_rows; by eexists|done|exact E].
  - split; [repeat split; intros _; by apply platform_enabled|]. split; [by apply platform_rows_ok|]. split; [|done].
    apply existsb_false_elem. intros g Hg. apply andb_false_iff. right. exact (Hfree g Hg).
Qed.

Lemma seed_field_restart now seed c : seed ∈ PlatformUpstreamCaptureFields -> seeding_ok c ->
  exists c', seed_field now seed c = (Ok tt, c') /\ fields_kept c c' /\ rest_kept c c' /\ attribute_catalog c' = attribute_catalog c /\ seeding_ok c' /\
    exists f, capture_fields c' !! sdID seed = Some f /\ platform_field seed f.
Proof.
  intros Hs HI. destruct (seeded_field_ok now seed c Hs HI) as (Hp & Hrow & Hnt & Hold). destruct HI as [Hok Hseedable].
  set (f := seeded_field now seed (capture_fields c !! sdID seed)) in *.
  exists (set_capture_fields (<[sdID seed := f]> (capture_fields c)) c). split.
  { unfold seed_field, write_capture. fold f. rewrite Hrow, Hnt. destruct (capture_fields c !! sdID seed) as [old|] eqn:E; [|done].
    rewrite bool_decide_true by (by apply Hold). done. }
  split.
  { intros id g Hg. cbn [capture_fields set_capture_fields]. destruct (decide (sdID seed = id)) as [<-|Hne].
    - rewrite lookup_insert_eq. exists f. split; [done|]. right. destruct (Hold g Hg) as [Ho ->]. split; [done|]. by eexists.
    - exists g. rewrite lookup_insert_ne by done. split; [done|by left]. }
  split; [by split_and!|]. split; [done|]. split.
  - split; [apply (captures_ok_insert f c Hok Hrow Hnt); intros Ho; discriminate Ho|].
    intros s Hin. unfold seedable. cbn [capture_fields set_capture_fields]. destruct (decide (sdID seed = sdID s)) as [E|Hne].
    + left. exists f. rewrite <- E, lookup_insert_eq. split; [done|]. by rewrite (seed_of_same_id s seed Hin Hs (eq_sym E)).
    + rewrite lookup_insert_ne by done. destruct (Hseedable s Hin) as [H|[Hn Hfree]]; [by left|]. right. split; [done|].
      intros g (id & [[_ <-]|[_ Hg]]%lookup_insert_Some)%elem_of_table_rows; [|apply Hfree, elem_of_table_rows; by eexists].
      exact (platform_apart s seed Hin Hs (not_eq_sym Hne)).
  - exists f. cbn [capture_fields set_capture_fields]. by rewrite lookup_insert_eq.
Qed.

(** ** The settings *)

Definition settings_kept (t t' : settings) : Prop := forall key s, t !! key = Some s -> t' !! key = Some s.

Lemma seed_setting_restart now definition t :
  setting_row_ok (mkSetting (dKey definition) (dDefault definition) (dEncrypted definition) now None) = true ->
  exists t', seed_setting now definition t = (Ok tt, t') /\ settings_kept t t' /\ is_Some (t' !! dKey definition).
Proof.
  intros Hd. unfold seed_setting. cbv zeta. rewrite Hd. destruct (t !! dKey definition) as [s|] eqn:Hs; eexists; (split; [reflexivity|]); split.
  - by intros key s'.
  - by eexists.
  - intros key s' Hs'. rewrite lookup_insert_ne; [done|]. intros <-. congruence.
  - rewrite lookup_insert_eq. by eexists.
Qed.

Lemma definitions_ok now definition : definition ∈ SettingDefinitions ->
  setting_row_ok (mkSetting (dKey definition) (dDefault definition) (dEncrypted definition) now None) = true.
Proof.
  exact (forallb_elem (fun d => setting_row_ok (mkSetting (dKey d) (dDefault d) (dEncrypted d) 0 None)) SettingDefinitions definition
    ltac:(vm_compute; reflexivity)).
Qed.

(** ** The statements of a start, in any interleaving *)

(** Seeding is a sequence of statements, each of which the database runs by itself. *)
Inductive seed_statement :=
| StmtBuiltin | StmtRegistered
| StmtField (seed : UpstreamCaptureFieldSeed)
| StmtSetting (definition : SettingDefinition).
Definition run_statement (now : Z) (st : seed_statement) : M Database unit :=
  match st with
  | StmtBuiltin => in_catalog (SeedBuiltin now BuiltinAttributeDefinitions)
  | StmtRegistered => in_catalog (SeedRegistered now RegisteredAttributeDefinitions)
  | StmtField seed => in_catalog (seed_field now seed)
  | StmtSetting definition => in_settings (seed_setting now definition)
  end.
Definition seed_program : list seed_statement :=
  StmtBuiltin :: StmtRegistered :: map StmtField PlatformUpstreamCaptureFields ++ map StmtSetting SettingDefinitions.

(** The statements that reach the database, with their times: those of one process, or of
    several that start at once, or of one that is killed before its end. *)
Definition run_seeding (schedule : list (Z * seed_statement)) : M Database unit :=
  for_each (fun e => run_statement e.1 e.2) schedule.

(** What seeding leaves alone. *)
Definition kept (d d' : Database) : Prop :=
  settings_kept (dbSettings d) (dbSettings d') /\ fields_kept (dbCatalog d) (dbCatalog d') /\ rows_kept (dbCatalog d) (dbCatalog d') /\
  rest_kept (dbCatalog d) (dbCatalog d').

Lemma kept_refl d : kept d d.
Proof. split; [by intros key s|]. split; [apply fields_kept_refl|]. split; [apply rows_kept_refl|by split_and!]. Qed.
Lemma kept_trans d1 d2 d3 : kept d1 d2 -> kept d2 d3 -> kept d1 d3.
Proof.
  intros (S1 & F1 & R1 & (A1 & B1 & C1 & D1)) (S2 & F2 & R2 & (A2 & B2 & C2 & D2)).
  split; [intros key s Hs; by apply S2, S1|]. split; [by eapply fields_kept_trans|]. split; [by eapply rows_kept_trans|split_and!; congruence].
Qed.
Lemma kept_catalog c c' t : fields_kept c c' -> rows_kept c c' -> rest_kept c c' -> kept (mkDatabase c t) (mkDatabase c' t).
Proof. intros F R S. split; [by intros key s|]. by split. Qed.

(** What a statement has brought about once it has run. *)
Definition brought (st : seed_statement) (d : Database) : Prop :=
  match st with
  | StmtBuiltin => forall a, a ∈ BuiltinAttributeDefinitions -> is_Some (attribute_catalog (dbCatalog d) !! aPath a)
  | StmtRegistered => forall a, a ∈ RegisteredAttributeDefinitions -> is_Some (attribute_catalog (dbCatalog d) !! aPath a)
  | StmtField seed => exists f, capture_fields (dbCatalog d) !! sdID seed = Some f /\ platform_field seed f
  | StmtSetting definition => is_Some (dbSettings d !! dKey definition)
  end.

Lemma brought_kept st d d' : kept d d' -> brought st d -> brought st d'.
Proof.
  assert (forall path, rows_kept (dbCatalog d) (dbCatalog d') -> is_Some (attribute_catalog (dbCatalog d) !! path) ->
    is_Some (attribute_catalog (dbCatalog d') !! path)) as Hrows.
  { intros path R [r Hr]. destruct (R path r Hr) as (r' & Hr' & _). by eexists. }
  intros (S & F & R & _). destruct st; cbn [brought].
  - intros H a Ha. by apply Hrows, H.
  - intros H a Ha. by apply Hrows, H.
  - intros (f & Hf & Hp). destruct (F _ _ Hf) as (f' & Hf' & Hsame). exists f'. split; [done|]. by eapply platform_field_kept.
  - intros [s Hs]. exists s. by apply S.
Qed.

Lemma statement_runs now st d : st ∈ seed_program -> seeding_ok (dbCatalog d) ->
  exists d', run_statement now st d = (Ok tt, d') /\ kept d d' /\ seeding_ok (dbCatalog d') /\ brought st d'.
Proof.
  intros Hst HI. destruct d as [c t]. cbn [dbCatalog] in HI.
  apply elem_of_cons in Hst as [->|Hst]; [|apply elem_of_cons in Hst as [->|[(seed & -> & Hs)%list_elem_of_fmap|(definition & -> & Hd)%list_elem_of_fmap]%elem_of_app]].
  - destruct (builtin_restart now c) as (c' & E & K & R & C & D). exists (mkDatabase c' t). cbn [run_statement]. unfold in_catalog. cbn [dbCatalog dbSettings].
    rewrite E. split; [done|]. split; [apply kept_catalog; [|done..]|by split; [eapply seeding_ok_fields|]]. intros id f Hf. exists f. rewrite C. split; [done|by left].
  - destruct (registered_restart now c) as (c' & E & K & R & C & D). exists (mkDatabase c' t). cbn [run_statement]. unfold in_catalog. cbn [dbCatalog dbSettings].
    rewrite E. split; [done|]. split; [apply kept_catalog; [|done..]|by split; [eapply seeding_ok_fields|]]. intros id f Hf. exists f. rewrite C. split; [done|by left].
  - destruct (seed_field_restart now seed c Hs HI) as (c' & E & F & R & A & HI' & Hp). exists (mkDatabase c' t). cbn [run_statement]. unfold in_catalog.
    cbn [dbCatalog dbSettings]. rewrite E. split; [done|]. split; [apply kept_catalog; [done| |done]|by split].
    intros path r Hr. exists r. by rewrite A.
  - destruct (seed_setting_restart now definition t (definitions_ok now definition Hd)) as (t' & E & K & D). exists (mkDatabase c t'). cbn [run_statement].
    unfold in_settings. cbn [dbCatalog dbSettings]. rewrite E. split; [done|]. split; [|by split].
    split; [done|]. split; [apply fields_kept_refl|]. split; [apply rows_kept_refl|by split_and!].
Qed.

Lemma seeding_runs schedule : Forall (fun e => e.2 ∈ seed_program) schedule -> forall d, seeding_ok (dbCatalog d) ->
  exists d', run_seeding schedule d = (Ok tt, d') /\ kept d d' /\ seeding_ok (dbCatalog d') /\ forall e, e ∈ schedule -> brought e.2 d'.
Proof.
  unfold run_seeding. induction 1 as [|[now st] schedule Hst _ IH]; intros d HI; cbn [for_each].
  { exists d. split; [done|]. split; [apply kept_refl|]. split; [done|]. by intros e ?%not_elem_of_nil. }
  destruct (statement_runs now st d Hst HI) as (d1 & E1 & K1 & HI1 & B1). destruct (IH d1 HI1) as (d2 & E2 & K2 & HI2 & B2).
  exists d2. split; [unfold mbind, M_bind; cbn [fst snd]; by rewrite E1|]. split; [by eapply kept_trans|]. split; [done|].
  intros e [->|He]%elem_of_cons; [|by apply B2]. by apply (brought_kept st d1).
Qed.

(** The tables are ready for the program: all that it declares is there. *)
Definition ready (d : Database) : Prop :=
  capture_invariant (dbCatalog d) /\ declared (dbCatalog d) /\ forall definition, definition ∈ SettingDefinitions -> is_Some (dbSettings d !! dKey definition).

Lemma all_brought d : captures_ok (dbCatalog d) -> (forall st, st ∈ seed_program -> brought st d) -> ready d.
Proof.
  intros Hok H. split; [|split].
  - split; [done|]. intros seed Hs. apply (H (StmtField seed)). unfold seed_program. rewrite !elem_of_cons, elem_of_app. right; right; left. by apply list_elem_of_fmap_2.
  - intros a [Ha|Ha]%elem_of_app; [by apply (H StmtBuiltin ltac:(left))|by apply (H StmtRegistered ltac:(right; left))].
  - intros definition Hd. apply (H (StmtSetting definition)). unfold seed_program. rewrite !elem_of_cons, elem_of_app. right; right; right. by apply list_elem_of_fmap_2.
Qed.

(** The program of one process is what [run] does. *)
Lemma for_each_app {S A} (f : A -> M S unit) xs ys s : for_each f (xs ++ ys) s = (_ ← for_each f xs; for_each f ys) s.
Proof.
  revert s. induction xs as [|x xs IH]; intros s; [done|]. cbn [app for_each]. unfold mbind, M_bind in *. cbn [app]. destruct (f x s) as [[u|e] s']; [|done].
  apply IH.
Qed.
Lemma in_catalog_each {A} (f : A -> M Catalog unit) xs d : in_catalog (for_each f xs) d = for_each (fun x => in_catalog (f x)) xs d.
Proof.
  revert d. induction xs as [|x xs IH]; intros [c t]; [done|]. cbn [for_each]. unfold mbind, M_bind. unfold in_catalog at 1 2. cbn [dbCatalog dbSettings].
  destruct (f x c) as [[u|e] c']; [|done]. exact (IH (mkDatabase c' t)).
Qed.
Lemma in_settings_each {A} (f : A -> M settings unit) xs d : in_settings (for_each f xs) d = for_each (fun x => in_settings (f x)) xs d.
Proof.
  revert d. induction xs as [|x xs IH]; intros [c t]; [done|]. cbn [for_each]. unfold mbind, M_bind. unfold in_settings at 1 2. cbn [dbCatalog dbSettings].
  destruct (f x t) as [[u|e] t']; [|done]. exact (IH (mkDatabase c t')).
Qed.
Lemma for_each_map {S A B} (g : B -> A) (f : A -> M S unit) xs s : for_each f (map g xs) s = for_each (fun x => f (g x)) xs s.
Proof. revert s. induction xs as [|x xs IH]; intros s; [done|]. cbn [map for_each]. unfold mbind, M_bind. by destruct (f (g x) s) as [[u|e] s']. Qed.

Lemma seed_tables_statements now d : seed_tables now d = run_seeding (map (pair now) seed_program) d.
Proof.
  unfold run_seeding, seed_program. rewrite for_each_map. cbn [for_each fst snd].
  unfold seed_tables, SeedAttributeCatalog, mbind, M_bind. destruct d as [c t]. unfold in_catalog at 1. cbn [dbCatalog dbSettings run_statement].
  unfold in_catalog at 2. cbn [dbCatalog dbSettings].
  destruct (SeedBuiltin now BuiltinAttributeDefinitions c) as [[u|e] c1]; [|done]. unfold in_catalog at 2. cbn [dbCatalog dbSettings].
  destruct (SeedRegistered now RegisteredAttributeDefinitions c1) as [[u2|e] c2]; [|done].
  rewrite for_each_app. unfold mbind, M_bind. rewrite for_each_map. cbn [run_statement].
  change (SeedUpstreamCaptureFields now) with (for_each (seed_field now) PlatformUpstreamCaptureFields). rewrite in_catalog_each.
  destruct (for_each _ _ (mkDatabase c2 t)) as [[u3|e] d3]; [|done]. rewrite for_each_map. cbn [run_statement].
  change (SeedSettings now) with (for_each (seed_setting now) SettingDefinitions). apply in_settings_each.
Qed.

Lemma seed_tables_ready now d : seeding_ok (dbCatalog d) -> exists d', seed_tables now d = (Ok tt, d') /\ kept d d' /\ ready d'.
Proof.
  intros HI. destruct (seeding_runs (map (pair now) seed_program)) with (d := d) as (d' & E & K & [Hok _] & B); [|done|].
  { apply list.Forall_forall. intros e (st & -> & Hst)%list_elem_of_fmap. exact Hst. }
  exists d'. rewrite seed_tables_statements. split; [done|]. split; [done|]. apply all_brought; [done|].
  intros st Hst. apply (B (now, st)). by apply list_elem_of_fmap_2.
Qed.

(** ** Starting and restarting *)

(** C32: whenever processes start, on the tables that the migrations have just made or on
    tables that have been seeded before and that users and jobs have changed since, one
    after the other, at the same time or killed on the way, none of their statements fails;
    every setting keeps its value, every captured field keeps what it captures and whether it
    is enabled, fields of users stay as they are, no attribute is lost and observed ones do
    not change, and nothing else is touched; and once every statement of the program has
    run, by whatever process, all that the program declares is there.  The start
    of one process is such a run. *)
Theorem restart_keeps schedule d :
  capture_invariant (dbCatalog d) \/ capture_fields (dbCatalog d) = ∅ ->
  Forall (fun e => e.2 ∈ seed_program) schedule ->
  (forall now, seed_tables now d = run_seeding (map (pair now) seed_program) d) /\
  exists d', run_seeding schedule d = (Ok tt, d') /\
    settings_kept (dbSettings d) (dbSettings d') /\ fields_kept (dbCatalog d) (dbCatalog d') /\ rows_kept (dbCatalog d) (dbCatalog d') /\
    rest_kept (dbCatalog d) (dbCatalog d') /\
    ((forall st, st ∈ seed_program -> st ∈ map snd schedule) -> ready d').
Proof.
  intros HI Hs. split; [intros now; apply seed_tables_statements|]. assert (seeding_ok (dbCatalog d)) as HI' by (destruct HI; [by apply seeding_ok_seeded|by apply seeding_ok_empty]).
  destruct (seeding_runs schedule Hs d HI') as (d' & E & (K1 & K2 & K3 & K4) & [Hok _] & B). exists d'. do 5 (split; [assumption|]).
  intros Hall. apply all_brought; [done|]. intros st Hst. apply Hall in Hst as (e & -> & He)%list_elem_of_fmap. by apply B.
Qed.

(** ** A restart after a user disabled a field and changed a setting *)

Definition demo_changed : Database :=
  mkDatabase (run_capture_op (CaptureUpdate 2 "upstream.s3.storage_class" (mkUpdateCapture None (Some false) None None None None)) (seeded_catalog 0))
    (SetSetting 1 SettingWorkerScanStagger "1m" "admin" (SeedSettings 0 ∅).2).2.

(** Two processes start at once, and one of them ends after its first statement. *)
Definition demo_starts : list (Z * seed_statement) := (8, StmtBuiltin) :: map (pair 9) seed_program.

Lemma whole_program (now : Z) st : st ∈ seed_program -> st ∈ map snd (map (pair now) seed_program).
Proof. intros Hst. apply list_elem_of_fmap. exists (now, st). split; [done|]. apply list_elem_of_fmap. exists st. by split. Qed.

Lemma restart_keeps_witness : exists d', run_seeding demo_starts demo_changed = (Ok tt, d') /\ ready d' /\
  (sValue <$> dbSettings d' !! SettingWorkerScanStagger) = Some "1m" /\
  exists f, capture_fields (dbCatalog d') !! "upstream.s3.storage_class" = Some f /\ cfEnabled f = false.
Proof.
  destruct (restart_keeps demo_starts demo_changed) as (_ & d' & E & Hs & Hf & _ & _ & Hr).
  { left. exact (UpdateField_invariant _ _ _ _ seeded_catalog_ok). }
  { apply list.Forall_forall. intros e [->|(st & -> & Hst)%list_elem_of_fmap]%elem_of_cons; [left|exact Hst]. }
  exists d'. split; [exact E|]. split.
  { apply Hr. intros st Hst. unfold demo_starts. cbn [map snd]. apply elem_of_cons. right. exact (whole_program 9 st Hst). }
  split.
  - destruct (dbSettings demo_changed !! SettingWorkerScanStagger) as [s|] eqn:Hl; [|by vm_compute in Hl].
    rewrite (Hs _ _ Hl). assert (sValue <$> dbSettings demo_changed !! SettingWorkerScanStagger = Some "1m") as Hv by (vm_compute; reflexivity).
    rewrite Hl in Hv. exact Hv.
  - destruct (capture_fields (dbCatalog demo_changed) !! "upstream.s3.storage_class") as [f|] eqn:Hl; [|by vm_compute in Hl].
    assert (cfEnabled <$> capture_fields (dbCatalog demo_changed) !! "upstream.s3.storage_class" = Some false) as Hv by (vm_compute; reflexivity).
    rewrite Hl in Hv. injection Hv as Hv. destruct (Hf _ _ Hl) as (f' & Hf' & [->|[_ [now ->]]]); eexists; (split; [exact Hf'|]); exact Hv.
Defined.

(** * The processes

    [run] of both programs, from the configuration to the exit: apps/worker/main.go and
    apps/api/main.go.  The migrations, the connection, the constructor of the identity
    provider and [net/http]'s server are parameters, and so is the body of the worker, whose
    steps are those of WorkerRun.v.  The constructors of the handlers only fail for missing
    options, which [run] gives. *)

(** The tables of one database: those that are seeded and those of the users. *)
Record Tables := mkTables { tbSeeded : Database; tbAuth : Server AuthTables }.
Definition in_seeded {A} (m : M Database A) : M Tables A := fun t =>
  let '(r, d) := m (tbSeeded t) in (r, mkTables d (tbAuth t)).
Definition in_auth {A} (m : M (Server AuthTables) A) : M Tables A := fun t =>
  let '(r, a) := m (tbAuth t) in (r, mkTables (tbSeeded t) a).

Record WorkerHandlers := mkHandlers {
  syncBucketHandler : StaticKeyManager -> handler; scanBucketHandler : StaticKeyManager -> handler;
  importObjectsHandler : StaticKeyManager -> handler; refreshObjectsHandler : StaticKeyManager -> handler;
  removeObjectsHandler : handler; detectDuplicatesHandler : StaticKeyManager -> handler
}.

Section Run.
Context (RunMigrations : string -> M Tables unit) (Connect : string -> result store_error unit)
  (env : environment) (file : result store_error (option string)) (now : Z).

(** What both do first. *)
Definition prepare (databaseURL : string) : M Tables unit :=
  _ ← RunMigrations databaseURL;
  _ ← of_result (Connect databaseURL);
  in_seeded (seed_tables now).

Definition register_handlers (h : WorkerHandlers) (m : StaticKeyManager) : result registry_error Registry :=
  worker_registry (syncBucketHandler h m) (scanBucketHandler h m) (importObjectsHandler h m) (refreshObjectsHandler h m)
    (removeObjectsHandler h) (detectDuplicatesHandler h m).

(** [supervise] is [Supervisor.Run] of the worker with this identifier and registry. *)
Definition run_worker (hostname : option string) (pid : Z) (h : WorkerHandlers) (supervise : string -> Registry -> M Tables (option loop_error))
  : M Tables (option loop_error) :=
  cfg ← of_result (loadConfig env file hostname pid);
  _ ← prepare (wcDatabaseURL cfg);
  secretManager ← of_result (NewStaticKeyManager (wcEncryptionKeyID cfg) (string_of (wcEncryptionKey cfg)));
  match register_handlers h secretManager with
  | Err _ => fail_with "register handler"
  | Ok registry => err ← supervise (wcWorkerID cfg) registry; mret (exit_error err)
  end.

(** How the server ends: [ListenAndServe] returns before a signal, or a signal comes first and
    then [Shutdown] and [ListenAndServe] return. *)
Inductive serving := ListenEnds (err : option store_error) | Interrupted (shutdown listen : option store_error).
Definition serve_error (s : serving) : option store_error :=
  match s with
  | ListenEnds err => err
  | Interrupted (Some err) _ => Some err
  | Interrupted None listen => listen
  end.

Definition run_api `{Casing, Argon2} (E : Surroundings AuthTables) (NewOIDCProvider : ApiConfig -> result store_error (option OIDCProvider))
  (listen : Config -> StaticKeyManager -> M Tables serving) : M Tables (option store_error) :=
  cfg ← of_result (Load env file);
  _ ← prepare (DatabaseURL cfg);
  secretManager ← of_result (NewStaticKeyManager (EncryptionKeyID cfg) (string_of (EncryptionKey cfg)));
  provider ← of_result (NewOIDCProvider cfg);
  let service := AuthServiceConfig provider cfg in
  _ ← in_auth (EnsureBootstrapAdmin E (SuperuserEmail service) (SuperuserPassword service));
  ended ← listen service secretManager;
  mret (serve_error ended).
End Run.

(** ** What the parts find *)

Lemma bind_of_result {S A B} (a : A) (f : A -> M S B) s : (x ← of_result (Ok a); f x) s = f a s.
Proof. reflexivity. Qed.
Lemma bind_done {S A B} (m : M S A) (f : A -> M S B) s a s' : m s = (Ok a, s') -> (x ← m; f x) s = f a s'.
Proof. intros Hm. by rewrite bind_run, Hm. Qed.

Section Ready.
Context (RunMigrations : string -> M Tables unit) (Connect : string -> result store_error unit) (file : result store_error (option string)) (env : environment) (now : Z).
(** The migrations succeed on the tables they have made, and change none of their rows. *)
Hypothesis migrated : forall url t, RunMigrations url t = (Ok tt, t).
Hypothesis connected : forall url, Connect url = Ok tt.

Lemma prepare_seeds url t : seeding_ok (dbCatalog (tbSeeded t)) ->
  exists t', prepare RunMigrations Connect now url t = (Ok tt, t') /\ tbAuth t' = tbAuth t /\ ready (tbSeeded t').
Proof.
  intros HI. unfold prepare. rewrite bind_run, migrated. unfold of_result. rewrite connected, bind_run. unfold in_seeded.
  destruct (seed_tables_ready now (tbSeeded t) HI) as (d' & -> & _ & Hr). eexists. by split_and!.
Qed.

(** A worker with a good configuration reaches its supervisor with six handlers, over seeded
    tables, and its exit is that of the supervisor, but for the signal. *)
Lemma run_worker_supervises hostname pid h supervise cfg m t :
  seeding_ok (dbCatalog (tbSeeded t)) -> loadConfig env file hostname pid = Ok cfg -> worker_secrets env file hostname pid = Ok m ->
  exists t' registry, ready (tbSeeded t') /\ tbAuth t' = tbAuth t /\ register_handlers h m = Ok registry /\
    Types registry = ["detect_duplicates"; "import_objects"; "refresh_objects"; "remove_objects"; "scan_bucket"; "sync_bucket"] /\
    run_worker RunMigrations Connect env file now hostname pid h supervise t =
      (err ← supervise (wcWorkerID cfg) registry; mret (exit_error err)) t'.
Proof.
  intros HI Hcfg Hm. destruct (prepare_seeds (wcDatabaseURL cfg) t HI) as (t' & Hp & Ha & Hs).
  unfold worker_secrets in Hm. rewrite Hcfg in Hm. cbn [mbind result_bind] in Hm.
  destruct (worker_registry_types (syncBucketHandler h m) (scanBucketHandler h m) (importObjectsHandler h m) (refreshObjectsHandler h m)
    (removeObjectsHandler h) (detectDuplicatesHandler h m)) as (registry & Hr & Ht & _).
  exists t', registry. split; [exact Hs|]. split; [exact Ha|]. split; [exact Hr|]. split; [exact Ht|].
  unfold run_worker. rewrite Hcfg, bind_of_result, (bind_done _ _ _ _ _ Hp), Hm, bind_of_result.
  fold (register_handlers h m) in Hr. by rewrite Hr.
Qed.

(** The API with the same environment serves with the same key; before it does, its
    administrator exists. *)
Lemma run_api_serves `{Casing, Argon2} (E : Surroundings AuthTables) NewOIDCProvider listen cfg m provider a' t :
  seeding_ok (dbCatalog (tbSeeded t)) -> Load env file = Ok cfg -> api_secrets env file = Ok m -> NewOIDCProvider cfg = Ok provider ->
  EnsureBootstrapAdmin E (acSuperuserEmail cfg) (acSuperuserPassword cfg) (tbAuth t) = (Ok tt, a') ->
  exists t', ready (tbSeeded t') /\ tbAuth t' = a' /\ (forall hostname pid, worker_secrets env file hostname pid = Ok m) /\
    run_api RunMigrations Connect env file now E NewOIDCProvider listen t =
      (ended ← listen (AuthServiceConfig provider cfg) m; mret (serve_error ended)) t'.
Proof.
  intros HI Hcfg Hm Hp Hb. destruct (prepare_seeds (DatabaseURL cfg) t HI) as (t1 & Hprep & Ha & Hs).
  exists (mkTables (tbSeeded t1) a'). split; [exact Hs|]. split; [done|]. split; [intros hostname pid; by eapply same_manager|].
  unfold api_secrets in Hm. rewrite Hcfg in Hm. cbn [mbind result_bind] in Hm.
  unfold run_api. rewrite Hcfg, bind_of_result, (bind_done _ _ _ _ _ Hprep), Hm, bind_of_result, Hp, bind_of_result. cbv zeta.
  rewrite (bind_done _ _ _ tt (mkTables (tbSeeded t1) a')); [done|]. unfold in_auth. cbn [SuperuserEmail SuperuserPassword AuthServiceConfig].
  by rewrite Ha, Hb.
Qed.
End Ready.
