(* ===== verification/LoginLimit.v ===== *)
(** * LoginLimit

    The limiter of logins ([LimitLogin] of apps/api/internal/httpserver/middleware/security.go):
    the map of the clients, which a mutex guards, and the channel of the four slots.  The
    guarded section is one step, the [select] on the slots another, the end of the handler
    a third.  Times are in nanoseconds, the host is that of the remote address. *)
From S2P Require Import Prelude GoDuration.
Local Open Scope Z_scope.

Record window := mkWindow { until : Z; attempts : Z }.
Notation clients := (gmap string window).

(** The guarded section, for a request of [host] at [now]. *)
Definition admit_login (host : string) (now : Z) (m : clients) : bool * clients :=
  let m := filter (fun e => now <? until e.2 = true) m in
  let '(entry, allowed) :=
    match m !! host with
    | Some entry => (entry, true)
    | None => if 1024 <=? Z.of_nat (size m) then (mkWindow 0 0, false) else (mkWindow (now + Minute) 0, true)
    end in
  let allowed := if 10 <=? attempts entry then false else allowed in
  if allowed then (true, <[host := mkWindow (until entry) (attempts entry + 1)]> m) else (false, m).

Definition slots : nat := 4.

(** What became of a request: it waits at the [select], its handler runs, it was refused
    for its rate or for want of a slot, or its handler has returned. *)
Inductive login_phase := Selecting | Serving | TooMany | Busy | Served.

Record limiter := mkLimiter { lmClients : clients; lmActive : nat; lmRequests : list login_phase }.
Definition fresh_limiter : limiter := mkLimiter ∅ 0 [].

Inductive limit_step : limiter -> limiter -> Prop :=
| step_admit host now m active rs :
    limit_step (mkLimiter m active rs)
      (mkLimiter (admit_login host now m).2 active (rs ++ [if (admit_login host now m).1 then Selecting else TooMany]))
| step_acquire m active rs i :
    rs !! i = Some Selecting -> (active < slots)%nat -> limit_step (mkLimiter m active rs) (mkLimiter m (S active) (<[i := Serving]> rs))
| step_busy m active rs i :
    rs !! i = Some Selecting -> active = slots -> limit_step (mkLimiter m active rs) (mkLimiter m active (<[i := Busy]> rs))
| step_release m active rs i :
    rs !! i = Some Serving -> limit_step (mkLimiter m active rs) (mkLimiter m (Nat.pred active) (<[i := Served]> rs)).

(** ** Bounds *)

Definition weight_of (p : login_phase) : nat := match p with Serving => 1 | _ => 0 end.
Definition serving (rs : list login_phase) : nat := sum_list (map weight_of rs).

Lemma admit_size host now m : (size m <= 1024)%nat -> (size (admit_login host now m).2 <= 1024)%nat.
Proof.
  intros Hm. unfold admit_login. set (m' := filter _ m).
  assert (size m' <= size m)%nat as Hs by (apply map_subseteq_size, map_filter_subseteq).
  destruct (m' !! host) as [entry|] eqn:Hh.
  - destruct (10 <=? attempts entry); cbn [snd]; [lia|]. rewrite map_size_insert_Some by (by rewrite Hh). lia.
  - destruct (Z.leb_spec 1024 (Z.of_nat (size m'))).
    + cbn [attempts]. change (10 <=? 0) with false. cbn [snd]. lia.
    + cbn [attempts]. change (10 <=? 0) with false. cbn [snd]. rewrite map_size_insert_None by done. lia.
Qed.

Lemma serving_insert rs i p q : rs !! i = Some p ->
  (serving (<[i := q]> rs) + weight_of p = serving rs + weight_of q)%nat.
Proof. intros Hi. exact (sum_list_insert weight_of rs i p q Hi). Qed.

Lemma sum_list_app_one l x : sum_list (l ++ [x]) = (sum_list l + x)%nat.
Proof. induction l as [|y l IH]; [cbn; lia|]. change (y + sum_list (l ++ [x]) = y + sum_list l + x)%nat. lia. Qed.

Record limiter_ok (l : limiter) : Prop := {
  lo_slots : (lmActive l <= slots)%nat;
  lo_serving : lmActive l = serving (lmRequests l);
  lo_clients : (size (lmClients l) <= 1024)%nat
}.

Lemma limit_step_ok l l' : limit_step l l' -> limiter_ok l -> limiter_ok l'.
Proof.
  destruct 1 as [host now m active rs|m active rs i Hi Ha|m active rs i Hi Ha|m active rs i Hi]; intros [H1 H2 H3];
    cbn [lmClients lmActive lmRequests] in *; split; cbn [lmClients lmActive lmRequests]; try done; try lia.
  - rewrite H2. unfold serving. rewrite map_app. cbn [map]. rewrite sum_list_app_one. destruct (admit_login host now m).1; cbn; lia.
  - by apply admit_size.
  - pose proof (serving_insert rs i _ Serving Hi) as Hs. cbn in Hs. lia.
  - pose proof (serving_insert rs i _ Busy Hi) as Hs. cbn in Hs. lia.
  - pose proof (serving_insert rs i _ Served Hi) as Hs. cbn in Hs. lia.
Qed.

(** Whatever the requests and the order in which their handlers run, at most four logins
    are served at a time, the channel counts exactly those, and the limiter remembers at
    most 1024 clients, so that neither password hashing nor its memory grows without
    bound. *)
Theorem login_limits l : rtc limit_step fresh_limiter l ->
  (serving (lmRequests l) <= 4)%nat /\ lmActive l = serving (lmRequests l) /\ (size (lmClients l) <= 1024)%nat.
Proof.
  intros Hl. assert (limiter_ok l) as [H1 H2 H3].
  { revert l Hl. apply rtc_ind_r; [split; cbn; [unfold slots; lia|done|rewrite map_size_empty; lia]|]. intros l1 l2 _ Hs Hok. by apply (limit_step_ok l1). }
  unfold slots in H1. split; [lia|done].
Qed.

Lemma login_limits_witness : (serving (lmRequests (mkLimiter (admit_login "h" 0 ∅).2 1 [Serving])) <= 4)%nat.
Proof.
  apply (login_limits (mkLimiter (admit_login "h" 0 ∅).2 1 [Serving])).
  eapply rtc_l; [apply (step_admit "h" 0 ∅ 0 [])|]. apply rtc_once. apply (step_acquire _ 0 [Selecting] 0); [reflexivity|unfold slots; lia].
Defined.

(** ** Rate *)

(** The times at which the attempts of a host were let through, oldest first. *)
Fixpoint admitted (host : string) (m : clients) (requests : list (string * Z)) : list Z :=
  match requests with
  | [] => []
  | (h, now) :: requests =>
      let r := admit_login h now m in
      (if r.1 && String.eqb h host then [now] else []) ++ admitted host r.2 requests
  end.

Definition ordered (requests : list (string * Z)) : Prop := Sorted.StronglySorted (fun a b => a.2 <= b.2) requests.

(** Windows of attempts: each begins a minute or more after the one before began, and holds
    one to ten attempts. *)
Inductive windows : list (list Z) -> Prop :=
| windows_nil : windows []
| windows_cons first rest others :
    (List.length (first :: rest) <= 10)%nat -> Forall (fun t => first <= t) rest ->
    (forall next others', others = next :: others' -> exists t, hd_error next = Some t /\ first + Minute <= t) ->
    windows others -> windows ((first :: rest) :: others).

(** The window of the host that is open in the map. *)
Definition open_window (host : string) (m : clients) (first : Z) (rest : list Z) : Prop :=
  m !! host = Some (mkWindow (first + Minute) (Z.of_nat (List.length (first :: rest)))).

(** What a request leaves of an entry. *)
Definition unexpired (now : Z) (e : option window) : option window :=
  match e with Some e => if now <? until e then Some e else None | None => None end.

Lemma lookup_unexpired host now (m : clients) :
  (filter (fun e => now <? until e.2 = true) m : clients) !! host = unexpired now (m !! host).
Proof.
  rewrite map_lookup_filter. unfold unexpired. destruct (m !! host) as [e|]; [|done]. cbn.
  destruct (now <? until e) eqn:Ht; [by rewrite option_guard_True|by rewrite option_guard_False].
Qed.

Lemma admit_other h host now m : h <> host -> (admit_login h now m).2 !! host = unexpired now (m !! host).
Proof.
  intros Hne. unfold admit_login. set (m' := filter _ m). assert (m' !! host = unexpired now (m !! host)) as Hm by apply lookup_unexpired.
  destruct (match m' !! h with Some _ => _ | None => _ end) as [entry allowed].
  destruct (if 10 <=? attempts entry then false else allowed); cbn [snd]; [|done]. by rewrite lookup_insert_ne.
Qed.

Lemma admit_known host now m e : unexpired now (m !! host) = Some e ->
  (admit_login host now m).1 = negb (10 <=? attempts e) /\
  (admit_login host now m).2 !! host = Some (mkWindow (until e) (if 10 <=? attempts e then attempts e else attempts e + 1)).
Proof.
  intros He. unfold admit_login. set (m' := filter _ m). assert (m' !! host = Some e) as Hm by (rewrite <- He; apply lookup_unexpired).
  rewrite Hm. destruct (10 <=? attempts e); cbn [negb fst snd]; (split; [done|]).
  - rewrite Hm. by destruct e.
  - by rewrite lookup_insert_eq.
Qed.

Lemma admit_unknown host now m : unexpired now (m !! host) = None ->
  ((admit_login host now m).1 = true /\ (admit_login host now m).2 !! host = Some (mkWindow (now + Minute) 1)) \/
  ((admit_login host now m).1 = false /\ (admit_login host now m).2 !! host = None).
Proof.
  intros He. unfold admit_login. set (m' := filter _ m). assert (m' !! host = None) as Hm by (rewrite <- He; apply lookup_unexpired).
  rewrite Hm. destruct (1024 <=? Z.of_nat (size m')).
  - right. done.
  - left. cbn [attempts until]. change (10 <=? 0) with false. cbn [fst snd]. split; [done|]. by rewrite lookup_insert_eq.
Qed.

Definition starts_after (bound : Z) (ws : list (list Z)) : Prop :=
  forall next others, ws = next :: others -> exists t, hd_error next = Some t /\ bound <= t.

Lemma admitted_windows host requests : ordered requests ->
  (forall m first rest, open_window host m first rest -> (List.length (first :: rest) <= 10)%nat ->
     Forall (fun t => first <= t) rest -> Forall (fun r => first <= r.2) requests ->
     exists more others, windows ((first :: rest ++ more) :: others) /\ admitted host m requests = more ++ List.concat others) /\
  (forall m bound, m !! host = None -> Forall (fun r => bound <= r.2) requests ->
     exists ws, windows ws /\ admitted host m requests = List.concat ws /\ starts_after bound ws).
Proof.
  induction 1 as [|[h now] requests Hord IH Hall].
  { split.
    - intros m first rest _ Hlen Hrest _. exists [], []. rewrite app_nil_r. split; [|done]. constructor; [done|done|done|constructor].
    - intros m bound _ _. exists []. split; [constructor|]. split; [done|]. intros next others [=]. }
  destruct IH as [IHopen IHnone]. cbn [snd] in Hall.
  (* a host that is not known, at [now] *)
  assert (forall m bound, unexpired now (m !! host) = None -> bound <= now ->
    exists ws, windows ws /\ admitted host m ((h, now) :: requests) = List.concat ws /\ starts_after bound ws) as Hunknown.
  { intros m bound Hm Hb. cbn [admitted]. cbv zeta. destruct (String.eqb_spec h host) as [->|Hne].
    - destruct (admit_unknown host now m Hm) as [[E1 E2]|[E1 E2]]; rewrite E1; cbn [andb].
      + destruct (IHopen (admit_login host now m).2 now []) as (more & others & Hw & ->); [done|cbn; lia|done|done|].
        exists ((now :: more) :: others). split; [done|]. split; [done|]. intros next others' [= <- <-]. by exists now.
      + destruct (IHnone (admit_login host now m).2 bound) as (ws & Hw & -> & Hs); [done| |by exists ws].
        eapply list.Forall_impl; [exact Hall|]. cbn. lia.
    - rewrite andb_false_r. destruct (IHnone (admit_login h now m).2 bound) as (ws & Hw & -> & Hs); [by rewrite admit_other| |by exists ws].
      eapply list.Forall_impl; [exact Hall|]. cbn. lia. }
  split.
  - intros m first rest Hm Hlen Hrest Hreq. inversion Hreq as [|? ? Hnow Hreq']; subst. cbn [snd] in Hnow. unfold open_window in Hm.
    destruct (Z.ltb_spec now (first + Minute)) as [Hlt|Hge].
    + assert (unexpired now (m !! host) = Some (mkWindow (first + Minute) (Z.of_nat (List.length (first :: rest))))) as He.
      { rewrite Hm. unfold unexpired. cbn [until]. by destruct (Z.ltb_spec now (first + Minute)); [|lia]. }
      cbn [admitted]. cbv zeta. destruct (String.eqb_spec h host) as [->|Hne].
      * destruct (admit_known host now m _ He) as [E1 E2]. rewrite E1. cbn [attempts until] in E2 |- *.
        destruct (Z.leb_spec 10 (Z.of_nat (List.length (first :: rest)))); cbn [negb andb].
        -- by apply (IHopen (admit_login host now m).2 first rest).
        -- destruct (IHopen (admit_login host now m).2 first (rest ++ [now])) as (more & others & Hw & ->).
           { unfold open_window. rewrite E2. do 2 f_equal. cbn [List.length]. rewrite length_app. cbn [List.length]. lia. }
           { cbn [List.length] in *. rewrite length_app. cbn [List.length]. lia. }
           { apply list.Forall_app. split; [done|]. by constructor. }
           { done. }
           exists (now :: more), others. rewrite <- app_assoc in Hw. done.
      * rewrite andb_false_r. apply (IHopen (admit_login h now m).2 first rest); [|done|done|done].
        unfold open_window. by rewrite admit_other.
    + destruct (Hunknown m (first + Minute)) as (ws & Hw & -> & Hs).
      { rewrite Hm. unfold unexpired. cbn [until]. by destruct (Z.ltb_spec now (first + Minute)); [lia|]. }
      { done. }
      exists [], ws. rewrite app_nil_r. split; [|done]. by constructor.
  - intros m bound Hm Hreq. inversion Hreq as [|? ? Hnow _]; subst. apply Hunknown; [by rewrite Hm|done].
Qed.

(** C34: the attempts of a host that reach the login handler, however many are made, fall
    into windows of at most ten, each beginning at least a minute after the one before
    began. *)
Theorem login_rate host requests : ordered requests ->
  exists ws, windows ws /\ admitted host ∅ requests = List.concat ws.
Proof.
  intros Ho. destruct (admitted_windows host requests Ho) as [_ H].
  destruct requests as [|[h now] requests]; [by exists []; split; [constructor|]|].
  inversion Ho as [|? ? _ Hall]; subst.
  destruct (H ∅ now) as (ws & Hw & He & _); [apply lookup_empty|constructor; [cbn; lia|exact Hall]|by exists ws].
Qed.

Lemma login_rate_witness : exists ws, windows ws /\ admitted "h" ∅ (repeat ("h", 0) 12 ++ [("h", 60000000000)]) = List.concat ws.
Proof.
  apply login_rate. repeat (constructor; [|repeat (constructor; [cbn; lia|]); constructor]). constructor.
Defined.
