(* ===== verification/Notifications.v ===== *)
(** * Notifications

    The notifications of the object stores: packages/upstreams/s3events/event.go and
    parse.go, on the trees of [GoJsonText].  A notification may hold another one as
    a text (Amazon SNS) or as a member (a queue's body). *)
From S2P Require Import Prelude GoStrings GoFloat GoTime GoJson GoJsonText JobPayload JobRuns ErrState Catalog.
Local Open Scope Z_scope.

Inductive EventAction := EventActionImport | EventActionRemove | EventActionIgnore.

#[export] Instance EventAction_eq_dec : EqDecision EventAction. Proof. solve_decision. Defined.

Record NormalizedEvent := mkNormalized {
  neUpstream : string;
  neAction : EventAction;
  neEventName : string;
  neEventSource : string;
  neBucketName : string;
  neBucketARN : string;
  neRegion : string;
  neDeploymentID : string;
  neKey : string;
  neETag : string;
  neSize : Z;
  neEventTime : Time;
  neEventID : string;
  neVersionID : string
}.

Definition UpstreamAWS : string := "aws".
Definition UpstreamR2 : string := "r2".
Definition UpstreamB2 : string := "b2".
Definition UpstreamGCP : string := "gcp".
Definition UpstreamRustFS : string := "rustfs".

Definition contains_any (name : string) (l : list string) : bool := existsb (Contains name) l.

Definition actionFromEventName (name : string) : EventAction :=
  let normalized := ToLower name in
  if contains_any normalized ["object created"; "objectcreated"; "putobject"; "completemultipartupload"; "copyobject";
       "object_finalize"; "objectcreatedupload"; "objectcreatedmultipartupload"] then EventActionImport
  else if contains_any normalized ["object deleted"; "objectremoved"; "deleteobject"; "object_delete"; "objectdeleted"]
  then EventActionRemove
  else EventActionIgnore.

(** The second and third layouts accept no more than the first. *)
Definition parseTime (value : string) : result store_error Time :=
  if String.eqb value "" then Err (Errorf "parse event time: value is empty")
  else match ParseRFC3339 value with
       | Some parsed => Ok (UTC parsed)
       | None => Err (Errorf "parse event time %q")
       end.

Definition hasKey (envelope : list (string * json)) (key : string) : bool := bool_decide (is_Some (get key envelope)).

(** ** Decoding helpers *)

(** [url.QueryUnescape]. *)
Fixpoint QueryUnescape (s : string) : option string :=
  match s with
  | EmptyString => Some ""
  | String c s1 =>
      if Ascii.eqb c "%"%char then
        match s1 with
        | String a (String b s2) =>
            x ← hex_val a; y ← hex_val b; rest ← QueryUnescape s2; Some (String (byte_of (16 * x + y)) rest)
        | _ => None
        end
      else rest ← QueryUnescape s1; Some (String (if Ascii.eqb c "+" then " "%char else c) rest)
  end.

Definition decodeObjectKey (raw : string) : result store_error string :=
  if String.eqb raw "" then Ok ""
  else match QueryUnescape raw with
       | Some decoded => Ok decoded
       | None => Err (Errorf "decode object key %q: %w")
       end.

(** A member of type [string], [int64], [map[string]string], slice or struct; absent
    or null leaves the zero value. *)
Definition member_of {A} (read : json -> option A) (zero : A) (name : string) (ms : list (string * json)) : option A :=
  match get_field name ms with Some j => read j | None => Some zero end.
Definition int64_member := member_of as_int64 0.
Definition object_member := member_of as_object [].
Definition array_member := member_of as_array [].

Definition string_map (j : json) : option (gmap string string) :=
  match j with
  | JNull => Some ∅
  | JObject ms =>
      entries ← mapM (fun m => text ← as_text m.2; Some (m.1, text)) ms;
      Some (list_to_map (rev entries))
  | _ => None
  end.
Definition string_map_member := member_of string_map ∅.

Definition decoded {A} (message : string) (r : option A) : result store_error A :=
  match r with Some a => Ok a | None => Err (Errorf message) end.

(** ** base64.StdEncoding *)

Definition base64_val (c : ascii) : option Z :=
  if in_range 65 90 c then Some (byte c - 65)
  else if in_range 97 122 c then Some (byte c - 71)
  else if in_range 48 57 c then Some (byte c + 4)
  else if Ascii.eqb c "+" then Some 62
  else if Ascii.eqb c "/" then Some 63
  else None.

Fixpoint strip_newlines (s : string) : string :=
  match s with
  | EmptyString => ""
  | String c s => if (byte c =? 10) || (byte c =? 13) then strip_newlines s else String c (strip_newlines s)
  end.

Fixpoint base64_quanta (s : string) : option string :=
  match s with
  | EmptyString => Some ""
  | String a (String b (String c (String d rest))) =>
      x ← base64_val a; y ← base64_val b;
      let first := byte_of (x * 4 + y / 16) in
      if Ascii.eqb c "=" then
        if Ascii.eqb d "=" && String.eqb rest "" then Some (String first "") else None
      else
        z ← base64_val c;
        let second := byte_of (y mod 16 * 16 + z / 4) in
        if Ascii.eqb d "=" then
          if String.eqb rest "" then Some (String first (String second "")) else None
        else
          w ← base64_val d;
          text ← base64_quanta rest;
          Some (String first (String second (String (byte_of (z mod 4 * 64 + w)) text)))
  | _ => None
  end.
Definition DecodeString (s : string) : option string := base64_quanta (strip_newlines s).

(** ** The formats *)

Definition no_event : NormalizedEvent := mkNormalized "" EventActionIgnore "" "" "" "" "" "" "" "" 0 zeroTime "" "".

Definition keep_event (b : bool) (e : NormalizedEvent) : list NormalizedEvent := if b then [e] else [].

Definition parseEventBridge (j : json) : result store_error (list NormalizedEvent) :=
  '(detailType, time, region, bucket, key, size, etag, versionID) ← decoded "parse eventbridge notification: %w" (
    ms ← as_object j;
    detailType ← text_field "detail-type" ms;
    time ← text_field "time" ms;
    region ← text_field "region" ms;
    detail ← object_member "detail" ms;
    bucket ← object_member "bucket" detail;
    name ← text_field "name" bucket;
    object ← object_member "object" detail;
    key ← text_field "key" object;
    size ← int64_member "size" object;
    etag ← text_field "etag" object;
    versionID ← text_field "version-id" object;
    Some (detailType, time, region, name, key, size, etag, versionID));
  eventTime ← wrap_err (Wrapf "parse eventbridge notification: %w") (parseTime time);
  let event := mkNormalized UpstreamAWS (actionFromEventName detailType) detailType "aws:eventbridge" bucket "" region ""
    key etag size eventTime "" versionID in
  Ok (keep_event (negb (String.eqb key "") && negb (bool_decide (neAction event = EventActionIgnore))) event).

(** [time.UnixMilli(ms).UTC()]. *)
Definition UnixMilliUTC (ms : Z) : Time := mkTime (ms / 1000) (ms mod 1000 * 10 ^ 6) 0.

Definition b2_event (j : json) : option (string * Z * string * string * string * Z) :=
  ms ← as_object j;
  eventID ← text_field "eventId" ms;
  timestamp ← int64_member "eventTimestamp" ms;
  eventType ← text_field "eventType" ms;
  bucketName ← text_field "bucketName" ms;
  objectName ← text_field "objectName" ms;
  objectSize ← int64_member "objectSize" ms;
  Some (eventID, timestamp, eventType, bucketName, objectName, objectSize).

Definition b2_events (j : json) : option (list (string * Z * string * string * string * Z)) :=
  ms ← as_object j; items ← array_member "events" ms; mapM b2_event items.

Definition b2_normalized (item : string * Z * string * string * string * Z) : option NormalizedEvent :=
  let '(eventID, timestamp, eventType, bucketName, objectName, objectSize) := item in
  let action := actionFromEventName eventType in
  if String.eqb objectName "" || bool_decide (action = EventActionIgnore) then None
  else Some (mkNormalized UpstreamB2 action eventType "" bucketName "" "" "" objectName "" objectSize
              (UnixMilliUTC timestamp) eventID "").

Definition parseB2 (j : json) : result store_error (list NormalizedEvent) :=
  items ← decoded "parse b2 notification: %w" (b2_events j); Ok (omap b2_normalized (items : list _)).

(** The size and the hash that a Pub/Sub message carries in its data. *)
Definition gcp_object (data : string) : result store_error (Z * string) :=
  let encoded := TrimSpace data in
  if String.eqb encoded "" then Ok (0, "")
  else
    text ← decoded "parse gcp pubsub notification: decode data: %w" (DecodeString encoded);
    '(size, md5Hash) ← decoded "parse gcp pubsub notification: decode object payload: %w" (
      j ← unmarshal text; ms ← as_object j; size ← text_field "size" ms; md5Hash ← text_field "md5Hash" ms;
      Some (size, md5Hash));
    n ← (if String.eqb size "" then Ok 0
         else decoded "parse gcp pubsub notification: parse object size: %w" (ParseInt64 size));
    Ok (n, md5Hash).

Definition parseGCPPubSubPush (j : json) : result store_error (list NormalizedEvent) :=
  '(attributes, data) ← decoded "parse gcp pubsub notification: %w" (
    ms ← as_object j;
    message ← object_member "message" ms;
    attributes ← string_map_member "attributes" message;
    data ← text_field "data" message;
    Some (attributes, data));
  let attribute name := default "" ((attributes : gmap string string) !! name) in
  let eventName := attribute "eventType" in
  let action := actionFromEventName eventName in
  if bool_decide (action = EventActionIgnore) then Ok []
  else
    eventTime ← wrap_err (Wrapf "parse gcp pubsub notification: %w") (parseTime (attribute "eventTime"));
    '(size, etag) ← gcp_object data;
    let key := attribute "objectId" in
    Ok (keep_event (negb (String.eqb key ""))
      (mkNormalized UpstreamGCP action eventName "" (attribute "bucketId") "" "" "" key etag size eventTime ""
        (attribute "objectGeneration"))).

Definition parseR2 (j : json) : result store_error (list NormalizedEvent) :=
  '(name, bucket, time, key, size, etag) ← decoded "parse r2 notification: %w" (
    ms ← as_object j;
    name ← text_field "action" ms;
    bucket ← text_field "bucket" ms;
    time ← text_field "eventTime" ms;
    object ← object_member "object" ms;
    key ← text_field "key" object;
    size ← int64_member "size" object;
    etag ← text_field "eTag" object;
    Some (name, bucket, time, key, size, etag));
  let action := actionFromEventName name in
  if String.eqb key "" || bool_decide (action = EventActionIgnore) then Ok []
  else
    eventTime ← wrap_err (Wrapf "parse r2 notification: %w") (parseTime time);
    Ok [mkNormalized UpstreamR2 action name "" bucket "" "" "" key etag size eventTime "" ""].

Record s3Record := mkS3Record {
  srEventSource : string;
  srAWSRegion : string;
  srEventName : string;
  srEventTime : string;
  srResponseElements : gmap string string;
  srBucketName : string;
  srBucketARN : string;
  srKey : string;
  srSize : Z;
  srETag : string;
  srVersionID : string
}.

Definition s3Record_of (j : json) : option s3Record :=
  ms ← as_object j;
  source ← text_field "eventSource" ms;
  region ← text_field "awsRegion" ms;
  name ← text_field "eventName" ms;
  time ← text_field "eventTime" ms;
  elements ← string_map_member "responseElements" ms;
  s3 ← object_member "s3" ms;
  bucket ← object_member "bucket" s3;
  bucketName ← text_field "name" bucket;
  arn ← text_field "arn" bucket;
  object ← object_member "object" s3;
  key ← text_field "key" object;
  size ← int64_member "size" object;
  etag ← text_field "eTag" object;
  versionID ← text_field "versionId" object;
  Some (mkS3Record source region name time elements bucketName arn key size etag versionID).

Definition upstreamFromEventSource (eventSource : string) : string :=
  if String.eqb (ToLower eventSource) "rustfs:s3" then UpstreamRustFS else UpstreamAWS.

Section Records.
Context `{MapOrder}.

Definition deploymentIDFromResponseElements (elements : gmap string string) : string :=
  match List.find (fun e => EqualFold e.1 "x-rustfs-deployment-id") (range_map 0 elements) with
  | Some (_, v) => TrimSpace v
  | None => ""
  end.

(** The event of a record, if it has one. *)
Definition record_event (record : s3Record) : result store_error (option NormalizedEvent) :=
  key ← wrap_err (Wrapf "parse s3 records notification: %w") (decodeObjectKey (srKey record));
  let action := actionFromEventName (srEventName record) in
  if String.eqb key "" || bool_decide (action = EventActionIgnore) then Ok None
  else
    eventTime ← wrap_err (Wrapf "parse s3 records notification: %w") (parseTime (srEventTime record));
    Ok (Some (mkNormalized (upstreamFromEventSource (srEventSource record)) action (srEventName record)
      (srEventSource record) (srBucketName record) (srBucketARN record) (srAWSRegion record)
      (deploymentIDFromResponseElements (srResponseElements record)) key (srETag record) (srSize record) eventTime ""
      (srVersionID record))).

Definition normalizedEventsFromS3Records (records : list s3Record) : result store_error (list NormalizedEvent) :=
  events ← mapM_result record_event records; Ok (omap (fun e => e) (events : list _)).

Definition records_of (message name : string) (j : json) : result store_error (list s3Record) :=
  decoded message (ms ← as_object j; records ← array_member name ms; mapM s3Record_of records).

Definition parseS3Records (j : json) : result store_error (list NormalizedEvent) :=
  records ← records_of "parse s3 records notification: %w" "Records" j; normalizedEventsFromS3Records records.

Definition as_rustfs (e : NormalizedEvent) : NormalizedEvent :=
  if String.eqb (neUpstream e) UpstreamAWS then
    mkNormalized UpstreamRustFS (neAction e) (neEventName e) (neEventSource e) (neBucketName e) (neBucketARN e) (neRegion e)
      (neDeploymentID e) (neKey e) (neETag e) (neSize e) (neEventTime e) (neEventID e) (neVersionID e)
  else e.

Definition parseLegacyRustFS (j : json) : result store_error (list NormalizedEvent) :=
  records ← records_of "parse legacy rustfs notification: %w" "records" j;
  events ← normalizedEventsFromS3Records records;
  Ok (map as_rustfs events).

(** ** Parse *)

(** The members of [message] that [parseSNSEnvelope] reads. *)
Definition sns_fields (j : json) : option (string * string) :=
  ms ← as_object j; type ← text_field "Type" ms; message ← text_field "Message" ms; Some (type, message).

Definition failure {A} (r : result store_error A) : result run_error A := wrap_err Failure r.

(** [Parse] on the tree of a notification. *)
Fixpoint parse_tree (fuel : nat) (j : json) : result run_error (list NormalizedEvent) :=
  match fuel with
  | O => Err OutOfFuel
  | S fuel =>
      match as_object j with
      | None => Err (Failure (Errorf "parse notification: %w"))
      | Some envelope =>
          let switch :=
            if hasKey envelope "Type" then
              match sns_fields j with
              | None => Err (Failure (Errorf "parse sns notification: %w"))
              | Some (type, message) =>
                  if String.eqb type "Notification" then
                    if String.eqb (TrimSpace message) "" then Err (Failure (Errorf "parse sns notification: empty message"))
                    else match unmarshal message with
                         | None => Err (Failure (Errorf "parse notification: %w"))
                         | Some j => parse_tree fuel j
                         end
                  else if bool_decide (type ∈ ["SubscriptionConfirmation"; "UnsubscribeConfirmation"]) then Ok []
                  else Err (Failure (Errorf "parse sns notification: unsupported type %q"))
              end
            else if hasKey envelope "detail-type" then failure (parseEventBridge j)
            else if hasKey envelope "events" then failure (parseB2 j)
            else if hasKey envelope "message" then failure (parseGCPPubSubPush j)
            else if hasKey envelope "action" && hasKey envelope "bucket" then failure (parseR2 j)
            else if hasKey envelope "Records" then failure (parseS3Records j)
            else if hasKey envelope "records" then failure (parseLegacyRustFS j)
            else Err (Failure (Errorf "parse notification: unsupported format")) in
          match get "body" envelope with
          | Some (JObject ms) =>
              if negb (hasKey envelope "Records") && negb (hasKey envelope "records") then parse_tree fuel (JObject ms)
              else switch
          | _ => switch
          end
      end
  end.

Definition Parse (body : string) : result run_error (list NormalizedEvent) :=
  match unmarshal body with
  | None => Err (Failure (Errorf "parse notification: %w"))
  | Some j => parse_tree (S (clen body)) j
  end.
End Records.

(** ** What Parse returns *)

(** An event that its consumer can act on. *)
Definition actionable (e : NormalizedEvent) : Prop := neKey e <> "" /\ neAction e <> EventActionIgnore.

(** The outcome of a parser that ends. *)
Definition ends_with (r : result run_error (list NormalizedEvent)) : Prop :=
  match r with Ok events => Forall actionable events | Err (Failure _) => True | Err OutOfFuel => False end.

Lemma ends_with_failure (r : result store_error (list NormalizedEvent)) :
  (forall events, r = Ok events -> Forall actionable events) -> ends_with (failure r).
Proof. destruct r as [events|e]; cbn; [auto|done]. Qed.

Lemma keep_event_ok (b : bool) e : (b = true -> actionable e) -> Forall actionable (keep_event b e).
Proof. destruct b; cbn; intros H; [constructor; auto|constructor]. Qed.

(** The test of the parsers that drop an event. *)
Lemma not_dropped key action :
  String.eqb key "" || bool_decide (action = EventActionIgnore) = false -> key <> "" /\ action <> EventActionIgnore.
Proof. rewrite orb_false_iff, bool_decide_eq_false. intros [H ?]. split; [by apply String.eqb_neq|done]. Qed.

Lemma parseEventBridge_ok j events : parseEventBridge j = Ok events -> Forall actionable events.
Proof.
  intros ([[[[[[[detailType time] region] bucket] key] size] etag] versionID] & _ & H)%bind_Ok.
  apply bind_Ok in H as (eventTime & _ & [= <-]). apply keep_event_ok. rewrite andb_true_iff, !negb_true_iff, bool_decide_eq_false.
  intros [Hk Ha]. split; [by apply String.eqb_neq|exact Ha].
Qed.

Lemma parseB2_ok j events : parseB2 j = Ok events -> Forall actionable events.
Proof.
  intros (items & _ & [= <-])%bind_Ok. apply list.Forall_forall. intros e (item & _ & He)%list_elem_of_omap.
  destruct item as [[[[[eventID timestamp] eventType] bucketName] objectName] objectSize]. cbn in He.
  destruct (_ || _) eqn:E; [done|]. injection He as <-. by apply not_dropped.
Qed.

Lemma parseGCP_ok j events : parseGCPPubSubPush j = Ok events -> Forall actionable events.
Proof.
  intros ([attributes data] & _ & H)%bind_Ok. revert H. cbv beta iota zeta. case_bool_decide as Ha; [intros [= <-]; constructor|].
  intros (time & _ & ([size etag] & _ & [= <-])%bind_Ok)%bind_Ok. apply keep_event_ok. rewrite negb_true_iff.
  intros Hk. split; [by apply String.eqb_neq|exact Ha].
Qed.

Lemma parseR2_ok j events : parseR2 j = Ok events -> Forall actionable events.
Proof.
  intros ([[[[[name bucket] time] key] size] etag] & _ & H)%bind_Ok. revert H. cbv beta iota zeta.
  destruct (_ || _) eqn:E; [intros [= <-]; constructor|]. intros (eventTime & _ & [= <-])%bind_Ok.
  constructor; [by apply not_dropped|constructor].
Qed.

Section Parsed.
Context `{MapOrder}.

Lemma records_ok records events : normalizedEventsFromS3Records records = Ok events -> Forall actionable events.
Proof.
  intros (found & Hf & [= <-])%bind_Ok. apply list.Forall_forall. intros e (o & Ho & ->)%list_elem_of_omap.
  apply mapM_result_Ok in Hf. apply list_elem_of_lookup in Ho as [i Ho].
  destruct (Forall2_lookup_r _ _ _ _ _ Hf Ho) as (record & _ & Hr).
  apply bind_Ok in Hr as (key & _ & Hr). cbv zeta in Hr. destruct (_ || _) eqn:E; [done|].
  apply bind_Ok in Hr as (time & _ & [= <-]). by apply not_dropped.
Qed.

Lemma parseS3Records_ok j events : parseS3Records j = Ok events -> Forall actionable events.
Proof. intros (records & _ & H')%bind_Ok. by eapply records_ok. Qed.

Lemma parseLegacyRustFS_ok j events : parseLegacyRustFS j = Ok events -> Forall actionable events.
Proof.
  intros (records & _ & (found & Hf & [= <-])%bind_Ok)%bind_Ok. apply records_ok in Hf. apply List.Forall_map.
  eapply list.Forall_impl; [exact Hf|]. intros e [? ?]. unfold as_rustfs. by destruct (String.eqb _ _).
Qed.

Lemma parse_tree_ends fuel : forall j, (weight j < fuel)%nat -> ends_with (parse_tree fuel j).
Proof.
  induction fuel as [|fuel IH]; intros j Hf; [lia|]. cbn [parse_tree].
  destruct (as_object j) as [envelope|] eqn:Ej; [|done].
  set (switch := if hasKey envelope "Type" then _ else _).
  assert (ends_with switch) as Hs.
  { subst switch. destruct (hasKey envelope "Type").
    { destruct (sns_fields j) as [[type message]|] eqn:Esns; [|done]. destruct (String.eqb type "Notification"); [|case_bool_decide; [constructor|done]].
      destruct (String.eqb (TrimSpace message) "") eqn:Eb; [done|]. destruct (unmarshal message) as [j'|] eqn:Eu; [|done].
      apply IH. apply unmarshal_weight in Eu. unfold sns_fields in Esns. rewrite Ej in Esns. cbn [mbind option_bind] in Esns.
      destruct (text_field "Type" envelope); [|done]. cbn [mbind option_bind] in Esns.
      destruct (text_field "Message" envelope) as [m|] eqn:Em; [|done]. injection Esns as _ ->. unfold text_field in Em.
      destruct (get_field "Message" envelope) as [jm|] eqn:Eg; [|by injection Em as <-].
      apply get_field_elem in Eg as [k Hk]. destruct jm; try done; [by injection Em as <-|]. injection Em as ->.
      destruct j; try done; [injection Ej as <-; by apply elem_of_nil in Hk|]. injection Ej as ->.
      apply weight_member in Hk. cbn [weight] in Hk, Hf. lia. }
    repeat match goal with |- ends_with (if ?b then _ else _) => destruct b end; try done; apply ends_with_failure;
      eauto using parseEventBridge_ok, parseB2_ok, parseGCP_ok, parseR2_ok, parseS3Records_ok, parseLegacyRustFS_ok. }
  destruct (get "body" envelope) as [[]|] eqn:Eb; try done. destruct (negb _ && negb _); [|done].
  apply IH. apply get_elem in Eb. destruct j; try done; [injection Ej as <-; by apply elem_of_nil in Eb|]. injection Ej as ->.
  apply weight_member in Eb. lia.
Qed.

(** Whatever a provider sends, [Parse] ends, with an error or with events that all
    name an object and an action. *)
Theorem Parse_ends body : ends_with (Parse body).
Proof.
unfold Parse. destruct (unmarshal body) as [j|] eqn:E; [|done]. apply unmarshal_weight in E.
apply parse_tree_ends. lia.
Qed.
End Parsed.
