(* ===== verification/ObjectStore.v ===== *)
(** * ObjectStore

    The objects table and the operations on it: packages/storage/object_core.go,
    object_repository.go, attribute_mutation.go, the paths of jsonb.go and the
    stream of job_spill.go.

    Not modelled: [Search], which runs the SQL that [Compiler] builds. *)
From S2P Require Import Prelude GoStrings GoFloat GoTime Ast SearchDefs JobPayload JobRuns ErrState Catalog.
From S2P Require Import AttributeCatalog.
Local Open Scope Z_scope.

(** ** Attribute paths (jsonb.go, object_core.go, attribute_mutation.go) *)

(** [NewJSONBPath]. *)
Definition JSONBPathValidate (p : list string) : result store_error unit :=
  match p with
  | [] => Err (Errorf "jsonb path is empty")
  | _ => guard_or (forallb (fun part => negb (String.eqb (TrimSpace part) "")) p)
           (Errorf "jsonb path segment %d is empty")
  end.

Definition asNestedAttributeMap (v : value) : option payload :=
  match v with VMap m => Some m | _ => None end.

Fixpoint value_at (current : value) (parts : list string) : option value :=
  match parts with
  | [] => Some current
  | part :: parts =>
      asMap ← asNestedAttributeMap current;
      next ← asMap !! part;
      value_at next parts
  end.

Definition attributeValue (attributes : payload) (path : string) : option value :=
  let parts := splitAttributePath path in
  if is_ok (JSONBPathValidate parts) then value_at (VMap attributes) parts else None.

Definition attributeString (attributes : payload) (path : string) : string :=
  match attributeValue attributes path with Some (VString text) => text | _ => "" end.

(** The assignment through the nested maps: a value that is not a map on the way is
    replaced by a new one. *)
Fixpoint set_at (m : payload) (part : string) (parts : list string) (v : value) : payload :=
  match parts with
  | [] => <[part := v]> m
  | next :: parts =>
      let child := default ∅ (m !! part ≫= asNestedAttributeMap) in
      <[part := VMap (set_at child next parts v)]> m
  end.

Definition setAttributeAtPath (attributes : payload) (path : string) (v : value) : result store_error payload :=
  match splitAttributePath path with
  | [] => Err (Errorf "set attribute path: path is empty")
  | part :: parts => Ok (set_at attributes part parts v)
  end.

(** [None]: a part on the way is missing, and nothing changes.  Maps left empty by
    the removal are removed in their turn. *)
Fixpoint delete_at (m : payload) (part : string) (parts : list string) : option payload :=
  match parts with
  | [] => Some (delete part m)
  | next :: parts =>
      child ← m !! part ≫= asNestedAttributeMap;
      child ← delete_at child next parts;
      Some (if Nat.eqb (size child) 0 then delete part m else <[part := VMap child]> m)
  end.

Definition deleteAttributeAtPath (attributes : payload) (path : string) : result store_error payload :=
  match splitAttributePath path with
  | [] => Err (Errorf "delete attribute path: path is empty")
  | part :: parts => Ok (default attributes (delete_at attributes part parts))
  end.

(** ** Core attributes (object_core.go) *)

Definition CoreNamespace : string := "core".

(** A round trip through [encoding/json]. *)
Definition cloneObjectAttributes (attributes : payload) : payload :=
  match encodeJobRunPayload attributes with
  | Some encoded => decodeJobRunPayload encoded
  | None => ∅
  end.

Definition injectCoreAttributes (attributes : payload) (objectID : string) (seenAt : Time) : payload :=
  let core := default ∅ (attributes !! CoreNamespace ≫= asNestedAttributeMap) in
  let seen := VString (FormatRFC3339NanoUTC seenAt) in
  let core := <["last_seen_at" := seen]> (<["object_id" := VString objectID]> core) in
  let core := match core !! "first_seen_at" with Some _ => core | None => <["first_seen_at" := seen]> core end in
  <[CoreNamespace := VMap core]> attributes.

Definition parseCoreTimestamp (v : option value) : result store_error Time :=
  match v with
  | Some (VString text) =>
      if String.eqb text "" then Ok zeroTime
      else match ParseRFC3339 text with
           | Some parsed => Ok (UTC parsed)
           | None => Err (Errorf "parsing time")
           end
  | _ => Ok zeroTime
  end.

Definition coreTimestamps (attributes : payload) : result store_error (Time * Time) :=
  match attributes !! CoreNamespace ≫= asNestedAttributeMap with
  | None => Ok (zeroTime, zeroTime)
  | Some core =>
      firstSeen ← wrap_err (Wrapf "parse core.first_seen_at: %w") (parseCoreTimestamp (core !! "first_seen_at"));
      lastSeen ← wrap_err (Wrapf "parse core.last_seen_at: %w") (parseCoreTimestamp (core !! "last_seen_at"));
      Ok (firstSeen, lastSeen)
  end.

(** ** Objects *)

Record Object := mkObject {
  oID : string;
  oBucketID : string;
  oKey : string;
  oAttributes : payload;
  oAttributeProvenance : gmap string string;
  oFirstSeenAt : Time;
  oLastSeenAt : Time;
  oCreatedAt : Z;
  oUpdatedAt : Z
}.

Definition scanObject (r : ObjectRow) : result store_error Object :=
  let attributes := decodeJobRunPayload (oattributes r) in
  '(firstSeenAt, lastSeenAt) ← coreTimestamps attributes;
  Ok (mkObject (oid r) (obucket_id r) (okey r) attributes (oattribute_provenance r)
        firstSeenAt lastSeenAt (ocreated_at r) (oupdated_at r)).

Definition scan_row (r : option ObjectRow) : result store_error Object :=
  match r with Some r => scanObject r | None => Err ErrNotFound end.

Definition GetObject (id : string) : M Catalog Object := fun c => of_result (scan_row (objects c !! id)) c.

Definition at_key (bucketID key : string) (r : ObjectRow) : bool :=
  String.eqb (obucket_id r) bucketID && String.eqb (okey r) key.

Definition GetObjectByBucketAndKey (bucketID key : string) : M Catalog Object := fun c =>
  of_result (scan_row (List.find (at_key bucketID key) (table_rows (objects c)))) c.

(** The loop over the rows of a query. *)
Definition scan_rows (l : list ObjectRow) : M Catalog (list Object) := of_result (mapM_result scanObject l).

(** No ORDER BY: the rows come in the order of the table. *)
Definition GetObjectsByBucketAndKeys (bucketID : string) (keys : list string) : M Catalog (list Object) :=
  if String.eqb bucketID "" then fail_with "get objects by bucket and keys: bucket id is required"
  else match keys with
  | [] => mret []
  | _ => fun c => scan_rows (List.filter
           (fun r => String.eqb (obucket_id r) bucketID && bool_decide (okey r ∈ keys))
           (table_rows (objects c))) c
  end.

Record ObjectScopeParams := mkScope { scopeBucketID : string; scopePrefix : string }.

Definition in_scope (scope : ObjectScopeParams) (r : ObjectRow) : bool :=
  (String.eqb (scopeBucketID scope) "" || String.eqb (obucket_id r) (scopeBucketID scope))
  && (String.eqb (scopePrefix scope) "" || HasPrefix (okey r) (scopePrefix scope)).

(** [ORDER BY bucket_id ASC, key ASC]. *)
Definition by_bucket_and_key `{Collation} (a b : ObjectRow) : bool :=
  collate (obucket_id a) (obucket_id b)
  || (String.eqb (obucket_id a) (obucket_id b) && collate (okey a) (okey b)).

(** [attributes #>> path]: NULL when the path is missing or null; [json_text] writes
    the values that are not strings. *)
Definition text_at (json_text : value -> string) (attributes : payload) (path : list string) : option string :=
  match value_at (VMap attributes) path with
  | None | Some VNil => None
  | Some (VString s) => Some s
  | Some v => Some (json_text v)
  end.

Record ListObjectsParams := mkListObjects {
  loBucketID : string;
  loPrefix : string;
  loContentType : string;
  loKeyContains : string;
  loLimit : Z;
  loOffset : Z
}.

(** [ilike text pattern] is the operator of the database. *)
Definition ListObjects `{Collation} (json_text : value -> string) (ilike : string -> string -> bool)
    (params : ListObjectsParams) : M Catalog (list Object) := fun c =>
  scan_rows (page_rows (loLimit params) (loOffset params) (select_rows (fun r =>
      in_scope (mkScope (loBucketID params) (loPrefix params)) r
      && (String.eqb (loContentType params) ""
          || bool_decide (text_at json_text (oattributes r) ["upstream"; "header"; "content_type"] = Some (loContentType params)))
      && (String.eqb (loKeyContains params) "" || ilike (okey r) ("%" +:+ loKeyContains params +:+ "%")))
    by_bucket_and_key (objects c))) c.

Definition scope_rows `{Collation} (scope : ObjectScopeParams) (c : Catalog) : list ObjectRow :=
  select_rows (in_scope scope) by_bucket_and_key (objects c).

(** The rows of a query and the error [rows.Err] reports after them. *)
Definition Rows : Type := list ObjectRow * option store_error.

(** The loop over the rows; [acc] are the variables of the callback [fn], which runs
    on the state of its caller. *)
Definition stream_rows {S B} (message : string) (rows : Rows) (fn : B -> Object -> M S B) (acc : B) : M S B :=
  acc ← for_acc (fun acc r => object ← of_result (scanObject r); fn acc object) acc rows.1;
  match rows.2 with
  | Some e => fail (Failure (Wrapf message e))
  | None => mret acc
  end.

Definition ListObjectsInScope `{Collation} (scope : ObjectScopeParams) : M Catalog (list Object) := fun c =>
  scan_rows (scope_rows scope c) c.

Definition CountObjectsInScope (scope : ObjectScopeParams) : M Catalog Z :=
  gets (fun c => count_rows (in_scope scope) (objects c)).

(** [run_query] runs the query on the part of the caller's state that holds the
    tables. *)
Definition StreamObjectsInScope `{Collation} {S B} (run_query : (Store -> list ObjectRow) -> M S Rows)
    (scope : ObjectScopeParams) (fn : B -> Object -> M S B) (acc : B) : M S B :=
  rows ← run_query (fun s => scope_rows scope (catalog s));
  stream_rows "stream objects in scope: %w" rows fn acc.

(** *** job_spill.go *)

Definition rows_missing_from_spill `{Collation} (jobRunID : string) (scope : ObjectScopeParams) (s : Store) :
    list ObjectRow :=
  select_rows (fun r => in_scope scope r && bool_decide ((jobRunID, okey r) ∉ job_spill (jobs s)))
    by_bucket_and_key (objects (catalog s)).

Definition StreamObjectsInScopeMissingFromSpill `{Collation} {S B} (run_query : (Store -> list ObjectRow) -> M S Rows)
    (jobRunID : string) (scope : ObjectScopeParams) (fn : B -> Object -> M S B) (acc : B) : M S B :=
  if String.eqb jobRunID "" then fail_with "stream objects missing from spill: job run id is required"
  else
    rows ← run_query (rows_missing_from_spill jobRunID scope);
    stream_rows "stream objects missing from spill: %w" rows fn acc.

(** ** Deleting *)

(** [DELETE FROM objects WHERE p]: the relations of the objects go with them. *)
Definition delete_objects (p : ObjectRow -> bool) (c : Catalog) : Catalog :=
  let left := delete_rows p (objects c) in
  set_relations (delete_rows (fun r =>
      negb (bool_decide (is_Some (left !! rSourceObjectID r)) && bool_decide (is_Some (left !! rTargetObjectID r))))
    (relations c)) (set_objects left c).

Definition DeleteObject (id : string) : M Catalog unit := fun c =>
  let p r := String.eqb (oid r) id in
  if count_rows p (objects c) =? 0 then (Err (Failure ErrNotFound), c)
  else (Ok tt, delete_objects p c).

Definition DeleteObjects (ids : list string) : M Catalog Z :=
  match ids with
  | [] => mret 0
  | _ => fun c =>
      let p r := bool_decide (oid r ∈ ids) in
      (Ok (count_rows p (objects c)), delete_objects p c)
  end.

(** [timestamptz text] is the cast of the database, [None] its error. *)
Definition DeleteObjectsNotSeenSince (json_text : value -> string) (timestamptz : string -> option Z)
    (bucketID prefix : string) (seenAt : Z) : M Catalog Z := fun c =>
  let mine r := String.eqb (obucket_id r) bucketID && (String.eqb prefix "" || HasPrefix (okey r) prefix) in
  let seen r := text_at json_text (oattributes r) [CoreNamespace; "last_seen_at"] in
  let invalid r := mine r && match seen r with Some t => negb (bool_decide (is_Some (timestamptz t))) | None => false end in
  let p r := mine r && match seen r ≫= timestamptz with Some t => t <? seenAt | None => false end in
  if 0 <? count_rows invalid (objects c) then (Err (Failure (Errorf "delete objects not seen since: %w")), c)
  else (Ok (count_rows p (objects c)), delete_objects p c).

(** ** Upserting *)

Record UpsertObjectParams := mkUpsert {
  uBucketID : string;
  uKey : string;
  uAttributes : payload;
  uAttributeProvenance : gmap string string;
  uSeenAt : option Time
}.

Record upsertObjectRow := mkUpsertRow {
  urID : string;
  urBucketID : string;
  urKey : string;
  urAttributes : payload;
  urProvenance : gmap string string
}.

Definition newObjectID (random : list Z) : string := "object_" +:+ hex_encode random.

Definition encodeObjectAttributes (attributes : payload) : result store_error payload :=
  match encodeJobRunPayload attributes with
  | Some encoded => Ok encoded
  | None => Err (Errorf "encode object attributes: %w")
  end.

(** [fresh index] is what [rand.Read] and [time.Now] return for the [index]-th row. *)
Definition encodeUpsertObjectRow (fresh : nat -> list Z * Time) (index : nat) (param : UpsertObjectParams) :
    result store_error upsertObjectRow :=
  let id := newObjectID (fresh index).1 in
  let seenAt := match uSeenAt param with Some t => UTC t | None => UTC (fresh index).2 end in
  attributes ← encodeObjectAttributes (injectCoreAttributes (cloneObjectAttributes (uAttributes param)) id seenAt);
  Ok (mkUpsertRow id (uBucketID param) (uKey param) attributes (uAttributeProvenance param)).

Fixpoint encodeUpsertObjectRows (fresh : nat -> list Z * Time) (index : nat) (params : list UpsertObjectParams) :
    result store_error (list upsertObjectRow) :=
  match params with
  | [] => Ok []
  | param :: params =>
      row ← encodeUpsertObjectRow fresh index param;
      rows ← encodeUpsertObjectRows fresh (S index) params;
      Ok (row :: rows)
  end.

Definition object_row_ok (bucketID key : string) : bool :=
  negb (blank bucketID) && negb (String.eqb key "").

Definition or_null (t : option string) : value := match t with Some s => VString s | None => VNil end.

(** The DO UPDATE of the statement. *)
Definition upsert_update (json_text : value -> string) (now : Z) (old : ObjectRow) (new : upsertObjectRow) : ObjectRow :=
  let first a := text_at json_text a [CoreNamespace; "first_seen_at"] in
  let core : payload :=
    <["object_id" := VString (oid old)]>
    (<["first_seen_at" := or_null (match first (oattributes old) with Some t => Some t | None => first (urAttributes new) end)]>
    {[ "last_seen_at" := or_null (text_at json_text (urAttributes new) [CoreNamespace; "last_seen_at"]) ]}) in
  mkObjectRow (oid old) (obucket_id old) (okey old)
    (jsonb_concat (jsonb_concat (oattributes old) (urAttributes new)) {[ CoreNamespace := VMap core ]})
    (urProvenance new ∪ oattribute_provenance old) (ocreated_at old) now.

(** One row of the INSERT; [done] are the keys this statement has written. *)
Definition upsert_row (json_text : value -> string) (now : Z) (written : list (string * string)) (new : upsertObjectRow)
    (c : Catalog) : result store_error (ObjectRow * Catalog) :=
  if negb (object_row_ok (urBucketID new) (urKey new)) then Err (Errorf "objects_key_not_empty")
  else
    match List.find (at_key (urBucketID new) (urKey new)) (table_rows (objects c)) with
    | Some old =>
        if bool_decide ((urBucketID new, urKey new) ∈ written)
        then Err (Errorf "ON CONFLICT DO UPDATE command cannot affect row a second time")
        else let r := upsert_update json_text now old new in
             Ok (r, set_objects (<[oid old := r]> (objects c)) c)
    | None =>
        if bool_decide (is_Some (objects c !! urID new)) then Err (Errorf "duplicate key value")
        else if negb (bool_decide (is_Some (buckets c !! urBucketID new))) then Err (Errorf "objects_bucket_id_fkey")
        else let r := mkObjectRow (urID new) (urBucketID new) (urKey new) (urAttributes new) (urProvenance new) now now in
             Ok (r, set_objects (<[urID new := r]> (objects c)) c)
    end.

Fixpoint upsert_rows (json_text : value -> string) (now : Z) (written : list (string * string))
    (rows : list upsertObjectRow) (c : Catalog) : result store_error (list ObjectRow * Catalog) :=
  match rows with
  | [] => Ok ([], c)
  | new :: rows =>
      '(r, c) ← upsert_row json_text now written new c;
      '(rs, c) ← upsert_rows json_text now ((urBucketID new, urKey new) :: written) rows c;
      Ok (r :: rs, c)
  end.

(** The statement: all the rows or none. *)
Definition upsert_statement (json_text : value -> string) (now : Z) (rows : list upsertObjectRow) :
    M Catalog (list ObjectRow) := fun c =>
  match upsert_rows json_text now [] rows c with
  | Ok (rs, c') => (Ok rs, c')
  | Err e => (Err (Failure (Wrapf "upsert objects: %w" e)), c)
  end.

Section Writes.
Context `{MapOrder} (json_text : value -> string).

Definition UpsertObjects (fresh : nat -> list Z * Time) (now : Z) (params : list UpsertObjectParams) :
    M Catalog (list Object) :=
  match params with
  | [] => mret []
  | _ =>
      rows ← of_result (encodeUpsertObjectRows fresh 0 params);
      rows ← upsert_statement json_text now rows;
      objects ← scan_rows rows;
      _ ← observeAttributeCatalog now (map uAttributes params);
      mret objects
  end.

Definition UpsertObject (fresh : nat -> list Z * Time) (now : Z) (param : UpsertObjectParams) : M Catalog Object :=
  objects ← UpsertObjects fresh now [param];
  match objects with
  | [] => fail (Failure ErrNotFound)
  | object :: _ => mret object
  end.

(** ** Mutating attributes (attribute_mutation.go) *)

Definition UserAttributePrefix : string := "user".

Record AttributeMutation := mkMutation {
  AllowedPrefix : string;
  Sets : gmap string value;
  Deletes : list string;
  Provenance : gmap string string
}.

Definition validateMutationPath (prefix path : string) : result store_error unit :=
  let path := TrimSpace path in
  if String.eqb path "" then Err (Errorf "mutate object attributes: path is required")
  else
    let requiredPrefix := prefix +:+ "." in
    if negb (HasPrefix path requiredPrefix) then Err (Errorf "mutate object attributes: path %q must start with %q")
    else
      let suffix := TrimPrefix path requiredPrefix in
      if String.eqb suffix "" || Contains suffix ".." then Err (Errorf "mutate object attributes: path %q is invalid")
      else Ok tt.

Definition validateMutationCatalogTypes (sets : gmap string value) : M Catalog unit :=
  for_each (fun e : string * value =>
    match inferCatalogValueType e.2 with
    | None => mret tt
    | Some typ =>
        entry ← Resolve e.1;
        match entry with
        | None => mret tt
        | Some entry =>
            match widenCatalogValueType (EntryType entry) typ with
            | Some _ => mret tt
            | None => fail (Failure (Wrapf "mutate object attributes path %q: %w" ErrCatalogTypeConflict))
            end
        end
    end) (range_map 4 sets).

(** [UPDATE objects SET ... WHERE id = $1 RETURNING ...]. *)
Definition update_attributes (now : Z) (id : string) (attributes : payload) (provenance : gmap string string) :
    M Catalog Object := fun c =>
  match objects c !! id with
  | None => (Err (Failure ErrNotFound), c)
  | Some r =>
      let r := mkObjectRow (oid r) (obucket_id r) (okey r) attributes provenance (ocreated_at r) now in
      of_result (scanObject r) (set_objects (<[id := r]> (objects c)) c)
  end.

Definition wrapped {A} (message : string) (m : M Catalog A) : M Catalog A := fun c =>
  match m c with
  | (Err (Failure e), c) => (Err (Failure (Wrapf message e)), c)
  | r => r
  end.

(** The attributes and the provenance after the mutation. *)
Definition mutated_attributes (attributes : payload) (mutation : AttributeMutation) : result store_error payload :=
  attributes ← foldM_result (fun attributes e => wrap_err (Wrapf "mutate object attributes: %w")
    (setAttributeAtPath attributes e.1 e.2)) attributes (range_map 5 (Sets mutation));
  foldM_result (fun attributes path => wrap_err (Wrapf "mutate object attributes: %w")
    (deleteAttributeAtPath attributes path)) attributes (Deletes mutation).

Definition mutated_provenance (provenance : gmap string string) (mutation : AttributeMutation) : gmap string string :=
  fold_left (fun provenance path => delete path provenance) (Deletes mutation) (Provenance mutation ∪ provenance).

Definition MutateObjectAttributes (now : Z) (objectID : string) (mutation : AttributeMutation) : M Catalog Object :=
  object ← GetObject objectID;
  let prefix := if String.eqb (AllowedPrefix mutation) "" then UserAttributePrefix else AllowedPrefix mutation in
  _ ← of_result (mapM_result (validateMutationPath prefix) (range_map 3 (Sets mutation)).*1);
  _ ← of_result (mapM_result (validateMutationPath prefix) (Deletes mutation));
  _ ← validateMutationCatalogTypes (Sets mutation);
  attributes ← of_result (mutated_attributes (cloneObjectAttributes (oAttributes object)) mutation);
  encodedAttributes ← of_result (encodeObjectAttributes attributes);
  updated ← wrapped "mutate object attributes: %w"
    (update_attributes now objectID encodedAttributes (mutated_provenance (oAttributeProvenance object) mutation));
  _ ← observeAttributeCatalog now [attributes];
  mret updated.
End Writes.
