(* ===== verification/Collections.v ===== *)
(** * Collections

    Saved queries and the execution of queries: packages/storage/collection_repository.go,
    collection_query.go, search_validate.go, search_execute.go, the [Search] of
    object_repository.go and migration 000011.  The database runs a compiled statement:
    [run_sql] is a parameter.  Of the users table only the identifiers matter here. *)
From S2P Require Import Prelude GoStrings Ast SearchDefs Lexer Parser Binder Compiler GoJson QueryJson JobPayload JobRuns ErrState.
From S2P Require Import Catalog AttributeCatalog ObjectStore Settings Users Request.
Local Open Scope Z_scope.

Definition CollectionStatusValidEnum : string := "valid".
Definition CollectionStatusInvalidEnum : string := "invalid".

Record searchDependency := mkSearchDependency { sdKind : string; sdName : string; sdType : string }.

Record CollectionRow := mkCollectionRow {
  coID : string; coName : string; coDescription : string; coQueryText : string; coQueryAST : json; coQueryVersion : string;
  coDependencies : list searchDependency; coStatus : string; coOwnerUserID : option string; coCreatedByType : option string;
  coCreatedByID : option string; coCreatedByName : option string; coCreatedByRunID : option string; coCreatedAt : Z; coUpdatedAt : Z
}.
Record Collection := mkCollection {
  clID : string; clName : string; clDescription : string; clQueryText : string; clQueryAST : json; clQueryVersion : string;
  clDependencies : list searchDependency; clStatus : string; clOwnerUserID : string; clCreatedByType : string;
  clCreatedByID : string; clCreatedByName : string; clCreatedByRunID : string; clCreatedAt : Z; clUpdatedAt : Z
}.

(** The tables behind the API. *)
Record ApiTables := mkApi {
  apiStore : Store; apiSettings : gmap string Setting; apiCollections : gmap string CollectionRow; apiUserIDs : gset string
}.
Definition set_api_store v t := mkApi v (apiSettings t) (apiCollections t) (apiUserIDs t).
Definition set_api_settings v t := mkApi (apiStore t) v (apiCollections t) (apiUserIDs t).
Definition set_api_collections v t := mkApi (apiStore t) (apiSettings t) v (apiUserIDs t).

Definition on_api_store {A} (m : M Store A) : M ApiTables A := fun t =>
  match m (apiStore t) with (r, s) => (r, set_api_store s t) end.
Definition on_api_catalog {A} (m : M Catalog A) : M ApiTables A := on_api_store (on_catalog m).
Definition on_api_jobs {A} (m : DB A) : M ApiTables A := on_api_store (on_jobs m).
Definition on_api_settings {A} (m : M (gmap string Setting) A) : M ApiTables A := fun t =>
  match m (apiSettings t) with (r, s) => (r, set_api_settings s t) end.

Record CreateCollectionParams := mkCreateCollection {
  ccName : string; ccDescription : string; ccQueryText : string; ccQueryAST : json; ccQueryVersion : string;
  ccDependencies : list searchDependency; ccStatus : string; ccOwnerUserID : string; ccCreatedByType : string; ccCreatedByID : string;
  ccCreatedByName : string; ccCreatedByRunID : string
}.
Record UpdateCollectionParams := mkUpdateCollection {
  ucID : string; ucName : option string; ucDescription : option string; ucQueryText : option string; ucQueryAST : json;
  ucQueryVersion : option string; ucDependencies : list searchDependency; ucStatus : option string; ucOwnerUserID : option string;
  ucCreatedByType : option string; ucCreatedByID : option string; ucCreatedByName : option string; ucCreatedByRunID : option string;
  ucUpdateQuery : bool
}.

Definition newCollectionID (random : list Z) : string := "collection_" +:+ hex_encode random.

Definition DependencyKind_string (k : DependencyKind) : string :=
  match k with
  | DependencyTarget => "target" | DependencyField => "field" | DependencyAttribute => "attribute"
  | DependencyRelation => "relation" | DependencyBucket => "bucket"
  end.
Definition DependenciesFromSearch (dependencies : list Dependency) : list searchDependency :=
  map (fun d => mkSearchDependency (DependencyKind_string (dKind d)) (dName d) (ValueType_string (Binder.dType d))) dependencies.

(** The row as Go reads it: a NULL text is empty. *)
Definition scanCollection (r : CollectionRow) : Collection :=
  mkCollection (coID r) (coName r) (coDescription r) (coQueryText r) (coQueryAST r) (coQueryVersion r) (coDependencies r) (coStatus r)
    (default "" (coOwnerUserID r)) (default "" (coCreatedByType r)) (default "" (coCreatedByID r)) (default "" (coCreatedByName r))
    (default "" (coCreatedByRunID r)) (coCreatedAt r) (coUpdatedAt r).

(** The checks of the table and its foreign key. *)
Definition collection_row_ok (r : CollectionRow) : bool :=
  negb (blank (coName r)) && negb (blank (coQueryText r))
  && (String.eqb (coStatus r) CollectionStatusValidEnum || String.eqb (coStatus r) CollectionStatusInvalidEnum).
Definition owner_exists (r : CollectionRow) (t : ApiTables) : bool :=
  match coOwnerUserID r with None => true | Some owner => bool_decide (owner ∈ apiUserIDs t) end.

Definition write_collection (r : CollectionRow) : M ApiTables Collection := fun t =>
  let error e := (Err (Failure (Wrapf "scan collection: %w" (Errorf e))), t) in
  if negb (collection_row_ok r) then error "violates check constraint"
  else if negb (owner_exists r t) then error "violates foreign key constraint"
  else (Ok (scanCollection r), set_api_collections (<[coID r := r]> (apiCollections t)) t).

Definition created_collection (random : list Z) (now : Z) (params : CreateCollectionParams) : CollectionRow :=
  let status := if String.eqb (ccStatus params) "" then CollectionStatusValidEnum else ccStatus params in
  mkCollectionRow (newCollectionID random) (ccName params) (ccDescription params) (ccQueryText params) (ccQueryAST params)
    (ccQueryVersion params) (ccDependencies params) status (nullif_empty (ccOwnerUserID params)) (nullif_empty (ccCreatedByType params))
    (nullif_empty (ccCreatedByID params)) (nullif_empty (ccCreatedByName params)) (nullif_empty (ccCreatedByRunID params)) now now.

Definition insert_collection (r : CollectionRow) : M ApiTables Collection := fun t =>
  if bool_decide (is_Some (apiCollections t !! coID r)) then (Err (Failure (Wrapf "scan collection: %w" (Errorf "duplicate key value"))), t)
  else write_collection r t.

Definition GetCollection (id : string) : M ApiTables Collection := fun t =>
  (match apiCollections t !! id with Some r => Ok (scanCollection r) | None => Err (Failure ErrNotFound) end, t).

(** [ORDER BY name ASC, created_at ASC]. *)
Definition ListCollections `{Collation} (limit offset : Z) : M ApiTables (list Collection) :=
  gets (fun t => map scanCollection (page_rows limit offset (select_rows (fun _ => true)
    (fun a b => collate (coName a) (coName b) || (negb (collate (coName b) (coName a)) && (coCreatedAt a <? coCreatedAt b)))
    (apiCollections t)))).

Definition DeleteCollection (id : string) : M ApiTables unit := fun t =>
  match apiCollections t !! id with
  | None => (Err (Failure ErrNotFound), t)
  | Some _ => (Ok tt, set_api_collections (delete id (apiCollections t)) t)
  end.

(** The row that [UpdateCollection] writes over [old], from the columns it read. *)
Definition updated_collection (now : Z) (params : UpdateCollectionParams) (current : Collection) (old : CollectionRow)
  : result store_error CollectionRow :=
  query ← (if ucUpdateQuery params then
             match ucQueryText params with
             | None => Err (Errorf "update collection query: query text is required")
             | Some text => Ok (text, ucQueryAST params, default (clQueryVersion current) (ucQueryVersion params), ucDependencies params,
                                default (clStatus current) (ucStatus params))
             end
           else Ok (clQueryText current, clQueryAST current, clQueryVersion current, clDependencies current, clStatus current));
  let '(queryText, queryAST, queryVersion, dependencies, status) := query in
  Ok (mkCollectionRow (coID old) (default (clName current) (ucName params)) (default (clDescription current) (ucDescription params))
    queryText queryAST queryVersion dependencies status
    (nullif_empty (default (clOwnerUserID current) (ucOwnerUserID params)))
    (nullif_empty (default (clCreatedByType current) (ucCreatedByType params)))
    (nullif_empty (default (clCreatedByID current) (ucCreatedByID params)))
    (nullif_empty (default (clCreatedByName current) (ucCreatedByName params)))
    (nullif_empty (default (clCreatedByRunID current) (ucCreatedByRunID params))) (coCreatedAt old) now).

(** The checks of [UpdateCollection] between its two statements. *)
Definition update_allowed (params : UpdateCollectionParams) : result store_error unit :=
  if ucUpdateQuery params && negb (bool_decide (is_Some (ucQueryText params)))
  then Err (Errorf "update collection query: query text is required") else Ok tt.

Section Statements.
Context `{Collation} (E : Surroundings ApiTables).
Notation Req := (M (Server ApiTables)).

Definition CreateCollection (params : CreateCollectionParams) : Req Collection :=
  random ← read_random E 16;
  statement E (fun n => insert_collection (created_collection random (db_time E n) params)).

Definition UpdateCollection (params : UpdateCollectionParams) : Req Collection :=
  current ← statement E (fun _ => GetCollection (ucID params));
  _ ← of_result (update_allowed params);
  statement E (fun n t =>
    match apiCollections t !! ucID params with
    | None => (Err (Failure ErrNotFound), t)
    | Some old =>
        match updated_collection (db_time E n) params current old with
        | Ok r => write_collection r t
        | Err e => (Err (Failure e), t)
        end
    end).

(** ** search_validate.go *)

(** What the caller can tell apart with [IsValidationError]. *)
Inductive query_error := InvalidSyntax (e : perror) | InvalidBinding (e : bind_error) | QueryFailed (e : run_error).
Definition IsValidationError (e : query_error) : bool := match e with QueryFailed _ => false | _ => true end.
Notation Q A := (Req (result query_error A)).

Definition BuildSearchRegistry : Req StaticRegistry :=
  entries ← statement E (fun _ => on_api_catalog ListEntries);
  mret (NewStaticRegistry BuiltinTargetDefinitions (map (fun entry => mkAttr (Path entry) (EntryType entry)) entries)).

Definition bindPithosysQL (query : Query) : Q BoundQuery :=
  registry ← attempted BuildSearchRegistry;
  mret (match registry with
        | Err e => Err (QueryFailed e)
        | Ok registry => wrap_err InvalidBinding (Bind query (Some registry))
        end).

Definition ValidatePithosysQL (text : string) : Q BoundQuery :=
  match Parse text with
  | Err e => mret (Err (InvalidSyntax e))
  | Ok query => bindPithosysQL query
  end.

(** ** collection_query.go *)

Record PreparedCollectionQuery := mkPrepared {
  pqAST : json; pqQueryVersion : string; pqDependencies : list Dependency; pqStatus : string
}.

Definition prepared_of (bound : BoundQuery) : result query_error PreparedCollectionQuery :=
  match MarshalQuery (bQuery bound) with
  | Err _ => Err (QueryFailed (Failure (Errorf "prepare collection query: %w")))
  | Ok ast => Ok (mkPrepared ast (Version (bQuery bound)) (bDependencies bound) CollectionStatusValidEnum)
  end.

Definition PrepareCollectionQuery (queryText : string) : Q PreparedCollectionQuery :=
  bound ← ValidatePithosysQL queryText;
  mret (bound ← bound; prepared_of bound).

(** ** Execution *)

Definition MaxSearchResults : Z := 1000.

Definition limited (bound : BoundQuery) : BoundQuery :=
  match Limit (bQuery bound) with
  | Some limit => if MaxSearchResults <? limit then
      mkBound (mkQuery (Version (bQuery bound)) (From (bQuery bound)) (Where (bQuery bound)) (OrderBy (bQuery bound)) (Some MaxSearchResults)
                 (Offset (bQuery bound))) (bDependencies bound)
      else bound
  | None => mkBound (mkQuery (Version (bQuery bound)) (From (bQuery bound)) (Where (bQuery bound)) (OrderBy (bQuery bound)) (Some MaxSearchResults)
              (Offset (bQuery bound))) (bDependencies bound)
  end.

(** The database, running a statement on the objects. *)
Context (run_sql : string -> list SqlArg -> Catalog -> result store_error (list ObjectRow)).

Definition Search (bound : BoundQuery) (scope : SearchScope) : Req (list Object) :=
  match CompileObjectsSearch (limited bound) scope with
  | Err _ => fail_with "search objects: %w"
  | Ok compiled =>
      statement E (fun _ => on_api_catalog (fun c =>
        match run_sql (SQL compiled) (Args compiled) c with
        | Err e => (Err (Failure (Wrapf "search objects: %w" e)), c)
        | Ok rows => scan_rows rows c
        end))
  end.

Definition SearchPithosysQL (text : string) (scope : SearchScope) : Q (list Object) :=
  match Parse text with
  | Err e => mret (Err (InvalidSyntax e))
  | Ok query =>
      bound ← bindPithosysQL query;
      match bound with
      | Err e => mret (Err e)
      | Ok bound => found ← attempted (Search bound scope); mret (wrap_err QueryFailed found)
      end
  end.
End Statements.

(** ** A search returns no more than its limit *)

Lemma limited_limit bound : exists limit, Limit (bQuery (limited bound)) = Some limit /\ limit <= MaxSearchResults.
Proof.
  unfold limited. destruct (Limit (bQuery bound)) as [limit|] eqn:Hl.
  - destruct (MaxSearchResults <? limit) eqn:E; cbn; [exists MaxSearchResults; by split|]. exists limit. split; [done|lia].
  - exists MaxSearchResults. by split.
Qed.

(** A statement that ends in a limit whose argument is [limit]. *)
Definition ends_in_limit (compiled : CompiledQuery) (limit : Z) : Prop :=
  exists body n offset, SQL compiled = body +:+ "
LIMIT $" +:+ itoa (Z.of_nat n) +:+ offset /\ Args compiled !! (n - 1)%nat = Some (ArgInt limit) /\ (0 < n)%nat.

Lemma compiler_bind_Ok {A B} (m : C A) (f : A -> C B) args r : (m ≫= f) args = Ok r -> exists a args', m args = Ok (a, args') /\ f a args' = Ok r.
Proof. unfold mbind, C_bind. destruct (m args) as [[a args']|e]; [|done]. intros Hr. by exists a, args'. Qed.

Lemma compileBound_args keyword o args sql args' : compileBound keyword o args = Ok (sql, args') -> exists more, args' = args ++ more.
Proof. destruct o as [n|]; intros [= <- <-]; [by eexists|]. exists []. by rewrite app_nil_r. Qed.

Lemma compiled_limit bound scope compiled limit :
  CompileObjectsSearch bound scope = Ok compiled -> Limit (bQuery bound) = Some limit -> ends_in_limit compiled limit.
Proof.
  unfold CompileObjectsSearch. intros Hc Hl. destruct (negb _); [done|]. cbv zeta in Hc. rewrite Hl in Hc.
  lazymatch type of Hc with (?m [] ≫= _) = _ => destruct (m []) as [[sql args]|] eqn:Hm; [|done] end. injection Hc as <-.
  apply compiler_bind_Ok in Hm as (whereParts & a1 & _ & Hm). apply compiler_bind_Ok in Hm as (orderTerms & a2 & _ & Hm).
  apply compiler_bind_Ok in Hm as (l & a3 & Hlim & Hm). apply compiler_bind_Ok in Hm as (o & a4 & Hoff & [= <- <-]).
  apply compileBound_args in Hoff as [more ->]. injection Hlim as <- <-.
  set (body := TrimSpace objectsSearchSelectSQL). set (w := match whereParts with [] => _ | _ => _ end). set (t := match orderTerms with [] => _ | _ => _ end).
  exists (body +:+ w +:+ t), (List.length a2 + 1)%nat, o. cbn [SQL Args]. split; [|split; [|lia]].
  - by rewrite !string_app_assoc.
  - rewrite Nat.add_sub, lookup_app_l by (rewrite length_app; cbn; lia). by rewrite list_lookup_middle.
Qed.

(** What the documentation of the database says of LIMIT. *)
Definition honours_limit (run_sql : string -> list SqlArg -> Catalog -> result store_error (list ObjectRow)) : Prop :=
  forall compiled limit c rows, ends_in_limit compiled limit -> run_sql (SQL compiled) (Args compiled) c = Ok rows ->
    (List.length rows <= Z.to_nat limit)%nat.

Lemma mapM_result_length {E A B} (f : A -> result E B) l : forall l', mapM_result f l = Ok l' -> List.length l' = List.length l.
Proof.
  induction l as [|x l IH]; cbn; [by intros l' [= <-]|]. intros l'. destruct (f x); [|done]. cbn.
  destruct (mapM_result f l) as [ys|]; [|done]. cbn. intros [= <-]. cbn. by rewrite (IH ys).
Qed.

(** Whatever limit a query asks for, or none, a search returns at most MaxSearchResults objects, in any surroundings. *)
Theorem search_bounded (E : Surroundings ApiTables) run_sql bound scope w found w' :
  honours_limit run_sql -> Search E run_sql bound scope w = (Ok found, w') -> (List.length found <= Z.to_nat MaxSearchResults)%nat.
Proof.
  intros Hdb. unfold Search. destruct (CompileObjectsSearch (limited bound) scope) as [compiled|] eqn:Hc; [|done].
  destruct (limited_limit bound) as (limit & Hl & Hle). pose proof (compiled_limit _ _ _ _ Hc Hl) as He.
  unfold statement. set (c := meanwhile E (ticks w) (data w)).
  destruct (failing E (ticks w)) as [[e|e]|]; [done..|]. unfold on_api_catalog, on_api_store, on_catalog.
  destruct (run_sql (SQL compiled) (Args compiled) (catalog (apiStore c))) as [rows|] eqn:Hr; [|done].
  unfold scan_rows, of_result. destruct (mapM_result scanObject rows) as [objects|] eqn:Ho; [|done]. intros [= <- <-].
  rewrite (mapM_result_length _ _ _ Ho). specialize (Hdb _ _ _ _ He Hr). lia.
Qed.

(** ** A database that honours limits *)

Definition least_int (args : list SqlArg) : nat :=
  fold_right (fun a m => match a with ArgInt z => Nat.min (Z.to_nat z) m | _ => m end) 5000%nat args.
Definition demo_sql (sql : string) (args : list SqlArg) (c : Catalog) : result store_error (list ObjectRow) :=
  Ok (firstn (least_int args) (map snd (map_to_list (objects c)))).

Lemma least_int_le args limit n : args !! n = Some (ArgInt limit) -> (least_int args <= Z.to_nat limit)%nat.
Proof.
  revert n. induction args as [|a args IH]; [done|]. intros [|n]; cbn; fold (least_int args).
  - intros [= ->]. lia.
  - intros Hn. specialize (IH n Hn). destruct a; lia.
Qed.
Lemma demo_sql_honours_limit : honours_limit demo_sql.
Proof.
  intros compiled limit c rows (body & n & offset & _ & Hn & _) [= <-]. pose proof (least_int_le _ _ _ Hn).
  rewrite length_firstn. lia.
Qed.

Definition calm_api : Surroundings ApiTables :=
  mkSurroundings (fun _ t => t) (fun _ => None) (fun n => Z.of_nat n) (fun n => GoTime.mkTime (Z.of_nat n) 0 0) (fun n count => repeat (Z.of_nat n) count).
Definition demo_object (id key : string) : ObjectRow := mkObjectRow id "b1" key ∅ ∅ 0 0.
Definition demo_api : ApiTables :=
  mkApi (mkStore (mkDB ∅ ∅) (set_objects (list_to_map [("o1", demo_object "o1" "a"); ("o2", demo_object "o2" "b")]) empty_catalog)) ∅ ∅ {["u1"]}.
Definition demo_bound : BoundQuery :=
  mkBound (mkQuery VersionV1 TargetObjects (Comparison Val OpEq (FieldRef "key") (StringLiteral "a")) [] (Some 1) None) [].

Lemma search_bounded_witness :
  exists o w', Search calm_api demo_sql demo_bound (Compiler.mkScope "b1") (mkServer 0 demo_api) = (Ok [o], w') /\ (1 <= Z.to_nat MaxSearchResults)%nat.
Proof.
  eexists _, _. match goal with |- ?eq /\ _ => assert eq as Hs by (vm_compute; reflexivity) end. split; [exact Hs|].
  exact (search_bounded calm_api demo_sql demo_bound (Compiler.mkScope "b1") (mkServer 0 demo_api) _ _ demo_sql_honours_limit Hs).
Defined.
