(* ===== verification/CollectionsHttp.v ===== *)
(** * CollectionsHttp

    The routes of the collections and of search:
    apps/api/internal/httpserver/collections/routes.go and search/routes.go.  The bodies of
    the requests are given decoded, with what huma requires of them.  The text of an error
    of a query is a parameter. *)
From S2P Require Import Prelude GoStrings Ast SearchDefs Lexer Parser Binder Compiler GoJson QueryJson JobPayload JobRuns ErrState.
From S2P Require Import Catalog AttributeCatalog ObjectStore Relations Settings Users Auth Request Http Collections.
Local Open Scope Z_scope.

Record ObjectResponse := mkObjectResponse {
  orID : string; orBucketID : string; orKey : string; orAttributes : payload; orAttributeProvenance : gmap string string;
  orFirstSeenAt : GoTime.Time; orLastSeenAt : GoTime.Time; orCreatedAt : Z; orUpdatedAt : Z
}.
Definition ObjectResponseFromStorage (object : Object) : ObjectResponse :=
  mkObjectResponse (oID object) (oBucketID object) (oKey object) (oAttributes object) (oAttributeProvenance object)
    (oFirstSeenAt object) (oLastSeenAt object) (oCreatedAt object) (oUpdatedAt object).

Record DependencyResponse := mkDependencyResponse { drKind : string; drName : string; drType : string }.

Record collectionResponse := mkCollectionResponse {
  crpID : string; crpName : string; crpDescription : string; crpQuery : string; crpQueryVersion : string;
  crpDependencies : list DependencyResponse; crpStatus : string; crpOwnerUserID : string; crpCreatedByType : string;
  crpCreatedByID : string; crpCreatedAt : Z; crpUpdatedAt : Z
}.
Definition collectionResponseFromStorage (collection : Collection) : collectionResponse :=
  mkCollectionResponse (clID collection) (clName collection) (clDescription collection) (clQueryText collection) (clQueryVersion collection)
    (map (fun d => mkDependencyResponse (sdKind d) (sdName d) (sdType d)) (clDependencies collection))
    (clStatus collection) (clOwnerUserID collection) (clCreatedByType collection) (clCreatedByID collection)
    (clCreatedAt collection) (clUpdatedAt collection).

Definition dependencyResponsesFromBound (bound : BoundQuery) : list DependencyResponse :=
  map (fun d => mkDependencyResponse (DependencyKind_string (dKind d)) (dName d) (ValueType_string (Binder.dType d))) (bDependencies bound).

Record createCollectionBody := mkCreateBody { cbName : string; cbDescription : string; cbQuery : string }.
Record updateCollectionBody := mkUpdateBody { ubName : option string; ubDescription : option string; ubQuery : option string }.
Record validateSearchBody := mkValidateBody { vbQuery : string; vbQueryVersion : string; vbFrom : string; vbDependencies : list DependencyResponse }.
Record attributeResponse := mkAttributeResponse { arPath : string; arType : string; arSource : string }.

Section Handlers.
Context `{Collation} (E : Surroundings ApiTables) (configured : bool) (Error : query_error -> string).
Context (run_sql : string -> list SqlArg -> Catalog -> result store_error (list ObjectRow)).
Notation served := (handler (Server ApiTables)).

(** [if search.IsValidationError(err) { return nil, 400 }] and then [failed]. *)
Definition query_answer {A} (failed : Problem) (m : M (Server ApiTables) (result query_error A)) : served A :=
  bind_answer (or_problem internal m) (fun r =>
  match r with
  | Ok a => respond a
  | Err e => refuse (if IsValidationError e then BadRequest (Error e) else failed)
  end).
Definition unexpected : Problem := InternalServerError "unexpected error occurred".
Definition internal_server_error : Problem := InternalServerError "Internal server error.".
Definition collections_unconfigured : string := "collection dependencies are not configured".
Definition search_unconfigured : string := "search dependencies are not configured".

Definition handle_list_collections (limit offset : Z) : served (list collectionResponse) :=
  with_storage configured collections_unconfigured
    (bind_answer (or_problem internal (statement E (fun _ => ListCollections limit offset))) (fun collections =>
     respond (map collectionResponseFromStorage collections))).

Definition handle_create_collection (context : option Principal) (input : createCollectionBody) : served collectionResponse :=
  with_storage configured collections_unconfigured
    (bind_answer (RequireAdminContext context) (fun principal =>
     let name := TrimSpace (cbName input) in
     if String.eqb name "" then refuse (BadRequest "name is required")
     else
       let queryText := TrimSpace (cbQuery input) in
       if String.eqb queryText "" then refuse (BadRequest "query is required")
       else
         bind_answer (query_answer unexpected (PrepareCollectionQuery E queryText)) (fun prepared =>
         bind_answer (or_problem internal (CreateCollection E
           (mkCreateCollection name (TrimSpace (cbDescription input)) queryText (pqAST prepared) (pqQueryVersion prepared)
              (DependenciesFromSearch (pqDependencies prepared)) CollectionStatusValidEnum (pID principal) "user" (pID principal) "" ""))) (fun collection =>
         respond (collectionResponseFromStorage collection))))).

Definition collection_problem : run_error -> Problem := not_found_or_internal "collection not found".

Definition handle_get_collection (id : string) : served collectionResponse :=
  with_storage configured collections_unconfigured
    (bind_answer (or_problem collection_problem (statement E (fun _ => GetCollection id))) (fun collection =>
     respond (collectionResponseFromStorage collection))).

(** The members of the body that are there, trimmed; the name must not be empty. *)
Definition updated_name (name : option string) : answer (option string) :=
  match name with
  | None => Ok None
  | Some name => if String.eqb (TrimSpace name) "" then Err (BadRequest "name cannot be empty") else Ok (Some (TrimSpace name))
  end.
Definition prepared_query (query : option string) : served (option (string * PreparedCollectionQuery)) :=
  match query with
  | None => respond None
  | Some query =>
      let queryText := TrimSpace query in
      if String.eqb queryText "" then refuse (BadRequest "query cannot be empty")
      else bind_answer (query_answer unexpected (PrepareCollectionQuery E queryText)) (fun prepared => respond (Some (queryText, prepared)))
  end.
Definition update_params (id : string) (name description : option string) (query : option (string * PreparedCollectionQuery)) : UpdateCollectionParams :=
  match query with
  | None => mkUpdateCollection id name description None JNull None [] None None None None None None false
  | Some (queryText, prepared) =>
      mkUpdateCollection id name description (Some queryText) (pqAST prepared) (Some (pqQueryVersion prepared))
        (DependenciesFromSearch (pqDependencies prepared)) (Some CollectionStatusValidEnum) None None None None None true
  end.

Definition handle_update_collection (context : option Principal) (id : string) (input : updateCollectionBody) : served collectionResponse :=
  with_storage configured collections_unconfigured
    (bind_answer (RequireAdminContext context) (fun _ =>
     bind_answer (of_answer (updated_name (ubName input))) (fun name =>
     bind_answer (prepared_query (ubQuery input)) (fun query =>
     bind_answer (or_problem collection_problem (UpdateCollection E (update_params id name (TrimSpace <$> ubDescription input) query))) (fun collection =>
     respond (collectionResponseFromStorage collection)))))).

Definition handle_delete_collection (context : option Principal) (id : string) : served unit :=
  with_storage configured collections_unconfigured
    (bind_answer (RequireAdminContext context) (fun _ => or_problem collection_problem (statement E (fun _ => DeleteCollection id)))).

Definition handle_collection_objects (id : string) : served (list ObjectResponse) :=
  with_storage configured collections_unconfigured
    (bind_answer (or_problem collection_problem (statement E (fun _ => GetCollection id))) (fun collection =>
     bind_answer (query_answer unexpected (SearchPithosysQL E run_sql (clQueryText collection) (Compiler.mkScope ""))) (fun results =>
     respond (map ObjectResponseFromStorage results)))).

(** ** search/routes.go *)

Definition handle_search (query bucketID : string) : served (list ObjectResponse) :=
  with_storage configured search_unconfigured
    (let queryText := TrimSpace query in
     if String.eqb queryText "" then refuse (BadRequest "query is required")
     else bind_answer (query_answer internal_server_error (SearchPithosysQL E run_sql queryText (Compiler.mkScope (TrimSpace bucketID)))) (fun results =>
          respond (map ObjectResponseFromStorage results))).

Definition handle_validate (query : string) : served validateSearchBody :=
  with_storage configured search_unconfigured
    (let queryText := TrimSpace query in
     if String.eqb queryText "" then refuse (BadRequest "query is required")
     else bind_answer (query_answer internal_server_error (ValidatePithosysQL E queryText)) (fun bound =>
          respond (mkValidateBody queryText (Version (bQuery bound)) (Target_string (From (bQuery bound))) (dependencyResponsesFromBound bound)))).

Definition handle_search_attributes : served (list attributeResponse) :=
  with_storage configured search_unconfigured
    (bind_answer (or_problem (fun _ => internal_server_error) (statement E (fun _ => on_api_catalog ListEntries))) (fun entries =>
     respond (map (fun entry => mkAttributeResponse (Path entry) (ValueType_string (EntryType entry)) (Source entry)) entries))).

Definition handle_search_relation_types : served (list string) :=
  with_storage configured search_unconfigured
    (or_problem (fun _ => internal_server_error) (statement E (fun _ => on_api_catalog ListRelationTypes))).
End Handlers.

(** ** Saved queries stay consistent *)

(** What is stored beside the text of a query: its parsed form, its version and the
    dependencies that binding it to a registry found. *)
Definition saved_query (text : string) (ast : json) (version : string) (dependencies : list searchDependency) (status : string) : Prop :=
  exists query (registry : StaticRegistry) bound, Parse text = Ok query /\ Bind query (Some registry) = Ok bound /\
    MarshalQuery (bQuery bound) = Ok ast /\ version = Version (bQuery bound) /\
    dependencies = DependenciesFromSearch (bDependencies bound) /\ status = CollectionStatusValidEnum.

Definition saved_row (r : CollectionRow) : Prop := saved_query (coQueryText r) (coQueryAST r) (coQueryVersion r) (coDependencies r) (coStatus r).
Definition saved_collection (c : Collection) : Prop := saved_query (clQueryText c) (clQueryAST c) (clQueryVersion c) (clDependencies c) (clStatus c).

Definition collections_ok (t : ApiTables) : Prop := forall id r, apiCollections t !! id = Some r -> coID r = id /\ saved_row r.

Definition prepared_ok (text : string) (p : PreparedCollectionQuery) : Prop :=
  saved_query text (pqAST p) (pqQueryVersion p) (DependenciesFromSearch (pqDependencies p)) (pqStatus p).

Section Saved.
Context `{Collation} (E : Surroundings ApiTables) (configured : bool) (Error : query_error -> string).
Context (run_sql : string -> list SqlArg -> Catalog -> result store_error (list ObjectRow)).
Hypothesis others : forall n t, collections_ok t -> collections_ok (meanwhile E n t).
Notation I := (holds collections_ok).

Lemma keeps_read {A} (f : ApiTables -> result run_error A) : keeps collections_ok (fun t => (f t, t)).
Proof. intros t Ht. by destruct (f t). Qed.
Lemma keeps_catalog {A} (m : M Catalog A) : keeps collections_ok (on_api_catalog m).
Proof. intros t Ht. unfold on_api_catalog, on_api_store, on_catalog. by destruct (m _) as [[a|e] c]. Qed.

Lemma write_collection_ok r t : collections_ok t -> saved_row r -> collections_ok (write_collection r t).2.
Proof.
  intros Ht Hr. unfold write_collection. cbv zeta. destruct (negb _); [done|]. destruct (negb _); [done|].
  intros id r'. cbn. intros [[<- <-]|[_ Hr']]%lookup_insert_Some; [done|by apply Ht].
Qed.

Lemma keeps_search_registry : keeps I (BuildSearchRegistry E).
Proof. unfold BuildSearchRegistry. apply keeps_mbind; [|intros ?; apply keeps_mret]. apply keeps_statement; [exact others|intros ?; apply keeps_catalog]. Qed.

Lemma keeps_api_bind query : keeps I (bindPithosysQL E query).
Proof. unfold bindPithosysQL. apply keeps_mbind; [apply keeps_attempted, keeps_search_registry|intros ?; apply keeps_mret]. Qed.

Lemma prepared_triple text : triple I (PrepareCollectionQuery E text) (fun r w => I w /\ forall p, r = Ok p -> prepared_ok text p) (fun _ => I).
Proof.
  unfold PrepareCollectionQuery, ValidatePithosysQL. intros w Hw. rewrite bind_run. destruct (Parse text) as [query|e] eqn:Hp; [|split; [exact Hw|discriminate]].
  pose proof (keeps_search_registry w Hw) as Hk. unfold bindPithosysQL. rewrite bind_run. unfold attempted.
  destruct (BuildSearchRegistry E w) as [[registry|e] w']; [|split; [exact Hk|discriminate]].
  split; [exact Hk|]. intros p. destruct (Bind query (Some registry)) as [bound|e] eqn:Hb; cbn; [|done].
  unfold prepared_of. destruct (MarshalQuery (bQuery bound)) as [ast|] eqn:Hm; [|done]. intros [= <-]. by exists query, registry, bound.
Qed.

Lemma prepared_answer text : answering_with I (prepared_ok text) (query_answer Error unexpected (PrepareCollectionQuery E text)).
Proof.
  unfold query_answer. apply (answering_with_chain _ (fun r => forall p, r = Ok p -> prepared_ok text p)).
  - apply answering_with_or_problem, prepared_triple.
  - intros [p|e] Hr; [|apply answering_with_refuse]. apply answering_with_respond. by apply Hr.
Qed.

Lemma prepared_query_answer query : answering_with I (fun q => forall text p, q = Some (text, p) -> prepared_ok text p)
  (prepared_query E Error query).
Proof.
  unfold prepared_query. destruct query as [query|]; [|by apply answering_with_respond]. cbv zeta.
  destruct (String.eqb _ ""); [apply answering_with_refuse|].
  eapply answering_with_chain; [apply prepared_answer|]. intros p Hp. apply answering_with_respond. by intros ? ? [= <- <-].
Qed.

(** The row an update writes is consistent when what it read and what it was given are. *)
Lemma updated_saved now params current old r : saved_collection current ->
  (ucUpdateQuery params = true -> forall text, ucQueryText params = Some text ->
     saved_query text (ucQueryAST params) (default (clQueryVersion current) (ucQueryVersion params)) (ucDependencies params)
       (default (clStatus current) (ucStatus params))) ->
  updated_collection now params current old = Ok r -> saved_row r.
Proof.
  intros Hc Hp. unfold updated_collection. destruct (ucUpdateQuery params).
  - destruct (ucQueryText params) as [text|]; [|done]. intros [= <-]. by apply Hp.
  - intros [= <-]. exact Hc.
Qed.

Lemma keeps_api_create params : saved_query (ccQueryText params) (ccQueryAST params) (ccQueryVersion params) (ccDependencies params) (ccStatus params) ->
  keeps I (CreateCollection E params).
Proof.
  intros Hp. unfold CreateCollection. apply keeps_mbind; [apply keeps_read_random|intros random].
  apply keeps_statement; [exact others|]. intros n t Ht. unfold insert_collection.
  pose proof (write_collection_ok (created_collection random (db_time E n) params) t Ht) as Hw. case_bool_decide; [done|].
  assert (saved_row (created_collection random (db_time E n) params)) as Hs.
  { unfold saved_row, created_collection. cbn. destruct (String.eqb_spec (ccStatus params) "") as [He|]; [|exact Hp].
    destruct Hp as (? & ? & ? & ? & ? & ? & ? & ? & Hstatus). by rewrite He in Hstatus. }
  specialize (Hw Hs). by destruct (write_collection _ t) as [[a|e] t'].
Qed.

Lemma keeps_update params :
  (forall current, saved_collection current -> ucUpdateQuery params = true -> forall text, ucQueryText params = Some text ->
     saved_query text (ucQueryAST params) (default (clQueryVersion current) (ucQueryVersion params)) (ucDependencies params)
       (default (clStatus current) (ucStatus params))) ->
  keeps I (UpdateCollection E params).
Proof.
  intros Hp. unfold UpdateCollection. apply (triple_bind _ _ _ (fun current w => I w /\ saved_collection current)).
  - intros w Hw. unfold statement, GetCollection. pose proof (others (ticks w) _ Hw) as Ht.
    destruct (failing E (ticks w)) as [[e|e]|]; [done..|]. destruct (apiCollections _ !! ucID params) as [r|] eqn:Hr; [|done].
    cbn. split; [done|]. by apply Ht in Hr as [_ Hr].
  - intros current. apply (triple_bind _ _ _ (fun _ w => I w /\ saved_collection current)); [intros w Hw; unfold of_result; destruct (update_allowed params); [exact Hw|apply Hw]|].
    intros _ w [Hw Hc]. revert w Hw. apply keeps_statement; [exact others|]. intros n t Ht.
    destruct (apiCollections t !! ucID params) as [old|] eqn:Ho; [|done].
    destruct (updated_collection (db_time E n) params current old) as [r|e] eqn:Hu; [|done].
    pose proof (write_collection_ok r t Ht (updated_saved _ _ _ _ _ Hc (Hp current Hc) Hu)) as Hw'.
    by destruct (write_collection r t) as [[a|e] t'].
Qed.

Lemma keeps_search text scope : keeps I (SearchPithosysQL E run_sql text scope).
Proof.
  unfold SearchPithosysQL. destruct (Parse text); [|apply keeps_mret]. apply keeps_mbind; [apply keeps_api_bind|intros [bound|e]; [|apply keeps_mret]].
  apply keeps_mbind; [|intros ?; apply keeps_mret]. apply keeps_attempted. unfold Search. destruct (CompileObjectsSearch _ _); [|apply keeps_fail].
  apply keeps_statement; [exact others|intros ?; apply keeps_catalog].
Qed.
End Saved.

(** ** The calls of this part *)

Inductive collection_call :=
| ListCollectionsCall (limit offset : Z)
| CreateCollectionCall (input : createCollectionBody)
| GetCollectionCall (id : string)
| UpdateCollectionCall (id : string) (input : updateCollectionBody)
| DeleteCollectionCall (id : string)
| CollectionObjectsCall (id : string)
| SearchCall (query bucketID : string)
| ValidateCall (query : string).

Inductive collection_body :=
| BodyCollections (collections : list collectionResponse)
| BodyCollection (collection : collectionResponse)
| BodyDeleted
| BodyObjects (objects : list ObjectResponse)
| BodyValid (valid : validateSearchBody).

Section Calls.
Context `{Collation} (E : Surroundings ApiTables) (configured : bool) (Error : query_error -> string).
Context (run_sql : string -> list SqlArg -> Catalog -> result store_error (list ObjectRow)).

Definition body {A} (f : A -> collection_body) (m : handler (Server ApiTables) A) : handler (Server ApiTables) collection_body :=
  bind_answer m (fun a => respond (f a)).

Definition handle_collection_call (call : collection_call) (context : option Principal) : handler (Server ApiTables) collection_body :=
  match call with
  | ListCollectionsCall limit offset => body BodyCollections (handle_list_collections E configured limit offset)
  | CreateCollectionCall input => body BodyCollection (handle_create_collection E configured Error context input)
  | GetCollectionCall id => body BodyCollection (handle_get_collection E configured id)
  | UpdateCollectionCall id input => body BodyCollection (handle_update_collection E configured Error context id input)
  | DeleteCollectionCall id => body (fun _ => BodyDeleted) (handle_delete_collection E configured context id)
  | CollectionObjectsCall id => body BodyObjects (handle_collection_objects E configured Error run_sql id)
  | SearchCall query bucketID => body BodyObjects (handle_search E configured Error run_sql query bucketID)
  | ValidateCall query => body BodyValid (handle_validate E configured Error query)
  end.

(** Requests one after the other; what others do meanwhile is in the surroundings. *)
Definition serve_collections (calls : list (collection_call * option Principal)) (w : Server ApiTables) : Server ApiTables :=
  fold_left (fun w call => (handle_collection_call call.1 call.2 w).2) calls w.

Hypothesis others : forall n t, collections_ok t -> collections_ok (meanwhile E n t).
Notation I := (holds collections_ok).

Lemma handler_keeps_update context id input : answering I (handle_update_collection E configured Error context id input).
Proof.
  apply answering_with_storage, answering_bind; [apply answering_require_admin|intros principal].
  apply answering_bind; [apply answering_of_answer|intros name].
  eapply answering_with_bind; [apply prepared_query_answer; exact others|]. intros q Hq. repeat answering_step.
  apply keeps_update; [exact others|]. intros current Hc. destruct q as [[text p]|]; cbn; [|done]. intros _ text' [= <-].
  destruct (Hq text p eq_refl) as (query & registry & bound & ? & ? & ? & ? & ? & ?). by exists query, registry, bound.
Qed.

Lemma handler_keeps_create context input : answering I (handle_create_collection E configured Error context input).
Proof.
  apply answering_with_storage, answering_bind; [apply answering_require_admin|intros principal]. cbv zeta.
  destruct (String.eqb _ ""); [apply answering_refuse|]. destruct (String.eqb _ ""); [apply answering_refuse|].
  eapply answering_with_bind; [apply prepared_answer; exact others|]. intros p Hp. repeat answering_step.
  apply keeps_api_create; [exact others|]. cbn. destruct Hp as (query & registry & bound & ? & ? & ? & ? & ? & ?). by exists query, registry, bound.
Qed.

Lemma keeps_statement_read {A} (f : ApiTables -> result run_error A) : keeps I (statement E (fun _ t => (f t, t))).
Proof. apply keeps_statement; [exact others|intros ?; apply keeps_read]. Qed.

Lemma answering_query {A} failed (m : M (Server ApiTables) (result query_error A)) : keeps I m -> answering I (query_answer Error failed m).
Proof. intros Hm. unfold query_answer. repeat answering_step. exact Hm. Qed.

Lemma handler_keeps_delete context id : answering I (handle_delete_collection E configured context id).
Proof.
  apply answering_with_storage, answering_bind; [apply answering_require_admin|intros principal].
  apply answering_or_problem, keeps_statement; [exact others|]. intros _ t Ht. unfold DeleteCollection.
  destruct (apiCollections t !! id); [|done]. intros id' r. cbn. intros [_ Hr]%lookup_delete_Some. by apply Ht.
Qed.

Lemma collection_call_keeps call context : answering I (handle_collection_call call context).
Proof.
  destruct call; cbn [handle_collection_call]; unfold body; (apply answering_bind; [|intros ?; apply answering_respond]).
  - apply answering_with_storage. repeat answering_step. apply keeps_statement_read.
  - apply handler_keeps_create.
  - apply answering_with_storage. repeat answering_step. apply keeps_statement_read.
  - apply handler_keeps_update.
  - apply handler_keeps_delete.
  - apply answering_with_storage, answering_bind; [apply answering_or_problem, keeps_statement_read|intros collection].
    apply answering_bind; [|intros ?; apply answering_respond]. by apply answering_query, keeps_search.
  - apply answering_with_storage. cbv zeta. destruct (String.eqb _ ""); [apply answering_refuse|].
    apply answering_bind; [|intros ?; apply answering_respond]. by apply answering_query, keeps_search.
  - apply answering_with_storage. cbv zeta. destruct (String.eqb _ ""); [apply answering_refuse|].
    apply answering_bind; [|intros ?; apply answering_respond]. apply answering_query. unfold ValidatePithosysQL.
    destruct (Parse _); [by apply keeps_api_bind|apply keeps_mret].
Qed.

(** C37: a saved query stays consistent: whatever the requests and whatever others do and
    fail meanwhile, beside the text of each collection are stored the query it parses to,
    its version, and the dependencies that binding that query found. *)
Theorem saved_queries_kept calls w : collections_ok (data w) -> collections_ok (data (serve_collections calls w)).
Proof.
  unfold serve_collections. revert w. induction calls as [|call calls IH]; intros w Hw; cbn; [done|].
  apply IH. exact (collection_call_keeps call.1 call.2 w Hw).
Qed.
End Calls.

Definition demo_admin : Principal := PrincipalFromUser (mkUser "u1" "a@b" "" UserRoleAdmin None "" None 0 0).
Definition demo_calls : list (collection_call * option Principal) :=
  [(CreateCollectionCall (mkCreateBody " Mine " "" "FROM objects WHERE key = 'a'"), Some demo_admin)].

Definition demo_served : Server ApiTables :=
  serve_collections (H := String.ltb) calm_api true (fun _ => "") demo_sql demo_calls (mkServer 0 demo_api).

Lemma saved_queries_kept_witness :
  collections_ok (data demo_served) /\ map coName (map snd (map_to_list (apiCollections (data demo_served)))) = ["Mine"].
Proof.
  split; [|vm_compute; reflexivity]. apply (saved_queries_kept (H := String.ltb) calm_api true (fun _ => "") demo_sql); [by intros n t|].
  by intros id r.
Defined.
