(* ===== verification/ObjectsHttp.v ===== *)
(** * ObjectsHttp

    The routes of the objects, of the settings and of the captured fields:
    apps/api/internal/httpserver/objects/routes.go, settings/routes.go and
    upstreamcapture/routes.go.  The repository operations that take several statements are
    given here statement by statement, since other requests and workers run between them.
    The text of an error and the order of maps are parameters, as is what the database does
    for ILIKE and for the text of a JSON value. *)
From S2P Require Import Prelude GoStrings GoTime Ast SearchDefs JobPayload JobRuns ErrState Catalog AttributeCatalog Capture ObjectStore.
From S2P Require Import Settings Users Auth Request Http Collections CollectionsHttp.
Local Open Scope Z_scope.

(** ** settings/routes.go *)

Record settingResponse := mkSettingResponse {
  stKey : string; stValue : string; stEncrypted : bool; stUpdatedAt : Z; stUpdatedBy : option string
}.
Definition settingResponseFromStorage (setting : Setting) : settingResponse :=
  mkSettingResponse (sKey setting) (sValue setting) (sEncrypted setting) (sUpdatedAt setting) (sUpdatedBy setting).

(** ** upstreamcapture/routes.go *)

Definition CaptureFieldCategory_string (c : CaptureFieldCategory) : string :=
  match c with CaptureFieldCategoryRequired => "required" | CaptureFieldCategoryOptional => "optional" end.
Definition CaptureFieldOrigin_string (o : CaptureFieldOrigin) : string :=
  match o with CaptureFieldOriginPlatform => "platform" | CaptureFieldOriginUser => "user" end.
Definition CaptureSource_string (s : CaptureSource) : string :=
  match s with CaptureSourceHead => "head" | CaptureSourceTagging => "tagging" | CaptureSourceOther s => s end.
Definition CaptureExtractorType_string (t : CaptureExtractorType) : string :=
  match t with
  | CaptureExtractorSDKField => "sdk_field" | CaptureExtractorResponseHeader => "response_header"
  | CaptureExtractorMetadataKey => "metadata_key" | CaptureExtractorMetadataAll => "metadata_all"
  | CaptureExtractorTagKey => "tag_key" | CaptureExtractorTaggingAll => "tagging_all" | CaptureExtractorOther s => s
  end.
Definition CaptureSource_of : string -> CaptureSource :=
  lookup_enum CaptureSource_string [CaptureSourceHead; CaptureSourceTagging] CaptureSourceOther.
Definition CaptureExtractorType_of : string -> CaptureExtractorType :=
  lookup_enum CaptureExtractorType_string
    [CaptureExtractorSDKField; CaptureExtractorResponseHeader; CaptureExtractorMetadataKey; CaptureExtractorMetadataAll;
     CaptureExtractorTagKey; CaptureExtractorTaggingAll] CaptureExtractorOther.

Record CaptureFieldResponse := mkCaptureResponse {
  cpID : string; cpAttributePath : string; cpEnabled : bool; cpCategory : string; cpOrigin : string; cpCaptureSource : string;
  cpExtractorType : string; cpExtractorRef : string; cpValueType : string; cpCreatedAt : Z; cpUpdatedAt : Z
}.
Definition captureFieldResponseFromStorage (field : UpstreamCaptureField) : CaptureFieldResponse :=
  mkCaptureResponse (cfID field) (cfAttributePath field) (cfEnabled field) (CaptureFieldCategory_string (cfCategory field))
    (CaptureFieldOrigin_string (cfOrigin field)) (CaptureSource_string (cfCaptureSource field))
    (CaptureExtractorType_string (cfExtractorType field)) (cfExtractorRef field) (ValueType_string (cfValueType field))
    (cfCreatedAt field) (cfUpdatedAt field).

Record createCaptureFieldBody := mkCreateCaptureBody {
  xcAttributePath : string; xcEnabled : option bool; xcCaptureSource : string; xcExtractorType : string; xcExtractorRef : string; xcValueType : string
}.
Record updateCaptureFieldBody := mkUpdateCaptureBody {
  xuAttributePath : option string; xuEnabled : option bool; xuCaptureSource : option string; xuExtractorType : option string;
  xuExtractorRef : option string; xuValueType : option string
}.
Definition enabledOrDefault (value : option bool) : bool := default true value.

Record patchObjectAttributesBody := mkPatchBody { pbSet : gmap string value; pbDelete : list string }.

(** ** objects/routes.go *)

Definition validateUserAttributePath (path : string) : option string :=
  let path := TrimSpace path in
  if String.eqb path "" then Some "attribute path is required"
  else if negb (HasPrefix path "user.") then Some "attribute paths must start with user."
  else if String.eqb (TrimPrefix path "user.") "" then Some "attribute path is invalid"
  else None.

(** The first complaint about one of the paths. *)
Fixpoint first_invalid (paths : list string) : option string :=
  match paths with
  | [] => None
  | path :: paths => match validateUserAttributePath path with Some message => Some message | None => first_invalid paths end
  end.

Section Handlers.
Context `{Collation, MapOrder} (E : Surroundings ApiTables) (configured : bool) (Error : store_error -> string).
Context (json_text : value -> string) (ilike : string -> string -> bool).
Notation served := (handler (Server ApiTables)).
Notation Req := (M (Server ApiTables)).

Definition failure_text (e : run_error) : string := match e with Failure e => Error e | OutOfFuel => "" end.
Definition storage_unconfigured : string := "storage is not configured".
Definition objects_unconfigured : string := "object dependencies are not configured".

Definition handle_list_settings : served (list settingResponse) :=
  with_storage configured storage_unconfigured
    (bind_answer (or_problem internal (statement E (fun _ => on_api_settings ListSettings))) (fun settings =>
     respond (map settingResponseFromStorage settings))).

Definition setting_problem (e : run_error) : Problem :=
  match e with
  | Failure e =>
      if is_error ErrSettingUnknown e then UnprocessableEntity "unknown setting key"
      else if is_error ErrSettingInvalidValue e then UnprocessableEntity (Error e)
      else if IsNotFound e then NotFound "setting not found" else internal (Failure e)
  | OutOfFuel => internal e
  end.

Definition handle_patch_setting (context : option Principal) (key value : string) : served settingResponse :=
  with_storage configured storage_unconfigured
    (bind_answer (RequireAdminContext context) (fun principal =>
     bind_answer (or_problem setting_problem (statement E (fun n => on_api_settings (SetSetting (db_time E n) key value (pID principal))))) (fun _ =>
     bind_answer (or_problem internal (statement E (fun _ => on_api_settings (GetSetting key)))) (fun setting =>
     respond (settingResponseFromStorage setting))))).

Definition handle_list_capture_fields : served (list CaptureFieldResponse) :=
  with_storage configured storage_unconfigured
    (bind_answer (or_problem internal (statement E (fun _ => on_api_catalog ListFields))) (fun fields =>
     respond (map captureFieldResponseFromStorage fields))).

(** [CreateUser]: the checks and the generated identifier come before its statement. *)
Definition CreateCaptureField (params : CreateUpstreamCaptureFieldParams) : Req UpstreamCaptureField :=
  _ ← of_result (validateCreateUpstreamCaptureFieldParams params);
  random ← read_random E 8;
  statement E (fun n => on_api_catalog (Capture.CreateUser random (db_time E n) params)).

Definition handle_create_capture_field (input : createCaptureFieldBody) : served CaptureFieldResponse :=
  with_storage configured storage_unconfigured
    (bind_answer (or_problem (fun e => match e with
        | Failure e => if is_error ErrCaptureFieldConflict e then Conflict "upstream capture field already exists" else UnprocessableEntity (Error e)
        | OutOfFuel => internal e
        end)
       (CreateCaptureField (mkCreateCapture (xcAttributePath input) (enabledOrDefault (xcEnabled input)) (CaptureSource_of (xcCaptureSource input))
          (CaptureExtractorType_of (xcExtractorType input)) (xcExtractorRef input) (ValueType_of (xcValueType input))))) (fun field =>
     respond (captureFieldResponseFromStorage field))).

(** [Update]: a statement that reads the field, the checks, and one that writes it. *)
Definition UpdateCaptureField (id : string) (params : UpdateUpstreamCaptureFieldParams) : Req UpstreamCaptureField :=
  current ← statement E (fun _ => on_api_catalog (GetField id));
  if bool_decide (cfOrigin current = CaptureFieldOriginPlatform) then
    _ ← of_result (platform_update_ok params current);
    match ucEnabled params with
    | None => mret current
    | Some enabled => statement E (fun n => on_api_catalog (update_capture id (set_enabled (db_time E n) enabled)))
    end
  else
    _ ← of_result (next_field 0 params current);
    statement E (fun n =>
      match next_field (db_time E n) params current with
      | Ok next => on_api_catalog (update_capture id (fun _ => next))
      | Err e => fail (Failure e)
      end).

Definition capture_problem (e : run_error) : Problem :=
  match e with
  | Failure e =>
      if is_error ErrCaptureFieldNotFound e then NotFound "upstream capture field not found"
      else if is_error ErrCaptureFieldRequired e then UnprocessableEntity (Error e)
      else if is_error ErrCaptureFieldInvalidUpdate e then UnprocessableEntity (Error e)
      else if is_error ErrCaptureFieldConflict e then Conflict "upstream capture field already exists" else internal (Failure e)
  | OutOfFuel => internal e
  end.

Definition handle_update_capture_field (id : string) (input : updateCaptureFieldBody) : served CaptureFieldResponse :=
  with_storage configured storage_unconfigured
    (bind_answer (or_problem capture_problem
       (UpdateCaptureField id (mkUpdateCapture (xuAttributePath input) (xuEnabled input) (CaptureSource_of <$> xuCaptureSource input)
          (CaptureExtractorType_of <$> xuExtractorType input) (xuExtractorRef input) (ValueType_of <$> xuValueType input)))) (fun field =>
     respond (captureFieldResponseFromStorage field))).

Definition DeleteCaptureField (id : string) : Req unit :=
  current ← statement E (fun _ => on_api_catalog (GetField id));
  if bool_decide (cfOrigin current = CaptureFieldOriginPlatform) then fail (Failure ErrCaptureFieldPlatformOnly)
  else statement E (fun _ => on_api_catalog (puts (fun c => set_capture_fields (delete id (capture_fields c)) c))).

Definition handle_delete_capture_field (id : string) : served unit :=
  with_storage configured storage_unconfigured
    (or_problem (fun e => match e with
        | Failure e =>
            if is_error ErrCaptureFieldNotFound e then NotFound "upstream capture field not found"
            else if is_error ErrCaptureFieldPlatformOnly e then UnprocessableEntity (Error e) else internal (Failure e)
        | OutOfFuel => internal e
        end) (DeleteCaptureField id)).

(** ** Objects *)

Definition handle_list_objects (params : ListObjectsParams) : served (list ObjectResponse) :=
  with_storage configured objects_unconfigured
    (bind_answer (or_problem internal (statement E (fun _ => on_api_catalog (ListObjects json_text ilike params)))) (fun objects =>
     respond (map ObjectResponseFromStorage objects))).

Definition handle_get_object (id : string) : served ObjectResponse :=
  with_storage configured objects_unconfigured
    (bind_answer (or_problem (not_found_or_internal "object not found") (statement E (fun _ => on_api_catalog (GetObject id)))) (fun object =>
     respond (ObjectResponseFromStorage object))).

(** [MutateObjectAttributes] as the requests run it: the object is read, and the whole of
    its attributes is written back later. *)
Definition MutateAttributes (objectID : string) (mutation : AttributeMutation) : Req Object :=
  object ← statement E (fun _ => on_api_catalog (GetObject objectID));
  let prefix := if String.eqb (AllowedPrefix mutation) "" then UserAttributePrefix else AllowedPrefix mutation in
  _ ← of_result (mapM_result (validateMutationPath prefix) (range_map 3 (Sets mutation)).*1);
  _ ← of_result (mapM_result (validateMutationPath prefix) (Deletes mutation));
  _ ← statement E (fun _ => on_api_catalog (validateMutationCatalogTypes (Sets mutation)));
  attributes ← of_result (mutated_attributes (cloneObjectAttributes (oAttributes object)) mutation);
  encodedAttributes ← of_result (encodeObjectAttributes attributes);
  updated ← statement E (fun n => on_api_catalog (wrapped "mutate object attributes: %w"
    (update_attributes (db_time E n) objectID encodedAttributes (mutated_provenance (oAttributeProvenance object) mutation))));
  _ ← statement E (fun n => on_api_catalog (observeAttributeCatalog (db_time E n) [attributes]));
  mret updated.

Definition patch_problem (e : run_error) : Problem :=
  match e with
  | Failure e =>
      if IsNotFound e then NotFound "object not found"
      else if is_error ErrCatalogTypeConflict e then UnprocessableEntity (Error e)
      else if Contains (Error e) "must start with" then BadRequest (Error e) else internal (Failure e)
  | OutOfFuel => internal e
  end.

Definition patch_mutation (principal : Principal) (input : patchObjectAttributesBody) : AttributeMutation :=
  mkMutation UserAttributePrefix (pbSet input) (pbDelete input) ((fun _ => pID principal) <$> pbSet input).

Definition handle_patch_attributes (context : option Principal) (id : string) (input : patchObjectAttributesBody) : served ObjectResponse :=
  with_storage configured objects_unconfigured
    (bind_answer (RequireAdminContext context) (fun principal =>
     if Nat.eqb (size (pbSet input)) 0 && Nat.eqb (List.length (pbDelete input)) 0 then refuse (BadRequest "set or delete is required")
     else
       match first_invalid (range_map 6 (pbSet input)).*1 with
       | Some message => refuse (BadRequest message)
       | None =>
           match first_invalid (pbDelete input) with
           | Some message => refuse (BadRequest message)
           | None =>
               bind_answer (or_problem patch_problem (MutateAttributes id (patch_mutation principal input))) (fun object =>
               respond (ObjectResponseFromStorage object))
           end
       end)).
End Handlers.

(** ** A patch stays in the namespace of users *)

Lemma trimLeft_split s : exists sp, s = sp +:+ trimLeft s /\ string_forall (fun c => negb (Ascii.eqb c ".")) sp = true.
Proof.
  assert (forall n s, (String.length s <= n)%nat -> exists sp, s = sp +:+ trimLeft s /\ string_forall (fun c => negb (Ascii.eqb c ".")) sp = true) as Hn.
  2: { apply (Hn (String.length s)). done. }
  clear s. induction n as [|n IH]; intros [|a s] Hs; cbn in Hs; try lia; [by exists ""|by exists ""|].
  cbn [trimLeft]. destruct (space1 a) eqn:H1.
  { destruct (IH s ltac:(lia)) as (sp & Hsp & Hd). exists (String a sp). cbn. rewrite <- Hsp, Hd. split; [done|]. rewrite andb_true_r.
    destruct (Ascii.eqb_spec a "."); [by subst|done]. }
  destruct s as [|b s]; [by exists ""|]. destruct (space2 a b) eqn:H2.
  { cbn in Hs. destruct (IH s ltac:(lia)) as (sp & Hsp & Hd). exists (String a (String b sp)). cbn. rewrite <- Hsp, Hd. split; [done|]. rewrite andb_true_r.
    destruct (Ascii.eqb_spec a "."); [by subst|]. destruct (Ascii.eqb_spec b "."); [|done]. subst. unfold space2 in H2. by rewrite andb_false_r in H2. }
  destruct s as [|c s]; [by exists ""|]. destruct (space3 a b c) eqn:H3; [|by exists ""].
  cbn in Hs. destruct (IH s ltac:(lia)) as (sp & Hsp & Hd). exists (String a (String b (String c sp))). cbn. rewrite <- Hsp, Hd. split; [done|]. rewrite andb_true_r.
  destruct (Ascii.eqb_spec a "."); [by subst|]. destruct (Ascii.eqb_spec b "."); [subst; unfold space3 in H3; by rewrite !andb_false_r in H3|].
  destruct (Ascii.eqb_spec c "."); [subst; unfold space3 in H3; by rewrite !andb_false_r in H3|done].
Qed.

Lemma trimRight_prefix pre s : String.prefix pre (trimRight s) = true -> String.prefix pre s = true.
Proof.
  revert pre. induction s as [|c s IH]; intros pre; [done|]. cbn [trimRight]. destruct (String.eqb _ ""); [by destruct pre|].
  destruct pre as [|p pre]; [done|]. cbn. destruct (ascii_dec p c); [apply IH|done].
Qed.

Lemma prefix_app pre s : String.prefix pre s = true -> exists rest, s = pre +:+ rest.
Proof.
  revert s. induction pre as [|p pre IH]; intros s Hs; [by exists s|]. destruct s as [|c s]; [done|]. cbn in Hs.
  destruct (ascii_dec p c) as [->|]; [|done]. apply IH in Hs as [rest ->]. by exists rest.
Qed.

(** The first part of a path that is accepted ends in "user". *)
Lemma split_user sp rest : string_forall (fun c => negb (Ascii.eqb c ".")) sp = true ->
  exists parts, splitAttributePath (sp +:+ "user." +:+ rest) = (sp +:+ "user") :: parts.
Proof.
  intros Hsp. assert (exists l, Split "." (sp +:+ "user." +:+ rest) = (sp +:+ "user") :: l) as [l Hl].
  { induction sp as [|c sp IH]; [by eexists|]. cbn in Hsp. apply andb_true_iff in Hsp as [Hc Hsp]. destruct (IH Hsp) as [l Hl]. exists l.
    cbn. apply negb_true_iff in Hc. rewrite Hc. cbn in Hl. by rewrite Hl. }
  unfold splitAttributePath. rewrite Hl. cbn [List.filter]. destruct (String.eqb_spec (sp +:+ "user") "") as [He|]; [by destruct sp|]. by eexists.
Qed.

Lemma accepted_path path : validateUserAttributePath path = None -> exists sp parts, splitAttributePath path = (sp +:+ "user") :: parts.
Proof.
  unfold validateUserAttributePath. cbv zeta. destruct (String.eqb _ ""); [done|]. destruct (HasPrefix (TrimSpace path) "user.") eqn:Hp; cbn [negb]; [|done].
  intros _. apply trimRight_prefix, prefix_app in Hp as [rest Hr]. destruct (trimLeft_split path) as (sp & Hs & Hd). rewrite Hs, Hr.
  exists sp. by apply split_user.
Qed.

Lemma first_invalid_None paths : first_invalid paths = None -> Forall (fun path => validateUserAttributePath path = None) paths.
Proof. induction paths as [|path paths IH]; cbn; [done|]. destruct (validateUserAttributePath path) eqn:E; [done|]. intros H. constructor; [done|by apply IH]. Qed.

(** A name that is not "user" behind other characters, such as those of the other namespaces. *)
Definition not_user (ns : string) : Prop := forall sp, ns <> sp +:+ "user".

Lemma set_other ns attributes path v attributes' : not_user ns -> validateUserAttributePath path = None ->
  setAttributeAtPath attributes path v = Ok attributes' -> attributes' !! ns = attributes !! ns.
Proof.
  intros Hns (sp & parts & Hp)%accepted_path. unfold setAttributeAtPath. rewrite Hp. intros [= <-].
  destruct parts; cbn; by rewrite lookup_insert_ne by (intros E; by apply (Hns sp)).
Qed.

Lemma delete_other ns attributes path attributes' : not_user ns -> validateUserAttributePath path = None ->
  deleteAttributeAtPath attributes path = Ok attributes' -> attributes' !! ns = attributes !! ns.
Proof.
  intros Hns (sp & parts & Hp)%accepted_path. unfold deleteAttributeAtPath. rewrite Hp. intros [= <-].
  assert (sp +:+ "user" <> ns) as Hne by (intros E; by apply (Hns sp)).
  destruct parts as [|next parts]; cbn; [by rewrite lookup_delete_ne|].
  destruct (attributes !! _ ≫= asNestedAttributeMap) as [child|]; cbn; [|done]. destruct (delete_at child next parts) as [child'|]; cbn; [|done].
  destruct (Nat.eqb _ 0); [by rewrite lookup_delete_ne|by rewrite lookup_insert_ne].
Qed.

Lemma foldM_kept {A S} (P : S -> Prop) (f : S -> A -> result store_error S) l :
  (forall s x s', x ∈ l -> P s -> f s x = Ok s' -> P s') -> forall s s', P s -> foldM_result f s l = Ok s' -> P s'.
Proof.
  induction l as [|x l IH]; intros Hf s s' Hs; cbn; [by intros [= <-]|]. destruct (f s x) as [s1|] eqn:E; cbn; [|done].
  apply IH; [|apply (Hf s x); [left|done|done]]. intros s2 y s3 Hy. apply Hf. by right.
Qed.

Section Patch.
Context `{MapOrder}.

Lemma first_invalid_range n (m : gmap string value) path v : first_invalid (range_map n m).*1 = None -> (path, v) ∈ range_map n m ->
  validateUserAttributePath path = None.
Proof.
  intros Hi%first_invalid_None Hin. rewrite list.Forall_forall in Hi. apply Hi, list_elem_of_fmap. by exists (path, v).
Qed.

(** An accepted patch of the attributes of an object leaves the other namespaces as they are:
    what it computes agrees with what was read at every name that is not "user" behind white space. *)
Theorem patch_user_only principal input attributes attributes' ns :
  first_invalid (range_map 6 (pbSet input)).*1 = None -> first_invalid (pbDelete input) = None -> not_user ns ->
  mutated_attributes attributes (patch_mutation principal input) = Ok attributes' -> attributes' !! ns = attributes !! ns.
Proof.
  intros Hset Hdel Hns. unfold mutated_attributes. cbn [Sets Deletes patch_mutation].
  destruct (foldM_result _ attributes _) as [a1|e] eqn:H1; cbn; [|done]. intros H2.
  assert (a1 !! ns = attributes !! ns) as Ha1.
  { revert H1. apply (foldM_kept (fun a => a !! ns = attributes !! ns)); [|done]. intros a [path v] a' Hin Ha Hs.
    cbn in Hs. destruct (setAttributeAtPath a path v) as [a2|] eqn:E; [|done]. injection Hs as <-. rewrite <- Ha.
    apply (set_other ns a path v); [done| |done]. apply (first_invalid_range 6 (pbSet input) path v Hset).
    by apply elem_of_range_map, (elem_of_range_map 5). }
  revert H2. apply (foldM_kept (fun a => a !! ns = attributes !! ns)); [|done]. intros a path a' Hin Ha Hs.
  destruct (deleteAttributeAtPath a path) as [a2|] eqn:E; [|done]. injection Hs as <-. rewrite <- Ha.
  apply (delete_other ns a path); [done| |done]. apply first_invalid_None in Hdel. rewrite list.Forall_forall in Hdel. by apply Hdel.
Qed.
End Patch.

Lemma not_user_last ns : String.get (String.length ns - 1) ns <> Some "r"%char -> not_user ns.
Proof.
  intros Hl sp ->. apply Hl. clear Hl. rewrite string_length_app. cbn [String.length].
  replace (String.length sp + 4 - 1)%nat with (3 + String.length sp)%nat by lia. induction sp as [|c sp IH]; [done|].
  cbn [String.length]. by rewrite Nat.add_succ_r.
Qed.

Definition demo_order : MapOrder := {| range_keys := fun _ l => l; range_keys_perm := fun _ l => Permutation_refl _ |}.
Definition demo_patch : patchObjectAttributesBody := mkPatchBody {["user.owner" := VString "me"]} ["user.old.note"].
Definition demo_attributes : payload := <["upstream" := VMap {["size" := VInt 3]}]> {["user" := VMap {["old" := VMap {["note" := VString "x"]}]}]}.

Lemma patch_user_only_witness :
  exists attributes', mutated_attributes (H := demo_order) demo_attributes (patch_mutation demo_admin demo_patch) = Ok attributes' /\
    attributes' !! "upstream" = demo_attributes !! "upstream".
Proof.
  eexists. match goal with |- ?eq /\ _ => assert eq as Hm by (vm_compute; reflexivity) end. split; [exact Hm|].
  apply (patch_user_only (H := demo_order) demo_admin demo_patch demo_attributes _ "upstream");
    [by vm_compute|by vm_compute|by apply not_user_last|exact Hm].
Defined.

(** ** A change between the two statements of a patch is lost *)

Definition with_etag (etag : string) (r : ObjectRow) : ObjectRow :=
  mkObjectRow (oid r) (obucket_id r) (okey r) (<["upstream" := VMap {["etag" := VString etag]}]> (oattributes r)) (oattribute_provenance r)
    (ocreated_at r) (oupdated_at r).
Definition on_object (f : ObjectRow -> ObjectRow) (t : ApiTables) : ApiTables :=
  (on_api_catalog (puts (fun c => set_objects (alter f "o1" (objects c)) c)) t).2.

(** A worker refreshes the object while the patch checks its types. *)
Definition refreshing : Surroundings ApiTables :=
  mkSurroundings (fun n t => if Nat.eqb n 1 then on_object (with_etag "new") t else t) (fun _ => None) (fun n => Z.of_nat n)
    (fun n => mkTime (Z.of_nat n) 0 0) (fun n count => []).

(** The refreshed ETag is gone after the patch, which only sets a user attribute. *)
Theorem crossing_patch_lost :
  let w := mkServer 0 (on_object (with_etag "old") demo_api) in
  let patched := MutateAttributes (H0 := demo_order) refreshing "o1" (patch_mutation demo_admin demo_patch) w in
  is_ok patched.1 = true /\
  (fun r => oattributes r !! "upstream") <$> objects (catalog (apiStore (data patched.2))) !! "o1" = Some (Some (VMap {["etag" := VString "old"]})).
Proof. by vm_compute. Qed.
