(* ===== verification/ActivityStats.v ===== *)
(** * ActivityStats

    The activity of jobs and of upstream events over time: packages/storage/activity_stats.go,
    and the statistics of job_run_stats.go and upstream_event_stats.go.  The buckets of the
    database are those of the time zone of its session, whose offset from UTC is a
    parameter. *)
From S2P Require Import Prelude GoStrings GoTime GoDuration JobPayload JobRuns ErrState Catalog UpstreamEvents.
Local Open Scope Z_scope.

Inductive ActivityStatsBucket := ActivityStatsBucketHour | ActivityStatsBucketDay.

Record ActivityStatsPoint := mkPoint { ptStart : Time; ptCounts : gmap string Z }.
Record ActivityStats := mkStats {
  stBucket : ActivityStatsBucket; stFrom : Time; stTo : Time; stSeries : list string; stPoints : list ActivityStatsPoint
}.

(** [to.Sub(from)], which saturates. *)
Definition Sub (t u : Time) : Z :=
  Z.max (- 2 ^ 63) (Z.min (2 ^ 63 - 1) ((unix t - unix u) * 10 ^ 9 + (nsec t - nsec u))).

Definition ChooseActivityStatsBucket (from to : Time) : ActivityStatsBucket :=
  if Sub to from <=? 48 * GoDuration.Hour then ActivityStatsBucketHour else ActivityStatsBucketDay.

Definition truncateActivityBucket (v : Time) (bucket : ActivityStatsBucket) : Time :=
  let v := UTC v in
  let '(y, m, d) := civil v in
  match bucket with
  | ActivityStatsBucketHour => DateUTC y m d (GoTime.Hour v) 0 0 0
  | ActivityStatsBucketDay => DateUTC y m d 0 0 0 0
  end.

(** [AddDate(0, 0, 1)] is [time.Date] of the next day of the month, which it normalizes. *)
Definition advanceActivityBucket (v : Time) (bucket : ActivityStatsBucket) : Time :=
  match bucket with
  | ActivityStatsBucketHour => Add v GoDuration.Hour
  | ActivityStatsBucketDay => let '(y, m, d) := civil v in DateUTC y m (d + 1) (GoTime.Hour v) (GoTime.Minute v) (GoTime.Second v) (nsec v)
  end.

(** The counts by the start of a bucket, whose instants are whole seconds, and by series. *)
Notation raw_counts := (gmap Z (gmap string Z)).

Definition point_at (series : list string) (raw : raw_counts) (start : Time) : ActivityStatsPoint :=
  mkPoint start (match raw !! unix start with
                 | None => ∅
                 | Some counts => fold_left (fun m key => <[key := default 0 (counts !! key)]> m) series ∅
                 end).

(** The loop, with fuel; [None] when it runs out. *)
Fixpoint build_points (fuel : nat) (start to : Time) (bucket : ActivityStatsBucket) (series : list string) (raw : raw_counts)
  : option (list ActivityStatsPoint) :=
  match fuel with
  | O => None
  | S fuel =>
      if Before start to then
        points ← build_points fuel (advanceActivityBucket start bucket) to bucket series raw;
        Some (point_at series raw start :: points)
      else Some []
  end.

Definition step_of (bucket : ActivityStatsBucket) : Z :=
  match bucket with ActivityStatsBucketHour => 3600 | ActivityStatsBucketDay => 86400 end.
Definition points_fuel (start to : Time) (bucket : ActivityStatsBucket) : nat := S (Z.to_nat ((unix to - unix start) / step_of bucket + 1)).

Definition BuildActivityStats (from to : Time) (bucket : ActivityStatsBucket) (series : list string) (raw : raw_counts) : option ActivityStats :=
  let start := truncateActivityBucket (UTC from) bucket in
  mkStats bucket from to series <$> build_points (points_fuel start to bucket) start to bucket series raw.

(** ** The queries *)

(** [date_trunc(bucket, t)] in a session at [tz] seconds from UTC, in seconds. *)
Definition date_trunc (tz : Z) (bucket : ActivityStatsBucket) (t : Z) : Z :=
  (t / 10 ^ 6 + tz) / step_of bucket * step_of bucket - tz.

(** The rows of the query: a group of the items, a time and a series each, and its count. *)
Definition groups (tz : Z) (bucket : ActivityStatsBucket) (items : list (Z * string)) : list (Z * string) :=
  sort_by (fun a b => (a.1 <? b.1) || ((a.1 =? b.1) && String.ltb a.2 b.2))
    (remove_dups (map (fun item => (date_trunc tz bucket item.1, item.2)) items)).
Definition group_count (tz : Z) (bucket : ActivityStatsBucket) (items : list (Z * string)) (g : Z * string) : Z :=
  Z.of_nat (List.length (List.filter (fun item => bool_decide ((date_trunc tz bucket item.1, item.2) = g)) items)).

(** The loop over the rows. *)
Definition raw_of (tz : Z) (bucket : ActivityStatsBucket) (items : list (Z * string)) : raw_counts :=
  fold_left (fun raw g =>
    let start := unix (truncateActivityBucket (mkTime g.1 0 0) bucket) in
    <[start := <[g.2 := group_count tz bucket items g]> (default ∅ (raw !! start))]> raw) (groups tz bucket items) ∅.

Definition stats_of (tz : Z) (from to : Time) (series : list string) (items : list (Z * string)) : option ActivityStats :=
  let bucket := ChooseActivityStatsBucket from to in
  BuildActivityStats from to bucket series (raw_of tz bucket items).

(** The two ends; [params] carries the same instants as the database reads them. *)
Definition stats_range (message : string) (after before : option Time) : result store_error (Time * Time) :=
  match after, before with
  | Some from, Some to =>
      if negb (After (UTC to) (UTC from)) then Err (Errorf (message +:+ ": end must be after start")) else Ok (UTC from, UTC to)
  | _, _ => Err (Errorf (message +:+ ": both ends are required"))
  end.

Definition job_items (params : ListJobRunsParams) (d : db) : list (Z * string) :=
  map (fun r => (created_at r, type_ r)) (List.filter (jobRunListWhereClause params) (rows d)).

Definition JobRunActivityStats (tz : Z) (params : ListJobRunsParams) (after before : option Time) (series : list string)
  : DB (option ActivityStats) := fun d =>
  match stats_range "job run activity stats" after before with
  | Err e => (Err e, d)
  | Ok (from, to) =>
      let series := match series with [] => listJobRunTypeFilter params | _ => series end in
      (Ok (stats_of tz from to series (job_items params d)), d)
  end.

Definition event_items (params : ListUpstreamEventsParams) (c : Catalog) : list (Z * string) :=
  map (fun e => (eReceivedAt e, upstreamEventCategoryCase (eEventName e)))
    (List.filter (upstreamEventListWhereClause params) (table_rows (upstream_events c))).

Definition UpstreamEventActivityStats (tz : Z) (params : ListUpstreamEventsParams) (after before : option Time) (series : list string)
  : M Catalog (option ActivityStats) := fun c =>
  match stats_range "upstream event activity stats" after before with
  | Err e => (Err (Failure e), c)
  | Ok (from, to) =>
      let series := match series with [] => ["created"; "removed"; "metadata_changed"; "other"] | _ => series end in
      (Ok (stats_of tz from to series (event_items params c)), c)
  end.

(** ** Arithmetic of buckets *)

Lemma step_pos bucket : 0 < step_of bucket.
Proof. destruct bucket; cbn; lia. Qed.

Lemma truncate_floor v bucket : truncateActivityBucket v bucket = mkTime (unix v / step_of bucket * step_of bucket) 0 0.
Proof.
  unfold truncateActivityBucket, DateUTC, GoTime.Hour, civil. cbv zeta. change (local_secs (UTC v)) with (unix v + 0). rewrite Z.add_0_r.
  pose proof (civil_from_days_spec (unix v / 86400)) as Hc. destruct (civil_from_days _) as [[y m] d]. destruct Hc as (_ & _ & ->).
  destruct bucket; cbn [step_of]; f_equal; [|lia].
  pose proof (Z.div_mod (unix v) 86400). pose proof (Z.mod_pos_bound (unix v) 86400).
  assert (unix v / 3600 = unix v / 86400 * 24 + unix v mod 86400 / 3600) as ->; [|lia].
  replace (unix v) with (unix v mod 86400 + (unix v / 86400 * 24) * 3600) at 1 by lia. rewrite Z.div_add by lia. lia.
Qed.

Lemma days_from_civil_next y m d : days_from_civil y m (d + 1) = days_from_civil y m d + 1.
Proof. unfold days_from_civil, doe_of. lia. Qed.

Lemma advance_step s bucket : s mod step_of bucket = 0 -> advanceActivityBucket (mkTime s 0 0) bucket = mkTime (s + step_of bucket) 0 0.
Proof.
  intros Hs. destruct bucket; cbn [advanceActivityBucket step_of] in *.
  - unfold Add. cbn [unix nsec offset]. change (0 + GoDuration.Hour) with (3600 * 10 ^ 9). f_equal.
  - unfold civil. change (local_secs (mkTime s 0 0)) with (s + 0). rewrite Z.add_0_r.
    pose proof (civil_from_days_spec (s / 86400)) as Hc. destruct (civil_from_days _) as [[y m] d]. destruct Hc as (_ & _ & Hc).
    unfold DateUTC, GoTime.Hour, GoTime.Minute, GoTime.Second. change (local_secs (mkTime s 0 0)) with (s + 0). rewrite Z.add_0_r, days_from_civil_next, Hc.
    cbn [nsec]. f_equal. rewrite Hs. pose proof (Z.div_mod s 86400 ltac:(lia)).
    assert (s mod 3600 = 0) as Hh by (rewrite (Z.div_mod s 86400) by lia; rewrite Hs, Z.add_0_r; replace (86400 * (s / 86400)) with ((24 * (s / 86400)) * 3600) by lia; apply Z.mod_mul; lia).
    assert (s mod 60 = 0) as Hm by (rewrite (Z.div_mod s 86400) by lia; rewrite Hs, Z.add_0_r; replace (86400 * (s / 86400)) with ((1440 * (s / 86400)) * 60) by lia; apply Z.mod_mul; lia).
    rewrite Hh, Hm, !Z.div_0_l by lia. lia.
Qed.

(** ** The points *)

(** The first second that is not before a time. *)
Definition ceil_secs (t : Time) : Z := if 0 <? nsec t then unix t + 1 else unix t.

Lemma Before_ceil s t : 0 <= nsec t -> Before (mkTime s 0 0) t = (s <? ceil_secs t).
Proof. intros Ht. unfold Before, ceil_secs. cbn [unix nsec]. destruct (0 <? nsec t) eqn:E; lia. Qed.

(** The number of points from the second [s] on. *)
Definition points_count (s : Z) (to : Time) (bucket : ActivityStatsBucket) : Z :=
  Z.max 0 ((ceil_secs to - s + step_of bucket - 1) / step_of bucket).

Lemma points_count_step s to bucket :
  s < ceil_secs to -> points_count s to bucket = points_count (s + step_of bucket) to bucket + 1.
Proof.
  intros Hs. unfold points_count. pose proof (step_pos bucket) as Hp. set (k := step_of bucket) in *.
  replace (ceil_secs to - s + k - 1) with (ceil_secs to - (s + k) + k - 1 + 1 * k) by lia. rewrite Z.div_add by lia.
  assert (0 <= (ceil_secs to - (s + k) + k - 1) / k) by (apply Z.div_pos; lia). lia.
Qed.

Lemma points_count_end s to bucket : ceil_secs to <= s -> points_count s to bucket = 0.
Proof.
  intros Hs. unfold points_count. pose proof (step_pos bucket) as Hp.
  assert ((ceil_secs to - s + step_of bucket - 1) / step_of bucket < 1); [|lia]. apply Z.div_lt_upper_bound; lia.
Qed.

(** The starts of the points are an arithmetic progression. *)
Definition starts (s n k : Z) : list Time := map (fun i => mkTime (s + i * k) 0 0) (seqZ 0 n).

Lemma starts_step s n k : 0 <= n -> starts s (n + 1) k = mkTime s 0 0 :: starts (s + k) n k.
Proof.
  intros Hn. unfold starts. rewrite seqZ_cons by lia. cbn [map]. f_equal; [f_equal; lia|].
  replace (Z.pred (n + 1)) with n by lia. rewrite <- Z.add_1_r, <- (fmap_add_seqZ 1 0), map_map.
  apply map_ext. intros i. f_equal. lia.
Qed.

Lemma build_points_spec series raw bucket to : 0 <= nsec to -> forall fuel s,
  s mod step_of bucket = 0 -> points_count s to bucket < Z.of_nat fuel ->
  build_points fuel (mkTime s 0 0) to bucket series raw =
    Some (map (point_at series raw) (starts s (points_count s to bucket) (step_of bucket))).
Proof.
  intros Ht. pose proof (step_pos bucket) as Hp. induction fuel as [|fuel IH]; intros s Hs Hf.
  { pose proof (Z.le_max_l 0 ((ceil_secs to - s + step_of bucket - 1) / step_of bucket)). unfold points_count in Hf. lia. }
  cbn [build_points]. rewrite Before_ceil by done. destruct (s <? ceil_secs to) eqn:E.
  - pose proof (points_count_step s to bucket ltac:(lia)) as Hn. rewrite advance_step, IH; [| |lia|done].
    + cbn [mbind option_bind]. rewrite Hn. rewrite starts_step by (unfold points_count; lia). done.
    + rewrite Z.add_mod, Hs, Z.mod_same by lia. done.
  - rewrite points_count_end by lia. done.
Qed.

Lemma points_fuel_enough s to bucket : 0 <= nsec to -> points_count s to bucket < Z.of_nat (points_fuel (mkTime s 0 0) to bucket).
Proof.
  intros Ht. unfold points_count, points_fuel. cbn [unix]. pose proof (step_pos bucket) as Hp. set (k := step_of bucket) in *.
  assert (ceil_secs to <= unix to + 1) by (unfold ceil_secs; destruct (0 <? nsec to); lia).
  assert ((ceil_secs to - s + k - 1) / k <= (unix to - s + 1 * k) / k) by (apply Z.div_le_mono; lia).
  rewrite (Z.div_add (unix to - s) 1 k) in * by lia. lia.
Qed.

(** BuildActivityStats always returns. *)
Lemma BuildActivityStats_points from to bucket series raw (s := unix from / step_of bucket * step_of bucket) :
  0 <= nsec to -> BuildActivityStats from to bucket series raw =
    Some (mkStats bucket from to series (map (point_at series raw) (starts s (points_count s to bucket) (step_of bucket)))).
Proof.
  intros Ht. unfold BuildActivityStats. rewrite truncate_floor. change (unix (UTC from)) with (unix from).
  fold s. pose proof (step_pos bucket). rewrite build_points_spec; [done..| |by apply points_fuel_enough].
  unfold s. apply Z.mod_mul. lia.
Qed.

(** ** The counts *)

Definition raw_get (raw : raw_counts) (s : Z) (key : string) : Z := default 0 (default ∅ (raw !! s) !! key).

Lemma series_fold (counts : gmap string Z) series key : forall m : gmap string Z,
  default 0 (fold_left (fun m k => <[k := default 0 (counts !! k)]> m) series m !! key) =
    if bool_decide (key ∈ series) then default 0 (counts !! key) else default 0 (m !! key).
Proof.
  induction series as [|k series IH]; intros m; cbn [fold_left].
  - rewrite bool_decide_false; [done|set_solver].
  - rewrite IH. destruct (decide (key ∈ series)) as [Hin|Hin].
    + rewrite !bool_decide_true by set_solver. done.
    + rewrite (bool_decide_false (key ∈ series)) by done. destruct (decide (key = k)) as [->|Hne].
      * rewrite bool_decide_true by set_solver. rewrite lookup_insert. by rewrite decide_True.
      * rewrite bool_decide_false by set_solver. by rewrite lookup_insert_ne.
Qed.

Lemma point_at_get series raw start key : key ∈ series ->
  default 0 (ptCounts (point_at series raw start) !! key) = raw_get raw (unix start) key.
Proof.
  intros Hin. unfold point_at, raw_get. cbn [ptCounts]. destruct (raw !! unix start) as [counts|]; cbn [default]; [|done].
  rewrite series_fold, bool_decide_true by done. done.
Qed.

Lemma raw_get_insert raw s s' key key' n :
  raw_get (<[s := <[key := n]> (default ∅ (raw !! s))]> raw) s' key' =
    if bool_decide ((s', key') = (s, key)) then n else raw_get raw s' key'.
Proof.
  unfold raw_get. destruct (decide (s' = s)) as [->|Hs].
  - rewrite lookup_insert, decide_True by done. cbn [default Datatypes.id]. destruct (decide (key' = key)) as [->|Hk].
    + rewrite bool_decide_true by done. rewrite lookup_insert, decide_True by done. done.
    + rewrite bool_decide_false by congruence. by rewrite lookup_insert_ne.
  - rewrite bool_decide_false by congruence. by rewrite lookup_insert_ne.
Qed.

(** A session that is a whole number of buckets from UTC has the buckets of UTC. *)
Definition aligned (tz : Z) (bucket : ActivityStatsBucket) : Prop := tz mod step_of bucket = 0.

Lemma date_trunc_aligned tz bucket t : aligned tz bucket -> date_trunc tz bucket t = t / 10 ^ 6 / step_of bucket * step_of bucket.
Proof.
  intros Ha. unfold date_trunc. pose proof (step_pos bucket) as Hp. unfold aligned in Ha. set (k := step_of bucket) in *.
  pose proof (Z.div_mod tz k ltac:(lia)) as Hd. rewrite Ha, Z.add_0_r in Hd.
  rewrite Hd at 1. rewrite (Z.mul_comm k), Z.div_add by lia. lia.
Qed.

Lemma raw_of_fold tz bucket items s key gs : Forall (fun g => g.1 mod step_of bucket = 0) gs -> forall raw,
  raw_get (fold_left (fun raw g =>
    let start := unix (truncateActivityBucket (mkTime g.1 0 0) bucket) in
    <[start := <[g.2 := group_count tz bucket items g]> (default ∅ (raw !! start))]> raw) gs raw) s key =
  if bool_decide ((s, key) ∈ gs) then group_count tz bucket items (s, key) else raw_get raw s key.
Proof.
  induction 1 as [|g gs Hg _ IH]; intros raw; cbn [fold_left]; [rewrite bool_decide_false; [done|set_solver]|].
  rewrite IH. clear IH. cbv zeta. rewrite truncate_floor. cbn [unix].
  assert (g.1 / step_of bucket * step_of bucket = g.1) as -> by (pose proof (step_pos bucket); pose proof (Z.div_mod g.1 (step_of bucket)); lia).
  rewrite raw_get_insert, <- surjective_pairing.
  destruct (decide ((s, key) ∈ gs)); [by rewrite !bool_decide_true by set_solver|].
  rewrite (bool_decide_false (_ ∈ gs)) by done. destruct (decide ((s, key) = g)) as [<-|].
  - by rewrite !bool_decide_true by set_solver.
  - by rewrite !bool_decide_false by set_solver.
Qed.

Lemma groups_elem tz bucket items g : g ∈ groups tz bucket items <-> g ∈ map (fun item => (date_trunc tz bucket item.1, item.2)) items.
Proof. unfold groups. by rewrite (sort_by_perm _), elem_of_remove_dups. Qed.

(** The counts that the loop over the rows collects are those of the items. *)
Lemma raw_of_get tz bucket items s key : aligned tz bucket -> raw_get (raw_of tz bucket items) s key = group_count tz bucket items (s, key).
Proof.
  intros Ha. unfold raw_of. rewrite raw_of_fold.
  - case_bool_decide as Hin; [done|]. unfold raw_get. rewrite lookup_empty. cbn [default]. rewrite lookup_empty. cbn [default].
    rewrite groups_elem in Hin. unfold group_count.
    destruct (List.filter _ items) as [|item l] eqn:Hl; [done|]. assert (In item (item :: l)) as Hitem by (by left).
    rewrite <- Hl in Hitem. apply filter_In in Hitem as [Hitem E%bool_decide_eq_true]. exfalso. apply Hin, list_elem_of_In, in_map_iff.
    by exists item.
  - apply list.Forall_forall. intros g Hg. rewrite groups_elem in Hg. apply list_elem_of_In, in_map_iff in Hg as (item & <- & _).
    cbn [fst]. rewrite date_trunc_aligned by done. apply Z.mod_mul. pose proof (step_pos bucket). lia.
Qed.

(** ** Every item is counted once *)

Definition point_count (key : string) (p : ActivityStatsPoint) : Z := default 0 (ptCounts p !! key).
Definition total (key : string) (stats : ActivityStats) : Z := fold_right Z.add 0 (map (point_count key) (stPoints stats)).
Definition of_key (key : string) (items : list (Z * string)) : Z :=
  Z.of_nat (List.length (List.filter (fun item => String.eqb item.2 key) items)).

Lemma count_disjoint {A} (p q : A -> bool) l : (forall x, p x = true -> q x = false) ->
  List.length (List.filter (fun x => p x || q x) l) = (List.length (List.filter p l) + List.length (List.filter q l))%nat.
Proof.
  intros Hpq. induction l as [|x l IH]; [done|]. cbn [List.filter]. specialize (Hpq x).
  destruct (p x), (q x); cbn [orb List.length]; first [by specialize (Hpq eq_refl) | lia].
Qed.

(** The counts of different keys add up to the count of the items with one of the keys. *)
Lemma count_by_keys {A K} `{EqDecision K} (g : A -> K) items ks : NoDup ks ->
  fold_right Z.add 0 (map (fun k => Z.of_nat (List.length (List.filter (fun x => bool_decide (g x = k)) items))) ks) =
  Z.of_nat (List.length (List.filter (fun x => bool_decide (g x ∈ ks)) items)).
Proof.
  induction 1 as [|k ks Hk _ IH]; cbn [map fold_right].
  - rewrite (filter_ext _ (fun _ => false)); [by induction items|]. intros x. apply bool_decide_false. set_solver.
  - rewrite IH, <- Nat2Z.inj_add, <- (count_disjoint (fun x => bool_decide (g x = k)) (fun x => bool_decide (g x ∈ ks))).
    + do 2 f_equal. apply filter_ext. intros x. rewrite <- bool_decide_or. apply bool_decide_ext. set_solver.
    + intros x <-%bool_decide_eq_true. by apply bool_decide_false.
Qed.

(** The second of an item lies in one of the buckets. *)
Lemma start_covered from to bucket t (k := step_of bucket) (s := unix from / k * k) :
  unix from <= t -> t < ceil_secs to -> exists i, 0 <= i < points_count s to bucket /\ t / k * k = s + i * k.
Proof.
  intros Hf Ht. pose proof (step_pos bucket) as Hp. fold k in Hp. exists (t / k - unix from / k).
  assert (unix from / k <= t / k) by (apply Z.div_le_mono; lia). split; [|unfold s; lia]. split; [lia|].
  apply Z.lt_le_trans with ((ceil_secs to - s + k - 1) / k); [|unfold points_count; fold k; lia].
  pose proof (Z.div_mod t k ltac:(lia)) as Hd. pose proof (Z.mod_pos_bound t k Hp).
  replace (ceil_secs to - s + k - 1) with (ceil_secs to + k - 1 + (- (unix from / k)) * k) by (unfold s; lia). rewrite Z.div_add by lia.
  assert (t / k + 1 <= (ceil_secs to + k - 1) / k); [|lia]. apply Z.div_le_lower_bound; lia.
Qed.

(** An instant of the database falls in a point: in the hour or the day that it starts. *)
Definition in_point (bucket : ActivityStatsBucket) (p : ActivityStatsPoint) (t : Z) : Prop :=
  unix (ptStart p) <= t / 10 ^ 6 < unix (ptStart p) + step_of bucket.
#[global] Instance in_point_dec bucket p t : Decision (in_point bucket p t) := _.

(** Each count of a point is that of the items that fall in it, and every item falls in
    exactly one point. *)
Definition points_exact (series : list string) (items : list (Z * string)) (stats : ActivityStats) : Prop :=
  (forall p key, p ∈ stPoints stats -> key ∈ series -> point_count key p =
     Z.of_nat (List.length (List.filter (fun item => String.eqb item.2 key && bool_decide (in_point (stBucket stats) p item.1)) items))) /\
  (forall item, item ∈ items -> exists i p, stPoints stats !! i = Some p /\ in_point (stBucket stats) p item.1 /\
     forall j q, stPoints stats !! j = Some q -> in_point (stBucket stats) q item.1 -> j = i).

Lemma bucket_of_start k t q : 0 < k -> (t / k * k = q * k <-> q * k <= t < q * k + k).
Proof.
  intros Hk. pose proof (Z.div_mod t k ltac:(lia)). pose proof (Z.mod_pos_bound t k Hk). split; [intros; nia|].
  intros [H1 H2]. assert (t / k = q) as ->; [|done]. symmetry. apply Z.div_unique with (t - q * k); lia.
Qed.

Lemma stats_of_points tz from to series items (bucket := ChooseActivityStatsBucket from to) stats :
  aligned tz bucket -> 0 <= nsec to ->
  Forall (fun item => unix from <= item.1 / 10 ^ 6 < ceil_secs to) items ->
  stats_of tz from to series items = Some stats -> points_exact series items stats.
Proof.
  intros Ha Ht Hitems. unfold stats_of. fold bucket. rewrite BuildActivityStats_points by done. intros [= <-].
  pose proof (step_pos bucket) as Hp. unfold points_exact. cbn [stPoints stBucket].
  set (k := step_of bucket) in *. set (s := unix from / k * k). set (n := points_count s to bucket).
  assert (forall i, s + i * k = (unix from / k + i) * k) as Hs by (intros; unfold s; lia). split.
  - intros p key (start & <- & Hin)%list_elem_of_In%in_map_iff Hkey. apply in_map_iff in Hin as (i & <- & _).
    unfold point_count. rewrite point_at_get, raw_of_get by done. cbn [unix]. unfold group_count. do 2 f_equal. apply filter_ext. intros [t c].
    cbn [fst snd]. rewrite date_trunc_aligned by done. fold k. apply eq_true_iff_eq.
    rewrite andb_true_iff, !bool_decide_eq_true, String.eqb_eq. unfold in_point. cbn [ptStart point_at unix]. fold k. rewrite Hs, <- bucket_of_start by done.
    split; [by intros [= -> ->]|]. by intros [-> ->].
  - intros [t c] Hin. rewrite list.Forall_forall in Hitems. apply Hitems in Hin. cbn [fst] in *.
    destruct (start_covered from to bucket (t / 10 ^ 6)) as (i & Hi & Heq); [lia..|]. fold k s in Heq, Hi. fold n in Hi.
    assert (forall j q, (map (point_at series (raw_of tz bucket items)) (starts s n k)) !! j = Some q ->
      (Z.of_nat j < n) /\ unix (ptStart q) = s + Z.of_nat j * k) as Hpoint.
    { intros j q. unfold starts. change @map with @list_fmap. rewrite !list_lookup_fmap.
      destruct (seqZ 0 n !! j) as [m|] eqn:Hm; [|done]. cbn. intros [= <-]. apply lookup_seqZ in Hm as [-> Hm]. split; [lia|]. cbn. lia. }
    destruct ((map (point_at series (raw_of tz bucket items)) (starts s n k)) !! Z.to_nat i) as [p|] eqn:Hl.
    + exists (Z.to_nat i), p. split; [done|]. apply Hpoint in Hl as [_ Hstart]. rewrite Z2Nat.id in Hstart by lia. split.
      * unfold in_point. rewrite Hstart. fold k. rewrite Hs in *. by apply bucket_of_start.
      * intros j q Hq Hinq. apply Hpoint in Hq as [_ Hj]. unfold in_point in Hinq. rewrite Hj, Hs in Hinq. fold k in Hinq.
        apply bucket_of_start in Hinq; [|done]. rewrite Heq, Hs in Hinq. apply Z.mul_cancel_r in Hinq; lia.
    + apply lookup_ge_None in Hl. unfold starts in Hl. rewrite !length_map, length_seqZ in Hl. lia.
Qed.

(** Every item between the ends is counted in exactly one point. *)
Lemma stats_of_total tz from to series items key (bucket := ChooseActivityStatsBucket from to) stats :
  aligned tz bucket -> 0 <= nsec to -> key ∈ series ->
  Forall (fun item => unix from <= item.1 / 10 ^ 6 < ceil_secs to) items ->
  stats_of tz from to series items = Some stats -> total key stats = of_key key items.
Proof.
  intros Ha Ht Hk Hitems. unfold stats_of. fold bucket. rewrite BuildActivityStats_points by done. intros [= <-].
  unfold total. cbn [stPoints]. rewrite map_map. pose proof (step_pos bucket) as Hp. set (k := step_of bucket) in *.
  set (s := unix from / k * k). set (n := points_count s to bucket).
  rewrite (map_ext _ (fun start => group_count tz bucket items (unix start, key))).
  2: { intros start. unfold point_count. by rewrite point_at_get, raw_of_get. }
  unfold starts. rewrite map_map. cbn [unix]. unfold group_count.
  rewrite <- (map_map (fun i => (s + i * k, key))
    (fun g => Z.of_nat (List.length (List.filter (fun item => bool_decide ((date_trunc tz bucket item.1, item.2) = g)) items)))).
  rewrite (count_by_keys (fun item => (date_trunc tz bucket item.1, item.2))).
  - unfold of_key. do 2 f_equal. apply filter_ext_in. intros [t c] Hin. cbn [fst snd]. rewrite date_trunc_aligned by done. fold k.
    apply eq_true_iff_eq. rewrite bool_decide_eq_true, String.eqb_eq. split.
    + intros (i & [= _ <-] & _)%list_elem_of_fmap. done.
    + intros ->. rewrite list.Forall_forall in Hitems. apply list_elem_of_In, Hitems in Hin. cbn [fst] in Hin.
      destruct (start_covered from to bucket (t / 10 ^ 6)) as (i & Hi & Hs); [lia..|]. fold k s in Hs, Hi. fold n in Hi.
      apply list_elem_of_fmap. exists i. split; [by rewrite Hs|]. by apply elem_of_seqZ.
  - apply NoDup_fmap_2; [|apply NoDup_seqZ]. intros i j [= H]. apply Z.mul_cancel_r with k; lia.
Qed.

Lemma micros_between from to t : 0 <= nsec from -> 0 <= nsec to < 10 ^ 9 -> micros from <= t < micros to ->
  unix from <= t / 10 ^ 6 < ceil_secs to.
Proof.
  unfold micros, ceil_secs. intros Hf Ht [H1 H2]. assert (0 <= nsec from / 1000) by (apply Z.div_pos; lia).
  assert (nsec to / 1000 < 10 ^ 6) by (apply Z.div_lt_upper_bound; lia). split.
  - apply Z.div_le_lower_bound; lia.
  - apply Z.div_lt_upper_bound; [lia|]. destruct (0 <? nsec to) eqn:E; [lia|]. assert (nsec to = 0) as E0 by lia. rewrite E0 in H2.
    change (0 / 1000) with 0 in H2. lia.
Qed.

Definition valid_time (t : Time) : Prop := 0 <= nsec t < 10 ^ 9.

(** What both statistics share: an answer whose points hold every item between the ends once. *)
Lemma stats_complete tz from to series items : valid_time from -> valid_time to -> aligned tz (ChooseActivityStatsBucket from to) ->
  Forall (fun item => micros from <= item.1 < micros to) items ->
  exists stats, stats_of tz from to series items = Some stats /\ stSeries stats = series /\
    points_exact series items stats /\ forall key, key ∈ series -> total key stats = of_key key items.
Proof.
  intros Hf Ht Ha Hitems.
  assert (Forall (fun item => unix from <= item.1 / 10 ^ 6 < ceil_secs to) items) as Hsecs.
  { eapply list.Forall_impl; [exact Hitems|]. intros item. apply micros_between; [apply Hf|apply Ht]. }
  destruct (stats_of tz from to series items) as [stats|] eqn:E.
  - exists stats. split; [done|]. split; [|split].
    + unfold stats_of in E. rewrite BuildActivityStats_points in E by apply Ht. by injection E as <-.
    + apply (stats_of_points tz from to series items); [done|apply Ht|done|done].
    + intros key Hk. apply (stats_of_total tz from to series items key); [done|apply Ht|done|done|done].
  - unfold stats_of in E. by rewrite BuildActivityStats_points in E by apply Ht.
Qed.

Lemma job_items_between params d a b : lCreatedAfter params = Some a -> lCreatedBefore params = Some b ->
  Forall (fun item => a <= item.1 < b) (job_items params d).
Proof.
  intros Ha Hb. apply list.Forall_forall. intros item Hin. apply list_elem_of_In, in_map_iff in Hin as (r & <- & [_ Hr]%filter_In).
  cbn [fst]. unfold jobRunListWhereClause in Hr. rewrite Ha, Hb in Hr. rewrite !andb_true_iff in Hr. lia.
Qed.

Lemma event_items_between params c a b : leReceivedAfter params = Some a -> leReceivedBefore params = Some b ->
  Forall (fun item => a <= item.1 < b) (event_items params c).
Proof.
  intros Ha Hb. apply list.Forall_forall. intros item Hin. apply list_elem_of_In, in_map_iff in Hin as (r & <- & [_ Hr]%filter_In).
  cbn [fst]. unfold upstreamEventListWhereClause in Hr. rewrite Ha, Hb in Hr. rewrite !andb_true_iff in Hr. lia.
Qed.

(** C38: the statistics of upstream events, in a session that is a whole number of buckets from UTC: every
    event of the filter falls in exactly one point, the hour or the day of its arrival; each of the four counts
    of a point is the number of events of the category that fall in it; and all the counts add up to
    CountUpstreamEvents. *)
Theorem event_stats_complete tz params from to (c : Catalog) :
  valid_time from -> valid_time to -> After (UTC to) (UTC from) = true -> aligned tz (ChooseActivityStatsBucket (UTC from) (UTC to)) ->
  leReceivedAfter params = Some (micros from) -> leReceivedBefore params = Some (micros to) ->
  exists stats, UpstreamEventActivityStats tz params (Some from) (Some to) [] c = (Ok (Some stats), c) /\
    stSeries stats = ["created"; "removed"; "metadata_changed"; "other"] /\ points_exact (stSeries stats) (event_items params c) stats /\
    CountUpstreamEvents params c =
      (Ok (fold_right Z.add 0 (map (fun key => total key stats) ["created"; "removed"; "metadata_changed"; "other"])), c).
Proof.
  intros Hf Ht Hft Ha Hpa Hpb.
  destruct (stats_complete tz (UTC from) (UTC to) ["created"; "removed"; "metadata_changed"; "other"] (event_items params c)) as (stats & Hs & Hser & Hex & Htot);
    [done..|by apply event_items_between|].
  exists stats. unfold UpstreamEventActivityStats, stats_range. rewrite Hft. cbn [negb]. rewrite Hs, Hser. split_and!; [done|done|exact Hex|].
  unfold CountUpstreamEvents, gets. do 2 f_equal. rewrite (map_ext_in _ (fun key => of_key key (event_items params c))).
  2: { intros key Hkey. apply Htot. by apply list_elem_of_In. }
  unfold of_key. rewrite (map_ext _ (fun key => Z.of_nat (List.length (List.filter (fun x => bool_decide (snd x = key)) (event_items params c))))).
  2: { intros key. do 2 f_equal. apply filter_ext. intros item. apply eq_true_iff_eq. by rewrite String.eqb_eq, bool_decide_eq_true. }
  rewrite (count_by_keys snd); [|by apply (bool_decide_unpack _); vm_compute]. unfold count_rows, event_items. f_equal.
  rewrite (forallb_filter_id _ (map _ _)); [by rewrite length_map|]. apply forallb_forall.
  intros item (e & <- & _)%in_map_iff. apply bool_decide_eq_true. cbn [snd]. unfold upstreamEventCategoryCase.
  repeat case_match; set_solver.
Qed.

(** The statistics of jobs, in a session that is a whole number of buckets from UTC, count every job of the
    filter in exactly one point of its series, the one it was created in. *)
Theorem job_stats_complete tz params from to series (d : db) :
  valid_time from -> valid_time to -> After (UTC to) (UTC from) = true -> aligned tz (ChooseActivityStatsBucket (UTC from) (UTC to)) ->
  lCreatedAfter params = Some (micros from) -> lCreatedBefore params = Some (micros to) ->
  exists stats, JobRunActivityStats tz params (Some from) (Some to) series d = (Ok (Some stats), d) /\
    stSeries stats = match series with [] => listJobRunTypeFilter params | _ => series end /\
    points_exact (stSeries stats) (job_items params d) stats /\
    forall key, key ∈ stSeries stats -> total key stats = of_key key (job_items params d).
Proof.
  intros Hf Ht Hft Ha Hpa Hpb. set (names := match series with [] => listJobRunTypeFilter params | _ => series end).
  destruct (stats_complete tz (UTC from) (UTC to) names (job_items params d)) as (stats & Hs & Hser & Hex & Htot); [done..|by apply job_items_between|].
  exists stats. unfold JobRunActivityStats, stats_range. rewrite Hft. cbn [negb]. fold names. rewrite Hs, Hser. done.
Qed.

(** ** A session off UTC *)

(** In a session whose time zone is not a whole number of buckets from UTC an event is left out: with a session
    at UTC+1 an event of the first day is counted under the day before, which has no point. *)
Theorem off_utc_session_drops :
  let from := mkTime 0 0 0 in let to := mkTime (3 * 86400) 0 0 in
  exists stats, stats_of 3600 from to ["created"] [(1000000, "created")] = Some stats /\
    stBucket stats = ActivityStatsBucketDay /\ total "created" stats = 0 /\ of_key "created" [(1000000, "created")] = 1.
Proof. eexists. by vm_compute. Qed.

(** ** A filter that is satisfied *)

Definition demo_stats_catalog : Catalog :=
  set_upstream_events (<["e1" := mkEvent "e1" "b1" "ObjectCreated:Put" "k" ∅ "d1" UpstreamEventTransportJetstream EventPending None 5000000 None "" 0 0]>
    (upstream_events empty_catalog)) empty_catalog.
Definition demo_stats_params : ListUpstreamEventsParams := mkListEvents "" "" "" (Some 0) (Some (3600 * 10 ^ 6)) 0 0.

Lemma event_stats_complete_witness :
  exists stats, UpstreamEventActivityStats 0 demo_stats_params (Some (mkTime 0 0 0)) (Some (mkTime 3600 0 0)) [] demo_stats_catalog =
      (Ok (Some stats), demo_stats_catalog) /\
    points_exact (stSeries stats) (event_items demo_stats_params demo_stats_catalog) stats /\
    (exists i p, stPoints stats !! i = Some p /\ in_point (stBucket stats) p 5000000) /\
    CountUpstreamEvents demo_stats_params demo_stats_catalog =
      (Ok (fold_right Z.add 0 (map (fun key => total key stats) ["created"; "removed"; "metadata_changed"; "other"])), demo_stats_catalog).
Proof.
  destruct (event_stats_complete 0 demo_stats_params (mkTime 0 0 0) (mkTime 3600 0 0) demo_stats_catalog) as (stats & E & _ & Hex & Hc);
    [by vm_compute..|].
  exists stats. split; [exact E|]. split; [exact Hex|]. split; [|exact Hc].
  assert ((5000000, "created") ∈ event_items demo_stats_params demo_stats_catalog) as Hin.
  { assert (event_items demo_stats_params demo_stats_catalog = [(5000000, "created")]) as -> by (vm_compute; reflexivity). by left. }
  clear Hc E. destruct Hex as [_ Hex]. specialize (Hex _ Hin). cbn [fst] in Hex. destruct Hex as (i & p & Hi & Hp & _). exists i, p. by split.
Defined.
