(* ===== verification/JobsHttp.v ===== *)
(** * JobsHttp

    The routes of the jobs, of the events of buckets and of their statistics:
    apps/api/internal/httpserver/jobs (routes.go, responses.go, trace_responses.go),
    bucketevents (routes.go, responses.go), observability/stats.go and system/routes.go.
    A summary of a trace is read in one statement.  [sprint] is fmt.Sprint. *)
From S2P Require Import Prelude GoStrings GoTime JobPayload JobRuns JobTrace ErrState Catalog UpstreamEvents ActivityStats.
From S2P Require Import Auth Request Http Collections ObjectStore.
Local Open Scope Z_scope.

(** ** Answers *)

Record JobRunResponse := mkJobRunResponse {
  jrID : string; jrTraceID : string; jrType : string; jrState : JobRunState; jrRequestedByType : string; jrRequestedByID : string;
  jrTargetType : string; jrTargetID : string; jrInput : payload; jrResult : payload; jrProgress : payload; jrAttempt : Z;
  jrMaxAttempts : Z; jrAvailableAt : Z; jrLockedBy : string; jrLockedAt : option Z; jrStartedAt : option Z; jrFinishedAt : option Z;
  jrErrorMessage : string; jrCreatedAt : Z; jrUpdatedAt : Z
}.
Definition JobRunResponseFromStorage (run : JobRun) : JobRunResponse :=
  mkJobRunResponse (ID run) (TraceID run) (Type_ run) (State run) (RequestedByType run) (RequestedByID run) (TargetType run) (TargetID run)
    (Input run) (Result_ run) (Progress run) (Attempt run) (MaxAttempts run) (AvailableAt run) (LockedBy run) (LockedAt run)
    (StartedAt run) (FinishedAt run) (ErrorMessage run) (CreatedAt run) (UpdatedAt run).

Record TraceObjectCountsResponse := mkObjectCountsResponse { tcImport : Z; tcRefresh : Z; tcRemove : Z }.
Record TraceBatchStateResponse := mkBatchResponse { tbTotal : Z; tbDone : Z; tbFailed : Z; tbActive : Z; tbPending : Z }.
Record TraceBatchCountsResponse := mkBatchesResponse {
  tbImport : TraceBatchStateResponse; tbRefresh : TraceBatchStateResponse; tbRemove : TraceBatchStateResponse
}.
Record TraceJobTypeCountsResponse := mkTypeCountsResponse { tjTotal : Z; tjPending : Z; tjRunning : Z; tjSucceeded : Z; tjFailed : Z; tjCancelled : Z }.
Record TraceSummaryResponse := mkSummaryResponse {
  tsTraceID : string; tsRootJobRunID : string; tsState : JobRunState; tsPhase : string; tsObjectsListed : Z;
  tsObjectsPlanned : TraceObjectCountsResponse; tsObjectsApplied : TraceObjectCountsResponse; tsBatches : TraceBatchCountsResponse;
  tsStaleSeconds : Z; tsJobCounts : gmap string TraceJobTypeCountsResponse
}.
Record JobRunDetailResponse := mkDetailResponse { jdRun : JobRunResponse; jdTraceSummary : option TraceSummaryResponse }.

Definition traceBatchStateResponseFromStorage (state : TraceBatchState) : TraceBatchStateResponse :=
  mkBatchResponse (bTotal state) (bDone state) (bFailed state) (bActive state) (bPending state).
Definition object_counts_response (counts : TraceObjectCounts) : TraceObjectCountsResponse :=
  mkObjectCountsResponse (oImport counts) (oRefresh counts) (oRemove counts).
Definition TraceSummaryResponseFromStorage (summary : TraceSummary) : TraceSummaryResponse :=
  mkSummaryResponse (sTraceID summary) (sRootJobRunID summary) (sState summary) (sPhase summary) (sObjectsListed summary)
    (object_counts_response (sObjectsPlanned summary)) (object_counts_response (sObjectsApplied summary))
    (mkBatchesResponse (traceBatchStateResponseFromStorage (tImport (sBatches summary)))
       (traceBatchStateResponseFromStorage (tRefresh (sBatches summary))) (traceBatchStateResponseFromStorage (tRemove (sBatches summary))))
    (sStaleSeconds summary)
    ((fun counts => mkTypeCountsResponse (nTotal counts) (nPending counts) (nRunning counts) (nSucceeded counts) (nFailed counts) (nCancelled counts))
       <$> sJobCounts summary).
Definition JobRunDetailResponseFromStorage (run : JobRun) (summary : option TraceSummary) : JobRunDetailResponse :=
  mkDetailResponse (JobRunResponseFromStorage run) (TraceSummaryResponseFromStorage <$> summary).

Definition includesTraceSummary (include : string) : bool :=
  existsb (fun part => String.eqb (TrimSpace part) "trace_summary") (Split "," include).

Record BucketEventResponse := mkEventResponse {
  beID : string; beBucketID : string; beEventName : string; beObjectKey : string; beEnvelope : payload; beDedupeKey : string;
  beTransport : string; beState : UpstreamEventState; beEventTime : option Z; beReceivedAt : Z; beProcessedAt : option Z;
  beErrorMessage : string; beCreatedAt : Z; beUpdatedAt : Z
}.
Definition BucketEventResponseFromStorage (event : UpstreamEvent) : BucketEventResponse :=
  mkEventResponse (eID event) (eBucketID event) (eEventName event) (eObjectKey event) (eEnvelope event) (eDedupeKey event)
    (eTransport event) (eState event) (eEventTime event) (eReceivedAt event) (eProcessedAt event) (eErrorMessage event)
    (eCreatedAt event) (eUpdatedAt event).

Record ActivityStatsPointResponse := mkPointResponse { apStart : Time; apCounts : gmap string Z }.
Record ActivityStatsResponse := mkStatsResponse {
  asBucket : ActivityStatsBucket; asFrom : Time; asTo : Time; asSeries : list string; asPoints : list ActivityStatsPointResponse
}.
Definition ActivityStatsResponseFromStorage (stats : ActivityStats) : ActivityStatsResponse :=
  mkStatsResponse (stBucket stats) (stFrom stats) (stTo stats) (stSeries stats)
    (map (fun p => mkPointResponse (ptStart p) (ptCounts p)) (stPoints stats)).

(** ** Parameters of the requests *)

(** [None] is a text that is not a time; of a time, [Some None] is the empty text. *)
Definition ParseOptionalTime (raw : string) : option (option Time) :=
  if String.eqb raw "" then Some None else parsed ← ParseRFC3339 raw; Some (Some (UTC parsed)).

Definition parseJobRunTypes (raw : string) : list string :=
  if String.eqb (TrimSpace raw) "" then []
  else List.filter (fun part => negb (String.eqb part "")) (map TrimSpace (Split "," raw)).

Definition parseJobRunTypeStrings (typesRaw typeRaw : string) : list string :=
  match parseJobRunTypes typesRaw with
  | [] => if negb (String.eqb (TrimSpace typeRaw) "") then [typeRaw] else []
  | types => types
  end.

Record listJobRunsInput := mkJobRunsInput {
  liType : string; liTypes : string; liState : string; liTraceID : string; liRequestedByType : string; liRequestedByID : string;
  liTargetType : string; liTargetID : string; liCreatedAfter : string; liCreatedBefore : string; liLimit : Z; liOffset : Z
}.

(** The parameters, and the two ends as they were parsed. *)
Definition listJobRunsParamsFromInput (input : listJobRunsInput) : option (ListJobRunsParams * (option Time * option Time)) :=
  createdAfter ← ParseOptionalTime (liCreatedAfter input);
  createdBefore ← ParseOptionalTime (liCreatedBefore input);
  Some (mkList (liType input) (parseJobRunTypes (liTypes input)) (liState input) (liTraceID input) (liRequestedByType input)
          (liRequestedByID input) (liTargetType input) (liTargetID input) (micros <$> createdAfter) (micros <$> createdBefore)
          (liLimit input) (liOffset input), (createdAfter, createdBefore)).

(** The input of the statistics has no trace, limit or offset. *)
Definition stats_input (input : listJobRunsInput) : listJobRunsInput :=
  mkJobRunsInput (liType input) (liTypes input) (liState input) "" (liRequestedByType input) (liRequestedByID input) (liTargetType input)
    (liTargetID input) (liCreatedAfter input) (liCreatedBefore input) 0 0.
Definition listJobRunsParamsFromStatsInput (input : listJobRunsInput) : option (ListJobRunsParams * (option Time * option Time)) :=
  listJobRunsParamsFromInput (stats_input input).

Record listBucketEventsInput := mkEventsInput {
  lbBucketID : string; lbState : string; lbCategory : string; lbReceivedAfter : string; lbReceivedBefore : string; lbLimit : Z; lbOffset : Z
}.
Definition listBucketEventsParamsFromInput (input : listBucketEventsInput) : option (ListUpstreamEventsParams * (option Time * option Time)) :=
  receivedAfter ← ParseOptionalTime (lbReceivedAfter input);
  receivedBefore ← ParseOptionalTime (lbReceivedBefore input);
  Some (mkListEvents (lbBucketID input) (lbState input) (lbCategory input) (micros <$> receivedAfter) (micros <$> receivedBefore)
          (lbLimit input) (lbOffset input), (receivedAfter, receivedBefore)).
Definition listBucketEventsParamsFromStatsInput (input : listBucketEventsInput) : option (ListUpstreamEventsParams * (option Time * option Time)) :=
  listBucketEventsParamsFromInput (mkEventsInput (lbBucketID input) (lbState input) (lbCategory input) (lbReceivedAfter input) (lbReceivedBefore input) 0 0).

Record page (A : Type) := mkPage { pgItems : list A; pgTotal : Z; pgLimit : Z; pgOffset : Z }.
Arguments mkPage {A} _ _ _ _.

(** ** Handlers *)

Section Handlers.
Context (E : Surroundings ApiTables) (configured auth_configured : bool) (Error : store_error -> string) (sprint : value -> string).
(** The session time zone of the database. *)
Context (tz : Z).
Notation served := (handler (Server ApiTables)).

Definition jobs_unconfigured : string := "job dependencies are not configured".
Definition events_unconfigured : string := "storage is not configured".
Definition unparsable : Problem := UnprocessableEntity "parsing time".
Definition stats_problem (e : run_error) : Problem := match e with Failure e => UnprocessableEntity (Error e) | OutOfFuel => internal e end.

Definition handle_list_job_runs (input : listJobRunsInput) : served (page JobRunResponse) :=
  with_storage configured jobs_unconfigured
    match listJobRunsParamsFromInput input with
    | None => refuse unparsable
    | Some (params, _) =>
        bind_answer (or_problem internal (statement E (fun _ => on_api_jobs (ListJobRuns params)))) (fun runs =>
        bind_answer (or_problem internal (statement E (fun _ => on_api_jobs (CountJobRuns params)))) (fun total =>
        respond (mkPage (map JobRunResponseFromStorage runs) total (if lLimit params <=? 0 then 100 else lLimit params) (lOffset params))))
    end.

(** [None] in the answer: the statistics ran out of fuel, which they never do. *)
Definition handle_job_run_stats (input : listJobRunsInput) : served (option ActivityStatsResponse) :=
  with_storage configured jobs_unconfigured
    match listJobRunsParamsFromStatsInput input with
    | None => refuse unparsable
    | Some (params, (Some after, Some before)) =>
        bind_answer (or_problem stats_problem (statement E (fun _ => on_api_jobs
          (JobRunActivityStats tz params (Some after) (Some before) (parseJobRunTypeStrings (liTypes input) (liType input)))))) (fun stats =>
        respond (ActivityStatsResponseFromStorage <$> stats))
    | Some _ => refuse (UnprocessableEntity "created_after and created_before are required")
    end.

Definition handle_get_job_run (goNow : Z) (id include : string) : served JobRunDetailResponse :=
  with_storage configured jobs_unconfigured
    (bind_answer (or_problem (not_found_or_internal "job run not found") (statement E (fun _ => on_api_jobs (GetJobRun id)))) (fun run =>
     if includesTraceSummary include then
       if String.eqb (TraceID run) "" then refuse (InternalServerError "job run is missing trace_id")
       else bind_answer (or_problem internal (statement E (fun _ => on_api_jobs (SummarizeTrace sprint goNow (TraceID run))))) (fun summary =>
            respond (JobRunDetailResponseFromStorage run (Some summary)))
     else respond (JobRunDetailResponseFromStorage run None))).

Definition detect_duplicates_params (requestedBy : RequestedBy) (scope : option payload) : CreateJobRunParams :=
  mkCreate JobTypeDetectDuplicates "" (rbType requestedBy) (rbID requestedBy) "catalog" "catalog"
    (match scope with Some scope => {["scope" := VMap scope]} | None => ∅ end) 0 None.

Definition create_job (params : CreateJobRunParams) : M (Server ApiTables) JobRun :=
  random ← read_random E 16;
  statement E (fun n => on_api_jobs (CreateJobRun random (db_time E n) params)).

Definition handle_detect_duplicates (context : option Principal) (scope : option payload) : served JobRunResponse :=
  with_storage configured jobs_unconfigured
    (bind_answer (or_problem internal (create_job (detect_duplicates_params (RequestedByFromContext auth_configured context) scope))) (fun run =>
     respond (JobRunResponseFromStorage run))).

Definition handle_list_bucket_events (input : listBucketEventsInput) : served (page BucketEventResponse) :=
  with_storage configured events_unconfigured
    match listBucketEventsParamsFromInput input with
    | None => refuse unparsable
    | Some (params, _) =>
        bind_answer (or_problem internal (statement E (fun _ => on_api_catalog (ListUpstreamEvents params)))) (fun events =>
        bind_answer (or_problem internal (statement E (fun _ => on_api_catalog (CountUpstreamEvents params)))) (fun total =>
        respond (mkPage (map BucketEventResponseFromStorage events) total (if leLimit params <=? 0 then 100 else leLimit params) (leOffset params))))
    end.

Definition handle_bucket_event_stats (input : listBucketEventsInput) : served (option ActivityStatsResponse) :=
  with_storage configured events_unconfigured
    match listBucketEventsParamsFromStatsInput input with
    | None => refuse unparsable
    | Some (params, (Some after, Some before)) =>
        bind_answer (or_problem stats_problem (statement E (fun _ => on_api_catalog
          (UpstreamEventActivityStats tz params (Some after) (Some before) BucketEventStatsSeries)))) (fun stats =>
        respond (ActivityStatsResponseFromStorage <$> stats))
    | Some _ => refuse (UnprocessableEntity "received_after and received_before are required")
    end.

Definition handle_get_bucket_event (id : string) : served BucketEventResponse :=
  with_storage configured events_unconfigured
    (bind_answer (or_problem (not_found_or_internal "bucket event not found") (statement E (fun _ => on_api_catalog (GetUpstreamEvent id)))) (fun event =>
     respond (BucketEventResponseFromStorage event))).

Definition handle_healthz : served (string * string) := respond ("pithosys-api", "ok").
End Handlers.
