(* ===== verification/BucketsHttp.v ===== *)
(** * BucketsHttp

    The routes of the buckets: apps/api/internal/httpserver/buckets/routes.go.  A transaction
    is one statement.  [marshal] is json.Marshal of the credentials, a secret text that is
    only encrypted here; [interval] is how the driver sends a duration. *)
From S2P Require Import Prelude GoStrings JobPayload JobRuns JobTrace JobRunProofs ErrState Catalog Buckets JetStream Settings.
From S2P Require Import Auth Request Secrets Http Collections JobsHttp.
Local Open Scope Z_scope.

Record bucketResponse := mkBucketResponse {
  brID : string; brName : string; brUpstream : string; brEndpointURL : string; brRegion : string; brBucketName : string; brPrefix : string;
  brUpstreamConfig : payload; brPithosysConfig : BucketScanConfig; brCreatedAt : Z; brUpdatedAt : Z
}.
Definition bucketResponseFromStorage (bucket : Bucket) : bucketResponse :=
  mkBucketResponse (bID bucket) (bName bucket) (bUpstream bucket) (bEndpointURL bucket) (bRegion bucket) (bBucketName bucket) (bPrefix bucket)
    (bUpstreamConfig bucket) (bPithosysConfig bucket) (bCreatedAt bucket) (bUpdatedAt bucket).

Record createBucketBody := mkCreateBucketBody {
  xbName : string; xbUpstream : string; xbEndpointURL : string; xbRegion : string; xbBucketName : string; xbPrefix : string;
  xbUpstreamConfig : payload; xbCredentials : payload; xbPithosysConfig : option BucketScanConfig
}.
Record updateBucketBody := mkUpdateBucketBody {
  ybName : option string; ybEndpointURL : option string; ybRegion : option string; ybPrefix : option string;
  ybUpstreamConfig : option payload; ybCredentials : option payload; ybPithosysConfig : option BucketScanConfig
}.

Definition validateUpstreamConfigJetstream (bucketID : string) (config : payload) : result store_error unit :=
  match config !! "jetstream" with
  | None => Ok tt
  | Some _ => _ ← ParseBucketJetStreamConfig bucketID config; Ok tt
  end.

Definition errSyncAlreadyInProgress : store_error := Errorf "sync already in progress".

Definition sync_bucket_params (requestedBy : RequestedBy) (bucketID : string) : CreateJobRunParams :=
  mkCreate JobTypeSyncBucket "" (rbType requestedBy) (rbID requestedBy) "bucket" bucketID {["bucket_id" := VString bucketID]}
    DefaultSyncBucketMaxAttempts None.
Definition scan_bucket_params (requestedBy : RequestedBy) (bucketID prefix : string) : CreateJobRunParams :=
  mkCreate JobTypeScanBucket "" (rbType requestedBy) (rbID requestedBy) "bucket" bucketID
    (if negb (String.eqb prefix "") then <["prefix" := VString prefix]> {["bucket_id" := VString bucketID]} else {["bucket_id" := VString bucketID]})
    0 None.

Section Handlers.
Context `{AEAD} (E : Surroundings ApiTables) (configured auth_configured : bool) (secrets : option StaticKeyManager).
Context (Error : store_error -> string) (marshal : payload -> option string) (interval : Z -> Z).
Notation served := (handler (Server ApiTables)).
Notation Req := (M (Server ApiTables)).

Definition buckets_unconfigured : string := "bucket dependencies are not configured".
Definition bucket_problem : run_error -> Problem := not_found_or_internal "bucket not found".

(** [jobStaleTimeout]: the setting, or the default when it cannot be had. *)
Definition jobStaleTimeout : Req Z :=
  setting ← attempted (statement E (fun _ => on_api_settings (GetSetting SettingWorkerJobStaleTimeout)));
  mret (match setting with
        | Err _ => DefaultJobStaleTimeout
        | Ok setting =>
            match ParseSettingDuration SettingWorkerJobStaleTimeout (sValue setting) with Ok parsed => parsed | Err _ => DefaultJobStaleTimeout end
        end).

Definition createSyncBucketJob (context : option Principal) (bucketID : string) : Req JobRun :=
  create_job E (sync_bucket_params (RequestedByFromContext auth_configured context) bucketID).
Definition createScanBucketJob (context : option Principal) (bucketID prefix : string) : Req JobRun :=
  create_job E (scan_bucket_params (RequestedByFromContext auth_configured context) bucketID prefix).

Definition find_active (staleAfter : Z) (bucketID : string) : Req JobRun :=
  statement E (fun n => on_api_jobs (FindActiveWorkForTarget interval (db_time E n) staleAfter "bucket" bucketID)).

Definition enqueueSyncBucketJob (context : option Principal) (bucketID : string) : Req JobRun :=
  staleAfter ← jobStaleTimeout;
  resumable ← attempted (statement E (fun _ => on_api_jobs (FindResumableSyncJobRun "bucket" bucketID "")));
  match resumable with
  | Ok resumable => statement E (fun n => on_api_jobs (ResumeJobRun (db_time E n) (ID resumable)))
  | Err e =>
      if negb (not_found_run e) then fail e
      else
        blocking ← attempted (find_active staleAfter bucketID);
        match blocking with
        | Err e => if negb (not_found_run e) then fail e else createSyncBucketJob context bucketID
        | Ok blocking =>
            if negb (String.eqb (ID blocking) "") then fail (Failure errSyncAlreadyInProgress) else createSyncBucketJob context bucketID
        end
  end.

Definition in_progress : string := "catalog work is already in progress for this bucket".

(** The 409 names the blocking job when it is still found. *)
Definition refuse_in_progress {A} (staleAfter : Z) (bucketID : string) : served A :=
  bind_answer (called (find_active staleAfter bucketID)) (fun blocking =>
  match blocking with
  | Ok blocking => refuse (Conflict (in_progress +:+ " (" +:+ Type_ blocking +:+ " " +:+ ID blocking +:+ ")"))
  | Err _ => refuse (Conflict in_progress)
  end).

Definition handle_sync_bucket (context : option Principal) (id : string) : served JobRunResponse :=
  with_storage configured buckets_unconfigured
    (bind_answer (or_problem bucket_problem (statement E (fun _ => on_api_catalog (GetBucket id)))) (fun _ =>
     bind_answer (or_problem internal jobStaleTimeout) (fun staleAfter =>
     bind_answer (or_problem internal (statement E (fun n => on_api_jobs (FailActiveScanJobsForTarget (db_time E n) "bucket" id)))) (fun _ =>
     bind_answer (called (enqueueSyncBucketJob context id)) (fun run =>
     match run with
     | Err e => if bool_decide (e = Failure errSyncAlreadyInProgress) then refuse_in_progress staleAfter id else refuse (internal e)
     | Ok run => respond (JobRunResponseFromStorage run)
     end))))).

Definition handle_scan_bucket (context : option Principal) (id : string) (body : option string) : served JobRunResponse :=
  with_storage configured buckets_unconfigured
    (bind_answer (or_problem bucket_problem (statement E (fun _ => on_api_catalog (GetBucket id)))) (fun _ =>
     bind_answer (or_problem internal jobStaleTimeout) (fun staleAfter =>
     bind_answer (or_problem internal (statement E (fun n => on_api_jobs (HasActiveWorkForTarget interval (db_time E n) staleAfter "bucket" id)))) (fun active =>
     if active : bool then refuse_in_progress staleAfter id
     else
       bind_answer (or_problem internal (createScanBucketJob context id (default "" body))) (fun run =>
       respond (JobRunResponseFromStorage run)))))).

(** [json.Marshal] and [Encrypt] of credentials. *)
Definition encrypt_credentials (m : StaticKeyManager) (credentials : payload) : served Envelope :=
  match marshal credentials with
  | None => refuse (BadRequest "credentials must be valid JSON")
  | Some text => or_problem internal (Encrypt E m text)
  end.

(** The transaction: the bucket and its first sync, or neither. *)
Definition create_bucket_tx (random random' : list Z) (now : Z) (requestedBy : RequestedBy) (params : CreateBucketParams) : M ApiTables Bucket :=
  on_api_store (WithTx (
    createdBucket ← on_catalog (CreateBucket random now params);
    _ ← on_jobs (CreateJobRun random' now (sync_bucket_params requestedBy (bID createdBucket)));
    mret createdBucket)).

Definition handle_create_bucket (context : option Principal) (input : createBucketBody) : served bucketResponse :=
  match configured, secrets with
  | true, Some m =>
      bind_answer (encrypt_credentials m (xbCredentials input)) (fun envelope =>
      match validateUpstreamConfigJetstream "" (xbUpstreamConfig input) with
      | Err e => refuse (BadRequest (Error e))
      | Ok _ =>
          let params := mkCreateBucket (xbName input) (xbUpstream input) (xbEndpointURL input) (xbRegion input) (xbBucketName input)
            (xbPrefix input) (xbUpstreamConfig input) envelope (default (mkScanConfig None "") (xbPithosysConfig input)) in
          bind_answer (or_problem internal (
            random ← read_random E 16;
            random' ← read_random E 16;
            statement E (fun n => create_bucket_tx random random' (db_time E n) (RequestedByFromContext auth_configured context) params))) (fun bucket =>
          respond (bucketResponseFromStorage bucket))
      end)
  | _, _ => refuse (InternalServerError buckets_unconfigured)
  end.

Definition handle_list_buckets (upstream : string) (limit offset : Z) : served (list bucketResponse) :=
  with_storage configured buckets_unconfigured
    (bind_answer (or_problem internal (statement E (fun _ => on_api_catalog (ListBuckets upstream limit offset)))) (fun buckets =>
     respond (map bucketResponseFromStorage buckets))).

Definition handle_get_bucket (id : string) : served bucketResponse :=
  with_storage configured buckets_unconfigured
    (bind_answer (or_problem bucket_problem (statement E (fun _ => on_api_catalog (GetBucket id)))) (fun bucket =>
     respond (bucketResponseFromStorage bucket))).

Definition updated_credentials (credentials : option payload) : served (option Envelope) :=
  match credentials with
  | None => respond None
  | Some credentials =>
      match secrets with
      | None => refuse (InternalServerError buckets_unconfigured)
      | Some m => bind_answer (encrypt_credentials m credentials) (fun envelope => respond (Some envelope))
      end
  end.

Definition handle_update_bucket (id : string) (input : updateBucketBody) : served bucketResponse :=
  with_storage configured buckets_unconfigured
    match (match ybUpstreamConfig input with Some config => validateUpstreamConfigJetstream id config | None => Ok tt end) with
    | Err e => refuse (BadRequest (Error e))
    | Ok _ =>
        bind_answer (updated_credentials (ybCredentials input)) (fun envelope =>
        let params := mkUpdateBucket id (ybName input) (ybEndpointURL input) (ybRegion input) (ybPrefix input) (ybUpstreamConfig input)
          envelope (ybPithosysConfig input) in
        bind_answer (or_problem bucket_problem (statement E (fun n => on_api_catalog (UpdateBucket (db_time E n) params)))) (fun bucket =>
        respond (bucketResponseFromStorage bucket)))
    end.

Definition handle_delete_bucket (id : string) : served unit :=
  with_storage configured buckets_unconfigured (or_problem bucket_problem (statement E (fun _ => on_api_catalog (DeleteBucket id)))).
End Handlers.

(** ** A sync on request *)

(** A root job of a type on the bucket, and a root sync of it. *)
Definition root_of (jobType bucketID : string) (r : JobRow) : Prop :=
  type_ r = jobType /\ id r = trace_id r /\ target_type r = Some "bucket" /\ target_id r = Some bucketID.
Definition sync_of (bucketID : string) (r : JobRow) : Prop := root_of JobTypeSyncBucket bucketID r.

(** The sync of the bucket that a request takes up again: the last one, when it has
    stopped and its listing had got somewhere. *)
Record resumes (bucketID : string) (d : db) (r : JobRow) : Prop := {
  rs_row : r ∈ rows d;
  rs_sync : sync_of bucketID r;
  rs_stopped : stopped (state r) = true;
  rs_last r' : r' ∈ rows d -> sync_of bucketID r' -> created_at r' <= created_at r;
  rs_first r' : r' ∈ rows d -> sync_of bucketID r' -> stopped (state r') = true -> created_at r' = created_at r ->
    String.ltb (id r) (id r') = false;
  rs_progress : IsResumableSyncJobRun (scanJobRun r) "" = true
}.

(** A job that blocks another sync of the bucket: it is active and not stale, on the
    bucket, in the trace of a sync or a scan of the bucket. *)
Record blocks (interval : Z -> Z) (now staleAfter : Z) (bucketID : string) (d : db) (r : JobRow) : Prop := {
  bk_row : r ∈ rows d;
  bk_target : target_type r = Some "bucket" /\ target_id r = Some bucketID;
  bk_active : active (state r) = true;
  bk_stale : stale interval now (ResolveJobStaleTimeout staleAfter) r = false;
  bk_root : exists root, root ∈ rows d /\ id root = trace_id r /\
    (root_of JobTypeSyncBucket bucketID root \/ root_of JobTypeScanBucket bucketID root)
}.

Lemma root_for_of jobType bucketID r : root_for jobType "bucket" bucketID r = true <-> root_of jobType bucketID r.
Proof. unfold root_for, root_of, not_distinct. rewrite !andb_true_iff, !String.eqb_eq, !bool_decide_eq_true. tauto. Qed.

(** Rows of which neither identifier comes first are one row. *)
Lemma same_row d r r' : keyed d -> r ∈ rows d -> r' ∈ rows d -> String.ltb (id r) (id r') = false -> String.ltb (id r') (id r) = false -> r = r'.
Proof.
  intros Hk [k1 R1]%elem_of_rows [k2 R2]%elem_of_rows L1 L2. destruct (decide (id r = id r')) as [He|Hne].
  - pose proof (Hk k1 r R1) as E1. pose proof (Hk k2 r' R2) as E2. cbn in E1, E2. congruence.
  - rewrite (string_ltb_total _ _ Hne L1) in L2. discriminate L2.
Qed.

Lemma resumes_unique bucketID d r r' : keyed d -> resumes bucketID d r -> resumes bucketID d r' -> r = r'.
Proof.
  intros Hk H1 H2. pose proof (rs_last _ _ _ H1 r' (rs_row _ _ _ H2) (rs_sync _ _ _ H2)). pose proof (rs_last _ _ _ H2 r (rs_row _ _ _ H1) (rs_sync _ _ _ H1)).
  assert (created_at r = created_at r') as Hc by lia.
  apply (same_row d); [done|apply H1|apply H2| |].
  - exact (rs_first _ _ _ H1 r' (rs_row _ _ _ H2) (rs_sync _ _ _ H2) (rs_stopped _ _ _ H2) (eq_sym Hc)).
  - exact (rs_first _ _ _ H2 r (rs_row _ _ _ H1) (rs_sync _ _ _ H1) (rs_stopped _ _ _ H1) Hc).
Qed.

(** The lookup of the sync to resume finds the one there is. *)
Lemma FindResumable_exact bucketID d : bucketID <> "" ->
  (exists r, resumes bucketID d r /\ FindResumableSyncJobRun "bucket" bucketID "" d = (Ok (scanJobRun r), d)) \/
  (FindResumableSyncJobRun "bucket" bucketID "" d = (Err ErrNotFound, d) /\ (keyed d -> forall r, ~ resumes bucketID d r)).
Proof.
  intros Hb. unfold FindResumableSyncJobRun. change (String.eqb "bucket" "") with false. cbv iota.
  destruct (String.eqb_spec bucketID ""); [done|]. cbv zeta.
  match goal with |- context [select ?c by_created_desc d] => set (p := c) end.
  assert (forall r, p r = true <-> sync_of bucketID r /\ stopped (state r) = true /\
    forall r', r' ∈ rows d -> sync_of bucketID r' -> created_at r' <= created_at r) as Hp.
  { intros r. unfold p. cbv beta. rewrite !andb_true_iff, root_for_of, negb_true_iff, existsb_false_elem. split.
    - intros [[H1 H2] H3]. split; [done|]. split; [done|]. intros r' Hr' Hs.
      specialize (H3 r' Hr'). apply root_for_of in Hs. rewrite Hs in H3. cbn in H3. lia.
    - intros (H1 & H2 & H3). split; [done|]. intros r' Hr'. destruct (root_for _ _ _ r') eqn:Hs; [|done]. apply root_for_of in Hs.
      cbn. specialize (H3 r' Hr' Hs). lia. }
  destruct (select p by_created_desc d) as [|r l] eqn:Hsel.
  - right. split; [done|]. intros _ r Hr. assert (r ∈ select p by_created_desc d) as Hin; [|rewrite Hsel in Hin; by apply elem_of_nil in Hin].
    apply elem_of_select. split; [apply Hp; split_and!; apply Hr|]. by apply elem_of_rows, Hr.
  - apply select_newest in Hsel as (Hpr & Hrow & Hnewest). apply Hp in Hpr as (H1 & H2 & H3).
    assert (forall r', r' ∈ rows d -> sync_of bucketID r' -> stopped (state r') = true -> created_at r' = created_at r ->
      String.ltb (id r) (id r') = false) as H4.
    { intros r' Hr' Hs Hst Hc. specialize (Hnewest r' Hr'). unfold by_created_desc, by_created, lex_before in Hnewest. rewrite Hc in Hnewest.
      rewrite Z.ltb_irrefl, Z.eqb_refl in Hnewest. apply Hnewest, Hp. split_and!; [done|done|]. intros r1 Hr1 Hs1. rewrite Hc. by apply H3. }
    cbn [first_row]. destruct (IsResumableSyncJobRun (scanJobRun r) "") eqn:Hres.
    + left. exists r. split; [|done]. by split.
    + right. split; [done|]. intros Hk r' Hr'.
      assert (created_at r' = created_at r) as Hc.
      { pose proof (rs_last _ _ _ Hr' r Hrow H1). pose proof (H3 r' (rs_row _ _ _ Hr') (rs_sync _ _ _ Hr')). lia. }
      assert (r = r') as <-.
      { apply (same_row d); [done|done|apply Hr'| |].
        - exact (H4 r' (rs_row _ _ _ Hr') (rs_sync _ _ _ Hr') (rs_stopped _ _ _ Hr') Hc).
        - exact (rs_first _ _ _ Hr' r Hrow H1 H2 (eq_sym Hc)). }
      pose proof (rs_progress _ _ _ Hr'). congruence.
Qed.

Lemma predicate_blocks interval now staleAfter bucketID d r : r ∈ rows d ->
  activeCatalogTraceWorkForTargetPredicate interval now (ResolveJobStaleTimeout staleAfter) "bucket" bucketID d r = true <->
  blocks interval now staleAfter bucketID d r.
Proof.
  intros Hr. unfold activeCatalogTraceWorkForTargetPredicate, not_distinct. rewrite !andb_true_iff, !bool_decide_eq_true, negb_true_iff.
  assert (existsb (fun root => String.eqb (id root) (trace_id r) && String.eqb (id root) (trace_id root)
    && bool_decide (type_ root ∈ ["sync_bucket"; "scan_bucket"]) && bool_decide (target_type root = Some "bucket")
    && bool_decide (target_id root = Some bucketID)) (rows d) = true <->
    exists root, root ∈ rows d /\ id root = trace_id r /\ (root_of JobTypeSyncBucket bucketID root \/ root_of JobTypeScanBucket bucketID root)) as Hroot.
  { rewrite existsb_exists. split; intros (root & Hin & Ht); exists root; (split; [by apply list_elem_of_In|]).
    - rewrite !andb_true_iff, !String.eqb_eq, !bool_decide_eq_true in Ht. destruct Ht as ((((H1 & H2) & H3) & H4) & H5). split; [done|].
      apply elem_of_cons in H3 as [H3|H3%list_elem_of_singleton]; [left|right]; by repeat split.
    - rewrite !andb_true_iff, !String.eqb_eq, !bool_decide_eq_true. destruct Ht as (H1 & [(H2 & H3 & H4 & H5)|(H2 & H3 & H4 & H5)]);
        rewrite H2; repeat split; try done; [left|right; left]. }
  rewrite Hroot. split.
  - intros ((((H1 & H2) & H3) & H4) & H5). by split.
  - intros []. tauto.
Qed.

(** The lookup of active work finds a job that blocks the sync, when there is one. *)
Lemma FindActive_exact interval now staleAfter bucketID d : bucketID <> "" ->
  (exists r, blocks interval now staleAfter bucketID d r /\ FindActiveWorkForTarget interval now staleAfter "bucket" bucketID d = (Ok (scanJobRun r), d)) \/
  (FindActiveWorkForTarget interval now staleAfter "bucket" bucketID d = (Err ErrNotFound, d) /\ forall r, ~ blocks interval now staleAfter bucketID d r).
Proof.
  intros Hb. unfold FindActiveWorkForTarget, with_target. change (String.eqb "bucket" "") with false. cbv iota.
  destruct (String.eqb_spec bucketID ""); [done|]. destruct (select _ by_created_desc d) as [|r l] eqn:Hs.
  - right. split; [done|]. intros r Hr. pose proof (proj2 (predicate_blocks _ _ _ _ _ _ (bk_row _ _ _ _ _ _ Hr)) Hr) as Hp.
    assert (r ∈ select (activeCatalogTraceWorkForTargetPredicate interval now (ResolveJobStaleTimeout staleAfter) "bucket" bucketID d) by_created_desc d)
      as Hin; [|rewrite Hs in Hin; by apply elem_of_nil in Hin].
    apply elem_of_select. split; [done|]. by apply elem_of_rows, Hr.
  - left. apply select_newest in Hs as (Hp & Hrow & _). exists r. split; [|done]. by apply predicate_blocks.
Qed.

(** A job that is created is a pending sync of the bucket, under the identifier drawn. *)
Definition new_sync (bucketID key : string) (r : JobRow) : Prop :=
  id r = key /\ sync_of bucketID r /\ state r = Pending /\ input r = {["bucket_id" := VString bucketID]}.

Lemma CreateJobRun_sync configured context bucketID random now d : bucketID <> "" ->
  let params := sync_bucket_params (RequestedByFromContext configured context) bucketID in
  let key := newJobRunID random in
  (job_runs d !! key = None /\ exists r, new_sync bucketID key r /\
     CreateJobRun random now params d = (Ok (scanJobRun r), mkDB (<[key := r]> (job_runs d)) (job_spill d))) \/
  (is_Some (job_runs d !! key) /\ exists e, e <> errSyncAlreadyInProgress /\ CreateJobRun random now params d = (Err e, d)).
Proof.
  intros Hb params key. assert (nullableString bucketID = Some bucketID) as Htarget by (unfold nullableString; by destruct (String.eqb_spec bucketID "")).
  unfold CreateJobRun, mbind, DB_bind.
  assert (resolveTraceID (newJobRunID random) params d = (Ok (newJobRunID random), d)) as ->
    by (unfold resolveTraceID, params, RequestedByFromContext; destruct context as [p|]; [destruct configured|]; reflexivity).
  assert (encoded (cInput params) d = (Ok {["bucket_id" := VString bucketID]}, d)) as ->.
  { unfold encoded, encodeJobRunPayload. assert (cInput params = {["bucket_id" := VString bucketID]}) as -> by done.
    rewrite !map_fmap_singleton, map_fold_singleton. done. }
  unfold insert_row. match goal with |- context [job_runs d !! id ?r] => set (row := r) end. change (id row) with key.
  case_bool_decide as Hk.
  - right. split; [done|]. eexists. split; [|reflexivity]. done.
  - left. split; [by apply eq_None_not_Some|]. exists row. split; [|done]. split_and!; done.
Qed.

Section Sync.
Context `{AEAD} (E : Surroundings ApiTables) (configured auth_configured : bool) (interval : Z -> Z).
Hypothesis quiet : quiet_server E.

Definition api_jobs (t : ApiTables) : db := jobs (apiStore t).
Definition with_jobs (d : db) (t : ApiTables) : ApiTables := set_api_store (set_jobs d (apiStore t)) t.

(** A statement on the jobs, alone. *)
Lemma jobs_statement {A} (m : nat -> DB A) n t :
  statement E (fun k => on_api_jobs (m k)) (mkServer n t) =
    (match (m n (api_jobs t)).1 with Ok a => Ok a | Err e => Err (Failure e) end, mkServer (S n) (with_jobs (m n (api_jobs t)).2 t)).
Proof.
  rewrite statement_quiet by done. unfold on_api_jobs, on_api_store. rewrite on_jobs_eq. reflexivity.
Qed.

Lemma with_jobs_jobs d t : api_jobs (with_jobs d t) = d.
Proof. reflexivity. Qed.

(** The timeout that the settings give. *)
Definition stale_setting (t : ApiTables) : Z :=
  match apiSettings t !! SettingWorkerJobStaleTimeout with
  | Some s => match ParseSettingDuration SettingWorkerJobStaleTimeout (sValue s) with Ok parsed => parsed | Err _ => DefaultJobStaleTimeout end
  | None => DefaultJobStaleTimeout
  end.
Lemma stale_timeout_run n t : jobStaleTimeout E (mkServer n t) = (Ok (stale_setting t), mkServer (S n) t).
Proof.
  unfold jobStaleTimeout, stale_setting. rewrite bind_run. unfold attempted. rewrite statement_quiet by done. unfold on_api_settings, GetSetting.
  destruct (apiSettings t !! SettingWorkerJobStaleTimeout) as [s|]; by destruct t.
Qed.

Lemma with_jobs_same t : with_jobs (api_jobs t) t = t.
Proof. by destruct t as [[] ? ? ?]. Qed.

Lemma find_active_run staleAfter bucketID n t : bucketID <> "" ->
  (exists r, blocks interval (db_time E n) staleAfter bucketID (api_jobs t) r /\
     find_active E interval staleAfter bucketID (mkServer n t) = (Ok (scanJobRun r), mkServer (S n) t)) \/
  ((forall r, ~ blocks interval (db_time E n) staleAfter bucketID (api_jobs t) r) /\
     find_active E interval staleAfter bucketID (mkServer n t) = (Err (Failure ErrNotFound), mkServer (S n) t)).
Proof.
  intros Hb. unfold find_active. rewrite jobs_statement.
  destruct (FindActive_exact interval (db_time E n) staleAfter bucketID (api_jobs t) Hb) as [(r & Hr & ->)|[-> Hno]]; cbn [fst snd];
    rewrite with_jobs_same; [left; by exists r|by right].
Qed.

Lemma create_job_run context bucketID n t : bucketID <> "" ->
  let key := newJobRunID (random_bytes E n 16) in
  (job_runs (api_jobs t) !! key = None /\ exists r, new_sync bucketID key r /\
     createSyncBucketJob E auth_configured context bucketID (mkServer n t) =
       (Ok (scanJobRun r), mkServer (S (S n)) (with_jobs (mkDB (<[key := r]> (job_runs (api_jobs t))) (job_spill (api_jobs t))) t))) \/
  (is_Some (job_runs (api_jobs t) !! key) /\ exists e, e <> errSyncAlreadyInProgress /\
     createSyncBucketJob E auth_configured context bucketID (mkServer n t) = (Err (Failure e), mkServer (S (S n)) t)).
Proof.
  intros Hb key. unfold createSyncBucketJob, create_job. rewrite bind_run. cbn [read_random ticks data]. rewrite jobs_statement.
  destruct (CreateJobRun_sync auth_configured context bucketID (random_bytes E n 16) (db_time E (S n)) (api_jobs t) Hb)
    as [(Hno & r & Hr & ->)|(Hk & e & He & ->)]; cbn [fst snd].
  - left. split; [exact Hno|]. by exists r.
  - right. split; [exact Hk|]. exists e. by rewrite with_jobs_same.
Qed.

(** The cases of [enqueueSyncBucketJob], by the tables it finds. *)
Inductive enqueues (bucketID : string) (staleAfter : Z) (n : nat) (t : ApiTables) : result run_error JobRun -> ApiTables -> Prop :=
| enqueues_resumed r : resumes bucketID (api_jobs t) r ->
    enqueues bucketID staleAfter n t (Ok (scanJobRun (resume_row (db_time E (S (S n))) r)))
      (with_jobs (ResumeJobRun (db_time E (S (S n))) (id r) (api_jobs t)).2 t)
| enqueues_blocked r : (forall r', ~ resumes bucketID (api_jobs t) r') -> blocks interval (db_time E (S (S n))) staleAfter bucketID (api_jobs t) r ->
    enqueues bucketID staleAfter n t (Err (Failure errSyncAlreadyInProgress)) t
| enqueues_created r : (forall r', ~ resumes bucketID (api_jobs t) r') ->
    (forall r', ~ blocks interval (db_time E (S (S n))) staleAfter bucketID (api_jobs t) r') ->
    let key := newJobRunID (random_bytes E (S (S (S n))) 16) in
    job_runs (api_jobs t) !! key = None -> new_sync bucketID key r ->
    enqueues bucketID staleAfter n t (Ok (scanJobRun r)) (with_jobs (mkDB (<[key := r]> (job_runs (api_jobs t))) (job_spill (api_jobs t))) t)
| enqueues_taken e : (forall r', ~ resumes bucketID (api_jobs t) r') ->
    (forall r', ~ blocks interval (db_time E (S (S n))) staleAfter bucketID (api_jobs t) r') ->
    is_Some (job_runs (api_jobs t) !! newJobRunID (random_bytes E (S (S (S n))) 16)) -> e <> errSyncAlreadyInProgress ->
    enqueues bucketID staleAfter n t (Err (Failure e)) t.

Lemma enqueue_run context bucketID n t : bucketID <> "" -> keyed (api_jobs t) -> job_runs (api_jobs t) !! "" = None ->
  exists o t' n', enqueueSyncBucketJob E auth_configured interval context bucketID (mkServer n t) = (o, mkServer n' t') /\
    enqueues bucketID (stale_setting t) n t o t'.
Proof.
  intros Hb Hk Hne. unfold enqueueSyncBucketJob. rewrite bind_run, stale_timeout_run. rewrite bind_run. unfold attempted at 1. rewrite jobs_statement.
  assert (forall r, r ∈ rows (api_jobs t) -> job_runs (api_jobs t) !! id r = Some r /\ id r <> "") as Hrows.
  { intros r [key Hr]%elem_of_rows. pose proof (Hk key r Hr) as Hid. cbn in Hid. subst key. split; [done|]. intros Hid. congruence. }
  destruct (FindResumable_exact bucketID (api_jobs t) Hb) as [(r & Hr & ->)|[-> Hno]]; cbn [fst snd]; rewrite with_jobs_same.
  - rewrite jobs_statement. destruct (Hrows r (rs_row _ _ _ Hr)) as [Hlook Hid]. cbn [ID scanJobRun].
    pose proof (enqueues_resumed bucketID (stale_setting t) n t r Hr) as Hen. revert Hen.
    unfold ResumeJobRun. apply String.eqb_neq in Hid. rewrite Hid, Hlook, (rs_stopped _ _ _ Hr). cbn [fst snd]. intros Hen.
    eexists _, _, _. split; [reflexivity|exact Hen].
  - specialize (Hno Hk). change (negb (not_found_run (Failure ErrNotFound))) with false. cbv iota.
    rewrite bind_run. unfold attempted. destruct (find_active_run (stale_setting t) bucketID (S (S n)) t Hb) as [(r & Hr & ->)|[Hnb ->]].
    + cbn [ID scanJobRun]. destruct (Hrows r (bk_row _ _ _ _ _ _ Hr)) as [_ Hid]. apply String.eqb_neq in Hid. rewrite Hid. cbn [negb].
      eexists _, _, _. split; [reflexivity|]. by eapply enqueues_blocked.
    + change (negb (not_found_run (Failure ErrNotFound))) with false. cbv iota.
      destruct (create_job_run context bucketID (S (S (S n))) t Hb) as [(Hk1 & r & Hr & ->)|(Hk1 & e & He & ->)];
        eexists _, _, _; (split; [reflexivity|]); [by apply enqueues_created|by apply enqueues_taken].
Qed.

Lemma keyed_fail_scans now bucketID d : keyed d -> keyed (FailActiveScanJobsForTarget now "bucket" bucketID d).2.
Proof.
  intros Hk. unfold FailActiveScanJobsForTarget, with_target. destruct (String.eqb "bucket" ""); [done|]. destruct (String.eqb bucketID ""); [done|].
  intros key r. cbn [snd]. rewrite lookup_update_where. destruct (job_runs d !! key) as [r'|] eqn:Hr; [|done]. cbn. intros [= <-].
  apply Hk in Hr. by destruct (active_scan _ _ _).
Qed.

Lemma fail_scans_none now bucketID d key : job_runs d !! key = None ->
  job_runs (FailActiveScanJobsForTarget now "bucket" bucketID d).2 !! key = None.
Proof.
  intros Hk. unfold FailActiveScanJobsForTarget, with_target. destruct (String.eqb "bucket" ""); [done|]. destruct (String.eqb bucketID ""); [done|].
  cbn [snd]. by rewrite lookup_update_where, Hk.
Qed.

Lemma resumed_row now bucketID d r : keyed d -> job_runs d !! "" = None -> resumes bucketID d r ->
  job_runs (ResumeJobRun now (id r) d).2 !! id r = Some (resume_row now r).
Proof.
  intros Hk Hne Hr. pose proof (rs_row _ _ _ Hr) as [key Hlook]%elem_of_rows. pose proof (Hk key r Hlook) as Hid. cbn in Hid. subst key.
  unfold ResumeJobRun. destruct (String.eqb_spec (id r) "") as [Hid|_]; [congruence|]. rewrite Hlook, (rs_stopped _ _ _ Hr). cbn [snd].
  rewrite lookup_update_where, Hlook. cbn. by rewrite String.eqb_refl.
Qed.

Lemma bucket_statement bucketID n t :
  statement E (fun _ => on_api_catalog (GetBucket bucketID)) (mkServer n t) =
    (match buckets (catalog (apiStore t)) !! bucketID with Some b => Ok (scanBucket b) | None => Err (Failure ErrNotFound) end, mkServer (S n) t).
Proof.
  rewrite statement_quiet by done. unfold on_api_catalog, on_api_store. rewrite on_catalog_eq. unfold GetBucket.
  destruct (buckets (catalog (apiStore t)) !! bucketID); by destruct t as [[] ? ? ?].
Qed.

(** C35: a request to sync a bucket, with nobody else at work, is answered exactly by what
    it finds.  A bucket that is not there gives 404, and nothing changes.  Otherwise the
    active scans of the bucket have failed first; a stopped sync that can be resumed is
    pending again and answered; without one, a job that blocks the sync gives 409, and
    nothing is created; without that either, one new pending sync of the bucket is in the
    table and answered.  The one failure, a 500, is an identifier drawn twice. *)
Theorem sync_request context bucketID n t resp w' : bucketID <> "" -> keyed (api_jobs t) -> job_runs (api_jobs t) !! "" = None ->
  handle_sync_bucket E true auth_configured interval context bucketID (mkServer n t) = (resp, w') ->
  (buckets (catalog (apiStore t)) !! bucketID = None -> (exists p, resp = Err p /\ prStatus p = 404) /\ data w' = t) /\
  (is_Some (buckets (catalog (apiStore t)) !! bucketID) ->
   let d := (FailActiveScanJobsForTarget (db_time E (S (S n))) "bucket" bucketID (api_jobs t)).2 in
   let now := db_time E (5 + n) in
   let key := newJobRunID (random_bytes E (6 + n) 16) in
   (forall r, resumes bucketID d r ->
      resp = Ok (JobRunResponseFromStorage (scanJobRun (resume_row now r))) /\ data w' = with_jobs (ResumeJobRun now (id r) d).2 t /\
      job_runs (api_jobs (data w')) !! id r = Some (resume_row now r)) /\
   ((forall r, ~ resumes bucketID d r) ->
      (forall r, blocks interval now (stale_setting t) bucketID d r ->
         (exists p, resp = Err p /\ prStatus p = 409) /\ data w' = with_jobs d t) /\
      ((forall r, ~ blocks interval now (stale_setting t) bucketID d r) ->
         (job_runs d !! key = None -> exists r, new_sync bucketID key r /\ resp = Ok (JobRunResponseFromStorage (scanJobRun r)) /\
            data w' = with_jobs (mkDB (<[key := r]> (job_runs d)) (job_spill d)) t) /\
         (is_Some (job_runs d !! key) -> (exists p, resp = Err p /\ prStatus p = 500) /\ data w' = with_jobs d t)))).
Proof.
  intros Hb Hk Hne. unfold handle_sync_bucket, with_storage, bind_answer at 1, or_problem at 1. rewrite bucket_statement.
  destruct (buckets (catalog (apiStore t)) !! bucketID) as [b|] eqn:Hbucket;
    [|intros [= <- <-]; split; [intros _; split; [by eexists|done]|by intros [? ?]]].
  intros Hrun. split; [done|]. intros _. revert Hrun.
  set (d := (FailActiveScanJobsForTarget (db_time E (S (S n))) "bucket" bucketID (api_jobs t)).2).
  change (5 + n)%nat with (S (S (S (S (S n))))). change (6 + n)%nat with (S (S (S (S (S (S n)))))).
  unfold bind_answer at 1, or_problem at 1. rewrite stale_timeout_run.
  unfold bind_answer at 1, or_problem at 1. rewrite jobs_statement.
  assert (exists failed, (FailActiveScanJobsForTarget (db_time E (S (S n))) "bucket" bucketID (api_jobs t)).1 = Ok failed) as [failed ->].
  { unfold FailActiveScanJobsForTarget, with_target. change (String.eqb "bucket" "") with false. cbv iota. destruct (String.eqb_spec bucketID ""); [done|]. by eexists. }
  fold d. unfold bind_answer at 1, called.
  assert (keyed d) as Hkd by (by apply keyed_fail_scans).
  assert (job_runs d !! "" = None) as Hned by (by apply fail_scans_none).
  destruct (enqueue_run context bucketID (S (S (S n))) (with_jobs d t) Hb Hkd Hned) as (o & t' & n' & -> & Hen).
  change (stale_setting (with_jobs d t)) with (stale_setting t) in Hen.
  destruct Hen as [r Hr|r Hno Hr|r Hno Hnb key' Hfree Hnew|e Hno Hnb Htaken He]; change (api_jobs (with_jobs d t)) with d in *.
  - intros [= <- <-]. split; [|intros Hno; by destruct (Hno r)]. intros r' Hr'. assert (r' = r) as -> by (by eapply resumes_unique).
    split; [reflexivity|]. split; [reflexivity|]. cbn [data]. rewrite with_jobs_jobs. by apply (resumed_row _ bucketID).
  - rewrite bool_decide_true by done. unfold refuse_in_progress, bind_answer, called. intros Hrun.
    split; [intros r' Hr'; by destruct (Hno r')|]. intros _. split; [|intros Hnb; by destruct (Hnb r)]. intros _ _. revert Hrun.
    destruct (find_active_run (stale_setting t) bucketID n' (with_jobs d t) Hb) as [(r1 & _ & ->)|[_ ->]]; intros [= <- <-]; (split; [by eexists|done]).
  - intros [= <- <-]. split; [intros r' Hr'; by destruct (Hno r')|]. intros _. split; [intros r' Hr'; by destruct (Hnb r')|]. intros _.
    split; [|intros [? Hs]; unfold key' in Hfree; congruence]. intros _. exists r. by split_and!.
  - rewrite bool_decide_false by congruence. intros [= <- <-]. split; [intros r' Hr'; by destruct (Hno r')|]. intros _.
    split; [intros r' Hr'; by destruct (Hnb r')|]. intros _. split; [|by intros _; split; [eexists|]].
    intros Hs. destruct Htaken as [? Ht]. congruence.
Qed.
End Sync.

Definition demo_bucket : Bucket := mkBucket "b1" "mine" "s3" "" "" "bucket" "" ∅ (mkEnvelope "k" "a" "n" "c") (mkScanConfig None "") 0 0.
Definition demo_tables : ApiTables := mkApi (mkStore (mkDB ∅ ∅) (set_buckets {["b1" := demo_bucket]} empty_catalog)) ∅ ∅ ∅.

Definition demo_sync (bucketID : string) : answer JobRunResponse * Server ApiTables :=
  handle_sync_bucket calm_api true true (fun d => d / 1000) None bucketID (mkServer 0 demo_tables).

Lemma sync_request_witness :
  (exists r key, new_sync "b1" key r /\ (demo_sync "b1").1 = Ok (JobRunResponseFromStorage (scanJobRun r)) /\
     job_runs (api_jobs (data (demo_sync "b1").2)) !! key = Some r) /\
  (exists p, (demo_sync "b2").1 = Err p /\ prStatus p = 404).
Proof.
  assert (quiet_server calm_api) as Hq by (by split).
  split.
  - destruct (sync_request calm_api true (fun d => d / 1000) Hq None "b1" 0 demo_tables _ _ ltac:(discriminate) ltac:(by intros key r)
      ltac:(done) (surjective_pairing (demo_sync "b1"))) as [_ Hb].
    destruct (Hb ltac:(by eexists)) as [_ Hno]. clear Hb. destruct Hno as [_ Hnb].
    { intros r Hr. pose proof (rs_row _ _ _ Hr) as [key Hk]%elem_of_rows. done. }
    destruct Hnb as [Hnew _].
    { intros r Hr. pose proof (bk_row _ _ _ _ _ _ Hr) as [key Hk]%elem_of_rows. done. }
    destruct Hnew as (r & Hr & E & Hd); [reflexivity|]. eexists r, _. split; [exact Hr|]. split; [exact E|].
    rewrite Hd, with_jobs_jobs. apply lookup_insert_eq.
  - exact (proj1 (proj1 (sync_request calm_api true (fun d => d / 1000) Hq None "b2" 0 demo_tables _ _ ltac:(discriminate) ltac:(by intros key r)
      ltac:(done) (surjective_pairing (demo_sync "b2"))) eq_refl)).
Defined.

(** ** Two requests at once *)

(** The second request is served between the last check of the first and its insertion. *)
Definition crossing_syncs : Surroundings ApiTables :=
  mkSurroundings (fun n t => if Nat.eqb n 7 then data (handle_sync_bucket calm_api true true (fun d => d / 1000) None "b1" (mkServer 100 t)).2 else t)
    (fun _ => None) (fun n => Z.of_nat n) (fun n => GoTime.mkTime (Z.of_nat n) 0 0) (fun n count => repeat (Z.of_nat n) count).

(** Both are accepted: two syncs of the bucket are active. *)
Theorem two_syncs_accepted :
  let served := handle_sync_bucket crossing_syncs true true (fun d => d / 1000) None "b1" (mkServer 0 demo_tables) in
  is_ok served.1 = true /\
  List.length (List.filter (fun r => String.eqb (type_ r) JobTypeSyncBucket && active (state r)) (rows (api_jobs (data served.2)))) = 2%nat.
Proof. by vm_compute. Qed.
