(* ===== verification/Clients.v ===== *)
(** * Clients

    The client of a bucket: its configuration and credentials (factory.go and credentials.go
    of packages/upstreams/s3compat), and [clientForBucket] of the job handlers, which every
    handler that reads a bucket begins with.  [NewS3API], the constructor of the SDK, is a
    parameter; the theorem follows credentials from the request that creates a bucket to the
    client of a worker. *)
From S2P Require Import Prelude GoStrings GoFloat GoJson GoJsonText JobPayload JobRuns ErrState Catalog Buckets JetStream.
From S2P Require Import Auth Request Secrets Config Http Collections JobsHttp BucketsHttp.
Local Open Scope Z_scope.

(** ** Configuration *)

Record BucketConfig := mkBucketConfig {
  cfgEndpointURL : string; cfgRegion : string; cfgSigningRegion : string; cfgBucketName : string; cfgPrefix : string;
  cfgForcePathStyle : bool; cfgUseLegacyList : bool
}.

Definition mapValue (config : payload) (key : string) : result store_error (option payload) :=
  match config !! key with
  | None | Some VNil => Ok None
  | Some (VMap typed) => Ok (Some typed)
  | Some _ => Err (Errorf "upstream_config.%s must be an object")
  end.
Definition boolConfig (config : payload) (key : string) : result store_error bool :=
  match config !! key with
  | None | Some VNil => Ok false
  | Some (VBool typed) => Ok typed
  | Some _ => Err (Errorf "upstream_config.s3.%s must be a boolean")
  end.
Definition stringConfig (config : payload) (key : string) : result store_error string :=
  match config !! key with
  | None | Some VNil => Ok ""
  | Some (VString typed) => Ok typed
  | Some _ => Err (Errorf "upstream_config.s3.%s must be a string")
  end.

Definition BucketConfigFromStorage (bucket : Bucket) : result store_error BucketConfig :=
  let config region forcePathStyle useLegacyList :=
    mkBucketConfig (bEndpointURL bucket) (bRegion bucket) region (bBucketName bucket) (bPrefix bucket) forcePathStyle useLegacyList in
  s3Config ← mapValue (bUpstreamConfig bucket) "s3";
  match s3Config with
  | None => Ok (config (bRegion bucket) false false)
  | Some s3Config =>
      forcePathStyle ← boolConfig s3Config "force_path_style";
      useLegacyList ← boolConfig s3Config "use_legacy_list";
      signingRegion ← stringConfig s3Config "signing_region";
      Ok (config (if String.eqb signingRegion "" then bRegion bucket else signingRegion) forcePathStyle useLegacyList)
  end.

Definition resolvedSigningRegion (c : BucketConfig) : string :=
  if String.eqb (cfgSigningRegion c) "" then cfgRegion c else cfgSigningRegion c.

Definition ValidateConfig (c : BucketConfig) : result store_error unit :=
  if String.eqb (cfgBucketName c) "" then Err (Errorf "bucket name is required")
  else if String.eqb (cfgEndpointURL c) "" then Err (Errorf "endpoint URL is required")
  else if String.eqb (resolvedSigningRegion c) "" then Err (Errorf "signing region is required")
  else Ok tt.

(** ** Credentials *)

Record Credentials := mkCredentials { crAccessKeyID : string; crSecretAccessKey : string; crSessionToken : string }.

Definition ValidateCredentials (c : Credentials) : result store_error unit :=
  if String.eqb (crAccessKeyID c) "" then Err (Errorf "access_key_id is required")
  else if String.eqb (crSecretAccessKey c) "" then Err (Errorf "secret_access_key is required")
  else Ok tt.

(** A string field of a struct: the members of its name, up to case, in turn; null leaves
    the field as it is, and any other value is an error. *)
Fixpoint string_field (name current : string) (members : list (string * json)) : option string :=
  match members with
  | [] => Some current
  | (k, j) :: members =>
      if EqualFold k name then
        match j with
        | JString s => string_field name s members
        | JNull => string_field name current members
        | _ => None
        end
      else string_field name current members
  end.

(** [json.Unmarshal] into [Credentials]. *)
Definition decode_credentials (data : string) : option Credentials :=
  document ← unmarshal data;
  members ← as_object document;
  accessKeyID ← string_field "access_key_id" "" members;
  secretAccessKey ← string_field "secret_access_key" "" members;
  sessionToken ← string_field "session_token" "" members;
  Some (mkCredentials accessKeyID secretAccessKey sessionToken).

Definition ParseCredentials (data : string) : result store_error Credentials :=
  match decode_credentials data with
  | None => Err (Errorf "parse s3-compatible credentials: %w")
  | Some c =>
      let c := mkCredentials (TrimSpace (crAccessKeyID c)) (TrimSpace (crSecretAccessKey c)) (TrimSpace (crSessionToken c)) in
      _ ← ValidateCredentials c; Ok c
  end.

(** ** Clients *)

(** What the factory passes to the SDK. *)
Record S3Options := mkS3Options { optRegion : string; optCredentials : Credentials; optBaseEndpoint : string; optUsePathStyle : bool }.
Record SDKClient (API : Type) := mkSDKClient { clientAPI : API; clientUseLegacyList : bool }.
Arguments mkSDKClient {API} _ _.

Section Client.
Context {API : Type} (NewS3API : S3Options -> API) `{AEAD}.

Definition NewClient (config : BucketConfig) (credentials : Credentials) : result store_error (SDKClient API) :=
  _ ← ValidateConfig config;
  _ ← ValidateCredentials credentials;
  Ok (mkSDKClient
    (NewS3API (mkS3Options (resolvedSigningRegion config) credentials (cfgEndpointURL config) (cfgForcePathStyle config)))
    (cfgUseLegacyList config)).

Definition clientForBucket (secrets : StaticKeyManager) (bucket : Bucket) : result store_error (SDKClient API) :=
  config ← BucketConfigFromStorage bucket;
  credentialJSON ← Decrypt secrets (bEncryptedCredentials bucket);
  credentials ← ParseCredentials credentialJSON;
  NewClient config credentials.
End Client.

(** ** From the request to the client *)

Lemma string_field_sole name value members : forall current,
  (forall k j, (k, j) ∈ members -> exists s, j = JString s /\ (EqualFold k name = true -> s = value)) ->
  string_field name current members = Some (if existsb (fun e => EqualFold e.1 name) members then value else current).
Proof.
  induction members as [|[k j] members IH]; intros current Hall; [done|]. cbn [string_field existsb fst].
  destruct (Hall k j) as (s & -> & Hs); [by left|].
  assert (forall k j, (k, j) ∈ members -> exists s, j = JString s /\ (EqualFold k name = true -> s = value)) as Hrest
    by (intros k' j' Hin; apply Hall; by right).
  destruct (EqualFold k name); cbn [orb]; rewrite (IH _ Hrest); [|done]. rewrite (Hs eq_refl). by destruct (existsb _ members).
Qed.

(** The names of the fields of [Credentials]. *)
Definition credential_names : list string := ["access_key_id"; "secret_access_key"; "session_token"].

(** No other key is a field's name up to case. *)
Definition sole_fields (fields : gmap string string) : Prop :=
  forall name key, name ∈ credential_names -> is_Some (fields !! key) -> EqualFold (coerceUTF8 key) name = true -> key = name.

Definition entered (fields : gmap string string) (name : string) : string := TrimSpace (coerceUTF8 (default "" (fields !! name))).

Lemma field_read fields name : sole_fields fields -> name ∈ credential_names -> EqualFold (coerceUTF8 name) name = true ->
  string_field name "" (string_members fields) = Some (coerceUTF8 (default "" (fields !! name))).
Proof.
  intros Hsole Hname Hself.
  rewrite (string_field_sole name (coerceUTF8 (default "" (fields !! name)))).
  - f_equal. case_match eqn:Hex; [done|]. destruct (fields !! name) as [v|] eqn:Hv; [|reflexivity].
    pose proof (proj1 (existsb_false_elem _ _) Hex) as Hno. pose proof (Hno (coerceUTF8 name, jstring v)) as H. cbn in H. rewrite H in Hself; [done|].
    apply elem_of_string_members. eauto.
  - intros k j Hin. apply elem_of_string_members in Hin as (key & v & Hm & -> & ->). exists (coerceUTF8 v). split; [done|].
    intros Hk. rewrite (Hsole name key Hname) in Hm; [by rewrite Hm|eauto|done].
Qed.

Lemma parse_credentials float_text fields text : sole_fields fields -> Marshal float_text (VString <$> fields) = Some text ->
  ParseCredentials text =
    (let c := mkCredentials (entered fields "access_key_id") (entered fields "secret_access_key") (entered fields "session_token") in
     _ ← ValidateCredentials c; Ok c).
Proof.
  intros Hsole Htext. destruct (Marshal_read float_text fields) as (text' & Ht & Hread). rewrite Htext in Ht. injection Ht as <-.
  unfold ParseCredentials, decode_credentials. rewrite Hread. cbn [mbind option_bind as_object].
  rewrite !field_read; [reflexivity|done|set_solver|reflexivity|done|set_solver|reflexivity|done|set_solver|reflexivity].
Qed.

(** The row of a created bucket. *)
Definition row_of (params : CreateBucketParams) (row : Bucket) : Prop :=
  bEndpointURL row = cbEndpointURL params /\ bRegion row = cbRegion params /\ bBucketName row = cbBucketName params /\
  bPrefix row = cbPrefix params /\ bEncryptedCredentials row = cbEncryptedCredentials params.

Lemma CreateBucket_row random now params c b c' : CreateBucket random now params c = (Ok b, c') ->
  exists row, buckets c' !! bID row = Some row /\ b = scanBucket row /\ row_of params row.
Proof.
  unfold CreateBucket. rewrite bind_run.
  destruct (encodeUpstreamConfig (cbUpstreamConfig params)) as [config|e]; cbn [of_result]; [|done].
  cbv beta iota delta [action]. match goal with |- context [bucket_row_ok ?r] => set (row := r) end.
  destruct (negb (bucket_row_ok row)); [done|]. destruct (_ || _); [done|]. intros [= <- <-]. exists row.
  split; [apply lookup_insert_eq|]. split; [reflexivity|]. repeat split.
Qed.

(** The row that the transaction of a creation leaves, and what it answers with. *)
Lemma create_bucket_row random random' now requestedBy params t b t' :
  create_bucket_tx random random' now requestedBy params t = (Ok b, t') ->
  exists row, buckets (catalog (apiStore t')) !! bID row = Some row /\ b = scanBucket row /\ row_of params row.
Proof.
  unfold create_bucket_tx, on_api_store, WithTx. rewrite bind_run, on_catalog_eq.
  destruct (CreateBucket random now params (catalog (apiStore t))) as [[created|e] c'] eqn:Hc; cbn [fst snd]; [|done].
  apply CreateBucket_row in Hc as (row & Hrow & -> & Hp). rewrite bind_run, on_jobs_eq.
  destruct ((CreateJobRun random' now (sync_bucket_params requestedBy (bID (scanBucket row))) _).1); [|done].
  intros [= <- <-]. by exists row.
Qed.

(** Computing the value of a later step. *)
Lemma bind_later {X A B C} (c : result X A) (d : result X B) (b : B) (f : A -> B -> result X C) :
  d = Ok b -> (a ← c; b ← d; f a b) = (a ← c; f a b).
Proof. intros ->. by destruct c. Qed.
Lemma bind_guarded {X A B C} (c : result X A) (d : result X B) (v : result X unit) (b : B) (f : A -> B -> result X C) :
  d = (_ ← v; Ok b) -> (a ← c; b ← d; f a b) = (a ← c; _ ← v; f a b).
Proof. intros ->. destruct c, v; reflexivity. Qed.

Section Reach.
Context {API : Type} (NewS3API : S3Options -> API) `{AEADLaws} (E : Surroundings ApiTables).
Context (auth_configured : bool) (m : StaticKeyManager) (Error : store_error -> string) (float_text : spec_float -> string).

(** What an accepted creation leaves: the row, with the sealed text of the credentials. *)
Lemma created_bucket marshal context input w resp w' : random_ok E ->
  handle_create_bucket E true auth_configured (Some m) Error marshal context input w = (Ok resp, w') ->
  exists row text nonce, buckets (catalog (apiStore (data w'))) !! brID resp = Some row /\
    marshal (xbCredentials input) = Some text /\ String.length nonce = NonceSizeX /\ bEncryptedCredentials row = sealed m nonce text /\
    bEndpointURL row = xbEndpointURL input /\ bRegion row = xbRegion input /\ bBucketName row = xbBucketName input /\ bPrefix row = xbPrefix input.
Proof.
  intros Hr. unfold handle_create_bucket, encrypt_credentials. destruct (marshal (xbCredentials input)) as [text|]; [|done].
  unfold bind_answer at 1, or_problem at 1, Encrypt. rewrite bind_run. cbn [read_random].
  assert (String.length (string_of (random_bytes E (ticks w) NonceSizeX)) = NonceSizeX) as Hn by (rewrite string_of_length; apply Hr).
  revert Hn. generalize (string_of (random_bytes E (ticks w) NonceSizeX)) as nonce. intros nonce Hn.
  cbv beta iota delta [mret M_ret]. destruct (validateUpstreamConfigJetstream _ _); [|done].
  unfold bind_answer, or_problem. rewrite !bind_run. cbn [read_random]. rewrite bind_run. cbn [read_random ticks data].
  unfold statement. cbn [ticks data]. destruct (failing E _) as [[]|]; [done..|].
  match goal with |- context [create_bucket_tx ?r ?r' ?now ?by_ ?p ?t] => destruct (create_bucket_tx r r' now by_ p t) as [[b|e] t'] eqn:Htx end; [|done].
  intros [= <- <-]. apply create_bucket_row in Htx as (row & Hrow & -> & He & Hreg & Hb & Hp & Hc). by exists row, text, nonce.
Qed.

(** The client of a row whose credentials are sealed. *)
Lemma client_of_sealed row text nonce fields : sole_fields fields -> String.length nonce = NonceSizeX ->
  bEncryptedCredentials row = sealed m nonce text -> Marshal float_text (VString <$> fields) = Some text ->
  clientForBucket NewS3API m row =
    (let credentials := mkCredentials (entered fields "access_key_id") (entered fields "secret_access_key") (entered fields "session_token") in
     config ← BucketConfigFromStorage row;
     _ ← ValidateCredentials credentials;
     NewClient NewS3API config credentials).
Proof.
  intros Hsole Hn Hc Ht. etransitivity.
  - apply (bind_later _ _ text (fun config credentialJSON => credentials ← ParseCredentials credentialJSON; NewClient NewS3API config credentials)).
    rewrite Hc. by apply Decrypt_sealed.
  - exact (bind_guarded _ _ _ _ (NewClient NewS3API) (parse_credentials float_text fields text Hsole Ht)).
Qed.

(** C40: credentials that are entered when a bucket is created reach the worker: whatever others do and
    fail meanwhile, once the request is answered the bucket is in the table, and the client that a worker
    started in the environment of the API makes for it is that of the entered access key, secret key and session
    token, without the white space around them, and of the entered endpoint, region and names; blank keys are
    refused there, and not before. *)
Theorem credentials_reach_client env file hostname pid context input fields w resp w' :
  api_secrets env file = Ok m -> random_ok E -> xbCredentials input = VString <$> fields -> sole_fields fields ->
  handle_create_bucket E true auth_configured (Some m) Error (Marshal float_text) context input w = (Ok resp, w') ->
  exists row, buckets (catalog (apiStore (data w'))) !! brID resp = Some row /\
    bEndpointURL row = xbEndpointURL input /\ bRegion row = xbRegion input /\ bBucketName row = xbBucketName input /\
    bPrefix row = xbPrefix input /\
    (manager ← worker_secrets env file hostname pid; clientForBucket NewS3API manager (scanBucket row)) =
      (let credentials := mkCredentials (entered fields "access_key_id") (entered fields "secret_access_key") (entered fields "session_token") in
       config ← BucketConfigFromStorage (scanBucket row);
       _ ← ValidateCredentials credentials;
       NewClient NewS3API config credentials).
Proof.
  intros Hm Hr Hf Hsole Hs. apply created_bucket in Hs as (row & text & nonce & Hrow & Ht & Hn & Hc & He & Hreg & Hb & Hp); [|done].
  exists row. split; [exact Hrow|]. split_and!; [done..|]. rewrite Hf in Ht. rewrite (same_manager env file hostname pid m Hm). cbn [mbind result_bind].
  by apply (client_of_sealed (scanBucket row) text nonce).
Qed.
End Reach.

(** ** Witness *)

Definition zeros_api : Surroundings ApiTables :=
  mkSurroundings (fun _ t => t) (fun _ => None) (fun _ => 0) (fun _ => GoTime.mkTime 0 0 0) (fun _ count => repeat 0 count).
Lemma zeros_api_ok : random_ok zeros_api.
Proof. exact zeros_random_ok. Qed.

Definition demo_fields : gmap string string := <["access_key_id" := " AKIA"]> {["secret_access_key" := "s3cr3t<"]}.
Definition demo_input : createBucketBody :=
  mkCreateBucketBody "mine" "s3" "https://s3.example" "eu-1" "data" "" ∅ (VString <$> demo_fields) None.
Definition demo_env : environment := fun key =>
  (list_to_map [("DATABASE_URL", "postgres://db"); ("ENCRYPTION_KEY_ID", "k1"); ("SUPERUSER_EMAIL", "root@x");
    ("SESSION_SECRET_BASE64", "MDEyMzQ1Njc4OWFiY2RlZjAxMjM0NTY3ODlhYmNkZWY="); ("SUPERUSER_PASSWORD", "secret")] : gmap string string) !! key.
Definition demo_file : result store_error (option string) :=
  Ok (Some ("# keys" +:+ String (byte_of 10) "ENCRYPTION_KEY_BASE64='MDAwMDAwMDAwMDAwMDAwMDAwMDAwMDAwMDAwMDAwMDA='")).
Definition demo_manager : StaticKeyManager := mkKeyManager "k1" "00000000000000000000000000000000".
Lemma demo_secrets : api_secrets demo_env demo_file = Ok demo_manager.
Proof. vm_compute. reflexivity. Qed.

Definition demo_created := handle_create_bucket (H := zero_seal) zeros_api true true (Some demo_manager) (fun _ => "error")
  (Marshal (fun _ => "")) None demo_input (mkServer 0 demo_api).

Lemma demo_sole : sole_fields demo_fields.
Proof.
  intros name key Hname [v Hv]. unfold demo_fields in Hv. apply lookup_insert_Some in Hv as [[<- _]|[_ [<- _]%lookup_singleton_Some]];
    repeat (apply elem_of_cons in Hname as [->|Hname]; [vm_compute; done|]); by apply elem_of_nil in Hname.
Qed.

Lemma credentials_reach_client_witness :
  exists resp w' row, demo_created = (Ok resp, w') /\ buckets (catalog (apiStore (data w'))) !! brID resp = Some row /\
    (manager ← worker_secrets demo_env demo_file None 7; clientForBucket (H := zero_seal) (fun options => options) manager (scanBucket row)) =
      Ok (mkSDKClient (mkS3Options "eu-1" (mkCredentials "AKIA" "s3cr3t<" "") "https://s3.example" false) false).
Proof.
  destruct demo_created as [[resp|p] w'] eqn:Hc; [|exfalso; apply (f_equal (fun o => is_ok o.1)) in Hc; vm_compute in Hc; discriminate Hc].
  destruct (credentials_reach_client (H := zero_seal) (fun options => options) zeros_api true demo_manager (fun _ => "error") (fun _ => "")
    demo_env demo_file None 7 None demo_input demo_fields (mkServer 0 demo_api) resp w' demo_secrets zeros_api_ok eq_refl demo_sole Hc) as (row & Hrow & _ & _ & _ & _ & Hclient).
  exists resp, w', row. split; [reflexivity|]. split; [exact Hrow|]. rewrite Hclient.
  pose proof (f_equal (fun o => match o.1 with Ok r => buckets (catalog (apiStore (data o.2))) !! brID r | Err _ => None end) Hc) as Hrow'.
  cbn [fst snd] in Hrow'. rewrite Hrow in Hrow'. vm_compute in Hrow'. injection Hrow' as <-. vm_compute. reflexivity.
Defined.
