(* ===== verification/Extract.v ===== *)
(** * Extract

    The attributes captured from the upstream for an object:
    packages/upstreams/s3compat/extract_attributes.go, catalog_attributes.go, and the
    HEAD and tagging calls of client.go.

    [sprint] is [fmt.Sprint] of a value that is not a string, [ParseFloat64] is
    [strconv.ParseFloat(s, 64)] on any string. *)
From S2P Require Import Prelude GoStrings GoFloat GoTime Ast SearchDefs JobPayload JobRuns ErrState Catalog.
From S2P Require Import AttributeCatalog ObjectStore Capture.
Local Open Scope Z_scope.

(** ** The response of a HEAD

    [s3.HeadObjectOutput]: a pointer is an option, an enumeration a string. *)
Record HeadObjectOutput := mkHead {
  hETag : option string; hContentLength : option Z; hLastModified : option Time;
  hAcceptRanges : option string; hCacheControl : option string; hContentType : option string;
  hContentDisposition : option string; hContentEncoding : option string; hContentLanguage : option string;
  hMetadata : gmap string string;
  hStorageClass : string; hVersionId : option string; hServerSideEncryption : string; hSSEKMSKeyId : option string;
  hSSECustomerAlgorithm : option string; hSSECustomerKeyMD5 : option string; hWebsiteRedirectLocation : option string;
  hExpiration : option string; hChecksumCRC32 : option string; hChecksumCRC32C : option string;
  hChecksumCRC64NVME : option string; hChecksumSHA1 : option string; hChecksumSHA256 : option string;
  hChecksumSHA512 : option string; hChecksumMD5 : option string; hBucketKeyEnabled : option bool;
  hArchiveStatus : string; hReplicationStatus : string; hObjectLockMode : string; hObjectLockLegalHoldStatus : string;
  hObjectLockRetainUntilDate : option Time; hPartsCount : option Z; hDeleteMarker : option bool
}.

(** [ResponseHeaders] maps the lower-case names to the values; [None] is the nil map. *)
Record HeadObjectData := mkHeadData {
  Output : option HeadObjectOutput;
  ResponseHeaders : option (gmap string (list string))
}.

(** [http.Header.Get]. *)
Definition header_get (headers : gmap string (list string)) (name : string) : string :=
  match headers !! ToLower name with Some (value :: _) => value | _ => "" end.

Record HeadObjectInput := mkHeadInput { hiBucket : string; hiKey : string; hiVersionID : string }.

(** ** The extractors *)

Definition sdkStringField (read : HeadObjectOutput -> option string) (output : HeadObjectOutput) : option value :=
  VString <$> read output.

Definition sdkEnumField (read : HeadObjectOutput -> string) (output : HeadObjectOutput) : option value :=
  if String.eqb (read output) "" then None else Some (VString (read output)).

(** [sdkFieldExtractors]; no extractor returns an error. *)
Definition sdkFieldExtractors : gmap string (HeadObjectOutput -> option value) := list_to_map [
  ("ETag", sdkStringField hETag);
  ("ContentLength", fun output => VInt <$> hContentLength output);
  ("LastModified", fun output => (fun t => VString (FormatRFC3339UTC t)) <$> hLastModified output);
  ("AcceptRanges", sdkStringField hAcceptRanges);
  ("CacheControl", sdkStringField hCacheControl);
  ("ContentType", sdkStringField hContentType);
  ("ContentDisposition", sdkStringField hContentDisposition);
  ("ContentEncoding", sdkStringField hContentEncoding);
  ("ContentLanguage", sdkStringField hContentLanguage);
  ("StorageClass", sdkEnumField hStorageClass);
  ("VersionId", sdkStringField hVersionId);
  ("ServerSideEncryption", sdkEnumField hServerSideEncryption);
  ("SSEKMSKeyId", sdkStringField hSSEKMSKeyId);
  ("SSECustomerAlgorithm", sdkStringField hSSECustomerAlgorithm);
  ("SSECustomerKeyMD5", sdkStringField hSSECustomerKeyMD5);
  ("WebsiteRedirectLocation", sdkStringField hWebsiteRedirectLocation);
  ("Expiration", sdkStringField hExpiration);
  ("ChecksumCRC32", sdkStringField hChecksumCRC32);
  ("ChecksumCRC32C", sdkStringField hChecksumCRC32C);
  ("ChecksumCRC64NVME", sdkStringField hChecksumCRC64NVME);
  ("ChecksumSHA1", sdkStringField hChecksumSHA1);
  ("ChecksumSHA256", sdkStringField hChecksumSHA256);
  ("ChecksumSHA512", sdkStringField hChecksumSHA512);
  ("ChecksumMD5", sdkStringField hChecksumMD5);
  ("BucketKeyEnabled", fun output => VBool <$> hBucketKeyEnabled output);
  ("ArchiveStatus", sdkEnumField hArchiveStatus);
  ("ReplicationStatus", sdkEnumField hReplicationStatus);
  ("ObjectLockMode", sdkEnumField hObjectLockMode);
  ("ObjectLockLegalHoldStatus", sdkEnumField hObjectLockLegalHoldStatus);
  ("ObjectLockRetainUntilDate", fun output => (fun t => VString (FormatRFC3339UTC t)) <$> hObjectLockRetainUntilDate output);
  ("PartsCount", fun output => VInt <$> hPartsCount output);
  ("DeleteMarker", fun output => if default false (hDeleteMarker output) then Some (VBool true) else None)
].

Definition is_required (field : UpstreamCaptureField) : bool :=
  bool_decide (cfCategory field = CaptureFieldCategoryRequired).

Definition extractHeadCaptureFieldValue (field : UpstreamCaptureField) (head : HeadObjectData) :
    result store_error (option value) :=
  match cfExtractorType field with
  | CaptureExtractorSDKField =>
      match sdkFieldExtractors !! cfExtractorRef field with
      | None => if is_required field then Err (Errorf "unknown sdk_field %q") else Ok None
      | Some extractor => Ok (Output head ≫= extractor)
      end
  | CaptureExtractorResponseHeader =>
      match ResponseHeaders head with
      | None => Ok None
      | Some headers =>
          let v := header_get headers (cfExtractorRef field) in
          if String.eqb v "" then Ok None else Ok (Some (VString v))
      end
  | CaptureExtractorMetadataKey =>
      match Output head with
      | None => Ok None
      | Some output => Ok (VString <$> hMetadata output !! cfExtractorRef field)
      end
  | CaptureExtractorMetadataAll =>
      match Output head with
      | None => Ok None
      | Some output => if Nat.eqb (size (hMetadata output)) 0 then Ok None else Ok (Some (VMap (VString <$> hMetadata output)))
      end
  | _ => Err (Errorf "unsupported head extractor_type %q")
  end.

Definition extractTaggingCaptureFieldValue (field : UpstreamCaptureField) (tags : gmap string string) :
    result store_error (option value) :=
  match cfExtractorType field with
  | CaptureExtractorTagKey => Ok (VString <$> tags !! cfExtractorRef field)
  | CaptureExtractorTaggingAll => if Nat.eqb (size tags) 0 then Ok None else Ok (Some (VMap (VString <$> tags)))
  | _ => Err (Errorf "unsupported tagging extractor_type %q")
  end.

Definition extractCaptureFieldValue (field : UpstreamCaptureField) (head : HeadObjectData) (tags : gmap string string) :
    result store_error (option value) :=
  match cfCaptureSource field with
  | CaptureSourceHead => extractHeadCaptureFieldValue field head
  | CaptureSourceTagging => extractTaggingCaptureFieldValue field tags
  | CaptureSourceOther _ => Err (Errorf "unsupported capture_source %q")
  end.

(** [strconv.ParseBool]. *)
Definition ParseBool (s : string) : option bool :=
  if bool_decide (s ∈ ["1"; "t"; "T"; "TRUE"; "true"; "True"]) then Some true
  else if bool_decide (s ∈ ["0"; "f"; "F"; "FALSE"; "false"; "False"]) then Some false
  else None.

Section Extract.
Context (sprint : value -> string) (ParseFloat64 : string -> option spec_float).

Definition coerceCaptureValue (valueType : ValueType) (v : value) : result store_error value :=
  match valueType with
  | TypeString | TypeTimestamp | TypeUnknown =>
      match v with
      | VString _ | VMap _ => Ok v
      | _ => Ok (VString (sprint v))
      end
  | TypeInteger =>
      match v with
      | VInt _ => Ok v
      | VFloat f => Ok (VInt (int64_of_float f))
      | VString typed => match ParseInt64 typed with Some n => Ok (VInt n) | None => Err (Errorf "invalid syntax") end
      | _ => Err (Errorf "unsupported integer value %T")
      end
  | TypeFloat =>
      match v with
      | VFloat _ => Ok v
      | VInt n => Ok (VFloat (float_of_Z n))
      | VString typed => match ParseFloat64 typed with Some f => Ok (VFloat f) | None => Err (Errorf "invalid syntax") end
      | _ => Err (Errorf "unsupported float value %T")
      end
  | TypeBoolean =>
      match v with
      | VBool _ => Ok v
      | VString typed => match ParseBool typed with Some b => Ok (VBool b) | None => Err (Errorf "invalid syntax") end
      | _ => Err (Errorf "unsupported boolean value %T")
      end
  | _ => Ok v
  end.

(** [setAttributeAtPath] of this package. *)
Definition set_captured (root : payload) (attributePath : string) (v : value) (field : UpstreamCaptureField) :
    result store_error payload :=
  if negb (HasPrefix attributePath "upstream.") then Err (Errorf "attribute_path %q must start with upstream.")
  else match cfExtractorType field with
  | CaptureExtractorMetadataAll =>
      match v with
      | VMap metadata => if Nat.eqb (size metadata) 0 then Ok root else Ok (<["metadata" := VMap metadata]> root)
      | _ => Err (Errorf "metadata_all value must be a map")
      end
  | CaptureExtractorTaggingAll =>
      match v with
      | VMap tagAttributes => if Nat.eqb (size tagAttributes) 0 then Ok root else Ok (<["tag" := VMap tagAttributes]> root)
      | _ => Err (Errorf "tagging_all value must be a map")
      end
  | _ =>
      match Split "." (TrimPrefix attributePath "upstream.") with
      | [] => Err (Errorf "invalid attribute_path %q")
      | part :: parts =>
          if String.eqb part "" then Err (Errorf "invalid attribute_path %q") else Ok (set_at root part parts v)
      end
  end.

(** [pruneEmptyMaps]: the maps inside a value that are empty, or become so, are
    removed. *)
Definition is_empty_map (v : value) : bool := match v with VMap m => Nat.eqb (size m) 0 | _ => false end.
Fixpoint prune (v : value) : value :=
  match v with
  | VMap m => VMap (filter (fun e : string * value => is_empty_map e.2 = false) (prune <$> m))
  | v => v
  end.
Definition pruneEmptyMaps (root : payload) : payload :=
  filter (fun e : string * value => is_empty_map e.2 = false) (prune <$> root).

(** The loop over the fields. *)
Definition extract_field (head : HeadObjectData) (tags : gmap string string) (upstream : payload)
    (field : UpstreamCaptureField) : result store_error payload :=
  if negb (cfEnabled field) then Ok upstream
  else
    extracted ← extractCaptureFieldValue field head tags;
    match extracted with
    | None => if is_required field then Err (Errorf "required capture field %q missing") else Ok upstream
    | Some v =>
        match coerceCaptureValue (cfValueType field) v with
        | Err e => if is_required field then Err (Wrapf "coerce capture field %q: %w" e) else Ok upstream
        | Ok coerced => set_captured upstream (cfAttributePath field) coerced field
        end
    end.

Definition ExtractAttributes (fields : list UpstreamCaptureField) (head : HeadObjectData) (tags : gmap string string) :
    result store_error payload :=
  upstream ← foldM_result (extract_field head tags) ∅ fields;
  Ok {["upstream" := VMap (pruneEmptyMaps upstream)]}.

(** ** catalog_attributes.go *)

(** An error of the tagging call: one of the API, with its code, or another. *)
Inductive api_error := APIError (code : string) (e : store_error) | OtherError (e : store_error).

Definition IsGetObjectTaggingUnsupported (e : api_error) : bool :=
  match e with
  | APIError code _ => bool_decide (code ∈ ["NotImplemented"; "NotSupported"; "MethodNotAllowed"; "XNotImplemented"])
  | OtherError _ => false
  end.
Definition api_cause (e : api_error) : store_error := match e with APIError _ e | OtherError e => e end.

(** The calls of an [ObjectClient] that capture an object. *)
Record HeadClient := mkHeadClient {
  HeadObject : HeadObjectInput -> result store_error HeadObjectData;
  GetObjectTagging : HeadObjectInput -> result api_error (gmap string string)
}.

Definition FetchCatalogAttributes (client : HeadClient) (input : HeadObjectInput) (fields : list UpstreamCaptureField) :
    result store_error payload :=
  head ← HeadObject client input;
  tags ← (if CaptureFieldsNeedTagging fields
    then match GetObjectTagging client input with
         | Ok tags => Ok tags
         | Err e => if IsGetObjectTaggingUnsupported e then Ok ∅
                    else Err (Wrapf "get object tagging for %q: %w" (api_cause e))
         end
    else Ok ∅);
  ExtractAttributes fields head tags.
End Extract.

(** ** What is captured *)

(** Two paths neither of which continues the other. *)
Definition apart (p q : list string) : Prop := ~ p `prefix_of` q /\ ~ q `prefix_of` p.

Lemma value_at_set_at part parts m v : value_at (VMap (set_at m part parts v)) (part :: parts) = Some v.
Proof.
revert part m. induction parts as [|next parts IH]; intros part m; cbn [set_at value_at asNestedAttributeMap mbind option_bind];
  rewrite lookup_insert_eq; cbn [option_bind]; [done|]. apply IH.
Qed.

Lemma value_at_set_at_apart q : forall part parts m v, apart (part :: parts) q ->
  value_at (VMap (set_at m part parts v)) q = value_at (VMap m) q.
Proof.
induction q as [|k q IH]; intros part parts m v [H1 H2]; [destruct H2; apply prefix_nil|].
destruct (decide (k = part)) as [->|Hne].
- destruct parts as [|next parts].
  { destruct H1. by exists q. }
  cbn. rewrite lookup_insert_eq. cbn. rewrite IH.
  + destruct (m !! part) as [child|] eqn:Ec; cbn.
    * destruct child as [| | | | | | | |n]; cbn; try (by destruct q as [|k' q]; [by destruct H2; exists (next :: parts)|]).
    * destruct q as [|k' q]; [by destruct H2; exists (next :: parts)|]. cbn. by rewrite lookup_empty.
  + split; intros Hp; [apply H1|apply H2]; by apply prefix_cons.
- destruct parts as [|next parts]; cbn; by rewrite lookup_insert_ne by congruence.
Qed.

Definition atomic (v : value) : Prop := match v with VMap _ => False | _ => True end.

Lemma prune_map m : prune (VMap m) = VMap (pruneEmptyMaps m).
Proof. done. Qed.

Lemma value_at_prune q : forall m v, q <> [] -> atomic v -> value_at (VMap m) q = Some v ->
  value_at (VMap (pruneEmptyMaps m)) q = Some v.
Proof.
induction q as [|k q IH]; intros m v Hne Hv Hq; [done|]. cbn in Hq |- *.
destruct (m !! k) as [child|] eqn:Ec; [|done]. cbn in Hq.
assert (pruneEmptyMaps m !! k = Some (prune child) /\ value_at (prune child) q = Some v) as [-> Hq']; [|exact Hq'].
unfold pruneEmptyMaps. rewrite map_lookup_filter_Some, lookup_fmap, Ec. cbn.
destruct q as [|k' q].
- cbn in Hq. injection Hq as ->. destruct v; try done.
- assert (exists n, child = VMap n) as [n ->] by (destruct child; try done; eauto).
  pose proof (IH n v ltac:(done) Hv Hq) as Hp. rewrite prune_map. split; [|exact Hp]. split; [done|].
  cbn in Hp |- *. apply Nat.eqb_neq. intros E0. apply map_size_empty_inv in E0. rewrite E0, lookup_empty in Hp. done.
Qed.

Section Captured.
Context (sprint : value -> string) (ParseFloat64 : string -> option spec_float).
Notation extract_field := (extract_field sprint ParseFloat64).
Notation coerceCaptureValue := (coerceCaptureValue sprint ParseFloat64).

(** Where a field writes, below [upstream]. *)
Definition target_path (field : UpstreamCaptureField) : list string :=
  match cfExtractorType field with
  | CaptureExtractorMetadataAll => ["metadata"]
  | CaptureExtractorTaggingAll => ["tag"]
  | _ => Split "." (TrimPrefix (cfAttributePath field) "upstream.")
  end.

Lemma set_captured_apart root path v field root' q :
  set_captured root path v field = Ok root' -> path = cfAttributePath field -> apart (target_path field) q ->
  value_at (VMap root') q = value_at (VMap root) q.
Proof.
unfold set_captured, target_path. intros Hs -> Ha. destruct (negb _); [done|].
assert (forall k m, apart [k] q -> value_at (VMap (<[k := m]> root)) q = value_at (VMap root) q) as Htop
  by (intros k m; apply (value_at_set_at_apart q k [] root m)).
destruct (cfExtractorType field); try (destruct (Split _ _) as [|part parts]; [done|]; destruct (String.eqb part "");
  [done|]; injection Hs as <-; by apply value_at_set_at_apart).
- destruct v; try done. destruct (Nat.eqb _ _); injection Hs as <-; [done|by apply Htop].
- destruct v; try done. destruct (Nat.eqb _ _); injection Hs as <-; [done|by apply Htop].
Qed.

Lemma extract_field_apart head tags root field root' q :
  extract_field head tags root field = Ok root' -> (cfEnabled field = true -> apart (target_path field) q) ->
  value_at (VMap root') q = value_at (VMap root) q.
Proof.
unfold Extract.extract_field. intros Hf Ha. destruct (cfEnabled field); cbn [negb] in Hf; [|by injection Hf as <-].
apply bind_Ok in Hf as (e & _ & Hf). destruct e as [v|]; [|destruct (is_required field); [done|by injection Hf as <-]].
destruct (Extract.coerceCaptureValue _ _ _ v) as [c|e]; [|destruct (is_required field); [done|by injection Hf as <-]].
eapply set_captured_apart; [exact Hf|done|by apply Ha].
Qed.

Lemma extract_fields_apart head tags q fields : forall root root',
  foldM_result (extract_field head tags) root fields = Ok root' ->
  (forall field, field ∈ fields -> cfEnabled field = true -> apart (target_path field) q) ->
  value_at (VMap root') q = value_at (VMap root) q.
Proof.
induction fields as [|field fields IH]; intros root root' Hf Ha; [by injection Hf as <-|].
apply bind_Ok in Hf as (r & H1 & H2). rewrite (IH r root' H2) by (intros; apply Ha; [by right|done]).
eapply extract_field_apart; [exact H1|apply Ha; left].
Qed.

Lemma foldM_result_app {A B} (f : B -> A -> result store_error B) l1 l2 b b' :
  foldM_result f b (l1 ++ l2) = Ok b' -> exists c, foldM_result f b l1 = Ok c /\ foldM_result f c l2 = Ok b'.
Proof.
revert b. induction l1 as [|x l1 IH]; intros b; cbn; [by exists b|].
intros (c & H1 & H2)%bind_Ok. destruct (IH c H2) as (d & H3 & H4). exists d. split; [|done]. by rewrite H1.
Qed.

(** A successful capture holds every enabled required field: its value was in the
    response, it was coerced to the type of the field, and it is at the path of the
    field, unless another enabled field writes above or below that path. *)
Theorem ExtractAttributes_required pre field post head tags attributes :
  ExtractAttributes sprint ParseFloat64 (pre ++ field :: post) head tags = Ok attributes ->
  cfEnabled field = true -> cfCategory field = CaptureFieldCategoryRequired ->
  cfExtractorType field <> CaptureExtractorMetadataAll -> cfExtractorType field <> CaptureExtractorTaggingAll ->
  (forall other, other ∈ pre ++ post -> cfEnabled other = true -> apart (target_path other) (target_path field)) ->
  exists v coerced, extractCaptureFieldValue field head tags = Ok (Some v) /\
    coerceCaptureValue (cfValueType field) v = Ok coerced /\
    (atomic coerced -> value_at (VMap attributes) ("upstream" :: target_path field) = Some coerced).
Proof.
unfold ExtractAttributes. intros Hx Hen Hreq Hm Ht Ha. apply bind_Ok in Hx as (root & Hfold & [= <-]).
apply foldM_result_app in Hfold as (r1 & _ & Hf). apply bind_Ok in Hf as (r2 & Hf & Hpost).
unfold Extract.extract_field in Hf. rewrite Hen in Hf. cbn [negb] in Hf.
assert (is_required field = true) as Hr by (by apply bool_decide_eq_true).
apply bind_Ok in Hf as (e & He & Hf). destruct e as [v|]; [|by rewrite Hr in Hf].
destruct (Extract.coerceCaptureValue _ _ _ v) as [coerced|e] eqn:Ec; [|by rewrite Hr in Hf].
exists v, coerced. split; [done|]. split; [done|]. intros Hat.
assert (value_at (VMap r2) (target_path field) = Some coerced /\ target_path field <> []) as [Hv Hne].
{ unfold set_captured in Hf. unfold target_path. destruct (negb _); [done|].
  destruct (cfExtractorType field); try done; (destruct (Split _ _) as [|part parts]; [done|]; destruct (String.eqb part "");
    [done|]; injection Hf as <-; split; [apply value_at_set_at|done]). }
cbn [value_at asNestedAttributeMap mbind option_bind]. rewrite lookup_singleton_eq. cbn [option_bind].
apply value_at_prune; [done|done|].
rewrite (extract_fields_apart head tags (target_path field) post r2 root Hpost); [done|].
intros other Ho. apply Ha. apply elem_of_app. by right.
Qed.
End Captured.

(** ** The platform's etag and a user's tag *)

Definition demo_etag : UpstreamCaptureField :=
  mkCapture "upstream_etag" "upstream.etag" true CaptureFieldCategoryRequired CaptureFieldOriginPlatform
    CaptureSourceHead CaptureExtractorSDKField "ETag" TypeString 0 0.
Definition demo_tag : UpstreamCaptureField :=
  mkCapture "capture_1" "upstream.team" true CaptureFieldCategoryOptional CaptureFieldOriginUser
    CaptureSourceTagging CaptureExtractorTagKey "team" TypeString 0 0.
Definition demo_head : HeadObjectData :=
  mkHeadData (Some (mkHead (Some "5d41") None None None None None None None None ∅ "" None "" None None None None None
    None None None None None None None None "" "" "" "" None None None)) (Some ∅).

Lemma ExtractAttributes_required_witness :
  exists attributes, ExtractAttributes (fun _ => "") (fun _ => None) ([] ++ demo_etag :: [demo_tag]) demo_head
    {["team" := "storage"]} = Ok attributes /\
  exists v coerced, extractCaptureFieldValue demo_etag demo_head {["team" := "storage"]} = Ok (Some v) /\
    coerceCaptureValue (fun _ => "") (fun _ => None) (cfValueType demo_etag) v = Ok coerced /\
    (atomic coerced -> value_at (VMap attributes) ("upstream" :: target_path demo_etag) = Some coerced).
Proof.
eexists. assert (ExtractAttributes (fun _ => "") (fun _ => None) ([] ++ demo_etag :: [demo_tag]) demo_head
    {["team" := "storage"]} = Ok _) as H by (vm_compute; reflexivity).
split; [exact H|].
apply (ExtractAttributes_required (fun _ => "") (fun _ => None) [] demo_etag [demo_tag] demo_head {["team" := "storage"]} _ H);
  [reflexivity|reflexivity|discriminate|discriminate|].
intros other ->%list_elem_of_singleton _. split; intros [k Hk]; vm_compute in Hk; discriminate.
Defined.
