(* ===== verification/ObjectPlan.v ===== *)
(** * ObjectPlan

    The evidence a job carries about objects and the comparison of a listing with
    the catalog: apps/worker/internal/jobs/payloads.go and listing_evidence.go. *)
From S2P Require Import Prelude GoStrings GoFloat GoTime JobPayload JobRuns ErrState S3Listing Catalog ObjectStore.
Local Open Scope Z_scope.

(** ** payloads.go *)

Record ObjectEvidence := mkEvidence {
  evID : string;
  evKey : string;
  evVersionID : string;
  evETag : string;
  evSize : Z;
  evLastModified : string;
  evStorageClass : string
}.

#[export] Instance ObjectEvidence_eq_dec : EqDecision ObjectEvidence. Proof. solve_decision. Defined.

Record ObjectMutationInput := mkMutationInput {
  miBucketID : string;
  miObjects : list ObjectEvidence;
  miSourceJobRunID : string
}.

(** A field with [omitempty]. *)
Definition put_text (key text : string) (m : payload) : payload :=
  if String.eqb text "" then m else <[key := VString text]> m.

(** The JSON object of an evidence. *)
Definition evidence_json (e : ObjectEvidence) : payload :=
  put_text "id" (evID e) (<["key" := VString (evKey e)]> (put_text "version_id" (evVersionID e)
    (put_text "etag" (evETag e) ((if evSize e =? 0 then fun m => m else <["size" := VInt (evSize e)]>)
      (put_text "last_modified" (evLastModified e) (put_text "storage_class" (evStorageClass e) ∅)))))).

Definition mutation_input_json (input : ObjectMutationInput) : payload :=
  <["bucket_id" := VString (miBucketID input)]>
  (<["objects" := VSlice (map (fun e => VMap (evidence_json e)) (miObjects input))]>
   (put_text "source_job_run_id" (miSourceJobRunID input) ∅)).

(** [PayloadFrom]: the JSON of the value, read back. *)
Definition PayloadFrom (encoded : payload) : payload := decodeJobRunPayload encoded.

Definition upstreamAttributes (attributes : payload) : payload :=
  default ∅ (attributes !! "upstream" ≫= asNestedAttributeMap).

Definition SetS3StorageClass (upstream : payload) (storageClass : string) : payload :=
  if String.eqb storageClass "" then upstream
  else
    let s3 := default ∅ (upstream !! "s3" ≫= asNestedAttributeMap) in
    <["s3" := VMap (<["storage_class" := VString storageClass]> s3)]> upstream.

Definition AttributesWithEvidence (attributes : payload) (evidence : ObjectEvidence) : payload :=
  let merged := cloneObjectAttributes attributes in
  let upstream := upstreamAttributes merged in
  let upstream := put_text "etag" (evETag evidence) upstream in
  let upstream := if 0 <? evSize evidence then <["size" := VInt (evSize evidence)]> upstream else upstream in
  let upstream := put_text "last_modified" (evLastModified evidence) upstream in
  let upstream := SetS3StorageClass upstream (evStorageClass evidence) in
  <["upstream" := VMap upstream]> merged.

(** ** listing_evidence.go *)

Record ListingEvidence := mkListingEvidence { leSize : Z; leETag : string; leLastModified : string; leStorageClass : string }.

Definition ObjectEvidenceFromListedObject (object : ListedObject) : ObjectEvidence :=
  mkEvidence "" (lKey object) "" (lETag object) (lSize object) (FormatRFC3339UTC (lLastModified object))
    (lStorageClass object).

Definition ListingEvidenceFromListedObject (object : ListedObject) : ListingEvidence :=
  mkListingEvidence (lSize object) (lETag object) (FormatRFC3339UTC (lLastModified object)) (lStorageClass object).

Definition int64Attribute (v : option value) : Z :=
  match v with
  | Some (VInt z) => z
  | Some (VFloat f) => int64_of_float f
  | _ => 0
  end.

Definition stringAttribute (v : option value) : string :=
  match v with Some (VString s) => s | _ => "" end.

Definition storageClassAttribute (upstream : payload) : string :=
  match upstream !! "s3" ≫= asNestedAttributeMap with
  | None => ""
  | Some nested => stringAttribute (nested !! "storage_class")
  end.

Definition ListingEvidenceFromLocalObject (object : Object) : ListingEvidence :=
  match oAttributes object !! "upstream" ≫= asNestedAttributeMap with
  | None => mkListingEvidence 0 "" "" ""
  | Some upstream =>
      mkListingEvidence (int64Attribute (upstream !! "size")) (stringAttribute (upstream !! "etag"))
        (stringAttribute (upstream !! "last_modified")) (storageClassAttribute upstream)
  end.

(** [value != text] for an interface and a string. *)
Definition differs (v : option value) (text : string) : bool :=
  match v with Some (VString s) => negb (String.eqb s text) | _ => true end.

Definition ObjectChanged (upstreamObject : ListedObject) (localObject : Object) : bool :=
  match oAttributes localObject !! "upstream" ≫= asNestedAttributeMap with
  | None => true
  | Some upstream =>
      differs (upstream !! "etag") (lETag upstreamObject)
      || negb (int64Attribute (upstream !! "size") =? lSize upstreamObject)
      || differs (upstream !! "last_modified") (FormatRFC3339UTC (lLastModified upstreamObject))
      || negb (String.eqb (storageClassAttribute upstream) (lStorageClass upstreamObject))
  end.

(** A map by key: the last of several with the same key wins. *)
Definition by_key {A} (key : A -> string) (l : list A) : gmap string A :=
  fold_left (fun m a => <[key a := a]> m) l ∅.

Definition with_id (id : string) (e : ObjectEvidence) : ObjectEvidence :=
  mkEvidence id (evKey e) (evVersionID e) (evETag e) (evSize e) (evLastModified e) (evStorageClass e).

Section Plan.
Context `{MapOrder}.

(** The loop over the listed objects: those to import and those to refresh. *)
Definition plan_upstream (localByKey : gmap string Object) (acc : list ObjectEvidence * list ObjectEvidence)
    (e : string * ListedObject) : list ObjectEvidence * list ObjectEvidence :=
  let evidence := ObjectEvidenceFromListedObject e.2 in
  match localByKey !! e.1 with
  | None => (acc.1 ++ [evidence], acc.2)
  | Some localObject =>
      let evidence := with_id (oID localObject) evidence in
      if ObjectChanged e.2 localObject then (acc.1, acc.2 ++ [evidence]) else acc
  end.

(** The loop over the local objects: those to remove. *)
Definition plan_local (upstreamObjects : gmap string ListedObject) (acc : list ObjectEvidence)
    (e : string * Object) : list ObjectEvidence :=
  match upstreamObjects !! e.1 with
  | Some _ => acc
  | None => acc ++ [mkEvidence (oID e.2) (oKey e.2) "" "" 0 "" ""]
  end.

(** [site] numbers the two loops over maps: [2 * site] and [2 * site + 1]. *)
Definition PlanObjectMutations (site : nat) (upstreamObjects : gmap string ListedObject) (localObjects : list Object) :
    list ObjectEvidence * list ObjectEvidence * list ObjectEvidence :=
  let localByKey := by_key oKey localObjects in
  let '(importObjects, refreshObjects) :=
    fold_left (plan_upstream localByKey) (range_map (2 * site) upstreamObjects) ([], []) in
  let removeObjects := fold_left (plan_local upstreamObjects) (range_map (2 * site + 1) localByKey) [] in
  (importObjects, refreshObjects, removeObjects).

Definition PlanObjectMutationsForListedObjects (site : nat) (upstreamObjects : list ListedObject)
    (localObjects : list Object) : list ObjectEvidence * list ObjectEvidence * list ObjectEvidence :=
  PlanObjectMutations site (by_key lKey upstreamObjects) localObjects.
End Plan.

(** ** Batches

    [objectEvidenceBatches], [UpsertObjectParamBatches] and [mutationEvidenceBatches]
    are the same loop: slices of [size] elements, all of them in one when the size is
    not positive. *)
Fixpoint batches_from {A} (fuel : nat) (size : nat) (l : list A) : list (list A) :=
  match fuel with
  | O => []
  | Datatypes.S fuel =>
      match l with
      | [] => []
      | _ => firstn size l :: batches_from fuel size (skipn size l)
      end
  end.

Definition batches {A} (l : list A) (size : Z) : list (list A) :=
  match l with
  | [] => []
  | _ =>
      let size := if size <=? 0 then List.length l else Z.to_nat size in
      batches_from (List.length l) size l
  end.

(** ** Lemmas on the plan *)

Lemma lookup_by_key {A} (key : A -> string) l k a : by_key key l !! k = Some a -> a ∈ l /\ key a = k.
Proof.
  unfold by_key. revert a. induction l as [|x l IH] using rev_ind; intros a; [cbn; by rewrite lookup_empty|].
  rewrite fold_left_app. cbn. destruct (decide (key x = k)) as [<-|Hne].
  - rewrite lookup_insert_eq. intros [= ->]. split; [|done]. apply elem_of_app. right. left.
  - rewrite lookup_insert_ne by done. intros Ha. apply IH in Ha as [Hin Hk]. split; [|done].
    apply elem_of_app. by left.
Qed.

Lemma by_key_is_Some {A} (key : A -> string) l k : is_Some (by_key key l !! k) <-> k ∈ map key l.
Proof.
  split.
  - intros [a Ha]. apply lookup_by_key in Ha as [Hin <-]. by apply list_elem_of_fmap_2.
  - unfold by_key. induction l as [|x l IH] using rev_ind; [by intros ?%not_elem_of_nil|].
    rewrite map_app, fold_left_app, elem_of_app. cbn. intros Hk. destruct (decide (key x = k)) as [<-|Hne].
    + rewrite lookup_insert_eq. eauto.
    + rewrite lookup_insert_ne by done. apply IH. destruct Hk as [|Hk]; [done|].
      apply list_elem_of_singleton in Hk. congruence.
Qed.

(** The import and refresh lists are what two conditions select in the order of the
    loop. *)
Definition import_of (localByKey : gmap string Object) (e : string * ListedObject) : option ObjectEvidence :=
  match localByKey !! e.1 with None => Some (ObjectEvidenceFromListedObject e.2) | Some _ => None end.
Definition refresh_of (localByKey : gmap string Object) (e : string * ListedObject) : option ObjectEvidence :=
  match localByKey !! e.1 with
  | Some o => if ObjectChanged e.2 o then Some (with_id (oID o) (ObjectEvidenceFromListedObject e.2)) else None
  | None => None
  end.
Definition remove_of (upstreamObjects : gmap string ListedObject) (e : string * Object) : option ObjectEvidence :=
  match upstreamObjects !! e.1 with Some _ => None | None => Some (mkEvidence (oID e.2) (oKey e.2) "" "" 0 "" "") end.

Lemma plan_upstream_omap local l acc :
  fold_left (plan_upstream local) l acc = (acc.1 ++ omap (import_of local) l, acc.2 ++ omap (refresh_of local) l).
Proof.
  revert acc; induction l as [|e l IH]; intros [a b]; cbn; [by rewrite !app_nil_r|].
  rewrite IH. unfold plan_upstream, import_of, refresh_of. destruct (local !! e.1) as [o|]; cbn.
  - destruct (ObjectChanged e.2 o); cbn; by rewrite <- ?app_assoc.
  - by rewrite <- app_assoc.
Qed.

Lemma plan_local_omap up l acc : fold_left (plan_local up) l acc = acc ++ omap (remove_of up) l.
Proof.
  revert acc; induction l as [|e l IH]; intros acc; cbn; [by rewrite app_nil_r|].
  rewrite IH. unfold plan_local, remove_of. destruct (up !! e.1); cbn; [done|]. by rewrite <- app_assoc.
Qed.

Lemma omap_keys_NoDup {A} (f : string * A -> option ObjectEvidence) (l : list (string * A)) :
  (forall e v, e ∈ l -> f e = Some v -> evKey v = e.1) -> NoDup l.*1 -> NoDup (map evKey (omap f l)).
Proof.
  induction l as [|e l IH]; intros Hf Hnd; cbn; [constructor|].
  cbn in Hnd. apply list.NoDup_cons in Hnd as [Hni Hnd].
  assert (NoDup (map evKey (omap f l))) as Hl by (apply IH; [|done]; intros e' v ? ?; apply Hf; [by right|done]).
  destruct (f e) as [v|] eqn:E; [|done]. cbn. apply list.NoDup_cons. split; [|done].
  intros (v' & Hv' & Hin)%list_elem_of_fmap. apply list_elem_of_omap in Hin as (e' & He' & Hfe').
  apply Hni. apply list_elem_of_fmap. exists e'. split; [|done].
  rewrite <- (Hf e v), <- (Hf e' v') by (done || by left || by right). done.
Qed.

(** *** Batches *)

Lemma batches_from_spec {A} size : forall fuel (l : list A), (0 < size)%nat -> (List.length l <= fuel)%nat ->
  List.concat (batches_from fuel size l) = l /\
  Forall (fun b => b <> [] /\ (List.length b <= size)%nat) (batches_from fuel size l).
Proof.
  intros fuel l Hs. revert l. induction fuel as [|fuel IH]; intros l Hl.
  - destruct l; [|cbn in Hl; lia]. by split.
  - destruct l as [|x l]; [by split|]. cbn [batches_from].
    destruct (IH (skipn size (x :: l))) as [Hc Hf].
    { rewrite length_skipn. cbn [List.length] in *. lia. }
    split.
    + cbn [List.concat]. rewrite Hc. apply firstn_skipn.
    + constructor; [|done]. split; [|rewrite length_firstn; lia]. destruct size; [lia|]. done.
Qed.

(** Batches cut the list, in order, into slices that are not empty and not longer
    than the size. *)
Lemma batches_spec {A} (l : list A) size :
  List.concat (batches l size) = l /\
  Forall (fun b => b <> [] /\ (0 < size -> Z.of_nat (List.length b) <= size)) (batches l size).
Proof.
  unfold batches. destruct l as [|x l]; [by split|]. set (xs := x :: l).
  assert (0 < List.length xs)%nat by (cbn; lia). destruct (Z.leb_spec size 0) as [Hs|Hs].
  - destruct (batches_from_spec (List.length xs) (List.length xs) xs) as [Hc Hf]; [lia..|].
    split; [done|]. eapply list.Forall_impl; [exact Hf|]. intros b [Hb _]. split; [done|lia].
  - destruct (batches_from_spec (Z.to_nat size) (List.length xs) xs) as [Hc Hf]; [lia..|].
    split; [done|]. eapply list.Forall_impl; [exact Hf|]. intros b [Hb Hl]. split; [done|lia].
Qed.
