(* ===== verification/HeadAttributes.v ===== *)
(** * HeadAttributes

    The attributes of an object from the response of a HEAD, by the fixed conversion of
    packages/upstreams/s3compat/sdk.go ([AttributesFromHeadObjectOutput]), with its tags
    (catalog_attributes.go: [MergeTagAttributes]), and the way back that the tests of the
    capture use (head_object_data.go).  The handlers extract the attributes by the capture
    fields of the platform instead (Extract.v): both are shown to give the same, in whatever
    order the database returns the fields.

    A map that is stored and then filled is filled before it is stored here; integers of 32
    and of 64 bits are both [VInt].  The second part is the reading of raw responses. *)
From S2P Require Import Prelude GoStrings GoFloat GoTime Ast SearchDefs JobPayload JobRuns ErrState S3Listing Catalog AttributeCatalog.
From S2P Require Import Capture ObjectStore Extract ObjectPlan.
Local Open Scope Z_scope.

(** ** sdk.go *)

Definition upstreamAttributes (attributes : payload) : payload := {["upstream" := VMap attributes]}.

Definition copySDKString (v : option string) (target : payload) (key : string) : payload :=
  match v with Some s => <[key := VString s]> target | None => target end.
Definition copySDKBool (v : option bool) (target : payload) (key : string) : payload :=
  match v with Some b => <[key := VBool b]> target | None => target end.
Definition copySDKEnum (v : string) (target : payload) (key : string) : payload :=
  if String.eqb v "" then target else <[key := VString v]> target.
Definition copySDKTime (v : option Time) (target : payload) (key : string) : payload :=
  match v with Some t => <[key := VString (FormatRFC3339UTC t)]> target | None => target end.
Definition copySDKInt (v : option Z) (target : payload) (key : string) : payload :=
  match v with Some n => <[key := VInt n]> target | None => target end.

Definition ensureNestedMap (parent : payload) (key : string) : payload := default ∅ (parent !! key ≫= asNestedAttributeMap).

(** A nested map is removed when it is left empty. *)
Definition nested (name : string) (m attributes : payload) : payload :=
  if Nat.eqb (size m) 0 then delete name attributes else <[name := VMap m]> attributes.

Definition headerAttributes (o : HeadObjectOutput) (header : payload) : payload :=
  let header := copySDKString (hAcceptRanges o) header "accept_ranges" in
  let header := copySDKString (hCacheControl o) header "cache_control" in
  let header := copySDKString (hContentType o) header "content_type" in
  let header := copySDKString (hContentDisposition o) header "content_disposition" in
  let header := copySDKString (hContentEncoding o) header "content_encoding" in
  copySDKString (hContentLanguage o) header "content_language".

Definition s3Attributes (o : HeadObjectOutput) (s3 : payload) : payload :=
  let s3 := copySDKEnum (hStorageClass o) s3 "storage_class" in
  let s3 := copySDKString (hVersionId o) s3 "version_id" in
  let s3 := copySDKEnum (hServerSideEncryption o) s3 "server_side_encryption" in
  let s3 := copySDKString (hSSEKMSKeyId o) s3 "sse_kms_key_id" in
  let s3 := copySDKString (hSSECustomerAlgorithm o) s3 "sse_customer_algorithm" in
  let s3 := copySDKString (hSSECustomerKeyMD5 o) s3 "sse_customer_key_md5" in
  let s3 := copySDKString (hWebsiteRedirectLocation o) s3 "website_redirect_location" in
  let s3 := copySDKString (hExpiration o) s3 "expiration" in
  let s3 := copySDKString (hChecksumCRC32 o) s3 "checksum_crc32" in
  let s3 := copySDKString (hChecksumCRC32C o) s3 "checksum_crc32c" in
  let s3 := copySDKString (hChecksumCRC64NVME o) s3 "checksum_crc64nvme" in
  let s3 := copySDKString (hChecksumSHA1 o) s3 "checksum_sha1" in
  let s3 := copySDKString (hChecksumSHA256 o) s3 "checksum_sha256" in
  let s3 := copySDKString (hChecksumSHA512 o) s3 "checksum_sha512" in
  let s3 := copySDKString (hChecksumMD5 o) s3 "checksum_md5" in
  let s3 := copySDKBool (hBucketKeyEnabled o) s3 "bucket_key_enabled" in
  let s3 := copySDKEnum (hArchiveStatus o) s3 "archive_status" in
  let s3 := copySDKEnum (hReplicationStatus o) s3 "replication_status" in
  let s3 := copySDKEnum (hObjectLockMode o) s3 "object_lock_mode" in
  let s3 := copySDKEnum (hObjectLockLegalHoldStatus o) s3 "object_lock_legal_hold_status" in
  let s3 := copySDKTime (hObjectLockRetainUntilDate o) s3 "object_lock_retain_until_date" in
  let s3 := copySDKInt (hPartsCount o) s3 "parts_count" in
  if default false (hDeleteMarker o) then <["delete_marker" := VBool true]> s3 else s3.

Definition AttributesFromHeadObjectOutput (output : option HeadObjectOutput) : payload :=
  match output with
  | None => upstreamAttributes ∅
  | Some o =>
      let attributes := copySDKString (hETag o) ∅ "etag" in
      let attributes := copySDKInt (hContentLength o) attributes "size" in
      let attributes := copySDKTime (hLastModified o) attributes "last_modified" in
      let attributes := nested "header" (headerAttributes o (ensureNestedMap attributes "header")) attributes in
      let attributes := if Nat.eqb (size (hMetadata o)) 0 then attributes
        else <["metadata" := VMap (VString <$> hMetadata o)]> attributes in
      upstreamAttributes (nested "s3" (s3Attributes o (ensureNestedMap attributes "s3")) attributes)
  end.

(** ** catalog_attributes.go *)

Definition MergeTagAttributes (attributes : payload) (tags : gmap string string) : payload :=
  if Nat.eqb (size tags) 0 then attributes
  else
    match attributes !! "upstream" ≫= asNestedAttributeMap with
    | Some upstream => <["upstream" := VMap (<["tag" := VMap (VString <$> tags)]> upstream)]> attributes
    | None => {["upstream" := VMap {["tag" := VMap (VString <$> tags)]}]}
    end.

(** ** head_object_data.go *)

Definition no_head : HeadObjectOutput :=
  mkHead None None None None None None None None None ∅ "" None "" None None None None None
    None None None None None None None None "" "" "" "" None None None.

Definition as_string (v : value) : option string := match v with VString s => Some s | _ => None end.
Definition as_int64 (v : value) : option Z := match v with VInt n => Some n | _ => None end.

Definition HeadObjectDataFromUpstreamAttributes (attributes : payload) : HeadObjectData :=
  match attributes !! "upstream" ≫= asNestedAttributeMap with
  | None => mkHeadData (Some no_head) None
  | Some upstream =>
      mkHeadData (Some (mkHead (upstream !! "etag" ≫= as_string) (upstream !! "size" ≫= as_int64)
        ((upstream !! "last_modified" ≫= as_string) ≫= ParseRFC3339) None None
        ((upstream !! "header" ≫= asNestedAttributeMap) ≫= (fun header : payload => header !! "content_type" ≫= as_string))
        None None None
        (match upstream !! "metadata" with Some (VMap metadata) => omap as_string metadata | _ => ∅ end)
        "" None "" None None None None None None None None None None None None None "" "" "" "" None None None)) None
  end.

(** ** The maps of the attributes *)

(** The top level less its two nested maps, and these. *)
Record sections := mkSections { top : payload; header : payload; s3 : payload }.
Definition root_of (st : sections) : payload := nested "s3" (s3 st) (nested "header" (header st) (top st)).

(** Where a field is written. *)
Inductive place := Top (key : string) | Header (key : string) | S3 (key : string).
#[export] Instance place_eq_dec : EqDecision place. Proof. solve_decision. Defined.
Definition path_of (p : place) : string * list string :=
  match p with Top k => (k, []) | Header k => ("header", [k]) | S3 k => ("s3", [k]) end.
Definition place_ok (p : place) : bool := match p with Top k => negb (String.eqb k "header") && negb (String.eqb k "s3") | _ => true end.

Definition put (st : sections) (p : place) (v : value) : sections :=
  match p with
  | Top k => mkSections (<[k := v]> (top st)) (header st) (s3 st)
  | Header k => mkSections (top st) (<[k := v]> (header st)) (s3 st)
  | S3 k => mkSections (top st) (header st) (<[k := v]> (s3 st))
  end.
Definition apply_entry (st : sections) (e : place * option value) : sections :=
  match e.2 with Some v => put st e.1 v | None => st end.

Definition sections_ok (st : sections) : Prop := top st !! "header" = None /\ top st !! "s3" = None.

Lemma put_ok st p v : sections_ok st -> place_ok p = true -> sections_ok (put st p v).
Proof.
  intros [H1 H2] Hp. destruct p as [k|k|k]; [|done..]. apply andb_true_iff in Hp as [Hk1%negb_true_iff%String.eqb_neq Hk2%negb_true_iff%String.eqb_neq].
  split; cbn; by rewrite lookup_insert_ne.
Qed.
Lemma apply_entry_ok st e : sections_ok st -> place_ok e.1 = true -> sections_ok (apply_entry st e).
Proof. intros Hs Hp. unfold apply_entry. destruct e.2; [by apply put_ok|done]. Qed.

Lemma nested_insert name m attributes k v : k <> name -> nested name m (<[k := v]> attributes) = <[k := v]> (nested name m attributes).
Proof. intros Hk. unfold nested. destruct (Nat.eqb _ _); [by rewrite delete_insert_ne|by rewrite insert_insert_ne]. Qed.

Lemma size_insert_neqb (m : payload) k v : Nat.eqb (size (<[k := v]> m)) 0 = false.
Proof. apply Nat.eqb_neq. intros H%map_size_empty_inv. by apply insert_non_empty in H. Qed.

Lemma nested_set name m attributes k v : nested name (<[k := v]> m) attributes = <[name := VMap (<[k := v]> m)]> attributes.
Proof. unfold nested. by rewrite size_insert_neqb. Qed.
Lemma insert_nested name m attributes v : <[name := v]> (nested name m attributes) = <[name := v]> attributes.
Proof. unfold nested. destruct (Nat.eqb _ _); [by rewrite insert_delete_eq|by rewrite insert_insert_eq]. Qed.

Lemma nested_child name m attributes : default ∅ (nested name m attributes !! name ≫= asNestedAttributeMap) = m.
Proof.
  unfold nested. destruct (Nat.eqb_spec (size m) 0) as [H|_]; [|by rewrite lookup_insert_eq].
  rewrite lookup_delete_eq. cbn. by rewrite (map_size_empty_inv _ H).
Qed.
Lemma nested_other name m attributes k : k <> name -> nested name m attributes !! k = attributes !! k.
Proof. intros Hk. unfold nested. destruct (Nat.eqb _ _); [by rewrite lookup_delete_ne|by rewrite lookup_insert_ne]. Qed.

(** Writing at the path of a place. *)
Lemma set_at_root st p v : place_ok p = true -> set_at (root_of st) (path_of p).1 (path_of p).2 v = root_of (put st p v).
Proof.
  unfold root_of. destruct p as [k|k|k]; intros Hp; cbn [path_of fst snd set_at put top header s3].
  - apply andb_true_iff in Hp as [Hk1%negb_true_iff%String.eqb_neq Hk2%negb_true_iff%String.eqb_neq]. by rewrite !nested_insert.
  - rewrite nested_other, nested_child by done. rewrite nested_set, <- nested_insert, insert_nested by done. done.
  - rewrite nested_child, nested_set, insert_nested. done.
Qed.

(** ** The fields of the platform *)

Definition optional_map (m : gmap string string) : option value :=
  if Nat.eqb (size m) 0 then None else Some (VMap (VString <$> m)).
Definition time_value (t : Time) : value := VString (FormatRFC3339UTC t).

(** What each field of the platform writes, in the order of [PlatformUpstreamCaptureFields]. *)
Definition platform_entries (o : HeadObjectOutput) (tags : gmap string string) : list (place * option value) := [
  (Top "etag", sdkStringField hETag o); (Top "size", VInt <$> hContentLength o); (Top "last_modified", time_value <$> hLastModified o);
  (Header "accept_ranges", sdkStringField hAcceptRanges o); (Header "cache_control", sdkStringField hCacheControl o);
  (Header "content_type", sdkStringField hContentType o); (Header "content_disposition", sdkStringField hContentDisposition o);
  (Header "content_encoding", sdkStringField hContentEncoding o); (Header "content_language", sdkStringField hContentLanguage o);
  (Top "metadata", optional_map (hMetadata o));
  (S3 "storage_class", sdkEnumField hStorageClass o); (S3 "version_id", sdkStringField hVersionId o);
  (S3 "server_side_encryption", sdkEnumField hServerSideEncryption o); (S3 "sse_kms_key_id", sdkStringField hSSEKMSKeyId o);
  (S3 "sse_customer_algorithm", sdkStringField hSSECustomerAlgorithm o); (S3 "sse_customer_key_md5", sdkStringField hSSECustomerKeyMD5 o);
  (S3 "website_redirect_location", sdkStringField hWebsiteRedirectLocation o); (S3 "expiration", sdkStringField hExpiration o);
  (S3 "checksum_crc32", sdkStringField hChecksumCRC32 o); (S3 "checksum_crc32c", sdkStringField hChecksumCRC32C o);
  (S3 "checksum_crc64nvme", sdkStringField hChecksumCRC64NVME o); (S3 "checksum_sha1", sdkStringField hChecksumSHA1 o);
  (S3 "checksum_sha256", sdkStringField hChecksumSHA256 o); (S3 "checksum_sha512", sdkStringField hChecksumSHA512 o);
  (S3 "checksum_md5", sdkStringField hChecksumMD5 o); (S3 "bucket_key_enabled", VBool <$> hBucketKeyEnabled o);
  (S3 "archive_status", sdkEnumField hArchiveStatus o); (S3 "replication_status", sdkEnumField hReplicationStatus o);
  (S3 "object_lock_mode", sdkEnumField hObjectLockMode o); (S3 "object_lock_legal_hold_status", sdkEnumField hObjectLockLegalHoldStatus o);
  (S3 "object_lock_retain_until_date", time_value <$> hObjectLockRetainUntilDate o); (S3 "parts_count", VInt <$> hPartsCount o);
  (S3 "delete_marker", if default false (hDeleteMarker o) then Some (VBool true) else None);
  (Top "tag", optional_map tags)].

(** A row of the table for a field of the platform, enabled. *)
Definition platform_row (seed : UpstreamCaptureFieldSeed) (f : UpstreamCaptureField) : Prop :=
  platform_field seed f /\ cfEnabled f = true.

Section Platform.
Context (sprint : value -> string) (ParseFloat64 : string -> option spec_float).
Context (head : HeadObjectData) (output : HeadObjectOutput) (tags : gmap string string).
Hypothesis has_output : Output head = Some output.
Notation extract_field := (extract_field sprint ParseFloat64 head tags).
Notation coerceCaptureValue := (coerceCaptureValue sprint ParseFloat64).

(** A field writes its entry, and fails when it is required and there is nothing to write. *)
Definition writes (f : UpstreamCaptureField) (e : place * option value) : Prop :=
  place_ok e.1 = true /\ forall st, sections_ok st ->
    if bool_decide (e.2 = None) && is_required f then is_ok (extract_field (root_of st) f) = false
    else extract_field (root_of st) f = Ok (root_of (apply_entry st e)).

Lemma sdk_field_writes f ext p :
  cfEnabled f = true -> cfCaptureSource f = CaptureSourceHead -> cfExtractorType f = CaptureExtractorSDKField ->
  sdkFieldExtractors !! cfExtractorRef f = Some ext ->
  (forall v, ext output = Some v -> coerceCaptureValue (cfValueType f) v = Ok v) ->
  HasPrefix (cfAttributePath f) "upstream." = true ->
  Split "." (TrimPrefix (cfAttributePath f) "upstream.") = (path_of p).1 :: (path_of p).2 -> String.eqb (path_of p).1 "" = false ->
  place_ok p = true -> writes f (p, ext output).
Proof.
  intros Hen Hsrc Hty Href Hco Hpre Hsplit Hne Hok. split; [done|]. intros st Hs. unfold Extract.extract_field, extractCaptureFieldValue, extractHeadCaptureFieldValue.
  rewrite Hen, Hsrc, Hty, Href, has_output. cbn [negb mbind option_bind fst snd]. unfold mbind, result_bind. cbn. unfold apply_entry. cbn [fst snd].
  destruct (ext output) as [v|] eqn:Ev; [rewrite bool_decide_false by done|rewrite bool_decide_true by done]; cbn [andb].
  - rewrite (Hco v eq_refl). unfold set_captured. rewrite Hpre, Hty, Hsplit, Hne. cbn [negb]. by rewrite set_at_root.
  - by destruct (is_required f).
Qed.

Lemma map_field_writes f key m : place_ok (Top key) = true ->
  extractCaptureFieldValue f head tags = Ok (optional_map m) -> cfEnabled f = true -> cfValueType f = TypeString -> is_required f = false ->
  (forall root (m : payload), set_captured root (cfAttributePath f) (VMap m) f = if Nat.eqb (size m) 0 then Ok root else Ok (<[key := VMap m]> root)) ->
  writes f (Top key, optional_map m).
Proof.
  intros Hok Hx Hen Hty Hreq Hset. split; [done|]. intros st Hs. unfold Extract.extract_field, apply_entry. rewrite Hx, Hen, Hreq, Hty, andb_false_r.
  unfold optional_map. destruct (Nat.eqb (size m) 0) eqn:Hm; [done|]. cbn. rewrite Hset. rewrite map_size_fmap, Hm.
  f_equal. exact (set_at_root st (Top key) (VMap (VString <$> m)) Hok).
Qed.

(** Takes the row of a field apart. *)
Ltac platform_row_cases :=
  let f := fresh "f" in let H := fresh "H" in
  intros f [H ?]; unfold platform_field in H; cbn [sdID sdAttributePath sdEnabled sdCategory sdCaptureSource sdExtractorType sdExtractorRef sdValueType] in H;
  destruct H as (? & ? & ? & ? & ? & ? & ? & ?); destruct f;
  cbn [cfEnabled cfOrigin cfCategory cfAttributePath cfCaptureSource cfExtractorType cfExtractorRef cfValueType] in *; subst.

Lemma platform_writes : Forall2 (fun seed e => forall f, platform_row seed f -> writes f e) PlatformUpstreamCaptureFields (platform_entries output tags).
Proof.
  unfold PlatformUpstreamCaptureFields, platform_entries. repeat apply Forall2_cons_2; [..|apply Forall2_nil_2]; platform_row_cases;
    lazymatch goal with
    | |- writes _ (Top "metadata", _) => apply map_field_writes; try reflexivity
    | |- writes _ (Top "tag", _) => apply map_field_writes; try reflexivity
    | |- writes ?f (?p, ?v) => lazymatch eval pattern output in v with ?ext _ => apply (sdk_field_writes f ext p); try reflexivity end
    end.
  all: lazymatch goal with
    | |- forall v, _ = Some v -> _ => intros v Hv; cbn [cfValueType]; unfold sdkStringField, sdkEnumField in Hv;
        first [apply fmap_Some in Hv as (? & _ & ->); reflexivity | by case_match; simplify_eq]
    | |- extractCaptureFieldValue _ _ _ = _ =>
        unfold extractCaptureFieldValue, extractHeadCaptureFieldValue, optional_map; cbn; rewrite ?has_output; by destruct (Nat.eqb _ 0)
    end.
Qed.

Lemma platform_rows_write rows : Forall2 platform_row PlatformUpstreamCaptureFields rows -> Forall2 writes rows (platform_entries output tags).
Proof.
  intros Hrows. pose proof platform_writes as Hw. revert rows Hrows. induction Hw as [|seed e seeds es Hs _ IH]; intros rows Hrows.
  - inversion Hrows. constructor.
  - inversion Hrows; subst. constructor; auto.
Qed.

(** The fold over the fields, in any order. *)
Lemma fold_writes pairs : Forall (fun fe => writes fe.1 fe.2) pairs -> forall st, sections_ok st ->
  if existsb (fun fe => bool_decide (fe.2.2 = None) && is_required fe.1) pairs
  then is_ok (foldM_result extract_field (root_of st) (map fst pairs)) = false
  else foldM_result extract_field (root_of st) (map fst pairs) = Ok (root_of (fold_left apply_entry (map snd pairs) st)).
Proof.
  induction pairs as [|[f e] pairs IH]; intros Hall st Hs; cbn [existsb map foldM_result fold_left fst snd]; [done|].
  inversion_clear Hall as [|? ? [Hok Hw] Hall']. specialize (Hw st Hs). cbn [fst snd] in *.
  destruct (bool_decide (e.2 = None) && is_required f); cbn [orb].
  - by destruct (extract_field (root_of st) f).
  - rewrite Hw. exact (IH Hall' (apply_entry st e) (apply_entry_ok st e Hs Hok)).
Qed.
End Platform.

(** Entries of different places can be written in any order. *)
Lemma put_commute st p q v w : p <> q -> put (put st p v) q w = put (put st q w) p v.
Proof. intros Hne. destruct p, q; cbn; try done; rewrite insert_insert_ne; congruence. Qed.

Lemma fold_entries_perm es es' : es ≡ₚ es' -> NoDup es.*1 -> forall st, fold_left apply_entry es st = fold_left apply_entry es' st.
Proof.
  induction 1 as [|e es es' Hp IH|e e' es|es1 es2 es3 H12 IH12 H23 IH23]; intros Hnd st; cbn [fold_left]; [done| | |].
  - apply IH. by apply NoDup_cons_1_2 in Hnd.
  - cbn in Hnd. apply list.NoDup_cons in Hnd as [Hne _]. f_equal. unfold apply_entry. destruct e.2, e'.2; try done.
    apply put_commute. intros E. apply Hne. rewrite E. by left.
  - rewrite IH12 by done. apply IH23. by rewrite <- H12.
Qed.

Lemma platform_places o tags : NoDup (platform_entries o tags).*1.
Proof. cbn. apply (bool_decide_unpack _). vm_compute. exact I. Qed.

(** ** The fixed conversion writes the same entries *)

Definition write (k : string) (v : option value) (m : payload) : payload := match v with Some v => <[k := v]> m | None => m end.

(** The entries of one of the three maps. *)
Definition write_top (m : payload) (e : place * option value) : payload := match e.1 with Top k => write k e.2 m | _ => m end.
Definition write_header (m : payload) (e : place * option value) : payload := match e.1 with Header k => write k e.2 m | _ => m end.
Definition write_s3 (m : payload) (e : place * option value) : payload := match e.1 with S3 k => write k e.2 m | _ => m end.

Lemma fold_apply_entry es : forall st, fold_left apply_entry es st =
  mkSections (fold_left write_top es (top st)) (fold_left write_header es (header st)) (fold_left write_s3 es (s3 st)).
Proof. induction es as [|[[k|k|k] [v|]] es IH]; intros st; cbn [fold_left]; [by destruct st|rewrite IH; reflexivity..]. Qed.

Lemma copySDKString_write (read : HeadObjectOutput -> option string) o m k : copySDKString (read o) m k = write k (sdkStringField read o) m.
Proof. unfold copySDKString, sdkStringField. by destruct (read o). Qed.
Lemma copySDKEnum_write (read : HeadObjectOutput -> string) o m k : copySDKEnum (read o) m k = write k (sdkEnumField read o) m.
Proof. unfold copySDKEnum, sdkEnumField. by destruct (String.eqb _ _). Qed.
Lemma copySDKBool_write v m k : copySDKBool v m k = write k (VBool <$> v) m.
Proof. by destruct v. Qed.
Lemma copySDKInt_write v m k : copySDKInt v m k = write k (VInt <$> v) m.
Proof. by destruct v. Qed.
Lemma copySDKTime_write v m k : copySDKTime v m k = write k (time_value <$> v) m.
Proof. by destruct v. Qed.
Lemma optional_map_write tags m k : (if Nat.eqb (size tags) 0 then m else <[k := VMap (VString <$> tags)]> m) = write k (optional_map tags) m.
Proof. unfold optional_map. by destruct (Nat.eqb _ _). Qed.
Lemma delete_marker_write (b : bool) m k : (if b then <[k := VBool true]> m else m) = write k (if b then Some (VBool true) else None) m.
Proof. by destruct b. Qed.

Lemma write_lookup_ne k v m j : k <> j -> write k v m !! j = m !! j.
Proof. intros Hne. destruct v; [by apply lookup_insert_ne|done]. Qed.
Lemma write_nested k v name m attributes : k <> name -> write k v (nested name m attributes) = nested name m (write k v attributes).
Proof. intros Hne. destruct v; cbn [write]; [by rewrite nested_insert|done]. Qed.
Lemma ensureNestedMap_new attributes key : attributes !! key = None -> ensureNestedMap attributes key = ∅.
Proof. intros H. unfold ensureNestedMap. by rewrite H. Qed.

Lemma MergeTagAttributes_write upstream tags :
  MergeTagAttributes (upstreamAttributes upstream) tags = upstreamAttributes (write "tag" (optional_map tags) upstream).
Proof.
  unfold MergeTagAttributes, upstreamAttributes, optional_map. destruct (Nat.eqb (size tags) 0); [done|].
  rewrite lookup_singleton_eq. cbn. by rewrite insert_singleton_eq.
Qed.

Definition platform_sections (o : HeadObjectOutput) (tags : gmap string string) : sections :=
  fold_left apply_entry (platform_entries o tags) (mkSections ∅ ∅ ∅).

Lemma conversion_sections o tags :
  MergeTagAttributes (AttributesFromHeadObjectOutput (Some o)) tags = upstreamAttributes (root_of (platform_sections o tags)).
Proof.
  unfold platform_sections, platform_entries, AttributesFromHeadObjectOutput. cbv zeta. rewrite MergeTagAttributes_write.
  rewrite copySDKString_write, copySDKInt_write, copySDKTime_write, optional_map_write.
  rewrite (ensureNestedMap_new _ "header") by (by rewrite !write_lookup_ne).
  rewrite (ensureNestedMap_new _ "s3") by (rewrite write_lookup_ne, nested_other by done; by rewrite !write_lookup_ne).
  unfold headerAttributes, s3Attributes. rewrite !copySDKString_write, !copySDKEnum_write, copySDKBool_write, copySDKInt_write, copySDKTime_write, delete_marker_write.
  rewrite fold_apply_entry. cbn [fold_left write_top write_header write_s3 fst snd top header s3]. unfold root_of. cbn [top header s3].
  by rewrite !write_nested.
Qed.

(** ** Nothing is pruned *)

(** A value in which nothing is empty. *)
Definition tidy (v : value) : Prop := prune v = v /\ is_empty_map v = false.
Definition tidy_map (m : payload) : Prop := forall k v, m !! k = Some v -> tidy v.

Lemma prune_tidy m : tidy_map m -> pruneEmptyMaps m = m.
Proof.
  intros Ht. unfold pruneEmptyMaps. apply map_eq. intros k. destruct (m !! k) as [v|] eqn:Hk.
  - apply map_lookup_filter_Some. destruct (Ht k v Hk) as [H1 H2]. rewrite lookup_fmap, Hk. cbn. by rewrite H1.
  - apply map_lookup_filter_None. left. by rewrite lookup_fmap, Hk.
Qed.

Lemma tidy_VMap m : tidy_map m -> Nat.eqb (size m) 0 = false -> tidy (VMap m).
Proof. intros Ht Hm. split; [|exact Hm]. rewrite prune_map. by rewrite prune_tidy. Qed.

Lemma tidy_insert m k v : tidy_map m -> tidy v -> tidy_map (<[k := v]> m).
Proof. intros Hm Hv j w [[<- <-]|[_ Hj]]%lookup_insert_Some; [done|by eapply Hm]. Qed.

Lemma tidy_nested name m attributes : tidy_map m -> tidy_map attributes -> tidy_map (nested name m attributes).
Proof.
  intros Hm Ha. unfold nested. destruct (Nat.eqb (size m) 0) eqn:Hs; [|by apply tidy_insert, tidy_VMap].
  intros k v [_ Hk]%lookup_delete_Some. by eapply Ha.
Qed.

Lemma tidy_entries es : Forall (fun e => forall v, e.2 = Some v -> tidy v) es -> forall st,
  tidy_map (top st) -> tidy_map (header st) -> tidy_map (s3 st) -> tidy_map (root_of (fold_left apply_entry es st)).
Proof.
  induction 1 as [|[p v] es Hv _ IH]; intros st H1 H2 H3; cbn [fold_left]; [by apply tidy_nested, tidy_nested|].
  unfold apply_entry. cbn [snd fst] in *. destruct v as [v|]; [|by apply IH]. specialize (Hv v eq_refl).
  destruct p; apply IH; cbn [put top header s3]; try done; by apply tidy_insert.
Qed.

Lemma tidy_optional_map m v : optional_map m = Some v -> tidy v.
Proof.
  unfold optional_map. destruct (Nat.eqb (size m) 0) eqn:Hm; [done|]. intros [= <-]. apply tidy_VMap; [|by rewrite map_size_fmap].
  intros k v Hk. rewrite lookup_fmap in Hk. destruct (m !! k); [|done]. by injection Hk as <-.
Qed.

Lemma platform_entries_tidy o tags : Forall (fun e => forall v, e.2 = Some v -> tidy v) (platform_entries o tags).
Proof.
  unfold platform_entries. repeat apply Forall_cons_2; [..|by constructor]; cbn [snd]; intros v;
    first [apply tidy_optional_map
      | unfold sdkStringField, sdkEnumField; intros Hv;
        first [apply fmap_Some in Hv as (? & _ & ->); by split | case_match; simplify_eq; by split]].
Qed.

(** ** The two ways agree *)

Lemma existsb_perm {A} (P : A -> bool) l l' : l ≡ₚ l' -> existsb P l = existsb P l'.
Proof. induction 1 as [|x l l' _ IH|x y l|l1 l2 l3 _ IH1 _ IH2]; cbn; [done|by rewrite IH|by destruct (P x), (P y)|by rewrite IH1]. Qed.

Lemma Forall2_zip_Forall {A B} (P : A -> B -> Prop) l k : Forall2 P l k -> Forall (fun e => P e.1 e.2) (zip l k).
Proof. induction 1; constructor; auto. Qed.

(** A required field has nothing to write. *)
Definition lacks_required (seeds : list UpstreamCaptureFieldSeed) (es : list (place * option value)) : bool :=
  existsb (fun se => bool_decide (se.2.2 = None) && bool_decide (sdCategory se.1 = CaptureFieldCategoryRequired)) (zip seeds es).

Lemma lacks_required_rows seeds rows : Forall2 platform_row seeds rows -> forall es,
  existsb (fun fe : UpstreamCaptureField * (place * option value) => bool_decide (fe.2.2 = None) && is_required fe.1) (zip rows es) = lacks_required seeds es.
Proof.
  unfold lacks_required. induction 1 as [|seed f seeds rows [Hf _] _ IH]; intros [|e es]; cbn [zip zip_with existsb]; try done.
  rewrite IH. cbn [fst snd]. unfold is_required. by rewrite (proj1 (proj2 Hf)).
Qed.

Lemma lacks_required_platform o tags : lacks_required PlatformUpstreamCaptureFields (platform_entries o tags) =
  bool_decide (hETag o = None) || bool_decide (hContentLength o = None) || bool_decide (hLastModified o = None).
Proof.
  assert (forall (b : bool) (c : CaptureFieldCategory), c <> CaptureFieldCategoryRequired -> b && bool_decide (c = CaptureFieldCategoryRequired) = false) as Hopt
    by (intros b c Hc; rewrite bool_decide_false by done; apply andb_false_r).
  unfold lacks_required, PlatformUpstreamCaptureFields, platform_entries. cbn [zip zip_with existsb fst snd sdCategory].
  rewrite !(Hopt _ CaptureFieldCategoryOptional) by done. cbn [orb]. rewrite !orb_false_r. unfold sdkStringField.
  by destruct (hETag o), (hContentLength o), (hLastModified o).
Qed.

(** C29: extracting the attributes of an object by the fields that the platform seeds gives
    what the fixed conversion of the response of its HEAD gives, with the tags merged in,
    in whatever order the database returns the rows of the fields, and whatever else the
    response holds; and it fails exactly when the ETag, the size or the time of the last
    change is missing. *)
Theorem platform_capture_is_conversion sprint ParseFloat64 rows fields head output tags :
  Forall2 platform_row PlatformUpstreamCaptureFields rows -> fields ≡ₚ rows -> Output head = Some output ->
  if bool_decide (hETag output = None) || bool_decide (hContentLength output = None) || bool_decide (hLastModified output = None)
  then is_ok (ExtractAttributes sprint ParseFloat64 fields head tags) = false
  else ExtractAttributes sprint ParseFloat64 fields head tags =
    Ok (MergeTagAttributes (AttributesFromHeadObjectOutput (Some output)) tags).
Proof.
  intros Hrows Hperm Hout. pose proof (platform_rows_write sprint ParseFloat64 head output tags Hout rows Hrows) as Hw.
  set (es := platform_entries output tags) in *. set (pairs := zip rows es).
  assert (List.length rows = List.length es) as Hlen by (by eapply Forall2_length).
  assert (map fst pairs = rows /\ map snd pairs = es) as [Hfst Hsnd] by (split; [apply fst_zip|apply snd_zip]; lia).
  rewrite <- Hfst in Hperm. apply Permutation_map_inv in Hperm as (pairs' & -> & Hp).
  assert (Forall (fun fe => writes sprint ParseFloat64 head tags fe.1 fe.2) pairs') as Hall.
  { rewrite <- Hp. by apply Forall2_zip_Forall. }
  pose proof (fold_writes sprint ParseFloat64 head tags pairs' Hall (mkSections ∅ ∅ ∅) ltac:(by split)) as Hfold.
  pose proof (lacks_required_rows _ _ Hrows es) as Hlack. fold pairs in Hlack.
  rewrite <- (existsb_perm _ _ _ Hp), Hlack in Hfold. unfold es in Hfold. rewrite lacks_required_platform in Hfold. fold es in Hfold.
  change (root_of (mkSections ∅ ∅ ∅)) with (∅ : payload) in Hfold. unfold ExtractAttributes.
  destruct (_ || _); [by destruct (foldM_result _ ∅ _)|]. rewrite Hfold. cbn [mbind result_bind]. unfold mbind, result_bind.
  rewrite conversion_sections. do 2 f_equal. unfold platform_sections.
  rewrite <- (fold_entries_perm es (map snd pairs')); [|by rewrite <- Hsnd; apply Permutation_map|apply platform_places].
  rewrite prune_tidy; [done|]. by apply tidy_entries; [apply platform_entries_tidy|..].
Qed.

(** ** The way back *)

Lemma write_lookup k v m : write k v m !! k = match v with Some v => Some v | None => m !! k end.
Proof. destruct v; [by apply lookup_insert_eq|done]. Qed.

Lemma nested_lookup name m attributes : attributes !! name = None ->
  nested name m attributes !! name ≫= asNestedAttributeMap = if Nat.eqb (size m) 0 then None else Some m.
Proof. intros Hn. unfold nested. destruct (Nat.eqb _ _); [by rewrite lookup_delete_eq|by rewrite lookup_insert_eq]. Qed.

(** What the way back keeps of a response: the ETag, the size, the time of the last change
    to the second, the content type and the metadata. *)
Lemma head_of_attributes o : exists output, HeadObjectDataFromUpstreamAttributes (AttributesFromHeadObjectOutput (Some o)) = mkHeadData (Some output) None /\
  hETag output = hETag o /\ hContentLength output = hContentLength o /\
  hLastModified output = (hLastModified o ≫= fun t => ParseRFC3339 (FormatRFC3339UTC t)) /\
  hContentType output = hContentType o /\ hMetadata output = hMetadata o.
Proof.
  assert (AttributesFromHeadObjectOutput (Some o) = upstreamAttributes (root_of (platform_sections o ∅))) as -> by (by rewrite <- conversion_sections).
  unfold HeadObjectDataFromUpstreamAttributes, upstreamAttributes. rewrite lookup_singleton_eq. cbn [mbind option_bind asNestedAttributeMap].
  set (st := platform_sections o ∅). assert (forall k, k <> "header" -> k <> "s3" -> root_of st !! k = top st !! k) as Htop
    by (intros k H1 H2; unfold root_of; by rewrite !nested_other).
  assert (top st = write "tag" (optional_map ∅) (write "metadata" (optional_map (hMetadata o)) (write "last_modified" (time_value <$> hLastModified o)
    (write "size" (VInt <$> hContentLength o) (write "etag" (sdkStringField hETag o) ∅))))) as Ht by (unfold st, platform_sections; by rewrite fold_apply_entry).
  assert (header st !! "content_type" = sdkStringField hContentType o) as Hct.
  { unfold st, platform_sections. rewrite fold_apply_entry. cbn [fold_left platform_entries write_header fst snd header].
    rewrite !(write_lookup_ne _ _ _ "content_type"), write_lookup, !write_lookup_ne by done. by destruct (sdkStringField hContentType o). }
  assert (top st !! "header" = None) as Hh by (rewrite Ht; by rewrite !write_lookup_ne).
  eexists. split; [reflexivity|]. cbn [hETag hContentLength hLastModified hContentType hMetadata]. rewrite !Htop by done. split_and!.
  - rewrite Ht, !(write_lookup_ne _ _ _ "etag"), write_lookup by done. unfold sdkStringField. by destruct (hETag o).
  - rewrite Ht, !(write_lookup_ne _ _ _ "size"), write_lookup, write_lookup_ne by done. by destruct (hContentLength o).
  - rewrite Ht, !(write_lookup_ne _ _ _ "last_modified"), write_lookup, !write_lookup_ne by done. by destruct (hLastModified o).
  - unfold root_of. rewrite nested_other by done. rewrite nested_lookup by done.
    destruct (Nat.eqb_spec (size (header st)) 0) as [Hs|_]; cbn [mbind option_bind].
    + apply map_size_empty_inv in Hs. rewrite Hs, lookup_empty in Hct. unfold sdkStringField in Hct. by destruct (hContentType o).
    + rewrite Hct. unfold sdkStringField. by destruct (hContentType o).
  - rewrite (Htop "metadata"), Ht, !(write_lookup_ne _ _ _ "metadata"), write_lookup, !write_lookup_ne by done. unfold optional_map.
    destruct (Nat.eqb_spec (size (hMetadata o)) 0) as [Hs|_]; [by rewrite (map_size_empty_inv _ Hs)|].
    apply map_eq. intros k. rewrite lookup_omap, lookup_fmap. by destruct (hMetadata o !! k).
Qed.

(** ** A response, with the fields in the reverse order *)

Definition demo_rows : list UpstreamCaptureField := map (fun seed => seeded_field 0 seed None) PlatformUpstreamCaptureFields.
Definition demo_output : HeadObjectOutput :=
  mkHead (Some "5d41") (Some 3) (Some (mkTime 1714557600 0 0)) None None (Some "image/jpeg") None None None {["camera" := "x100"]} "STANDARD" None "" None
    None None None None None None None None None None None None "" "" "" "" None None None.

Lemma demo_rows_platform : Forall2 platform_row PlatformUpstreamCaptureFields demo_rows.
Proof. unfold demo_rows. unfold PlatformUpstreamCaptureFields. repeat apply Forall2_cons_2; [..|apply Forall2_nil_2]; (split; [by split_and!|done]). Qed.

Lemma platform_capture_is_conversion_witness :
  ExtractAttributes (fun _ => "") (fun _ => None) (rev demo_rows) (mkHeadData (Some demo_output) None) {["team" := "storage"]} =
    Ok (MergeTagAttributes (AttributesFromHeadObjectOutput (Some demo_output)) {["team" := "storage"]}) /\
  is_ok (ExtractAttributes (fun _ => "") (fun _ => None) (rev demo_rows) (mkHeadData (Some no_head) None) ∅) = false.
Proof.
  pose proof demo_rows_platform as Hrows. assert (rev demo_rows ≡ₚ demo_rows) as Hp by (symmetry; apply Permutation_rev). split.
  - exact (platform_capture_is_conversion (fun _ => "") (fun _ => None) demo_rows (rev demo_rows) (mkHeadData (Some demo_output) None) demo_output
      {["team" := "storage"]} Hrows Hp eq_refl).
  - exact (platform_capture_is_conversion (fun _ => "") (fun _ => None) demo_rows (rev demo_rows) (mkHeadData (Some no_head) None) no_head ∅ Hrows Hp eq_refl).
Defined.

Example demo_attributes : attributeValue (AttributesFromHeadObjectOutput (Some demo_output)) "upstream.last_modified" = Some (VString "2024-05-01T10:00:00Z").
Proof. vm_compute. reflexivity. Qed.

(** * Raw responses

    The attributes of an object from the raw response of a HEAD
    (packages/upstreams/s3compat/attributes.go), and the reading of a raw listing (list.go).
    The handlers use the SDK instead (above, and S3Listing.v): for the upstreams that
    answer as S3 does, both conversions of a HEAD are shown to agree when the fields of the
    SDK are the values of the headers.

    The texts of the standard library that are parameters: [http.ParseTime], and
    [xml.Unmarshal] into the structures of a listing and of an error. *)

Inductive Upstream := UpstreamAWS | UpstreamR2 | UpstreamB2 | UpstreamGCP | UpstreamRustFS | UpstreamOther (name : string).

Record RawHTTPResponse := mkRaw { rawStatus : Z; rawHeaders : list (string * string); rawBody : string }.

(** ** Headers *)

Record headerMap := mkHeaderMap { hmPairs : list (string * string); hmValues : gmap string (list string) }.

Definition add_header (values : gmap string (list string)) (pair : string * string) : gmap string (list string) :=
  let name := ToLower pair.1 in <[name := default [] (values !! name) ++ [pair.2]]> values.
Definition newHeaderMap (pairs : list (string * string)) : headerMap := mkHeaderMap pairs (fold_left add_header pairs ∅).

Definition header_all (h : headerMap) (name : string) : list string := default [] (hmValues h !! ToLower name).
Definition header_first (h : headerMap) (name : string) : option string := list.head (header_all h name).

Definition copyHeader (headers : headerMap) (target : payload) (headerName attributeName : string) : payload :=
  match header_first headers headerName with Some v => <[attributeName := VString v]> target | None => target end.

Definition metadataAttributes (headers : headerMap) (prefix : string) : payload :=
  fold_left (fun metadata pair =>
    let name := ToLower pair.1 in
    if HasPrefix name prefix then <[TrimPrefix name prefix := VString pair.2]> metadata else metadata) (hmPairs headers) ∅.

(** A map is stored when it is not empty. *)
Definition stored_map (name : string) (m attributes : payload) : payload :=
  if Nat.eqb (size m) 0 then attributes else <[name := VMap m]> attributes.

Section Attributes.
Context (http_ParseTime : string -> option Time).

Definition commonAttributesFromHead (headers : headerMap) : result store_error payload :=
  let attributes := copyHeader headers ∅ "etag" "etag" in
  attributes ← match header_first headers "content-length" with
    | Some contentLength =>
        match ParseInt64 contentLength with
        | Some size => Ok (<["size" := VInt size]> attributes)
        | None => Err (Errorf "parse content-length: %w")
        end
    | None => Ok attributes
    end;
  attributes ← match header_first headers "last-modified" with
    | Some lastModified =>
        match http_ParseTime lastModified with
        | Some parsed => Ok (<["last_modified" := VString (FormatRFC3339UTC parsed)]> attributes)
        | None => Err (Errorf "parse last-modified: %w")
        end
    | None => Ok attributes
    end;
  let header := copyHeader headers ∅ "accept-ranges" "accept_ranges" in
  let header := copyHeader headers header "cache-control" "cache_control" in
  let header := copyHeader headers header "content-type" "content_type" in
  let header := copyHeader headers header "content-disposition" "content_disposition" in
  let header := copyHeader headers header "content-encoding" "content_encoding" in
  let header := copyHeader headers header "content-language" "content_language" in
  Ok (stored_map "metadata" (metadataAttributes headers "x-amz-meta-") (stored_map "header" header attributes)).

Definition addS3Attributes (attributes : payload) (headers : headerMap) : payload :=
  let s3 := copyHeader headers ∅ "x-amz-storage-class" "storage_class" in
  let s3 := copyHeader headers s3 "x-amz-version-id" "version_id" in
  let s3 := copyHeader headers s3 "x-amz-server-side-encryption" "server_side_encryption" in
  let s3 := copyHeader headers s3 "x-amz-server-side-encryption-aws-kms-key-id" "sse_kms_key_id" in
  let s3 := copyHeader headers s3 "x-amz-server-side-encryption-customer-algorithm" "sse_customer_algorithm" in
  let s3 := copyHeader headers s3 "x-amz-server-side-encryption-customer-key-md5" "sse_customer_key_md5" in
  let s3 := copyHeader headers s3 "x-amz-server-side-encryption-bucket-key-enabled" "bucket_key_enabled" in
  let s3 := copyHeader headers s3 "x-amz-checksum-crc32" "checksum_crc32" in
  let s3 := copyHeader headers s3 "x-amz-checksum-crc32c" "checksum_crc32c" in
  let s3 := copyHeader headers s3 "x-amz-checksum-sha1" "checksum_sha1" in
  let s3 := copyHeader headers s3 "x-amz-checksum-sha256" "checksum_sha256" in
  let s3 := copyHeader headers s3 "x-amz-object-lock-mode" "object_lock_mode" in
  let s3 := copyHeader headers s3 "x-amz-object-lock-legal-hold" "object_lock_legal_hold_status" in
  let s3 := copyHeader headers s3 "x-amz-object-lock-retain-until-date" "object_lock_retain_until_date" in
  let s3 := copyHeader headers s3 "x-amz-expiration" "expiration" in
  let s3 := copyHeader headers s3 "x-amz-website-redirect-location" "website_redirect_location" in
  let s3 := copyHeader headers s3 "x-amz-replication-status" "replication_status" in
  let s3 := copyHeader headers s3 "x-amz-archive-status" "archive_status" in
  stored_map "s3" s3 attributes.

Definition addB2Attributes (attributes : payload) (headers : headerMap) : result store_error payload :=
  b2 ← match header_first headers "x-backblaze-live-read-enabled" with
    | Some v => match ParseBool v with Some b => Ok (<["live_read_enabled" := VBool b]> ∅) | None => Err (Errorf "parse x-backblaze-live-read-enabled: %w") end
    | None => Ok (∅ : payload)
    end;
  b2 ← match header_first headers "x-backblaze-live-read-part-size" with
    | Some v => match ParseInt64 v with Some n => Ok (<["live_read_part_size" := VInt n]> b2) | None => Err (Errorf "parse x-backblaze-live-read-part-size: %w") end
    | None => Ok b2
    end;
  Ok (stored_map "b2" b2 attributes).

Definition addGCPAttributes (attributes : payload) (headers : headerMap) : result store_error payload :=
  let gcp := copyHeader headers ∅ "x-goog-generation" "generation" in
  let gcp := copyHeader headers gcp "x-goog-metageneration" "metageneration" in
  let gcp := copyHeader headers gcp "x-goog-stored-content-encoding" "stored_content_encoding" in
  let gcp := copyHeader headers gcp "x-goog-storage-class" "storage_class" in
  gcp ← match header_first headers "x-goog-stored-content-length" with
    | Some v => match ParseInt64 v with Some n => Ok (<["stored_content_length" := VInt n]> gcp) | None => Err (Errorf "parse x-goog-stored-content-length: %w") end
    | None => Ok gcp
    end;
  let gcp := match header_all headers "x-goog-hash" with [] => gcp | values => <["hash" := VStrings values]> gcp end in
  Ok (stored_map "gcp" gcp attributes).

Definition s3AttributesFromHead (response : RawHTTPResponse) : result store_error payload :=
  let headers := newHeaderMap (rawHeaders response) in
  attributes ← commonAttributesFromHead headers;
  Ok (upstreamAttributes (addS3Attributes attributes headers)).

Definition b2AttributesFromHead (response : RawHTTPResponse) : result store_error payload :=
  let headers := newHeaderMap (rawHeaders response) in
  attributes ← commonAttributesFromHead headers;
  attributes ← addB2Attributes (addS3Attributes attributes headers) headers;
  Ok (upstreamAttributes attributes).

Definition gcpAttributesFromHead (response : RawHTTPResponse) : result store_error payload :=
  let headers := newHeaderMap (rawHeaders response) in
  attributes ← commonAttributesFromHead headers;
  attributes ← addGCPAttributes attributes headers;
  Ok (upstreamAttributes attributes).

Definition AttributesFromHead (upstream : Upstream) (response : RawHTTPResponse) : result store_error payload :=
  match upstream with
  | UpstreamAWS | UpstreamR2 | UpstreamRustFS => s3AttributesFromHead response
  | UpstreamB2 => b2AttributesFromHead response
  | UpstreamGCP => gcpAttributesFromHead response
  | UpstreamOther _ => Err (Errorf "unsupported s3-compatible upstream %q")
  end.
End Attributes.

(** ** list.go *)

Record listObjectEntry := mkEntry { leKey : string; leETag : string; leSize : string; leLastModified : string; leStorageClass : string }.
Record listBucketResult := mkBucketResult {
  lrContents : list listObjectEntry; lrIsTruncated : string; lrNextMarker : string; lrNextContinuationToken : string }.
Record errorResponse := mkErrorResponse { erCode : string; erMessage : string }.

Definition parseXMLBool (v : string) : bool := EqualFold (TrimSpace v) "true".

Definition listedObjectFromXML (entry : listObjectEntry) : result store_error ListedObject :=
  match ParseInt64 (TrimSpace (leSize entry)) with
  | None => Err (Errorf "parse listed object size for %q: %w")
  | Some size =>
      match ParseRFC3339 (TrimSpace (leLastModified entry)) with
      | None => Err (Errorf "parse listed object last modified for %q: %w")
      | Some lastModified =>
          Ok (mkListed (leKey entry) (TrimSpace (leETag entry)) size (UTC lastModified) (TrimSpace (leStorageClass entry)))
      end
  end.

Definition validateUpstream (upstream : Upstream) : result store_error unit :=
  match upstream with UpstreamOther _ => Err (Errorf "unsupported s3-compatible upstream %q") | _ => Ok tt end.

Section Listing.
Context (unmarshal_list : string -> result store_error listBucketResult) (unmarshal_error : string -> result store_error errorResponse).

Definition parseListBucketResult (body : string) : result store_error ObjectPage :=
  match unmarshal_list body with
  | Err e => Err (Wrapf "parse list bucket result: %w" e)
  | Ok result =>
      objects ← foldM_result (fun objects entry => object ← listedObjectFromXML entry; Ok (objects ++ [object])) [] (lrContents result);
      Ok (mkPage objects (parseXMLBool (lrIsTruncated result)) (lrNextMarker result) (lrNextContinuationToken result))
  end.

Definition responseError (response : RawHTTPResponse) : result store_error unit :=
  if rawStatus response <? 400 then Ok tt
  else
    match unmarshal_error (rawBody response) with
    | Err _ => Err (Errorf "upstream returned status %d")
    | Ok p =>
        if negb (String.eqb (erCode p) "") || negb (String.eqb (erMessage p) "") then Err (Errorf "upstream returned status %d: %s %s")
        else Err (Errorf "upstream returned status %d")
    end.

(** [ParseListObjectsV2] and [ParseListObjects] are the same. *)
Definition ParseListObjects (upstream : Upstream) (response : RawHTTPResponse) : result store_error ObjectPage :=
  _ ← validateUpstream upstream;
  _ ← responseError response;
  parseListBucketResult (rawBody response).
End Listing.

Definition AttributesFromListedObject (object : ListedObject) : payload :=
  let attributes : payload := if String.eqb (lETag object) "" then ∅ else <["etag" := VString (lETag object)]> ∅ in
  let attributes := if lSize object =? 0 then attributes else <["size" := VInt (lSize object)]> attributes in
  let attributes := if IsZero (lLastModified object) then attributes
    else <["last_modified" := VString (FormatRFC3339UTC (lLastModified object))]> attributes in
  upstreamAttributes (SetS3StorageClass attributes (lStorageClass object)).

(** ** Header names are read in any case *)

Definition lowered (pairs : list (string * string)) : list (string * string) := map (fun pair => (ToLower pair.1, pair.2)) pairs.

Lemma headers_lowered pairs pairs' : lowered pairs = lowered pairs' ->
  hmValues (newHeaderMap pairs) = hmValues (newHeaderMap pairs') /\
  forall prefix, metadataAttributes (newHeaderMap pairs) prefix = metadataAttributes (newHeaderMap pairs') prefix.
Proof.
  intros Hl. unfold newHeaderMap, metadataAttributes. cbn [hmValues hmPairs]. split; [|intros prefix].
  - generalize (∅ : gmap string (list string)). revert pairs' Hl. induction pairs as [|[n v] pairs IH]; intros [|[n' v'] pairs']; try done.
    intros [= Hn -> Hl] values. cbn [fold_left]. assert (add_header values (n, v') = add_header values (n', v')) as -> by (unfold add_header; cbn [fst]; by rewrite Hn). by apply IH.
  - generalize (∅ : payload). revert pairs' Hl. induction pairs as [|[n v] pairs IH]; intros [|[n' v'] pairs']; try done.
    intros [= Hn -> Hl] values. cbn [fold_left fst snd]. rewrite Hn. by apply IH.
Qed.

(** Two responses whose headers differ in the case of their names give the same attributes. *)
Lemma AttributesFromHead_case pt upstream r r' : lowered (rawHeaders r) = lowered (rawHeaders r') ->
  AttributesFromHead pt upstream r = AttributesFromHead pt upstream r'.
Proof.
  intros Hl. destruct (headers_lowered _ _ Hl) as [Hv Hm].
  assert (forall name, header_first (newHeaderMap (rawHeaders r)) name = header_first (newHeaderMap (rawHeaders r')) name) as Hf
    by (intros name; unfold header_first, header_all; by rewrite Hv).
  assert (forall name, header_all (newHeaderMap (rawHeaders r)) name = header_all (newHeaderMap (rawHeaders r')) name) as Ha
    by (intros name; unfold header_all; by rewrite Hv).
  assert (forall target name key, copyHeader (newHeaderMap (rawHeaders r)) target name key = copyHeader (newHeaderMap (rawHeaders r')) target name key) as Hc
    by (intros target name key; unfold copyHeader; by rewrite Hf).
  assert (commonAttributesFromHead pt (newHeaderMap (rawHeaders r)) = commonAttributesFromHead pt (newHeaderMap (rawHeaders r'))) as Hcommon
    by (unfold commonAttributesFromHead; by rewrite !Hf, !Hm, !Hc).
  assert (forall attributes, addS3Attributes attributes (newHeaderMap (rawHeaders r)) = addS3Attributes attributes (newHeaderMap (rawHeaders r'))) as Hs3
    by (intros attributes; unfold addS3Attributes; by rewrite !Hc).
  destruct upstream; try done; unfold AttributesFromHead, s3AttributesFromHead, b2AttributesFromHead, gcpAttributesFromHead; rewrite Hcommon;
    destruct (commonAttributesFromHead pt (newHeaderMap (rawHeaders r'))) as [attributes|e]; try done; cbn [mbind result_bind]; unfold mbind, result_bind; rewrite ?Hs3; try done.
  - unfold addB2Attributes. by rewrite !Hf.
  - unfold addGCPAttributes. by rewrite !Hf, !Hc, !Ha.
Qed.

(** ** The two conversions of a HEAD *)

(** A header, the attribute it gives, and what the SDK's field gives for this attribute, in
    the order of each conversion. *)
Definition plain_headers (o : HeadObjectOutput) : list (string * string * option value) := [
  ("accept-ranges", "accept_ranges", sdkStringField hAcceptRanges o); ("cache-control", "cache_control", sdkStringField hCacheControl o);
  ("content-type", "content_type", sdkStringField hContentType o); ("content-disposition", "content_disposition", sdkStringField hContentDisposition o);
  ("content-encoding", "content_encoding", sdkStringField hContentEncoding o); ("content-language", "content_language", sdkStringField hContentLanguage o)].

Definition s3_headers (o : HeadObjectOutput) : list (string * string * option value) := [
  ("x-amz-storage-class", "storage_class", sdkEnumField hStorageClass o); ("x-amz-version-id", "version_id", sdkStringField hVersionId o);
  ("x-amz-server-side-encryption", "server_side_encryption", sdkEnumField hServerSideEncryption o);
  ("x-amz-server-side-encryption-aws-kms-key-id", "sse_kms_key_id", sdkStringField hSSEKMSKeyId o);
  ("x-amz-server-side-encryption-customer-algorithm", "sse_customer_algorithm", sdkStringField hSSECustomerAlgorithm o);
  ("x-amz-server-side-encryption-customer-key-md5", "sse_customer_key_md5", sdkStringField hSSECustomerKeyMD5 o);
  ("x-amz-server-side-encryption-bucket-key-enabled", "bucket_key_enabled", VBool <$> hBucketKeyEnabled o);
  ("x-amz-checksum-crc32", "checksum_crc32", sdkStringField hChecksumCRC32 o); ("x-amz-checksum-crc32c", "checksum_crc32c", sdkStringField hChecksumCRC32C o);
  ("x-amz-checksum-sha1", "checksum_sha1", sdkStringField hChecksumSHA1 o); ("x-amz-checksum-sha256", "checksum_sha256", sdkStringField hChecksumSHA256 o);
  ("x-amz-object-lock-mode", "object_lock_mode", sdkEnumField hObjectLockMode o);
  ("x-amz-object-lock-legal-hold", "object_lock_legal_hold_status", sdkEnumField hObjectLockLegalHoldStatus o);
  ("x-amz-object-lock-retain-until-date", "object_lock_retain_until_date", time_value <$> hObjectLockRetainUntilDate o);
  ("x-amz-expiration", "expiration", sdkStringField hExpiration o);
  ("x-amz-website-redirect-location", "website_redirect_location", sdkStringField hWebsiteRedirectLocation o);
  ("x-amz-replication-status", "replication_status", sdkEnumField hReplicationStatus o); ("x-amz-archive-status", "archive_status", sdkEnumField hArchiveStatus o)].

(** The fields that no header of the raw conversion gives. *)
Definition sdk_only (o : HeadObjectOutput) : list (string * option value) := [
  ("checksum_crc64nvme", sdkStringField hChecksumCRC64NVME o); ("checksum_sha512", sdkStringField hChecksumSHA512 o);
  ("checksum_md5", sdkStringField hChecksumMD5 o); ("parts_count", VInt <$> hPartsCount o);
  ("delete_marker", if default false (hDeleteMarker o) then Some (VBool true) else None)].

Definition write_all (es : list (string * option value)) (m : payload) : payload := fold_left (fun m e => write e.1 e.2 m) es m.

Lemma write_all_perm es es' : es ≡ₚ es' -> NoDup es.*1 -> forall m, write_all es m = write_all es' m.
Proof.
  unfold write_all. induction 1 as [|e es es' Hp IH|e e' es|es1 es2 es3 H12 IH12 H23 IH23]; intros Hnd m; cbn [fold_left]; [done| | |].
  - apply IH. by apply NoDup_cons_1_2 in Hnd.
  - cbn in Hnd. apply list.NoDup_cons in Hnd as [Hne _]. f_equal. destruct e as [k [v|]], e' as [k' [v'|]]; try done. cbn in Hne |- *.
    apply insert_insert_ne. intros ->. apply Hne. by left.
  - rewrite IH12 by done. apply IH23. by rewrite <- H12.
Qed.

(** The attributes of the S3 fields, with those of the SDK alone, in the order of the SDK. *)
Definition sdk_order : list nat := [0; 1; 2; 3; 4; 5; 15; 14; 7; 8; 18; 9; 10; 19; 20; 6; 17; 16; 11; 12; 13; 21; 22]%nat.

Lemma s3Attributes_write_all o : s3Attributes o ∅ = write_all (map (fun e => (e.1.2, e.2)) (s3_headers o) ++ sdk_only o) ∅.
Proof.
  set (es := map _ _ ++ _). assert (es = map (fun i => nth i es ("", None)) (seq 0 23)) as He by reflexivity.
  rewrite (write_all_perm es (map (fun i => nth i es ("", None)) sdk_order)).
  - unfold s3Attributes. cbv zeta. by rewrite !copySDKString_write, !copySDKEnum_write, copySDKBool_write, copySDKInt_write, copySDKTime_write, delete_marker_write.
  - rewrite He at 1. apply Permutation_map. apply (bool_decide_unpack _). vm_compute. exact I.
  - apply (bool_decide_unpack _). vm_compute. exact I.
Qed.

(** The fields of the SDK's output are the texts of the headers. *)
Record read_from_headers (pt : string -> option Time) (h : headerMap) (o : HeadObjectOutput) : Prop := {
  rh_etag : hETag o = header_first h "etag";
  rh_size : match header_first h "content-length" with Some s => exists n, ParseInt64 s = Some n /\ hContentLength o = Some n | None => hContentLength o = None end;
  rh_time : match header_first h "last-modified" with Some s => exists t, pt s = Some t /\ hLastModified o = Some t | None => hLastModified o = None end;
  rh_metadata : metadataAttributes h "x-amz-meta-" = VString <$> hMetadata o;
  rh_texts : Forall (fun e => VString <$> header_first h e.1.1 = e.2) (plain_headers o ++ s3_headers o);
  rh_only : Forall (fun e => e.2 = None) (sdk_only o)
}.

Lemma copyHeader_write h m name key : copyHeader h m name key = write key (VString <$> header_first h name) m.
Proof. unfold copyHeader. by destruct (header_first h name). Qed.

Lemma write_all_None es m : Forall (fun e => e.2 = None) es -> write_all es m = m.
Proof. unfold write_all. revert m. induction es as [|[k v] es IH]; intros m; [done|]. intros H. inversion H; subst. cbn in *. subst. by apply IH. Qed.

Lemma stored_map_nested name m attributes : attributes !! name = None -> stored_map name m attributes = nested name m attributes.
Proof. intros Hn. unfold stored_map, nested. by rewrite delete_id. Qed.

(** For the upstreams that answer as S3 does, the raw conversion of a HEAD and that of the
    SDK's output agree. *)
Lemma raw_agrees_with_sdk pt upstream r o : upstream ∈ [UpstreamAWS; UpstreamR2; UpstreamRustFS] ->
  read_from_headers pt (newHeaderMap (rawHeaders r)) o -> AttributesFromHead pt upstream r = Ok (AttributesFromHeadObjectOutput (Some o)).
Proof.
  intros Hup [Hetag Hsize Htime Hmeta Htexts Honly]. set (h := newHeaderMap (rawHeaders r)) in *.
  apply Forall_app in Htexts as [Hplain Hs3].
  assert (AttributesFromHead pt upstream r = s3AttributesFromHead pt r) as -> by (repeat (apply elem_of_cons in Hup as [->|Hup]; [done|]); by apply not_elem_of_nil in Hup).
  set (base := write "last_modified" (time_value <$> hLastModified o) (write "size" (VInt <$> hContentLength o) (write "etag" (VString <$> hETag o) ∅))).
  assert (commonAttributesFromHead pt h = Ok (stored_map "metadata" (VString <$> hMetadata o) (stored_map "header" (headerAttributes o ∅) base))) as Hcommon.
  { unfold commonAttributesFromHead. rewrite !copyHeader_write, Hmeta, <- Hetag.
    assert (headerAttributes o ∅ = write_all (map (fun e => (e.1.2, e.2)) (plain_headers o)) ∅) as ->
      by (unfold headerAttributes; cbv zeta; by rewrite !copySDKString_write).
    assert (map (fun e => (e.1.2, e.2)) (plain_headers o) = map (fun e => (e.1.2, VString <$> header_first h e.1.1)) (plain_headers o)) as ->.
    { apply map_ext_in. intros e He%list_elem_of_In. f_equal. symmetry. by apply (proj1 (list.Forall_forall _ _) Hplain). }
    unfold base. destruct (header_first h "content-length") as [s|].
    - destruct Hsize as (n & -> & ->). destruct (header_first h "last-modified") as [s'|]; [destruct Htime as (t & -> & ->)|rewrite Htime]; reflexivity.
    - rewrite Hsize. destruct (header_first h "last-modified") as [s'|]; [destruct Htime as (t & -> & ->)|rewrite Htime]; reflexivity. }
  unfold s3AttributesFromHead. fold h. rewrite Hcommon. cbn [mbind result_bind]. unfold mbind, result_bind. f_equal.
  unfold AttributesFromHeadObjectOutput. cbv zeta. f_equal. rewrite copySDKString_write, copySDKInt_write, copySDKTime_write.
  fold (sdkStringField hETag o). change (sdkStringField hETag o) with (VString <$> hETag o). fold base.
  rewrite (ensureNestedMap_new base "header") by (by unfold base; rewrite !write_lookup_ne).
  rewrite (stored_map_nested "header") by (by unfold base; rewrite !write_lookup_ne).
  set (mid := nested "header" _ base).
  assert (stored_map "metadata" (VString <$> hMetadata o) mid = if Nat.eqb (size (hMetadata o)) 0 then mid else <["metadata" := VMap (VString <$> hMetadata o)]> mid) as ->
    by (unfold stored_map; by rewrite map_size_fmap).
  set (attributes := if Nat.eqb (size (hMetadata o)) 0 then mid else _).
  assert (attributes !! "s3" = None) as Hno.
  { unfold attributes. assert (mid !! "s3" = None) by (unfold mid; rewrite nested_other by done; by unfold base; rewrite !write_lookup_ne).
    destruct (Nat.eqb _ _); [done|]. by rewrite lookup_insert_ne. }
  unfold addS3Attributes. rewrite stored_map_nested, ensureNestedMap_new by done. f_equal.
  rewrite !copyHeader_write, s3Attributes_write_all. unfold write_all at 1. rewrite fold_left_app.
  change (fold_left _ (sdk_only o) ?m) with (write_all (sdk_only o) m). rewrite write_all_None by done.
  assert (map (fun e => (e.1.2, e.2)) (s3_headers o) = map (fun e => (e.1.2, VString <$> header_first h e.1.1)) (s3_headers o)) as ->.
  { apply map_ext_in. intros e He%list_elem_of_In. f_equal. symmetry. by apply (proj1 (list.Forall_forall _ _) Hs3). }
  reflexivity.
Qed.

(** The header of the bucket key is never read alike: the raw conversion gives its text, that
    of the SDK a boolean. *)
Lemma bucket_key_differs pt h o : read_from_headers pt h o -> header_first h "x-amz-server-side-encryption-bucket-key-enabled" = None /\ hBucketKeyEnabled o = None.
Proof.
  intros [_ _ _ _ Htexts _]. rewrite list.Forall_forall in Htexts.
  specialize (Htexts ("x-amz-server-side-encryption-bucket-key-enabled", "bucket_key_enabled", VBool <$> hBucketKeyEnabled o)). cbn [fst snd] in Htexts.
  specialize (Htexts ltac:(apply list_elem_of_In; cbn; tauto)).
  by destruct (header_first h _), (hBucketKeyEnabled o).
Qed.
