(* ===== verification/HeadPool.v ===== *)
(** * HeadPool

    [HeadObjects] of apps/worker/internal/jobs/head_objects.go: the evidence of the
    objects goes through a channel to a pool of goroutines, each of which asks the
    upstream for one object at a time.

    A state holds what the goroutines share; an event is a step of one of them, and a
    schedule is the order of the steps, which Go does not determine. *)
From S2P Require Import Prelude GoStrings GoFloat GoTime JobPayload JobRuns ErrState Catalog ObjectStore ObjectPlan.
Local Open Scope nat_scope.

Record HeadObjectResult := mkHeadResult { hrEvidence : ObjectEvidence; hrAttributes : payload }.
Definition zeroResult : HeadObjectResult := mkHeadResult (mkEvidence "" "" "" "" 0 "" "") ∅.

(** Where the sending goroutine is: at the [select], at the test of [ctx.Err()] that
    follows it, or past [close(work)], waiting for the workers. *)
Inductive pc := PSelect | PCheck | PClosed.

(** A worker waits for work, asks for the object of an index, or has returned. *)
Inductive worker := Idle | Busy (index : nat) | Exited.

#[export] Instance pc_eq_dec : EqDecision pc. Proof. solve_decision. Defined.
#[export] Instance worker_eq_dec : EqDecision worker. Proof. solve_decision. Defined.

Record pool := mkPool {
  main : pc;
  index : nat;
  workers : list worker;
  results : gmap nat HeadObjectResult;
  headErr : option store_error;
  cancelled : bool;
  parentErr : option store_error
}.

(** [Send w]: the [select] hands the object to the worker [w].  [Done]: it sees the
    cancelled context.  [CheckErr]: the test after it.  [Finish w]: the call of [w]
    returns.  [Exit w]: [w] finds the channel closed.  [Cancel e]: the parent context
    is cancelled, with the error [e]. *)
Inductive event := Send (w : nat) | Done | CheckErr | Finish (w : nat) | Exit (w : nat) | Cancel (e : store_error).

Section Pool.
(** [head k evidence]: what the call returns when it returns at the [k]-th event. *)
Context (head : nat -> ObjectEvidence -> result store_error payload) (objects : list ObjectEvidence).

Notation n := (List.length objects).

Definition set_main (p : pc) (s : pool) : pool :=
  mkPool p (index s) (workers s) (results s) (headErr s) (cancelled s) (parentErr s).
Definition set_worker (w : nat) (v : worker) (s : pool) : pool :=
  mkPool (main s) (index s) (<[w := v]> (workers s)) (results s) (headErr s) (cancelled s) (parentErr s).

(** The head of the [for]: the [select] of the next index, or the end of the loop. *)
Definition loop_head (i : nat) (s : pool) : pool :=
  mkPool (if i <? n then PSelect else PClosed) i (workers s) (results s) (headErr s) (cancelled s) (parentErr s).

(** The evidence of a work item. *)
Definition evidence_at (i : nat) : ObjectEvidence := default (hrEvidence zeroResult) (objects !! i).

(** The body of a worker after its call. *)
Definition finish (i : nat) (answer : result store_error payload) (s : pool) : pool :=
  match answer with
  | Ok attributes =>
      let evidence := evidence_at i in
      mkPool (main s) (index s) (workers s)
        (<[i := mkHeadResult evidence (AttributesWithEvidence attributes evidence)]> (results s))
        (headErr s) (cancelled s) (parentErr s)
  | Err e =>
      mkPool (main s) (index s) (workers s) (results s)
        (match headErr s with Some e => Some e | None => Some e end) true (parentErr s)
  end.

Definition step (k : nat) (e : event) (s : pool) : option pool :=
  match e with
  | Send w =>
      if bool_decide (main s = PSelect) && bool_decide (workers s !! w = Some Idle)
      then Some (set_main PCheck (set_worker w (Busy (index s)) s)) else None
  | Done => if bool_decide (main s = PSelect) && cancelled s then Some (set_main PCheck s) else None
  | CheckErr =>
      if bool_decide (main s = PCheck)
      then Some (if cancelled s then set_main PClosed s else loop_head (S (index s)) s) else None
  | Finish w =>
      match workers s !! w with
      | Some (Busy i) => Some (finish i (head k (evidence_at i)) (set_worker w Idle s))
      | _ => None
      end
  | Exit w =>
      if bool_decide (main s = PClosed) && bool_decide (workers s !! w = Some Idle)
      then Some (set_worker w Exited s) else None
  | Cancel e =>
      match parentErr s with
      | Some _ => None
      | None => Some (mkPool (main s) (index s) (workers s) (results s) (headErr s) true (Some e))
      end
  end.

Fixpoint run (k : nat) (schedule : list event) (s : pool) : option pool :=
  match schedule with
  | [] => Some s
  | e :: schedule => s ← step k e s; run (S k) schedule s
  end.

(** [wg.Wait()] returns. *)
Definition waited (s : pool) : bool := forallb (fun w => bool_decide (w = Exited)) (workers s).

(** The results in the order of the objects; an index without one is the zero value. *)
Definition collected (s : pool) : list HeadObjectResult :=
  map (fun i => default zeroResult (results s !! i)) (seq 0 n).

Definition outcome (s : pool) : result store_error (list HeadObjectResult) :=
  match headErr s with
  | Some e => Err (Wrapf "head objects: %w" e)
  | None => match parentErr s with Some e => Err e | None => Ok (collected s) end
  end.

Definition pool_size (concurrency : Z) : nat :=
  let concurrency := if (concurrency <=? 0)%Z then 1 else Z.to_nat concurrency in Nat.min concurrency n.

Definition start (concurrency : Z) : pool :=
  mkPool PSelect 0 (replicate (pool_size concurrency) Idle) ∅ None false None.

(** [None]: the schedule is not one of a call that returns. *)
Definition HeadObjects (concurrency : Z) (schedule : list event) : option (result store_error (list HeadObjectResult)) :=
  match objects with
  | [] => Some (Ok [])
  | _ => s ← run 0 schedule (start concurrency); if waited s then Some (outcome s) else None
  end.

(** ** The invariant *)

Definition failed (s : pool) : Prop := headErr s <> None \/ parentErr s <> None.

(** An index that was handed out: somebody works on it, or it has its result. *)
Definition sent (s : pool) (i : nat) : Prop :=
  failed s \/ is_Some (results s !! i) \/ exists w, workers s !! w = Some (Busy i).

Definition headed (ev : ObjectEvidence) (r : HeadObjectResult) : Prop :=
  hrEvidence r = ev /\ exists k attributes, head k ev = Ok attributes /\ hrAttributes r = AttributesWithEvidence attributes ev.

Definition sent_upto (s : pool) : nat :=
  match main s with PSelect => index s | PCheck => S (index s) | PClosed => n end.

Record pool_ok (s : pool) : Prop := {
  ok_cancelled : cancelled s = true -> failed s;
  ok_sent i : i < sent_upto s -> sent s i;
  ok_index : match main s with PClosed => True | _ => index s < n end;
  ok_busy w i : workers s !! w = Some (Busy i) -> i < n;
  ok_results i r : results s !! i = Some r -> exists ev, objects !! i = Some ev /\ headed ev r;
  ok_err e : headErr s = Some e -> exists ev k, ev ∈ objects /\ head k ev = Err e;
  ok_exited w : workers s !! w = Some Exited -> main s = PClosed;
  ok_workers : workers s <> []
}.

Lemma sent_mono s s' i : sent s i ->
  (failed s -> failed s') -> (forall j, is_Some (results s !! j) -> is_Some (results s' !! j)) ->
  (forall w j, workers s !! w = Some (Busy j) -> sent s' j) -> sent s' i.
Proof. intros [Hf|[Hr|[w Hw]]] H1 H2 H3; [left; auto|right; left; auto|eauto]. Qed.

Lemma replicate_Idle m w v : replicate m Idle !! w = Some v -> v = Idle.
Proof. intros Hw. by apply lookup_replicate in Hw as [? _]. Qed.

Lemma start_ok concurrency : objects <> [] -> pool_ok (start concurrency).
Proof.
intros Hne. assert (0 < n) by (destruct objects; cbn; [done|lia]). split; cbn.
- done.
- lia.
- done.
- by intros w i ?%replicate_Idle.
- intros i r Hr. by rewrite lookup_empty in Hr.
- done.
- by intros w ?%replicate_Idle.
- assert (0 < pool_size concurrency) as Hp.
  { unfold pool_size. destruct (Z.leb_spec concurrency 0); lia. }
  destruct (pool_size concurrency); [lia|done].
Qed.

Lemma send_ok k w s s' : pool_ok s -> step k (Send w) s = Some s' -> pool_ok s'.
Proof.
intros [Hc Hs Hi Hb Hr He Hx Hw]. cbn [step].
destruct (bool_decide_reflect (main s = PSelect)) as [Hm|]; [|done].
destruct (bool_decide_reflect (workers s !! w = Some Idle)) as [Hid|]; [|done]. intros [= <-].
unfold sent_upto in Hs. rewrite Hm in Hs, Hi.
assert (w < List.length (workers s)) as Hlt by (by apply lookup_lt_is_Some; eauto).
assert (forall i, sent s i -> sent (set_main PCheck (set_worker w (Busy (index s)) s)) i) as Hmono.
{ intros i Hsi. eapply sent_mono; [exact Hsi|done|done|]. intros w' j Hj. right. right. exists w'. cbn.
  rewrite list_lookup_insert_ne; [done|]. intros <-. congruence. }
split; cbn; try done.
- intros i Hlt'. destruct (decide (i = index s)) as [->|].
  + right. right. exists w. cbn. by rewrite list_lookup_insert_eq.
  + apply Hmono, Hs. lia.
- intros w' i. destruct (decide (w = w')) as [<-|].
  + rewrite list_lookup_insert_eq by done. intros [= <-]. done.
  + rewrite list_lookup_insert_ne by done. apply Hb.
- intros w'. destruct (decide (w = w')) as [<-|]; [by rewrite list_lookup_insert_eq|].
  rewrite list_lookup_insert_ne by done. intros Hx'%Hx. congruence.
- intros E%(f_equal (@List.length worker)). rewrite length_insert in E. destruct (workers s); done.
Qed.

Lemma finish_ok k w s s' : pool_ok s -> step k (Finish w) s = Some s' -> pool_ok s'.
Proof.
intros [Hc Hs Hi Hb Hr He Hx Hw]. cbn [step].
destruct (workers s !! w) as [[|i|]|] eqn:Ew; try done. intros [= <-].
assert (w < List.length (workers s)) as Hlt by (by apply lookup_lt_is_Some; eauto).
destruct (lookup_lt_is_Some_2 objects i (Hb w i Ew)) as [ev Hev]. assert (evidence_at i = ev) as Eat by (unfold evidence_at; by rewrite Hev). rewrite Eat.
assert (forall w' v, <[w := Idle]> (workers s) !! w' = Some v -> v = Idle \/ workers s !! w' = Some v) as Hins.
{ intros w' v. destruct (decide (w = w')) as [<-|].
  * rewrite list_lookup_insert_eq by done. intros [= <-]. by left.
  * rewrite list_lookup_insert_ne by done. by right. }
destruct (head k ev) as [attributes|err] eqn:Eh; unfold finish; rewrite ?Eat; (split; cbn; try done).
- intros j Hj. eapply sent_mono; [by apply Hs|done| |].
  + intros j' [x Hx']. cbn. destruct (decide (i = j')) as [<-|]; [rewrite lookup_insert_eq|rewrite lookup_insert_ne by done]; eauto.
  + intros w' j' Hw'. destruct (decide (w = w')) as [<-|].
    * right. left. cbn. assert (j' = i) as -> by congruence. rewrite lookup_insert_eq. eauto.
    * right. right. exists w'. cbn. by rewrite list_lookup_insert_ne.
- intros w' j [?|Hw']%Hins; [done|by eapply Hb].
- intros j r. destruct (decide (i = j)) as [<-|]; [|rewrite lookup_insert_ne by done; apply Hr].
  rewrite lookup_insert_eq. intros [= <-]. exists ev. split; [done|]. split; [done|]. eauto.
- intros w' [?|Hw']%Hins; [done|by eapply Hx].
- intros E%(f_equal (@List.length worker)). rewrite length_insert in E. destruct (workers s); done.
- intros _. left. by destruct (headErr s).
- intros j _. left. left. by destruct (headErr s).
- intros w' j [?|Hw']%Hins; [done|by eapply Hb].
- intros e0. destruct (headErr s) as [e1|] eqn:Eerr; intros [= <-]; [by apply He|]. exists ev, k. split; [|done].
  by eapply list_elem_of_lookup_2.
- intros w' [?|Hw']%Hins; [done|by eapply Hx].
- intros E%(f_equal (@List.length worker)). rewrite length_insert in E. destruct (workers s); done.
Qed.

Lemma step_ok k e s s' : pool_ok s -> step k e s = Some s' -> pool_ok s'.
Proof.
intros Hok. pose proof Hok as [Hc Hs Hi Hb Hr He Hx Hw]. destruct e as [w| | |w|w|err]; [by apply send_ok|cbn [step]|cbn [step]|by apply finish_ok|cbn [step]|cbn [step]].
- destruct (bool_decide_reflect (main s = PSelect)) as [Hm|]; [|done]. destruct (cancelled s) eqn:Ec; [|done].
  intros [= <-]. rewrite Hm in Hi. split; cbn; try done.
  + intros _. by apply Hc.
  + intros i _. left. by apply Hc.
  + intros w Hx'%Hx. congruence.
- destruct (bool_decide_reflect (main s = PCheck)) as [Hm|]; [|done]. intros [= <-].
  unfold sent_upto in Hs. rewrite Hm in Hs, Hi. destruct (cancelled s) eqn:Ec.
  + split; cbn; try done; [intros _; by apply Hc|]. intros i _. left. by apply Hc.
  + unfold loop_head. destruct (Nat.ltb_spec (S (index s)) n) as [Hlt|Hge]; (split; cbn; try done; try congruence).
    * intros w Hx'%Hx. congruence.
    * intros i Hi'. apply Hs. lia.
- destruct (bool_decide_reflect (main s = PClosed)) as [Hm|]; [|done].
  destruct (bool_decide_reflect (workers s !! w = Some Idle)) as [Hid|]; [|done]. intros [= <-].
  assert (w < List.length (workers s)) as Hlt by (by apply lookup_lt_is_Some; eauto).
  split; cbn; try done.
  + intros i Hlt'. eapply sent_mono; [by apply Hs|done|done|]. intros w' j Hj. right. right. exists w'. cbn.
    rewrite list_lookup_insert_ne; [done|]. intros <-. congruence.
  + intros w' i. destruct (decide (w = w')) as [<-|]; [by rewrite list_lookup_insert_eq|].
    rewrite list_lookup_insert_ne by done. apply Hb.
  + intros E%(f_equal (@List.length worker)). rewrite length_insert in E. destruct (workers s); done.
- destruct (parentErr s) eqn:Ep; [done|]. intros [= <-]. split; cbn; try done.
  + intros _. by right.
  + intros i _. left. by right.
Qed.

Lemma run_ok k schedule s s' : pool_ok s -> run k schedule s = Some s' -> pool_ok s'.
Proof.
revert k s. induction schedule as [|e schedule IH]; intros k s Hok; cbn [run]; [by intros [= <-]|].
destruct (step k e s) as [s1|] eqn:Es; [|done]. apply IH. by eapply step_ok.
Qed.

Lemma run_app k l1 l2 s : run k (l1 ++ l2) s = (run k l1 s ≫= run (k + List.length l1) l2).
Proof.
revert k s. induction l1 as [|e l1 IH]; intros k s; cbn [run app]; [cbn; by rewrite Nat.add_0_r|].
destruct (step k e s) as [s1|]; [|done]. cbn [mbind option_bind List.length]. rewrite IH.
by rewrite <- plus_n_Sm.
Qed.

Lemma step_parent k e s s' err : step k e s = Some s' -> parentErr s' = Some err -> parentErr s = Some err \/ e = Cancel err.
Proof.
destruct e; cbn [step]; repeat case_match; try done; intros [= <-]; cbn; try (by left).
- unfold finish. case_match; by left.
- intros [= ->]. by right.
Qed.

Lemma run_parent k schedule s s' err :
  run k schedule s = Some s' -> parentErr s' = Some err -> parentErr s = Some err \/ Cancel err ∈ schedule.
Proof.
revert k s. induction schedule as [|e schedule IH]; intros k s; cbn [run]; [intros [= <-]; by left|].
destruct (step k e s) as [s1|] eqn:Es; [|done]. cbn. intros Hr Hp.
destruct (IH _ _ Hr Hp) as [H1|H1]; [|right; by right].
destruct (step_parent _ _ _ _ _ Es H1) as [H2| ->]; [by left|right; left].
Qed.

Lemma waited_exited s w v : waited s = true -> workers s !! w = Some v -> v = Exited.
Proof.
unfold waited. intros Hall Hv. apply list_elem_of_lookup_2 in Hv.
exact (proj1 (bool_decide_eq_true _) (forallb_elem _ _ _ Hall Hv)).
Qed.

(** When the workers have returned and nothing failed, every object has its result. *)
Lemma waited_results s : pool_ok s -> waited s = true -> ~ failed s ->
  Forall2 headed objects (collected s).
Proof.
intros Hok Hw Hnf. assert (main s = PClosed) as Hm.
{ destruct (workers s) as [|v l] eqn:Ew; [by destruct (ok_workers s Hok)|].
  apply (ok_exited s Hok 0). rewrite Ew. cbn. f_equal. apply (waited_exited s 0 v Hw). by rewrite Ew. }
apply Forall2_same_length_lookup. unfold collected. split; [by rewrite length_map, length_seq|].
intros i ev r Hev Hr. rewrite list_lookup_fmap in Hr.
assert (i < n) as Hi by (apply lookup_lt_is_Some; eauto). rewrite lookup_seq_lt in Hr by done. cbn in Hr.
destruct (ok_sent s Hok i) as [?|[[x Hx]|[w Hbusy]]]; [unfold sent_upto; by rewrite Hm|done| |].
- rewrite Hx in Hr. injection Hr as <-. destruct (ok_results s Hok i x Hx) as (ev' & Hev' & Hh). congruence.
- by apply (waited_exited s w) in Hbusy.
Qed.

(** C26: whatever the order in which the goroutines run, [HeadObjects] returns either
    the results of all the objects, in their order, each with the attributes of its
    own HEAD, or the error of one of the HEADs, or that of the context. *)
Theorem HeadObjects_sound concurrency schedule r :
  HeadObjects concurrency schedule = Some r ->
  match r with
  | Ok rs => Forall2 headed objects rs
  | Err e => (exists ev k e', ev ∈ objects /\ head k ev = Err e' /\ e = Wrapf "head objects: %w" e') \/ Cancel e ∈ schedule
  end.
Proof.
unfold HeadObjects. destruct objects as [|o os] eqn:Eo; [intros [= <-]; constructor|]. rewrite <- Eo in *.
destruct (run 0 schedule (start concurrency)) as [s|] eqn:Er; [|done]. cbn [mbind option_bind].
destruct (waited s) eqn:Hw; [|done]. intros [= <-].
assert (pool_ok s) as Hok by (eapply run_ok; [apply start_ok; by rewrite Eo|exact Er]). unfold outcome.
destruct (headErr s) as [e|] eqn:Ee.
- left. destruct (ok_err s Hok e Ee) as (ev & k & Hev & Hh). by exists ev, k, e.
- destruct (parentErr s) as [e|] eqn:Ep.
  + right. by destruct (run_parent _ _ _ _ _ Er Ep).
  + apply waited_results; [done|done|]. intros [?|?]; congruence.
Qed.

(** ** Progress and termination *)

Definition pc_weight (p : pc) : nat := match p with PSelect => 3 | PCheck => 1 | PClosed => 0 end.
Definition worker_weight (w : worker) : nat := match w with Busy _ => 2 | Idle => 1 | Exited => 0 end.
Definition pool_weight (s : pool) : nat :=
  5 * (n - index s) + pc_weight (main s) + sum_list (map worker_weight (workers s)) +
  match parentErr s with Some _ => 0 | None => 1 end.

(** Every event brings the end nearer. *)
Lemma step_weight k e s s' : pool_ok s -> step k e s = Some s' -> pool_weight s' < pool_weight s.
Proof.
intros Hok. pose proof (ok_index s Hok) as Hi. destruct e as [w| | |w|w|err]; cbn [step].
- destruct (bool_decide_reflect (main s = PSelect)) as [Hm|]; [|done].
  destruct (bool_decide_reflect (workers s !! w = Some Idle)) as [Hid|]; [|done]. intros [= <-].
  pose proof (sum_list_insert worker_weight _ _ _ (Busy (index s)) Hid) as Hsum. unfold pool_weight. cbn in *. rewrite Hm. cbn. lia.
- destruct (bool_decide_reflect (main s = PSelect)) as [Hm|]; [|done]. destruct (cancelled s); [|done]. intros [= <-].
  unfold pool_weight. cbn. rewrite Hm. cbn. lia.
- destruct (bool_decide_reflect (main s = PCheck)) as [Hm|]; [|done]. rewrite Hm in Hi. intros [= <-].
  unfold loop_head. destruct (cancelled s); [unfold pool_weight; cbn; rewrite Hm; cbn; lia|].
  destruct (Nat.ltb_spec (S (index s)) n); unfold pool_weight; cbn [main index workers parentErr pc_weight]; rewrite Hm;
    cbn [pc_weight]; lia.
- destruct (workers s !! w) as [[|i|]|] eqn:Ew; try done. intros [= <-].
  pose proof (sum_list_insert worker_weight _ _ _ Idle Ew) as Hsum. unfold pool_weight, finish. cbn in *.
  destruct (head k (evidence_at i)); cbn; lia.
- destruct (bool_decide_reflect (main s = PClosed)) as [Hm|]; [|done].
  destruct (bool_decide_reflect (workers s !! w = Some Idle)) as [Hid|]; [|done]. intros [= <-].
  pose proof (sum_list_insert worker_weight _ _ _ Exited Hid) as Hsum. unfold pool_weight. cbn in *. rewrite Hm. cbn. lia.
- destruct (parentErr s) eqn:Ep; [done|]. intros [= <-]. unfold pool_weight. cbn. rewrite Ep. lia.
Qed.

Lemma run_weight k schedule s s' : pool_ok s -> run k schedule s = Some s' -> List.length schedule + pool_weight s' <= pool_weight s.
Proof.
revert k s. induction schedule as [|e schedule IH]; intros k s Hok; cbn [run]; [intros [= <-]; cbn [List.length]; lia|].
destruct (step k e s) as [s1|] eqn:Es; [|done]. cbn [mbind option_bind List.length]. intros Hr.
pose proof (step_weight _ _ _ _ Hok Es). pose proof (IH _ _ (step_ok _ _ _ _ Hok Es) Hr). lia.
Qed.

(** Until all the workers have returned, one of the goroutines can take a step. *)
Lemma pool_progress k s : pool_ok s -> waited s = false -> exists e, is_Some (step k e s) /\ (forall err, e <> Cancel err).
Proof.
intros Hok Hw. assert (exists w v, workers s !! w = Some v /\ v <> Exited) as (w & v & Hv & Hne).
{ unfold waited in Hw. revert Hw. generalize (workers s). induction l as [|x l IH]; cbn; [done|].
  case_bool_decide as Hx; cbn.
  - intros Hl. destruct (IH Hl) as (w & v & Hv & Hne). by exists (S w), v.
  - intros _. by exists 0, x. }
destruct (main s) eqn:Hm; [| |].
- destruct v as [|i|]; [|exists (Finish w)|done].
  + exists (Send w). cbn [step]. rewrite !bool_decide_eq_true_2 by done. cbn. split; [by eauto|done].
  + cbn [step]. rewrite Hv. split; [by eauto|done].
- exists CheckErr. cbn [step]. rewrite bool_decide_eq_true_2 by done. split; [by eauto|done].
- destruct v as [|i|]; [exists (Exit w)|exists (Finish w)|done]; cbn [step].
  + rewrite !bool_decide_eq_true_2 by done. split; [by eauto|done].
  + rewrite Hv. split; [by eauto|done].
Qed.

(** A schedule that goes on from a state until the workers have returned. *)
Lemma pool_finishes k s : pool_ok s -> exists schedule s', run k schedule s = Some s' /\ waited s' = true.
Proof.
remember (pool_weight s) as m eqn:Em. revert k s Em. induction m as [m IH] using lt_wf_ind. intros k s -> Hok.
destruct (waited s) eqn:Hw; [by exists [], s|].
destruct (pool_progress k s Hok Hw) as (e & [s1 Hs1] & _).
destruct (IH _ (step_weight _ _ _ _ Hok Hs1) (S k) s1 eq_refl (step_ok _ _ _ _ Hok Hs1)) as (schedule & s' & Hr & Hw').
exists (e :: schedule), s'. cbn [run]. by rewrite Hs1.
Qed.

(** C27: [HeadObjects] returns: no order of the steps of its goroutines is longer than
    six times the number of objects and a constant, and none gets stuck, as any of
    them can be continued until the call returns. *)
Theorem HeadObjects_returns concurrency schedule s :
  objects <> [] -> run 0 schedule (start concurrency) = Some s ->
  List.length schedule <= 6 * n + 4 /\
  exists rest, is_Some (HeadObjects concurrency (schedule ++ rest)).
Proof.
intros Hne Hr. pose proof (start_ok concurrency Hne) as H0.
pose proof (run_weight _ _ _ _ H0 Hr) as Hlen. split.
- assert (pool_weight (start concurrency) <= 6 * n + 4); [|lia]. unfold pool_weight, start. cbn [main index workers parentErr pc_weight].
  assert (forall m, sum_list (map worker_weight (replicate m Idle)) = m) as Hsum by (induction m; cbn; [done|by f_equal]).
  rewrite Hsum. unfold pool_size. lia.
- destruct (pool_finishes (List.length schedule) s (run_ok _ _ _ _ H0 Hr)) as (rest & s' & Hrest & Hw).
  exists rest. exists (outcome s'). unfold HeadObjects. destruct objects as [|o os] eqn:Eo; [done|]. rewrite <- Eo in *.
  rewrite run_app, Hr. cbn [mbind option_bind]. rewrite Nat.add_0_l, Hrest. cbn [mbind option_bind]. by rewrite Hw.
Qed.
End Pool.

(** ** Two objects and two workers *)

Definition demo_evidence (key : string) : ObjectEvidence := mkEvidence "" key "" "etag" 3 "" "STANDARD".
Definition demo_objects : list ObjectEvidence := [demo_evidence "a"; demo_evidence "b"].
Definition demo_head (k : nat) (ev : ObjectEvidence) : result store_error payload :=
  Ok {["upstream" := VMap {["key" := VString (evKey ev)]}]}.
(** The second object is answered first. *)
Definition demo_schedule : list event := [Send 1; CheckErr; Send 0; Finish 0; CheckErr; Finish 1; Exit 0; Exit 1].

Lemma HeadObjects_sound_witness :
  exists rs, HeadObjects demo_head demo_objects 8 demo_schedule = Some (Ok rs) /\ Forall2 (headed demo_head) demo_objects rs.
Proof.
eexists. assert (HeadObjects demo_head demo_objects 8 demo_schedule = Some (Ok _)) as H by (vm_compute; reflexivity).
split; [exact H|]. exact (HeadObjects_sound demo_head demo_objects 8 demo_schedule _ H).
Defined.

Lemma HeadObjects_returns_witness :
  exists s, run demo_head demo_objects 0 [Send 1; Cancel (Errorf "cancelled")] (start demo_objects 8) = Some s /\
  exists rest, is_Some (HeadObjects demo_head demo_objects 8 ([Send 1; Cancel (Errorf "cancelled")] ++ rest)).
Proof.
eexists. assert (run demo_head demo_objects 0 [Send 1; Cancel (Errorf "cancelled")] (start demo_objects 8) = Some _) as H
  by (vm_compute; reflexivity).
split; [exact H|].
exact (proj2 (HeadObjects_returns demo_head demo_objects 8 _ _ ltac:(discriminate) H)).
Defined.
