(* ===== verification/SyncBucket.v ===== *)
(** * SyncBucket

    The sync_bucket job: apps/worker/internal/jobs/sync_bucket (input.go,
    listing_checkpoint.go, listing_page.go, remove_stream.go,
    sync_execution_state.go, handler.go).

    The handler runs among other workers and may be stopped at any point.  A
    [World] counts its statements; before the [n]-th one the other transactions
    have changed the database as [others n] says, and [fault n] says whether it
    fails, with or without its effect.  A crash is a fault after which no further
    statement of the attempt runs, which is what an error does here. *)
From S2P Require Import Prelude GoStrings GoFloat GoTime Verification JobPayload JobRuns ErrState S3Listing Catalog.
From S2P Require Import Buckets ObjectStore ObjectPlan.
Local Open Scope Z_scope.

(** ** input.go *)

Record SyncBucketInput := mkSyncInput {
  siBucketID : string;
  siScopePrefix : string;
  siPartition : option Partition;
  siSourceJobRunID : string
}.

Definition BucketID (run : JobRun) : result store_error string :=
  match as_string (Input run !! "bucket_id") with
  | Some bucketID =>
      if negb (String.eqb bucketID "") then Ok bucketID
      else if String.eqb (TargetType run) "bucket" && negb (String.eqb (TargetID run) "") then Ok (TargetID run)
      else Err (Errorf "sync_bucket job %q is missing bucket_id")
  | None =>
      if String.eqb (TargetType run) "bucket" && negb (String.eqb (TargetID run) "") then Ok (TargetID run)
      else Err (Errorf "sync_bucket job %q is missing bucket_id")
  end.

Definition max_uint32 : Z := 2 ^ 32 - 1.

(** [VInt] follows the int64 case; a payload read from the table holds floats only. *)
Definition uint32FromPayload (v : option value) : result store_error Z :=
  match v with
  | Some (VFloat f) =>
      if SFltb f (float_of_Z 0) || SFltb (float_of_Z max_uint32) f
      then Err (Errorf "value %v out of uint32 range") else Ok (uint32_of_float f)
  | Some (VInt z) =>
      if (z <? 0) || (max_uint32 <? z) then Err (Errorf "value %d out of uint32 range") else Ok z
  | _ => Err (Errorf "unsupported type %T")
  end.

Definition parsePartitionFromPayload (v : value) : result store_error Partition :=
  match asNestedAttributeMap v with
  | None => Err (Errorf "parse partition: expected object")
  | Some fields =>
      let scheme := default "" (as_string (fields !! "scheme")) in
      if negb (String.eqb scheme SchemeHash) then Err (Errorf "parse partition: unsupported scheme %q")
      else
        modulus ← wrap_err (Wrapf "parse partition: invalid modulus: %w") (uint32FromPayload (fields !! "modulus"));
        if modulus =? 0 then Err (Errorf "parse partition: modulus must be greater than zero")
        else
          index ← wrap_err (Wrapf "parse partition: invalid index: %w") (uint32FromPayload (fields !! "index"));
          if modulus <=? index then Err (Errorf "parse partition: index %d out of range for modulus %d")
          else Ok (PartitionFromIndex index modulus)
  end.

Definition scope_prefix_of (input : payload) : string :=
  match as_string (input !! "scope_prefix") with
  | Some scopePrefix => scopePrefix
  | None => default "" (as_string (input !! "prefix"))
  end.

Definition ParseSyncBucketInput (run : JobRun) : result store_error SyncBucketInput :=
  bucketID ← BucketID run;
  partition ← match Input run !! "partition" with
    | Some partitionValue => partition ← parsePartitionFromPayload partitionValue; Ok (Some partition)
    | None => Ok None
    end;
  Ok (mkSyncInput bucketID (scope_prefix_of (Input run)) partition
        (default "" (as_string (Input run !! "source_job_run_id")))).

Definition EffectiveListPrefix (bucketPrefix scopePrefix : string) : string :=
  if String.eqb scopePrefix "" then bucketPrefix
  else if String.eqb bucketPrefix "" then scopePrefix
  else TrimSuffix1 bucketPrefix "/" +:+ "/" +:+ TrimPrefix scopePrefix "/".

Definition SyncObjectScopeParams (bucketID bucketPrefix : string) (input : SyncBucketInput) : ObjectScopeParams :=
  mkScope bucketID (EffectiveListPrefix bucketPrefix (siScopePrefix input)).

(** The modulus of a parsed partition is not zero. *)
Definition KeyMatchesPartition (key : string) (partition : Partition) : bool :=
  match PartitionIndex key (Modulus partition) with Some index => index =? Index partition | None => false end.

(** The [partition != nil && !KeyMatchesPartition] of the loops. *)
Definition matches_partition (partition : option Partition) (key : string) : bool :=
  match partition with Some partition => KeyMatchesPartition key partition | None => true end.

(** ** listing_checkpoint.go *)

Record syncPlanCounts := mkCounts { pcImport : Z; pcRefresh : Z; pcRemove : Z }.

Definition add_counts (counts : syncPlanCounts) (importCount refreshCount removeCount : Z) : syncPlanCounts :=
  mkCounts (pcImport counts + importCount) (pcRefresh counts + refreshCount) (pcRemove counts + removeCount).

Record listingCheckpoint := mkListing {
  lcContinuationToken : string;
  lcMarker : string;
  lcObjectsListed : Z;
  lcListingComplete : bool;
  lcLastPageAt : string
}.

Definition as_bool (v : option value) : option bool := match v with Some (VBool b) => Some b | _ => None end.

(** [if listed := PayloadInt64(p, key); listed > 0 { field = listed }]. *)
Definition positive_or (p : payload) (key : string) (field : Z) : Z :=
  let listed := PayloadInt64 p key in if 0 <? listed then listed else field.

Definition listingCheckpointFromProgress (progress : payload) : listingCheckpoint :=
  let listed := positive_or progress "objects_listed" 0 in
  let complete := default false (as_bool (progress !! "listing_complete")) in
  let lastPageAt := default "" (as_string (progress !! "last_page_at")) in
  match progress !! "listing_checkpoint" ≫= asNestedAttributeMap with
  | None => mkListing "" "" listed complete lastPageAt
  | Some raw =>
      mkListing (default "" (as_string (raw !! "continuation_token"))) (default "" (as_string (raw !! "marker")))
        (positive_or raw "objects_listed" listed) (default complete (as_bool (raw !! "listing_complete"))) lastPageAt
  end.

Definition toListStart (checkpoint : listingCheckpoint) : ListCheckpoint :=
  mkCheckpoint (lcContinuationToken checkpoint) (lcMarker checkpoint) (lcObjectsListed checkpoint).

Definition listingCheckpointPayload (checkpoint : ListCheckpoint) (listingComplete : bool) : payload :=
  <["continuation_token" := VString (ContinuationToken checkpoint)]>
  (<["marker" := VString (Marker checkpoint)]>
  (<["objects_listed" := VInt (cpObjectsListed checkpoint)]>
  {["listing_complete" := VBool listingComplete]})).

Definition planned_fields (planned : syncPlanCounts) : payload :=
  <["import_objects_count" := VInt (pcImport planned)]>
  (<["refresh_objects_count" := VInt (pcRefresh planned)]>
  (<["remove_objects_count" := VInt (pcRemove planned)]>
  {["objects_planned" := VMap (<["import" := VInt (pcImport planned)]>
     (<["refresh" := VInt (pcRefresh planned)]> {["remove" := VInt (pcRemove planned)]}))]})).

Definition listingProgressFields (now : Time) (checkpoint : ListCheckpoint) (listingComplete : bool)
    (planned : syncPlanCounts) : payload :=
  <["phase" := VString "listing"]>
  (<["objects_listed" := VInt (cpObjectsListed checkpoint)]>
  (<["listing_complete" := VBool listingComplete]>
  (<["listing_checkpoint" := VMap (listingCheckpointPayload checkpoint listingComplete)]>
  (<["last_page_at" := VString (FormatRFC3339UTC now)]> (planned_fields planned))))).

Definition planningProgressFields (objectsListed : Z) (planned : syncPlanCounts) : payload :=
  <["phase" := VString "planning"]>
  (<["objects_listed" := VInt objectsListed]>
  (<["listing_complete" := VBool true]> (planned_fields planned))).

(** ** sync_execution_state.go *)

Record syncExecutionState := mkExec { planCounts : syncPlanCounts; childJobIDs : gmap string (list string) }.

Definition newSyncExecutionState : syncExecutionState :=
  mkExec (mkCounts 0 0 0)
    (<[JobTypeImportObjects := []]> (<[JobTypeRefreshObjects := []]> {[JobTypeRemoveObjects := []]})).

Definition mutationObjectCount (input : payload) : Z :=
  match input !! "objects" with Some (VSlice typed) => Z.of_nat (List.length typed) | _ => 0 end.

(** The switch on the job type that adds to one of the counts. *)
Definition count_for (jobType : string) (objectCount : Z) (counts : syncPlanCounts) : syncPlanCounts :=
  if String.eqb jobType JobTypeImportObjects then add_counts counts objectCount 0 0
  else if String.eqb jobType JobTypeRefreshObjects then add_counts counts 0 objectCount 0
  else if String.eqb jobType JobTypeRemoveObjects then add_counts counts 0 0 objectCount
  else counts.

Definition add_child_ids (jobType : string) (jobIDs : list string) (ids : gmap string (list string)) :
    gmap string (list string) :=
  <[jobType := default [] (ids !! jobType) ++ jobIDs]> ids.

Definition record_child (state : syncExecutionState) (child : JobRun) : syncExecutionState :=
  mkExec (count_for (Type_ child) (mutationObjectCount (Input child)) (planCounts state))
    (add_child_ids (Type_ child) [ID child] (childJobIDs state)).

Definition record (state : syncExecutionState) (jobType : string) (objectCount : Z) (jobIDs : list string) :
    syncExecutionState :=
  match jobIDs with
  | [] => state
  | _ => mkExec (count_for jobType objectCount (planCounts state)) (add_child_ids jobType jobIDs (childJobIDs state))
  end.

Definition plannedCountFromProgress (progress : payload) (kind : string) : Z :=
  let topLevelKey :=
    if String.eqb kind "import" then Some "import_objects_count"
    else if String.eqb kind "refresh" then Some "refresh_objects_count"
    else if String.eqb kind "remove" then Some "remove_objects_count"
    else None in
  match topLevelKey with
  | None => 0
  | Some topLevelKey =>
      let count := PayloadInt64 progress topLevelKey in
      match progress !! "objects_planned" ≫= asNestedAttributeMap with
      | None => count
      | Some planned =>
          match planned !! kind with
          | Some (VFloat typed) => Z.max count (int64_of_float typed)
          | Some (VInt typed) => Z.max count typed
          | _ => count
          end
      end
  end.

Definition mergePlanCountsFromProgress (counts : syncPlanCounts) (progress : payload) : syncPlanCounts :=
  mkCounts (Z.max (pcImport counts) (plannedCountFromProgress progress "import"))
    (Z.max (pcRefresh counts) (plannedCountFromProgress progress "refresh"))
    (Z.max (pcRemove counts) (plannedCountFromProgress progress "remove")).

Definition fanOutResult (state : syncExecutionState) (base : payload) : payload :=
  FanOutResult (childJobIDs state)
    (<["import_objects_count" := VInt (pcImport (planCounts state))]>
    (<["refresh_objects_count" := VInt (pcRefresh (planCounts state))]>
    (<["remove_objects_count" := VInt (pcRemove (planCounts state))]> base))).

(** ** The world of an attempt *)

Inductive Fault := FaultBefore (e : store_error) | FaultAfter (e : store_error).

(** [s3compat.BucketConfig] and [Credentials] go to the client factory: an object
    client answers a call made at the [n]-th statement. *)
Definition ObjectClient : Type := nat -> ListObjectsInput -> result store_error ObjectPage.

Record Env := mkEnv {
  others : nat -> Store -> Store;
  fault : nat -> option Fault;
  stream_fault : nat -> option (nat * store_error);
  db_now : nat -> Z;
  go_now : nat -> Time;
  random : nat -> list Z;
  client_for : Bucket -> result store_error ObjectClient
}.

Record World := mkWorld { clock : nat; store : Store; exec : syncExecutionState }.

Definition set_exec (v : syncExecutionState) (w : World) : World := mkWorld (clock w) (store w) v.

Section Handler.
Context `{MapOrder, Collation} (E : Env).

(** A statement, or a transaction: it is given its number. *)
Definition stmt {A} (m : nat -> M Store A) : M World A := fun w =>
  let n := clock w in
  let s := others E n (store w) in
  let done s := mkWorld (Datatypes.S n) s (exec w) in
  match fault E n with
  | Some (FaultBefore e) => (Err (Failure e), done s)
  | Some (FaultAfter e) => (Err (Failure e), done (m n s).2)
  | None => let '(r, s') := m n s in (r, done s')
  end.

(** The query of a stream, whose rows may be cut short by an error. *)
Definition run_query (f : Store -> list ObjectRow) : M World Rows :=
  stmt (fun n => gets (fun s =>
    match stream_fault E n with
    | Some (k, e) => (firstn k (f s), Some e)
    | None => (f s, None)
    end)).

Definition call_upstream (client : ObjectClient) (input : ListObjectsInput) : M World ObjectPage := fun w =>
  of_result (client (clock w) input) (mkWorld (Datatypes.S (clock w)) (store w) (exec w)).

(** ** handler.go: enqueueing *)

Definition updateProgress (runID : string) (fields : Time -> payload) : M World unit :=
  now ← gets (fun w => go_now E (clock w));
  _ ← stmt (fun n => on_jobs (UpdateJobRunProgress (db_now E n) runID (fields now)));
  mret tt.

Definition childJobBatchSize : Z := 100.
Definition objectEvidenceBatches (objects : list ObjectEvidence) (size : Z) : list (list ObjectEvidence) :=
  batches objects size.

Definition keysFromObjectEvidence (objects : list ObjectEvidence) : list string := map evKey objects.
Definition keysFromListedObjects (objects : list ListedObject) : list string := map lKey objects.

Definition child_input (bucketID runID : string) (batch : list ObjectEvidence) : payload :=
  PayloadFrom (mutation_input_json (mkMutationInput bucketID batch runID)).

Definition child_params (jobType bucketID runID : string) (batch : list ObjectEvidence) : CreateJobRunParams :=
  mkCreate jobType "" "job" runID "bucket" bucketID (child_input bucketID runID batch) 0 None.

(** The transaction of [enqueueMutationJobs] for one batch. *)
Definition enqueue_batch (n : nat) (runID bucketID jobType : string) (batch : list ObjectEvidence) : M Store JobRun :=
  WithTx (
    _ ← on_jobs (InsertKeys runID (keysFromObjectEvidence batch));
    on_jobs (CreateJobRun (random E n) (db_now E n) (child_params jobType bucketID runID batch))).

Definition record_batch (jobType : string) (batch : list ObjectEvidence) (childRun : JobRun) : M World unit :=
  puts (fun w => set_exec (record (exec w) jobType (Z.of_nat (List.length batch)) [ID childRun]) w).

Definition enqueueMutationJobs (runID bucketID jobType : string) (objects : list ObjectEvidence) : M World unit :=
  match objects with
  | [] => mret tt
  | _ =>
      for_each (fun batch =>
        childRun ← stmt (fun n => enqueue_batch n runID bucketID jobType batch);
        record_batch jobType batch childRun) (objectEvidenceBatches objects childJobBatchSize)
  end.

(** ** listing_page.go *)

Definition listedObjectsForKeys (objects : list ListedObject) (keys : list string) : list ListedObject :=
  match keys with
  | [] => []
  | _ => List.filter (fun object => bool_decide (lKey object ∈ keys)) objects
  end.

Definition filterListedObjectsNotInSpill (jobRunID : string) (objects : list ListedObject) : M World (list ListedObject) :=
  pendingKeys ← stmt (fun _ => on_jobs (FilterKeysNotInSpill jobRunID (keysFromListedObjects objects)));
  mret (listedObjectsForKeys objects pendingKeys).

Definition page_progress (runID : string) (page : ListObjectsPageProgress) : M World unit :=
  counts ← gets (fun w => planCounts (exec w));
  updateProgress runID (fun now => listingProgressFields now (Checkpoint page) (ListingComplete page) counts).

(** The objects of a page that are not in the spill. *)
Definition processPendingObjects (runID bucketID : string) (pendingObjects : list ListedObject) : M World unit :=
  let pageKeys := keysFromListedObjects pendingObjects in
  localObjects ← stmt (fun _ => on_catalog (GetObjectsByBucketAndKeys bucketID pageKeys));
  site ← gets clock;
  let '(importObjects, refreshObjects, _) := PlanObjectMutationsForListedObjects site pendingObjects localObjects in
  _ ← enqueueMutationJobs runID bucketID JobTypeImportObjects importObjects;
  _ ← enqueueMutationJobs runID bucketID JobTypeRefreshObjects refreshObjects;
  let mutatedKeys := keysFromObjectEvidence importObjects ++ keysFromObjectEvidence refreshObjects in
  let noMutationKeys := List.filter (fun key => bool_decide (key ∉ mutatedKeys)) pageKeys in
  stmt (fun _ => on_jobs (InsertKeys runID noMutationKeys)).

Definition processListingPage (runID bucketID : string) (page : ListObjectsPageProgress) : M World unit :=
  match PageObjects page with
  | [] => page_progress runID page
  | _ =>
      pendingObjects ← filterListedObjectsNotInSpill runID (PageObjects page);
      _ ← match pendingObjects with
          | [] => mret tt
          | _ => processPendingObjects runID bucketID pendingObjects
          end;
      page_progress runID page
  end.

(** ** remove_stream.go *)

(** The callback of the stream and [flush]; the state is the batch. *)
Definition flush (runID bucketID : string) (batch : list ObjectEvidence) : M World (list ObjectEvidence) :=
  match batch with
  | [] => mret batch
  | _ => _ ← enqueueMutationJobs runID bucketID JobTypeRemoveObjects batch; mret []
  end.

Definition collect_remove (runID bucketID : string) (partition : option Partition) (batch : list ObjectEvidence)
    (object : Object) : M World (list ObjectEvidence) :=
  if negb (matches_partition partition (oKey object)) then mret batch
  else
    let batch := batch ++ [mkEvidence (oID object) (oKey object) "" "" 0 "" ""] in
    if childJobBatchSize <=? Z.of_nat (List.length batch) then flush runID bucketID batch else mret batch.

Definition streamAndEnqueueRemoveObjects (runID bucketID : string) (scope : ObjectScopeParams)
    (partition : option Partition) : M World unit :=
  batch ← StreamObjectsInScopeMissingFromSpill run_query runID scope (collect_remove runID bucketID partition) [];
  _ ← flush runID bucketID batch;
  mret tt.

(** ** Resuming an attempt (sync_execution_state.go) *)

Definition children_page (runID : string) (offset : Z) : ListJobRunsParams :=
  mkList "" [] "" "" "job" runID "" "" None None 500 offset.

(** The loop over the pages of children; the fuel bounds their number. *)
Fixpoint load_children (fuel : nat) (runID : string) (offset : Z) (state : syncExecutionState) :
    M World syncExecutionState :=
  match fuel with
  | O => fail OutOfFuel
  | Datatypes.S fuel =>
      children ← stmt (fun _ => on_jobs (ListJobRuns (children_page runID offset)));
      let state := fold_left record_child children state in
      if Z.of_nat (List.length children) <? 500 then mret state
      else load_children fuel runID (offset + 500) state
  end.

Definition loadSyncExecutionState (fuel : nat) (run : JobRun) : M World syncExecutionState :=
  state ← load_children fuel (ID run) 0 newSyncExecutionState;
  mret (mkExec (mergePlanCountsFromProgress (planCounts state) (Progress run)) (childJobIDs state)).

(** ** Handle *)

Definition list_options (client : ObjectClient) (run : JobRun) (bucket : Bucket) (listPrefix : string)
    (start : ListCheckpoint) (partition : option Partition) : ListAllObjectsOptions World :=
  mkListOptions (Some (call_upstream client)) (bBucketName bucket) listPrefix (bID bucket) None start
    ((fun partition object => KeyMatchesPartition (lKey object) partition) <$> partition)
    (Some (fun _ => mret tt)) (Some (processListingPage (ID run) (bID bucket))).

(** The listing, unless an earlier attempt completed it: the number of objects
    listed. *)
Definition list_upstream (fuel : nat) (client : ObjectClient) (run : JobRun) (bucket : Bucket) (listPrefix : string)
    (checkpoint : listingCheckpoint) (partition : option Partition) : M World Z :=
  if lcListingComplete checkpoint then mret (lcObjectsListed checkpoint)
  else
    listed ← ListAllObjects (list_options client run bucket listPrefix (toListStart checkpoint) partition) fuel;
    if negb listed.1 then fail_with "sync_bucket job %q: upstream listing incomplete"
    else
      counts ← gets (fun w => planCounts (exec w));
      _ ← updateProgress (ID run) (fun now => listingProgressFields now (mkCheckpoint "" "" listed.2) true counts);
      mret listed.2.

Definition syncResultScopeFields (input : SyncBucketInput) : payload :=
  match siPartition input with
  | None => ∅
  | Some partition =>
      {["partition" := VMap (<["scheme" := VString (Scheme partition)]>
         (<["modulus" := VInt (Modulus partition)]> {["index" := VInt (Index partition)]}))]}
  end.

Definition sync_result (state : syncExecutionState) (bucket : Bucket) (input : SyncBucketInput) (objectsListed : Z) :
    payload :=
  syncResultScopeFields input ∪ fanOutResult state
    (<["phase" := VString "planned"]>
    (<["bucket_id" := VString (bID bucket)]>
    (<["scope_prefix" := VString (siScopePrefix input)]>
    (<["objects_seen" := VInt objectsListed]>
    (<["objects_listed" := VInt objectsListed]>
    {["listing_complete" := VBool true]}))))).

Definition Handle (fuel : nat) (run : JobRun) : M World payload :=
  input ← of_result (ParseSyncBucketInput run);
  bucket ← stmt (fun _ => on_catalog (GetBucket (siBucketID input)));
  client ← of_result (client_for E bucket);
  state ← loadSyncExecutionState fuel run;
  _ ← puts (set_exec state);
  let listPrefix := EffectiveListPrefix (bPrefix bucket) (siScopePrefix input) in
  let scope := SyncObjectScopeParams (bID bucket) (bPrefix bucket) input in
  let checkpoint := listingCheckpointFromProgress (Progress run) in
  objectsListed ← list_upstream fuel client run bucket listPrefix checkpoint (siPartition input);
  counts ← gets (fun w => planCounts (exec w));
  _ ← updateProgress (ID run) (fun _ => planningProgressFields objectsListed counts);
  _ ← streamAndEnqueueRemoveObjects (ID run) (bID bucket) scope (siPartition input);
  state ← gets exec;
  mret (sync_result state bucket input objectsListed).
End Handler.
