(* ===== verification/Scheduler.v ===== *)
(** * Scheduler

    The schedulers of a worker (apps/worker/internal/scheduler): decide.go,
    scan_scheduler.go and duplicate_detection_scheduler.go; and the scan configuration of a
    bucket (packages/storage/bucket_pithosys_config.go), which no scheduler reads.

    A tick is a computation in the world of [SyncBucket]: its statements are interleaved
    with those of others.  The sleeps between ticks and between two scans are left out. *)
From S2P Require Import Prelude GoStrings GoTime GoDuration JobPayload JobRuns JobTrace JobRunProofs ErrState Settings.
From S2P Require Import Catalog Buckets SyncBucket.
Local Open Scope Z_scope.

(** ** bucket_pithosys_config.go *)

Definition DefaultScanInterval : Z := 24 * Hour.

Definition ScanEnabled (c : BucketScanConfig) : bool := default true (Enabled c).
Definition ScanInterval (c : BucketScanConfig) (fallback : Z) : Z :=
  if String.eqb (Interval c) "" then fallback
  else match ParseDuration (Interval c) with
       | Some parsed => if parsed <=? 0 then fallback else parsed
       | None => fallback
       end.
Definition ScanDue (c : BucketScanConfig) (lastFinished : option Time) (now : Time) (fallbackInterval : Z) : bool :=
  if negb (ScanEnabled c) then false
  else match lastFinished with
       | None => true
       | Some t => negb (Before now (Add t (ScanInterval c fallbackInterval)))
       end.

(** ** decide.go *)

Inductive ScanDecision := ScanDecisionEnqueue | ScanDecisionSkipActive | ScanDecisionSkipNotDue.
#[export] Instance ScanDecision_eq_dec : EqDecision ScanDecision. Proof. solve_decision. Defined.

Definition DecideScan (lastFinished : option Time) (now : Time) (hasActive : bool) (interval : Z) : ScanDecision :=
  if hasActive then ScanDecisionSkipActive
  else match lastFinished with
       | Some t => if Before now (Add t interval) then ScanDecisionSkipNotDue else ScanDecisionEnqueue
       | None => ScanDecisionEnqueue
       end.

Definition DecideDuplicateDetection (lastFinished : option Time) (now : Time) (interval : Z) : bool :=
  match lastFinished with None => true | Some t => negb (Before now (Add t interval)) end.

Section Ticks.
(** [settings_at n]: the cache of the worker at the [n]-th statement; [interval]: see
    [JobTrace.HasActiveWorkForTarget]. *)
Context (E : Env) (settings_at : nat -> cache) (interval : Z -> Z).

Definition read_now : M World Time := gets (fun w => go_now E (clock w)).
Definition setting (key : string) : M World Z := gets (fun w => Duration (settings_at (clock w)) key).

(** ** scan_scheduler.go *)

Definition scan_params (bucketID : string) : CreateJobRunParams :=
  mkCreate JobTypeScanBucket "" "scheduler" "" "bucket" bucketID {["bucket_id" := VString bucketID]} 0 None.

(** The body of the loop over the buckets; [enqueued] counts the scans requested. *)
Definition schedule_bucket (now : Time) (scanInterval : Z) (enqueued : Z) (bucket : Bucket) : M World Z :=
  staleAfter ← setting SettingWorkerJobStaleTimeout;
  activeWork ← stmt E (fun n => on_jobs (HasActiveWorkForTarget interval (db_now E n) staleAfter "bucket" (bID bucket)));
  if activeWork : bool then mret enqueued
  else
    lastFinished ← stmt E (fun _ => on_jobs (LastJobRunFinishedAt JobTypeScanBucket "bucket" (bID bucket)));
    if bool_decide (DecideScan (time_of_micros <$> lastFinished) now activeWork scanInterval = ScanDecisionEnqueue) then
      _ ← stmt E (fun n => on_jobs (CreateJobRun (random E n) (db_now E n) (scan_params (bID bucket))));
      mret (enqueued + 1)
    else mret enqueued.

Definition enqueueDueScans : M World Z :=
  buckets ← stmt E (fun _ => on_catalog (ListBuckets "" 500 0));
  now ← read_now;
  scanInterval ← setting SettingScanBucketInterval;
  for_acc (schedule_bucket now scanInterval) 0 buckets.

(** ** duplicate_detection_scheduler.go *)

Definition detectDuplicatesTargetType : string := "catalog".
Definition detectDuplicatesTargetID : string := "catalog".

Definition detect_params : CreateJobRunParams :=
  mkCreate JobTypeDetectDuplicates "" "scheduler" "" detectDuplicatesTargetType detectDuplicatesTargetID ∅ 0 None.

Definition enqueueIfDue : M World bool :=
  active ← stmt E (fun _ => on_jobs (HasActiveJobRunOfType JobTypeDetectDuplicates));
  if active : bool then mret false
  else
    lastFinished ← stmt E (fun _ => on_jobs (LastSucceededJobRunFinishedAtOfType JobTypeDetectDuplicates));
    interval_ ← setting SettingDuplicateDetectionInterval;
    now ← read_now;
    if negb (DecideDuplicateDetection (time_of_micros <$> lastFinished) now interval_) then mret false
    else
      _ ← stmt E (fun n => on_jobs (CreateJobRun (random E n) (db_now E n) detect_params));
      mret true.
End Ticks.

(** ** The latest end of a job *)

(** [v] is the latest [finished_at] of the rows in [p]. *)
Definition latest (p : JobRow -> bool) (d : db) (v : option Z) : Prop :=
  match v with
  | Some t => (exists r, r ∈ rows d /\ p r = true /\ finished_at r = Some t) /\
      forall r t', r ∈ rows d -> p r = true -> finished_at r = Some t' -> t' <= t
  | None => forall r, r ∈ rows d -> p r = true -> finished_at r = None
  end.

Lemma last_finished_latest p d : exists v, last_finished p d = (Ok v, d) /\ latest p d v.
Proof.
  unfold last_finished, query. set (q := fun r => p r && bool_decide (is_Some (finished_at r))).
  eexists. split; [reflexivity|].
  assert (forall r, r ∈ select q by_finished_desc d <-> q r = true /\ r ∈ rows d) as Hin.
  { intros r. rewrite elem_of_select, elem_of_rows. tauto. }
  assert (sorted_by by_finished_desc (select q by_finished_desc d)) as Hs.
  { apply sort_by_sorted; unfold by_finished_desc; [intros x y; apply lex_before_asym|].
    intros x y z H1 H2. by eapply lex_before_ntrans. }
  destruct (select q by_finished_desc d) as [|r l].
  - intros r Hr Hp. destruct (finished_at r) as [t|] eqn:Ef; [|done]. exfalso.
    apply (not_elem_of_nil r), Hin. unfold q. by rewrite Hp, bool_decide_true by (rewrite Ef; by eexists).
  - destruct (proj1 (Hin r) ltac:(left)) as [Hq Hr]. unfold q in Hq. apply andb_true_iff in Hq as [Hp Hq].
    apply bool_decide_eq_true in Hq as [t Ht]. rewrite Ht. cbn. split; [eauto|]. intros r' t' Hr' Hp' Ht'.
    assert (r' ∈ r :: l) as Hin'.
    { apply Hin. split; [|done]. unfold q. by rewrite Hp', bool_decide_true by (rewrite Ht'; by eexists). }
    apply elem_of_cons in Hin' as [->|Hin']; [assert (t' = t) by congruence; lia|].
    apply Sorted.StronglySorted_inv in Hs as [_ Hs]. rewrite List.Forall_forall in Hs.
    specialize (Hs r' ltac:(by apply list_elem_of_In)). unfold by_finished_desc, lex_before in Hs. rewrite Ht, Ht' in Hs. cbn in Hs.
    apply orb_false_iff in Hs as [Hs _]. apply Z.ltb_ge in Hs. lia.
Qed.

Lemma latest_unique p d v v' : latest p d v -> latest p d v' -> v = v'.
Proof.
  destruct v as [t|], v' as [t'|]; cbn; [..|done].
  - intros [(r & Hr & Hp & Ht) Hmax] [(r' & Hr' & Hp' & Ht') Hmax'].
    pose proof (Hmax r' t' Hr' Hp' Ht'). pose proof (Hmax' r t Hr Hp Ht). f_equal. lia.
  - intros [(r & Hr & Hp & Ht) _] Hno. by rewrite (Hno r Hr Hp) in Ht.
  - intros Hno [(r & Hr & Hp & Ht) _]. by rewrite (Hno r Hr Hp) in Ht.
Qed.

(** ** A tick of the scan scheduler *)

(** A row that a tick adds: a pending scan of the bucket [b], alone in its trace. *)
Definition new_scan (b : string) (r : JobRow) : Prop :=
  type_ r = JobTypeScanBucket /\ state r = Pending /\ trace_id r = id r /\ finished_at r = None /\
  requested_by_type r = Some "scheduler" /\ requested_by_id r = None /\
  target_type r = Some "bucket" /\ target_id r = Some b /\ max_attempts r = 1 /\ attempt r = 1.

(** The jobs after the scans of the buckets [bs] were added. *)
Inductive scans_added (d : db) : list string -> db -> Prop :=
| added_nil : scans_added d [] d
| added_snoc bs d1 b r : scans_added d bs d1 -> job_runs d1 !! id r = None -> new_scan b r ->
    scans_added d (bs ++ [b]) (mkDB (<[id r := r]> (job_runs d1)) (job_spill d1)).

Definition active_at (interval : Z -> Z) (now staleAfter : Z) (b : string) (d : db) : bool :=
  existsb (activeCatalogTraceWorkForTargetPredicate interval now (ResolveJobStaleTimeout staleAfter) "bucket" b d) (rows d).

Lemma active_at_iff interval now staleAfter b d :
  active_at interval now staleAfter b d = true <->
  exists r root, r ∈ rows d /\ root ∈ rows d /\ target_type r = Some "bucket" /\ target_id r = Some b /\
    active (state r) = true /\ stale interval now (ResolveJobStaleTimeout staleAfter) r = false /\
    id root = trace_id r /\ id root = trace_id root /\ (type_ root = "sync_bucket" \/ type_ root = "scan_bucket") /\
    target_type root = Some "bucket" /\ target_id root = Some b.
Proof.
  unfold active_at, activeCatalogTraceWorkForTargetPredicate, not_distinct. rewrite existsb_elem. split.
  - intros (r & Hr & Hp). rewrite !andb_true_iff, !bool_decide_eq_true, negb_true_iff, existsb_elem in Hp.
    destruct Hp as ((((H1 & H2) & H3) & H4) & root & Hroot & H5).
    rewrite !andb_true_iff, !bool_decide_eq_true, !String.eqb_eq in H5.
    destruct H5 as ((((H5 & H6) & H7) & H8) & H9). exists r, root. set_solver.
  - intros (r & root & Hr & Hroot & H1 & H2 & H3 & H4 & H5 & H6 & H7 & H8 & H9). exists r. split; [done|].
    rewrite H1, H2, H3, H4, !bool_decide_true by done. cbn [andb negb]. apply existsb_elem. exists root. split; [done|].
    rewrite H8, H9, !bool_decide_true by set_solver. rewrite (proj2 (String.eqb_eq _ _) H5), (proj2 (String.eqb_eq _ _) H6). done.
Qed.

Lemma added_rows d bs d1 : keyed d -> scans_added d bs d1 -> keyed d1 /\
  (forall r, r ∈ rows d -> r ∈ rows d1) /\
  (forall r, r ∈ rows d1 -> r ∈ rows d \/ exists b, b ∈ bs /\ new_scan b r) /\
  (forall b, b ∈ bs -> exists r, r ∈ rows d1 /\ new_scan b r).
Proof.
  intros Hk. induction 1 as [|bs d1 b r Ha (Hk1 & Hold & Hnew & Hall) Hno Hr].
  - split_and!; [done|done|by left|set_solver].
  - assert (forall x, x ∈ rows (mkDB (<[id r := r]> (job_runs d1)) (job_spill d1)) <-> x = r \/ x ∈ rows d1) as Hrows.
    { intros x. rewrite !elem_of_rows. cbn [job_runs]. split.
      - intros (key & Hx). apply lookup_insert_Some in Hx as [[_ <-]|[_ Hx]]; [by left|right; eauto].
      - intros [->|(key & Hx)]; [exists (id r); apply lookup_insert_eq|]. exists key. rewrite lookup_insert_ne; [done|congruence]. }
    split_and!.
    + intros key x Hx. cbn [job_runs] in Hx. apply lookup_insert_Some in Hx as [[<- <-]|[_ Hx]]; [done|by apply Hk1].
    + intros x Hx. apply Hrows. right. by apply Hold.
    + intros x [->|Hx]%Hrows; [right; exists b; set_solver|]. destruct (Hnew x Hx) as [?|(b' & Hb' & Hx')]; [by left|].
      right. exists b'. set_solver.
    + intros b' [Hb'|Hb']%elem_of_app.
      * destruct (Hall b' Hb') as (x & Hx & Hn). exists x. rewrite Hrows. tauto.
      * apply list_elem_of_singleton in Hb' as ->. exists r. rewrite Hrows. tauto.
Qed.

(** The activity of a bucket without a new scan is the same, and one with a new scan is
    active at once. *)
Lemma added_active interval now staleAfter d bs d1 b :
  keyed d -> scans_added d bs d1 -> b ∉ bs -> active_at interval now staleAfter b d1 = active_at interval now staleAfter b d.
Proof.
  intros Hk Ha Hb. destruct (added_rows d bs d1 Hk Ha) as (_ & Hold & Hnew & _).
  assert (forall r, r ∈ rows d1 -> target_id r = Some b -> r ∈ rows d) as Hback.
  { intros r Hr Ht. destruct (Hnew r Hr) as [?|(b' & Hb' & Hn)]; [done|]. exfalso.
    destruct Hn as (_ & _ & _ & _ & _ & _ & _ & Hn & _). congruence. }
  apply eq_true_iff_eq. rewrite !active_at_iff. split; intros (r & root & H1 & H2 & H3 & H4 & H5 & H6 & H7 & H8 & H9 & H10 & H11);
    exists r, root; split_and!; eauto.
Qed.

Lemma added_is_active interval now staleAfter d bs d1 b :
  keyed d -> scans_added d bs d1 -> b ∈ bs -> active_at interval now staleAfter b d1 = true.
Proof.
  intros Hk Ha Hb. destruct (added_rows d bs d1 Hk Ha) as (_ & _ & _ & Hall). destruct (Hall b Hb) as (r & Hr & Hn).
  destruct Hn as (H1 & H2 & H3 & H4 & H5 & H6 & H7 & H8 & _). apply active_at_iff. exists r, r.
  split_and!; try done; [by rewrite H2|unfold stale; by rewrite bool_decide_false by (rewrite H2; done)|by right].
Qed.

Lemma added_latest p d bs d1 v : keyed d -> scans_added d bs d1 -> latest p d v -> latest p d1 v.
Proof.
  intros Hk Ha. destruct (added_rows d bs d1 Hk Ha) as (_ & Hold & Hnew & _).
  assert (forall r t, r ∈ rows d1 -> finished_at r = Some t -> r ∈ rows d) as Hback.
  { intros r t Hr Ht. destruct (Hnew r Hr) as [?|(b' & Hb' & Hn)]; [done|].
    destruct Hn as (_ & _ & _ & Hn & _). congruence. }
  destruct v as [t|]; cbn.
  - intros [(r & Hr & Hp & Ht) Hmax]. split; [eauto|]. intros r' t' Hr' Hp' Ht'. eauto.
  - intros Hno r Hr Hp. destruct (finished_at r) as [t|] eqn:Ht; [|done]. rewrite <- Ht. eauto.
Qed.

Section Tick.
Context (E : Env) (settings_at : nat -> cache) (interval : Z -> Z).
(** No other transaction runs during the tick. *)
Context (quiet : forall n s, others E n s = s).

Lemma stmt_quiet {A} (f : nat -> M Store A) w a w' :
  stmt E f w = (Ok a, w') -> exists s', f (clock w) (store w) = (Ok a, s') /\ w' = mkWorld (S (clock w)) s' (exec w).
Proof.
  unfold stmt. rewrite quiet. destruct (fault E (clock w)) as [[e|e]|]; [done..|].
  destruct (f (clock w) (store w)) as [[x|e] s'] eqn:Ef; [|done]. intros [= <- <-]. eauto.
Qed.

Lemma bind_inv {S A B} (m : M S A) (f : A -> M S B) s b s' :
  (m ≫= f) s = (Ok b, s') -> exists a s1, m s = (Ok a, s1) /\ f a s1 = (Ok b, s').
Proof. unfold mbind, M_bind. destruct (m s) as [[a|e] s1]; [|done]. eauto. Qed.

Lemma on_jobs_inv {A} (m : DB A) s a s' :
  on_jobs m s = (Ok a, s') -> exists d', m (jobs s) = (Ok a, d') /\ s' = set_jobs d' s.
Proof. unfold on_jobs. destruct (m (jobs s)) as [[x|e] d'] eqn:Em; [|done]. intros [= <- <-]. eauto. Qed.

(** The rows [LastJobRunFinishedAt] looks at. *)
Definition ended_scan (b : string) (r : JobRow) : bool :=
  on_target JobTypeScanBucket "bucket" b r && bool_decide (state r ∈ [Succeeded; Failed; Cancelled]).

(** What the tick decides for a bucket whose jobs are those of [d]. *)
Definition decides (now : Time) (scanInterval : Z) (d : db) (b : string) (n : nat) : ScanDecision :=
  DecideScan (match (LastJobRunFinishedAt JobTypeScanBucket "bucket" b d).1 with Ok t => time_of_micros <$> t | Err _ => None end) now
    (active_at interval (db_now E n) (Duration (settings_at n) SettingWorkerJobStaleTimeout) b d) scanInterval.

Lemma HasActive_inv n staleAfter b d a d' :
  HasActiveWorkForTarget interval n staleAfter "bucket" b d = (Ok a, d') ->
  b <> "" /\ a = active_at interval n staleAfter b d /\ d' = d.
Proof.
  unfold HasActiveWorkForTarget, with_target. cbn [String.eqb]. change (String.eqb "bucket" "") with false. cbv iota.
  destruct (String.eqb_spec b ""); [done|]. unfold query. intros [= <- <-]. done.
Qed.

Lemma CreateJobRun_scan random now b d r d' :
  b <> "" -> CreateJobRun random now (scan_params b) d = (Ok r, d') ->
  exists row, job_runs d !! id row = None /\ new_scan b row /\ d' = mkDB (<[id row := row]> (job_runs d)) (job_spill d).
Proof.
  intros Hb. unfold CreateJobRun, mbind, DB_bind, resolveTraceID. cbn [scan_params cRequestedByType cRequestedByID cTraceID].
  change (String.eqb "scheduler" "job") with false. change (String.eqb "" "") with true. cbn [andb negb]. cbn [mret DB_ret].
  destruct (encoded_cases (cInput (scan_params b)) d) as [(e & He & ->)|[_ [e ->]]]; [|done].
  match goal with |- context [insert_row ?r d] => set (row := r); destruct (insert_row_cases row d) as [[err ->]|(Hno & _ & ->)] end;
    [done|]. intros [= <- <-]. exists row. split; [done|]. split; [|done].
  unfold new_scan, row. cbn. unfold nullableString. rewrite (proj2 (String.eqb_neq b "")) by done. by split_and!.
Qed.

Lemma schedule_bucket_spec now scanInterval k b d bs w k' w' :
  keyed d -> scans_added d bs (jobs (store w)) -> bID b ∉ bs ->
  schedule_bucket E settings_at interval now scanInterval k b w = (Ok k', w') ->
  catalog (store w') = catalog (store w) /\
  exists n, decides now scanInterval d (bID b) n = ScanDecisionEnqueue /\ k' = k + 1 /\ scans_added d (bs ++ [bID b]) (jobs (store w')) \/
            decides now scanInterval d (bID b) n <> ScanDecisionEnqueue /\ k' = k /\ jobs (store w') = jobs (store w).
Proof.
  intros Hk Ha Hb Hs. unfold schedule_bucket in Hs. apply bind_inv in Hs as (staleAfter & w1 & Hset & Hs).
  injection Hset as <- <-. apply bind_inv in Hs as (active & w2 & Hact & Hs).
  apply stmt_quiet in Hact as (s2 & Hact & ->). apply on_jobs_inv in Hact as (d2 & Hact & ->).
  apply HasActive_inv in Hact as (Hne & Hactive & ->).
  rewrite (added_active _ _ _ _ _ _ _ Hk Ha Hb) in Hactive.
  destruct (last_finished_latest (ended_scan (bID b)) d) as (v & Hv & Hl).
  destruct (last_finished_latest (ended_scan (bID b)) (jobs (store w))) as (v1 & Hv1 & Hl1).
  assert (v1 = v) as -> by (eapply latest_unique; [exact Hl1|by eapply added_latest]).
  set (n := clock w) in *.
  assert (decides now scanInterval d (bID b) n = DecideScan (time_of_micros <$> v) now active scanInterval) as Hdec.
  { unfold decides. change (LastJobRunFinishedAt _ _ _ d) with (last_finished (ended_scan (bID b)) d). by rewrite Hv, Hactive. }
  destruct active.
  { injection Hs as <- <-. split; [done|]. exists n. right. rewrite Hdec. by split_and!. }
  apply bind_inv in Hs as (last & w3 & Hlast & Hs). apply stmt_quiet in Hlast as (s3 & Hlast & ->).
  apply on_jobs_inv in Hlast as (d3 & Hlast & ->). cbn [store] in Hlast. change (jobs (set_jobs _ _)) with (jobs (store w)) in Hlast.
  change (LastJobRunFinishedAt _ _ _) with (last_finished (ended_scan (bID b))) in Hlast. rewrite Hv1 in Hlast.
  injection Hlast as <- <-. case_bool_decide as Hd.
  - apply bind_inv in Hs as (r & w4 & Hcreate & Hs). apply stmt_quiet in Hcreate as (s4 & Hcreate & ->).
    apply on_jobs_inv in Hcreate as (d4 & Hcreate & ->). injection Hs as <- <-.
    apply CreateJobRun_scan in Hcreate as (row & Hno & Hnew & ->); [|done]. split; [done|]. exists n. left.
    rewrite Hdec. split; [done|]. split; [done|]. by apply added_snoc.
  - injection Hs as <- <-. split; [done|]. exists n. right. rewrite Hdec. by split_and!.
Qed.

Lemma schedule_loop_spec now scanInterval d buckets : keyed d -> NoDup (map bID buckets) ->
  forall bs k w k' w', scans_added d bs (jobs (store w)) -> (forall b, b ∈ buckets -> bID b ∉ bs) ->
  for_acc (schedule_bucket E settings_at interval now scanInterval) k buckets w = (Ok k', w') ->
  exists picked, k' = k + Z.of_nat (List.length picked) /\ scans_added d (bs ++ picked) (jobs (store w')) /\
    picked `sublist_of` map bID buckets /\ catalog (store w') = catalog (store w) /\
    forall b, b ∈ buckets -> exists n, bID b ∈ picked <-> decides now scanInterval d (bID b) n = ScanDecisionEnqueue.
Proof.
  intros Hk. induction buckets as [|b buckets IH]; intros Hnd bs k w k' w' Ha Hfresh Hs; cbn [for_acc] in Hs.
  - injection Hs as <- <-. exists []. rewrite app_nil_r. split_and!; [cbn [List.length]; lia|done|constructor|done|set_solver].
  - apply bind_inv in Hs as (k1 & w1 & Hb & Hs). cbn [map] in Hnd. apply list.NoDup_cons in Hnd as [Hni Hnd].
    destruct (schedule_bucket_spec now scanInterval k b d bs w k1 w1 Hk Ha ltac:(apply Hfresh; left) Hb) as (Hcat & n & Hcase).
    assert (forall b', b' ∈ buckets -> bID b' <> bID b) as Hne.
    { intros b' Hb' He. apply Hni. rewrite <- He. by apply list_elem_of_fmap_2. }
    destruct Hcase as [(Hdec & -> & Ha1)|(Hdec & -> & Hj)].
    + destruct (IH Hnd (bs ++ [bID b]) (k + 1) w1 k' w' Ha1) as (picked & -> & Ha2 & Hsub & Hcat2 & Hall); [|exact Hs|].
      { intros b' Hb' [Hin|Hin%list_elem_of_singleton]%elem_of_app; [by apply (Hfresh b'); [right|]|by apply (Hne b')]. }
      exists (bID b :: picked). rewrite <- app_assoc in Ha2. split_and!; [cbn [List.length]; lia|done|by constructor|congruence|].
      intros b' [->|Hb']%elem_of_cons; [exists n; split; [done|left]|]. destruct (Hall b' Hb') as (n' & Hn'). exists n'.
      rewrite <- Hn', elem_of_cons. pose proof (Hne b' Hb'). tauto.
    + rewrite <- Hj in Ha. destruct (IH Hnd bs k w1 k' w' Ha) as (picked & -> & Ha2 & Hsub & Hcat2 & Hall); [|exact Hs|].
      { intros b' Hb'. apply Hfresh. by right. }
      exists picked. split_and!; [done|done|by constructor|congruence|].
      intros b' [->|Hb']%elem_of_cons; [|by apply Hall]. exists n. split; [|done]. intros Hin. exfalso. apply Hni.
      by eapply list.elem_of_submseteq, sublist_submseteq.
Qed.
End Tick.

(** The ids of the buckets of a page are distinct. *)
Lemma listed_NoDup upstream limit c bs c' :
  (forall id b, buckets c !! id = Some b -> bID b = id) ->
  ListBuckets upstream limit 0 c = (Ok bs, c') -> c' = c /\ NoDup (map bID bs).
Proof.
  intros Hk [= <- <-]. split; [done|].
  set (rows := select_rows _ _ _).
  assert (NoDup (map bID rows)) as Hnd.
  { assert (map bID rows ≡ₚ map bID (List.filter (fun b => String.eqb upstream "" || String.eqb (bUpstream b) upstream)
      (table_rows (buckets c)))) as -> by (apply Permutation_map, sort_by_perm).
    apply NoDup_map_filter. unfold table_rows.
    assert (map bID (map_to_list (buckets c)).*2 = (map_to_list (buckets c)).*1) as ->; [|apply NoDup_fst_map_to_list].
    rewrite List.map_map. apply List.map_ext_in. intros [id b] Hin. apply list_elem_of_In, elem_of_map_to_list in Hin.
    cbn. by apply Hk. }
  rewrite List.map_map. change (fun x => bID (scanBucket x)) with bID. unfold page_rows. rewrite <- firstn_map.
  apply (sublist_NoDup _ (map bID rows)); [done|]. apply sublist_take.
Qed.

(** What a tick of the scan scheduler does to the jobs, when no other transaction runs
    in between: of the buckets it lists, it gives one scan to each that has no active work
    and whose last scan ended long enough ago, and none to the others; nothing else in the
    jobs changes; and every bucket it picked has active work from then on, so that a tick
    that follows picks it no more. *)
Theorem scan_tick_schedules E settings_at interval w k w' :
  (forall n s, others E n s = s) -> keyed (jobs (store w)) ->
  (forall id b, buckets (catalog (store w)) !! id = Some b -> bID b = id) ->
  enqueueDueScans E settings_at interval w = (Ok k, w') ->
  exists picked now scanInterval,
    k = Z.of_nat (List.length picked) /\ NoDup picked /\ scans_added (jobs (store w)) picked (jobs (store w')) /\
    catalog (store w') = catalog (store w) /\
    (forall b, b ∈ picked -> exists bucket, bucket ∈ page_rows 500 0 (select_rows (fun _ => true) bucket_by_created_desc (buckets (catalog (store w)))) /\ bID bucket = b) /\
    (forall bucket, bucket ∈ page_rows 500 0 (select_rows (fun _ => true) bucket_by_created_desc (buckets (catalog (store w)))) ->
       exists n, bID bucket ∈ picked <-> decides E settings_at interval now scanInterval (jobs (store w)) (bID bucket) n = ScanDecisionEnqueue) /\
    (forall b n now' scanInterval', b ∈ picked ->
       decides E settings_at interval now' scanInterval' (jobs (store w')) b n = ScanDecisionSkipActive).
Proof.
  intros Hq Hk Hb Hs. unfold enqueueDueScans in Hs. apply bind_inv in Hs as (bs & w1 & Hl & Hs).
  apply (stmt_quiet E Hq) in Hl as (s1 & Hl & ->). unfold on_catalog in Hl.
  destruct (ListBuckets "" 500 0 (catalog (store w))) as [[l|e] c] eqn:El; [|done]. injection Hl as -> <-.
  destruct (listed_NoDup _ _ _ _ _ Hb El) as [-> Hnd].
  apply bind_inv in Hs as (now & w2 & Hnow & Hs). injection Hnow as <- <-.
  apply bind_inv in Hs as (scanInterval & w3 & Hset & Hs). injection Hset as <- <-.
  match type of Hs with for_acc (schedule_bucket _ _ _ ?t ?i) _ _ ?w0 = _ =>
    destruct (schedule_loop_spec E settings_at interval Hq t i (jobs (store w)) bs Hk Hnd [] 0 w0 k w' (added_nil _)) as
      (picked & -> & Ha & Hsub & Hcat & Hall); [intros b _; apply not_elem_of_nil|exact Hs|]; exists picked, t, i end.
  injection El as El. cbn [String.eqb orb] in El.
  split; [lia|]. split; [by eapply sublist_NoDup|]. split; [exact Ha|]. split; [exact Hcat|]. split; [|split].
  - intros b Hin. assert (b ∈ map bID bs) as Hin' by (eapply list.elem_of_submseteq; [exact Hin|by apply sublist_submseteq]).
    rewrite <- El, List.map_map in Hin'. apply list_elem_of_fmap in Hin' as (bucket & -> & Hin'). by exists bucket.
  - intros bucket Hin. specialize (Hall (scanBucket bucket)). apply Hall. rewrite <- El. by apply list_elem_of_fmap_2.
  - intros b n now' scanInterval' Hin. unfold decides. by rewrite (added_is_active _ _ _ _ _ _ _ Hk Ha Hin).
Qed.

(** ** Witness: a bucket that was never scanned, and one whose scan is pending *)

Definition tick_env : Env :=
  mkEnv (fun _ s => s) (fun _ => None) (fun _ => None) (fun n => Z.of_nat n) (fun n => mkTime (Z.of_nat n) 0 0)
    (fun n => [Z.of_nat n]) (fun _ => Err (Errorf "no client")).
Definition tick_bucket (id : string) (created : Z) : Bucket :=
  mkBucket id id "s3" "" "" "upstream" "" ∅ (mkEnvelope "" "" "" "") (mkScanConfig None "") created 0.
Definition tick_pending : JobRow :=
  mkJobRow "run" "run" "scan_bucket" Pending None None (Some "bucket") (Some "b2") ∅ ∅ ∅ 1 1 0 None None None None None 0 0.
Definition tick_world : World :=
  mkWorld 0 (mkStore (mkDB {["run" := tick_pending]} ∅)
    (mkCatalog (<["b1" := tick_bucket "b1" 1]> {["b2" := tick_bucket "b2" 2]}) ∅ ∅ ∅ ∅ ∅)) newSyncExecutionState.
Definition tick_run : result run_error Z * World := enqueueDueScans tick_env (fun _ => NewCache) (fun d => d / 1000) tick_world.

Lemma tick_run_ok : tick_run.1 = Ok 1.
Proof. vm_compute. reflexivity. Qed.

Lemma scan_tick_schedules_witness :
  exists w' picked, tick_run = (Ok 1, w') /\ 1 = Z.of_nat (List.length picked) /\
    scans_added (jobs (store tick_world)) picked (jobs (store w')).
Proof.
  pose proof tick_run_ok as Hok. destruct tick_run as [r w'] eqn:Ht. cbn [fst] in Hok. subst r. exists w'.
  destruct (scan_tick_schedules tick_env (fun _ => NewCache) (fun d => d / 1000) tick_world 1 w') as (picked & now & i & H1 & _ & H3 & _).
  - reflexivity.
  - intros key r Hr. cbn in Hr. apply lookup_singleton_Some in Hr as [<- <-]. reflexivity.
  - intros key b Hb. cbn in Hb. apply lookup_insert_Some in Hb as [[<- <-]|[_ Hb]]; [reflexivity|].
    apply lookup_singleton_Some in Hb as [<- <-]. reflexivity.
  - exact Ht.
  - exists picked. split; [reflexivity|]. split; [exact H1|exact H3].
Defined.
