(* ===== verification/EventIngest.v ===== *)
(** * EventIngest

    From a notification to the rows of upstream_events: packages/upstreamevents/
    ingest.go, and the handling of a message by the JetStream consumer
    (apps/worker/internal/jetstreamconsumer/consumer.go).

    JetStream delivers a message again when it was not acknowledged.  The statements
    run in the world of [SyncBucket], with failures and other transactions.  The second
    part is the loop of the consumer. *)
From S2P Require Import Prelude GoStrings GoFloat GoTime JobPayload JobRuns GoJson GoJsonText ErrState Catalog JetStream UpstreamEvents.
From S2P Require Import Notifications SyncBucket.
Local Open Scope Z_scope.

Record IngestUpstreamEventsResult := mkIngest { Accepted : Z; Duplicate : Z; Ignored : Z; EventIDs : list string }.

Definition action_text (a : EventAction) : string :=
  match a with EventActionImport => "import" | EventActionRemove => "remove" | EventActionIgnore => "ignore" end.

(** The event as JSON, read back; a year above 9999 has no JSON, and leaves the empty
    payload. *)
Definition event_envelope (event : NormalizedEvent) : payload :=
  let text s := VString (coerceUTF8 s) in
  let year := Year (UTC (neEventTime event)) in
  if (0 <=? year) && (year <=? 9999) then
    list_to_map [
      ("Upstream", text (neUpstream event)); ("Action", text (action_text (neAction event)));
      ("EventName", text (neEventName event)); ("EventSource", text (neEventSource event));
      ("BucketName", text (neBucketName event)); ("BucketARN", text (neBucketARN event));
      ("Region", text (neRegion event)); ("DeploymentID", text (neDeploymentID event));
      ("Key", text (neKey event)); ("ETag", text (neETag event)); ("Size", VFloat (float_of_Z (neSize event)));
      ("EventTime", VString (FormatRFC3339NanoUTC (neEventTime event)));
      ("EventID", text (neEventID event)); ("VersionID", text (neVersionID event))]
  else ∅.

Definition event_key (bucketID : string) (event : NormalizedEvent) : string :=
  UpstreamEventDedupeKey bucketID (neEventName event) (neKey event) (neEventID event) (neEventTime event).

Definition event_params (bucketID : string) (event : NormalizedEvent) : CreateUpstreamEventParams :=
  mkCreateEvent bucketID (neEventName event) (neKey event) (event_envelope event) (event_key bucketID event)
    UpstreamEventTransportJetstream
    (if IsZero (neEventTime event) then None else Some (UTC (neEventTime event))).

(** [errors.Is(err, ErrUpstreamEventDuplicate)]. *)
Fixpoint wraps_duplicate (e : store_error) : bool :=
  match e with
  | Errorf message => String.eqb message "upstream event duplicate"
  | Wrapf _ cause => wraps_duplicate cause
  | _ => false
  end.
Definition is_duplicate (e : run_error) : bool :=
  match e with Failure e => wraps_duplicate e | OutOfFuel => false end.

Definition ingest_error (e : run_error) : run_error :=
  match e with Failure e => Failure (Wrapf "ingest upstream event for key %q: %w" e) | OutOfFuel => OutOfFuel end.

Inductive Acknowledgement := Ack | Nak.

Section Ingest.
Context `{MapOrder} (E : Env).

Definition create_event (bucketID : string) (event : NormalizedEvent) : M World UpstreamEvent :=
  stmt E (fun n => on_catalog (CreateUpstreamEvent (random E n) (db_now E n) (event_params bucketID event))).

(** The body of the loop. *)
Definition ingest_event (bucketID : string) (result : IngestUpstreamEventsResult) (event : NormalizedEvent) :
    M World IngestUpstreamEventsResult :=
  if bool_decide (neAction event = EventActionIgnore)
  then mret (mkIngest (Accepted result) (Duplicate result) (Ignored result + 1) (EventIDs result))
  else fun w =>
    match create_event bucketID event w with
    | (Ok created, w) =>
        (Ok (mkIngest (Accepted result + 1) (Duplicate result) (Ignored result) (EventIDs result ++ [eID created])), w)
    | (Err e, w) =>
        if is_duplicate e
        then (Ok (mkIngest (Accepted result) (Duplicate result + 1) (Ignored result) (EventIDs result)), w)
        else (Err (ingest_error e), w)
    end.

Definition parsed (body : string) : M World (list NormalizedEvent) := fun w => (Parse body, w).

Definition IngestS3Notification (body bucketID : string) : M World IngestUpstreamEventsResult :=
  if String.eqb (TrimSpace bucketID) "" then fail_with "ingest s3 notification: bucket id is required"
  else events ← parsed body; for_acc (ingest_event bucketID) (mkIngest 0 0 0 []) events.

(** [handleMessage]: whether the message is acknowledged. *)
Definition handleMessage (bucketID data : string) : World -> Acknowledgement * World := fun w =>
  match IngestS3Notification data bucketID w with
  | (Ok _, w) => (Ack, w)
  | (Err _, w) => (Nak, w)
  end.
End Ingest.

Section Delivered.
Context `{MapOrder} (E : Env).

(** A message is delivered at most [k] times (MaxDeliver is 5). *)
Fixpoint deliver (k : nat) (bucketID data : string) (w : World) : Acknowledgement * World :=
  match k with
  | O => (Nak, w)
  | S k =>
      match handleMessage E bucketID data w with
      | (Ack, w) => (Ack, w)
      | (Nak, w) => deliver k bucketID data w
      end
  end.

(** ** The table among the statements *)

(** The identifiers that later statements draw are not taken. *)
Record events_ok (n : nat) (c : Catalog) : Prop := {
  ev_keyed id e : upstream_events c !! id = Some e -> eID e = id;
  ev_unique id1 id2 e1 e2 : upstream_events c !! id1 = Some e1 -> upstream_events c !! id2 = Some e2 ->
    eDedupeKey e1 = eDedupeKey e2 -> id1 = id2;
  ev_fresh m : (n <= m)%nat -> upstream_events c !! newUpstreamEventID (random E m) = None
}.

(** The rows of [c] are in [c'], up to their state. *)
Definition events_kept (c c' : Catalog) : Prop := forall id e, upstream_events c !! id = Some e ->
  exists e', upstream_events c' !! id = Some e' /\ eDedupeKey e' = eDedupeKey e /\ eBucketID e' = eBucketID e.

Definition has_key (c : Catalog) (key : string) : Prop := exists id e, upstream_events c !! id = Some e /\ eDedupeKey e = key.

(** The other transactions do not remove events, and no failure of the connection is
    the violation of a unique index. *)
Record events_env : Prop := {
  ee_ids m n : newUpstreamEventID (random E m) = newUpstreamEventID (random E n) -> m = n;
  ee_others n s : events_ok n (catalog s) ->
    events_ok n (catalog (others E n s)) /\ events_kept (catalog s) (catalog (others E n s));
  ee_fault n e : fault E n = Some (FaultBefore e) \/ fault E n = Some (FaultAfter e) -> wraps_duplicate e = false
}.

Lemma events_kept_refl c : events_kept c c.
Proof. intros id e He. by exists e. Qed.

Lemma events_kept_trans c1 c2 c3 : events_kept c1 c2 -> events_kept c2 c3 -> events_kept c1 c3.
Proof.
  intros H1 H2 id e He. destruct (H1 id e He) as (e2 & He2 & Hk & Hb). destruct (H2 id e2 He2) as (e3 & He3 & Hk' & Hb').
  exists e3. split_and!; [done|congruence..].
Qed.

Lemma has_key_kept c c' key : has_key c key -> events_kept c c' -> has_key c' key.
Proof. intros (id & e & He & <-) Hk. destruct (Hk id e He) as (e' & He' & Hd & _). by exists id, e'. Qed.

Lemma events_ok_later n n' c : (n <= n')%nat -> events_ok n c -> events_ok n' c.
Proof. intros Hn [H1 H2 H3]. split; [done|done|]. intros m Hm. apply H3. lia. Qed.

Lemma not_taken e t : event_taken e t = false ->
  forall id e', t !! id = Some e' -> eID e' <> eID e /\ eDedupeKey e' <> eDedupeKey e.
Proof.
  intros Ht id e' He. unfold event_taken in Ht. rewrite existsb_false_elem in Ht.
  assert (e' ∈ table_rows t) as Hin by (apply elem_of_table_rows; by exists id). apply Ht in Hin.
  apply orb_false_iff in Hin as [? ?]. split; by apply String.eqb_neq.
Qed.

(** The statement of an event: it inserts a row with its key, finds that there is
    one, or fails without effect. *)
Definition created_spec (n : nat) (key : string) (c : Catalog) (r : result run_error UpstreamEvent * Catalog) : Prop :=
  events_ok (S n) r.2 /\ events_kept c r.2 /\
  match r.1 with
  | Ok e => has_key r.2 key /\ ~ has_key c key
  | Err e => r.2 = c /\ (is_duplicate e = true -> has_key c key)
  end.

Lemma created_same n key c e : events_ok n c -> (is_duplicate e = true -> has_key c key) -> created_spec n key c (Err e, c).
Proof. intros Hok Hd. split_and!; cbn; [eapply events_ok_later; [|done]; lia|apply events_kept_refl|done]. Qed.

Lemma insert_event_spec n c e : (forall m n, newUpstreamEventID (random E m) = newUpstreamEventID (random E n) -> m = n) ->
  events_ok n c -> eID e = newUpstreamEventID (random E n) -> created_spec n (eDedupeKey e) c (insert_event e c).
Proof.
  intros Hids Hok Hid. unfold insert_event. destruct (negb (event_row_ok e)); [by apply created_same|].
  destruct (event_taken e (upstream_events c)) eqn:Et.
  - apply created_same; [done|]. intros _. unfold event_taken in Et. apply existsb_elem in Et as (e' & Hin & Hor).
    apply elem_of_table_rows in Hin as [id He']. apply orb_true_iff in Hor as [Hor|Hor]; apply String.eqb_eq in Hor.
    + pose proof (ev_keyed n c Hok _ _ He') as Hk. rewrite Hor, Hid in Hk. subst id.
      rewrite (ev_fresh n c Hok n) in He' by lia. done.
    + by exists id, e'.
  - destruct (negb (bool_decide _)); [by apply created_same|]. pose proof (not_taken _ _ Et) as Hn.
    split_and!; cbn [snd fst].
    + split; cbn [upstream_events set_upstream_events].
      * intros id e' [[<- <-]|[_ He']]%lookup_insert_Some; [done|]. by apply (ev_keyed n c Hok).
      * intros id1 id2 e1 e2 [[<- <-]|[H1 He1]]%lookup_insert_Some [[<- <-]|[H2 He2]]%lookup_insert_Some Hd; [done|..].
        -- by apply Hn in He2 as [_ ?].
        -- by apply Hn in He1 as [_ ?].
        -- by apply (ev_unique n c Hok _ _ _ _ He1 He2).
      * intros m Hm. apply lookup_insert_None. split; [apply (ev_fresh n c Hok); lia|].
        intros Heq. rewrite Hid in Heq. apply Hids in Heq. lia.
    + intros id e' He'. exists e'. split; [|done]. cbn [upstream_events set_upstream_events]. rewrite lookup_insert_ne; [done|].
      intros <-. destruct (Hn _ _ He') as [Hne _]. by rewrite (ev_keyed n c Hok _ _ He') in Hne.
    + split; [exists (eID e), e; cbn; by rewrite lookup_insert_eq|]. intros (id & e' & He' & Hd). by apply Hn in He' as [_ ?].
Qed.

Lemma CreateUpstreamEvent_spec n now bucketID event c :
  (forall m n, newUpstreamEventID (random E m) = newUpstreamEventID (random E n) -> m = n) -> events_ok n c ->
  created_spec n (event_key bucketID event) c (CreateUpstreamEvent (random E n) now (event_params bucketID event) c).
Proof.
  intros Hids Hok. unfold CreateUpstreamEvent. destruct (String.eqb _ ""); [by apply created_same|].
  destruct (encodeJobRunPayload _) as [envelope|]; [|by apply created_same].
  cbn [of_result mbind M_bind]. by apply (insert_event_spec n c (mkEvent _ _ _ _ _ _ _ _ _ _ _ _ _ _)).
Qed.

(** ** The statements in the world *)
Context (EE : events_env).

Definition at_world (w : World) : Prop := events_ok (clock w) (catalog (store w)).
Definition kept_since (c : Catalog) (w : World) : Prop := at_world w /\ events_kept c (catalog (store w)).

Lemma create_event_spec bucketID event c w : kept_since c w ->
  let key := event_key bucketID event in
  let '(r, w') := create_event E bucketID event w in
  kept_since c w' /\
  match r with
  | Ok e => has_key (catalog (store w')) key /\ ~ has_key c key
  | Err e => is_duplicate e = true -> has_key (catalog (store w')) key
  end.
Proof.
  intros [Hw Hc] key. unfold create_event, stmt. set (s := others E (clock w) (store w)).
  destruct (ee_others EE _ _ Hw) as [Hs Hk]. fold s in Hs, Hk.
  assert (events_kept c (catalog s)) as Hcs by (by eapply events_kept_trans).
  rewrite on_catalog_eq. pose proof (CreateUpstreamEvent_spec (clock w) (db_now E (clock w)) bucketID event (catalog s) (ee_ids EE) Hs) as (H1 & H2 & H3).
  assert (events_kept c (CreateUpstreamEvent (random E (clock w)) (db_now E (clock w)) (event_params bucketID event) (catalog s)).2) as H4
    by (by eapply events_kept_trans).
  destruct (fault E (clock w)) as [[e|e]|] eqn:Ef.
  - split; [split; [apply (events_ok_later (clock w)); [cbn; lia|exact Hs]|done]|].
    intros Hd. cbn in Hd. rewrite (ee_fault EE _ e) in Hd by (left; exact Ef). done.
  - split; [by split|]. intros Hd. cbn in Hd. rewrite (ee_fault EE _ e) in Hd by (right; exact Ef). done.
  - destruct (CreateUpstreamEvent _ _ _ _) as [[e|e] c']; cbn [fst snd] in *.
    + split; [by split|]. destruct H3 as [H3 H5]. split; [done|]. intros Hkey. apply H5. by eapply has_key_kept.
    + destruct H3 as [-> H3]. split; [by split|]. intros Hd. cbn. auto.
Qed.

(** The state of the loop after the events [pre]. *)
Definition ingested (bucketID : string) (c : Catalog) (pre : list NormalizedEvent) (result : IngestUpstreamEventsResult)
    (w : World) : Prop :=
  kept_since c w /\ (forall event, event ∈ pre -> has_key (catalog (store w)) (event_key bucketID event)) /\
  Accepted result + Duplicate result = Z.of_nat (List.length pre) /\ Ignored result = 0 /\
  Z.of_nat (List.length (EventIDs result)) = Accepted result /\
  ((forall event, event ∈ pre -> has_key c (event_key bucketID event)) -> Accepted result = 0).

Lemma ingest_event_triple bucketID c pre event result : actionable event ->
  triple (ingested bucketID c pre result) (ingest_event E bucketID result event)
    (fun result w => ingested bucketID c (pre ++ [event]) result w) (fun _ => kept_since c).
Proof.
  intros [_ Ha] w (Hk & Hpre & Hn & Hig & Hids & Hold). unfold ingest_event. rewrite bool_decide_eq_false_2 by done.
  pose proof (create_event_spec bucketID event (catalog (store w)) w) as Hmid.
  pose proof (create_event_spec bucketID event c w Hk) as Hs. cbv zeta in Hs, Hmid.
  destruct (create_event E bucketID event w) as [r w']. destruct Hs as [Hk' Hr].
  assert (forall result', has_key (catalog (store w')) (event_key bucketID event) ->
    Accepted result' + Duplicate result' = Accepted result + Duplicate result + 1 -> Ignored result' = Ignored result ->
    Z.of_nat (List.length (EventIDs result')) = Accepted result' ->
    (has_key c (event_key bucketID event) -> Accepted result' = Accepted result) ->
    ingested bucketID c (pre ++ [event]) result' w') as Hnext.
  { intros result' Hkey Hsum Hi Hl Hd. split; [exact Hk'|]. split_and!; [|rewrite length_app; cbn; lia|congruence|done|].
    - destruct Hmid as [[_ Hmid] _]; [split; [apply Hk|apply events_kept_refl]|].
      intros event' [Hin| ->%list_elem_of_singleton]%elem_of_app; [|done]. eapply has_key_kept; [by apply Hpre|done].
    - intros Hall. rewrite Hd by (apply Hall, elem_of_app; right; by left). apply Hold. intros event' Hin. apply Hall, elem_of_app. by left. }
  destruct r as [created|e].
  - apply Hnext; cbn; [apply Hr|lia|done|rewrite length_app; cbn; lia|]. intros Hkey. destruct Hr as [_ Hr]. done.
  - destruct (is_duplicate e) eqn:Hd; [|exact Hk']. apply Hnext; cbn; [by apply Hr|lia|done|done|done].
Qed.

Lemma IngestS3Notification_triple bucketID body c events : Parse body = Ok events ->
  triple (kept_since c) (IngestS3Notification E body bucketID)
    (fun result w => ingested bucketID c events result w) (fun _ => kept_since c).
Proof.
  intros Hp. unfold IngestS3Notification. destruct (String.eqb _ ""); [intros w Hw; exact Hw|].
  intros w Hw. unfold parsed, mbind, M_bind. rewrite Hp.
  pose proof (Parse_ends body) as Hends. rewrite Hp in Hends. cbn in Hends.
  apply (triple_for_acc (fun pre result => ingested bucketID c pre result)).
  - intros pre event suf result ->. apply ingest_event_triple. rewrite list.Forall_forall in Hends. apply Hends, elem_of_app. right. by left.
  - split; [exact Hw|]. split_and!; try done. intros event Hin. by apply elem_of_nil in Hin.
Qed.

(** C19: a message that JetStream delivers again and again, until it is acknowledged,
    ends up in the table exactly once: after the acknowledgement every event of it
    has one row with its deduplication key, whatever failed before, no other row is
    lost, and delivering the message once more accepts nothing. *)
Theorem delivered_once k bucketID data events w w' :
  Parse data = Ok events -> at_world w -> deliver k bucketID data w = (Ack, w') ->
  events_kept (catalog (store w)) (catalog (store w')) /\
  (forall event, event ∈ events -> exists! id, exists e,
     upstream_events (catalog (store w')) !! id = Some e /\ eDedupeKey e = event_key bucketID event) /\
  (forall result w'', IngestS3Notification E data bucketID w' = (Ok result, w'') ->
     Accepted result = 0 /\ Duplicate result = Z.of_nat (List.length events)).
Proof.
intros Hp Hw. cut (forall c, kept_since c w -> deliver k bucketID data w = (Ack, w') ->
  kept_since c w' /\ forall event, event ∈ events -> has_key (catalog (store w')) (event_key bucketID event)).
- intros H0 Hd. destruct (H0 (catalog (store w))) as [[Hok Hk] Hkeys]; [by split; [|apply events_kept_refl]|done|].
  split_and!; [done| |].
  + intros event Hin. destruct (Hkeys event Hin) as (id & e & He & Hkey). exists id. split; [by exists e|].
    intros id' (e' & He' & Hkey'). apply (ev_unique _ _ Hok _ _ _ _ He He'). congruence.
  + intros result w'' Hi. assert (kept_since (catalog (store w')) w') as Hw' by (split; [done|apply events_kept_refl]).
    pose proof (triple_Ok _ _ _ _ _ _ _ (IngestS3Notification_triple bucketID data _ events Hp) Hw' Hi) as (_ & _ & Hn & _ & _ & H1).
    specialize (H1 Hkeys). lia.
- clear Hw. revert w. induction k as [|k IH]; intros w c Hw; [done|]. cbn [deliver]. unfold handleMessage.
  pose proof (IngestS3Notification_triple bucketID data c events Hp w Hw) as Hi.
  destruct (IngestS3Notification E data bucketID w) as [[result|e] w1]; cbn [post] in Hi.
  + intros [= <-]. split; [apply Hi|]. apply Hi.
  + by apply IH.
Qed.
End Delivered.

(** ** A record of an S3 notification

    The connection is lost after the first delivery has written its row; the second
    one finds the row. *)

Fixpoint requote (s : string) : string :=
  match s with
  | EmptyString => ""
  | String c s => String (if Ascii.eqb c "'" then byte_of 34 else c) (requote s)
  end.

Definition demo_message : string := requote
  "{'Records':[{'eventSource':'aws:s3','eventName':'ObjectCreated:Put','eventTime':'2024-05-01T10:00:00.000Z','s3':{'bucket':{'name':'photos'},'object':{'key':'a%2Fb+c.jpg','size':3,'eTag':'5d41'}}}]}".

Definition demo_event_env : Env :=
  mkEnv (fun _ s => s) (fun n => if Nat.eqb n 0 then Some (FaultAfter (Errorf "connection lost")) else None)
    (fun _ => None) (fun n => Z.of_nat n) (fun _ => zeroTime) (fun n => repeat 0 n) (fun _ => Err (Errorf "no client")).

Definition demo_event_bucket : Bucket :=
  mkBucket "b" "bucket" "s3" "" "" "photos" "" ∅ (mkEnvelope "" "" "" "") (mkScanConfig None "") 0 0.
Definition demo_event_world : World :=
  mkWorld 0 (mkStore empty_db (mkCatalog {["b" := demo_event_bucket]} ∅ ∅ ∅ ∅ ∅)) newSyncExecutionState.

Definition demo_event_order : MapOrder := {| range_keys := fun _ l => l; range_keys_perm := fun _ l => Permutation_refl _ |}.

Notation demo_parsed := (@Parse demo_event_order demo_message).
Notation demo_delivery := (@deliver demo_event_order demo_event_env 5 "b" demo_message demo_event_world).

Example demo_event_key :
  match demo_parsed with Ok [event] => Some (neKey event, neAction event) | _ => None end = Some ("a/b c.jpg", EventActionImport).
Proof. vm_compute. reflexivity. Qed.

Lemma hex_encode_zeros_length n : String.length (hex_encode (repeat 0 n)) = (2 * n)%nat.
Proof. induction n as [|n IH]; [done|]. cbn. rewrite IH. lia. Qed.

Lemma demo_ids m n : newUpstreamEventID (repeat 0 m) = newUpstreamEventID (repeat 0 n) -> m = n.
Proof.
unfold newUpstreamEventID. intros H%string_app_inj_l. apply (f_equal String.length) in H. rewrite !hex_encode_zeros_length in H. lia.
Qed.

Lemma demo_events_env : events_env demo_event_env.
Proof.
split.
- intros m n. apply demo_ids.
- intros n s Hs. split; [exact Hs|apply events_kept_refl].
- intros n e [H|H]; unfold fault, demo_event_env in H; destruct (Nat.eqb n 0); simplify_eq; reflexivity.
Qed.

Lemma demo_parsed_ok : is_ok demo_parsed = true.
Proof. vm_compute. reflexivity. Qed.
Lemma demo_delivery_ack : demo_delivery.1 = Ack.
Proof. vm_compute. reflexivity. Qed.

Lemma demo_at_world : at_world demo_event_env demo_event_world.
Proof. split; cbn [upstream_events catalog store demo_event_world]; intros; [done|done|reflexivity]. Qed.

Lemma delivered_once_witness :
  exists events w', demo_parsed = Ok events /\ demo_delivery = (Ack, w') /\
    forall event, event ∈ events -> exists! id, exists e,
      upstream_events (catalog (store w')) !! id = Some e /\ eDedupeKey e = event_key "b" event.
Proof.
pose proof demo_parsed_ok as H1. pose proof demo_delivery_ack as H2.
destruct demo_parsed as [events|e] eqn:Hp; [|discriminate H1]. destruct demo_delivery as [a w'] eqn:Hd. cbn [fst] in H2. subst a.
exists events, w'. split; [reflexivity|]. split; [reflexivity|].
exact (proj1 (proj2 (@delivered_once demo_event_order demo_event_env demo_events_env 5 "b" demo_message events demo_event_world w'
  Hp demo_at_world Hd))).
Defined.

(** * The loop of a consumer

    [Run] of the JetStream consumer (apps/worker/internal/jetstreamconsumer/consumer.go):
    it connects, sets up its durable consumer, and fetches messages in batches, each of
    which it ingests and acknowledges or refuses.  The NATS server is a
    parameter: the answers to the calls, those of [Fetch] by the number of the call.  The loop
    ends when its context is cancelled or a fetch fails; here it is given a number of
    fetches. *)

(** The errors that the code looks at, and the others. *)
Inductive nats_error :=
| ErrConsumerNameAlreadyInUse
| ErrTimeout
| DeadlineExceeded
| ContextCanceled
| OtherError (message : string).
#[export] Instance nats_error_eq_dec : EqDecision nats_error. Proof. solve_decision. Defined.

Definition defaultAckWait : Z := 30 * 1000000000.

Record ConsumerConfig := mkConsumerConfig { Durable : string; FilterSubject : string; AckWait : Z; MaxDeliver : Z }.

(** A message, or nil; only its data matters. *)
Notation Msg := (option string).

Record Broker := mkBroker {
  nats_Connect : string -> option nats_error;
  nats_JetStream : option nats_error;
  nats_AddConsumer : string -> ConsumerConfig -> option nats_error;
  nats_UpdateConsumer : string -> ConsumerConfig -> option nats_error;
  nats_PullSubscribe : string -> string -> string -> option nats_error;
  nats_Fetch : nat -> result nats_error (list Msg);
  ctx_Err : nat -> option nats_error
}.

(** What [Run] returns: nil or an error, with the call that failed. *)
Inductive consumer_result := ContextErr (err : option nats_error) | CallFailed (call : string) (err : nats_error) | StillRunning.

Definition ensureConsumer (B : Broker) (stream consumer subject : string) : option nats_error :=
  let cfg := mkConsumerConfig consumer subject defaultAckWait 5 in
  match nats_AddConsumer B stream cfg with
  | None => None
  | Some err => if bool_decide (err = ErrConsumerNameAlreadyInUse) then nats_UpdateConsumer B stream cfg else Some err
  end.

(** What was answered, in order: the data of a message and the answer. *)
Notation answers := (list (string * Acknowledgement)).

Section Run.
Context `{MapOrder} (E : Env) (B : Broker).

(** A message, if it is not nil, is handled and answered. *)
Definition answer (bucketID : string) (s : answers * World) (msg : Msg) : answers * World :=
  match msg with
  | None => s
  | Some data => let '(a, w) := handleMessage E bucketID data s.2 in (s.1 ++ [(data, a)], w)
  end.

(** The loop, for [fuel] fetches from the [n]-th on. *)
Fixpoint fetch_loop (fuel n : nat) (bucketID : string) (s : answers * World) : consumer_result * (answers * World) :=
  match fuel with
  | O => (StillRunning, s)
  | S fuel =>
      match nats_Fetch B n with
      | Ok msgs => fetch_loop fuel (S n) bucketID (fold_left (answer bucketID) msgs s)
      | Err err =>
          if bool_decide (err = DeadlineExceeded) || bool_decide (err = ErrTimeout) then fetch_loop fuel (S n) bucketID s
          else if bool_decide (err = ContextCanceled) || bool_decide (ctx_Err B n <> None) then (ContextErr (ctx_Err B n), s)
          else (CallFailed "fetch jetstream messages" err, s)
      end
  end.

Definition ConsumerRun (fuel : nat) (c : JetStreamConsumer) (w : World) : consumer_result * (answers * World) :=
  match nats_Connect B (cnURL c) with
  | Some err => (CallFailed "connect nats" err, ([], w))
  | None =>
      match nats_JetStream B with
      | Some err => (CallFailed "create jetstream context" err, ([], w))
      | None =>
          match ensureConsumer B (cnStream c) (cnConsumer c) (cnSubject c) with
          | Some err => (CallFailed "ensure jetstream consumer" err, ([], w))
          | None =>
              match nats_PullSubscribe B (cnSubject c) (cnConsumer c) (cnStream c) with
              | Some err => (CallFailed "pull subscribe jetstream consumer" err, ([], w))
              | None => fetch_loop fuel 0 (cnBucketID c) ([], w)
              end
          end
      end
  end.

(** ** Acknowledged messages are stored *)

Context (EE : events_env E).

(** The events of the acknowledged messages are in the table. *)
Definition stored (bucketID : string) (c : Catalog) (s : answers * World) : Prop :=
  kept_since E c s.2 /\
  forall data, (data, Ack) ∈ s.1 -> exists events, Parse data = Ok events /\
    forall event, event ∈ events -> has_key (catalog (store s.2)) (event_key bucketID event).

Lemma handleMessage_stored bucketID data c w : kept_since E c w ->
  let '(a, w') := handleMessage E bucketID data w in
  kept_since E c w' /\ events_kept (catalog (store w)) (catalog (store w')) /\
  (a = Ack -> exists events, Parse data = Ok events /\ forall event, event ∈ events -> has_key (catalog (store w')) (event_key bucketID event)).
Proof.
  intros Hw. assert (kept_since E (catalog (store w)) w) as Hself by (split; [apply Hw|apply events_kept_refl]).
  unfold handleMessage. destruct (Parse data) as [events|e] eqn:Hp.
  - pose proof (IngestS3Notification_triple E EE bucketID data c events Hp w Hw) as H1.
    pose proof (IngestS3Notification_triple E EE bucketID data _ events Hp w Hself) as H2.
    destruct (IngestS3Notification E data bucketID w) as [[result|e] w']; cbn [post] in H1, H2.
    + destruct H1 as (H1 & Hkeys & _), H2 as ([_ H2] & _). split_and!; [done..|]. intros _. by exists events.
    + split_and!; [exact H1|apply H2|done].
  - assert (exists e', IngestS3Notification E data bucketID w = (Err e', w)) as [e' ->].
    { unfold IngestS3Notification. destruct (String.eqb _ ""); [by eexists|]. exists e. unfold parsed, mbind, M_bind. by rewrite Hp. }
    split_and!; [exact Hw|apply events_kept_refl|done].
Qed.

Lemma answer_stored bucketID c s msg : stored bucketID c s -> stored bucketID c (answer bucketID s msg).
Proof.
  intros [Hk Hs]. destruct msg as [data|]; [|done]. unfold answer.
  pose proof (handleMessage_stored bucketID data c s.2 Hk) as Hm. destruct (handleMessage E bucketID data s.2) as [a w'].
  destruct Hm as (Hk' & Hkept & Hack). split; [exact Hk'|]. cbn [fst snd]. intros data' [Hin|Hin]%elem_of_app.
  - destruct (Hs data' Hin) as (events & Hp & Hkeys). exists events. split; [done|]. intros event He. eapply has_key_kept; [by apply Hkeys|done].
  - apply list_elem_of_singleton in Hin as [= -> <-]. by apply Hack.
Qed.

Lemma answers_stored bucketID c msgs : forall s, stored bucketID c s -> stored bucketID c (fold_left (answer bucketID) msgs s).
Proof. induction msgs as [|msg msgs IH]; intros s Hs; cbn; [done|]. by apply IH, answer_stored. Qed.

Lemma answers_messages bucketID msgs : forall s,
  (fold_left (answer bucketID) msgs s).1.*1 = s.1.*1 ++ omap (fun msg => msg) msgs.
Proof.
  induction msgs as [|[data|] msgs IH]; intros s; cbn [fold_left omap list_omap]; [by rewrite app_nil_r|rewrite IH|by rewrite IH].
  unfold answer. destruct (handleMessage E bucketID data s.2) as [a w']. cbn [fst]. rewrite fmap_app. by rewrite <- app_assoc.
Qed.

(** The messages of the first fetches from the [n]-th on. *)
Fixpoint fetched (k n : nat) : list string :=
  match k with
  | O => []
  | S k => match nats_Fetch B n with Ok msgs => omap (fun msg => msg) msgs | Err _ => [] end ++ fetched k (S n)
  end.

Lemma fetch_loop_spec bucketID c fuel : forall n s, stored bucketID c s ->
  let '(r, s') := fetch_loop fuel n bucketID s in
  stored bucketID c s' /\ (exists k, (k <= fuel)%nat /\ s'.1.*1 = s.1.*1 ++ fetched k n /\ (r = StillRunning -> k = fuel)) /\
  (forall err, r = ContextErr err -> exists m, err = ctx_Err B m /\ (err = None -> nats_Fetch B m = Err ContextCanceled)).
Proof.
  induction fuel as [|fuel IH]; intros n s Hs; cbn [fetch_loop].
  { split; [done|]. split; [exists 0%nat|done]. cbn. rewrite app_nil_r. by split_and!. }
  destruct (nats_Fetch B n) as [msgs|err] eqn:Hf.
  - specialize (IH (S n) (fold_left (answer bucketID) msgs s) (answers_stored bucketID c msgs s Hs)).
    destruct (fetch_loop fuel (S n) bucketID _) as [r s']. destruct IH as (Hs' & (k & Hk & Hm & Hr) & Herr). split; [done|]. split; [|done].
    exists (S k). cbn [fetched]. rewrite Hf, app_assoc, <- (answers_messages bucketID). split; [lia|]. split; [done|]. intros ?. by rewrite Hr.
  - destruct (bool_decide (err = DeadlineExceeded) || bool_decide (err = ErrTimeout)).
    + specialize (IH (S n) s Hs). destruct (fetch_loop fuel (S n) bucketID s) as [r s'].
      destruct IH as (Hs' & (k & Hk & Hm & Hr) & Herr). split; [done|]. split; [|done].
      exists (S k). cbn [fetched]. rewrite Hf. split; [lia|]. split; [done|]. intros ?. by rewrite Hr.
    + assert (exists k, (k <= S fuel)%nat /\ s.1.*1 = s.1.*1 ++ fetched k n /\ k = 0%nat) as (k & Hk & Hm & H0)
        by (exists 0%nat; cbn; rewrite app_nil_r; split_and!; [lia|done|done]).
      destruct (bool_decide (err = ContextCanceled) || bool_decide (ctx_Err B n <> None)) eqn:Hc;
        (split; [done|]; split; [exists k; split_and!; [done|done|intros [=]]|]); [|done].
      intros err' [= <-]. exists n. split; [done|]. intros Hnone. rewrite Hnone in Hc. case_bool_decide; [by subst|done].
Qed.

(** C39: a consumer acknowledges a message only after all its events are in the table, where
    they stay, whatever the server answers, which statements fail and what other transactions
    do; it answers every message that it fetched, once and in order; and it ends only with
    its context or with a call that failed. *)
Theorem acknowledged_stored fuel consumer w :
  at_world E w ->
  let '(r, (answered, w')) := ConsumerRun fuel consumer w in
  events_kept (catalog (store w)) (catalog (store w')) /\
  (forall data, (data, Ack) ∈ answered -> exists events, Parse data = Ok events /\
     forall event, event ∈ events -> exists! id, exists e,
       upstream_events (catalog (store w')) !! id = Some e /\ eDedupeKey e = event_key (cnBucketID consumer) event) /\
  (exists k, (k <= fuel)%nat /\ answered.*1 = fetched k 0 /\ (r = StillRunning -> k = fuel)) /\
  (forall err, r = ContextErr err -> exists n, err = ctx_Err B n /\ (err = None -> nats_Fetch B n = Err ContextCanceled)).
Proof.
  intros Hw. assert (stored (cnBucketID consumer) (catalog (store w)) ([], w)) as H0.
  { split; [by split; [|apply events_kept_refl]|]. by intros data ?%not_elem_of_nil. }
  assert (let '(r, s') := ConsumerRun fuel consumer w in
    stored (cnBucketID consumer) (catalog (store w)) s' /\ (exists k, (k <= fuel)%nat /\ s'.1.*1 = fetched k 0 /\ (r = StillRunning -> k = fuel)) /\
    (forall err, r = ContextErr err -> exists m, err = ctx_Err B m /\ (err = None -> nats_Fetch B m = Err ContextCanceled))) as Hrun.
  { assert (forall call err, let '(r, s') := (CallFailed call err, ([], w)) : consumer_result * (answers * World) in
      stored (cnBucketID consumer) (catalog (store w)) s' /\ (exists k, (k <= fuel)%nat /\ s'.1.*1 = fetched k 0 /\ (r = StillRunning -> k = fuel)) /\
      (forall err', r = ContextErr err' -> exists m, err' = ctx_Err B m /\ (err' = None -> nats_Fetch B m = Err ContextCanceled))) as Hfail
      by (intros call err; split; [done|]; split; [exists 0%nat; split; [lia|done]|done]).
    unfold ConsumerRun. destruct (nats_Connect B _); [apply Hfail|]. destruct (nats_JetStream B); [apply Hfail|].
    destruct (ensureConsumer B _ _ _); [apply Hfail|]. destruct (nats_PullSubscribe B _ _ _); [apply Hfail|].
    exact (fetch_loop_spec (cnBucketID consumer) (catalog (store w)) fuel 0 ([], w) H0). }
  destruct (ConsumerRun fuel consumer w) as [r [answered w']]. destruct Hrun as ([[Hok Hk] Hs] & Hm & Herr). cbn [fst snd] in *.
  split; [done|]. split; [|by split]. intros data Hin. destruct (Hs data Hin) as (events & Hp & Hkeys). exists events. split; [done|].
  intros event He. destruct (Hkeys event He) as (id & e & Hid & Hkey). exists id. split; [by exists e|].
  intros id' (e' & He' & Hkey'). apply (ev_unique E _ _ Hok _ _ _ _ Hid He'). congruence.
Qed.
End Run.

(** ** The message of EventIngest.v, fetched twice: the first statement fails *)

Definition demo_broker : Broker :=
  mkBroker (fun _ => None) None (fun _ _ => Some ErrConsumerNameAlreadyInUse) (fun _ _ => None) (fun _ _ _ => None)
    (fun n => match n with 0%nat => Ok [Some demo_message] | 1%nat => Err ErrTimeout | 2%nat => Ok [None; Some demo_message] | _ => Err ContextCanceled end)
    (fun n => if Nat.ltb n 3 then None else Some ContextCanceled).

Definition demo_consumer : JetStreamConsumer := mkConsumer "b" "nats://n" "s" "x" "pithosys-b".
Notation demo_run := (@ConsumerRun demo_event_order demo_event_env demo_broker 9 demo_consumer demo_event_world).

Example demo_run_result : (demo_run.1, demo_run.2.1) = (ContextErr (Some ContextCanceled), [(demo_message, Nak); (demo_message, Ack)]).
Proof. vm_compute. reflexivity. Qed.

Lemma acknowledged_stored_witness :
  at_world demo_event_env demo_event_world /\ (demo_message, Ack) ∈ demo_run.2.1 /\
  exists events, @Parse demo_event_order demo_message = Ok events /\ forall event, event ∈ events -> exists! id, exists e,
    upstream_events (catalog (store demo_run.2.2)) !! id = Some e /\ eDedupeKey e = event_key "b" event.
Proof.
  pose proof (@acknowledged_stored demo_event_order demo_event_env demo_broker demo_events_env 9 demo_consumer demo_event_world demo_at_world) as H.
  pose proof demo_run_result as Hr. destruct demo_run as [r [answered w']]. cbn [fst snd] in *. destruct H as (_ & H & _ & _).
  assert ((demo_message, Ack) ∈ answered) as Hin by (injection Hr as _ ->; set_solver).
  split; [exact demo_at_world|]. split; [exact Hin|]. exact (H demo_message Hin).
Defined.
