(* ===== verification/EventProcessor.v ===== *)
(** * EventProcessor

    The jobs that pending events call for: apps/worker/internal/upstreamprocessor
    (map_job.go, coalesce.go and the [Tick] of processor.go).

    A pass is one transaction on the rows it locked; it is one step here. *)
From S2P Require Import Prelude GoStrings GoTime JobPayload JobRuns ErrState Catalog Buckets ObjectStore ObjectPlan UpstreamEvents.
From S2P Require Import Notifications JobRunProofs.
Local Open Scope Z_scope.

(** ** map_job.go *)

Definition JobTypeForEventName (eventName : string) : option string :=
  if HasPrefix eventName "ObjectCreated:" || HasPrefix eventName "s3:ObjectCreated:" then Some JobTypeImportObjects
  else if HasPrefix eventName "ObjectRemoved:" || HasPrefix eventName "s3:ObjectRemoved:" then Some JobTypeRemoveObjects
  else if Contains eventName "Tagging" || HasPrefix eventName "ObjectAcl:" then Some JobTypeRefreshObjects
  else None.

(** ** coalesce.go *)

Record CoalesceInput := mkCoalesce {
  ciEventID : string; ciBucketID : string; ciKey : string; ciJobType : string; ciObjectID : string
}.
Record CoalescedMutation := mkCoalesced {
  cmBucketID : string; cmKey : string; cmJobType : string; cmObjectID : string; cmEventIDs : list string
}.
Record MutationJobGroup := mkGroup { mgBucketID : string; mgJobType : string; mgMutations : list CoalescedMutation }.

Definition mutation_key (input : CoalesceInput) : string * string := (ciBucketID input, ciKey input).

Definition CoalesceMutations (inputs : list CoalesceInput) : list CoalescedMutation :=
  group_by mutation_key
    (fun input => mkCoalesced (ciBucketID input) (ciKey input) "" "" [])
    (fun current input => mkCoalesced (cmBucketID current) (cmKey current) (ciJobType input) (ciObjectID input)
       (cmEventIDs current ++ [ciEventID input])) inputs.

Definition group_key (mutation : CoalescedMutation) : string * string := (cmBucketID mutation, cmJobType mutation).

Definition GroupMutationsByJob (mutations : list CoalescedMutation) : list MutationJobGroup :=
  group_by group_key
    (fun mutation => mkGroup (cmBucketID mutation) (cmJobType mutation) [])
    (fun group mutation => mkGroup (mgBucketID group) (mgJobType group) (mgMutations group ++ [mutation])) mutations.

(** ** processor.go *)

Definition defaultProcessorBatchSize : Z := 100.
Definition defaultMutationJobBatchSize : Z := 100.

Definition or_default (n d : Z) : Z := if n <=? 0 then d else n.

(** [errors.Is(err, storage.ErrNotFound)]. *)
Definition not_found (e : run_error) : bool := match e with Failure e => IsNotFound e | OutOfFuel => false end.

(** A statement whose error the code looks at. *)
Definition attempt {S A} (m : M S A) : M S (result run_error A) := fun s => let '(r, s') := m s in (Ok r, s').

Section Processor.
(** [random k]: the bytes drawn for the [k]-th job of the pass; [now]: the time of the
    transaction; [locked]: the rows that other transactions hold. *)
Context (batchSize mutationBatchSize : Z) (random : nat -> list Z) (now : Z) (locked : gset string).

Definition mark (id : string) (state : UpstreamEventState) (message : string) : M Store unit :=
  on_catalog (MarkUpstreamEvent now (mkMark id state message)).

(** The first loop: the inputs gathered, and the number of events skipped. *)
Definition process_event (acc : list CoalesceInput * Z) (event : UpstreamEvent) : M Store (list CoalesceInput * Z) :=
  let '(inputs, processed) := acc in
  let skip message := _ ← mark (eID event) EventSkipped message; mret (inputs, processed + 1) in
  bucket ← attempt (on_catalog (GetBucket (eBucketID event)));
  match bucket with
  | Err e => if not_found e then skip "bucket_not_found" else fail e
  | Ok bucket =>
      match JobTypeForEventName (eEventName event) with
      | None => skip "unsupported_event_name"
      | Some jobType =>
          let input objectID := mkCoalesce (eID event) (bID bucket) (eObjectKey event) jobType objectID in
          if String.eqb jobType JobTypeRemoveObjects || String.eqb jobType JobTypeRefreshObjects then
            object ← attempt (on_catalog (GetObjectByBucketAndKey (bID bucket) (eObjectKey event)));
            match object with
            | Err e => if not_found e then skip "object_not_found" else fail e
            | Ok object => mret (inputs ++ [input (oID object)], processed)
            end
          else mret (inputs ++ [input ""], processed)
      end
  end.

Definition mutation_evidence (mutation : CoalescedMutation) : ObjectEvidence :=
  mkEvidence (cmObjectID mutation) (cmKey mutation) "" "" 0 "" "".

Definition mutationEvidenceBatches (objects : list ObjectEvidence) (size : Z) : list (list ObjectEvidence) := batches objects size.

Definition event_job_params (group : MutationJobGroup) (batch : list ObjectEvidence) : CreateJobRunParams :=
  mkCreate (mgJobType group) "" "upstream_event" "" "bucket" (mgBucketID group)
    (PayloadFrom (mutation_input_json (mkMutationInput (mgBucketID group) batch ""))) 0 None.

(** [k] jobs were created before. *)
Definition enqueueMutationGroup (k : nat) (group : MutationJobGroup) : M Store nat :=
  for_acc (fun k batch => _ ← on_jobs (CreateJobRun (random k) now (event_job_params group batch)); mret (S k)) k
    (mutationEvidenceBatches (map mutation_evidence (mgMutations group)) (or_default mutationBatchSize defaultMutationJobBatchSize)).

(** The marks of the events of a mutation. *)
Definition mark_mutation (processed : Z) (mutation : CoalescedMutation) : M Store Z :=
  for_acc (fun processed eventID => _ ← mark eventID EventProcessed ""; mret (processed + 1)) processed (cmEventIDs mutation).

Definition process_group (acc : nat * Z) (group : MutationJobGroup) : M Store (nat * Z) :=
  k ← enqueueMutationGroup acc.1 group;
  processed ← for_acc mark_mutation acc.2 (mgMutations group);
  mret (k, processed).

Definition processLockedEvents (events : list UpstreamEvent) : M Store Z :=
  gathered ← for_acc process_event ([], 0) events;
  final ← for_acc process_group (0%nat, gathered.2) (GroupMutationsByJob (CoalesceMutations gathered.1));
  mret final.2.

Definition Tick : M Store Z :=
  WithTx (
    events ← on_catalog (LockPendingEvents locked (or_default batchSize defaultProcessorBatchSize));
    match events with
    | [] => mret 0
    | _ => processLockedEvents events
    end).
End Processor.

(** ** What is coalesced *)

Lemma coalesce_fold l current :
  fold_left (fun current input => mkCoalesced (cmBucketID current) (cmKey current) (ciJobType input) (ciObjectID input)
       (cmEventIDs current ++ [ciEventID input])) l current =
  mkCoalesced (cmBucketID current) (cmKey current) (default (cmJobType current) (ciJobType <$> list.last l))
    (default (cmObjectID current) (ciObjectID <$> list.last l)) (cmEventIDs current ++ map ciEventID l).
Proof.
  revert current. induction l as [|x l IH] using rev_ind; intros current; [cbn; rewrite app_nil_r; by destruct current|].
  rewrite fold_left_app, IH, list.last_snoc, map_app. cbn. by rewrite app_assoc.
Qed.

Lemma group_fold l group :
  fold_left (fun group mutation => mkGroup (mgBucketID group) (mgJobType group) (mgMutations group ++ [mutation])) l group =
  mkGroup (mgBucketID group) (mgJobType group) (mgMutations group ++ l).
Proof.
  revert group. induction l as [|x l IH]; intros group; cbn; [rewrite app_nil_r; by destruct group|]. rewrite IH. cbn. by rewrite <- app_assoc.
Qed.

(** Every event is in one mutation of one group. *)
Definition group_events (group : MutationJobGroup) : list string := List.concat (map cmEventIDs (mgMutations group)).

Lemma concat_singletons {A B} (f : A -> B) l : List.concat (map (fun a => [f a]) l) = map f l.
Proof. induction l as [|a l IH]; [done|]. cbn. by rewrite IH. Qed.

Lemma groups_events inputs :
  List.concat (map group_events (GroupMutationsByJob (CoalesceMutations inputs))) ≡ₚ map ciEventID inputs.
Proof.
  unfold GroupMutationsByJob. rewrite (group_by_field _ _ _ group_events cmEventIDs).
  - unfold CoalesceMutations. rewrite (group_by_field _ _ _ cmEventIDs (fun input => [ciEventID input])).
    + by rewrite concat_singletons.
    + intros l a. rewrite coalesce_fold. cbn. by rewrite concat_singletons.
  - intros l a. rewrite group_fold. done.
Qed.

(** The last event of an object decides: its job type and its object are those of the
    mutation. *)
Lemma coalesced_last inputs x : x ∈ inputs -> exists y,
  list.last (with_key mutation_key (mutation_key x) inputs) = Some y /\
  mkCoalesced (ciBucketID x) (ciKey x) (ciJobType y) (ciObjectID y)
    (map ciEventID (with_key mutation_key (mutation_key x) inputs)) ∈ CoalesceMutations inputs.
Proof.
  intros Hx. pose proof (with_key_self mutation_key inputs x Hx) as Hl.
  set (l := with_key mutation_key (mutation_key x) inputs) in *.
  assert (forall a, a ∈ l -> mutation_key a = mutation_key x) as Hk.
  { intros a Ha. apply list_elem_of_In, filter_In in Ha as [_ Ha]. by apply bool_decide_eq_true in Ha. }
  destruct (list.last l) as [y|] eqn:Ey; [|apply list.last_None in Ey; rewrite Ey in Hl; by apply elem_of_nil in Hl].
  exists y. split; [done|]. apply elem_of_group_by. exists (mutation_key x). fold l.
  destruct l as [|a l']; [done|]. cbn [gathered]. rewrite coalesce_fold, Ey. cbn [cmBucketID cmKey cmEventIDs default fmap option_fmap option_map app].
  specialize (Hk a ltac:(left)). unfold mutation_key in Hk. by injection Hk as -> ->.
Qed.

Lemma grouped mutations m : m ∈ mutations -> exists group, group ∈ GroupMutationsByJob mutations /\
  m ∈ mgMutations group /\ mgBucketID group = cmBucketID m /\ mgJobType group = cmJobType m.
Proof.
  intros Hm. pose proof (with_key_self group_key mutations m Hm) as Hl.
  set (l := with_key group_key (group_key m) mutations) in *.
  exists (mkGroup (cmBucketID m) (cmJobType m) l). split; [|done]. apply elem_of_group_by. exists (group_key m). fold l.
  assert (forall a, a ∈ l -> group_key a = group_key m) as Hk.
  { intros a Ha. apply list_elem_of_In, filter_In in Ha as [_ Ha]. by apply bool_decide_eq_true in Ha. }
  destruct l as [|a l']; [by apply elem_of_nil in Hl|]. cbn [gathered]. rewrite group_fold. cbn.
  specialize (Hk a ltac:(left)). unfold group_key in Hk. by injection Hk as -> ->.
Qed.

(** ** A pass *)

(** What becomes of an event: the input of a job, or the reason to skip it. *)
Definition verdict (c : Catalog) (event : UpstreamEvent) : result run_error (CoalesceInput + string) :=
  match buckets c !! eBucketID event with
  | None => Ok (inr "bucket_not_found")
  | Some bucket =>
      match JobTypeForEventName (eEventName event) with
      | None => Ok (inr "unsupported_event_name")
      | Some jobType =>
          let input objectID := inl (mkCoalesce (eID event) (bID bucket) (eObjectKey event) jobType objectID) in
          if String.eqb jobType JobTypeRemoveObjects || String.eqb jobType JobTypeRefreshObjects then
            match (GetObjectByBucketAndKey (bID bucket) (eObjectKey event) c).1 with
            | Err e => if not_found e then Ok (inr "object_not_found") else Err e
            | Ok object => Ok (input (oID object))
            end
          else Ok (input "")
      end
  end.

(** The events of [f] are set to a state with a message, and nothing else changed. *)
Definition marks (f : gmap string (UpstreamEventState * string)) (c0 c : Catalog) : Prop :=
  buckets c = buckets c0 /\ objects c = objects c0 /\
  forall id, match upstream_events c0 !! id with
    | None => upstream_events c !! id = None
    | Some e0 => exists e, upstream_events c !! id = Some e /\
        match f !! id with
        | None => e = e0
        | Some (state, message) => eState e = state /\ eErrorMessage e = message /\ eDedupeKey e = eDedupeKey e0
        end
    end.

Lemma marks_refl c : marks ∅ c c.
Proof. split_and!; try done. intros id. destruct (upstream_events c !! id) as [e|]; [|done]. exists e. by rewrite lookup_empty. Qed.

Lemma mark_marks now f c0 c id state message u c' : marks f c0 c ->
  MarkUpstreamEvent now (mkMark id state message) c = (Ok u, c') -> marks (<[id := (state, message)]> f) c0 c'.
Proof.
  intros (Hb & Ho & He). unfold MarkUpstreamEvent. cbn [meID]. destruct (upstream_events c !! id) as [e|] eqn:Eid; [|done].
  intros [= _ <-]. split_and!; [done|done|]. intros id'. specialize (He id'). cbn [upstream_events set_upstream_events].
  destruct (upstream_events c0 !! id') as [e0|].
  - destruct He as (e1 & He1 & Hm). destruct (decide (id = id')) as [<-|Hne].
    + rewrite !lookup_insert_eq. eexists. split; [done|]. cbn. rewrite Eid in He1. injection He1 as <-.
      split_and!; [done|done|]. destruct (f !! id) as [[]|]; [apply Hm|by subst].
    + rewrite !lookup_insert_ne by done. by exists e1.
  - destruct (decide (id = id')) as [<-|Hne]; [congruence|]. by rewrite lookup_insert_ne.
Qed.

Lemma verdict_same c c' event : buckets c' = buckets c -> objects c' = objects c -> verdict c' event = verdict c event.
Proof.
  intros Hb Ho. unfold verdict, GetObjectByBucketAndKey, of_result. rewrite Hb, Ho.
  destruct (buckets c !! _); [|done]. destruct (JobTypeForEventName _); [|done]. destruct (_ || _); [|done]. by destruct (scan_row _).
Qed.

(** The marks of the events that are skipped. *)
Definition skip_mark (c : Catalog) (f : gmap string (UpstreamEventState * string)) (event : UpstreamEvent) :=
  match verdict c event with Ok (inr message) => <[eID event := (EventSkipped, message)]> f | _ => f end.
Definition skip_marks (c : Catalog) (events : list UpstreamEvent) := fold_left (skip_mark c) events ∅.
Lemma skip_marks_snoc c pre event : skip_marks c (pre ++ [event]) = skip_mark c (skip_marks c pre) event.
Proof. unfold skip_marks. by rewrite fold_left_app. Qed.
Definition input_of (c : Catalog) (event : UpstreamEvent) : option CoalesceInput :=
  match verdict c event with Ok (inl input) => Some input | _ => None end.

Lemma input_of_Ok c event input : verdict c event = Ok (inl input) -> input_of c event = Some input.
Proof. unfold input_of. by intros ->. Qed.
Lemma input_of_Err c event : (forall input, verdict c event <> Ok (inl input)) -> input_of c event = None.
Proof. unfold input_of. intros H. destruct (verdict c event) as [[]|]; naive_solver. Qed.

Section Pass.
Context (batchSize mutationBatchSize : Z) (random : nat -> list Z) (now : Z) (locked : gset string) (s0 : Store).
Notation c0 := (catalog s0).
Notation mark := (mark now).

Lemma mark_triple f d id state message :
  triple (fun s => jobs s = d /\ marks f c0 (catalog s)) (mark id state message)
    (fun _ s => jobs s = d /\ marks (<[id := (state, message)]> f) c0 (catalog s)) (fun _ _ => True).
Proof.
  intros s [Hd Hm]. unfold EventProcessor.mark. rewrite on_catalog_eq. destruct (MarkUpstreamEvent _ _ _) as [[u|e] c'] eqn:E; [|done].
  cbn. split; [done|]. by eapply mark_marks.
Qed.

(** After the events [pre] of the first loop. *)
Definition gathered_ok (pre : list UpstreamEvent) (acc : list CoalesceInput * Z) (s : Store) : Prop :=
  (jobs s = jobs s0 /\ marks (skip_marks c0 pre) c0 (catalog s)) /\ acc.1 = omap (input_of c0) pre /\
  Z.of_nat (List.length acc.1) + acc.2 = Z.of_nat (List.length pre) /\ Forall (fun e => is_ok (verdict c0 e) = true) pre.

Lemma process_event_triple pre event acc :
  triple (gathered_ok pre acc) (process_event now acc event) (gathered_ok (pre ++ [event])) (fun _ _ => True).
Proof.
  destruct acc as [inputs processed]. intros s (Hm & Hin & Hn & Hok). cbn [fst snd] in *.
  assert (verdict (catalog s) event = verdict c0 event) as Hv by (apply verdict_same; apply Hm).
  assert (forall message, verdict c0 event = Ok (inr message) ->
    post (gathered_ok (pre ++ [event])) (fun _ _ => True) ((_ ← mark (eID event) EventSkipped message; mret (inputs, processed + 1)) s)) as Hskip.
  { intros message Ev. pose proof (mark_triple _ _ (eID event) EventSkipped message s Hm) as Hmark.
    unfold mbind, M_bind. destruct (mark (eID event) EventSkipped message s) as [[u|e] s']; [|done].
    split; [|split; [|split; [|apply list.Forall_app; split; [done|]; constructor; [by rewrite Ev|constructor]]]].
    - rewrite skip_marks_snoc. unfold skip_mark. rewrite Ev. exact Hmark.
    - cbn [fst]. rewrite Hin, list.omap_app. cbn [omap list_omap]. rewrite (input_of_Err c0 event) by (intros ? H; congruence). by rewrite app_nil_r.
    - cbn [fst snd]. rewrite length_app. cbn. lia. }
  assert (forall input, verdict c0 event = Ok (inl input) -> gathered_ok (pre ++ [event]) (inputs ++ [input], processed) s) as Hkeep.
  { intros input Ev. split; [|split; [|split; [|apply list.Forall_app; split; [done|]; constructor; [by rewrite Ev|constructor]]]].
    - rewrite skip_marks_snoc. unfold skip_mark. by rewrite Ev.
    - cbn [fst]. rewrite Hin, list.omap_app. cbn [omap list_omap]. by rewrite (input_of_Ok c0 event input Ev).
    - cbn [fst snd]. rewrite !length_app. cbn. lia. }
  rewrite <- Hv in Hskip, Hkeep. unfold process_event. unfold mbind at 1, M_bind at 1, attempt at 1. rewrite on_catalog_eq.
  unfold verdict in Hskip, Hkeep. unfold GetBucket. destruct (buckets (catalog s) !! eBucketID event) as [b|]; [|apply Hskip; reflexivity].
  cbn [fst snd]. assert (set_catalog (catalog s) s = s) as -> by (by destruct s).
  destruct (JobTypeForEventName _) as [jobType|]; [|apply Hskip; reflexivity].
  destruct (_ || _); [|apply Hkeep; reflexivity].
  unfold mbind at 1, M_bind at 1, attempt at 1. rewrite on_catalog_eq. change (bID (scanBucket b)) with (bID b).
  assert ((GetObjectByBucketAndKey (bID b) (eObjectKey event) (catalog s)).2 = catalog s) as ->
    by (unfold GetObjectByBucketAndKey, of_result; by destruct (scan_row _)).
  assert (set_catalog (catalog s) s = s) as -> by (by destruct s).
  destruct (GetObjectByBucketAndKey _ _ _).1 as [object|e]; [apply Hkeep; reflexivity|].
  destruct (not_found e); [apply Hskip; reflexivity|exact I].
Qed.

(** ** The jobs *)

Definition grows (d d' : db) : Prop := forall key r, job_runs d !! key = Some r -> job_runs d' !! key = Some r.

(** A job of [d'] that was not in [d], for the evidence among that of its batch. *)
Definition new_job (d d' : db) (jobType bucketID : string) (evidence : ObjectEvidence) : Prop :=
  exists r batch, job_runs d' !! id r = Some r /\ job_runs d !! id r = None /\ type_ r = jobType /\ state r = Pending /\
    target_id r = nullableString bucketID /\ evidence ∈ batch /\
    encodeJobRunPayload (PayloadFrom (mutation_input_json (mkMutationInput bucketID batch ""))) = Some (input r).

Lemma CreateJobRun_new rnd params d run d' : CreateJobRun rnd now params d = (Ok run, d') ->
  exists r, job_runs d !! id r = None /\ d' = mkDB (<[id r := r]> (job_runs d)) (job_spill d) /\ type_ r = cType params /\
    state r = Pending /\ target_id r = nullableString (cTargetID params) /\ encodeJobRunPayload (cInput params) = Some (input r).
Proof.
  unfold CreateJobRun, mbind, DB_bind. pose proof (resolveTraceID_db (newJobRunID rnd) params d) as Hd.
  destruct (resolveTraceID (newJobRunID rnd) params d) as [[t|e] d0]; cbn in Hd; subst d0; [|done].
  unfold encoded. destruct (encodeJobRunPayload (cInput params)) as [e|]; [|done].
  match goal with |- context [insert_row ?r d] => set (row := r); destruct (insert_row_cases row d) as [[err ->]|(Hno & _ & ->)] end; [done|].
  intros [= _ <-]. by exists row.
Qed.

Lemma new_job_grows d d1 d2 jobType bucketID evidence :
  new_job d d1 jobType bucketID evidence -> grows d1 d2 -> new_job d d2 jobType bucketID evidence.
Proof. intros (r & batch & Hr & Hrest) Hg. exists r, batch. split; [by apply Hg|done]. Qed.

(** Enqueueing a group: a new job for each of its mutations. *)
Lemma enqueue_group_triple d f k group : grows (jobs s0) d ->
  triple (fun s => jobs s = d /\ marks f c0 (catalog s)) (enqueueMutationGroup mutationBatchSize random now k group)
    (fun _ s => (grows d (jobs s) /\ forall m, m ∈ mgMutations group ->
        new_job (jobs s0) (jobs s) (mgJobType group) (mgBucketID group) (mutation_evidence m)) /\ marks f c0 (catalog s))
    (fun _ _ => True).
Proof.
  intros Hd0. unfold enqueueMutationGroup. set (all := map mutation_evidence (mgMutations group)).
  set (bs := mutationEvidenceBatches all _).
  assert (List.concat bs = all) as Hbs.
  { apply (batches_spec all (or_default mutationBatchSize defaultMutationJobBatchSize)). }
  eapply triple_pre; [|eapply triple_post;
    [apply (triple_for_acc (fun pre (_ : nat) s => (grows d (jobs s) /\ forall batch evidence, batch ∈ pre -> evidence ∈ batch ->
        new_job (jobs s0) (jobs s) (mgJobType group) (mgBucketID group) evidence) /\ marks f c0 (catalog s)) (fun _ _ => True))|..]].
  - intros s [<- Hm]. split; [split; [by intros ?|]|done]. intros batch evidence Hb. by apply elem_of_nil in Hb.
  - intros pre batch suf j _ s ((Hg & Hj) & Hm). unfold mbind, M_bind. rewrite on_jobs_eq.
    destruct (CreateJobRun _ _ _ _) as [[run|e] d'] eqn:Ec; [|exact I]. apply CreateJobRun_new in Ec as (r & Hno & -> & Ht & Hs & Htg & Hin).
    cbn [post fst snd mret M_ret jobs set_jobs catalog]. split; [|exact Hm]. assert (grows (jobs s) (mkDB (<[id r := r]> (job_runs (jobs s))) (job_spill (jobs s)))) as Hgr.
    { intros key r' Hr'. cbn [job_runs]. rewrite lookup_insert_ne; [done|]. intros <-. congruence. }
    split; [intros key r' Hr'; by apply Hgr, Hg|]. intros batch' evidence [Hb| ->%list_elem_of_singleton]%elem_of_app He.
    + eapply new_job_grows; [by eapply Hj|done].
    + exists r, batch. split_and!; [cbn [job_runs]; apply lookup_insert_eq| |exact Ht|exact Hs|exact Htg|exact He|exact Hin].
      destruct (job_runs (jobs s0) !! id r) as [r'|] eqn:Er'; [|done]. apply Hd0, Hg in Er'. congruence.
  - intros _ s ((Hg & Hj) & Hm). split; [split; [done|]|done]. intros m Hin.
    assert (mutation_evidence m ∈ all) as Hall by (by apply list_elem_of_fmap_2). rewrite <- Hbs in Hall.
    apply list_elem_of_In, in_concat in Hall as (batch & Hb & He). apply (Hj batch); by apply list_elem_of_In.
  - done.
Qed.

(** The marks of the processed events. *)
Definition processed_marks (f : gmap string (UpstreamEventState * string)) (ids : list string) :=
  fold_left (fun f id => <[id := (EventProcessed, "")]> f) ids f.

Lemma processed_marks_app f l1 l2 : processed_marks f (l1 ++ l2) = processed_marks (processed_marks f l1) l2.
Proof. apply fold_left_app. Qed.

Lemma lookup_processed_marks f ids key : processed_marks f ids !! key =
  if bool_decide (key ∈ ids) then Some (EventProcessed, "") else f !! key.
Proof.
  induction ids as [|x ids IH] using rev_ind; [done|]. rewrite processed_marks_app. cbn [processed_marks fold_left].
  destruct (decide (x = key)) as [->|Hne].
  - rewrite lookup_insert_eq, bool_decide_eq_true_2; [done|]. apply elem_of_app. right. by left.
  - rewrite lookup_insert_ne, IH by done. rewrite (bool_decide_ext (key ∈ ids ++ [x]) (key ∈ ids)); [done|].
    rewrite elem_of_app, list_elem_of_singleton. naive_solver.
Qed.

Lemma mark_mutation_triple d f processed m :
  triple (fun s => jobs s = d /\ marks f c0 (catalog s)) (mark_mutation now processed m)
    (fun n s => n = processed + Z.of_nat (List.length (cmEventIDs m)) /\ jobs s = d /\
       marks (processed_marks f (cmEventIDs m)) c0 (catalog s)) (fun _ _ => True).
Proof.
  unfold mark_mutation. eapply triple_pre; [|apply (triple_for_acc (fun pre n s => n = processed + Z.of_nat (List.length pre) /\
    jobs s = d /\ marks (processed_marks f pre) c0 (catalog s)))].
  - intros s Hs. split; [cbn; lia|exact Hs].
  - intros pre eventID suf n _ s (-> & Hs). pose proof (mark_triple _ d eventID EventProcessed "" s Hs) as Hm.
    unfold mbind, M_bind. destruct (mark eventID EventProcessed "" s) as [[u|e] s']; [|done]. cbn in Hm |- *.
    rewrite length_app, processed_marks_app. cbn. split; [lia|exact Hm].
Qed.

(** After the groups [pre] of the second loop. *)
Definition enqueued (f : gmap string (UpstreamEventState * string)) (skipped : Z) (pre : list MutationJobGroup)
    (acc : nat * Z) (s : Store) : Prop :=
  (grows (jobs s0) (jobs s) /\ marks (processed_marks f (List.concat (map group_events pre))) c0 (catalog s)) /\
  acc.2 = skipped + Z.of_nat (List.length (List.concat (map group_events pre))) /\
  forall group m, group ∈ pre -> m ∈ mgMutations group ->
    new_job (jobs s0) (jobs s) (mgJobType group) (mgBucketID group) (mutation_evidence m).

Lemma process_group_triple f skipped pre group acc :
  triple (enqueued f skipped pre acc) (process_group mutationBatchSize random now acc group)
    (enqueued f skipped (pre ++ [group])) (fun _ _ => True).
Proof.
  intros s ((Hg & Hm) & Hn & Hj). unfold process_group.
  pose proof (enqueue_group_triple (jobs s) _ acc.1 group Hg s (conj eq_refl Hm)) as He. unfold mbind, M_bind.
  destruct (enqueueMutationGroup _ _ _ _ _ s) as [[k|e] s1]; [|done]. destruct He as [[Hg1 Hj1] Hm1].
  set (g := processed_marks f (List.concat (map group_events pre))) in *.
  assert (triple (fun s => jobs s = jobs s1 /\ marks g c0 (catalog s)) (for_acc (mark_mutation now) acc.2 (mgMutations group))
    (fun n s => n = acc.2 + Z.of_nat (List.length (group_events group)) /\ jobs s = jobs s1 /\
       marks (processed_marks g (group_events group)) c0 (catalog s)) (fun _ _ => True)) as Hmark.
  { eapply triple_pre; [|apply (triple_for_acc (fun done n s => n = acc.2 + Z.of_nat (List.length (List.concat (map cmEventIDs done))) /\
      jobs s = jobs s1 /\ marks (processed_marks g (List.concat (map cmEventIDs done))) c0 (catalog s)))].
    - intros s' Hs'. split; [cbn; lia|exact Hs'].
    - intros done m suf n _ s' (-> & Hs'). rewrite map_app, List.concat_app, length_app, processed_marks_app. cbn [map List.concat].
      rewrite app_nil_r. pose proof (mark_mutation_triple _ _ (acc.2 + Z.of_nat (List.length (List.concat (map cmEventIDs done)))) m s' Hs') as H.
      destruct (mark_mutation _ _ _ _) as [[n|e] s2]; [|exact I]. destruct H as (-> & H). split; [lia|exact H]. }
  specialize (Hmark s1 (conj eq_refl Hm1)). destruct (for_acc _ _ _ s1) as [[n|e] s2]; [|done]. destruct Hmark as (-> & Hj2 & Hm2).
  cbn. rewrite <- Hj2 in *. unfold enqueued. rewrite map_app, List.concat_app, length_app, processed_marks_app. cbn [map List.concat snd].
  rewrite app_nil_r. split_and!; [intros key r Hr; by apply Hg1, Hg|exact Hm2|lia|].
  intros group' m [Hin| ->%list_elem_of_singleton]%elem_of_app Hmm; [|by apply Hj1].
  eapply new_job_grows; [by eapply Hj|done].
Qed.

Lemma processLockedEvents_triple events :
  triple (fun s => s = s0) (processLockedEvents mutationBatchSize random now events)
    (fun n s => Forall (fun e => is_ok (verdict c0 e) = true) events /\ n = Z.of_nat (List.length events) /\
       let groups := GroupMutationsByJob (CoalesceMutations (omap (input_of c0) events)) in
       marks (processed_marks (skip_marks c0 events) (List.concat (map group_events groups))) c0 (catalog s) /\
       forall group m, group ∈ groups -> m ∈ mgMutations group ->
         new_job (jobs s0) (jobs s) (mgJobType group) (mgBucketID group) (mutation_evidence m)) (fun _ _ => True).
Proof.
  intros s ->. unfold processLockedEvents.
  assert (triple (gathered_ok [] ([], 0)) (for_acc (process_event now) ([], 0) events) (gathered_ok events) (fun _ _ => True)) as H1
    by (apply triple_for_acc; intros pre event suf acc _; apply process_event_triple).
  specialize (H1 s0). unfold mbind at 1, M_bind at 1.
  destruct (for_acc (process_event now) ([], 0) events s0) as [[acc|e] s1];
    [|by apply H1; split_and!; [done|apply marks_refl|done|done|constructor]].
  destruct H1 as ([Hj Hm] & Hin & Hn & Hok); [by split_and!; [done|apply marks_refl|done|done|constructor]|].
  set (groups := GroupMutationsByJob (CoalesceMutations acc.1)).
  assert (triple (enqueued (skip_marks c0 events) acc.2 [] (0%nat, acc.2)) (for_acc (process_group mutationBatchSize random now) (0%nat, acc.2) groups)
    (enqueued (skip_marks c0 events) acc.2 groups) (fun _ _ => True)) as H2
    by (apply triple_for_acc; intros pre group suf a _; apply process_group_triple).
  specialize (H2 s1). unfold mbind at 1, M_bind at 1. destruct (for_acc _ _ groups s1) as [[final|e] s2].
  - destruct H2 as ((_ & Hm2) & Hn2 & Hj2).
    { split; [split; [rewrite Hj; by intros ?|exact Hm]|]. split; [cbn; lia|]. intros group m Hg. by apply elem_of_nil in Hg. }
    split; [exact Hok|]. split; [|subst groups; rewrite Hin in *; split; [exact Hm2|exact Hj2]].
    cbn [mret M_ret]. rewrite Hn2. unfold groups. rewrite (Permutation_length (groups_events acc.1)), length_map. lia.
  - exact I.
Qed.
End Pass.

(** ** The events that a pass locks *)

Definition keyed_events (c : Catalog) : Prop := forall id e, upstream_events c !! id = Some e -> eID e = id.

Lemma locked_NoDup locked limit c events c' : keyed_events c ->
  LockPendingEvents locked limit c = (Ok events, c') ->
  NoDup (map eID events) /\ forall e, e ∈ events -> exists e0, upstream_events c !! eID e = Some e0 /\ e = scanUpstreamEventRow e0.
Proof.
  intros Hk. unfold LockPendingEvents, gets. intros [= <- _]. set (rows := select_rows _ _ _). split.
  - rewrite List.map_map. change (fun x => eID (scanUpstreamEventRow x)) with eID.
    assert (NoDup (map eID rows)) as Hnd.
    { unfold rows, select_rows. rewrite (sort_by_perm by_received). apply NoDup_map_filter. unfold table_rows.
      assert (map eID (map_to_list (upstream_events c)).*2 = (map_to_list (upstream_events c)).*1) as ->; [|apply NoDup_fst_map_to_list].
      rewrite List.map_map. apply map_ext_in. intros [key e] He%list_elem_of_In%elem_of_map_to_list. by apply Hk. }
    rewrite <- firstn_map. rewrite <- (firstn_skipn (Z.to_nat (if limit <=? 0 then 100 else limit)) (map eID rows)) in Hnd.
    by apply list.NoDup_app in Hnd as [Hnd _].
  - intros e (e0 & -> & He0)%list_elem_of_fmap. exists e0. split; [|done].
    assert (e0 ∈ rows) as Hr.
    { rewrite <- (firstn_skipn (Z.to_nat (if limit <=? 0 then 100 else limit)) rows). apply elem_of_app. by left. }
    apply elem_of_select_rows in Hr as (_ & key & Hkey). cbn. by rewrite (Hk _ _ Hkey).
Qed.

Lemma input_event c event x : input_of c event = Some x ->
  ciEventID x = eID event /\ ciBucketID x = default "" (bID <$> buckets c !! eBucketID event) /\ ciKey x = eObjectKey event.
Proof.
  unfold input_of, verdict. destruct (buckets c !! eBucketID event) as [b|]; [|done].
  destruct (JobTypeForEventName _); [|done]. destruct (_ || _); [|by intros [= <-]].
  destruct (GetObjectByBucketAndKey _ _ _).1 as [o|e]; [by intros [= <-]|by destruct (not_found e)].
Qed.

(** The mark of an event: by its verdict. *)
Definition mark_of (c : Catalog) (event : UpstreamEvent) : option (UpstreamEventState * string) :=
  match verdict c event with
  | Ok (inl _) => Some (EventProcessed, "")
  | Ok (inr message) => Some (EventSkipped, message)
  | Err _ => None
  end.

Lemma skip_marks_other c events key : key ∉ map eID events -> skip_marks c events !! key = None.
Proof.
  induction events as [|e events IH] using rev_ind; [intros _; apply lookup_empty|]. rewrite map_app, not_elem_of_app, skip_marks_snoc.
  cbn. intros [H1 H2]. assert (eID e <> key) by set_solver. unfold skip_mark.
  destruct (verdict c e) as [[]|]; auto. rewrite lookup_insert_ne; auto.
Qed.

Lemma lookup_skip_marks c events event : NoDup (map eID events) -> event ∈ events ->
  skip_marks c events !! eID event = match verdict c event with Ok (inr message) => Some (EventSkipped, message) | _ => None end.
Proof.
  induction events as [|e events IH] using rev_ind; [by intros _ ?%elem_of_nil|]. rewrite map_app, skip_marks_snoc.
  intros (Hnd & Hne & _)%list.NoDup_app [Hin| ->%list_elem_of_singleton]%elem_of_app.
  - assert (eID e <> eID event) by (intros Heq; apply (Hne (eID event)); [by apply list_elem_of_fmap_2|rewrite <- Heq; left]).
    unfold skip_mark. rewrite <- IH by done. destruct (verdict c e) as [[]|]; try done. by rewrite lookup_insert_ne.
  - unfold skip_mark.
    destruct (verdict c e) as [[]|]; try (apply skip_marks_other; intros Hin; apply (Hne _ Hin); left). apply lookup_insert_eq.
Qed.

(** The marks after both loops. *)
Lemma final_marks c events event : NoDup (map eID events) -> event ∈ events ->
  processed_marks (skip_marks c events)
    (List.concat (map group_events (GroupMutationsByJob (CoalesceMutations (omap (input_of c) events))))) !! eID event = mark_of c event.
Proof.
  intros Hnd Hin. rewrite lookup_processed_marks, (lookup_skip_marks c events event Hnd Hin).
  rewrite (bool_decide_ext _ (eID event ∈ map ciEventID (omap (input_of c) events))) by (by rewrite groups_events).
  unfold mark_of. destruct (verdict c event) as [[x|message]|e] eqn:Ev.
  - rewrite bool_decide_eq_true_2; [done|]. assert (input_of c event = Some x) as Hx by (unfold input_of; by rewrite Ev).
    destruct (input_event c event x Hx) as [<- _]. apply list_elem_of_fmap_2, list_elem_of_omap. by exists event.
  - rewrite bool_decide_eq_false_2; [done|]. intros (x & Hid & (event' & Hin' & Hx)%list_elem_of_omap)%list_elem_of_fmap.
    destruct (input_event c event' x Hx) as [Hid' _]. rewrite <- Hid in Hid'.
    assert (event = event') as <- by (eapply (NoDup_map_inj eID); eauto). unfold input_of in Hx. by rewrite Ev in Hx.
  - rewrite bool_decide_eq_false_2; [done|]. intros (x & Hid & (event' & Hin' & Hx)%list_elem_of_omap)%list_elem_of_fmap.
    destruct (input_event c event' x Hx) as [Hid' _]. rewrite <- Hid in Hid'.
    assert (event = event') as <- by (eapply (NoDup_map_inj eID); eauto). unfold input_of in Hx. by rewrite Ev in Hx.
Qed.

(** C18: a pass that commits settles every event it locked, and no other: an event whose
    bucket, name or object calls for no job is skipped with its reason, the others are
    processed, and for each of these there is a new pending job of the bucket, of the
    type of the last event of the object among those of the pass, with the evidence of
    the object.  The pass counts the events it locked. *)
Theorem Tick_settles batchSize mutationBatchSize random now locked s n s' events :
  Tick batchSize mutationBatchSize random now locked s = (Ok n, s') -> keyed_events (catalog s) ->
  (LockPendingEvents locked (or_default batchSize defaultProcessorBatchSize) (catalog s)).1 = Ok events ->
  n = Z.of_nat (List.length events) /\
  (forall id e0, upstream_events (catalog s) !! id = Some e0 ->
     exists e, upstream_events (catalog s') !! id = Some e /\
       if bool_decide (id ∈ map eID events)
       then mark_of (catalog s) e0 = Some (eState e, eErrorMessage e) /\ eDedupeKey e = eDedupeKey e0
       else e = e0) /\
  (forall event x, event ∈ events -> input_of (catalog s) event = Some x ->
     exists y, list.last (with_key mutation_key (mutation_key x) (omap (input_of (catalog s)) events)) = Some y /\
       new_job (jobs s) (jobs s') (ciJobType y) (ciBucketID x)
         (mkEvidence (ciObjectID y) (ciKey x) "" "" 0 "" "")).
Proof.
unfold Tick, WithTx, mbind at 1, M_bind at 1. rewrite on_catalog_eq. intros HT Hk Hlock.
assert ((LockPendingEvents locked (or_default batchSize defaultProcessorBatchSize) (catalog s)).2 = catalog s) as Hsame by done.
rewrite Hlock, Hsame in HT. assert (set_catalog (catalog s) s = s) as Hset by (by destruct s). rewrite Hset in HT.
destruct (locked_NoDup locked (or_default batchSize defaultProcessorBatchSize) (catalog s) events (catalog s) Hk) as [Hnd Hrows];
  [rewrite <- Hlock; done|].
destruct events as [|event events]; [injection HT as <- <-|].
{ split; [done|]. split; [intros id e0 He0; by exists e0|]. intros event x Hin. by apply elem_of_nil in Hin. }
set (all := event :: events) in *. pose proof (processLockedEvents_triple mutationBatchSize random now s all s eq_refl) as Hp.
destruct (processLockedEvents _ _ _ _ s) as [[m|e] s1]; [|done]. injection HT as <- <-.
destruct Hp as (Hok & -> & (_ & _ & Hm) & Hj). split; [done|]. split.
- intros id e0 He0. specialize (Hm id). rewrite He0 in Hm. destruct Hm as (e & He & Hmark). exists e. split; [done|].
  case_bool_decide as Hid.
  + apply list_elem_of_fmap in Hid as (ev & -> & Hev). rewrite (final_marks _ _ _ Hnd Hev) in Hmark.
    destruct (Hrows ev Hev) as (e1 & He1 & ->). rewrite He0 in He1. injection He1 as <-.
    change (mark_of (catalog s) (scanUpstreamEventRow e0)) with (mark_of (catalog s) e0) in Hmark.
    rewrite list.Forall_forall in Hok. specialize (Hok _ Hev). change (verdict (catalog s) (scanUpstreamEventRow e0)) with (verdict (catalog s) e0) in Hok.
    unfold mark_of in *. destruct (verdict (catalog s) e0) as [[x|message]|err]; [| |done];
      destruct Hmark as (Hs & Hmsg & Hd); by rewrite Hs, Hmsg.
  + rewrite lookup_processed_marks, skip_marks_other in Hmark by done. rewrite bool_decide_eq_false_2 in Hmark; [done|].
    rewrite groups_events. intros (x & -> & (event' & Hin' & Hx)%list_elem_of_omap)%list_elem_of_fmap. apply Hid.
    destruct (input_event _ _ _ Hx) as [-> _]. by apply list_elem_of_fmap_2.
- intros ev x Hev Hx. assert (x ∈ omap (input_of (catalog s)) all) as Hxin by (apply list_elem_of_omap; by exists ev).
  destruct (coalesced_last _ x Hxin) as (y & Hy & Hmut). exists y. split; [exact Hy|].
  destruct (grouped _ _ Hmut) as (group & Hgroup & Hin & Hb & Ht). specialize (Hj group _ Hgroup Hin).
  rewrite Hb, Ht in Hj. exact Hj.
Qed.

(** ** Names that the two sides read differently

    [Parse] keeps the creations that EventBridge, R2, Pub/Sub and B2 report, under the
    names they give them, and the processor has no job for any of these names; it has a
    job for a change of tags, which [Parse] does not keep. *)
Lemma creations_without_job :
  Forall (fun name => actionFromEventName name = EventActionImport /\ JobTypeForEventName name = None)
    ["Object Created"; "PutObject"; "CompleteMultipartUpload"; "OBJECT_FINALIZE"; "b2:ObjectCreated:Upload"].
Proof. repeat constructor; vm_compute; reflexivity. Qed.

Lemma taggings_not_kept :
  Forall (fun name => actionFromEventName name = EventActionIgnore /\ JobTypeForEventName name = Some JobTypeRefreshObjects)
    ["ObjectTagging:Put"; "s3:ObjectTagging:Delete"; "ObjectAcl:Put"].
Proof. repeat constructor; vm_compute; reflexivity. Qed.

(** ** An object that was created and then removed *)

Definition demo_event (id name : string) (received : Z) : UpstreamEvent :=
  mkEvent id "b" name "k" ∅ id "jetstream" EventPending None received None "" received received.
Definition demo_pass_bucket : Bucket :=
  mkBucket "b" "bucket" "s3" "" "" "photos" "" ∅ (mkEnvelope "" "" "" "") (mkScanConfig None "") 0 0.
Definition demo_pass : Store :=
  mkStore empty_db (mkCatalog {["b" := demo_pass_bucket]} {["o" := mkObjectRow "o" "b" "k" ∅ ∅ 0 0]} ∅ ∅
    (<["e1" := demo_event "e1" "ObjectCreated:Put" 1]> {["e2" := demo_event "e2" "ObjectRemoved:Delete" 2]}) ∅).
Definition demo_pass_events : list UpstreamEvent := [demo_event "e1" "ObjectCreated:Put" 1; demo_event "e2" "ObjectRemoved:Delete" 2].
Notation demo_tick := (Tick 100 100 (fun k => [Z.of_nat k]) 7 ∅ demo_pass).

Lemma demo_tick_ok : demo_tick.1 = Ok 2.
Proof. vm_compute. reflexivity. Qed.

Lemma demo_pass_locked : (LockPendingEvents ∅ (or_default 100 defaultProcessorBatchSize) (catalog demo_pass)).1 = Ok demo_pass_events.
Proof. vm_compute. reflexivity. Qed.

Lemma demo_pass_keyed : keyed_events (catalog demo_pass).
Proof.
intros id e. cbn [upstream_events catalog demo_pass]. intros [[<- <-]|[_ [<- <-]%lookup_singleton_Some]]%lookup_insert_Some; reflexivity.
Qed.

Lemma Tick_settles_witness : exists s', demo_tick = (Ok 2, s') /\
  new_job (jobs demo_pass) (jobs s') JobTypeRemoveObjects "b" (mkEvidence "o" "k" "" "" 0 "" "").
Proof.
pose proof demo_tick_ok as Hok. destruct demo_tick as [r s'] eqn:HT. cbn [fst] in Hok. subst r. exists s'. split; [reflexivity|].
destruct (Tick_settles 100 100 (fun k => [Z.of_nat k]) 7 ∅ demo_pass 2 s' demo_pass_events HT demo_pass_keyed demo_pass_locked)
  as (_ & _ & Hjobs).
destruct (Hjobs (demo_event "e1" "ObjectCreated:Put" 1) (mkCoalesce "e1" "b" "k" JobTypeImportObjects "") ltac:(left) ltac:(vm_compute; reflexivity))
  as (y & Hy & Hnew).
vm_compute in Hy. injection Hy as <-. exact Hnew.
Defined.
