(* ===== verification/SyncPlan.v ===== *)
(** * SyncPlan

    The invariant of a sync: what the child jobs of a sync_bucket run and its
    spilled keys say of each other, that the statements of other workers keep it,
    and what each statement of the handler does to it. *)
From S2P Require Import Prelude GoStrings GoFloat GoTime Verification JobPayload JobRuns JobTrace JobRunProofs ErrState.
From S2P Require Import S3Listing Catalog Buckets ObjectStore ObjectPlan SyncBucket.
Local Open Scope Z_scope.

(** ** The keys a job carries *)

Definition payload_keys (p : payload) : list string :=
  match p !! "objects" with
  | Some (VSlice l) => omap (fun v => match v with VMap m => as_string (m !! "key") | _ => None end) l
  | _ => []
  end.

Lemma evidence_key e : evidence_json e !! "key" = Some (VString (evKey e)).
Proof.
  unfold evidence_json, put_text at 1. destruct (String.eqb (evID e) "").
  - by rewrite lookup_insert_eq.
  - rewrite lookup_insert_ne by done. by rewrite lookup_insert_eq.
Qed.

Lemma encoded_child_keys bucketID runID batch e :
  encodeJobRunPayload (child_input bucketID runID batch) = Some e -> payload_keys e = map evKey batch.
Proof.
  unfold encodeJobRunPayload. destruct (map_fold _ _ _); [|done]. intros [= <-].
  unfold payload_keys, child_input, PayloadFrom, decodeJobRunPayload, mutation_input_json.
  rewrite !lookup_fmap, lookup_insert_ne, lookup_insert_eq by done. cbn [fmap option_fmap option_map from_json to_json].
  cbn [miObjects]. induction batch as [|ev batch IH]; [done|]. cbn. rewrite !lookup_fmap, evidence_key. cbn.
  by rewrite <- IH.
Qed.

(** ** The cursor of the listing

    Where the next attempt starts to list, and whether the listing is complete: what
    [listingCheckpointFromProgress] reads in the progress of the run. *)
Definition cursor : Type := string * string * bool.
Definition cursor_of (progress : payload) : cursor :=
  let checkpoint := listingCheckpointFromProgress (decodeJobRunPayload progress) in
  (lcContinuationToken checkpoint, lcMarker checkpoint, lcListingComplete checkpoint).

(** The members of the progress that the cursor is read from. *)
Definition no_cursor (fields : payload) : Prop :=
  fields !! "listing_checkpoint" = None /\ fields !! "listing_complete" = None.

Lemma cursor_of_eq p p' :
  p !! "listing_checkpoint" = p' !! "listing_checkpoint" -> p !! "listing_complete" = p' !! "listing_complete" ->
  cursor_of p = cursor_of p'.
Proof.
  intros E1 E2. unfold cursor_of, listingCheckpointFromProgress, decodeJobRunPayload.
  rewrite !lookup_fmap, E1, E2. by destruct ((from_json <$> _) ≫= asNestedAttributeMap).
Qed.

Lemma encoded_lookup p e key : encodeJobRunPayload p = Some e -> e !! key = to_json <$> (p !! key).
Proof. unfold encodeJobRunPayload. destruct (map_fold _ _ _); [|done]. intros [= <-]. by rewrite lookup_fmap. Qed.

Lemma lookup_concat (p e : payload) key : jsonb_concat p e !! key = match e !! key with Some v => Some v | None => p !! key end.
Proof.
  unfold jsonb_concat. destruct (e !! key) as [v|] eqn:E; [by apply lookup_union_Some_l|].
  by apply lookup_union_r.
Qed.

Lemma cursor_no_cursor p fields e :
  no_cursor fields -> encodeJobRunPayload fields = Some e -> cursor_of (jsonb_concat p e) = cursor_of p.
Proof.
  intros [H1 H2] He. apply cursor_of_eq; by rewrite lookup_concat, (encoded_lookup _ _ _ He), ?H1, ?H2.
Qed.

Lemma cursor_listing p now cp complete counts e :
  encodeJobRunPayload (listingProgressFields now cp complete counts) = Some e ->
  cursor_of (jsonb_concat p e) = (ContinuationToken cp, Marker cp, complete).
Proof.
  intros He. unfold cursor_of, listingCheckpointFromProgress, decodeJobRunPayload. rewrite !lookup_fmap, !lookup_concat.
  rewrite !(encoded_lookup _ _ _ He). unfold listingProgressFields.
  rewrite !(lookup_insert_ne _ "phase"), !(lookup_insert_ne _ "objects_listed") by done.
  rewrite lookup_insert_eq, (lookup_insert_ne _ "listing_complete") by done. rewrite lookup_insert_eq. done.
Qed.

(** Planning leaves a completed listing complete. *)
Lemma cursor_planning p n counts e tok mk :
  encodeJobRunPayload (planningProgressFields n counts) = Some e ->
  cursor_of p = (tok, mk, true) -> cursor_of (jsonb_concat p e) = (tok, mk, true).
Proof.
  intros He. unfold cursor_of, listingCheckpointFromProgress, decodeJobRunPayload. rewrite !lookup_fmap, !lookup_concat.
  rewrite !(encoded_lookup _ _ _ He). unfold planningProgressFields.
  rewrite !(lookup_insert_ne _ "phase"), !(lookup_insert_ne _ "objects_listed") by done.
  rewrite lookup_insert_eq, (lookup_insert_ne _ "listing_complete") by done.
  assert (planned_fields counts !! "listing_checkpoint" = None) as -> by reflexivity. cbn [fmap option_fmap option_map].
  destruct ((from_json <$> p !! "listing_checkpoint") ≫= asNestedAttributeMap) as [raw|];
    cbn [lcContinuationToken lcMarker lcListingComplete]; intros [= <- <- Hc]; [|done].
  destruct (as_bool (raw !! "listing_complete")) as [b|]; cbn in Hc |- *; [by subst b|done].
Qed.

Section Plan.
Context (runID : string).

Definition is_child (r : JobRow) : Prop :=
  requested_by_type r = Some "job" /\ requested_by_id r = Some runID.
Definition child_keys (r : JobRow) : list string := payload_keys (input r).
Definition spilled (d : db) (k : string) : Prop := (runID, k) ∈ job_spill d.

(** ** Steps that keep the plan *)

Record same_rows (d d' : db) : Prop := {
  sp_keyed : keyed d -> keyed d';
  sp_rows : forall key r, job_runs d !! key = Some r -> exists r', job_runs d' !! key = Some r' /\ identity_of r' = identity_of r;
  sp_children : forall key r', job_runs d' !! key = Some r' -> is_child r' ->
    exists r, job_runs d !! key = Some r /\ identity_of r' = identity_of r;
  sp_spill : forall k, spilled d' k <-> spilled d k
}.

(** The cursor of the run is kept too. *)
Record same_plan (d d' : db) : Prop := {
  sp_same : same_rows d d';
  sp_cursor : forall r, job_runs d !! runID = Some r ->
    exists r', job_runs d' !! runID = Some r' /\ identity_of r' = identity_of r /\
      cursor_of (progress r') = cursor_of (progress r)
}.

#[export] Instance same_rows_preorder : PreOrder same_rows.
Proof.
split.
- intros d. split; try done; eauto.
- intros d1 d2 d3 [K1 R1 C1 S1] [K2 R2 C2 S2]. split.
  + auto.
  + intros key r Hr. destruct (R1 key r Hr) as (r' & Hr' & E1). destruct (R2 key r' Hr') as (r'' & Hr'' & E2).
    exists r''. split; [done|congruence].
  + intros key r Hr Hc. destruct (C2 key r Hr Hc) as (r' & Hr' & E2).
    assert (is_child r') as Hc' by (unfold is_child in *; injection E2; congruence).
    destruct (C1 key r' Hr' Hc') as (r'' & Hr'' & E1). exists r''. split; [done|congruence].
  + intros k. by rewrite S2.
Qed.

#[export] Instance same_plan_preorder : PreOrder same_plan.
Proof.
split.
- intros d. split; [done|eauto].
- intros d1 d2 d3 [S1 U1] [S2 U2]. split; [by transitivity d2|].
  intros r Hr. destruct (U1 r Hr) as (r' & Hr' & I1 & E1). destruct (U2 r' Hr') as (r'' & Hr'' & I2 & E2).
  exists r''. split_and!; [done|congruence..].
Qed.

Lemma identity_child r r' : identity_of r' = identity_of r -> is_child r' <-> is_child r.
Proof. unfold is_child. intros [=]. split; intros [? ?]; split; congruence. Qed.
Lemma identity_keys r r' : identity_of r' = identity_of r -> child_keys r' = child_keys r.
Proof. unfold child_keys. intros [=]. congruence. Qed.
Lemma identity_type r r' : identity_of r' = identity_of r -> type_ r' = type_ r.
Proof. intros [=]. congruence. Qed.

(** The statements of others: any, but those that end this run or act for it. *)
Definition foreign (o : op) : Prop :=
  match o with
  | OpCreate _ _ params => ~ (cRequestedByType params = "job" /\ cRequestedByID params = runID)
  | OpSucceed _ key _ | OpInsertKeys key _ | OpDeleteSpill key => key <> runID
  | OpProgress _ key p | OpAwait _ key _ p => key = runID -> no_cursor p
  | _ => True
  end.

Lemma foreign_spill o d k : keyed d -> foreign o -> spilled (run_op o d) k <-> spilled d k.
Proof.
intros Hk Hf. unfold spilled.
destruct o as [random now params|skip now worker types|now key p|now key p|now key message at_|now key message
  |interval skip now staleAfter limit|now key|now ty tid|now key res p|key keys|key]; cbn [run_op foreign] in *.
- unfold CreateJobRun, mbind, DB_bind. pose proof (resolveTraceID_db (newJobRunID random) params d) as Hd.
  destruct (resolveTraceID (newJobRunID random) params d) as [[t|e] d0]; cbn in Hd; subst d0; [|done].
  destruct (encoded_cases (cInput params) d) as [(e & _ & ->)|[_ [e ->]]]; [|done].
  match goal with |- context [insert_row ?r d] => by destruct (insert_row_cases r d) as [[err ->]|(_ & _ & ->)] end.
- by destruct (ClaimJobRun_cases skip now worker types d Hk) as [[-> _]|(r & _ & _ & _ & _ & ->)].
- unfold UpdateJobRunProgress, mbind, DB_bind. destruct (encoded_cases p d) as [(e & _ & ->)|[_ [e ->]]]; [|done].
  by destruct (update_row_cases key (fun _ => true) (progress_row now e) d) as [(r & _ & _ & ->)|[_ ->]].
- destruct (SucceedJobRun_cases now key p d) as [(r & e & _ & _ & ->)|[_ [err ->]]]; [|done]. cbn. set_solver.
- unfold RetryJobRun. match goal with |- context [update_row ?k ?p ?f d] => by destruct (update_row_cases k p f d) as [(r & _ & _ & ->)|[_ ->]] end.
- unfold FailJobRun. match goal with |- context [update_row ?k ?p ?f d] => by destruct (update_row_cases k p f d) as [(r & _ & _ & ->)|[_ ->]] end.
- done.
- by destruct (ResumeJobRun_cases now key d Hk) as [(r & _ & _ & _ & ->)|[err ->]].
- unfold FailActiveScanJobsForTarget, with_target. destruct (String.eqb ty ""); [done|]. by destruct (String.eqb tid "").
- unfold AwaitJobRunChildren, mbind, DB_bind. destruct (encoded_cases res d) as [(e & _ & ->)|[_ [e ->]]]; [|done].
  destruct (encoded_cases p d) as [(e' & _ & ->)|[_ [e' ->]]]; [|done].
  match goal with |- context [update_row ?k ?p ?f d] => by destruct (update_row_cases k p f d) as [(r & _ & _ & ->)|[_ ->]] end.
- unfold InsertKeys. repeat case_match; try done. cbn. rewrite elem_of_union, elem_of_list_to_set, list_elem_of_fmap.
  split; [|by right]. intros [(x & [= E' _] & _)|]; [congruence|done].
- unfold DeleteForJobRun. case_match; [done|]. cbn. set_solver.
Qed.

(** The progress of the run after a foreign statement. *)
Lemma foreign_cursor o d r :
  keyed d -> foreign o -> job_runs d !! runID = Some r ->
  exists r', job_runs (run_op o d) !! runID = Some r' /\ identity_of r' = identity_of r /\
    cursor_of (progress r') = cursor_of (progress r).
Proof.
intros Hk Hf Hr. pose proof (op_step o d Hk runID) as Hstep. rewrite Hr in Hstep.
destruct (job_runs (run_op o d) !! runID) as [r'|] eqn:Hr'; [|done]. destruct Hstep as (e & He & Hs).
exists r'. split; [done|]. split; [by eapply row_step_identity|].
destruct o as [| |now key p|now key p| | | | | |now key res p| |]; try (inversion Hs; subst; try done; by destruct He).
- destruct (decide (key = runID)) as [->|]; [|inversion Hs; subst; try done; by destruct He].
  specialize (Hf eq_refl). cbn [run_op] in Hr'. unfold UpdateJobRunProgress, mbind, DB_bind in Hr'.
  destruct (encoded_cases p d) as [(e' & He' & Ee)|[_ [e' Ee]]]; rewrite Ee in Hr'; [|cbn [snd run_op] in Hr'; congruence].
  unfold update_row in Hr'. rewrite Hr in Hr'. cbn in Hr'. rewrite lookup_insert_eq in Hr'.
  injection Hr' as <-. cbn. by eapply cursor_no_cursor.
- destruct (decide (key = runID)) as [->|]; [|inversion Hs; subst; try done; by destruct He].
  specialize (Hf eq_refl). cbn [run_op] in Hr'. unfold AwaitJobRunChildren, mbind, DB_bind in Hr'.
  destruct (encoded_cases res d) as [(e' & He' & Ee)|[_ [e' Ee]]]; rewrite Ee in Hr'; [|cbn [snd run_op] in Hr'; congruence].
  destruct (encoded_cases p d) as [(e2 & He2 & Ee2)|[_ [e2 Ee2]]]; rewrite Ee2 in Hr'; [|cbn [snd run_op] in Hr'; congruence].
  unfold update_row in Hr'. rewrite Hr in Hr'. case_bool_decide; [|cbn [snd] in Hr'; congruence].
  cbn [snd job_runs] in Hr'. rewrite lookup_insert_eq in Hr'. injection Hr' as <-. cbn.
  destruct (size e2) eqn:Hsz; [done|]. cbn. by eapply cursor_no_cursor.
Qed.

Lemma foreign_same o d : keyed d -> foreign o -> same_plan d (run_op o d).
Proof.
intros Hk Hf. pose proof (op_step o d Hk) as Hstep. split; [|intros r Hr; by apply foreign_cursor]. split.
- intros _. by eapply table_step_keyed.
- intros key r Hr. specialize (Hstep key). rewrite Hr in Hstep.
  destruct (job_runs (run_op o d) !! key) as [r'|]; [|done]. destruct Hstep as (e & _ & Hs).
  exists r'. split; [done|]. by eapply row_step_identity.
- intros key r' Hr' [Ht Hid]. specialize (Hstep key). rewrite Hr' in Hstep.
  destruct (job_runs d !! key) as [r|].
  + destruct Hstep as (e & _ & Hs). exists r. split; [done|]. by eapply row_step_identity.
  + exfalso. destruct Hstep as (_ & _ & random & now & params & -> & _ & _ & E1 & E2).
    rewrite E1 in Ht. rewrite E2 in Hid. apply nullableString_Some in Ht as [Ht _], Hid as [Hid _]. by apply Hf.
- intros k. by apply foreign_spill.
Qed.

Lemma foreign_ops_same ops d : keyed d -> Forall foreign ops -> same_plan d (run_ops ops d).
Proof.
revert d. induction ops as [|o ops IH]; intros d Hk Hf; [done|].
apply list.Forall_cons in Hf as [Ho Hf]. cbn. transitivity (run_op o d); [by apply foreign_same|].
apply IH; [|done]. by apply (sp_keyed _ _ (sp_same _ _ (foreign_same o d Hk Ho))).
Qed.

(** ** The plan *)

(** [G type key]: the plan puts the key in a child job of the type.  [K key]: it
    does nothing with the key. *)
Context (G : string -> string -> Prop) (K : string -> Prop).

Record planned (d : db) : Prop := {
  pl_keyed : keyed d;
  pl_spilled : forall key r k, job_runs d !! key = Some r -> is_child r -> k ∈ child_keys r -> spilled d k;
  pl_nodup : forall key r, job_runs d !! key = Some r -> is_child r -> NoDup (child_keys r);
  pl_once : forall key1 r1 key2 r2 k, job_runs d !! key1 = Some r1 -> job_runs d !! key2 = Some r2 ->
    is_child r1 -> is_child r2 -> k ∈ child_keys r1 -> k ∈ child_keys r2 -> key1 = key2;
  pl_size : forall key r, job_runs d !! key = Some r -> is_child r ->
    Z.of_nat (List.length (child_keys r)) <= childJobBatchSize;
  pl_good : forall key r k, job_runs d !! key = Some r -> is_child r -> k ∈ child_keys r -> G (type_ r) k;
  pl_rest : forall k, spilled d k -> K k \/ exists key r, job_runs d !! key = Some r /\ is_child r /\ k ∈ child_keys r
}.

Lemma planned_same d d' : planned d -> same_rows d d' -> planned d'.
Proof.
intros P S. assert (forall key r', job_runs d' !! key = Some r' -> is_child r' ->
  exists r, job_runs d !! key = Some r /\ is_child r /\ child_keys r' = child_keys r /\ type_ r' = type_ r) as back.
{ intros key r' Hr' Hc. destruct (sp_children _ _ S key r' Hr' Hc) as (r & Hr & Hid). exists r.
  split; [done|]. split; [by apply (identity_child r r')|]. split; [by apply identity_keys|by apply identity_type]. }
split.
- apply (sp_keyed _ _ S), P.
- intros key r' k Hr' Hc Hk. destruct (back key r' Hr' Hc) as (r & Hr & Hcr & E & _). rewrite E in Hk.
  apply (sp_spill _ _ S). by apply (pl_spilled _ P key r).
- intros key r' Hr' Hc. destruct (back key r' Hr' Hc) as (r & Hr & Hcr & E & _). rewrite E. by apply (pl_nodup _ P key).
- intros key1 r1 key2 r2 k H1 H2 C1 C2 K1 K2. destruct (back _ _ H1 C1) as (r1' & ? & ? & E1 & _).
  destruct (back _ _ H2 C2) as (r2' & ? & ? & E2 & _). rewrite E1 in K1. rewrite E2 in K2.
  by apply (pl_once _ P key1 r1' key2 r2' k).
- intros key r' Hr' Hc. destruct (back key r' Hr' Hc) as (r & Hr & Hcr & E & _). rewrite E. by apply (pl_size _ P key).
- intros key r' k Hr' Hc Hk. destruct (back key r' Hr' Hc) as (r & Hr & Hcr & E & ET). rewrite E in Hk. rewrite ET.
  by apply (pl_good _ P key r).
- intros k Hk. apply (sp_spill _ _ S) in Hk. destruct (pl_rest _ P k Hk) as [|(key & r & Hr & Hc & Hin)]; [by left|].
  right. destruct (sp_rows _ _ S key r Hr) as (r' & Hr' & Hid). exists key, r'. split; [done|].
  split; [by apply (identity_child r r')|]. by rewrite (identity_keys r r').
Qed.

(** ** What the statements of the handler do *)

(** The plan, with exactly these keys spilled, that cursor and this run. *)
Context (ident : JobRow).

Definition at_cursor (cur : cursor) (d : db) : Prop :=
  exists r, job_runs d !! runID = Some r /\ identity_of r = identity_of ident /\ cursor_of (progress r) = cur.

Definition tracks (X : gset string) (cur : cursor) (d : db) : Prop :=
  planned d /\ (forall k, spilled d k <-> k ∈ X) /\ at_cursor cur d.

Lemma tracks_same X cur d d' : tracks X cur d -> same_plan d d' -> tracks X cur d'.
Proof.
intros (P & HX & r & Hr & Hid & Hc) S. split; [eapply planned_same; [done|apply S]|]. split.
- intros k. by rewrite (sp_spill _ _ (sp_same _ _ S)).
- destruct (sp_cursor _ _ S r Hr) as (r' & Hr' & Hid' & Hc'). exists r'. split_and!; [done|congruence..].
Qed.

Lemma InsertKeys_cases keys d :
  (exists e, InsertKeys runID keys d = (Err e, d)) \/
  (runID <> "" /\
   InsertKeys runID keys d = (Ok tt, mkDB (job_runs d) (list_to_set (map (pair runID) keys) ∪ job_spill d))).
Proof.
unfold InsertKeys. destruct (String.eqb_spec runID ""); [eauto|]. destruct keys as [|k keys].
- right. split; [done|]. cbn. rewrite union_empty_l_L. by destruct d.
- case (Z.eqb_spec (Z.of_nat (List.length (k :: keys))) 0); [cbn [List.length]; lia|intros _]. destruct (existsb _ _); [eauto|].
  case_bool_decide; [|eauto]. by right.
Qed.

Lemma spilled_insert keys d k :
  spilled (mkDB (job_runs d) (list_to_set (map (pair runID) keys) ∪ job_spill d)) k <-> k ∈ keys \/ spilled d k.
Proof.
unfold spilled. cbn. rewrite elem_of_union, elem_of_list_to_set, list_elem_of_fmap. split.
- intros [(k' & [= <-] & Hk)|Hk]; auto.
- intros [Hk|Hk]; [left; eauto|by right].
Qed.

(** Spilling keys the plan does nothing with. *)
Lemma InsertKeys_tracks X cur keys d :
  tracks X cur d -> (forall k, k ∈ keys -> K k) ->
  match InsertKeys runID keys d with
  | (Ok _, d') => tracks (X ∪ list_to_set keys) cur d'
  | (Err _, d') => d' = d
  end.
Proof.
intros (P & HX & HC) HK. destruct (InsertKeys_cases keys d) as [[e ->]|[_ ->]]; [done|]. split_and!; [| |done].
- destruct P as [Pk Ps Pn Po Pz Pg Pr]. split; cbn [job_runs]; try done.
  + intros key r k Hr Hc Hk. apply spilled_insert. right. by apply (Ps key r).
  + intros k [Hk|Hk]%spilled_insert; [left; by apply HK|]. by apply Pr.
- intros k. rewrite spilled_insert, elem_of_union, elem_of_list_to_set, HX. tauto.
Qed.

(** Creating a child job of the run. *)
Lemma CreateJobRun_child random now jobType bucketID batch d :
  runID <> "" ->
  (exists e, CreateJobRun random now (child_params jobType bucketID runID batch) d = (Err e, d)) \/
  (exists r, CreateJobRun random now (child_params jobType bucketID runID batch) d =
       (Ok (scanJobRun r), mkDB (<[id r := r]> (job_runs d)) (job_spill d)) /\
     job_runs d !! id r = None /\ is_child r /\ type_ r = jobType /\ child_keys r = map evKey batch).
Proof.
intros Hne. unfold CreateJobRun, mbind, DB_bind. set (params := child_params jobType bucketID runID batch).
pose proof (resolveTraceID_db (newJobRunID random) params d) as Hd.
destruct (resolveTraceID (newJobRunID random) params d) as [[t|e] d0]; cbn in Hd; subst d0; [|eauto].
destruct (encoded_cases (cInput params) d) as [(e & He & ->)|[_ [e ->]]]; [|eauto].
match goal with |- context [insert_row ?r d] => set (row := r); destruct (insert_row_cases row d) as [[err ->]|(Hno & _ & ->)] end;
  [eauto|]. right. exists row. split_and!; try done.
- split; [done|]. cbn. unfold nullableString. by destruct (String.eqb_spec runID "").
- apply (encoded_child_keys bucketID runID batch e He).
Qed.

(** The transaction of a batch: all its keys are spilled and in one new child. *)
Lemma enqueue_batch_tracks `{MapOrder} E n X cur jobType bucketID batch s :
  tracks X cur (jobs s) -> (forall ev, ev ∈ batch -> evKey ev ∉ X /\ G jobType (evKey ev)) -> NoDup (map evKey batch) ->
  Z.of_nat (List.length batch) <= childJobBatchSize ->
  match enqueue_batch E n runID bucketID jobType batch s with
  | (Ok run, s') => tracks (X ∪ list_to_set (map evKey batch)) cur (jobs s') /\ catalog s' = catalog s
  | (Err _, s') => s' = s
  end.
Proof.
intros (P & HX & HC) Hnew Hnd Hsz. unfold enqueue_batch, WithTx, mbind, M_bind. rewrite on_jobs_eq.
unfold keysFromObjectEvidence.
destruct (InsertKeys_cases (map evKey batch) (jobs s)) as [[e ->]|[Hne ->]]; [done|]. cbn [fst snd]. rewrite on_jobs_eq.
cbn [jobs set_jobs]. set (d1 := mkDB _ _).
destruct (CreateJobRun_child (random E n) (db_now E n) jobType bucketID batch d1 Hne)
  as [[e ->]|(r & -> & Hno & Hc & Hty & Hkeys)]; [done|]. cbn [fst snd jobs set_jobs].
assert (forall k, spilled (mkDB (<[id r := r]> (job_runs d1)) (job_spill d1)) k <-> k ∈ map evKey batch \/ spilled (jobs s) k) as Hsp
  by (intros k; apply (spilled_insert (map evKey batch) (jobs s) k)).
split; [|done]. split_and!.
- destruct P as [Pk Ps Pn Po Pz Pg Pr]. split; cbn [job_runs].
  + intros key r'. cbn [job_runs]. rewrite lookup_insert_Some. intros [[<- <-]|[_ Hr']]; [done|by apply Pk].
  + intros key r' k. rewrite lookup_insert_Some. intros [[<- <-]|[_ Hr']] Hc' Hk; apply Hsp.
    * left. by rewrite <- Hkeys.
    * right. by apply (Ps key r').
  + intros key r'. rewrite lookup_insert_Some. intros [[<- <-]|[_ Hr']] Hc'; [by rewrite Hkeys|by apply (Pn key)].
  + assert (forall key r' k, job_runs (jobs s) !! key = Some r' -> is_child r' -> k ∈ child_keys r' -> k ∈ map evKey batch -> False)
      as Hdis.
    { intros key r' k Hr' Hc' Hk (ev & -> & Hev)%list_elem_of_fmap. apply (Hnew ev Hev). apply HX. by apply (Ps key r'). }
    intros key1 r1 key2 r2 k. rewrite !lookup_insert_Some.
    intros [[<- <-]|[_ H1]] [[<- <-]|[_ H2]] C1 C2 K1 K2; [done| | |by apply (Po key1 r1 key2 r2 k)].
    * exfalso. apply (Hdis key2 r2 k); [done..|]. by rewrite <- Hkeys.
    * exfalso. apply (Hdis key1 r1 k); [done..|]. by rewrite <- Hkeys.
  + intros key r'. rewrite lookup_insert_Some. intros [[<- <-]|[_ Hr']] Hc'; [by rewrite Hkeys, length_map|by apply (Pz key)].
  + intros key r' k. rewrite lookup_insert_Some. intros [[<- <-]|[_ Hr']] Hc' Hk; [|by apply (Pg key r')].
    rewrite Hkeys in Hk. apply list_elem_of_fmap in Hk as (ev & -> & Hev). rewrite Hty. by apply Hnew.
  + intros k Hk. apply Hsp in Hk as [Hk|Hk].
    * right. exists (id r), r. rewrite lookup_insert_eq. split; [done|]. split; [done|]. by rewrite Hkeys.
    * destruct (Pr k Hk) as [|(key & r' & Hr' & Hc' & Hin)]; [by left|]. right. exists key, r'. split; [|done].
      rewrite lookup_insert_ne; [done|]. intros <-. change (job_runs d1) with (job_runs (jobs s)) in Hno. congruence.
- intros k. rewrite Hsp, elem_of_union, elem_of_list_to_set, HX. tauto.
- destruct HC as (r0 & Hr0 & HC). exists r0. cbn [job_runs]. rewrite lookup_insert_ne; [done|]. intros E'.
  change (job_runs d1) with (job_runs (jobs s)) in Hno. rewrite E' in Hno. congruence.
Qed.

(** The handler's own progress. *)
Lemma UpdateJobRunProgress_tracks X cur now fields d :
  tracks X cur d ->
  match UpdateJobRunProgress now runID fields d with
  | (Ok _, d') => forall cur', (forall p e, encodeJobRunPayload fields = Some e -> cursor_of p = cur ->
      cursor_of (jsonb_concat p e) = cur') -> tracks X cur' d'
  | (Err _, d') => d' = d
  end.
Proof.
intros (P & HX & r & Hr & Hid & Hc). unfold UpdateJobRunProgress, mbind, DB_bind.
destruct (encoded_cases fields d) as [(e & He & ->)|[_ [e ->]]]; [|done].
unfold update_row. rewrite Hr. intros cur' Hcur.
set (d' := mkDB _ _). assert (same_rows d d') as Hsame.
{ split; unfold d'; cbn [job_runs].
  - intros Hk key r'. cbn [job_runs]. rewrite lookup_insert_Some. intros [[<- <-]|[_ Hr']]; [by apply (Hk runID r)|by apply Hk].
  - intros key r0 Hr0. destruct (decide (runID = key)) as [<-|Hne].
    + rewrite lookup_insert_eq. eexists. split; [done|]. assert (r0 = r) as -> by congruence. done.
    + rewrite lookup_insert_ne by done. eauto.
  - intros key r'. rewrite lookup_insert_Some. intros [[<- <-]|[_ Hr']] _; eauto.
  - done. }
split_and!; [by eapply planned_same|done|]. eexists. cbn [job_runs d']. rewrite lookup_insert_eq. split; [done|]. split; [done|].
cbn. by apply Hcur.
Qed.
End Plan.
