(* ===== verification/SyncBucketProofs.v ===== *)
(** * SyncBucketProofs

    What a sync_bucket run guarantees, over any number of attempts, among other
    workers, with any failures of statements and of the upstream. *)
From S2P Require Import Prelude GoStrings GoFloat GoTime Verification JobPayload JobRuns JobTrace JobRunProofs ErrState.
From S2P Require Import S3Listing Catalog Buckets ObjectStore ObjectPlan SyncBucket SyncPlan.
Local Open Scope Z_scope.

(** What the tables of the catalog guarantee: the unique index on (bucket_id, key) of
    the objects, and the primary key of the buckets. *)
Definition unique_keys (c : Catalog) : Prop :=
  forall id1 r1 id2 r2, objects c !! id1 = Some r1 -> objects c !! id2 = Some r2 ->
    obucket_id r1 = obucket_id r2 -> okey r1 = okey r2 -> id1 = id2.
Definition keyed_buckets (c : Catalog) : Prop := forall id b, buckets c !! id = Some b -> bID b = id.

(** ** Reading the objects of a page *)

Lemma scanObject_eq r obj : scanObject r = Ok obj -> oID obj = oid r /\ oKey obj = okey r /\ oBucketID obj = obucket_id r.
Proof. unfold scanObject. intros ([a b] & _ & [= <-])%bind_Ok. done. Qed.

Lemma mapM_result_elem {E A B} (f : A -> result E B) l ys :
  mapM_result f l = Ok ys -> (forall x, x ∈ l -> exists y, y ∈ ys /\ f x = Ok y) /\ (forall y, y ∈ ys -> exists x, x ∈ l /\ f x = Ok y).
Proof.
  intros HF%mapM_result_Ok. induction HF as [|x y l ys Hxy _ [IH1 IH2]].
  - split; intros ? ?%not_elem_of_nil; done.
  - split.
    + intros z [->|Hz]%elem_of_cons; [exists y; split; [left|done]|].
      destruct (IH1 z Hz) as (y' & Hy' & Hf). exists y'. split; [by right|done].
    + intros z [->|Hz]%elem_of_cons; [exists x; split; [left|done]|].
      destruct (IH2 z Hz) as (x' & Hx' & Hf). exists x'. split; [by right|done].
Qed.

(** A row that [GetObjectsByBucketAndKeys] selects. *)
Definition local_row (c : Catalog) (bucketID key : string) (r : ObjectRow) : Prop :=
  (exists id, objects c !! id = Some r) /\ obucket_id r = bucketID /\ okey r = key.

Lemma GetObjects_catalog bucketID keys c : (GetObjectsByBucketAndKeys bucketID keys c).2 = c.
Proof.
  unfold GetObjectsByBucketAndKeys, scan_rows, of_result. destruct (String.eqb bucketID ""); [done|].
  destruct keys; [done|]. by destruct (mapM_result _ _).
Qed.

Lemma GetObjects_spec bucketID keys c objs c' :
  keys <> [] -> GetObjectsByBucketAndKeys bucketID keys c = (Ok objs, c') ->
  c' = c /\
  (forall obj, obj ∈ objs -> oKey obj ∈ keys /\ exists r, local_row c bucketID (oKey obj) r /\ scanObject r = Ok obj) /\
  (forall r key, key ∈ keys -> local_row c bucketID key r -> exists obj, obj ∈ objs /\ scanObject r = Ok obj).
Proof.
  intros Hne. unfold GetObjectsByBucketAndKeys. destruct (String.eqb bucketID ""); [done|].
  destruct keys as [|k0 keys0]; [done|]. set (keys := k0 :: keys0) in *. unfold scan_rows, of_result.
  set (l := List.filter _ _). destruct (mapM_result scanObject l) as [objs'|e] eqn:Em; [|done].
  intros [= -> ->]. apply mapM_result_elem in Em as [E1 E2]. split; [done|].
  assert (forall r, r ∈ l <-> (exists id, objects c' !! id = Some r) /\ obucket_id r = bucketID /\ okey r ∈ keys) as Hl.
  { intros r. unfold l. rewrite list_elem_of_In, filter_In, <- list_elem_of_In, elem_of_table_rows, andb_true_iff,
      String.eqb_eq, bool_decide_eq_true. tauto. }
  split.
  - intros obj Hobj. destruct (E2 obj Hobj) as (r & Hr & Hs). apply Hl in Hr as (Hr & Hb & Hk).
    destruct (scanObject_eq r obj Hs) as (_ & Hkey & _). split; [by rewrite Hkey|]. exists r. split; [|done].
    split_and!; done.
  - intros r key Hk (Hr & Hb & Hkey). apply E1. apply Hl. rewrite Hkey. done.
Qed.

Section Sync.
Context `{MapOrder, Collation} (runID : string) (ident : JobRow) (inp : SyncBucketInput).
(** The plan: [G type key] puts a key in a child job of the type, [K key] leaves it
    alone. *)
Context (G : string -> string -> Prop) (K : string -> Prop).
(** The states of the catalog, and the pages the upstream serves at a cursor. *)
Context (C : Catalog -> Prop) (serves : string -> string -> ObjectPage -> Prop).

Notation tracks := (tracks runID G K ident).
Notation planned := (planned runID G K).
Notation matches := (matches_partition (siPartition inp)).

(** A chain of pages: each is served at the cursor of the one before it. *)
Inductive path : list ObjectPage -> string -> string -> Prop :=
| path_start : path [] "" ""
| path_next pages tok mk page :
    path pages tok mk -> serves tok mk page -> IsTruncated page = true ->
    path (pages ++ [page]) (NextContinuationToken page) (NextMarker page).

(** A chain that the last page ends. *)
Definition complete (pages : list ObjectPage) : Prop :=
  exists init tok mk page, pages = init ++ [page] /\ path init tok mk /\ serves tok mk page /\ IsTruncated page = false.

Definition covers (pages : list ObjectPage) (X : gset string) : Prop :=
  forall page o, page ∈ pages -> o ∈ Objects page -> matches (lKey o) = true -> lKey o ∈ X.

(** The cursor of the run never goes beyond what is spilled. *)
Definition safe (X : gset string) (cur : cursor) : Prop :=
  let '(tok, mk, done) := cur in
  if done : bool then exists pages, complete pages /\ covers pages X
  else exists pages, path pages tok mk /\ covers pages X.

Definition good (d : db) : Prop := exists X cur, tracks X cur d /\ safe X cur.

Lemma covers_mono pages X Y : covers pages X -> X ⊆ Y -> covers pages Y.
Proof. intros Hc HXY page o Hp Ho Hm. apply HXY. by eapply Hc. Qed.

Lemma safe_mono X Y cur : safe X cur -> X ⊆ Y -> safe Y cur.
Proof.
destruct cur as [[tok mk] [|]]; cbn; intros (pages & Hp & Hc) HXY; exists pages; (split; [done|]); by eapply covers_mono.
Qed.

(** A bucket that the run may read. *)
Definition bucket_of (b : Bucket) : Prop :=
  exists c b0, C c /\ buckets c !! siBucketID inp = Some b0 /\ b = scanBucket b0.

Definition list_prefix (b : Bucket) : string := EffectiveListPrefix (bPrefix b) (siScopePrefix inp).

(** The environment of an attempt: the other transactions are statements of the
    store that do not end the run or act for it. *)
Record env_ok (E : Env) : Prop := {
  eo_others n s : exists ops, jobs (others E n s) = run_ops ops (jobs s) /\ Forall (foreign runID) ops;
  eo_catalog n s : C (catalog s) -> C (catalog (others E n s));
  eo_serves b client n tok mk page : bucket_of b -> client_for E b = Ok client ->
    client n (mkListInput (bBucketName b) (list_prefix b) tok mk) = Ok page -> serves tok mk page
}.

Definition no_local (c : Catalog) (key : string) : Prop :=
  forall id r, objects c !! id = Some r -> obucket_id r = siBucketID inp -> okey r <> key.

Definition listed (o : ListedObject) : Prop :=
  exists pages tok mk page, path pages tok mk /\ serves tok mk page /\ o ∈ Objects page /\ matches (lKey o) = true.

(** The plan agrees with the catalog and the listing. *)
Record plan_ok : Prop := {
  po_bucket : siBucketID inp <> "";
  po_unique c : C c -> unique_keys c;
  po_buckets c : C c -> keyed_buckets c;
  po_import c o : C c -> listed o -> no_local c (lKey o) -> G JobTypeImportObjects (lKey o);
  po_refresh c o id r obj : C c -> listed o -> objects c !! id = Some r -> obucket_id r = siBucketID inp ->
    okey r = lKey o -> scanObject r = Ok obj -> ObjectChanged o obj = true -> G JobTypeRefreshObjects (lKey o);
  po_keep c o id r obj : C c -> listed o -> objects c !! id = Some r -> obucket_id r = siBucketID inp ->
    okey r = lKey o -> scanObject r = Ok obj -> ObjectChanged o obj = false -> K (lKey o);
  po_remove c b pages X id r : C c -> bucket_of b -> complete pages -> covers pages X -> objects c !! id = Some r ->
    in_scope (mkScope (siBucketID inp) (list_prefix b)) r = true -> matches (okey r) = true -> okey r ∉ X ->
    G JobTypeRemoveObjects (okey r)
}.
Context (PO : plan_ok).

Section Attempt.
Context (E : Env) (EO : env_ok E).

Definition T (X : gset string) (cur : cursor) (w : World) : Prop :=
  tracks X cur (jobs (store w)) /\ C (catalog (store w)).
Definition Fail (e : run_error) (w : World) : Prop := good (jobs (store w)) /\ C (catalog (store w)).

Lemma tracks_others X cur n s : tracks X cur (jobs s) -> tracks X cur (jobs (others E n s)).
Proof.
intros HT. destruct (eo_others E EO n s) as (ops & -> & Hops). eapply tracks_same; [exact HT|].
apply foreign_ops_same; [|done]. apply HT.
Qed.

Lemma good_intro X cur d : tracks X cur d -> safe X cur -> good d.
Proof. intros. by exists X, cur. Qed.

Lemma Fail_intro X cur e w : T X cur w -> safe X cur -> Fail e w.
Proof. intros [HT HC] Hs. split; [by eapply good_intro|done]. Qed.

(** The rule of a statement, which leaves the catalog alone. *)
Lemma stmt_triple {A} X cur (m : nat -> M Store A) (Q : A -> db -> Prop) :
  safe X cur ->
  (forall n s, tracks X cur (jobs s) -> C (catalog s) ->
     catalog (m n s).2 = catalog s /\
     match m n s with
     | (Ok a, s') => Q a (jobs s') /\ good (jobs s')
     | (Err _, s') => good (jobs s')
     end) ->
  triple (T X cur) (stmt E m) (fun a w => Q a (jobs (store w)) /\ C (catalog (store w))) Fail.
Proof.
intros Hs Hm w [HT HCw]. unfold stmt. set (s := others E (clock w) (store w)).
assert (tracks X cur (jobs s)) as HT' by (by apply tracks_others).
assert (C (catalog s)) as HC by (by apply (eo_catalog E EO)).
destruct (Hm (clock w) s HT' HC) as [Hcat Hm']. destruct (fault E (clock w)) as [[e|e]|].
- cbn. split; [by eapply good_intro|done].
- destruct (m (clock w) s) as [[a|e'] s']; cbn in *; rewrite <- Hcat in HC; split; try done; apply Hm'.
- destruct (m (clock w) s) as [[a|e'] s']; cbn in *; rewrite <- Hcat in HC; (split; [|done]); apply Hm'.
Qed.

(** A statement that changes nothing the plan depends on. *)
Lemma stmt_same {A} X cur (m : nat -> M Store A) (Q : A -> Prop) :
  safe X cur ->
  (forall n s, C (catalog s) ->
     catalog (m n s).2 = catalog s /\ same_plan runID (jobs s) (jobs (m n s).2) /\ forall a, (m n s).1 = Ok a -> Q a) ->
  triple (T X cur) (stmt E m) (fun a w => Q a /\ T X cur w) Fail.
Proof.
intros Hs Hm. eapply triple_post.
- eapply (stmt_triple X cur m (fun a d => Q a /\ tracks X cur d)); [done|]. intros n s HT HC.
  destruct (Hm n s HC) as (Hcat & Hsame & HQ). split; [done|]. destruct (m n s) as [[a|e] s']; cbn in Hsame, HQ.
  + assert (tracks X cur (jobs s')) by (by eapply tracks_same). split; [split; [by apply HQ|done]|by eapply good_intro].
  + eapply good_intro; [by eapply tracks_same|done].
- intros a w [[HQ HT] HC]. by split.
- done.
Qed.

Lemma updateProgress_triple X cur cur' fields :
  safe X cur -> safe X cur' ->
  (forall now p e, encodeJobRunPayload (fields now) = Some e -> cursor_of p = cur -> cursor_of (jsonb_concat p e) = cur') ->
  triple (T X cur) (updateProgress E runID fields) (fun _ => T X cur') Fail.
Proof.
intros Hs Hs' Hcur w HT. unfold updateProgress, mbind, M_bind at 1. cbn [gets].
pose proof (stmt_triple X cur (fun n => on_jobs (UpdateJobRunProgress (db_now E n) runID (fields (go_now E (clock w)))))
  (fun _ d => tracks X cur' d) Hs) as Hst.
lapply Hst; [clear Hst; intros Hst|].
- specialize (Hst w HT). unfold M_bind. destruct (stmt E _ w) as [[r|e] w']; exact Hst.
- intros n s HT' _. rewrite on_jobs_eq. split; [done|].
  pose proof (UpdateJobRunProgress_tracks runID G K ident X cur (db_now E n) (fields (go_now E (clock w))) (jobs s) HT') as Hu.
  destruct (UpdateJobRunProgress _ _ _ _) as [[r|e] d']; cbn.
  + assert (tracks X cur' d') as HT2 by (apply Hu; intros; by eapply Hcur). split; [done|by eapply good_intro].
  + subst d'. by eapply good_intro.
Qed.

(** ** Enqueueing *)

Definition keys_set (objects : list ObjectEvidence) : gset string := list_to_set (map evKey objects).

Definition enqueue_each (bucketID jobType : string) (batch : list ObjectEvidence) : M World unit :=
  childRun ← stmt E (fun n => enqueue_batch E n runID bucketID jobType batch);
  record_batch jobType batch childRun.

Lemma enqueue_batch_catalog n bucketID jobType batch s :
  catalog (enqueue_batch E n runID bucketID jobType batch s).2 = catalog s.
Proof.
unfold enqueue_batch, WithTx, mbind, M_bind. rewrite on_jobs_eq.
destruct (InsertKeys _ _ (jobs s)) as [[u|e] d]; cbn [fst snd]; [|done]. rewrite on_jobs_eq.
by destruct (CreateJobRun _ _ _ _) as [[r|e] d'].
Qed.

Lemma enqueue_each_triple X cur bucketID jobType bs :
  safe X cur ->
  (forall ev, ev ∈ List.concat bs -> evKey ev ∉ X /\ G jobType (evKey ev)) -> NoDup (map evKey (List.concat bs)) ->
  Forall (fun b => Z.of_nat (List.length b) <= childJobBatchSize) bs ->
  triple (T X cur) (for_each (enqueue_each bucketID jobType) bs) (fun _ => T (X ∪ keys_set (List.concat bs)) cur) Fail.
Proof.
intros Hs Hnew Hnd Hsz.
eapply triple_pre; [|refine (triple_for_each (fun pre w => T (X ∪ keys_set (List.concat pre)) cur w) Fail _ bs _)].
{ intros w HT. unfold T, keys_set. cbn. by rewrite union_empty_r_L. }
intros pre batch suf Hbs.
assert (safe (X ∪ keys_set (List.concat pre)) cur) as Hs' by (eapply safe_mono; [exact Hs|set_solver]).
rewrite Hbs in Hnew, Hnd, Hsz. rewrite concat_app in Hnew, Hnd. cbn [List.concat] in Hnew, Hnd.
rewrite !map_app in Hnd. apply list.NoDup_app in Hnd as (Hnd1 & Hdis & Hnd2).
apply list.NoDup_app in Hnd2 as (Hnd2 & _ & _).
apply Forall_app in Hsz as [_ Hsz]. apply list.Forall_cons in Hsz as [Hsz _].
eapply triple_bind.
- eapply (stmt_triple _ cur (fun n => enqueue_batch E n runID bucketID jobType batch)
    (fun _ d => tracks (X ∪ keys_set (List.concat pre) ∪ keys_set batch) cur d)); [done|].
  intros n s HT _. split; [apply enqueue_batch_catalog|].
  pose proof (enqueue_batch_tracks runID G K ident E n (X ∪ keys_set (List.concat pre)) cur jobType bucketID batch s HT) as Hq.
  assert (forall ev, ev ∈ batch -> evKey ev ∉ X ∪ keys_set (List.concat pre) /\ G jobType (evKey ev)) as Hb.
  { intros ev Hev. destruct (Hnew ev) as [HnX HG].
    { apply elem_of_app. right. apply elem_of_app. by left. }
    split; [|done]. intros [?|Hin]%elem_of_union; [done|]. apply elem_of_list_to_set in Hin.
    apply (Hdis (evKey ev) Hin). apply elem_of_app. left. by apply list_elem_of_fmap_2. }
  specialize (Hq Hb Hnd2 Hsz). destruct (enqueue_batch E n runID bucketID jobType batch s) as [[run|err] s''].
  + destruct Hq as [Hq _]. split; [exact Hq|]. eapply good_intro; [exact Hq|]. eapply safe_mono; [exact Hs|set_solver].
  + rewrite Hq. by eapply good_intro.
- intros childRun w HT. unfold record_batch, puts. cbn. unfold T in *. cbn.
  replace (X ∪ keys_set (List.concat (pre ++ [batch]))) with (X ∪ keys_set (List.concat pre) ∪ keys_set batch); [exact HT|].
  unfold keys_set. rewrite concat_app. cbn. rewrite app_nil_r, map_app, list_to_set_app_L. set_solver.
Qed.

Lemma enqueue_triple X cur bucketID jobType objects :
  safe X cur ->
  (forall ev, ev ∈ objects -> evKey ev ∉ X /\ G jobType (evKey ev)) -> NoDup (map evKey objects) ->
  triple (T X cur) (enqueueMutationJobs E runID bucketID jobType objects)
    (fun _ => T (X ∪ keys_set objects) cur) Fail.
Proof.
intros Hs Hnew Hnd. destruct (batches_spec objects childJobBatchSize) as [Hcat Hsz].
assert (triple (T X cur) (for_each (enqueue_each bucketID jobType) (batches objects childJobBatchSize))
  (fun _ => T (X ∪ keys_set objects) cur) Fail) as Ht.
{ pose proof (enqueue_each_triple X cur bucketID jobType (batches objects childJobBatchSize) Hs) as Hb.
  rewrite Hcat in Hb. apply Hb; [done..|].
  eapply list.Forall_impl; [exact Hsz|]. intros b [_ Hlen]. by apply Hlen. }
destruct objects; exact Ht.
Qed.
(** ** A page *)

Lemma elem_of_omap_range {A} site (f : string * A -> option ObjectEvidence) (m : gmap string A) ev :
  ev ∈ omap f (range_map site m) <-> exists key a, m !! key = Some a /\ f (key, a) = Some ev.
Proof.
rewrite list_elem_of_omap. split.
- intros ([key a] & Hin & Hf). apply elem_of_range_map in Hin. eauto.
- intros (key & a & Hm & Hf). exists (key, a). split; [by apply elem_of_range_map|done].
Qed.

Lemma plan_page site c objs pending imports refreshes removes :
  C c -> (forall o, o ∈ pending -> listed o) ->
  GetObjectsByBucketAndKeys (siBucketID inp) (map lKey pending) c = (Ok objs, c) -> pending <> [] ->
  PlanObjectMutationsForListedObjects site pending objs = (imports, refreshes, removes) ->
  (forall ev, ev ∈ imports -> evKey ev ∈ map lKey pending /\ G JobTypeImportObjects (evKey ev)) /\
  (forall ev, ev ∈ refreshes -> evKey ev ∈ map lKey pending /\ G JobTypeRefreshObjects (evKey ev)) /\
  NoDup (map evKey imports) /\ NoDup (map evKey refreshes) /\
  (forall k, k ∈ map evKey imports -> k ∉ map evKey refreshes) /\
  (forall k, k ∈ map lKey pending -> k ∉ map evKey imports -> k ∉ map evKey refreshes -> K k).
Proof.
intros HC Hlisted Hget Hne Hplan.
assert (map lKey pending <> []) as Hne' by (by destruct pending).
destruct (GetObjects_spec _ _ _ _ _ Hne' Hget) as (_ & Hobjs & Hall).
unfold PlanObjectMutationsForListedObjects, PlanObjectMutations in Hplan.
rewrite plan_upstream_omap in Hplan. cbn [app fst snd] in Hplan.
set (local := by_key oKey objs) in *. set (up := by_key lKey pending) in *.
injection Hplan as Hi Hr _.
assert (forall k o, up !! k = Some o -> o ∈ pending /\ lKey o = k) as Hup by (intros; by apply lookup_by_key).
assert (forall k o, up !! k = Some o -> local !! k = None -> no_local c k) as Hnone.
{ intros k o Hk Hloc id r Hr' Hb Hkey. destruct (Hup k o Hk) as [Ho <-].
  destruct (Hall r (lKey o)) as (obj & Hobj & Hs); [by apply list_elem_of_fmap_2|split; [by exists id|done]|].
  destruct (scanObject_eq r obj Hs) as (_ & Hk' & _).
  assert (is_Some (local !! lKey o)) as [x Hx]; [|congruence].
  apply by_key_is_Some. rewrite <- Hkey, <- Hk'. by apply list_elem_of_fmap_2. }
assert (forall k obj, local !! k = Some obj ->
  exists id r, objects c !! id = Some r /\ obucket_id r = siBucketID inp /\ okey r = k /\ scanObject r = Ok obj) as Hsome.
{ intros k obj Hk. apply lookup_by_key in Hk as [Hobj Hkey].
  destruct (Hobjs obj Hobj) as (_ & r & ((id & Hid) & Hb & Hk') & Hs). exists id, r. split_and!; congruence. }
assert (forall ev, ev ∈ imports <-> exists k o, up !! k = Some o /\ local !! k = None /\ ev = ObjectEvidenceFromListedObject o) as Himp.
{ intros ev. rewrite <- Hi, elem_of_omap_range. unfold import_of. cbn. split.
  - intros (k & o & Hk & Hf). destruct (local !! k) eqn:El; [done|]. injection Hf as <-. eauto 10.
  - intros (k & o & Hk & Hl & ->). exists k, o. rewrite Hl. done. }
assert (forall ev, ev ∈ refreshes <-> exists k o obj, up !! k = Some o /\ local !! k = Some obj /\ ObjectChanged o obj = true /\
  ev = with_id (oID obj) (ObjectEvidenceFromListedObject o)) as Href.
{ intros ev. rewrite <- Hr, elem_of_omap_range. unfold refresh_of. cbn. split.
  - intros (k & o & Hk & Hf). destruct (local !! k) as [obj|] eqn:El; [|done].
    destruct (ObjectChanged o obj) eqn:Eo; [|done]. injection Hf as <-. eauto 10.
  - intros (k & o & obj & Hk & Hl & Ho & ->). exists k, o. rewrite Hl, Ho. done. }
split_and!.
- intros ev (k & o & Hk & Hl & ->)%Himp. destruct (Hup k o Hk) as [Ho <-]. cbn.
  split; [by apply list_elem_of_fmap_2|]. apply (po_import PO c o HC); [by apply Hlisted|]. by eapply Hnone.
- intros ev (k & o & obj & Hk & Hl & Hch & ->)%Href. destruct (Hup k o Hk) as [Ho <-]. cbn.
  split; [by apply list_elem_of_fmap_2|]. destruct (Hsome _ _ Hl) as (id & r & Hid & Hb & Hkr & Hs).
  by apply (po_refresh PO c o id r obj HC); [apply Hlisted|..].
- rewrite <- Hi. apply omap_keys_NoDup; [|apply range_map_NoDup].
  intros [k o] ev Hin. unfold import_of. cbn. destruct (local !! k); [done|]. intros [= <-]. cbn.
  apply elem_of_range_map in Hin. by apply Hup.
- rewrite <- Hr. apply omap_keys_NoDup; [|apply range_map_NoDup].
  intros [k o] ev Hin. unfold refresh_of. cbn. destruct (local !! k); [|done]. destruct (ObjectChanged _ _); [|done].
  intros [= <-]. cbn. apply elem_of_range_map in Hin. by apply Hup.
- intros k (e1 & -> & H1)%list_elem_of_fmap (e2 & E2 & H2)%list_elem_of_fmap.
  apply Himp in H1 as (k1 & o1 & Hk1 & Hl1 & ->). apply Href in H2 as (k2 & o2 & obj & Hk2 & Hl2 & _ & ->).
  cbn in E2. apply Hup in Hk1 as [_ <-]. apply Hup in Hk2 as [_ <-]. congruence.
- intros k Hk Hni Hnr. apply by_key_is_Some in Hk as [o Ho]. fold up in Ho. destruct (Hup k o Ho) as [Hop <-].
  destruct (local !! lKey o) as [obj|] eqn:El.
  + destruct (ObjectChanged o obj) eqn:Ech.
    * exfalso. apply Hnr. apply list_elem_of_fmap. exists (with_id (oID obj) (ObjectEvidenceFromListedObject o)).
      split; [done|]. apply Href. eauto 10.
    * destruct (Hsome _ _ El) as (id & r & Hid & Hb & Hkr & Hs).
      by apply (po_keep PO c o id r obj HC); [apply Hlisted|..].
  + exfalso. apply Hni. apply list_elem_of_fmap. exists (ObjectEvidenceFromListedObject o).
    split; [done|]. apply Himp. eauto 10.
Qed.
Definition keys_of (objects : list ListedObject) : gset string := list_to_set (map lKey objects).

Lemma processPendingObjects_triple X cur pending :
  safe X cur -> pending <> [] -> (forall o, o ∈ pending -> listed o /\ lKey o ∉ X) ->
  triple (T X cur) (processPendingObjects E runID (siBucketID inp) pending)
    (fun _ => T (X ∪ keys_of pending) cur) Fail.
Proof.
intros Hs Hne Hp. unfold processPendingObjects. set (pageKeys := keysFromListedObjects pending).
eapply triple_bind.
{ apply (stmt_same X cur _ (fun objs => exists c c', C c /\
    GetObjectsByBucketAndKeys (siBucketID inp) pageKeys c = (Ok objs, c')) Hs).
  intros n s HC. rewrite on_catalog_eq. cbn [fst snd]. split; [by apply GetObjects_catalog|]. split; [done|].
  intros objs Hget. exists (catalog s), (GetObjectsByBucketAndKeys (siBucketID inp) pageKeys (catalog s)).2.
  split; [done|]. by rewrite <- Hget, <- surjective_pairing. }
intros objs. apply triple_prop. intros (c & c' & HC & Hget).
assert (pageKeys <> []) as Hne' by (by destruct pending).
destruct (GetObjects_spec _ _ _ _ _ Hne' Hget) as (-> & _ & _).
intros w HT. unfold mbind, M_bind at 1. cbn [gets]. set (site := clock w).
destruct (PlanObjectMutationsForListedObjects site pending objs) as [[imports refreshes] removes] eqn:Hplan.
destruct (plan_page site c objs pending imports refreshes removes HC) as (Hi & Hr & Ndi & Ndr & Hdis & HK); [|done..|].
{ intros o Ho. by apply Hp. }
assert (forall k, k ∈ pageKeys -> k ∉ X) as HnX.
{ intros k (o & -> & Ho)%list_elem_of_fmap. by apply Hp. }
revert w site HT Hplan. intros w _ HT _. revert w HT.
change (triple (T X cur)
  (enqueueMutationJobs E runID (siBucketID inp) JobTypeImportObjects imports ≫= fun _ =>
   enqueueMutationJobs E runID (siBucketID inp) JobTypeRefreshObjects refreshes ≫= fun _ =>
   stmt E (fun _ => on_jobs (InsertKeys runID (List.filter
     (fun key => bool_decide (key ∉ keysFromObjectEvidence imports ++ keysFromObjectEvidence refreshes)) pageKeys))))
  (fun _ => T (X ∪ keys_of pending) cur) Fail).
eapply triple_bind.
{ apply (enqueue_triple X cur _ _ imports Hs); [|done]. intros ev Hev. destruct (Hi ev Hev). split; [by apply HnX|done]. }
intros ?. assert (safe (X ∪ keys_set imports) cur) as Hs1 by (eapply safe_mono; [exact Hs|set_solver]).
eapply triple_bind.
{ apply (enqueue_triple _ cur _ _ refreshes Hs1); [|done]. intros ev Hev. destruct (Hr ev Hev) as [Hin HG].
  split; [|done]. intros [?|Hin']%elem_of_union; [by eapply HnX|]. apply elem_of_list_to_set in Hin'.
  apply (Hdis (evKey ev) Hin'). by apply list_elem_of_fmap_2. }
intros ?. set (Y := X ∪ keys_set imports ∪ keys_set refreshes).
assert (safe Y cur) as Hs2 by (eapply safe_mono; [exact Hs|set_solver]).
set (noMut := List.filter _ pageKeys).
assert (forall k, k ∈ noMut <-> k ∈ pageKeys /\ k ∉ map evKey imports /\ k ∉ map evKey refreshes) as HnoMut.
{ intros k. unfold noMut. rewrite list_elem_of_In, filter_In, <- list_elem_of_In, bool_decide_eq_true, elem_of_app. tauto. }
assert (Y ∪ list_to_set noMut = X ∪ keys_of pending) as HY.
{ apply set_eq. intros k. unfold Y, keys_set, keys_of. rewrite !elem_of_union, !elem_of_list_to_set, HnoMut.
  unfold pageKeys, keysFromListedObjects. split.
  - intros [[[?|(ev & -> & Hev)%list_elem_of_fmap]|(ev & -> & Hev)%list_elem_of_fmap]|[? _]]; [by left| | |by right];
      right; [by apply Hi|by apply Hr].
  - intros [?|Hk]; [tauto|]. destruct (decide (k ∈ map evKey imports)); [tauto|].
    destruct (decide (k ∈ map evKey refreshes)); tauto. }
eapply triple_post; [apply (stmt_triple Y cur _ (fun _ d => tracks (X ∪ keys_of pending) cur d) Hs2)|intros u w [HT ?]; by split|done].
intros n s HT _. rewrite on_jobs_eq. split; [done|].
pose proof (InsertKeys_tracks runID G K ident Y cur noMut (jobs s) HT) as Hins.
lapply Hins; [clear Hins; intros Hins|].
- destruct (InsertKeys runID noMut (jobs s)) as [[u|e] d']; cbn.
  + rewrite HY in Hins. split; [exact Hins|]. eapply good_intro; [exact Hins|].
    eapply safe_mono; [exact Hs|set_solver].
  + subst d'. by eapply good_intro.
- intros k (Hk & Hni & Hnr)%HnoMut. by apply HK.
Qed.

(** The progress written after a page. *)
Definition page_cursor (page : ListObjectsPageProgress) : cursor :=
  (ContinuationToken (Checkpoint page), Marker (Checkpoint page), ListingComplete page).

Lemma page_progress_triple X cur page :
  safe X cur -> safe X (page_cursor page) ->
  triple (T X cur) (page_progress E runID page) (fun _ => T X (page_cursor page)) Fail.
Proof.
intros Hs Hs' w HT. unfold page_progress, mbind, M_bind. cbn [gets].
apply (updateProgress_triple X cur (page_cursor page)); [done..| |done].
intros now p e He _. by eapply cursor_listing.
Qed.

Lemma processListingPage_triple X cur page :
  safe X cur -> safe (X ∪ keys_of (PageObjects page)) (page_cursor page) ->
  (forall o, o ∈ PageObjects page -> listed o) ->
  triple (T X cur) (processListingPage E runID (siBucketID inp) page)
    (fun _ => T (X ∪ keys_of (PageObjects page)) (page_cursor page)) Fail.
Proof.
intros Hs Hs' Hl. unfold processListingPage. destruct (PageObjects page) as [|o0 objs0] eqn:Eobjs.
{ assert (X ∪ keys_of [] = X) as E1 by (unfold keys_of; cbn; by rewrite union_empty_r_L). rewrite E1 in Hs' |- *.
  by apply page_progress_triple. }
rewrite <- Eobjs in *. clear Eobjs o0 objs0. set (objects := PageObjects page) in *.
eapply triple_bind.
{ unfold filterListedObjectsNotInSpill. eapply triple_bind.
  - apply (stmt_triple X cur _ (fun keys d => tracks X cur d /\
      forall k, k ∈ keys <-> k ∈ map lKey objects /\ k ∉ X) Hs).
    intros n s HT _. rewrite on_jobs_eq. split; [done|]. unfold FilterKeysNotInSpill. destruct (String.eqb runID ""); [by eapply good_intro|].
    unfold keysFromListedObjects. destruct (Z.eqb_spec (Z.of_nat (List.length (map lKey objects))) 0) as [E0|_].
    + cbn. split; [|by eapply good_intro]. split; [done|]. destruct objects; [|cbn in E0; lia].
      intros k. split; [by intros ?%not_elem_of_nil|by intros [?%not_elem_of_nil _]].
    + cbn. split; [|by eapply good_intro]. split; [done|]. intros k.
      rewrite list_elem_of_In, filter_In, <- list_elem_of_In, bool_decide_eq_true.
      destruct HT as (_ & HX & _). specialize (HX k). unfold spilled in HX. tauto.
  - intros keys w HT. apply (triple_ret (listedObjectsForKeys objects keys) (fun pending w => T X cur w /\
      forall o, o ∈ pending <-> o ∈ objects /\ lKey o ∉ X)). destruct HT as [[HT Hkeys] HC]. split; [by split|].
    intros o. unfold listedObjectsForKeys. destruct keys as [|k0 keys0].
    + split; [by intros ?%not_elem_of_nil|]. intros [Ho HnX]. assert (lKey o ∈ @nil string) as Hc; [|by apply elem_of_nil in Hc].
      apply Hkeys. split; [by apply list_elem_of_fmap_2|done].
    + rewrite list_elem_of_In, filter_In, <- list_elem_of_In, bool_decide_eq_true, Hkeys. split; [tauto|].
      intros [Ho HnX]. split; [done|]. split; [by apply list_elem_of_fmap_2|done]. }
intros pending. cbn beta.
eapply triple_pre with (P' := fun w => (forall o, o ∈ pending <-> o ∈ objects /\ lKey o ∉ X) /\ T X cur w);
  [intros w [? ?]; by split|].
apply triple_prop. intros Hpend.
assert (X ∪ keys_of pending = X ∪ keys_of objects) as HX.
{ apply set_eq. intros k. unfold keys_of. rewrite !elem_of_union, !elem_of_list_to_set. split.
  - intros [?|(o & -> & Ho)%list_elem_of_fmap]; [by left|]. right. apply list_elem_of_fmap_2. by apply Hpend.
  - intros [?|(o & -> & Ho)%list_elem_of_fmap]; [by left|]. destruct (decide (lKey o ∈ X)); [by left|].
    right. apply list_elem_of_fmap_2. by apply Hpend. }
assert (safe (X ∪ keys_of objects) cur) as Hs2 by (eapply safe_mono; [exact Hs|set_solver]).
eapply triple_bind with (R := fun _ => T (X ∪ keys_of objects) cur).
{ rewrite <- HX. destruct pending as [|o0 pend0] eqn:Ep.
  - intros w HT. cbn. unfold keys_of, T. cbn. by rewrite union_empty_r_L.
  - rewrite <- Ep in *. apply (processPendingObjects_triple X cur pending Hs); [by rewrite Ep|].
    intros o Ho. apply Hpend in Ho as [Ho HnX]. split; [by apply Hl|done]. }
intros ?. by apply page_progress_triple.
Qed.
(** ** The listing *)

Lemma bucket_of_ID b : bucket_of b -> bID b = siBucketID inp.
Proof. intros (c & b0 & HC & Hb & ->). cbn. by apply (po_buckets PO c HC). Qed.

(** Some spilled keys cover the pages, and the run is safe with them. *)
Definition covered_by (pages : list ObjectPage) (w : World) : Prop :=
  exists X cur, T X cur w /\ safe X cur /\ covers pages X.

Section Listing.
Context (b : Bucket) (client : ObjectClient) (run : JobRun) (start : ListCheckpoint).
Context (Hb : bucket_of b) (Hclient : client_for E b = Ok client) (Hrun : ID run = runID).

Definition options : ListAllObjectsOptions World :=
  list_options E client run b (list_prefix b) start (siPartition inp).

Lemma filtered_out_matches o : filtered_out options o = negb (matches (lKey o)).
Proof. unfold filtered_out, options, list_options, matches_partition. cbn. by destruct (siPartition inp). Qed.

(** In a page: the objects kept so far are the matching ones of those visited. *)
Definition in_page (pages : list ObjectPage) (page : ObjectPage) (pre kept : list ListedObject) (n : Z) (w : World) : Prop :=
  (exists tok mk, path pages tok mk /\ serves tok mk page) /\
  kept = List.filter (fun o => matches (lKey o)) pre /\ covered_by pages w.

Lemma client_triple pages tok mk :
  path pages tok mk ->
  triple (covered_by pages) (call_upstream client (list_input options tok mk))
    (fun page w => serves tok mk page /\ covered_by pages w) Fail.
Proof.
intros Hp w (X & cur & HT & Hs & Hc). unfold call_upstream, of_result.
destruct (client (clock w) (list_input options tok mk)) as [page|e] eqn:Ec; cbn.
- split; [by eapply (eo_serves E EO b client)|]. by exists X, cur.
- by eapply Fail_intro.
Qed.

Lemma covers_snoc pages page X :
  covers pages X ->
  covers (pages ++ [page]) (X ∪ keys_of (List.filter (fun o => matches (lKey o)) (Objects page))).
Proof.
intros Hc p o [Hp|Hp]%elem_of_app Ho Hm.
- apply elem_of_union_l. by eapply Hc.
- apply list_elem_of_singleton in Hp as ->. apply elem_of_union_r, elem_of_list_to_set, list_elem_of_fmap_2.
  by rewrite list_elem_of_In, filter_In, <- list_elem_of_In.
Qed.

Lemma on_page_triple pages page kept n :
  stuck page = false ->
  triple (in_page pages page (Objects page) kept n) (on_page options page kept n)
    (fun _ w => if IsTruncated page
       then path (pages ++ [page]) (NextContinuationToken page) (NextMarker page) /\ covered_by (pages ++ [page]) w
       else exists pages, complete pages /\ covered_by pages w) Fail.
Proof.
intros _ w ((tok & mk & Hp & Hserve) & -> & X & cur & HT & Hs & Hc). set (kept := List.filter _ _).
pose proof (covers_snoc pages page X Hc) as Hcov. fold kept in Hcov.
set (progress := mkPageProgress kept n (mkCheckpoint (NextContinuationToken page) (NextMarker page) n) (negb (IsTruncated page))).
assert (IsTruncated page = true -> path (pages ++ [page]) (NextContinuationToken page) (NextMarker page)) as Hnext
  by (intros; by eapply path_next).
assert (IsTruncated page = false -> complete (pages ++ [page])) as Hcomp by (intros; by exists pages, tok, mk, page).
assert (safe (X ∪ keys_of kept) (page_cursor progress)) as Hs'.
{ unfold page_cursor, progress. cbn. destruct (IsTruncated page); cbn; eauto. }
pose proof (processListingPage_triple X cur progress Hs Hs') as Hpage.
lapply Hpage; [clear Hpage; intros Hpage|].
- specialize (Hpage w HT). unfold on_page, options, list_options. cbn [OnPage]. rewrite Hrun, (bucket_of_ID b Hb).
  fold progress. unfold post in *. destruct (processListingPage E runID (siBucketID inp) progress w) as [[u|e] w']; [|done].
  assert (covered_by (pages ++ [page]) w') as Hcw by (by exists (X ∪ keys_of kept), (page_cursor progress)).
  destruct (IsTruncated page); [by split; [apply Hnext|]|]. exists (pages ++ [page]). split; [by apply Hcomp|done].
- intros o Ho. change (o ∈ kept) in Ho. unfold kept in Ho.
  rewrite list_elem_of_In, filter_In, <- list_elem_of_In in Ho. destruct Ho as [Ho Hm]. by exists pages, tok, mk, page.
Qed.

Lemma list_pages_sync fuel label pages tok mk n :
  triple (fun w => path pages tok mk /\ covered_by pages w)
    (list_pages options fuel (call_upstream client) (fun _ => mret tt) label tok mk n)
    (fun r w => r.1 = true /\ exists pages, complete pages /\ covered_by pages w) Fail.
Proof.
apply (list_pages_triple options (call_upstream client) (fun _ => mret tt) label
  (fun pages tok mk n w => path pages tok mk /\ covered_by pages w) in_page
  (fun b n w => b = true /\ exists pages, complete pages /\ covered_by pages w) Fail); clear pages tok mk n.
- intros pages tok mk n w (_ & X & cur & HT & Hs & _). by eapply Fail_intro.
- intros pages tok mk n w [Hp Hc]. eapply triple_post; [by apply client_triple| |done|exact Hc].
  intros page w' [Hserve Hc']. split; [eauto|]. by split.
- intros pages page pre x kept n w Hx (Hp & -> & Hc). split; [done|]. split; [|done].
  rewrite filtered_out_matches, negb_true_iff in Hx. rewrite filter_app. cbn. by rewrite Hx, app_nil_r.
- intros pages page pre x suf kept n _ Hx w (Hp & -> & Hc).
  rewrite filtered_out_matches, negb_false_iff in Hx. cbn. split; [done|]. split; [|done].
  rewrite filter_app. cbn. by rewrite Hx.
- intros pages page kept n w _ (_ & _ & X & cur & HT & Hs & _). by eapply Fail_intro.
- intros pages page kept n Hstuck. eapply triple_post; [by apply on_page_triple| |done].
  intros u w Hw. destruct (IsTruncated page); [exact Hw|]. by split.
- intros pages tok mk n w Hw. exact Hw.
Qed.

(** The listing of an attempt: afterwards everything listed is spilled. *)
Definition fully_listed (w : World) : Prop :=
  exists X tok mk pages, T X (tok, mk, true) w /\ complete pages /\ covers pages X.

Lemma list_upstream_triple fuel X tok mk done checkpoint :
  safe X (tok, mk, done) -> lcContinuationToken checkpoint = tok -> lcMarker checkpoint = mk ->
  lcListingComplete checkpoint = done -> start = toListStart checkpoint ->
  triple (T X (tok, mk, done))
    (list_upstream E fuel client run b (list_prefix b) checkpoint (siPartition inp))
    (fun _ => fully_listed) Fail.
Proof.
intros Hs Htok Hmk Hdone Hstart. unfold list_upstream. rewrite Hdone. destruct done.
{ intros w HT. cbn. destruct Hs as (pages & Hc & Hcov). by exists X, tok, mk, pages. }
rewrite <- Hstart. fold options. destruct Hs as (pages & Hp & Hcov).
eapply triple_bind with (R := fun r w => r.1 = true /\ exists pages, complete pages /\ covered_by pages w).
{ eapply triple_pre with (P' := fun w => path pages tok mk /\ covered_by pages w).
  { intros w HT. split; [done|]. exists X, (tok, mk, false). split_and!; [done| |done]. by exists pages. }
  change (ListAllObjects options fuel) with (list_pages options fuel (call_upstream client) (fun _ => mret tt)
    (if String.eqb (bID b) "" then bBucketName b else bID b) (ContinuationToken start) (Marker start) (cpObjectsListed start)).
  assert (ContinuationToken start = tok /\ Marker start = mk) as [-> ->] by (by rewrite Hstart).
  apply list_pages_sync. }
intros [listed n]. apply triple_prop. cbn [fst snd]. intros ->. cbn [negb]. apply triple_exists. intros pages'.
apply triple_prop. intros Hcomp w (X' & cur & HT & Hs' & Hcov'). unfold mbind, M_bind at 1. cbn [gets].
pose proof (updateProgress_triple X' cur ("", "", true)
  (fun now => listingProgressFields now (mkCheckpoint "" "" n) true (planCounts (exec w))) Hs') as Hu.
lapply Hu; [clear Hu; intros Hu|by exists pages'].
lapply Hu; [clear Hu; intros Hu|intros now p e He _; exact (cursor_listing p _ _ _ _ e He)].
rewrite Hrun. specialize (Hu w HT). unfold M_bind.
destruct (updateProgress E runID _ w) as [[u|e] w']; [|exact Hu]. cbn. by exists X', "", "", pages'.
Qed.
End Listing.
(** ** The objects to remove *)

Lemma NoDup_rows_keys (P : ObjectRow -> bool) (t : gmap string ObjectRow) bucketID :
  (forall r, P r = true -> obucket_id r = bucketID) ->
  (forall id1 r1 id2 r2, t !! id1 = Some r1 -> t !! id2 = Some r2 ->
     obucket_id r1 = obucket_id r2 -> okey r1 = okey r2 -> id1 = id2) ->
  NoDup (map okey (List.filter P (table_rows t))).
Proof.
intros HP Hu. unfold table_rows. pose proof (NoDup_fst_map_to_list t) as Hnd.
assert (forall id r, (id, r) ∈ map_to_list t -> t !! id = Some r) as Hl by (intros; by apply elem_of_map_to_list).
revert Hnd Hl. generalize (map_to_list t). induction l as [|[id r] l IH]; cbn; intros Hnd Hl; [constructor|].
apply list.NoDup_cons in Hnd as [Hni Hnd].
assert (NoDup (map okey (List.filter P l.*2))) as Hrest by (apply IH; [done|]; intros; apply Hl; by right).
destruct (P r) eqn:Hr; [|done]. cbn. apply list.NoDup_cons. split; [|done].
intros (r' & Hk & Hin)%list_elem_of_fmap. rewrite list_elem_of_In, filter_In, <- list_elem_of_In in Hin.
destruct Hin as [(e & -> & He)%list_elem_of_fmap HP']. destruct e as [id' r']. cbn in *. apply Hni.
assert (id = id') as ->; [|apply list_elem_of_fmap; by exists (id', r')].
apply (Hu id r id' r'); [apply Hl; left|apply Hl; by right| |done]. by rewrite (HP r Hr), (HP r' HP').
Qed.

Section Removing.
Context (b : Bucket) (Hb : bucket_of b) (tok mk : string) (pages : list ObjectPage) (Hpages : complete pages).

Definition sync_scope : ObjectScopeParams := SyncObjectScopeParams (bID b) (bPrefix b) inp.

Lemma sync_scope_eq : sync_scope = mkScope (siBucketID inp) (list_prefix b).
Proof. unfold sync_scope, SyncObjectScopeParams. by rewrite (bucket_of_ID b Hb). Qed.

Lemma in_scope_bucket r : in_scope sync_scope r = true -> obucket_id r = siBucketID inp.
Proof.
rewrite sync_scope_eq. unfold in_scope. cbn. destruct (String.eqb_spec (siBucketID inp) "") as [E0|_]; [by destruct (po_bucket PO)|].
cbn. intros [?%String.eqb_eq _]%andb_true_iff. done.
Qed.

Lemma rows_missing_spec X s :
  tracks X (tok, mk, true) (jobs s) -> C (catalog s) ->
  NoDup (map okey (rows_missing_from_spill runID sync_scope s)) /\
  (forall r, r ∈ rows_missing_from_spill runID sync_scope s <->
     (exists id, objects (catalog s) !! id = Some r) /\ in_scope sync_scope r = true /\ okey r ∉ X).
Proof.
intros HT HC. unfold rows_missing_from_spill. split.
- unfold select_rows. rewrite (sort_by_perm by_bucket_and_key).
  apply (NoDup_rows_keys _ _ (siBucketID inp)); [|by apply (po_unique PO)].
  intros r [Hr _]%andb_true_iff. by apply in_scope_bucket.
- intros r. rewrite elem_of_select_rows, andb_true_iff, bool_decide_eq_true.
  destruct HT as (_ & HX & _). specialize (HX (okey r)). unfold spilled in HX. tauto.
Qed.

(** The invariant of the stream: what is spilled or in the batch is what was spilled
    and the matching objects visited. *)
Definition removing (X : gset string) (pre : list ObjectRow) (batch : list ObjectEvidence) (w : World) : Prop :=
  exists Y, T Y (tok, mk, true) w /\ X ⊆ Y /\
    (forall k, k ∈ Y ∪ keys_set batch <-> k ∈ X \/ exists r, r ∈ pre /\ okey r = k /\ matches k = true) /\
    NoDup (map evKey batch) /\ forall ev, ev ∈ batch -> evKey ev ∉ Y /\ G JobTypeRemoveObjects (evKey ev).

Lemma safe_true X : covers pages X -> safe X (tok, mk, true).
Proof. intros Hc. by exists pages. Qed.

Lemma flush_triple X pre batch :
  covers pages X ->
  triple (removing X pre batch) (flush E runID (bID b) batch) (fun batch' w => batch' = [] /\ removing X pre [] w) Fail.
Proof.
intros Hc w (Y & HT & HXY & Hk & Hnd & Hnew). unfold flush. destruct batch as [|ev0 batch0]; [cbn; split; [done|by exists Y]|].
set (batch := ev0 :: batch0) in *.
assert (safe Y (tok, mk, true)) as Hs by (eapply safe_mono; [by apply safe_true|done]).
pose proof (enqueue_triple Y (tok, mk, true) (bID b) JobTypeRemoveObjects batch Hs Hnew Hnd w HT) as He.
unfold mbind, M_bind. destruct (enqueueMutationJobs E runID (bID b) JobTypeRemoveObjects batch w) as [[u|e] w']; [|exact He].
cbn in He |- *. split; [done|]. exists (Y ∪ keys_set batch). split; [done|]. split; [set_solver|]. split.
- intros k. rewrite <- Hk. unfold keys_set at 2. cbn. set_solver.
- split; [constructor|]. by intros ev ?%not_elem_of_nil.
Qed.

(** One row of the stream. *)
Lemma collect_triple X pre r batch :
  covers pages X -> okey r ∉ X -> okey r ∉ map okey pre ->
  (matches (okey r) = true -> G JobTypeRemoveObjects (okey r)) ->
  triple (removing X pre batch)
    (object ← of_result (scanObject r); collect_remove E runID (bID b) (siPartition inp) batch object)
    (removing X (pre ++ [r])) Fail.
Proof.
intros Hc HnX Hnpre HG w Hw. pose proof Hw as (Y & HT & HXY & Hk & Hnd & Hnew).
assert (safe Y (tok, mk, true)) as Hs by (eapply safe_mono; [by apply safe_true|done]).
unfold mbind, M_bind, of_result. destruct (scanObject r) as [obj|e] eqn:Eo; [|cbn; by eapply Fail_intro].
destruct (scanObject_eq r obj Eo) as (_ & Hkey & _). unfold collect_remove. rewrite Hkey.
destruct (matches (okey r)) eqn:Em; cbn [negb].
2:{ cbn. exists Y. split_and!; try done. intros k. rewrite Hk. split.
    - intros [?|(r' & ? & ?)]; [by left|]. right. exists r'. split; [apply elem_of_app; by left|done].
    - intros [?|(r' & [Hin|Hin]%elem_of_app & <- & Hm)]; [by left|right; by exists r'|].
      apply list_elem_of_singleton in Hin as ->. congruence. }
set (ev := mkEvidence (oID obj) (okey r) "" "" 0 "" "").
assert (removing X (pre ++ [r]) (batch ++ [ev]) w) as Hw'.
{ assert (okey r ∉ Y ∪ keys_set batch) as Hni.
  { rewrite Hk. intros [?|(r' & Hin & E1 & _)]; [done|]. apply Hnpre. rewrite <- E1. by apply list_elem_of_fmap_2. }
  exists Y. split_and!; [done|done| | |].
  - intros k. unfold keys_set. rewrite map_app, list_to_set_app. cbn. split.
    + intros [Hin|[Hin|Hin]%elem_of_union]%elem_of_union.
      * destruct (proj1 (Hk k)) as [?|(r' & ? & ?)]; [set_solver|by left|]. right. exists r'. split; [apply elem_of_app; by left|done].
      * destruct (proj1 (Hk k)) as [?|(r' & ? & ?)]; [set_solver|by left|]. right. exists r'. split; [apply elem_of_app; by left|done].
      * assert (k = okey r) as -> by set_solver. right. exists r. split; [apply elem_of_app; right; left|done].
    + intros [?|(r' & [Hin|Hin]%elem_of_app & <- & Hm)]; [set_solver| |].
      * assert (okey r' ∈ Y ∪ keys_set batch) as Hin' by (apply Hk; right; eauto). unfold keys_set in Hin'. set_solver.
      * apply list_elem_of_singleton in Hin as ->. set_solver.
  - rewrite map_app. apply list.NoDup_app. split; [done|]. split; [|constructor; [by intros ?%not_elem_of_nil|constructor]].
    intros k Hin Hin'. apply list_elem_of_singleton in Hin' as ->. apply Hni. apply elem_of_union_r, elem_of_list_to_set. exact Hin.
  - intros ev' [Hin|Hin]%elem_of_app; [by apply Hnew|]. apply list_elem_of_singleton in Hin as ->. cbn.
    split; [set_solver|by apply HG]. }
destruct (_ <=? _); [|exact Hw'].
pose proof (flush_triple X (pre ++ [r]) (batch ++ [ev]) Hc w Hw') as Hf.
destruct (flush E runID (bID b) (batch ++ [ev]) w) as [[batch'|e] w']; [|exact Hf].
destruct Hf as [-> Hf]. exact Hf.
Qed.

(** Afterwards every object of the scope is spilled. *)
Definition all_spilled (c : Catalog) (X : gset string) : Prop :=
  forall id r, objects c !! id = Some r -> in_scope sync_scope r = true -> matches (okey r) = true -> okey r ∈ X.

Lemma remove_triple X :
  covers pages X ->
  triple (T X (tok, mk, true)) (streamAndEnqueueRemoveObjects E runID (bID b) sync_scope (siPartition inp))
    (fun _ w => exists Y c, T Y (tok, mk, true) w /\ X ⊆ Y /\ C c /\ all_spilled c Y) Fail.
Proof.
intros Hc. pose proof (safe_true X Hc) as Hs.
unfold streamAndEnqueueRemoveObjects, StreamObjectsInScopeMissingFromSpill. destruct (String.eqb runID "").
{ intros w HT. cbn. by eapply Fail_intro. }
eapply triple_bind with (R := fun batch w => exists rows c, C c /\ removing X rows batch w /\
  forall id r, objects c !! id = Some r -> in_scope sync_scope r = true -> okey r ∉ X -> r ∈ rows).
- eapply triple_bind.
  { unfold run_query. apply (stmt_triple X (tok, mk, true) _ (fun rows d => tracks X (tok, mk, true) d /\ exists c, C c /\
      NoDup (map okey rows.1) /\ (forall r, r ∈ rows.1 -> (exists id, objects c !! id = Some r) /\ in_scope sync_scope r = true /\ okey r ∉ X) /\
      (rows.2 = None -> forall id r, objects c !! id = Some r -> in_scope sync_scope r = true -> okey r ∉ X -> r ∈ rows.1)) Hs).
    intros n s HT HC. destruct (rows_missing_spec X s HT HC) as [Hnd Hspec]. split; [by destruct (stream_fault E n) as [[k e]|]|]. cbn.
    destruct (stream_fault E n) as [[k e]|]; (split; [split; [done|]|by eapply good_intro]); exists (catalog s); cbn; (split; [done|]).
    - split; [|split; [|done]].
      + rewrite <- (firstn_skipn k (rows_missing_from_spill runID sync_scope s)), map_app in Hnd. by apply list.NoDup_app in Hnd as (? & _ & _).
      + intros r Hr. apply Hspec. by eapply elem_of_firstn.
    - split; [done|]. split; [by intros; apply Hspec|]. intros _ id r Hr Hin HnX. apply Hspec. eauto. }
  intros [rows err]. cbn [fst snd].
  eapply triple_pre with (P' := fun w => (exists c, C c /\ NoDup (map okey rows) /\
    (forall r, r ∈ rows -> (exists id, objects c !! id = Some r) /\ in_scope sync_scope r = true /\ okey r ∉ X) /\
    (err = None -> forall id r, objects c !! id = Some r -> in_scope sync_scope r = true -> okey r ∉ X -> r ∈ rows)) /\ T X (tok, mk, true) w);
    [intros w [[HT1 HT2] HT3]; split; [exact HT2|by split]|].
  apply triple_prop. intros (c & HC & Hnd & Hrows & Hall). unfold stream_rows. cbn [fst snd].
  eapply triple_bind with (R := fun batch => removing X rows batch).
  + eapply triple_pre; [|apply (triple_for_acc (fun pre batch => removing X pre batch) Fail _ rows)].
    { intros w HT. exists X. split_and!; [done|done| |constructor|by intros ev ?%not_elem_of_nil].
      intros k. unfold keys_set. cbn. rewrite union_empty_r_L. split; [by left|].
      intros [?|(r & ?%not_elem_of_nil & _)]; done. }
    intros pre r suf batch ->. destruct (Hrows r) as (Hid & Hin & HnX); [apply elem_of_app; right; left|].
    apply collect_triple; [done|done| |].
    * rewrite map_app in Hnd. apply list.NoDup_app in Hnd as (_ & Hdis & _). intros Hp. apply (Hdis (okey r) Hp). left.
    * intros Hm. destruct Hid as [id Hid]. apply (po_remove PO c b pages X id r); try done. by rewrite <- sync_scope_eq.
  + intros batch. destruct err as [e|].
    * intros w (Y & HT & HXY & _). cbn. eapply Fail_intro; [exact HT|]. by eapply safe_mono.
    * intros w Hw. cbn. exists rows, c. split; [done|]. split; [done|by apply Hall].
- intros batch. apply triple_exists. intros rows. apply triple_exists. intros c. apply triple_prop. intros HC w [Hw Hall].
  pose proof (flush_triple X rows batch Hc w Hw) as Hf. unfold mbind, M_bind.
  destruct (flush E runID (bID b) batch w) as [[batch'|e] w']; [|exact Hf]. cbn in Hf |- *.
  destruct Hf as [_ (Y & HT & HXY & Hk & _)]. exists Y, c. split_and!; [done..|].
  intros id r Hr Hin Hm. destruct (decide (okey r ∈ X)) as [?|HnX]; [by apply HXY|].
  assert (okey r ∈ Y ∪ keys_set []) as Hin'; [|unfold keys_set in Hin'; set_solver].
  apply Hk. right. exists r. split; [by eapply Hall|done].
Qed.
End Removing.

(** ** An attempt *)

Lemma load_children_triple X cur : safe X cur -> forall fuel offset state,
  triple (T X cur) (load_children E fuel runID offset state) (fun _ => T X cur) Fail.
Proof.
intros Hs. induction fuel as [|fuel IH]; intros offset state.
- intros w HT. cbn. by eapply Fail_intro.
- cbn [load_children]. eapply triple_bind.
  { apply (stmt_same X cur _ (fun _ => True) Hs). intros n s _. by split. }
  intros children. apply triple_prop. intros _. destruct (_ <? 500); [|apply IH]. intros w HT. exact HT.
Qed.

(** What a successful attempt leaves behind: a complete listing, and a state of the
    catalog, all of whose keys in the scope are spilled. *)
Definition synced (d : db) : Prop :=
  exists X tok mk pages b c, tracks X (tok, mk, true) d /\ complete pages /\ covers pages X /\
    bucket_of b /\ C c /\ all_spilled b c X.

Lemma Handle_triple fuel run X tok mk done :
  ID run = runID -> (forall inp', ParseSyncBucketInput run = Ok inp' -> inp' = inp) ->
  (let cp := listingCheckpointFromProgress (Progress run) in
   (lcContinuationToken cp, lcMarker cp, lcListingComplete cp) = (tok, mk, done)) ->
  safe X (tok, mk, done) ->
  triple (T X (tok, mk, done)) (Handle E fuel run)
    (fun _ w => synced (jobs (store w)) /\ C (catalog (store w))) Fail.
Proof.
intros Hrun Hinp Hcp Hs. unfold Handle. injection Hcp as Htok Hmk Hdone.
eapply triple_bind with (R := fun inp' w => inp' = inp /\ T X (tok, mk, done) w).
{ intros w HT. unfold of_result. destruct (ParseSyncBucketInput run) as [inp'|e] eqn:Ep; cbn; [split; [by apply Hinp|done]|].
  by eapply Fail_intro. }
intros inp'. apply triple_prop. intros ->. eapply triple_bind.
{ apply (stmt_same X (tok, mk, done) _ (fun b => bucket_of b) Hs). intros n s HC. rewrite on_catalog_eq. unfold GetBucket. cbn [snd fst].
  split; [cbn; by destruct (buckets (catalog s) !! siBucketID inp)|]. split; [done|]. intros b. destruct (buckets (catalog s) !! siBucketID inp) as [b0|] eqn:Eb; [|done].
  intros [= <-]. by exists (catalog s), b0. }
intros b. apply triple_prop. intros Hb. eapply triple_bind with (R := fun client w => client_for E b = Ok client /\ T X (tok, mk, done) w).
{ intros w HT. unfold of_result. destruct (client_for E b) as [client|e] eqn:Ec; cbn; [done|by eapply Fail_intro]. }
intros client. apply triple_prop. intros Hclient. eapply triple_bind.
{ unfold loadSyncExecutionState. rewrite Hrun. eapply triple_bind; [by apply load_children_triple|].
  intros state. apply (triple_ret _ (fun _ => T X (tok, mk, done))). }
intros state. eapply triple_bind with (R := fun _ => T X (tok, mk, done)).
{ intros w HT. exact HT. }
intros []. cbn zeta. fold (list_prefix b). fold (sync_scope b). eapply triple_bind.
{ by eapply (list_upstream_triple b client run (toListStart (listingCheckpointFromProgress (Progress run)))). }
intros n w (X' & tok' & mk' & pages & HT & Hcomp & Hcov). unfold mbind, M_bind at 1. cbn [gets]. rewrite Hrun.
assert (safe X' (tok', mk', true)) as Hs' by (by exists pages).
pose proof (updateProgress_triple X' (tok', mk', true) (tok', mk', true)
  (fun _ => planningProgressFields n (planCounts (exec w))) Hs' Hs') as Hu.
lapply Hu; [clear Hu; intros Hu|intros now p e He Hcur; by eapply cursor_planning].
specialize (Hu w HT). unfold M_bind. destruct (updateProgress E runID _ w) as [[u|e] w1]; [|exact Hu].
cbn [post] in Hu. pose proof (remove_triple b Hb tok' mk' pages Hcomp X' Hcov w1 Hu) as Hr.
destruct (streamAndEnqueueRemoveObjects E runID (bID b) (sync_scope b) (siPartition inp) w1) as [[u'|e] w2]; [|exact Hr].
destruct Hr as (Y & c & [HT' HCw] & HXY & HC & Hall). cbn. split; [|done]. exists Y, tok', mk', pages, b, c. split_and!; try done.
by eapply covers_mono.
Qed.
End Attempt.

(** ** Attempts *)

(** The attempts of a run: each starts with the row as it is then. *)
Fixpoint attempts (l : list (Env * nat)) (s : Store) : list (result run_error payload) * Store :=
  match l with
  | [] => ([], s)
  | (E, fuel) :: l =>
      match job_runs (jobs s) !! runID with
      | None => ([], s)
      | Some r =>
          let '(outcome, w) := Handle E fuel (scanJobRun r) (mkWorld 0 s newSyncExecutionState) in
          let '(outcomes, s') := attempts l (store w) in
          (outcome :: outcomes, s')
      end
  end.

Lemma ParseSyncBucketInput_identity r r' :
  identity_of r = identity_of r' -> ParseSyncBucketInput (scanJobRun r) = ParseSyncBucketInput (scanJobRun r').
Proof.
intros [= E1 E2 E3 E4 E5 E6 E7 E8 E9 E10]. unfold ParseSyncBucketInput, BucketID, scanJobRun. cbn.
by rewrite E6, E7, E8.
Qed.

Lemma synced_good d : synced d -> good d.
Proof. intros (X & tok & mk & pages & b & c & HT & Hcomp & Hcov & _). exists X, (tok, mk, true). split; [done|]. by exists pages. Qed.

Context (Hid : id ident = runID) (Hparse : ParseSyncBucketInput (scanJobRun ident) = Ok inp).

Lemma attempts_post l s :
  Forall (fun e => env_ok e.1) l -> good (jobs s) -> C (catalog s) ->
  good (jobs (attempts l s).2) /\
  ((exists p, List.last (attempts l s).1 (Err OutOfFuel) = Ok p) -> synced (jobs (attempts l s).2)).
Proof.
revert s. induction l as [|[E fuel] l IH]; intros s Hl Hg.
{ intros _. split; [exact Hg|]. by intros [p ?]. }
intros HCs. apply list.Forall_cons in Hl as [HE Hl]. cbn [attempts]. destruct Hg as (X & cur & HT & Hs).
pose proof HT as (HP & HX & r & Hr & Hident & Hcur). rewrite Hr.
destruct cur as [[tok mk] done].
pose proof (Handle_triple E HE fuel (scanJobRun r) X tok mk done) as Hh.
lapply Hh; [clear Hh; intros Hh|cbn; injection Hident as -> _; exact Hid].
lapply Hh; [clear Hh; intros Hh|].
2:{ intros inp' Hp. rewrite (ParseSyncBucketInput_identity r ident Hident), Hparse in Hp. congruence. }
lapply Hh; [clear Hh; intros Hh|exact Hcur].
specialize (Hh Hs (mkWorld 0 s newSyncExecutionState) (conj HT HCs)).
destruct (Handle E fuel (scanJobRun r) (mkWorld 0 s newSyncExecutionState)) as [outcome w].
assert (good (jobs (store w)) /\ C (catalog (store w))) as [Hgw HCw] by (destruct outcome; destruct Hh; split; [by apply synced_good|done..]).
destruct (IH (store w) Hl Hgw HCw) as [Hg' Hlast]. destruct (attempts l (store w)) as [outcomes s'] eqn:Ea. cbn in Hg', Hlast |- *.
split; [exact Hg'|]. intros [p Hp]. destruct outcomes as [|o os]; [|apply Hlast; by exists p].
subst outcome. cbn in Hh. assert (l = [] \/ s' = store w) as Hsw.
{ destruct l as [|[E' fuel'] l']; [by left|]. right. cbn in Ea. destruct (job_runs (jobs (store w)) !! runID); [|by injection Ea].
  destruct (Handle _ _ _ _) as [o' w']. by destruct (attempts l' (store w')). }
assert (s' = store w) as ->; [|apply Hh]. destruct Hsw as [->|]; [|done]. by injection Ea.
Qed.
End Sync.
