(* ===== verification/SyncTheorems.v ===== *)
(** * SyncTheorems

    The guarantees of a sync_bucket run: every object is planned at most once, a
    successful run has covered the upstream and the catalog, the jobs it creates are
    the difference between the two, and the loops end. *)
From S2P Require Import Prelude GoStrings GoFloat GoTime Verification JobPayload JobRuns JobTrace JobRunProofs ErrState.
From S2P Require Import S3Listing Catalog Buckets ObjectStore ObjectPlan SyncBucket SyncPlan SyncBucketProofs.
Local Open Scope Z_scope.

Lemma ParseSyncBucketInput_bucket run inp : ParseSyncBucketInput run = Ok inp -> siBucketID inp <> "".
Proof.
  unfold ParseSyncBucketInput. intros (bid & Hb & (p & _ & [= <-])%bind_Ok)%bind_Ok. cbn.
  unfold BucketID in Hb.
  assert (forall e : store_error, (if String.eqb (TargetType run) "bucket" && negb (String.eqb (TargetID run) "")
    then Ok (TargetID run) else Err e) = Ok bid -> bid <> "") as Htarget.
  { intros e. destruct (_ && _) eqn:E; [|done]. intros [= <-]. apply andb_true_iff in E as [_ E].
    by destruct (String.eqb_spec (TargetID run) ""). }
  destruct (as_string _) as [s|]; [|by eapply Htarget].
  destruct (String.eqb_spec s ""); cbn [negb] in Hb; [by eapply Htarget|]. congruence.
Qed.

Section Theorems.
Context `{MapOrder, Collation}.

(** The environments of the attempts: the other transactions are statements of the
    store that leave the run alone, and they keep a property of the catalog. *)
Definition interference (runID : string) (C : Catalog -> Prop) (l : list (Env * nat)) : Prop :=
  forall E fuel, (E, fuel) ∈ l -> forall n s,
    (exists ops, jobs (others E n s) = run_ops ops (jobs s) /\ Forall (foreign runID) ops) /\
    (C (catalog s) -> C (catalog (others E n s))).

(** The indexes of the catalog. *)
Definition sound_catalog (c : Catalog) : Prop := unique_keys c /\ keyed_buckets c.

(** The run before its first attempt. *)
Definition no_children (runID : string) (d : db) : Prop :=
  keyed d /\ forall key r, job_runs d !! key = Some r -> ~ is_child runID r.

(** A key is in at most one child job, once, and is spilled. *)
Definition enqueued_once (runID : string) (d : db) : Prop :=
  (forall key1 r1 key2 r2 k, job_runs d !! key1 = Some r1 -> job_runs d !! key2 = Some r2 ->
     is_child runID r1 -> is_child runID r2 -> k ∈ child_keys r1 -> k ∈ child_keys r2 -> key1 = key2) /\
  (forall key r, job_runs d !! key = Some r -> is_child runID r ->
     NoDup (child_keys r) /\ Z.of_nat (List.length (child_keys r)) <= childJobBatchSize /\
     forall k, k ∈ child_keys r -> (runID, k) ∈ job_spill d).

Lemma planned_start runID G (K : string -> Prop) d :
  no_children runID d -> (forall k, spilled runID d k -> K k) -> planned runID G K d.
Proof.
intros [Hk Hno] HK. split; [done|..]; try (intros; exfalso; by eapply Hno).
intros k Hs. left. by apply HK.
Qed.

Lemma spill_of (runID : string) (d : db) : exists X : gset string, forall k, spilled runID d k <-> k ∈ X.
Proof.
exists (set_map snd (filter (fun e : string * string => e.1 = runID) (job_spill d))).
intros k. rewrite elem_of_map. unfold spilled. split.
- intros Hin. exists (runID, k). split; [done|]. by apply elem_of_filter.
- intros ([a b] & -> & [Ha Hin]%elem_of_filter). cbn in *. by subst a.
Qed.

Lemma interference_env runID inp l (C : Catalog -> Prop) serves :
  interference runID C l ->
  (forall E fuel b client n tok mk page, (E, fuel) ∈ l -> bucket_of inp C b -> client_for E b = Ok client ->
    client n (mkListInput (bBucketName b) (list_prefix inp b) tok mk) = Ok page -> serves tok mk page) ->
  Forall (fun e => env_ok runID inp C serves e.1) l.
Proof.
intros Hi Hs. apply list.Forall_forall. intros [E fuel] HE. cbn. split.
- intros n s. by apply (Hi E fuel HE n s).
- intros n s. by apply (Hi E fuel HE n s).
- intros b client n tok mk page. by apply (Hs E fuel).
Qed.

(** C8: whatever the other workers do, whatever fails and however often the run is
    attempted again, no object is planned twice: a key is in at most one child job of
    the run, once, it is spilled, and a child job holds at most 100 objects. *)
Theorem sync_enqueues_once runID l s r inp :
  job_runs (jobs s) !! runID = Some r -> no_children runID (jobs s) ->
  ParseSyncBucketInput (scanJobRun r) = Ok inp -> sound_catalog (catalog s) -> interference runID sound_catalog l ->
  enqueued_once runID (jobs (attempts runID l s).2).
Proof.
intros Hr Hno Hp Hc Hi.
assert (plan_ok inp (fun _ _ => True) (fun _ => True) sound_catalog (fun _ _ _ => True)) as PO.
{ split; try done; [by eapply ParseSyncBucketInput_bucket|by intros c [? _]|by intros c [_ ?]]. }
pose proof (interference_env runID inp l sound_catalog (fun _ _ _ => True) Hi (fun _ _ _ _ _ _ _ _ _ _ _ _ => I)) as Hl.
destruct (spill_of runID (jobs s)) as [X HX].
assert (good runID r inp (fun _ _ => True) (fun _ => True) (fun _ _ _ => True) (jobs s)) as Hg.
{ exists X, (cursor_of (progress r)). split.
  - split; [by apply planned_start|]. split; [done|]. by exists r.
  - destruct (cursor_of (progress r)) as [[tok mk] done]; destruct done; cbn.
    + exists ([] ++ [mkPage [] false "" ""]). split.
      * exists [], "", "", (mkPage [] false "" ""). split_and!; try done. constructor.
      * intros page o Hp' Ho. apply list_elem_of_singleton in Hp' as ->. by apply not_elem_of_nil in Ho.
    + exists ([] ++ [mkPage [] true mk tok]). split.
      * by apply (path_next _ [] "" "" (mkPage [] true mk tok)); [constructor|..].
      * intros page o Hp' Ho. apply list_elem_of_singleton in Hp' as ->. by apply not_elem_of_nil in Ho. }
destruct (attempts_post runID r inp (fun _ _ => True) (fun _ => True) sound_catalog (fun _ _ _ => True) PO
  (proj1 Hno runID r Hr) Hp l s Hl Hg Hc) as [(X' & cur & (P & HX' & _) & _) _].
split; [apply P|]. intros key r' Hr' Hch. split; [by eapply (pl_nodup _ _ _ _ P)|].
split; [by eapply (pl_size _ _ _ _ P)|]. intros k Hk. by eapply (pl_spilled _ _ _ _ P).
Qed.

(** ** The plan of a key

    What the plan should do with a key, given how the upstream lists it and its row
    in the catalog. *)
Definition verdict (inp : SyncBucketInput) (scope : ObjectScopeParams) (k : string) (listed0 : option ListedObject)
    (local0 : option ObjectRow) : option string :=
  if negb (matches_partition (siPartition inp) k) then None
  else match listed0, local0 with
  | Some _, None => Some JobTypeImportObjects
  | Some o, Some r =>
      match scanObject r with
      | Ok obj => if ObjectChanged o obj then Some JobTypeRefreshObjects else None
      | Err _ => None
      end
  | None, Some r => if in_scope scope r then Some JobTypeRemoveObjects else None
  | None, None => None
  end.

(** A catalog where the bucket and the row of the key are these. *)
Record stable (inp : SyncBucketInput) (b0 : Bucket) (k : string) (local0 : option ObjectRow) (c : Catalog) : Prop := {
  st_sound : sound_catalog c;
  st_bucket : buckets c !! siBucketID inp = Some b0;
  st_row r : (exists id, objects c !! id = Some r) /\ obucket_id r = siBucketID inp /\ okey r = k <-> local0 = Some r
}.

(** The pages the upstream answers during the attempts. *)
Definition served (inp : SyncBucketInput) (b : Bucket) (l : list (Env * nat)) (tok mk : string) (page : ObjectPage) : Prop :=
  exists E fuel client n, (E, fuel) ∈ l /\ client_for E b = Ok client /\
    client n (mkListInput (bBucketName b) (list_prefix inp b) tok mk) = Ok page.

(** The upstream lists the key in the same way in every complete listing. *)
Definition listed_as (serves : string -> string -> ObjectPage -> Prop) (k : string) (listed0 : option ListedObject) : Prop :=
  (forall tok mk page o, serves tok mk page -> o ∈ Objects page -> lKey o = k -> listed0 = Some o) /\
  (forall pages o, complete serves pages -> listed0 = Some o -> exists page, page ∈ pages /\ o ∈ Objects page /\ lKey o = k).

Lemma plan_ok_verdict inp b0 k listed0 local0 serves :
  siBucketID inp <> "" -> listed_as serves k listed0 ->
  let v := verdict inp (mkScope (siBucketID inp) (list_prefix inp (scanBucket b0))) k listed0 local0 in
  plan_ok inp (fun ty key => key = k -> v = Some ty) (fun key => key = k -> v = None) (stable inp b0 k local0) serves.
Proof.
intros Hb [Hl1 Hl2] v. unfold v, verdict.
assert (forall o, listed inp serves o -> lKey o = k ->
  listed0 = Some o /\ matches_partition (siPartition inp) k = true) as Hl.
{ intros o (pages & tok & mk & page & _ & Hs & Ho & Hm) <-. split; [by eapply Hl1|done]. }
assert (forall c id r, stable inp b0 k local0 c -> objects c !! id = Some r -> obucket_id r = siBucketID inp ->
  okey r = k -> local0 = Some r) as Hr by (intros c id r Hc ? ? ?; apply (st_row _ _ _ _ _ Hc); eauto).
split; [done|by intros c [[? ?] _ _]|by intros c [[? ?] _ _]|..].
- intros c o Hc Ho Hno Hk. destruct (Hl o Ho Hk) as [-> ->]. destruct local0 as [r|]; [|done].
  destruct (proj2 (st_row _ _ _ _ _ Hc r) eq_refl) as ((id & Hid) & Hbk & Hkr). destruct (Hno id r Hid Hbk). congruence.
- intros c o id r obj Hc Ho Hid Hbk Hkr Hs Hch Hk. destruct (Hl o Ho Hk) as [-> ->].
  rewrite (Hr c id r Hc Hid Hbk) by congruence. by rewrite Hs, Hch.
- intros c o id r obj Hc Ho Hid Hbk Hkr Hs Hch Hk. destruct (Hl o Ho Hk) as [-> ->].
  rewrite (Hr c id r Hc Hid Hbk) by congruence. by rewrite Hs, Hch.
- intros c b pages X id r Hc (c' & b' & Hc' & Hb' & ->) Hp Hcov Hid Hin Hm HnX Hk.
  rewrite (st_bucket _ _ _ _ _ Hc') in Hb'. injection Hb' as <-.
  assert (obucket_id r = siBucketID inp) as Hbk.
  { unfold in_scope in Hin. cbn in Hin. destruct (String.eqb_spec (siBucketID inp) ""); [done|].
    apply andb_true_iff in Hin as [Hin _]. by apply String.eqb_eq. }
  rewrite (Hr c id r Hc Hid Hbk Hk). subst k. rewrite Hm, Hin. cbn. destruct listed0 as [o|]; [|done].
  destruct (Hl2 pages o Hp eq_refl) as (page & Hpage & Ho & Hko). destruct HnX. rewrite <- Hko.
  apply (Hcov page o Hpage Ho). by rewrite Hko.
Qed.

(** The child job of a type that carries the key. *)
Definition planned_as (runID ty k : string) (d : db) : Prop :=
  exists key r, job_runs d !! key = Some r /\ is_child runID r /\ type_ r = ty /\ k ∈ child_keys r.

(** A run that was never attempted. *)
Definition fresh_run (runID : string) (r : JobRow) (d : db) : Prop :=
  no_children runID d /\ (forall k, ~ spilled runID d k) /\ cursor_of (progress r) = ("", "", false).

(** C7: the jobs of a run that succeeds, after any number of attempts, are the
    difference between the upstream and the catalog: a key that neither side changes
    meanwhile is in a child job of a type exactly when that is its verdict, import if
    it is listed and not known, refresh if it is listed with other evidence, remove if
    it is known in the scope and not listed. *)
Theorem sync_plan runID l s r inp b0 k listed0 local0 outcome :
  job_runs (jobs s) !! runID = Some r -> fresh_run runID r (jobs s) ->
  ParseSyncBucketInput (scanJobRun r) = Ok inp ->
  stable inp b0 k local0 (catalog s) -> interference runID (stable inp b0 k local0) l ->
  listed_as (served inp (scanBucket b0) l) k listed0 ->
  List.last (attempts runID l s).1 (Err OutOfFuel) = Ok outcome ->
  forall ty, planned_as runID ty k (jobs (attempts runID l s).2) <->
    verdict inp (mkScope (siBucketID inp) (list_prefix inp (scanBucket b0))) k listed0 local0 = Some ty.
Proof.
intros Hr (Hno & Hsp & Hcur) Hp Hc Hi Hl Hlast. set (v := verdict _ _ _ _ _).
set (serves := served inp (scanBucket b0) l) in *. set (C := stable inp b0 k local0) in *.
pose proof (plan_ok_verdict inp b0 k listed0 local0 serves (ParseSyncBucketInput_bucket _ _ Hp) Hl) as PO. fold v C in PO.
assert (Forall (fun e => env_ok runID inp C serves e.1) l) as HE.
{ apply interference_env; [done|]. intros E fuel b client n tok mk page HE (c & b' & Hc' & Hb' & ->) Hcl Hpg.
  rewrite (st_bucket _ _ _ _ _ Hc') in Hb'. injection Hb' as <-. by exists E, fuel, client, n. }
assert (good runID r inp (fun ty key => key = k -> v = Some ty) (fun key => key = k -> v = None) serves (jobs s)) as Hg.
{ exists ∅, ("", "", false). split.
  - split; [apply planned_start; [done|]; intros k' Hk'; by destruct (Hsp k')|]. split; [|by exists r].
    intros k'. split; [intros Hk'; by destruct (Hsp k')|]. by intros ?%elem_of_empty.
  - exists []. split; [constructor|]. by intros ? ? ?%not_elem_of_nil. }
destruct (attempts_post runID r inp _ _ C serves PO (proj1 Hno runID r Hr) Hp l s HE Hg Hc) as [_ Hsync].
destruct Hsync as (X & tok & mk & pages & b & c & (P & HX & _) & Hcomp & Hcov & (c' & b' & Hc' & Hb' & ->) & Hcc & Hall).
{ by exists outcome. }
rewrite (st_bucket _ _ _ _ _ Hc') in Hb'. injection Hb' as <-. intros ty. split.
{ intros (key & r' & Hr' & Hch & <- & Hk). by apply (pl_good _ _ _ _ P key r' k). }
intros Hv. assert (k ∈ X) as HkX.
{ unfold v, verdict in Hv. destruct (matches_partition (siPartition inp) k) eqn:Em; [|done]. cbn in Hv.
  destruct listed0 as [o|].
  - destruct (proj2 Hl pages o Hcomp eq_refl) as (page & Hpage & Ho & <-). by apply (Hcov page o).
  - destruct local0 as [r0|]; [|done].
    destruct (proj2 (st_row _ _ _ _ _ Hcc r0) eq_refl) as ((id & Hid) & Hbk & <-).
    apply (Hall id r0 Hid); [|done]. unfold sync_scope, SyncObjectScopeParams, list_prefix in *.
    assert (bID (scanBucket b0) = siBucketID inp) as ->.
    { exact (proj2 (st_sound _ _ _ _ _ Hc') _ _ (st_bucket _ _ _ _ _ Hc')). }
    by destruct (in_scope _ r0). }
apply HX in HkX. destruct (pl_rest _ _ _ _ P k HkX) as [HK|(key & r' & Hr' & Hch & Hk)]; [by rewrite (HK eq_refl) in Hv|].
exists key, r'. split_and!; try done. pose proof (pl_good _ _ _ _ P key r' k Hr' Hch Hk eq_refl) as Hg'. congruence.
Qed.
End Theorems.
