(* ===== verification/SyncTermination.v ===== *)
(** * SyncTermination

    The loops of a sync_bucket run end: the listing ends when the upstream makes
    progress from page to page, and the loop over the child jobs of the run ends
    because the other workers do not create any. *)
From S2P Require Import Prelude GoStrings GoFloat GoTime Verification JobPayload JobRuns JobTrace JobRunProofs ErrState.
From S2P Require Import S3Listing Catalog Buckets ObjectStore ObjectPlan SyncBucket SyncPlan SyncBucketProofs.
Local Open Scope Z_scope.

(** ** Computations that never run out of fuel *)

Definition no_fuel {S A} (m : M S A) : Prop := forall s, (m s).1 <> Err OutOfFuel.

Create HintDb fuel.

Section NoFuel.
Context {S : Type}.

Lemma no_fuel_ret {A} (a : A) : no_fuel (S := S) (mret a).
Proof. done. Qed.
Lemma no_fuel_fail {A} message : no_fuel (S := S) (A := A) (fail_with message).
Proof. done. Qed.
Lemma no_fuel_gets {A} (f : S -> A) : no_fuel (gets f).
Proof. done. Qed.
Lemma no_fuel_puts (f : S -> S) : no_fuel (puts f).
Proof. done. Qed.
Lemma no_fuel_of_result {A} (r : result store_error A) : no_fuel (S := S) (of_result r).
Proof. intros s. by destruct r. Qed.

Lemma no_fuel_bind {A B} (m : M S A) (f : A -> M S B) : no_fuel m -> (forall a, no_fuel (f a)) -> no_fuel (m ≫= f).
Proof.
intros Hm Hf s. specialize (Hm s). unfold mbind, M_bind. destruct (m s) as [[a|e] s']; [apply Hf|].
cbn in *. congruence.
Qed.

Lemma no_fuel_triple {A} (m : M S A) P : no_fuel m -> triple P m (fun _ _ => True) (fun e _ => e <> OutOfFuel).
Proof. intros Hm s _. specialize (Hm s). destruct (m s) as [[a|e] s']; cbn in *; [done|congruence]. Qed.

Lemma no_fuel_for_each {A} (f : A -> M S unit) xs : (forall x, no_fuel (f x)) -> no_fuel (for_each f xs).
Proof. intros Hf. induction xs as [|x xs IH]; cbn; [apply no_fuel_ret|]. by apply no_fuel_bind. Qed.

Lemma no_fuel_for_acc {A B} (f : B -> A -> M S B) xs acc : (forall acc x, no_fuel (f acc x)) -> no_fuel (for_acc f acc xs).
Proof. intros Hf. revert acc. induction xs as [|x xs IH]; intros acc; cbn; [apply no_fuel_ret|]. by apply no_fuel_bind. Qed.

Lemma no_fuel_WithTx {A} (m : M S A) : no_fuel m -> no_fuel (WithTx m).
Proof. intros Hm s. specialize (Hm s). unfold WithTx. by destruct (m s) as [[a|e] s']. Qed.
End NoFuel.

Lemma no_fuel_on_jobs {A} (m : DB A) : no_fuel (on_jobs m).
Proof. intros s. rewrite on_jobs_eq. by destruct (m (jobs s)) as [[]]. Qed.
Lemma no_fuel_on_catalog {A} (m : M Catalog A) : no_fuel m -> no_fuel (on_catalog m).
Proof. intros Hm s. rewrite on_catalog_eq. apply Hm. Qed.

#[export] Hint Resolve no_fuel_ret no_fuel_fail no_fuel_gets no_fuel_puts no_fuel_of_result no_fuel_bind no_fuel_for_each
  no_fuel_for_acc no_fuel_WithTx no_fuel_on_jobs no_fuel_on_catalog : fuel.

Section Termination.
Context `{MapOrder, Collation} (E : Env).

Lemma no_fuel_stmt {A} (m : nat -> M Store A) : (forall n, no_fuel (m n)) -> no_fuel (stmt E m).
Proof.
intros Hm w. unfold stmt. destruct (fault E (clock w)) as [[e|e]|]; [done..|].
specialize (Hm (clock w) (others E (clock w) (store w))). by destruct (m _ _) as [[a|e] s'].
Qed.
Hint Resolve no_fuel_stmt : fuel.

Lemma no_fuel_GetBucket bucketID : no_fuel (GetBucket bucketID).
Proof. intros c. unfold GetBucket. by destruct (buckets c !! bucketID). Qed.

Lemma no_fuel_GetObjects bucketID keys : no_fuel (GetObjectsByBucketAndKeys bucketID keys).
Proof.
intros c. unfold GetObjectsByBucketAndKeys, scan_rows, of_result. destruct (String.eqb bucketID ""); [done|].
destruct keys; [done|]. by destruct (mapM_result _ _).
Qed.
Hint Resolve no_fuel_GetBucket no_fuel_GetObjects : fuel.

Lemma no_fuel_updateProgress runID fields : no_fuel (updateProgress E runID fields).
Proof. unfold updateProgress. auto with fuel. Qed.
Hint Resolve no_fuel_updateProgress : fuel.

Lemma no_fuel_enqueue runID bucketID jobType objs : no_fuel (enqueueMutationJobs E runID bucketID jobType objs).
Proof. unfold enqueueMutationJobs, enqueue_batch, record_batch. destruct objs; auto 10 with fuel. Qed.
Hint Resolve no_fuel_enqueue : fuel.

Lemma no_fuel_page runID bucketID page : no_fuel (processListingPage E runID bucketID page).
Proof.
unfold processListingPage, page_progress, filterListedObjectsNotInSpill, processPendingObjects.
destruct (PageObjects page) as [|o os]; [auto with fuel|]. apply no_fuel_bind; [auto with fuel|].
intros pending. apply no_fuel_bind; [|auto with fuel]. destruct pending; [auto with fuel|].
apply no_fuel_bind; [auto with fuel|]. intros objs. apply no_fuel_bind; [auto with fuel|]. intros site.
destruct (PlanObjectMutationsForListedObjects _ _ _) as [[imports refreshes] removes]. auto with fuel.
Qed.
Hint Resolve no_fuel_page : fuel.

Lemma no_fuel_flush runID bucketID batch : no_fuel (flush E runID bucketID batch).
Proof. unfold flush. destruct batch; auto with fuel. Qed.
Hint Resolve no_fuel_flush : fuel.

Lemma no_fuel_remove runID bucketID scope partition :
  no_fuel (streamAndEnqueueRemoveObjects E runID bucketID scope partition).
Proof.
unfold streamAndEnqueueRemoveObjects, StreamObjectsInScopeMissingFromSpill. apply no_fuel_bind; [|auto with fuel].
destruct (String.eqb runID ""); [auto with fuel|]. unfold run_query. apply no_fuel_bind.
{ apply no_fuel_stmt. auto with fuel. }
intros [rows err]. unfold stream_rows. apply no_fuel_bind.
- apply no_fuel_for_acc. intros batch r. apply no_fuel_bind; [auto with fuel|]. intros o. unfold collect_remove.
  destruct (negb _); [auto with fuel|]. destruct (_ <=? _); auto with fuel.
- intros batch. cbn. destruct err; [by intros w|auto with fuel].
Qed.
Hint Resolve no_fuel_remove : fuel.

(** ** The listing *)

(** Each truncated page of a client leads to a smaller rank. *)
Definition advances (client : ObjectClient) (bucketName prefix : string) (rank : string -> string -> nat) : Prop :=
  forall n tok mk page, client n (mkListInput bucketName prefix tok mk) = Ok page -> IsTruncated page = true ->
    (rank (NextContinuationToken page) (NextMarker page) < rank tok mk)%nat.

Section Listing.
Context (client : ObjectClient) (run : JobRun) (b : Bucket) (prefix : string) (start : ListCheckpoint)
  (partition : option Partition) (rank : string -> string -> nat).
Context (Hadv : advances client (bBucketName b) prefix rank).

Notation options := (list_options E client run b prefix start partition).

Lemma no_fuel_scan_page kept n objects : no_fuel (scan_page options (fun _ => mret tt) kept n objects).
Proof.
revert kept n. induction objects as [|o os IH]; intros kept n; cbn [scan_page]; [auto with fuel|].
destruct (filtered_out options o); [done|]. unfold allows, records. cbn.
apply no_fuel_bind; [auto with fuel|]. intros [|]; cbn; auto with fuel.
Qed.

Lemma list_pages_enough fuel label tok mk n :
  (rank tok mk < fuel)%nat ->
  no_fuel (list_pages options fuel (call_upstream client) (fun _ => mret tt) label tok mk n).
Proof.
revert tok mk n. induction fuel as [|fuel IH]; intros tok mk n Hr; [lia|]. cbn [list_pages].
intros w. unfold mbind, M_bind at 1, call_upstream, of_result.
destruct (client (clock w) (list_input options tok mk)) as [page|e] eqn:Ec; [|done].
set (w' := mkWorld _ _ _). change (list_input options tok mk) with (mkListInput (bBucketName b) prefix tok mk) in Ec.
revert w'. enough (no_fuel (scanned ← scan_page options (fun _ => mret tt) [] n (Objects page);
  match scanned with
  | (None, objectsListed) => mret (false, objectsListed)
  | (Some pageObjects, objectsListed) => _ end)) as Hn by (intros w'; exact (Hn w')).
apply no_fuel_bind; [apply no_fuel_scan_page|]. intros [[kept|] n']; [|auto with fuel]. cbn zeta.
destruct (_ && _); [auto with fuel|]. apply no_fuel_bind; [cbn; auto with fuel|]. intros _.
destruct (IsTruncated page) eqn:Et; cbn [negb]; [|auto with fuel]. unfold allows. cbn.
apply no_fuel_bind; [auto with fuel|]. intros allowed. destruct (negb allowed); [auto with fuel|].
apply IH. pose proof (Hadv _ _ _ _ Ec Et). lia.
Qed.

Lemma no_fuel_list_upstream fuel checkpoint :
  (rank (lcContinuationToken checkpoint) (lcMarker checkpoint) < fuel)%nat -> start = toListStart checkpoint ->
  no_fuel (list_upstream E fuel client run b prefix checkpoint partition).
Proof.
intros Hr Hs. unfold list_upstream. destruct (lcListingComplete checkpoint); [auto with fuel|]. apply no_fuel_bind.
- rewrite <- Hs. unfold ListAllObjects. cbn [Client OnObject list_options]. apply list_pages_enough.
  by rewrite Hs.
- intros [[|] n]; cbn; auto with fuel.
Qed.
End Listing.

(** ** The children *)

#[export] Instance is_child_dec runID r : Decision (is_child runID r).
Proof. unfold is_child. apply _. Defined.

Definition children (runID : string) (d : db) : gset string :=
  dom (filter (fun e : string * JobRow => is_child runID e.2) (job_runs d)).

Lemma elem_of_children runID d key :
  key ∈ children runID d <-> exists r, job_runs d !! key = Some r /\ is_child runID r.
Proof.
unfold children. rewrite elem_of_dom. split.
- intros [r Hr]. apply map_lookup_filter_Some in Hr as [? ?]. by exists r.
- intros (r & Hr & Hc). exists r. by apply map_lookup_filter_Some.
Qed.

Lemma same_rows_children runID d d' : same_rows runID d d' -> children runID d' = children runID d.
Proof.
intros S. apply set_eq. intros key. rewrite !elem_of_children. split.
- intros (r' & Hr' & Hc). destruct (sp_children _ _ _ S key r' Hr' Hc) as (r & Hr & Hi). exists r.
  split; [done|]. by apply (identity_child runID r r').
- intros (r & Hr & Hc). destruct (sp_rows _ _ _ S key r Hr) as (r' & Hr' & Hi). exists r'.
  split; [done|]. by apply (identity_child runID r r').
Qed.

Lemma filter_rows_size (P : JobRow -> Prop) `{forall r, Decision (P r)} (p : JobRow -> bool) d :
  (forall r, p r = true <-> P r) ->
  List.length (List.filter p (rows d)) = size (filter (fun e : string * JobRow => P e.2) (job_runs d)).
Proof.
intros Hp. rewrite map_filter_alt, map_size_list_to_map.
- unfold rows. induction (map_to_list (job_runs d)) as [|[key r] l IH]; [done|].
  rewrite filter_cons, fmap_cons. cbn [List.filter snd]. destruct (decide (P r)) as [Hr|Hr].
  + rewrite (proj2 (Hp r) Hr). cbn [List.length]. by rewrite IH.
  + destruct (p r) eqn:E1; [by apply Hp in E1|]. exact IH.
- apply list.NoDup_fmap_2_strong; [|apply list.NoDup_filter, NoDup_map_to_list].
  intros [k1 r1] [k2 r2] [_ Hin1]%list_elem_of_filter [_ Hin2]%list_elem_of_filter Hk. cbn in Hk. subst k2.
  apply elem_of_map_to_list in Hin1, Hin2. congruence.
Qed.

Lemma children_page_length runID offset d :
  runID <> "" -> 0 <= offset ->
  exists l, ListJobRuns (children_page runID offset) d = (Ok l, d) /\
    Z.of_nat (List.length l) = Z.min 500 (Z.max 0 (Z.of_nat (size (children runID d)) - offset)).
Proof.
intros Hne Ho. eexists. split; [reflexivity|]. cbn [lOffset lLimit children_page].
destruct (Z.ltb_spec offset 0); [lia|]. rewrite length_map, length_firstn, length_skipn.
unfold select. rewrite (Permutation_length (sort_by_perm _ _)).
rewrite (filter_rows_size (is_child runID)).
- unfold children. rewrite size_dom. change (Z.to_nat (clamp_limit 500)) with 500%nat. lia.
- intros r. unfold jobRunListWhereClause, listJobRunTypeFilter, is_child, or_equal, children_page. cbn.
  destruct (String.eqb_spec runID ""); [done|]. cbn. rewrite !andb_true_r, andb_true_iff, !bool_decide_eq_true.
  change (bool_decide (requested_by_type r = Some "job") = true /\ requested_by_id r = Some runID <-> is_child runID r).
  by rewrite bool_decide_eq_true.
Qed.

Section Children.
Context (runID : string) (Hne : runID <> "") (N : Z).
Context (Hothers : forall n s, exists ops, jobs (others E n s) = run_ops ops (jobs s) /\ Forall (foreign runID) ops).

Definition counted (w : World) : Prop :=
  keyed (jobs (store w)) /\ Z.of_nat (size (children runID (jobs (store w)))) = N.

Lemma stmt_counted {A} (m : nat -> M Store A) (Q : A -> Prop) :
  (forall n s, keyed (jobs s) -> Z.of_nat (size (children runID (jobs s))) = N ->
    jobs (m n s).2 = jobs s /\ (m n s).1 <> Err OutOfFuel /\ forall a, (m n s).1 = Ok a -> Q a) ->
  triple counted (stmt E m) (fun a w => Q a /\ counted w) (fun e _ => e <> OutOfFuel).
Proof.
intros Hm w [Hk HN]. unfold stmt. destruct (fault E (clock w)) as [[e|e]|]; [done..|].
set (s := others E (clock w) (store w)). destruct (Hothers (clock w) (store w)) as (ops & Hops & Hf).
pose proof (sp_same _ _ _ (foreign_ops_same runID ops _ Hk Hf)) as Hs. rewrite <- Hops in Hs. fold s in Hs.
destruct (Hm (clock w) s) as (Hd & He & Ha).
{ by apply (sp_keyed _ _ _ Hs). }
{ by rewrite (same_rows_children _ _ _ Hs). }
destruct (m (clock w) s) as [[a|e] s']; cbn in *; [|congruence]. split; [by apply Ha|].
unfold counted. cbn. rewrite Hd. split; [by apply (sp_keyed _ _ _ Hs)|]. by rewrite (same_rows_children _ _ _ Hs).
Qed.

Lemma load_children_enough fuel offset state :
  0 <= offset <= N -> N < offset + 500 * Z.of_nat fuel ->
  triple counted (load_children E fuel runID offset state) (fun _ _ => True) (fun e _ => e <> OutOfFuel).
Proof.
revert offset state. induction fuel as [|fuel IH]; intros offset state Ho Hf; [lia|]. cbn [load_children].
eapply triple_bind.
- apply (stmt_counted _ (fun l => Z.of_nat (List.length l) = Z.min 500 (N - offset))).
  intros n s _ HN. rewrite on_jobs_eq. destruct (children_page_length runID offset (jobs s) Hne) as (l & -> & Hl); [lia|].
  split; [done|]. split; [done|]. intros a [= <-]. lia.
- intros l. apply triple_prop. intros Hl. cbn zeta. destruct (Z.ltb_spec (Z.of_nat (List.length l)) 500).
  + by intros w _.
  + apply IH; lia.
Qed.
End Children.

(** C9: an attempt of a run ends, whatever fails and whatever the other workers do:
    the fuel of the model's loops is enough when it exceeds the number of pages the
    upstream can still list from the checkpoint and the number of pages of child
    jobs. *)
Theorem Handle_terminates run fuel w rank :
  ID run <> "" -> keyed (jobs (store w)) ->
  (forall n s, exists ops, jobs (others E n s) = run_ops ops (jobs s) /\ Forall (foreign (ID run)) ops) ->
  (forall b client prefix, client_for E b = Ok client -> advances client (bBucketName b) prefix rank) ->
  (let checkpoint := listingCheckpointFromProgress (Progress run) in
   rank (lcContinuationToken checkpoint) (lcMarker checkpoint) < fuel)%nat ->
  Z.of_nat (size (children (ID run) (jobs (store w)))) < 500 * Z.of_nat fuel ->
  (Handle E fuel run w).1 <> Err OutOfFuel.
Proof.
intros Hne Hk Ho Hadv Hr Hf. cbn zeta in Hr. set (N := Z.of_nat (size _)) in *.
enough (triple (counted (ID run) N) (Handle E fuel run) (fun _ _ => True) (fun e _ => e <> OutOfFuel)) as Ht.
{ assert (counted (ID run) N w) as Hc by done. specialize (Ht w Hc). by destruct (Handle E fuel run w) as [[p|e] w']; cbn in *; [|congruence]. }
unfold Handle.
eapply triple_bind; [instantiate (1 := fun _ => counted (ID run) N); intros w' Hw'; unfold of_result;
  by destruct (ParseSyncBucketInput run)|].
intros inp. eapply triple_bind.
{ apply (stmt_counted (ID run) N Ho _ (fun _ => True)). intros n s _ _. rewrite on_catalog_eq. split; [done|].
  split; [apply no_fuel_GetBucket|done]. }
intros b. apply triple_prop. intros _.
eapply triple_bind with (R := fun client w => client_for E b = Ok client /\ counted (ID run) N w).
{ intros w' Hw'. unfold of_result. by destruct (client_for E b). }
intros client. apply triple_prop. intros Hclient. unfold loadSyncExecutionState. eapply triple_bind with (R := fun _ _ => True).
{ eapply triple_bind; [apply (load_children_enough (ID run) Hne N Ho); lia|]. intros state. by intros w' _. }
intros state. apply no_fuel_triple. apply no_fuel_bind; [auto with fuel|]. intros _. cbn zeta.
apply no_fuel_bind; [eapply no_fuel_list_upstream; [by apply Hadv|exact Hr|done]|]. auto 10 with fuel.
Qed.
End Termination.
