(* ===== verification/SyncWitnesses.v ===== *)
(** * SyncWitnesses

    A sync of a small bucket: the upstream lists [a] and then [c], the catalog knows
    [c] and [z]; the theorems of the sync applied to it. *)
From S2P Require Import Prelude GoStrings GoFloat GoTime Verification JobPayload JobRuns JobTrace JobRunProofs ErrState.
From S2P Require Import S3Listing Catalog Buckets ObjectStore ObjectPlan SyncBucket SyncPlan SyncBucketProofs SyncTheorems SyncTermination.
Local Open Scope Z_scope.

Definition demo_order : MapOrder := {| range_keys := fun _ l => l; range_keys_perm := fun _ l => Permutation_refl _ |}.
#[export] Existing Instance demo_order.
Definition demo_collation : Collation := String.ltb.
#[export] Existing Instance demo_collation.

Definition demo_time : Time := mkTime 0 0 0.
Definition demo_listed (key : string) : ListedObject := mkListed key "etag" 1 demo_time "".
Definition demo_page1 : ObjectPage := mkPage [demo_listed "a"] true "" "T".
Definition demo_page2 : ObjectPage := mkPage [demo_listed "c"] false "" "".

(** The upstream answers the same pages to every attempt. *)
Definition demo_client : ObjectClient := fun n input =>
  if String.eqb (iContinuationToken input) "" then Ok demo_page1
  else if String.eqb (iContinuationToken input) "T" then Ok demo_page2
  else Err (Errorf "no such token").

(** An environment without other workers, whose connection is lost at one statement. *)
Definition demo_env (failing : nat) : Env :=
  mkEnv (fun _ s => s) (fun n => if Nat.eqb n failing then Some (FaultAfter (Errorf "connection lost")) else None)
    (fun _ => None) (fun n => Z.of_nat n) (fun _ => demo_time) (fun n => [Z.of_nat failing; Z.of_nat n])
    (fun _ => Ok demo_client).

(** The first attempt loses the connection after it has enqueued the import of [a]. *)
Definition demo_attempts : list (Env * nat) := [(demo_env 5, 5%nat); (demo_env 100, 5%nat)].

Definition demo_row (id key : string) : ObjectRow := mkObjectRow id "b" key ∅ ∅ 0 0.
Definition demo_bucket : Bucket :=
  mkBucket "b" "bucket" "s3" "" "" "upstream" "" ∅ (mkEnvelope "" "" "" "") (mkScanConfig None "") 0 0.
Definition demo_catalog : Catalog :=
  mkCatalog {["b" := demo_bucket]} (<["oc" := demo_row "oc" "c"]> {["oz" := demo_row "oz" "z"]}) ∅ ∅ ∅ ∅.

Definition demo_run : JobRow :=
  mkJobRow "run" "run" "sync_bucket" Running None None (Some "bucket") (Some "b") {["bucket_id" := VString "b"]} ∅ ∅
    1 3 0 (Some "worker") (Some 0) (Some 0) None None 0 0.
Definition demo_store : Store := mkStore (mkDB {["run" := demo_run]} ∅) demo_catalog.
Definition demo_input : SyncBucketInput := mkSyncInput "b" "" None "".

Notation demo_result := (attempts "run" demo_attempts demo_store).

Lemma demo_sound : sound_catalog demo_catalog.
Proof.
split.
- intros id1 r1 id2 r2 H1 H2 _. cbn [objects demo_catalog] in H1, H2. apply lookup_insert_Some in H1, H2.
  destruct H1 as [[<- <-]|[_ H1]], H2 as [[<- <-]|[_ H2]]; try (apply lookup_singleton_Some in H1 as [<- <-]);
    try (apply lookup_singleton_Some in H2 as [<- <-]); done.
- intros id b Hb. cbn [buckets demo_catalog] in Hb. by apply lookup_singleton_Some in Hb as [<- <-].
Qed.

Lemma demo_fresh : fresh_run "run" demo_run (jobs demo_store).
Proof.
split_and!; [split|..].
- intros key r Hr. cbn in Hr. by apply lookup_singleton_Some in Hr as [<- <-].
- intros key r Hr. cbn in Hr. by apply lookup_singleton_Some in Hr as [<- <-]; intros [? ?].
- intros k Hk. unfold spilled in Hk. cbn in Hk. by apply elem_of_empty in Hk.
- vm_compute. done.
Qed.

Lemma demo_attempt E fuel : (E, fuel) ∈ demo_attempts -> exists n, E = demo_env n.
Proof.
intros [HE|[HE|?%not_elem_of_nil]%elem_of_cons]%elem_of_cons; [..|done]; apply (f_equal fst) in HE; cbn in HE; eauto.
Qed.

Lemma demo_interference C : interference "run" C demo_attempts.
Proof.
intros E fuel [m ->]%demo_attempt n s. split; [by exists []|done].
Qed.

Lemma demo_row_in key r :
  (exists id, objects demo_catalog !! id = Some r) /\ obucket_id r = "b" /\ okey r = key <->
  (r = demo_row "oc" "c" \/ r = demo_row "oz" "z") /\ okey r = key.
Proof.
split.
- intros ((id & Hr) & _ & Hk). split; [|done]. cbn [objects demo_catalog] in Hr.
  apply lookup_insert_Some in Hr as [[_ <-]|[_ Hr]]; [by left|]. apply lookup_singleton_Some in Hr as [_ <-]. by right.
- intros [[->| ->] Hk]; (split_and!; [|done..]); [by exists "oc"|by exists "oz"].
Qed.

Lemma demo_served tok mk page : served demo_input (scanBucket demo_bucket) demo_attempts tok mk page ->
  demo_client 0%nat (mkListInput "upstream" "" tok mk) = Ok page.
Proof.
intros (E & fuel & client & n & [m ->]%demo_attempt & Hc & Hp). cbn in Hc. by injection Hc as <-.
Qed.

Lemma demo_page_of tok mk page : served demo_input (scanBucket demo_bucket) demo_attempts tok mk page ->
  (tok = "" /\ page = demo_page1) \/ (tok = "T" /\ page = demo_page2).
Proof.
intros Hs%demo_served. unfold demo_client in Hs. cbn in Hs. destruct (String.eqb_spec tok ""); [left; split; congruence|].
destruct (String.eqb_spec tok "T"); [right; split; congruence|done].
Qed.

Lemma demo_path pages tok mk : path (served demo_input (scanBucket demo_bucket) demo_attempts) pages tok mk ->
  (pages = [] /\ tok = "") \/ (pages = [demo_page1] /\ tok = "T").
Proof.
induction 1 as [|pages tok mk page _ IH Hs Ht]; [by left|].
destruct (demo_page_of _ _ _ Hs) as [[-> ->]|[-> ->]]; [|done]. right. by destruct IH as [[-> _]|[_ ?]].
Qed.

Lemma demo_complete pages : complete (served demo_input (scanBucket demo_bucket) demo_attempts) pages ->
  pages = [demo_page1; demo_page2].
Proof.
intros (init & tok & mk & page & -> & Hp & Hs & Ht).
destruct (demo_page_of _ _ _ Hs) as [[-> ->]|[-> ->]]; [done|]. by destruct (demo_path _ _ _ Hp) as [[_ ?]|[-> _]].
Qed.

Lemma demo_listed_as (k : string) listed0 :
  listed0 = (if String.eqb k "a" then Some (demo_listed "a") else if String.eqb k "c" then Some (demo_listed "c") else None) ->
  listed_as (served demo_input (scanBucket demo_bucket) demo_attempts) k listed0.
Proof.
intros ->. split.
- intros tok mk page o Hs Ho <-. destruct (demo_page_of _ _ _ Hs) as [[_ ->]|[_ ->]];
    apply list_elem_of_singleton in Ho as ->; done.
- intros pages o Hp%demo_complete. destruct (String.eqb_spec k "a") as [->|]; [|destruct (String.eqb_spec k "c") as [->|]; [|done]];
    intros [= <-]; subst pages; [exists demo_page1|exists demo_page2]; split_and!; set_solver.
Qed.

Lemma sync_enqueues_once_witness : enqueued_once "run" (jobs demo_result.2).
Proof.
exact (sync_enqueues_once "run" demo_attempts demo_store demo_run demo_input eq_refl (proj1 demo_fresh) eq_refl
  demo_sound (demo_interference _)).
Defined.

Lemma demo_stable k local0 :
  (local0 = None /\ k <> "c" /\ k <> "z" \/
   exists r, local0 = Some r /\ okey r = k /\ (r = demo_row "oc" "c" \/ r = demo_row "oz" "z")) ->
  stable demo_input demo_bucket k local0 demo_catalog.
Proof.
intros Hl. split; [apply demo_sound|done|]. intros r. change (siBucketID demo_input) with "b". rewrite demo_row_in.
destruct Hl as [(-> & ? & ?)|(r0 & -> & <- & Hr0)]; (split; [intros [[->| ->] Hk]; cbn in Hk|]); try congruence.
- by destruct Hr0 as [->| ->].
- by destruct Hr0 as [->| ->].
- intros [= <-]. by split.
Qed.

Lemma demo_ends : exists p, List.last demo_result.1 (Err OutOfFuel) = Ok p.
Proof.
assert (match List.last demo_result.1 (Err OutOfFuel) with Ok _ => true | Err _ => false end = true) as Hok
  by (vm_compute; reflexivity).
destruct (List.last demo_result.1 _) as [p|e]; [by exists p|done].
Qed.

Lemma demo_stable_a : stable demo_input demo_bucket "a" None demo_catalog.
Proof. apply demo_stable. by left. Qed.
Lemma demo_stable_c : stable demo_input demo_bucket "c" (Some (demo_row "oc" "c")) demo_catalog.
Proof. apply demo_stable. right. eauto. Qed.
Lemma demo_stable_z : stable demo_input demo_bucket "z" (Some (demo_row "oz" "z")) demo_catalog.
Proof. apply demo_stable. right. eauto. Qed.

(** [a] is imported, [c] refreshed and [z] removed. *)
Lemma sync_plan_witness :
  planned_as "run" JobTypeImportObjects "a" (jobs demo_result.2) /\
  planned_as "run" JobTypeRefreshObjects "c" (jobs demo_result.2) /\
  planned_as "run" JobTypeRemoveObjects "z" (jobs demo_result.2) /\
  ~ planned_as "run" JobTypeRemoveObjects "c" (jobs demo_result.2).
Proof.
destruct demo_ends as [p Hp].
pose proof (fun k listed0 local0 Hl Hs => sync_plan "run" demo_attempts demo_store demo_run demo_input demo_bucket k
  listed0 local0 p eq_refl demo_fresh eq_refl Hs (demo_interference _) (demo_listed_as k listed0 Hl) Hp) as Hplan.
pose proof (Hplan "a" (Some (demo_listed "a")) None eq_refl demo_stable_a) as Ha.
pose proof (Hplan "c" (Some (demo_listed "c")) (Some (demo_row "oc" "c")) eq_refl demo_stable_c) as Hc.
pose proof (Hplan "z" None (Some (demo_row "oz" "z")) eq_refl demo_stable_z) as Hz.
clear Hplan. split; [|split; [|split]].
- apply (proj2 (Ha _)). vm_compute. reflexivity.
- apply (proj2 (Hc _)). vm_compute. reflexivity.
- apply (proj2 (Hz _)). vm_compute. reflexivity.
- intros Hr. apply (proj1 (Hc _)) in Hr. vm_compute in Hr. discriminate Hr.
Defined.

Lemma Handle_terminates_witness :
  (Handle (demo_env 100) 2 (scanJobRun demo_run) (mkWorld 0 demo_store newSyncExecutionState)).1 <> Err OutOfFuel.
Proof.
apply (Handle_terminates (demo_env 100) (scanJobRun demo_run) 2 (mkWorld 0 demo_store newSyncExecutionState)
  (fun tok _ => if String.eqb tok "" then 1%nat else 0%nat)).
- done.
- apply demo_fresh.
- intros n s. by exists [].
- intros b client prefix [= <-] n tok mk page. unfold demo_client. cbn.
  destruct (String.eqb_spec tok "") as [->|]; [intros [= <-] _; vm_compute; lia|].
  destruct (String.eqb_spec tok "T"); [intros [= <-]; done|done].
- vm_compute. lia.
- vm_compute. done.
Defined.
