(* ===== verification/ObjectJobs.v ===== *)
(** * ObjectJobs

    The jobs that a sync plans: apps/worker/internal/jobs/object_mutation.go, the
    payloads they read (payloads.go) and the handlers of import_objects,
    refresh_objects and remove_objects.

    The handlers run in the world of [SyncBucket]: other transactions and failures at
    every statement.  [UpsertObjects] is one step of it. *)
From S2P Require Import Prelude GoStrings GoFloat GoTime GoJson Ast JobPayload JobRuns ErrState S3Listing Catalog AttributeCatalog.
From S2P Require Import Capture Buckets ObjectStore Extract ObjectPlan HeadPool SyncBucket.
Local Open Scope Z_scope.

(** ** DecodePayload (payloads.go) *)

(** The number literal of a finite float64: without a fraction or an exponent when it
    is an integer below 10^21. *)
Definition json_number (f : spec_float) : json :=
  match f with
  | S754_finite s m e =>
      let integral := (0 <=? e) || (Zpos m mod 2 ^ (- e) =? 0) in
      let a := if 0 <=? e then Zpos m * 2 ^ e else Zpos m / 2 ^ (- e) in
      if integral && (a <? 10 ^ 21) then JInt (if s then - a else a) else JFloat f
  | _ => JInt 0
  end.

Definition member_lt (a b : string * json) : bool := String.ltb a.1 b.1.

(** [json.Marshal] of a value: the members of an object are sorted. *)
Fixpoint json_of (v : value) : json :=
  match v with
  | VNil => JNull
  | VBool b => JBool b
  | VInt z => JInt z
  | VFloat f => json_number f
  | VString s => jstring s
  | VStrings l => JArray (map jstring l)
  | VSlice l => JArray (map json_of l)
  | VStringsMap m => JObject (sort_by member_lt (map_to_list ((fun l => JArray (map jstring l)) <$> m)))
  | VMap m => JObject (sort_by member_lt (map_to_list (json_of <$> m)))
  end.

Definition int_field (name : string) (members : list (string * json)) : option Z :=
  match get_field name members with Some j => as_int64 j | None => Some 0 end.

(** The members of a struct; null leaves it as it is. *)
Definition evidence_of_json (j : json) : option ObjectEvidence :=
  members ← as_object j;
  id ← text_field "id" members;
  key ← text_field "key" members;
  versionID ← text_field "version_id" members;
  etag ← text_field "etag" members;
  size ← int_field "size" members;
  lastModified ← text_field "last_modified" members;
  storageClass ← text_field "storage_class" members;
  Some (mkEvidence id key versionID etag size lastModified storageClass).

Definition mutation_of_json (j : json) : option ObjectMutationInput :=
  members ← as_object j;
  bucketID ← text_field "bucket_id" members;
  objects ← match get_field "objects" members with
    | Some j => l ← as_array j; mapM evidence_of_json l
    | None => Some []
    end;
  sourceJobRunID ← text_field "source_job_run_id" members;
  Some (mkMutationInput bucketID objects sourceJobRunID).

(** [DecodePayload] into an [ObjectMutationInput]. *)
Definition DecodeMutationInput (p : payload) : result store_error ObjectMutationInput :=
  if marshals (VMap p) then
    match mutation_of_json (json_of (VMap p)) with
    | Some input => Ok input
    | None => Err (Errorf "decode job payload: %w")
    end
  else Err (Errorf "encode job payload: %w").

(** ** object_mutation.go *)

Definition DefaultHeadConcurrency : Z := 8.
Definition DefaultUpsertBatchSize : Z := 100.

Definition UpsertObjectParamsFromHeadResults (bucketID runID : string) (results : list HeadObjectResult) :
    list UpsertObjectParams :=
  map (fun result => mkUpsert bucketID (evKey (hrEvidence result)) (hrAttributes result) {["upstream" := runID]} None) results.

Definition UpsertObjectParamBatches (params : list UpsertObjectParams) (size : Z) : list (list UpsertObjectParams) :=
  batches params size.

Definition mutation_progress (action phase : string) (total headed upserted : Z) : payload :=
  <["action" := VString action]> (<["phase" := VString phase]> (<["objects_total" := VInt total]>
  (<["objects_headed" := VInt headed]> {["objects_upserted" := VInt upserted]}))).

Definition mutation_result (bucketID : string) (total headed upserted headConcurrency upsertBatchSize : Z)
    (resultCountKey : string) : payload :=
  <[resultCountKey := VInt upserted]> (<["upsert_batch_size" := VInt upsertBatchSize]>
  (<["head_concurrency" := VInt headConcurrency]> (<["objects_upserted" := VInt upserted]>
  (<["objects_headed" := VInt headed]> (<["objects_total" := VInt total]> {["bucket_id" := VString bucketID]}))))).

(** What the handlers find besides the database: the calls of a client, for the
    [k]-th event of the pool, the order of those events for the pool started after
    the [n]-th statement, and what [rand.Read] and [time.Now] return for the rows of
    the [n]-th. *)
Record ObjectEnv := mkObjectEnv {
  base : Env;
  head_client : Bucket -> result store_error (nat -> HeadClient);
  head_schedule : nat -> list event;
  fresh : nat -> nat -> list Z * Time
}.

Section Jobs.
Context `{MapOrder, Collation} (json_text sprint : value -> string) (ParseFloat64 : string -> option spec_float).
Context (E : ObjectEnv).

Definition updateObjectMutationProgress (runID action phase : string) (total headed upserted : Z) : M World unit :=
  _ ← stmt (base E) (fun n => on_jobs (UpdateJobRunProgress (db_now (base E) n) runID
        (mutation_progress action phase total headed upserted)));
  mret tt.

(** [HeadObjectFuncForClient]. *)
Definition HeadObjectFuncForClient (client : nat -> HeadClient) (bucketName : string) (fields : list UpstreamCaptureField)
    (k : nat) (object : ObjectEvidence) : result store_error payload :=
  FetchCatalogAttributes sprint ParseFloat64 (client k) (mkHeadInput bucketName (evKey object) (evVersionID object)) fields.

(** The pool; a schedule that does not lead to its end is too little fuel. *)
Definition head_objects (objects : list ObjectEvidence) (concurrency : Z)
    (head : nat -> ObjectEvidence -> result store_error payload) : M World (list HeadObjectResult) := fun w =>
  match HeadObjects head objects concurrency (head_schedule E (clock w)) with
  | Some r => of_result r w
  | None => (Err OutOfFuel, w)
  end.

Definition upsert_batch (batch : list UpsertObjectParams) : M World (list Object) :=
  stmt (base E) (fun n => on_catalog (UpsertObjects json_text (fresh E n) (db_now (base E) n) batch)).

(** The loop over the batches: the number of objects upserted. *)
Definition upsert_batches (runID action : string) (total headed : Z) (bs : list (list UpsertObjectParams)) : M World Z :=
  for_acc (fun upserted batch =>
    objects ← upsert_batch batch;
    let upserted := upserted + Z.of_nat (List.length objects) in
    _ ← updateObjectMutationProgress runID action "upserting" total headed upserted;
    mret upserted) 0 bs.

Definition ExecuteObjectMutation (run : JobRun) (bucket : Bucket) (client : nat -> HeadClient)
    (objects : list ObjectEvidence) (action resultCountKey : string) (headConcurrency upsertBatchSize : Z) : M World payload :=
  let headConcurrency := if headConcurrency <=? 0 then DefaultHeadConcurrency else headConcurrency in
  let upsertBatchSize := if upsertBatchSize <=? 0 then DefaultUpsertBatchSize else upsertBatchSize in
  let total := Z.of_nat (List.length objects) in
  _ ← updateObjectMutationProgress (ID run) action "heading" total 0 0;
  captureFields ← stmt (base E) (fun _ => on_catalog ListEnabled);
  headResults ← head_objects objects headConcurrency (HeadObjectFuncForClient client (bBucketName bucket) captureFields);
  let headed := Z.of_nat (List.length headResults) in
  _ ← updateObjectMutationProgress (ID run) action "headed" total headed 0;
  upserted ← upsert_batches (ID run) action total headed
    (UpsertObjectParamBatches (UpsertObjectParamsFromHeadResults (bID bucket) (ID run) headResults) upsertBatchSize);
  mret (mutation_result (bID bucket) total headed upserted headConcurrency upsertBatchSize resultCountKey).

(** ** The handlers *)

(** [import_objects.Handle] and [refresh_objects.Handle] but for their names. *)
Definition handle_mutation (missing action resultCountKey : string) (run : JobRun) : M World payload :=
  input ← of_result (DecodeMutationInput (Input run));
  if String.eqb (miBucketID input) "" then fail_with missing
  else
    bucket ← stmt (base E) (fun _ => on_catalog (GetBucket (miBucketID input)));
    client ← of_result (head_client E bucket);
    ExecuteObjectMutation run bucket client (miObjects input) action resultCountKey 0 0.

Definition import_objects_Handle (run : JobRun) : M World payload :=
  handle_mutation "import_objects job %q is missing bucket_id" "import_objects" "objects_imported" run.

Definition refresh_objects_Handle (run : JobRun) : M World payload :=
  handle_mutation "refresh_objects job %q is missing bucket_id" "refresh_objects" "objects_refreshed" run.

Definition removed_ids (objects : list ObjectEvidence) : list string :=
  List.filter (fun id => negb (String.eqb id "")) (map evID objects).

Definition remove_objects_Handle (run : JobRun) : M World payload :=
  input ← of_result (DecodeMutationInput (Input run));
  if String.eqb (miBucketID input) "" then fail_with "remove_objects job %q is missing bucket_id"
  else
    let ids := removed_ids (miObjects input) in
    deleted ← stmt (base E) (fun _ => on_catalog (DeleteObjects ids));
    mret (<["bucket_id" := VString (miBucketID input)]>
      (<["objects_deleted" := VInt deleted]>
      {["objects_skipped" := VInt (Z.of_nat (List.length (miObjects input)) - Z.of_nat (List.length ids))]})).
End Jobs.
