(* ===== verification/HashPool.v ===== *)
(** * HashPool

    The goroutines of hashGroupObjects (apps/worker/internal/jobs/detect_duplicates/
    handler.go): the function hands the indexes of the objects to its workers over a
    channel without a buffer; a worker whose object fails returns.

    The body of a worker for an index is a computation on a shared state, taken as one
    step. *)
From S2P Require Import Prelude JobRuns ErrState.
Local Open Scope nat_scope.

(** The sending loop is at an index, or past [close(work)]. *)
Inductive sender := Sending (index : nat) | Closed.
Inductive hash_worker := Waiting | Hashing (index : nat) | Returned.

#[export] Instance sender_eq_dec : EqDecision sender. Proof. solve_decision. Defined.
#[export] Instance hash_worker_eq_dec : EqDecision hash_worker. Proof. solve_decision. Defined.

(** [Hand w]: the channel passes the index to the worker [w].  [Complete w]: the body of
    [w] runs.  [Leave w]: [w] finds the channel closed. *)
Inductive hash_event := Hand (w : nat) | Complete (w : nat) | Leave (w : nat).

Section Pool.
Context {S R : Type} (body : nat -> M S R) (n : nat).

Record hash_pool := mkHashPool {
  hsender : sender;
  hworkers : list hash_worker;
  hresults : gmap nat R;
  hashErr : option run_error;
  hstate : S
}.

(** The head of the sending loop. *)
Definition send_from (i : nat) : sender := if i <? n then Sending i else Closed.

Definition complete_body (i w : nat) (p : hash_pool) : hash_pool :=
  match body i (hstate p) with
  | (Ok r, s) => mkHashPool (hsender p) (<[w := Waiting]> (hworkers p)) (<[i := r]> (hresults p)) (hashErr p) s
  | (Err e, s) =>
      mkHashPool (hsender p) (<[w := Returned]> (hworkers p)) (hresults p)
        (match hashErr p with Some e => Some e | None => Some e end) s
  end.

Definition hash_step (e : hash_event) (p : hash_pool) : option hash_pool :=
  match e with
  | Hand w =>
      match hsender p with
      | Sending i =>
          if bool_decide (hworkers p !! w = Some Waiting)
          then Some (mkHashPool (send_from (Datatypes.S i)) (<[w := Hashing i]> (hworkers p)) (hresults p) (hashErr p) (hstate p))
          else None
      | Closed => None
      end
  | Complete w => match hworkers p !! w with Some (Hashing i) => Some (complete_body i w p) | _ => None end
  | Leave w =>
      if bool_decide (hsender p = Closed) && bool_decide (hworkers p !! w = Some Waiting)
      then Some (mkHashPool Closed (<[w := Returned]> (hworkers p)) (hresults p) (hashErr p) (hstate p)) else None
  end.

Fixpoint hash_run (schedule : list hash_event) (p : hash_pool) : option hash_pool :=
  match schedule with
  | [] => Some p
  | e :: schedule => p ← hash_step e p; hash_run schedule p
  end.

Definition hash_start (workers : nat) (s : S) : hash_pool := mkHashPool (send_from 0) (replicate workers Waiting) ∅ None s.

Definition all_returned (p : hash_pool) : bool := forallb (fun w => bool_decide (w = Returned)) (hworkers p).

(** [wg.Wait()] returns, after the loop. *)
Definition hash_done (p : hash_pool) : bool := bool_decide (hsender p = Closed) && all_returned p.

(** The loop waits for a worker that will never come. *)
Definition starved (p : hash_pool) : Prop := (exists i, hsender p = Sending i) /\ all_returned p = true.

(** ** Every run ends, but may end starved *)

Definition sender_weight (s : sender) : nat := match s with Sending i => 3 * (n - i) | Closed => 0 end.
Definition hash_worker_weight (w : hash_worker) : nat := match w with Hashing _ => 2 | Waiting => 1 | Returned => 0 end.
Definition hash_weight (p : hash_pool) : nat := sender_weight (hsender p) + sum_list (map hash_worker_weight (hworkers p)).

(** The sender is at an index below [n]. *)
Definition sender_ok (p : hash_pool) : Prop := match hsender p with Sending i => i < n | Closed => True end.

Lemma send_from_ok i w r e s : sender_ok (mkHashPool (send_from i) w r e s).
Proof. unfold sender_ok, send_from. cbn [hsender]. destruct (i <? n) eqn:E; [by apply Nat.ltb_lt|done]. Qed.

Lemma hash_step_ok e p p' : sender_ok p -> hash_step e p = Some p' -> sender_ok p' /\ hash_weight p' < hash_weight p.
Proof.
intros Hok. destruct e as [w|w|w]; cbn [hash_step].
- destruct (hsender p) as [i|] eqn:Es; [|done]. case_bool_decide as Hw; [|done]. intros [= <-]. split; [apply send_from_ok|].
  unfold hash_weight. cbn [hsender hworkers]. pose proof (sum_list_insert hash_worker_weight _ _ _ (Hashing i) Hw) as Hsum. cbn in Hsum.
  unfold sender_ok in Hok. rewrite Es in *. unfold send_from. destruct (Datatypes.S i <? n) eqn:E; cbn [sender_weight] in *; [|lia].
  apply Nat.ltb_lt in E. lia.
- destruct (hworkers p !! w) as [[|i|]|] eqn:Hw; try done. intros [= <-]. unfold complete_body.
  pose proof (sum_list_insert hash_worker_weight _ _ _ Waiting Hw) as H1. pose proof (sum_list_insert hash_worker_weight _ _ _ Returned Hw) as H2. cbn in H1, H2.
  destruct (body i (hstate p)) as [[r|err] s]; (split; [exact Hok|]); unfold hash_weight; cbn [hsender hworkers]; lia.
- case_bool_decide as Hs; [|done]. case_bool_decide as Hw; [|done]. intros [= <-]. split; [exact I|].
  pose proof (sum_list_insert hash_worker_weight _ _ _ Returned Hw) as H2. cbn in H2. unfold hash_weight. cbn [hsender hworkers]. rewrite Hs. lia.
Qed.

Lemma hash_run_ok schedule : forall p p', sender_ok p -> hash_run schedule p = Some p' ->
  sender_ok p' /\ List.length schedule + hash_weight p' <= hash_weight p.
Proof.
induction schedule as [|e schedule IH]; intros p p' Hok; cbn [hash_run]; [intros [= <-]; split; [done|cbn; lia]|].
destruct (hash_step e p) as [p1|] eqn:E; [|done]. cbn [mbind option_bind]. intros Hr.
destruct (hash_step_ok _ _ _ Hok E) as [H1 H2]. destruct (IH _ _ H1 Hr). split; [done|]. cbn. lia.
Qed.

Lemma hash_run_app l1 l2 p : hash_run (l1 ++ l2) p = hash_run l1 p ≫= hash_run l2.
Proof. revert p. induction l1 as [|e l1 IH]; intros p; [done|]. cbn. destruct (hash_step e p); [apply IH|done]. Qed.

(** A pool that can make no step has returned, or is starved. *)
Lemma hash_progress p : hash_done p = true \/ starved p \/ exists e, is_Some (hash_step e p).
Proof.
destruct (all_returned p) eqn:Ea.
- destruct (hsender p) as [i|] eqn:Es; [right; left; split; [by exists i|done]|].
  left. unfold hash_done. by rewrite Es, Ea, bool_decide_eq_true_2.
- right. right. unfold all_returned in Ea.
  assert (exists w v, hworkers p !! w = Some v /\ v <> Returned) as (w & v & Hw & Hv).
  { induction (hworkers p) as [|x l IH]; [done|]. cbn in Ea. case_bool_decide as Hx; cbn in Ea.
    - destruct (IH Ea) as (w & v & Hw & Hv). by exists (Datatypes.S w), v.
    - by exists 0, x. }
  destruct v as [|i|]; [|exists (Complete w); cbn; rewrite Hw; eauto|done].
  destruct (hsender p) as [i|] eqn:Es.
  + exists (Hand w). cbn. rewrite Es, bool_decide_eq_true_2 by done. eauto.
  + exists (Leave w). cbn. rewrite Es, !bool_decide_eq_true_2 by done. eauto.
Qed.

Lemma hash_finishes p : sender_ok p -> exists rest p', hash_run rest p = Some p' /\ (hash_done p' = true \/ starved p').
Proof.
remember (hash_weight p) as m eqn:Em. revert p Em. induction m as [m IH] using lt_wf_ind. intros p -> Hok.
destruct (hash_progress p) as [Hd|[Hs|[e [p1 He]]]]; [by exists [], p; auto|by exists [], p; auto|].
destruct (hash_step_ok _ _ _ Hok He) as [H1 H2]. destruct (IH _ H2 p1 eq_refl H1) as (rest & p' & Hr & Hend).
exists (e :: rest), p'. split; [|done]. cbn. by rewrite He.
Qed.

Lemma starved_stuck p e : starved p -> hash_step e p = None.
Proof.
intros [[i Hs] Ha]. unfold all_returned in Ha.
assert (forall w v, hworkers p !! w = Some v -> v = Returned) as Hall.
{ intros w v Hw. eapply (forallb_elem _ _ v) in Ha; [by apply bool_decide_eq_true in Ha|by eapply list_elem_of_lookup_2]. }
destruct e as [w|w|w]; cbn; rewrite ?Hs.
- case_bool_decide as Hw; [|done]. by apply Hall in Hw.
- destruct (hworkers p !! w) as [[]|] eqn:Hw; try done. by apply Hall in Hw.
- by rewrite bool_decide_eq_false_2.
Qed.

(** ** A pool that returns without an error has every result *)

Definition handed (p : hash_pool) (i : nat) : Prop := match hsender p with Sending j => i < j | Closed => i < n end.

Definition result_of_body (i : nat) (r : R) : Prop := exists s s', body i s = (Ok r, s').

Record results_ok (p : hash_pool) : Prop := {
  ro_sender : sender_ok p;
  ro_handed i : handed p i -> is_Some (hresults p !! i) \/ (exists w, hworkers p !! w = Some (Hashing i)) \/ hashErr p <> None;
  ro_results i r : hresults p !! i = Some r -> result_of_body i r;
  ro_workers w i : hworkers p !! w = Some (Hashing i) -> i < n
}.

Lemma replicate_Waiting m w v : replicate m Waiting !! w = Some v -> v = Waiting.
Proof. by intros [-> _]%lookup_replicate_1. Qed.

Lemma start_results_ok workers s : results_ok (hash_start workers s).
Proof.
split.
- apply send_from_ok.
- intros i Hi. exfalso. unfold handed, hash_start, send_from in Hi. cbn [hsender] in Hi. destruct (0 <? n) eqn:E; [lia|].
  apply Nat.ltb_ge in E. lia.
- intros i r Hr. cbn [hash_start hresults] in Hr; by rewrite lookup_empty in Hr.
- intros w i Hw. by apply replicate_Waiting in Hw.
Qed.

Lemma hash_step_results e p p' : results_ok p -> hash_step e p = Some p' -> results_ok p'.
Proof.
intros Hok He. pose proof (hash_step_ok e p p' (ro_sender p Hok) He) as [Hs _].
destruct e as [w|w|w]; cbn [hash_step] in He.
- destruct (hsender p) as [j|] eqn:Es; [|done]. case_bool_decide as Hw; [|done]. injection He as <-.
  pose proof (ro_sender p Hok) as Hj. unfold sender_ok in Hj. rewrite Es in Hj.
  pose proof (lookup_lt_Some _ _ _ Hw) as Hlt.
  assert (forall i w', hworkers p !! w' = Some (Hashing i) -> <[w := Hashing j]> (hworkers p) !! w' = Some (Hashing i)) as Hkeep
    by (intros i w' Hw'; rewrite list_lookup_insert_ne; [done|]; intros <-; congruence).
  split; [exact Hs| |apply (ro_results p Hok)|].
  + intros i Hi. cbn [hworkers hresults hashErr]. destruct (decide (i = j)) as [->|Hne].
    * right. left. exists w. by rewrite list_lookup_insert_eq.
    * assert (handed p i) as Hp. { unfold handed in Hi |- *. rewrite Es. cbn [hsender] in Hi. unfold send_from in Hi.
        destruct (Datatypes.S j <? n) eqn:E; [lia|]. apply Nat.ltb_ge in E. lia. }
      destruct (ro_handed p Hok i Hp) as [?|[[w' Hw']|?]]; [by left| |by right; right]. right. left. exists w'. auto.
  + intros w' i. cbn [hworkers]. intros Hw'. apply list_lookup_insert_Some in Hw' as [(<- & [= <-] & _)|[_ Hw']]; [done|].
    by apply (ro_workers p Hok w').
- destruct (hworkers p !! w) as [[|j|]|] eqn:Hw; try done. injection He as <-. unfold complete_body in *.
  pose proof (lookup_lt_Some _ _ _ Hw) as Hlt.
  assert (forall i w' v, hworkers p !! w' = Some (Hashing i) -> i <> j -> <[w := v]> (hworkers p) !! w' = Some (Hashing i)) as Hkeep
    by (intros i w' v Hw' Hne; rewrite list_lookup_insert_ne; [done|]; intros <-; congruence).
  assert (forall w' i v, v <> Hashing i -> <[w := v]> (hworkers p) !! w' = Some (Hashing i) -> i < n) as Hbusy.
  { intros w' i v Hv Hw'. apply list_lookup_insert_Some in Hw' as [(_ & Heq & _)|[_ Hw']]; [done|]. by apply (ro_workers p Hok w'). }
  destruct (body j (hstate p)) as [[r|err] s'] eqn:Eb.
  + split; [exact Hs| | |].
    * intros i Hi. cbn [hworkers hresults hashErr]. destruct (decide (i = j)) as [->|Hne]; [left; rewrite lookup_insert_eq; eauto|].
      destruct (ro_handed p Hok i Hi) as [?|[[w' Hw']|?]]; [left; by rewrite lookup_insert_ne| |by right; right].
      right. left. exists w'. auto.
    * intros i r'. cbn [hresults]. intros [[<- <-]|[_ Hr]]%lookup_insert_Some; [by exists (hstate p), s'|by apply (ro_results p Hok)].
    * intros w' i. cbn [hworkers]. by apply Hbusy.
  + split; [exact Hs| |apply (ro_results p Hok)|].
    * intros i Hi. right. right. cbn [hashErr]. by destruct (hashErr p).
    * intros w' i. cbn [hworkers]. by apply Hbusy.
- case_bool_decide as Hc; [|done]. case_bool_decide as Hw; [|done]. injection He as <-.
  split; [exact Hs| |apply (ro_results p Hok)|].
  + intros i Hi. cbn [hworkers hresults hashErr]. assert (handed p i) as Hp by (unfold handed in *; rewrite Hc; exact Hi).
    destruct (ro_handed p Hok i Hp) as [?|[[w' Hw']|?]]; [by left| |by right; right]. right. left. exists w'.
    rewrite list_lookup_insert_ne; [done|]. intros <-. congruence.
  + intros w' i. cbn [hworkers]. intros Hw'. apply list_lookup_insert_Some in Hw' as [(_ & Heq & _)|[_ Hw']]; [done|].
    by apply (ro_workers p Hok w').
Qed.

Lemma hash_run_results schedule : forall p p', results_ok p -> hash_run schedule p = Some p' -> results_ok p'.
Proof.
induction schedule as [|e schedule IH]; intros p p' Hok; cbn [hash_run]; [by intros [= <-]|].
destruct (hash_step e p) as [p1|] eqn:E; [|done]. cbn [mbind option_bind]. apply IH. by eapply hash_step_results.
Qed.

(** A pool that has returned without an error holds a result of the body for every
    index. *)
Lemma hash_pool_sound workers s schedule p : hash_run schedule (hash_start workers s) = Some p -> hash_done p = true ->
  hashErr p = None -> forall i, i < n -> exists r, hresults p !! i = Some r /\ result_of_body i r.
Proof.
intros Hr Hd He i Hi. pose proof (hash_run_results _ _ _ (start_results_ok workers s) Hr) as Hok.
unfold hash_done in Hd. apply andb_true_iff in Hd as [Hc Ha]. apply bool_decide_eq_true in Hc.
destruct (ro_handed p Hok i) as [[r Hri]|[[w Hw]|?]]; [unfold handed; by rewrite Hc| | |done].
- exists r. split; [done|]. by apply (ro_results p Hok).
- unfold all_returned in Ha. eapply forallb_elem in Ha; [|by eapply list_elem_of_lookup_2]. by apply bool_decide_eq_true in Ha.
Qed.

(** ** A pool whose objects all fail *)

Definition busy_or_done (w : hash_worker) : nat := match w with Waiting => 0 | _ => 1 end.

(** Each index went to a worker of its own: none has worked twice. *)
Definition used (p : hash_pool) : Prop := exists i, hsender p = Sending i /\ i = sum_list (map busy_or_done (hworkers p)).

Lemma used_le (l : list hash_worker) : sum_list (map busy_or_done l) <= List.length l.
Proof. induction l as [|[] l IH]; cbn; lia. Qed.

Lemma used_step e p p' : (forall i s, exists err s', body i s = (Err err, s')) -> List.length (hworkers p) < n ->
  used p -> hash_step e p = Some p' -> used p' /\ List.length (hworkers p') = List.length (hworkers p).
Proof.
intros Hfail Hn (i & Hs & Hi). destruct e as [w|w|w]; cbn [hash_step]; rewrite ?Hs.
- case_bool_decide as Hw; [|done]. intros [= <-]. cbn [hworkers]. rewrite list.length_insert. split; [|done].
  pose proof (sum_list_insert busy_or_done _ _ _ (Hashing i) Hw) as Hu. cbn in Hu. pose proof (used_le (<[w:=Hashing i]> (hworkers p))) as Hle.
  rewrite list.length_insert in Hle. exists (Datatypes.S i). cbn [hsender hworkers]. split; [|lia]. unfold send_from.
  rewrite (proj2 (Nat.ltb_lt _ _)); [done|lia].
- destruct (hworkers p !! w) as [[|j|]|] eqn:Hw; try done. intros [= <-]. unfold complete_body.
  destruct (Hfail j (hstate p)) as (err & s' & ->). cbn [hworkers]. rewrite list.length_insert. split; [|done].
  exists i. split; [done|]. cbn [hworkers]. pose proof (sum_list_insert busy_or_done _ _ _ Returned Hw) as Hu. cbn in Hu. lia.
- by rewrite bool_decide_eq_false_2.
Qed.

(** When every object of a group fails, as when its provider is down, and the group
    has more objects than there are workers, the function never returns: no order of
    the steps of its goroutines leads to its end, and each can be continued to a state
    in which the loop waits for a worker and all workers have returned. *)
Theorem failing_pool_never_returns workers s schedule p :
  (forall i s, exists err s', body i s = (Err err, s')) -> workers < n ->
  hash_run schedule (hash_start workers s) = Some p ->
  hash_done p = false /\
  exists rest p', hash_run (schedule ++ rest) (hash_start workers s) = Some p' /\ starved p' /\ forall e, hash_step e p' = None.
Proof.
intros Hfail Hn Hr.
assert (sender_ok (hash_start workers s)) as Hok by apply send_from_ok.
assert (forall l q, hash_run l (hash_start workers s) = Some q -> used q /\ List.length (hworkers q) = workers) as Hused.
{ intros l. induction l as [|e l IH] using rev_ind; intros q Hq.
  - injection Hq as <-. cbn [hash_start hworkers]. rewrite length_replicate. split; [|done]. exists 0. split.
    + cbn. unfold send_from. by rewrite (proj2 (Nat.ltb_lt _ _)) by lia.
    + cbn. clear. induction workers as [|k IHk]; [done|]. exact IHk.
  - rewrite hash_run_app in Hq. destruct (hash_run l _) as [q1|] eqn:E; [|done]. cbn in Hq.
    destruct (hash_step e q1) as [q2|] eqn:Es; [|done]. injection Hq as <-. destruct (IH q1 eq_refl) as [Hu Hl].
    rewrite <- Hl. apply (used_step e); [done|lia|done|done]. }
assert (forall q, used q -> hash_done q = false) as Hnot.
{ intros q (i & Hs & _). unfold hash_done. by rewrite Hs, bool_decide_eq_false_2. }
split; [apply Hnot; by eapply Hused|].
destruct (hash_finishes p) as (rest & p' & Hr' & Hend); [by eapply hash_run_ok|]. exists rest, p'.
assert (hash_run (schedule ++ rest) (hash_start workers s) = Some p') as Hall by (rewrite hash_run_app, Hr; exact Hr').
split; [done|]. destruct Hend as [Hd|Hs]; [by rewrite (Hnot p') in Hd by (by eapply Hused)|].
split; [done|]. intros e. by apply starved_stuck.
Qed.
End Pool.

(** Four workers and five objects of a provider that is down: after each worker has
    failed, the fifth object is never taken. *)
Lemma failing_pool_never_returns_witness :
  let body (_ : nat) : M unit unit := fail (Failure (Errorf "hash object %q: %w")) in
  let schedule := [Hand 0; Complete 0; Hand 1; Complete 1; Hand 2; Complete 2; Hand 3; Complete 3] in
  exists p, hash_run body 5 schedule (hash_start 5 4 tt) = Some p /\ hash_done p = false.
Proof.
eexists. assert (hash_run (fun _ : nat => fail (Failure (Errorf "hash object %q: %w")) : M unit unit) 5
  [Hand 0; Complete 0; Hand 1; Complete 1; Hand 2; Complete 2; Hand 3; Complete 3] (hash_start 5 4 tt) = Some _) as H
  by (vm_compute; reflexivity).
split; [exact H|].
refine (proj1 (failing_pool_never_returns _ 5 4 tt _ _ _ _ H)); [|lia]. intros i s. eexists _, _. reflexivity.
Defined.
