(* ===== verification/DetectDuplicates.v ===== *)
(** * DetectDuplicates

    The candidates of a detect_duplicates job and the choices it makes among them:
    packages/storage/duplicate_candidates.go and apps/worker/internal/jobs/
    detect_duplicates/input.go. *)
From S2P Require Import Prelude GoStrings GoFloat GoTime JobPayload JobRuns GoJson GoSha256 Sql ErrState Catalog.
From S2P Require Import AttributeCatalog Buckets Relations Notifications ObjectStore Extract ObjectPlan SyncBucket ObjectJobs HashPool.
Local Open Scope Z_scope.

(** ** duplicate_candidates.go *)

Record DuplicateDetectScope := mkDetectScope { dsBucketIDs : list string; dsPrefixes : list string }.

Record DuplicateCandidateGroup := mkCandidates { dgETag : string; dgSize : Z; dgObjects : list Object }.

Section Candidates.
(** [bigint]: the cast of a text to bigint, [None] being its error. *)
Context `{Collation} (json_text : value -> string) (bigint : string -> option Z).

Definition etag_text (r : ObjectRow) : option string := text_at json_text (oattributes r) ["upstream"; "etag"].
Definition size_text (r : ObjectRow) : option string := text_at json_text (oattributes r) ["upstream"; "size"].

(** The WHERE of [scoped]. *)
Definition scoped (scope : DuplicateDetectScope) (r : ObjectRow) : bool :=
  (bool_decide (dsBucketIDs scope = []) || bool_decide (obucket_id r ∈ dsBucketIDs scope))
  && (bool_decide (dsPrefixes scope = []) || existsb (fun prefix => like (prefix +:+ "%") (okey r)) (dsPrefixes scope))
  && match etag_text r with Some etag => negb (String.eqb etag "") | None => false end
  && bool_decide (is_Some (size_text r)).

(** A row of [scoped] with its etag and size. *)
Definition scoped_row (r : ObjectRow) : result store_error (string * Z * ObjectRow) :=
  match size_text r ≫= bigint with
  | Some size => Ok (default "" (etag_text r), size, r)
  | None => Err (Wrapf "find duplicate candidate groups: %w" (Errorf "invalid input syntax for type bigint"))
  end.

Definition candidate_key (row : string * Z * ObjectRow) : string * Z := row.1.

(** [ORDER BY etag, size, id]. *)
Definition by_candidate (a b : string * Z * ObjectRow) : bool :=
  let '(ea, sa, ra) := a in let '(eb, sb, rb) := b in
  collate ea eb || (negb (collate eb ea) && ((sa <? sb) || ((sa =? sb) && String.ltb (oid ra) (oid rb)))).

(** The rows of the query: those that share their etag and size with another. *)
Definition candidate_rows (rows : list (string * Z * ObjectRow)) : list (string * Z * ObjectRow) :=
  sort_by by_candidate (List.filter (fun row =>
    Nat.ltb 1 (List.length (List.filter (fun row' => bool_decide (candidate_key row' = candidate_key row)) rows))) rows).

Definition scan_candidate (row : string * Z * ObjectRow) : result store_error (string * Z * Object) :=
  object ← scanObject row.2; Ok (row.1, object).

Definition FindDuplicateCandidateGroups (scope : DuplicateDetectScope) : M Catalog (list DuplicateCandidateGroup) := fun c =>
  of_result (
    rows ← mapM_result scoped_row (List.filter (scoped scope) (table_rows (objects c)));
    candidates ← mapM_result scan_candidate (candidate_rows rows);
    Ok (group_by (fun row : string * Z * Object => row.1)
          (fun row => mkCandidates row.1.1 row.1.2 [])
          (fun group row => mkCandidates (dgETag group) (dgSize group) (dgObjects group ++ [row.2])) candidates)) c.
End Candidates.

(** ** input.go *)

Record ScopeInput := mkScopeInput { siBucketIDs : list string; siPrefixes : list string }.

Definition strings_of (j : json) : option (list string) := l ← as_array j; mapM as_text l.

(** [Input] is its one field. *)
Definition scope_of_json (j : json) : option ScopeInput :=
  ms ← as_object j;
  scope ← object_member "scope" ms;
  bucketIDs ← member_of strings_of [] "bucket_ids" scope;
  prefixes ← member_of strings_of [] "prefixes" scope;
  Some (mkScopeInput bucketIDs prefixes).

Definition ParseInput (run : JobRun) : result store_error ScopeInput :=
  if marshals (VMap (Input run)) then
    match scope_of_json (json_of (VMap (Input run))) with
    | Some input => Ok input
    | None => Err (Errorf "detect_duplicates job %q: decode input: %w")
    end
  else Err (Errorf "detect_duplicates job %q: encode input: %w").

Definition ScopeFromInput (input : ScopeInput) : DuplicateDetectScope := mkDetectScope (siBucketIDs input) (siPrefixes input).

Definition extractedContentSHA256Path : string := "extracted.content_sha256".
Definition upstreamLastModifiedPath : string := "upstream.last_modified".

Definition upstreamLastModified (object : Object) : Time :=
  match attributeValue (oAttributes object) upstreamLastModifiedPath with
  | Some (VString text) =>
      if String.eqb text "" then zeroTime
      else match ParseRFC3339 text with Some parsed => UTC parsed | None => zeroTime end
  | _ => zeroTime
  end.

Definition Equal (a b : Time) : bool := (unix a =? unix b) && (nsec a =? nsec b).

(** The loop of [originalObject]. *)
Definition older (acc : Object * Time) (object : Object) : Object * Time :=
  let '(original, originalTime) := acc in
  let candidateTime := upstreamLastModified object in
  if Before candidateTime originalTime then (object, candidateTime)
  else if Equal candidateTime originalTime && String.ltb (oID object) (oID original) then (object, originalTime)
  else acc.

Definition originalObject (objects : list Object) : option Object :=
  match objects with
  | [] => None
  | object :: rest => Some (fold_left older rest (object, upstreamLastModified object)).1
  end.

Definition listingEvidenceETag (object : Object) : string :=
  default "" (as_string (upstreamAttributes (oAttributes object) !! "etag")).

Definition listingEvidenceSize (object : Object) : Z :=
  match upstreamAttributes (oAttributes object) !! "size" with
  | Some (VInt z) => z
  | Some (VFloat f) => int64_of_float f
  | _ => 0
  end.

(** The hash that an earlier job stored, if the object has not changed. *)
Definition cachedContentSHA256 (object : Object) (etag : string) (size : Z) : option string :=
  if String.eqb etag "" || (size <=? 0) then None
  else if negb (String.eqb (listingEvidenceETag object) etag) || negb (listingEvidenceSize object =? size) then None
  else match attributeValue (oAttributes object) extractedContentSHA256Path with
       | Some (VString hash) => if String.eqb hash "" then None else Some hash
       | _ => None
       end.

Definition mergeExtractedContentSHA256 (object : Object) (hash : string) : payload :=
  let attributes := cloneObjectAttributes (oAttributes object) in
  let extracted := default ∅ (attributes !! "extracted" ≫= asNestedAttributeMap) in
  <["extracted" := VMap (<["content_sha256" := VString hash]> extracted)]> attributes.

(** [allHashesMatch]: in the order of a [range] over the map. *)
Definition match_step (acc : option string) (entry : string * string) : option string :=
  first ← acc;
  let hash := entry.2 in
  if String.eqb hash "" then None
  else if String.eqb first "" then Some hash
  else if String.eqb hash first then Some first else None.

Definition allHashesMatch `{MapOrder} (site : nat) (hashes : gmap string string) : bool :=
  if Nat.eqb (size hashes) 0 then false
  else bool_decide (is_Some (fold_left match_step (range_map site hashes) (Some ""))).

(** ** The choices *)

(** [a] is older than [b], or as old with a smaller identifier. *)
Definition precedes (a b : Object) : bool :=
  Before (upstreamLastModified a) (upstreamLastModified b)
  || (Equal (upstreamLastModified a) (upstreamLastModified b) && String.ltb (oID a) (oID b)).

Lemma Equal_iff a b : Equal a b = true <-> unix a = unix b /\ nsec a = nsec b.
Proof. unfold Equal. lia. Qed.

Lemma precedes_iff a b : precedes a b = true <->
  let ta := upstreamLastModified a in let tb := upstreamLastModified b in
  unix ta < unix tb \/ (unix ta = unix tb /\ (nsec ta < nsec tb \/ (nsec ta = nsec tb /\ String.ltb (oID a) (oID b) = true))).
Proof. unfold precedes, Before, Equal. cbv zeta. destruct (String.ltb _ _); lia. Qed.

(** Not to precede is transitive. *)
Lemma precedes_ntrans a b c : precedes a b = false -> precedes b c = false -> precedes a c = false.
Proof.
  intros H1%not_true_iff_false H2%not_true_iff_false. apply not_true_iff_false. rewrite precedes_iff in *. cbv zeta in *.
  intros H3. assert (String.ltb (oID a) (oID b) = false -> String.ltb (oID b) (oID c) = false -> String.ltb (oID a) (oID c) = false) as Hs
    by (intros; by eapply string_ltb_ntrans).
  destruct (String.ltb (oID a) (oID b)), (String.ltb (oID b) (oID c)), (String.ltb (oID a) (oID c));
    try (specialize (Hs eq_refl eq_refl)); lia.
Qed.

Lemma precedes_asym a b : precedes a b = true -> precedes b a = false.
Proof.
  intros H1. apply not_true_iff_false. rewrite precedes_iff in *. cbv zeta in *. intros H2.
  pose proof (string_ltb_asym (oID a) (oID b)) as Hs.
  destruct (String.ltb (oID a) (oID b)), (String.ltb (oID b) (oID a)); try (specialize (Hs eq_refl)); try done; lia.
Qed.

(** The times are in UTC, so that equal times are the same. *)
Lemma Equal_eq a b : Equal (upstreamLastModified a) (upstreamLastModified b) = true -> upstreamLastModified a = upstreamLastModified b.
Proof.
  assert (forall o, offset (upstreamLastModified o) = 0) as H0.
  { intros o. unfold upstreamLastModified. destruct (attributeValue _ _) as [[]|]; try done. destruct (String.eqb s ""); [done|].
    by destruct (ParseRFC3339 s). }
  intros [Hu Hn]%Equal_iff. pose proof (H0 a) as Ha. pose proof (H0 b) as Hb.
  destruct (upstreamLastModified a), (upstreamLastModified b). cbn in *. congruence.
Qed.

Lemma older_fold rest : forall original, exists o, fold_left older rest (original, upstreamLastModified original) = (o, upstreamLastModified o) /\
  o ∈ original :: rest /\ forall x, x ∈ original :: rest -> precedes x o = false.
Proof.
  induction rest as [|x rest IH]; intros original.
  { exists original. split; [done|]. split; [left|]. intros x ->%list_elem_of_singleton. apply not_true_iff_false. intros H.
    pose proof (precedes_asym _ _ H). congruence. }
  assert (older (original, upstreamLastModified original) x =
    if precedes x original then (x, upstreamLastModified x) else (original, upstreamLastModified original)) as Hstep.
  { unfold older, precedes. destruct (Before _ _); [done|]. destruct (Equal _ _) eqn:E; [|done]. apply Equal_eq in E. rewrite E. done. }
  cbn [fold_left]. rewrite Hstep. destruct (precedes x original) eqn:Ep.
  - destruct (IH x) as (o & -> & Hin & Hmin). exists o. split; [done|]. split; [by right|]. intros y [->|Hy]%elem_of_cons; [|auto].
    apply (precedes_ntrans original x o); [by apply precedes_asym|apply Hmin; left].
  - destruct (IH original) as (o & -> & Hin & Hmin). exists o. split; [done|].
    split; [apply elem_of_cons in Hin as [->|Hin]; [left|by right; right]|].
    intros y [->|[->|Hy]%elem_of_cons]%elem_of_cons; [apply Hmin; left| |apply Hmin; by right].
    apply (precedes_ntrans x original o); [done|apply Hmin; left].
Qed.

(** The original is an object of the group that no other precedes. *)
Lemma originalObject_first objects : objects <> [] -> exists o, originalObject objects = Some o /\ o ∈ objects /\
  forall x, x ∈ objects -> precedes x o = false.
Proof.
  destruct objects as [|original rest]; [done|]. intros _. unfold originalObject.
  destruct (older_fold rest original) as (o & -> & H). by exists o.
Qed.

(** All the hashes match when there is one, it is not empty and the others equal it. *)
Lemma match_fold `{MapOrder} l : forall first, first <> "" ->
  (is_Some (fold_left match_step l (Some first)) <-> forall e, e ∈ l -> e.2 = first).
Proof.
  induction l as [|[k h] l IH]; intros first Hf; cbn [fold_left].
  - split; [intros _ e He; by apply elem_of_nil in He|eauto].
  - assert (match_step (Some first) (k, h) = if String.eqb h first then Some first else None) as ->.
    { unfold match_step. cbn [mbind option_bind snd]. rewrite (proj2 (String.eqb_neq first "") Hf).
      destruct (String.eqb_spec h ""); [|done]. subst h. by rewrite (proj2 (String.eqb_neq "" first)) by done. }
    destruct (String.eqb_spec h first) as [->|Hne].
    + rewrite (IH first Hf). split; [intros Hl e [->|He]%elem_of_cons; [done|auto]|intros Hl e He; apply Hl; by right].
    + assert (fold_left match_step l None = None) as -> by (clear; induction l; done). split; [by intros []|].
      intros Hl. destruct Hne. apply (Hl (k, h)). left.
Qed.

Lemma allHashesMatch_iff `{MapOrder} site hashes :
  allHashesMatch site hashes = true <-> hashes <> ∅ /\ exists h, h <> "" /\ forall id h', hashes !! id = Some h' -> h' = h.
Proof.
  unfold allHashesMatch. destruct (Nat.eqb_spec (size hashes) 0) as [Hz|Hz].
  { split; [done|]. intros [Hne _]. apply map_size_empty_inv in Hz. done. }
  assert (hashes <> ∅) as Hne by (intros ->; by rewrite map_size_empty in Hz).
  rewrite bool_decide_eq_true. pose proof (elem_of_range_map site hashes) as Hin. destruct (range_map site hashes) as [|[k h] l].
  { destruct (map_choose _ Hne) as (k & h & Hk). apply Hin in Hk. by apply elem_of_nil in Hk. }
  cbn [fold_left]. unfold match_step at 2. cbn [mbind option_bind snd String.eqb]. destruct (String.eqb_spec h "") as [->|Hh].
  - assert (fold_left match_step l None = None) as -> by (clear; induction l; done). split; [by intros []|].
    intros (_ & h' & Hh' & Hall). assert (hashes !! k = Some "") as Hk by (apply Hin; left). by apply Hall in Hk.
  - rewrite (match_fold l h Hh). split.
    + intros Hl. split; [done|]. exists h. split; [done|]. intros id h' [[= -> ->]|Hi]%Hin%elem_of_cons; [done|]. exact (Hl _ Hi).
    + intros (_ & h0 & _ & Hall) [id h'] He. cbn. assert (hashes !! k = Some h) as Hk by (apply Hin; left).
      assert (hashes !! id = Some h') as Hi by (apply Hin; by right). apply Hall in Hk, Hi. congruence.
Qed.

(** * The job

    The detect_duplicates job: apps/worker/internal/jobs/detect_duplicates/handler.go
    and the hashing of an object (packages/upstreams/s3compat/hash_object.go), in the
    world of [SyncBucket].  The goroutines of a group are those of [HashPool]: the body
    of a worker runs when the worker completes.  A schedule under which they do not
    return is too little fuel; [HashPool] shows that there may be no other. *)

(** A reader of objects: what the body gives, and the error that ends it early. *)
Definition BodyClient : Type := nat -> HeadObjectInput -> result store_error (string * option store_error).

(** The world of an attempt with the cache of the clients, [clients] and the names in
    [buckets]. *)
Record HashWorld := mkHashWorld { hworld : World; clientCache : gmap string (BodyClient * string) }.

Record hashResult := mkHashResult { hsObjectID : string; hsHash : string; hsBytes : Z; hsCached : bool }.

Definition in_world {A} (m : M World A) : M HashWorld A := fun s =>
  let '(r, w) := m (hworld s) in (r, mkHashWorld w (clientCache s)).

Definition defaultHashConcurrency : nat := 4.

Section Handler.
Context `{MapOrder, Collation} (json_text : value -> string) (bigint : string -> option Z).
(** [body_client]: the configuration, the credentials and the factory;
    [hash_schedule n]: the order of the goroutines started after the [n]-th statement;
    [fresh n]: the random bytes and the time of the rows of the [n]-th statement. *)
Context (E : Env) (body_client : Bucket -> result store_error BodyClient) (hash_schedule : nat -> list hash_event).
Context (fresh : nat -> nat -> list Z * Time) (hashWorkers : nat).

(** [HashObject]: the whole body, in reads whose sizes do not matter. *)
Definition HashObject (client : BodyClient) (bucketName : string) (input : HeadObjectInput) : M HashWorld (string * Z) := fun s =>
  let w := hworld s in
  let s := mkHashWorld (mkWorld (S (clock w)) (store w) (exec w)) (clientCache s) in
  match client (clock w) (mkHeadInput bucketName (hiKey input) (hiVersionID input)) with
  | Err e => (Err (Failure (Wrapf "hash object %q: %w" e)), s)
  | Ok (_, Some e) => (Err (Failure (Wrapf "hash object %q: %w" e)), s)
  | Ok (content, None) => (Ok (sha256_hex content, Z.of_nat (String.length content)), s)
  end.

Definition clientForObject (bucketID : string) : M HashWorld (BodyClient * string) :=
  cached ← gets (fun s => clientCache s !! bucketID);
  match cached with
  | Some client => mret client
  | None =>
      bucket ← in_world (stmt E (fun _ => on_catalog (GetBucket bucketID)));
      client ← of_result (body_client bucket);
      _ ← puts (fun s => mkHashWorld (hworld s) (<[bucketID := (client, bBucketName bucket)]> (clientCache s)));
      mret (client, bBucketName bucket)
  end.

Definition wrap_run {S A} (message : string) (m : M S A) : M S A := fun s =>
  match m s with
  | (Err (Failure e), s) => (Err (Failure (Wrapf message e)), s)
  | r => r
  end.

Definition persistContentSHA256 (object : Object) (hash runID : string) : M HashWorld unit :=
  wrap_run "persist content sha256 for object %q: %w" (
    _ ← in_world (stmt E (fun n => on_catalog (UpsertObject json_text (fresh n) (db_now E n)
          (mkUpsert (oBucketID object) (oKey object) (mergeExtractedContentSHA256 object hash)
            (<["extracted" := runID]> (oAttributeProvenance object)) None))));
    mret tt).

(** The body of a worker for the object of an index. *)
Definition hash_one (group : DuplicateCandidateGroup) (runID : string) (index : nat) : M HashWorld hashResult :=
  match dgObjects group !! index with
  | None => fail (Failure (Errorf "index out of range"))
  | Some object =>
      match cachedContentSHA256 object (dgETag group) (dgSize group) with
      | Some hash => mret (mkHashResult (oID object) hash 0 true)
      | None =>
          client ← clientForObject (oBucketID object);
          let versionID := attributeString (oAttributes object) "upstream.s3.version_id" in
          hashed ← wrap_run "hash object %q: %w" (HashObject client.1 client.2 (mkHeadInput "" (oKey object) versionID));
          _ ← persistContentSHA256 object hashed.1 runID;
          mret (mkHashResult (oID object) hashed.1 hashed.2 false)
      end
  end.

(** The hashes by object, the bytes read and the objects hashed. *)
Definition collect_hash (acc : gmap string string * Z * Z) (r : hashResult) : gmap string string * Z * Z :=
  let '(hashes, bytesHashed, hashedCount) := acc in
  let hashes := <[hsObjectID r := hsHash r]> hashes in
  if hsCached r then (hashes, bytesHashed, hashedCount) else (hashes, bytesHashed + hsBytes r, hashedCount + 1).

Definition no_result : hashResult := mkHashResult "" "" 0 false.

Definition hashGroupObjects (group : DuplicateCandidateGroup) (runID : string) : M HashWorld (gmap string string * Z * Z) := fun s =>
  let n := List.length (dgObjects group) in
  let workers := Nat.min hashWorkers n in
  if Nat.eqb workers 0 then (Ok (∅, 0, 0), s)
  else
    match hash_run (hash_one group runID) n (hash_schedule (clock (hworld s))) (hash_start n workers s) with
    | Some p =>
        if hash_done p then
          match hashErr p with
          | Some e => (Err e, hstate p)
          | None => (Ok (fold_left collect_hash (map (fun i => default no_result (hresults p !! i)) (seq 0 n)) (∅, 0, 0)), hstate p)
          end
        else (Err OutOfFuel, hstate p)
    | None => (Err OutOfFuel, s)
    end.

Definition update_progress (runID : string) (progress : payload) : M HashWorld unit :=
  _ ← in_world (stmt E (fun n => on_jobs (UpdateJobRunProgress (db_now E n) runID progress))); mret tt.

(** What the job counts. *)
Record DetectCounts := mkDetectCounts {
  relationsCreated : Z; relationsRemoved : Z; verifiedGroups : Z; bytesHashed : Z; objectsHashed : Z
}.

Definition relation_params (group : DuplicateCandidateGroup) (source object : Object) (hash runID : string) : CreateRelationParams :=
  mkCreateRelation (oID source) (oID object) RelationTypeDuplicate
    (<["content_sha256" := VString hash]> (<["etag" := VString (dgETag group)]> {["size" := VInt (dgSize group)]}))
    "job" "" "" runID.

(** The relations of a verified group: from the original to each of the others. *)
Definition create_relations (group : DuplicateCandidateGroup) (source : Object) (hash runID : string) (created : Z) :
    M HashWorld Z :=
  for_acc (fun created object =>
    if String.eqb (oID object) (oID source) then mret created
    else
      _ ← in_world (stmt E (fun n => on_catalog (CreateRelation (random E n) (db_now E n)
            (relation_params group source object hash runID))));
      mret (created + 1)) created (dgObjects group).

(** The body of the loop over the groups. *)
Definition detect_group (runID : string) (groups : nat) (acc : nat * DetectCounts) (group : DuplicateCandidateGroup) :
    M HashWorld (nat * DetectCounts) :=
  let '(groupIndex, counts) := acc in
  _ ← update_progress runID (<["phase" := VString "hashing"]> (<["candidate_groups" := VInt (Z.of_nat groups)]>
        {["groups_done" := VInt (Z.of_nat groupIndex)]}));
  let objectIDs := map oID (dgObjects group) in
  '(hashes, bytes, hashed) ← hashGroupObjects group runID;
  site ← gets (fun s => clock (hworld s));
  let counts := mkDetectCounts (relationsCreated counts) (relationsRemoved counts) (verifiedGroups counts)
    (bytesHashed counts + bytes) (objectsHashed counts + hashed) in
  if negb (allHashesMatch site hashes) then
    removed ← in_world (stmt E (fun _ => on_catalog (DeleteDuplicateRelationsBetween objectIDs)));
    mret (S groupIndex, mkDetectCounts (relationsCreated counts) (relationsRemoved counts + removed) (verifiedGroups counts)
      (bytesHashed counts) (objectsHashed counts))
  else
    match originalObject (dgObjects group) with
    | None => mret (S groupIndex, counts)
    | Some source =>
        created ← create_relations group source (default "" (hashes !! oID source)) runID (relationsCreated counts);
        mret (S groupIndex, mkDetectCounts created (relationsRemoved counts) (verifiedGroups counts + 1) (bytesHashed counts)
          (objectsHashed counts))
    end.

Definition scopePayload (scope : DuplicateDetectScope) : payload :=
  <["bucket_ids" := VStrings (dsBucketIDs scope)]> {["prefixes" := VStrings (dsPrefixes scope)]}.

Definition detect_result (scope : DuplicateDetectScope) (groups : nat) (counts : DetectCounts) : payload :=
  <["phase" := VString "completed"]> (<["scope" := VMap (scopePayload scope)]>
  (<["candidate_groups" := VInt (Z.of_nat groups)]> (<["verified_groups" := VInt (verifiedGroups counts)]>
  (<["objects_hashed" := VInt (objectsHashed counts)]> (<["bytes_hashed" := VInt (bytesHashed counts)]>
  (<["relations_created" := VInt (relationsCreated counts)]> {["relations_removed" := VInt (relationsRemoved counts)]})))))).

Definition detect_duplicates_Handle (run : JobRun) : M HashWorld payload :=
  input ← of_result (ParseInput run);
  let scope := ScopeFromInput input in
  groups ← in_world (stmt E (fun _ => on_catalog (FindDuplicateCandidateGroups json_text bigint scope)));
  let n := List.length groups in
  _ ← update_progress (ID run) (<["phase" := VString "finding_candidates"]> {["candidate_groups" := VInt (Z.of_nat n)]});
  final ← for_acc (detect_group (ID run) n) (0%nat, mkDetectCounts 0 0 0 0 0) groups;
  mret (detect_result scope n final.2).
End Handler.
