(* ===== verification/ScanBucket.v ===== *)
(** * ScanBucket

    The scan_bucket job (apps/worker/internal/jobs/scan_bucket): budget.go, input.go and
    handler.go.  A scan compares the objects of a bucket in the catalog with its upstream,
    by the fingerprints of a sample of hash partitions, and requests a sync of the
    partitions that differ.

    The state is the world of [SyncBucket], whose [exec] a scan leaves alone, with the
    accumulators that the listing fills and the count of its budget.  Every reading of the
    clock is an instant of its own.  At the end of the file, what a scan escalates. *)
From S2P Require Import Prelude GoStrings GoFloat GoTime Verification JobPayload JobRuns JobRunProofs ErrState S3Listing Catalog Buckets.
From S2P Require Import ObjectStore ObjectPlan SyncBucket SyncPlan SyncBucketProofs SyncTheorems SyncTermination SyncWitnesses.
Local Open Scope Z_scope.

(** ** budget.go *)

Definition defaultMaxObjectsListed : Z := 100000.
(** A [time.Duration] is in nanoseconds. *)
Definition defaultMaxScanDuration : Z := 10 * 60 * 1000000000.

Record ScanBudgetConfig := mkBudgetConfig { MaxObjectsListed : Z; MaxDuration : Z }.
Record ScanBudget := mkScanBudget { maxObjects : Z; deadline : Time; objectsListed : Z }.

Definition NewScanBudget (cfg : ScanBudgetConfig) (start : Time) : ScanBudget :=
  let maxObjects := if MaxObjectsListed cfg <=? 0 then defaultMaxObjectsListed else MaxObjectsListed cfg in
  let maxDuration := if MaxDuration cfg <=? 0 then defaultMaxScanDuration else MaxDuration cfg in
  mkScanBudget maxObjects (Add start maxDuration) 0.

(** [now] is what [b.now()] returns. *)
Definition AllowAt (b : ScanBudget) (now : Time) (count : Z) : bool :=
  if After now (deadline b) then false
  else if count <=? 0 then true
  else negb (maxObjects b <? wrap64 (objectsListed b + count)).

Definition RecordCount (b : ScanBudget) (count : Z) : ScanBudget :=
  if 0 <? count then mkScanBudget (maxObjects b) (deadline b) (wrap64 (objectsListed b + count)) else b.

(** ** input.go *)

Record ScanBucketInput := mkScanInput { scBucketID : string; scScopePrefix : string }.

Definition ScanBucketID (run : JobRun) : result store_error string :=
  match as_string (Input run !! "bucket_id") with
  | Some bucketID =>
      if negb (String.eqb bucketID "") then Ok bucketID
      else if String.eqb (TargetType run) "bucket" && negb (String.eqb (TargetID run) "") then Ok (TargetID run)
      else Err (Errorf "scan_bucket job %q is missing bucket_id")
  | None =>
      if String.eqb (TargetType run) "bucket" && negb (String.eqb (TargetID run) "") then Ok (TargetID run)
      else Err (Errorf "scan_bucket job %q is missing bucket_id")
  end.

Definition ParseScanInput (run : JobRun) : result store_error ScanBucketInput :=
  bucketID ← ScanBucketID run;
  Ok (mkScanInput bucketID
       (match as_string (Input run !! "scope_prefix") with
        | Some scopePrefix => scopePrefix
        | None => default "" (as_string (Input run !! "prefix"))
        end)).

Definition ScanObjectScopeParams (bucketID bucketPrefix : string) (input : ScanBucketInput) : ObjectScopeParams :=
  mkScope bucketID (EffectiveListPrefix bucketPrefix (scScopePrefix input)).

(** ** handler.go *)

Record ScanWorld := mkScanWorld { sworld : World; upstreamAccumulators : PartitionAccumulators; budget : ScanBudget }.

Definition in_scan {A} (m : M World A) : M ScanWorld A := fun s =>
  let '(r, w) := m (sworld s) in (r, mkScanWorld w (upstreamAccumulators s) (budget s)).

(** A panic of [AddKey] and [Snapshot]; [scan_never_panics] shows that there is none. *)
Definition or_panic {S A} (v : option A) : M S A :=
  match v with Some a => mret a | None => fail_with "panic" end.

(** [NewHandler]'s default for the modulus. *)
Definition handler_modulus (configured : Z) : Z := if configured =? 0 then DefaultModulus else configured.

Section Handler.
Context `{MapOrder, Collation} (E : Env) (configured_modulus : Z) (config : ScanBudgetConfig).

(** [h.now()]. *)
Definition read_now : M World Time := fun w =>
  (Ok (go_now E (clock w)), mkWorld (Datatypes.S (clock w)) (store w) (exec w)).

Definition scan_budget : ObjectListBudget ScanWorld := mkBudget ScanWorld
  (fun count => now ← in_scan read_now; gets (fun s => AllowAt (budget s) now count))
  (fun count => puts (fun s => mkScanWorld (sworld s) (upstreamAccumulators s) (RecordCount (budget s) count))).

(** The callback [OnObject] of the listing. *)
Definition add_upstream (object : ListedObject) : M ScanWorld unit :=
  accumulators ← gets upstreamAccumulators;
  accumulators ← or_panic (AddKey accumulators (lKey object) (lSize object));
  puts (fun s => mkScanWorld (sworld s) accumulators (budget s)).

(** The callback of [StreamObjectsInScope]. *)
Definition add_local (localAccumulators : PartitionAccumulators) (object : Object) : M ScanWorld PartitionAccumulators :=
  or_panic (AddKey localAccumulators (oKey object) (leSize (ListingEvidenceFromLocalObject object))).

Definition scan_progress (runID phase : string) (fields : payload) : M ScanWorld unit :=
  in_scan (updateProgress E runID (fun _ => fields ∪ {["phase" := VString phase]})).

Definition scan_list_options (client : ObjectClient) (bucket : Bucket) (listPrefix : string) :
    ListAllObjectsOptions ScanWorld :=
  mkListOptions (Some (fun input => in_scan (call_upstream client input))) (bBucketName bucket) listPrefix
    (bBucketName bucket) (Some scan_budget) (mkCheckpoint "" "" 0) None (Some add_upstream) None.

(** The loop over the sampled partitions: the mismatched ids and the number scanned. *)
Definition evaluate (listingComplete : bool) (localAccumulators upstream : PartitionAccumulators)
    (acc : list string * Z) (partition : Partition) : M ScanWorld (list string * Z) :=
  localFingerprint ← or_panic (PartitionSnapshot localAccumulators (Index partition));
  upstreamFingerprint ← or_panic (PartitionSnapshot upstream (Index partition));
  if (fCount localFingerprint =? 0) && (fCount upstreamFingerprint =? 0) then mret acc
  else if negb listingComplete then mret (acc.1, acc.2 + 1)
  else if cMatch (CompareFingerprints localFingerprint upstreamFingerprint) then mret (acc.1, acc.2 + 1)
  else mret (acc.1 ++ [Verification.ID partition], acc.2 + 1).

Definition partition_payload (partition : Partition) : value :=
  VMap (<["scheme" := VString (Scheme partition)]>
    (<["modulus" := VInt (Modulus partition)]> {["index" := VInt (Index partition)]})).

Definition partition_sync_params (runID bucketID scopePrefix : string) (partition : Partition) : CreateJobRunParams :=
  mkCreate JobTypeSyncBucket "" "job" runID "bucket" bucketID
    (<["bucket_id" := VString bucketID]> (<["scope_prefix" := VString scopePrefix]>
      (<["source_job_run_id" := VString runID]> {["partition" := partition_payload partition]})))
    DefaultSyncBucketMaxAttempts None.

Definition createPartitionSyncJob (runID bucketID scopePrefix : string) (partition : Partition) : M ScanWorld JobRun :=
  in_scan (stmt E (fun n =>
    on_jobs (CreateJobRun (random E n) (db_now E n) (partition_sync_params runID bucketID scopePrefix partition)))).

Definition parse_error (e : partition_error) : store_error := Errorf "parse partition id %q".

(** The body of the loop over the mismatched ids. *)
Definition escalate (runID bucketID scopePrefix : string) (syncJobIDs : list string) (partitionID : string) :
    M ScanWorld (list string) :=
  partition ← of_result (match ParsePartitionID partitionID with Ok p => Ok p | Err e => Err (parse_error e) end);
  childRun ← createPartitionSyncJob runID bucketID scopePrefix partition;
  mret (syncJobIDs ++ [JobRuns.ID childRun]).

Definition scan_result (bucketID scopePrefix : string) (modulus sampled scanned : Z) (mismatched syncJobIDs : list string)
    (listingComplete : bool) (objectsListed : Z) : payload :=
  let result := FanOutResult {["sync_bucket" := syncJobIDs]}
    (<["phase" := VString "completed"]>
    (<["bucket_id" := VString bucketID]>
    (<["scope" := VMap {["prefix" := VString scopePrefix]}]>
    (<["partition_modulus" := VInt modulus]>
    (<["partitions_sampled" := VInt sampled]>
    (<["partitions_scanned" := VInt scanned]>
    (<["partitions_mismatched" := VStrings mismatched]>
    (<["listing_pass_complete" := VBool listingComplete]>
    {["objects_listed" := VInt objectsListed]})))))))) in
  let result := if listingComplete && bool_decide (mismatched = []) then <["status" := VString "healthy"]> result else result in
  if bool_decide (mismatched = []) then result else <["status" := VString "needs_sync"]> result.

Definition scan_Handle (fuel : nat) (run : JobRun) : M ScanWorld payload :=
  let modulus := handler_modulus configured_modulus in
  input ← of_result (ParseScanInput run);
  bucket ← in_scan (stmt E (fun _ => on_catalog (GetBucket (scBucketID input))));
  client ← of_result (client_for E bucket);
  let scope := ScanObjectScopeParams (bID bucket) (bPrefix bucket) input in
  objectCount ← in_scan (stmt E (fun _ => on_catalog (CountObjectsInScope scope)));
  startedAt ← in_scan read_now;
  let sampled := SamplePartitions modulus objectCount (DailyEpoch startedAt) in
  _ ← scan_progress (JobRuns.ID run) "sampling_partitions"
        (<["partitions_sampled" := VInt (Z.of_nat (List.length sampled))]> {["object_count" := VInt objectCount]});
  localAccumulators ← StreamObjectsInScope (fun f => in_scan (run_query E f)) scope add_local
                        (NewPartitionAccumulators modulus);
  _ ← puts (fun s => mkScanWorld (sworld s) (NewPartitionAccumulators modulus) (NewScanBudget config startedAt));
  listed ← ListAllObjects (scan_list_options client bucket (scopePrefix scope)) fuel;
  _ ← scan_progress (JobRuns.ID run) "listing_upstream"
        (<["objects_listed" := VInt listed.2]> {["listing_pass_complete" := VBool listed.1]});
  _ ← scan_progress (JobRuns.ID run) "evaluating" ∅;
  upstream ← gets upstreamAccumulators;
  evaluated ← for_acc (evaluate listed.1 localAccumulators upstream) ([], 0) sampled;
  let mismatched := evaluated.1 in
  _ ← match mismatched with
      | [] => mret tt
      | _ => scan_progress (JobRuns.ID run) "escalating"
               {["partitions_mismatched" := VInt (Z.of_nat (List.length mismatched))]}
      end;
  syncJobIDs ← for_acc (escalate (JobRuns.ID run) (bID bucket) (scScopePrefix input)) [] mismatched;
  mret (scan_result (bID bucket) (scScopePrefix input) modulus (Z.of_nat (List.length sampled)) evaluated.2
          mismatched syncJobIDs listed.1 listed.2).

(** The handler on the world of the worker: the accumulators and the budget are its
    local variables. *)
Definition run_scan (fuel : nat) (run : JobRun) : M World payload := fun w =>
  let '(r, s) := scan_Handle fuel run
    (mkScanWorld w (NewPartitionAccumulators (handler_modulus configured_modulus)) (NewScanBudget config zeroTime)) in
  (r, sworld s).
End Handler.

(** * What a scan escalates

    What a scan of a bucket escalates ([ScanBucket]): the syncs it requests are those of
    the sampled partitions whose count or size differ between the catalog and a complete
    listing of the upstream, and each of them is read back by the sync as that partition.
    A scan ends when the upstream makes progress from page to page. *)

(** ** The input of a partition sync *)

Lemma uint32_stored z : 0 <= z < 2 ^ 32 -> uint32FromPayload (Some (VFloat (float_of_Z z))) = Ok z.
Proof.
  intros Hz. unfold uint32FromPayload. rewrite (float_of_Z_ltb z max_uint32) by (unfold max_uint32; lia).
  assert (uint32_of_float (float_of_Z z) = z) as Hu.
  { destruct z as [|p|p]; [done| |lia]. pose proof (int64_of_float_of_Z (Zpos p) ltac:(lia)) as H.
    cbn [float_of_Z] in *. destruct (binary_round_small false p ltac:(lia)) as (m & e & E & He & Hm). rewrite E in *.
    unfold int64_of_float, uint32_of_float in *. cbv zeta in H. case_match; [|lia].
    rewrite H. apply Z.mod_small. lia. }
  rewrite Hu. assert (SFltb (float_of_Z z) (float_of_Z 0) = false) as ->; [|done].
  apply float_of_Z_ltb; lia.
Qed.

Lemma parse_partition_stored p : valid_partition p -> parsePartitionFromPayload (from_json (to_json (partition_payload p))) = Ok p.
Proof.
  destruct p as [sch m i]. intros (Hs & Hi & Hm). cbn in Hs. subst sch. cbn [Index Modulus] in *.
  unfold parsePartitionFromPayload, partition_payload. cbn [to_json from_json asNestedAttributeMap Scheme Modulus Index].
  rewrite !lookup_fmap, lookup_insert_eq. cbn [fmap option_fmap option_map to_json from_json as_string default].
  rewrite String.eqb_refl. cbn [negb]. rewrite !lookup_insert_ne, lookup_insert_eq, lookup_singleton_eq by done.
  cbn [fmap option_fmap option_map to_json from_json].
  rewrite !uint32_stored by lia. unfold mbind, result_bind. cbn [wrap_err]. rewrite (proj2 (Z.eqb_neq _ _)) by lia. by rewrite (proj2 (Z.leb_gt _ _)) by lia.
Qed.

(** The job that a scan requests for a partition, as the sync job reads it. *)
Definition requested (runID bucketID prefix : string) (p : Partition) (r : JobRow) : Prop :=
  type_ r = JobTypeSyncBucket /\ requested_by_type r = Some "job" /\ requested_by_id r = nullableString runID /\
  max_attempts r = DefaultSyncBucketMaxAttempts /\
  ParseSyncBucketInput (scanJobRun r) = Ok (mkSyncInput bucketID prefix (Some p) runID).

Lemma requested_identity runID bucketID prefix p r r' :
  identity_of r' = identity_of r -> requested runID bucketID prefix p r -> requested runID bucketID prefix p r'.
Proof.
  intros E (H1 & H2 & H3 & H4 & H5). injection E as Eid Etr Ety Ebt Ebi Ett Eti Einp Emax Ecr.
  split_and!; try congruence. rewrite <- H5. unfold ParseSyncBucketInput, BucketID, scanJobRun.
  cbn [Input TargetType TargetID]. by rewrite Einp, Ett, Eti.
Qed.

Lemma ParseSyncBucketInput_eq run bucketID prefix v p src :
  bucketID <> "" -> Input run !! "bucket_id" = Some (VString bucketID) -> Input run !! "partition" = Some v ->
  parsePartitionFromPayload v = Ok p -> Input run !! "scope_prefix" = Some (VString prefix) ->
  Input run !! "source_job_run_id" = Some (VString src) ->
  ParseSyncBucketInput run = Ok (mkSyncInput bucketID prefix (Some p) src).
Proof.
  intros Hne Hb Hp Hv Hs Hsrc. unfold ParseSyncBucketInput, BucketID, scope_prefix_of. rewrite Hb, Hp, Hs, Hsrc.
  cbn [as_string]. rewrite (proj2 (String.eqb_neq bucketID "")) by exact Hne. cbn [negb]. unfold mbind, result_bind.
  by rewrite Hv.
Qed.

Lemma partition_sync_input runID bucketID prefix p e :
  encodeJobRunPayload (cInput (partition_sync_params runID bucketID prefix p)) = Some e ->
  decodeJobRunPayload e !! "bucket_id" = Some (VString bucketID) /\
  decodeJobRunPayload e !! "partition" = Some (from_json (to_json (partition_payload p))) /\
  decodeJobRunPayload e !! "scope_prefix" = Some (VString prefix) /\
  decodeJobRunPayload e !! "source_job_run_id" = Some (VString runID).
Proof.
  intros He. unfold decodeJobRunPayload. rewrite !lookup_fmap, !(encoded_lookup _ _ _ He). clear He.
  unfold partition_sync_params. cbn [cInput]. repeat split.
Qed.

Lemma createPartitionSync random now runID bucketID prefix p d :
  bucketID <> "" -> valid_partition p ->
  match CreateJobRun random now (partition_sync_params runID bucketID prefix p) d with
  | (Ok run, d') => job_runs d !! JobRuns.ID run = None /\
      exists r, job_runs d' = <[JobRuns.ID run := r]> (job_runs d) /\ requested runID bucketID prefix p r
  | _ => True
  end.
Proof.
  intros Hb Hp. unfold CreateJobRun, mbind, DB_bind. set (params := partition_sync_params runID bucketID prefix p).
  pose proof (resolveTraceID_db (newJobRunID random) params d) as Hd.
  destruct (resolveTraceID (newJobRunID random) params d) as [[t|e] d0]; cbn in Hd; subst d0; [|done].
  destruct (encoded_cases (cInput params) d) as [(e & He & ->)|[_ [e ->]]]; [|done].
  match goal with |- context [insert_row ?r d] => set (row := r); destruct (insert_row_cases row d) as [[err ->]|(Hno & _ & ->)] end;
    [done|]. split; [done|]. exists row. split; [done|].
  do 4 (split; [reflexivity|]). destruct (partition_sync_input _ _ _ _ e He) as (H1 & H2 & H3 & H4).
  eapply ParseSyncBucketInput_eq; [exact Hb|exact H1|exact H2|by apply parse_partition_stored|exact H3|exact H4].
Qed.

(** A job that was created in the name of a run. *)
Definition names_run (runID : string) (r : JobRow) : Prop :=
  requested_by_type r = Some "job" /\ requested_by_id r = nullableString runID.

Lemma names_run_identity runID r r' : identity_of r' = identity_of r -> names_run runID r' -> names_run runID r.
Proof. intros E [H1 H2]. injection E as Eid Etr Ety Ebt Ebi Ett Eti Einp Emax Ecr. split; congruence. Qed.

(** ** Rows that stay *)

Definition rows_kept (d d' : db) : Prop :=
  forall key r, job_runs d !! key = Some r -> exists r', job_runs d' !! key = Some r' /\ identity_of r' = identity_of r.

Lemma run_op_kept o d : keyed d -> keyed (run_op o d) /\ rows_kept d (run_op o d).
Proof.
  intros Hk. pose proof (op_step o d Hk) as Hs. split; [by eapply table_step_keyed|].
  intros key r Hr. specialize (Hs key). rewrite Hr in Hs. destruct (job_runs (run_op o d) !! key) as [r'|]; [|done].
  destruct Hs as (e & _ & Hs). exists r'. split; [done|]. by eapply row_step_identity.
Qed.

Lemma run_ops_kept ops d : keyed d -> keyed (run_ops ops d) /\ rows_kept d (run_ops ops d).
Proof.
  revert d. induction ops as [|o ops IH]; intros d Hk; cbn [run_ops fold_left]; [split; [done|intros key r Hr; eauto]|].
  destruct (run_op_kept o d Hk) as [Hk1 H1]. destruct (IH _ Hk1) as [Hk2 H2]. split; [exact Hk2|].
  intros key r Hr. destruct (H1 key r Hr) as (r1 & Hr1 & E1). destruct (H2 key r1 Hr1) as (r2 & Hr2 & E2).
  exists r2. split; [done|congruence].
Qed.

(** ** The triples of a scan *)

Definition upstream_entry (o : ListedObject) : string * Z := (lKey o, lSize o).
Definition local_entry (o : Object) : string * Z := (oKey o, leSize (ListingEvidenceFromLocalObject o)).

(** The partitions that differ: in the number of their keys, or in the total size of these
    as int64s. *)
Definition drifted (m : Z) (local upstream : list (string * Z)) (p : Partition) : bool :=
  negb (key_count m (Index p) local =? key_count m (Index p) upstream)
  || negb ((key_bytes m (Index p) local - key_bytes m (Index p) upstream) mod 2 ^ 64 =? 0).
(** The partitions with a key. *)
Definition inhabited (m : Z) (local upstream : list (string * Z)) (p : Partition) : bool :=
  negb ((key_count m (Index p) local =? 0) && (key_count m (Index p) upstream =? 0)).

(** What the handler computes. *)
Definition drifts (m : Z) (local upstream : list (string * Z)) (p : Partition) : bool :=
  let l := fingerprint_of m (Index p) local in
  let u := fingerprint_of m (Index p) upstream in
  negb ((fCount l =? 0) && (fCount u =? 0)) && negb (cMatch (CompareFingerprints l u)).
Definition occupied (m : Z) (local upstream : list (string * Z)) (p : Partition) : bool :=
  negb ((fCount (fingerprint_of m (Index p) local) =? 0) && (fCount (fingerprint_of m (Index p) upstream) =? 0)).

Lemma wrap64_eqb a b : (wrap64 a =? wrap64 b) = ((a - b) mod 2 ^ 64 =? 0).
Proof. unfold wrap64. destruct (Z.eqb_spec ((a - b) mod 2 ^ 64) 0); [apply Z.eqb_eq|apply Z.eqb_neq]; Z.to_euclidean_division_equations; lia. Qed.

(** An int64 counts the objects of the listings. *)
Definition countable (local upstream : list (string * Z)) : Prop :=
  Z.of_nat (List.length local) < 2 ^ 63 /\ Z.of_nat (List.length upstream) < 2 ^ 63.

Lemma drifts_drifted m local upstream p : 0 < m -> countable local upstream ->
  drifts m local upstream p = drifted m local upstream p /\ occupied m local upstream p = inhabited m local upstream p.
Proof.
  intros Hm [Hl Hu]. unfold drifts, occupied, drifted, inhabited. cbv zeta. rewrite !fingerprint_keys by done. cbn [fCount].
  pose proof (key_count_bound m (Index p) local). pose proof (key_count_bound m (Index p) upstream).
  rewrite (wrap64_small (key_count m (Index p) local)), (wrap64_small (key_count m (Index p) upstream)) by lia. split; [|done].
  unfold CompareFingerprints. cbn [fCount fBytes]. rewrite wrap64_eqb.
  destruct (Z.eqb_spec (key_count m (Index p) local) (key_count m (Index p) upstream)) as [E|E]; cbn [negb orb].
  - rewrite <- E. destruct (Z.eqb_spec (key_count m (Index p) local) 0) as [E0|E0]; cbn [andb negb].
    + assert (forall objects, key_count m (Index p) objects = 0 -> key_bytes m (Index p) objects = 0) as Hz.
      { intros objects. unfold key_count, key_bytes. by destruct (partition_keys _ _ objects). }
      rewrite !Hz by congruence. done.
    + by destruct (_ mod _ =? 0).
  - destruct (Z.eqb_spec (key_count m (Index p) local) 0), (Z.eqb_spec (key_count m (Index p) upstream) 0); cbn; congruence || lia.
Qed.

Section Scan.
Context `{MapOrder, Collation} (E : Env) (configured : Z) (config : ScanBudgetConfig).
(** The run, and the states of the catalog while it lasts. *)
Context (runID : string) (C : Catalog -> Prop).

(** Others run statements on the jobs, but create none in the name of this run. *)

Record scan_env : Prop := {
  se_modulus : 0 <= configured < 2 ^ 32;
  se_others n s : exists ops, jobs (others E n s) = run_ops ops (jobs s);
  se_own n s key r : job_runs (jobs (others E n s)) !! key = Some r -> names_run runID r -> is_Some (job_runs (jobs s) !! key);
  se_catalog n s : C (catalog s) -> C (catalog (others E n s));
  se_buckets c : C c -> keyed_buckets c
}.
Context (SE : scan_env).
Notation m := (handler_modulus configured).

Lemma modulus_range : 0 < m < 2 ^ 32.
Proof. pose proof (se_modulus SE). unfold handler_modulus, DefaultModulus. case_match; lia. Qed.

(** No job is new in the name of the run. *)
Definition none_new (d d' : db) : Prop :=
  forall key r, job_runs d' !! key = Some r -> names_run runID r -> is_Some (job_runs d !! key).

Section Run.
Context (d0 : db) (bucketID prefix : string).

(** The jobs requested so far, since the tables were [d0]: one for each partition, each of
    them new, and nothing else is new in the name of the run. *)
Record escalated (ids : list string) (ps : list Partition) (d : db) : Prop := {
  es_keyed : keyed d;
  es_NoDup : NoDup ids;
  es_requested : Forall2 (fun id p => exists r, job_runs d !! id = Some r /\ requested runID bucketID prefix p r) ids ps;
  es_kept : rows_kept d0 d;
  es_new : Forall (fun id => job_runs d0 !! id = None) ids;
  es_only : forall key r, job_runs d !! key = Some r -> names_run runID r -> key ∈ ids \/ is_Some (job_runs d0 !! key)
}.

Record T (ids : list string) (ps : list Partition) (upstream : list (string * Z)) (s : ScanWorld) : Prop := {
  T_jobs : escalated ids ps (jobs (store (sworld s)));
  T_catalog : C (catalog (store (sworld s)));
  T_upstream : accumulates m upstream (upstreamAccumulators s)
}.
Definition any_error (_ : run_error) (_ : ScanWorld) : Prop := True.

Lemma job_rows_kept_trans d1 d2 d3 : rows_kept d1 d2 -> rows_kept d2 d3 -> rows_kept d1 d3.
Proof.
  intros H1 H2 key r Hr. destruct (H1 key r Hr) as (r2 & Hr2 & E2). destruct (H2 key r2 Hr2) as (r3 & Hr3 & E3).
  exists r3. split; [done|congruence].
Qed.

Lemma requested_kept ids ps d d' : rows_kept d d' ->
  Forall2 (fun id p => exists r, job_runs d !! id = Some r /\ requested runID bucketID prefix p r) ids ps ->
  Forall2 (fun id p => exists r, job_runs d' !! id = Some r /\ requested runID bucketID prefix p r) ids ps.
Proof.
  intros Hr HF. eapply list.Forall2_impl; [exact HF|]. intros id p (r & Hid & Hreq). destruct (Hr id r Hid) as (r' & Hr' & Ei).
  exists r'. split; [done|]. by eapply requested_identity.
Qed.

Lemma escalated_kept ids ps d d' : keyed d' -> rows_kept d d' -> none_new d d' -> escalated ids ps d -> escalated ids ps d'.
Proof.
  intros Hk Hr Hn [H1 H2 H3 H4 H5 H6]. split; [done|done|by eapply requested_kept|by eapply job_rows_kept_trans|done|].
  intros key r Hkey Hnames. destruct (Hn key r Hkey Hnames) as [r1 Hr1].
  apply (H6 key r1 Hr1). destruct (Hr key r1 Hr1) as (r' & Hr' & Ei). assert (r' = r) as -> by congruence. by eapply names_run_identity.
Qed.

Lemma others_escalated ids ps n s : escalated ids ps (jobs s) -> escalated ids ps (jobs (others E n s)).
Proof.
  intros HJ. pose proof (se_own SE n s) as Hown. destruct (se_others SE n s) as [ops Ho]. destruct (run_ops_kept ops _ (es_keyed _ _ _ HJ)) as [Hk Hr].
  rewrite <- Ho in Hk, Hr. by apply (escalated_kept ids ps (jobs s)).
Qed.

(** The rule of a statement on the jobs. *)
Lemma scan_stmt_triple {A} ids ps upstream (f : nat -> M Store A) (Q : A -> db -> Prop) :
  (forall n s, escalated ids ps (jobs s) -> catalog (f n s).2 = catalog s /\
     match f n s with (Ok a, s') => Q a (jobs s') | _ => True end) ->
  triple (T ids ps upstream) (in_scan (stmt E f))
    (fun a s => Q a (jobs (store (sworld s))) /\ C (catalog (store (sworld s))) /\ accumulates m upstream (upstreamAccumulators s))
    any_error.
Proof.
  intros Hf s [HJ HC HU]. unfold in_scan, stmt. set (n := clock (sworld s)). set (s1 := others E n (store (sworld s))).
  pose proof (others_escalated ids ps n _ HJ) as HJ1. fold s1 in HJ1.
  pose proof (se_catalog SE n _ HC) as HC1. fold s1 in HC1. destruct (Hf n s1 HJ1) as [Hcat HQ].
  destruct (fault E n) as [[e|e]|]; [exact I..|].
  destruct (f n s1) as [[a|e] s2]; cbn in *; [|exact I]. split; [done|]. rewrite Hcat. done.
Qed.

(** A statement that leaves the tables alone. *)
Lemma scan_query_triple {A} ids ps upstream (f : nat -> M Store A) (Q : A -> Prop) :
  (forall n s, C (catalog s) -> (f n s).2 = s /\ forall a, (f n s).1 = Ok a -> Q a) ->
  triple (T ids ps upstream) (in_scan (stmt E f)) (fun a s => Q a /\ T ids ps upstream s) any_error.
Proof.
  intros Hf s [HJ HC HU]. unfold in_scan, stmt. set (n := clock (sworld s)). set (s1 := others E n (store (sworld s))).
  pose proof (others_escalated ids ps n _ HJ) as HJ1. fold s1 in HJ1.
  pose proof (se_catalog SE n _ HC) as HC1. fold s1 in HC1. destruct (Hf n s1 HC1) as [Hs2 HQ].
  destruct (fault E n) as [[e|e]|]; [exact I..|].
  destruct (f n s1) as [[a|e] s2]; cbn in *; [|exact I]. subst s2. split; [by apply HQ|]. done.
Qed.

Lemma progress_none_new now key p d : none_new d (UpdateJobRunProgress now key p d).2.
Proof.
  unfold UpdateJobRunProgress, mbind, DB_bind. destruct (encoded_cases p d) as [(e & _ & ->)|[_ [err ->]]]; [|by intros k r Hr _; eexists].
  unfold update_row. destruct (job_runs d !! key) as [r0|] eqn:Hr0; [|by intros k r Hr _; eexists]. cbv beta iota.
  unfold none_new. cbn [snd job_runs]. intros k r [[<- _]|[_ Hr]]%lookup_insert_Some _; by eexists.
Qed.

Lemma scan_progress_triple ids ps upstream phase fields :
  triple (T ids ps upstream) (scan_progress E runID phase fields) (fun _ => T ids ps upstream) any_error.
Proof.
  intros s HT. unfold scan_progress, in_scan, updateProgress. unfold mbind at 1, M_bind at 1. cbn [gets].
  set (f := fun n => on_jobs (UpdateJobRunProgress (db_now E n) runID (fields ∪ {["phase" := VString phase]}))).
  pose proof (scan_stmt_triple ids ps upstream f (fun _ => escalated ids ps)) as Ht.
  lapply Ht; [clear Ht; intros Ht|].
  - specialize (Ht s HT). unfold in_scan in Ht. unfold mbind, M_bind. destruct (stmt E f (sworld s)) as [[r|e] w]; [|exact I].
    cbn in *. destruct Ht as (H1 & H2 & H3). by split.
  - intros n s0 HJ. unfold f. rewrite on_jobs_eq. split; [done|].
    pose proof (run_op_kept (OpProgress (db_now E n) runID (fields ∪ {["phase" := VString phase]})) _ (es_keyed _ _ _ HJ)) as [Hk Hr].
    pose proof (progress_none_new (db_now E n) runID (fields ∪ {["phase" := VString phase]}) (jobs s0)) as Hn.
    cbn [run_op] in Hk, Hr. destruct (UpdateJobRunProgress _ _ _ _) as [[r|e] d']; cbn in *; [|exact I].
    by eapply escalated_kept.
Qed.

(** ** The escalation *)

Lemma escalate_triple ids ps upstream p :
  bucketID <> "" -> valid_partition p ->
  triple (T ids ps upstream) (escalate E runID bucketID prefix ids (Verification.ID p))
    (fun ids' => T ids' (ps ++ [p]) upstream) any_error.
Proof.
  intros Hb Hp s HT. unfold escalate. rewrite ParsePartitionID_ID by done.
  unfold mbind at 1, M_bind at 1. cbn [of_result]. unfold createPartitionSyncJob.
  set (f := fun n => on_jobs (CreateJobRun (random E n) (db_now E n) (partition_sync_params runID bucketID prefix p))).
  pose proof (scan_stmt_triple ids ps upstream f (fun run d => escalated (ids ++ [JobRuns.ID run]) (ps ++ [p]) d)) as Ht.
  lapply Ht; [clear Ht; intros Ht|].
  - specialize (Ht s HT). unfold mbind, M_bind. destruct (in_scan (stmt E f) s) as [[r|e] w]; [|exact I].
    cbn in *. destruct Ht as (H1 & H2 & H3). by split.
  - intros n s0 HJ. unfold f. rewrite on_jobs_eq. split; [done|].
    pose proof (createPartitionSync (random E n) (db_now E n) runID bucketID prefix p (jobs s0) Hb Hp) as Hc.
    pose proof (run_op_kept (OpCreate (random E n) (db_now E n) (partition_sync_params runID bucketID prefix p)) _ (es_keyed _ _ _ HJ)) as [Hk Hr].
    cbn [run_op] in Hk, Hr. destruct (CreateJobRun _ _ _ _) as [[r|e] d']; cbn in *; [|exact I].
    destruct Hc as (Hno & row & Hrow & Hreq). destruct HJ as [H1 H2 H3 H4 H5 H6].
    assert (JobRuns.ID r ∉ ids) as Hfresh.
    { intros Hid. apply list_elem_of_lookup in Hid as [i Hi]. destruct (Forall2_lookup_l _ _ _ _ _ H3 Hi) as (q & _ & r0 & Hr0 & _). congruence. }
    split; [done| | | | |].
    + apply list.NoDup_app. split; [done|]. split; [|by apply list.NoDup_singleton]. by intros id Hid ->%list_elem_of_singleton.
    + apply Forall2_app; [by eapply requested_kept|]. constructor; [|constructor]. exists row. by rewrite Hrow, lookup_insert_eq.
    + by eapply job_rows_kept_trans.
    + apply Forall_app. split; [done|]. constructor; [|constructor]. destruct (job_runs d0 !! JobRuns.ID r) as [r0|] eqn:E0; [|done].
      destruct (H4 _ _ E0) as (r1 & Hr1 & _). congruence.
    + intros key r1. rewrite Hrow. intros [[<- _]|[_ Hr1]]%lookup_insert_Some Hnames; [left; set_solver|].
      destruct (H6 key r1 Hr1 Hnames) as [Hin|Hin]; [left; set_solver|by right].
Qed.

Lemma escalates_triple upstream qs :
  bucketID <> "" -> Forall valid_partition qs ->
  triple (T [] [] upstream) (for_acc (escalate E runID bucketID prefix) [] (map Verification.ID qs))
    (fun ids => T ids qs upstream) any_error.
Proof.
  intros Hb Hqs. enough (forall pre ids, Forall valid_partition pre ->
    triple (T ids pre upstream) (for_acc (escalate E runID bucketID prefix) ids (map Verification.ID qs))
      (fun ids => T ids (pre ++ qs) upstream) any_error) as H1 by (apply (H1 [] []); constructor).
  induction qs as [|q qs IH]; intros pre ids Hpre; cbn [map for_acc].
  - rewrite app_nil_r. intros s Hs. exact Hs.
  - inversion Hqs as [|? ? Hq Hqs']; subst. eapply triple_bind; [by apply escalate_triple|]. intros ids'.
    replace (pre ++ q :: qs) with ((pre ++ [q]) ++ qs) by (by rewrite <- app_assoc). apply (IH Hqs').
    apply Forall_app. split; [done|]. by constructor.
Qed.

(** ** The objects of the catalog *)

Definition local_listing (scope : ObjectScopeParams) (local : list Object) : Prop :=
  exists c, C c /\ mapM_result scanObject (scope_rows scope c) = Ok local.

Lemma stream_local_triple ids ps upstream scope :
  triple (T ids ps upstream)
    (StreamObjectsInScope (fun f => in_scan (run_query E f)) scope add_local (NewPartitionAccumulators m))
    (fun acc s => (exists local, local_listing scope local /\ accumulates m (map local_entry local) acc) /\ T ids ps upstream s)
    any_error.
Proof.
  unfold StreamObjectsInScope, run_query. eapply triple_bind.
  - apply (scan_query_triple ids ps upstream _ (fun rows : Rows => rows.2 = None -> exists c, C c /\ rows.1 = scope_rows scope c)).
    intros n s HC. cbn. split; [done|]. intros rows [= <-]. destruct (stream_fault E n) as [[k e]|]; [done|]. eauto.
  - intros [rows err]. cbn [fst snd]. apply triple_prop. intros Hrows. unfold stream_rows. cbn [fst snd].
    eapply triple_bind with (R := fun acc s => (exists local, mapM_result scanObject rows = Ok local /\
      accumulates m (map local_entry local) acc) /\ T ids ps upstream s).
    + eapply triple_pre; [|refine (triple_for_acc (fun pre acc s => (exists local, mapM_result scanObject pre = Ok local /\
        accumulates m (map local_entry local) acc) /\ T ids ps upstream s) any_error _ rows _ _)].
      { intros s HT. split; [|done]. exists []. split; [done|apply accumulates_new]. }
      intros pre r suf acc _. apply triple_prop. intros (local & Hl & Hacc) s HT.
      unfold mbind at 1, M_bind at 1, of_result. destruct (scanObject r) as [o|e] eqn:Ho; [|exact I].
      unfold add_local. destruct (accumulates_add m _ _ (local_entry o) (proj1 modulus_range) Hacc) as (acc' & Ha & Hacc').
      unfold local_entry at 1 2 in Ha. cbn [fst snd] in Ha. rewrite Ha. cbn. split; [|done]. exists (local ++ [o]).
      split; [|by rewrite map_app]. apply mapM_result_Ok. apply mapM_result_Ok in Hl.
      apply Forall2_app; [done|]. by repeat constructor.
    + intros acc. apply triple_prop. intros (local & Hl & Hacc) s HT. destruct err as [e|]; [exact I|]. cbn.
      split; [|done]. exists local. split; [|done]. destruct (Hrows eq_refl) as (c & HC & ->). by exists c.
Qed.

(** ** The listing of the upstream *)

Section Listing.
Context (client : ObjectClient) (b : Bucket) (listPrefix : string).

Definition serves (tok mk : string) (page : ObjectPage) : Prop :=
  exists n, client n (mkListInput (bBucketName b) listPrefix tok mk) = Ok page.
Definition listing (pages : list ObjectPage) : list ListedObject := List.concat (map Objects pages).

Notation options := (scan_list_options E client b listPrefix).
Notation Tup objs := (T [] [] (map upstream_entry objs)).

Definition before_page (pages : list ObjectPage) (tok mk : string) (n : Z) (s : ScanWorld) : Prop :=
  (path serves pages tok mk /\ n = Z.of_nat (List.length (listing pages))) /\ Tup (listing pages) s.
Definition inside_page (pages : list ObjectPage) (page : ObjectPage) (pre kept : list ListedObject) (n : Z) (s : ScanWorld) : Prop :=
  ((exists tok mk, path serves pages tok mk /\ serves tok mk page) /\
   n = Z.of_nat (List.length (listing pages ++ pre))) /\ Tup (listing pages ++ pre) s.
Definition after_listing (complete_ : bool) (n : Z) (s : ScanWorld) : Prop :=
  exists objs, (n = Z.of_nat (List.length objs) /\
    (complete_ = true -> exists pages, complete serves pages /\ objs = listing pages)) /\ Tup objs s.

Lemma T_same ids ps upstream s s' :
  store (sworld s') = store (sworld s) -> upstreamAccumulators s' = upstreamAccumulators s ->
  T ids ps upstream s -> T ids ps upstream s'.
Proof. intros E1 E2 [H1 H2 H3]. split; congruence. Qed.

Lemma allows_triple ids ps upstream count :
  triple (T ids ps upstream) (allows options count) (fun _ => T ids ps upstream) any_error.
Proof. intros s HT. cbn. by eapply T_same; [..|exact HT]. Qed.

Lemma visit_triple pre x :
  triple (Tup pre) (visit options add_upstream x) (fun ok s => if ok then Tup (pre ++ [x]) s else Tup pre s) any_error.
Proof.
  unfold visit. eapply triple_bind; [apply allows_triple|]. intros [|]; cbn [negb]; [|intros s Hs; exact Hs].
  intros s [HJ HC HU]. unfold add_upstream, records. cbn [Budget options].
  unfold mbind, M_bind. cbn [gets].
  destruct (accumulates_add m _ _ (upstream_entry x) (proj1 modulus_range) HU) as (acc & Ha & Hacc).
  unfold upstream_entry at 1 2 in Ha. cbn [fst snd] in Ha. rewrite Ha. cbn.
  split; cbn; [done|done|by rewrite map_app].
Qed.

Lemma list_upstream_scan fuel label :
  triple (Tup []) (list_pages options fuel (fun input => in_scan (call_upstream client input)) add_upstream label "" "" 0)
    (fun r => after_listing r.1 r.2) any_error.
Proof.
  eapply triple_pre; [|apply (list_pages_triple options _ add_upstream label before_page inside_page after_listing any_error)
    with (pages := [])].
  - intros s Hs. split; [|exact Hs]. split; [constructor|done].
  - done.
  - intros pages tok mk n s [[Hp Hn] HT]. unfold in_scan, call_upstream, of_result.
    destruct (client (clock (sworld s)) (list_input options tok mk)) as [page|e] eqn:Ec; [|exact I].
    split; [|rewrite app_nil_r; by eapply T_same; [..|exact HT]]. split; [|by rewrite app_nil_r].
    exists tok, mk. split; [done|]. by exists (clock (sworld s)).
  - done.
  - intros pages page pre x suf kept n _ _. apply triple_prop. intros [Hp Hn]. eapply triple_post; [apply visit_triple| |done].
    intros [|] s HT.
    + split; [split; [done|]|by rewrite app_assoc]. rewrite Hn, !length_app. cbn. lia.
    + exists (listing pages ++ pre). split; [|done]. split; [done|done].
  - done.
  - intros pages page kept n Hst s [[(tok & mk & Hp & Hs) Hn] HT]. cbn.
    assert (listing (pages ++ [page]) = listing pages ++ Objects page) as El
      by (unfold listing; rewrite map_app, concat_app; cbn; by rewrite app_nil_r).
    destruct (IsTruncated page) eqn:Et.
    + split; rewrite El; [|done]. split; [by eapply path_next|done].
    + exists (listing (pages ++ [page])). rewrite El. split; [|done]. split; [done|]. intros _. exists (pages ++ [page]).
      split; [|done]. by exists pages, tok, mk, page.
  - intros pages tok mk n. apply triple_prop. intros [Hp Hn]. eapply triple_post; [apply allows_triple| |done].
    intros [|] s HT; [by split|]. exists (listing pages). split; [|done]. by split.
Qed.
End Listing.

(** ** The evaluation of the sample *)

Definition escalations (listed : bool) (local upstream : list (string * Z)) (sampled : list Partition) : list Partition :=
  if listed then List.filter (drifts m local upstream) sampled else [].

Lemma evaluate_eq listed l u local upstream acc p s :
  accumulates m local l -> accumulates m upstream u -> 0 <= Index p < m ->
  evaluate listed l u acc p s =
  (Ok (acc.1 ++ map Verification.ID (escalations listed local upstream [p]),
       acc.2 + Z.of_nat (List.length (List.filter (occupied m local upstream) [p]))), s).
Proof.
  intros (_ & _ & Hl) (_ & _ & Hu) Hp. unfold evaluate. rewrite (Hl _ Hp), (Hu _ Hp). cbn [or_panic].
  unfold mbind at 1 2, M_bind at 1 2. cbn [mret M_ret]. unfold escalations, drifts, occupied. cbn [List.filter].
  destruct acc as [a k]. cbn [fst snd]. destruct ((fCount (fingerprint_of m (Index p) local) =? 0) && _); cbn [negb andb].
  { destruct listed; cbn; by rewrite app_nil_r, Z.add_0_r. }
  destruct listed; cbn [negb]; [|cbn; by rewrite app_nil_r].
  destruct (cMatch _); cbn; [by rewrite app_nil_r|done].
Qed.

Lemma evaluates_eq listed l u local upstream sampled s :
  accumulates m local l -> accumulates m upstream u -> (forall p, p ∈ sampled -> 0 <= Index p < m) ->
  for_acc (evaluate listed l u) ([], 0) sampled s =
  (Ok (map Verification.ID (escalations listed local upstream sampled),
       Z.of_nat (List.length (List.filter (occupied m local upstream) sampled))), s).
Proof.
  intros Hl Hu Hp. enough (forall acc, for_acc (evaluate listed l u) acc sampled s =
    (Ok (acc.1 ++ map Verification.ID (escalations listed local upstream sampled),
         acc.2 + Z.of_nat (List.length (List.filter (occupied m local upstream) sampled))), s)) as He by apply (He ([], 0)).
  induction sampled as [|p ps IH]; intros [a k]; cbn [for_acc].
  - unfold escalations. destruct listed; cbn; by rewrite app_nil_r, Z.add_0_r.
  - unfold mbind, M_bind. rewrite (evaluate_eq _ _ _ _ _ _ p s Hl Hu) by (apply Hp; left).
    rewrite IH by (intros; apply Hp; by right). cbn [fst snd]. do 2 f_equal. f_equal.
    + rewrite <- app_assoc, <- map_app. do 2 f_equal. unfold escalations. destruct listed; [|done]. by rewrite <- List.filter_app.
    + rewrite <- Z.add_assoc, <- Nat2Z.inj_add, <- length_app, <- List.filter_app. done.
Qed.
End Run.

(** ** The scan *)

Lemma SamplePartitions_valid modulus objectCount day p :
  0 < modulus < 2 ^ 32 -> p ∈ SamplePartitions modulus objectCount day -> valid_partition p /\ 0 <= Index p < modulus.
Proof.
  intros Hm Hp. assert (p ∈ AllPartitions modulus) as Ha.
  { unfold SamplePartitions in Hp. case_match; [done|].
    by apply list_elem_of_In, filter_In, proj1, list_elem_of_In in Hp. }
  apply list_elem_of_fmap in Ha as (i & -> & Hi%elem_of_indices); [|lia]. cbn. split; [split_and!; cbn; done || lia|done].
Qed.

Lemma ParseScanInput_bucket run input : ParseScanInput run = Ok input -> scBucketID input <> "".
Proof.
  unfold ParseScanInput, ScanBucketID. intros (b & Hb & [= <-])%bind_Ok. cbn [scBucketID].
  assert (forall e : store_error, (if String.eqb (TargetType run) "bucket" && negb (String.eqb (TargetID run) "")
    then Ok (TargetID run) else Err e) = Ok b -> b <> "") as Htarget.
  { intros e. destruct (_ && _) eqn:Ee; [|done]. intros [= <-]. apply andb_true_iff in Ee as [_ Ee].
    by destruct (String.eqb_spec (TargetID run) ""). }
  destruct (as_string _) as [t|]; [|by eapply Htarget].
  destruct (String.eqb_spec t ""); cbn [negb] in Hb; [by eapply Htarget|]. congruence.
Qed.

(** What a run of a scan did: the objects it read, the sample, the partitions it found to
    differ, and the jobs it requested, one for each of these and no other. *)
Definition scanned (run : JobRun) (result : payload) (d0 d : db) : Prop :=
  exists input b client local upstream objectCount day listed mismatched scanned_partitions ids,
    ParseScanInput run = Ok input /\ bID b = scBucketID input /\
    client_for E b = Ok client /\
    let listPrefix := EffectiveListPrefix (bPrefix b) (scScopePrefix input) in
    local_listing (mkScope (bID b) listPrefix) local /\
    (listed = true -> exists pages, complete (serves client b listPrefix) pages /\ upstream = listing pages) /\
    let sampled := SamplePartitions m objectCount day in
    let locals := map local_entry local in
    let upstreams := map upstream_entry upstream in
    (countable locals upstreams ->
       mismatched = (if listed then List.filter (drifted m locals upstreams) sampled else []) /\
       scanned_partitions = List.filter (inhabited m locals upstreams) sampled) /\
    result = scan_result (bID b) (scScopePrefix input) m (Z.of_nat (List.length sampled)) (Z.of_nat (List.length scanned_partitions))
      (map Verification.ID mismatched) ids listed (Z.of_nat (List.length upstream)) /\
    escalated d0 (bID b) (scScopePrefix input) ids mismatched d.

Lemma escalations_drifted listed local upstream sampled : countable local upstream ->
  escalations listed local upstream sampled = (if listed then List.filter (drifted m local upstream) sampled else []) /\
  List.filter (occupied m local upstream) sampled = List.filter (inhabited m local upstream) sampled.
Proof.
  intros Hc. unfold escalations. split; [destruct listed; [|done]|]; apply List.filter_ext; intros p; by apply drifts_drifted; [apply modulus_range|].
Qed.

Lemma list_all_triple d0 bucketID prefix client b listPrefix fuel :
  triple (T d0 bucketID prefix [] [] []) (ListAllObjects (scan_list_options E client b listPrefix) fuel)
    (fun r => after_listing d0 bucketID prefix client b listPrefix r.1 r.2) any_error.
Proof. exact (list_upstream_scan d0 bucketID prefix client b listPrefix fuel (if String.eqb (bBucketName b) "" then bBucketName b else bBucketName b)). Qed.

Lemma GetBucket_triple d0 bucketID prefix id :
  triple (T d0 bucketID prefix [] [] []) (in_scan (stmt E (fun _ => on_catalog (GetBucket id))))
    (fun b s => bID b = id /\ T d0 bucketID prefix [] [] [] s) any_error.
Proof.
  apply (scan_query_triple _ _ _ _ _ _ _ (fun b : Bucket => bID b = id)). intros n s HC. rewrite on_catalog_eq. unfold GetBucket.
  destruct (buckets (catalog s) !! id) as [b|] eqn:Eb; cbn; (split; [by destruct s|]); [|done].
  intros b' [= <-]. cbn. by apply (se_buckets SE _ HC).
Qed.

Lemma count_triple d0 bucketID prefix scope :
  triple (T d0 bucketID prefix [] [] []) (in_scan (stmt E (fun _ => on_catalog (CountObjectsInScope scope))))
    (fun _ => T d0 bucketID prefix [] [] []) any_error.
Proof.
  eapply triple_post; [apply (scan_query_triple _ _ _ _ _ _ _ (fun _ : Z => True))|by intros a s [_ HT]|done].
  intros n s HC. rewrite on_catalog_eq. cbn. split; [by destruct s|done].
Qed.

Lemma read_now_triple d0 bucketID prefix :
  triple (T d0 bucketID prefix [] [] []) (in_scan (read_now E)) (fun _ => T d0 bucketID prefix [] [] []) any_error.
Proof. intros s HT. cbn. by eapply T_same; [..|exact HT]. Qed.

Lemma reset_triple d0 bucketID prefix start :
  triple (T d0 bucketID prefix [] [] [])
    (puts (fun s => mkScanWorld (sworld s) (NewPartitionAccumulators m) (NewScanBudget config start)))
    (fun _ => T d0 bucketID prefix [] [] []) any_error.
Proof. intros s [H1 H2 H3]. cbn. split; [done|done|apply accumulates_new]. Qed.

Lemma escalating_triple d0 bucketID prefix upstream (mismatched : list string) :
  triple (T d0 bucketID prefix [] [] upstream)
    (match mismatched with
     | [] => mret tt
     | _ => scan_progress E runID "escalating" {["partitions_mismatched" := VInt (Z.of_nat (List.length mismatched))]}
     end) (fun _ => T d0 bucketID prefix [] [] upstream) any_error.
Proof. destruct mismatched; [intros s Hs; exact Hs|apply scan_progress_triple]. Qed.

Lemma escalations_valid listed local upstream objectCount day :
  Forall valid_partition (escalations listed local upstream (SamplePartitions m objectCount day)).
Proof.
  unfold escalations. destruct listed; [|constructor]. apply list.Forall_forall. intros p Hp.
  apply list_elem_of_In, filter_In, proj1, list_elem_of_In in Hp.
  by apply SamplePartitions_valid in Hp as [Hp _]; [|exact modulus_range].
Qed.

Lemma scan_Handle_triple fuel run d0 :
  JobRuns.ID run = runID ->
  triple (fun s => (keyed (jobs (store (sworld s))) /\ jobs (store (sworld s)) = d0 /\ C (catalog (store (sworld s)))) /\
                   upstreamAccumulators s = NewPartitionAccumulators m)
    (scan_Handle E configured config fuel run) (fun result s => scanned run result d0 (jobs (store (sworld s)))) any_error.
Proof.
  intros Hid s0 [(Hk0 & E0 & HC0) HU0]. unfold scan_Handle. unfold mbind at 1, M_bind at 1, of_result at 1.
  destruct (ParseScanInput run) as [input|e] eqn:Hinput; [|exact I].
  pose proof (ParseScanInput_bucket run input Hinput) as Hne.
  rewrite Hid. set (prefix := scScopePrefix input).
  assert (T d0 (scBucketID input) prefix [] [] [] s0) as HT0.
  { split; [rewrite E0 in Hk0 |- *; split; [done|constructor|constructor| |constructor|]|done|rewrite HU0; apply accumulates_new].
    - intros k r Hr. by exists r.
    - intros k r Hr _. right. by exists r. }
  clear Hk0 HC0 HU0 E0. revert s0 HT0.
  eapply triple_bind; [apply GetBucket_triple|]. intros b. apply triple_prop. intros Hb.
  unfold mbind at 1, M_bind at 1, of_result. intros s HT. destruct (client_for E b) as [client|e] eqn:Hclient; [|exact I].
  revert s HT. eapply triple_bind; [apply count_triple|]. intros objectCount.
  eapply triple_bind; [apply read_now_triple|]. intros now.
  eapply triple_bind; [apply scan_progress_triple|]. intros ?.
  eapply triple_bind; [apply stream_local_triple|]. intros l. apply triple_prop. intros (local & Hlocal & Hacc).
  eapply triple_bind; [apply reset_triple|]. intros ?.
  eapply triple_bind; [apply list_all_triple with (client := client)|]. intros [listed n].
  unfold after_listing. cbn [fst snd]. apply triple_exists. intros upstream. apply triple_prop. intros [-> Hpages].
  eapply triple_bind; [apply scan_progress_triple|]. intros ?.
  eapply triple_bind; [apply scan_progress_triple|]. intros ?.
  intros s HT. unfold mbind at 1, M_bind at 1, gets. unfold mbind at 1, M_bind at 1.
  rewrite (evaluates_eq listed l _ _ _ _ s Hacc (T_upstream _ _ _ _ _ _ _ HT))
    by (intros p Hp; apply (SamplePartitions_valid _ _ _ _ modulus_range Hp)).
  cbn [fst snd]. set (sampled := SamplePartitions m objectCount (DailyEpoch now)). revert s HT.
  eapply triple_bind; [apply escalating_triple|]. intros ?.
  eapply triple_bind with (R := fun ids s => T d0 (scBucketID input) prefix ids
    (escalations listed (map local_entry local) (map upstream_entry upstream) sampled) (map upstream_entry upstream) s).
  { rewrite Hb. apply escalates_triple; [done|]. apply escalations_valid. }
  intros ids s HT. cbn. exists input, b, client, local, upstream, objectCount, (DailyEpoch now), listed,
    (escalations listed (map local_entry local) (map upstream_entry upstream) sampled),
    (List.filter (occupied m (map local_entry local) (map upstream_entry upstream)) sampled), ids.
  split; [done|]. split; [done|]. split; [done|]. cbv zeta. split; [done|]. split; [done|].
  split; [apply escalations_drifted|]. split; [done|]. rewrite Hb. apply HT.
Qed.
End Scan.

(** C10: a scan that succeeds creates exactly one job for each partition of its sample in which
    the number of keys or their total size differs between the objects of the catalog and a
    complete listing of the upstream, and creates no other job in the name of the run: the
    identifiers that it reports are distinct and new, they are those of these jobs in the
    order of the partitions, and every job in the name of the run that was not there before
    is one of them. The sync reads each of these jobs as that partition of the bucket and
    prefix. When the budget ends the listing early, nothing is requested. Other workers may
    run any statement on the jobs in between, but none in the name of this run. *)
Theorem scan_escalates `{MapOrder, Collation} E configured config C fuel run w result w' :
  scan_env E configured (JobRuns.ID run) C -> keyed (jobs (store w)) -> C (catalog (store w)) ->
  run_scan E configured config fuel run w = (Ok result, w') ->
  scanned E configured (JobRuns.ID run) C run result (jobs (store w)) (jobs (store w')).
Proof.
  intros SE Hk HC Hrun. unfold run_scan in Hrun.
  pose proof (scan_Handle_triple E configured config (JobRuns.ID run) C SE fuel run (jobs (store w)) eq_refl
    (mkScanWorld w (NewPartitionAccumulators (handler_modulus configured)) (NewScanBudget config zeroTime))) as Ht.
  destruct (scan_Handle _ _ _ _ _ _) as [r s]. injection Hrun as -> <-. by apply Ht.
Qed.

(** ** Termination *)

Section Termination.
Context `{MapOrder, Collation} (E : Env) (configured : Z) (config : ScanBudgetConfig).

Lemma no_fuel_of_result_bind {S A B} (r : result store_error A) (f : A -> M S B) :
  (forall a, r = Ok a -> no_fuel (f a)) -> no_fuel (of_result r ≫= f).
Proof. intros Hf s. destruct r as [a|e]; [by apply Hf|done]. Qed.
Lemma no_fuel_in_scan {A} (m : M World A) : no_fuel m -> no_fuel (in_scan m).
Proof. intros Hm s. specialize (Hm (sworld s)). unfold in_scan. by destruct (m (sworld s)). Qed.
Lemma no_fuel_scan_stmt {A} (f : nat -> M Store A) : (forall n, no_fuel (f n)) -> no_fuel (in_scan (stmt E f)).
Proof. intros Hf. by apply no_fuel_in_scan, no_fuel_stmt. Qed.
Lemma no_fuel_read_now : no_fuel (read_now E).
Proof. done. Qed.
Lemma no_fuel_or_panic {S A} (v : option A) : no_fuel (S := S) (or_panic v).
Proof. by destruct v. Qed.
Lemma no_fuel_scan_progress runID phase fields : no_fuel (scan_progress E runID phase fields).
Proof. apply no_fuel_in_scan. unfold updateProgress. auto using no_fuel_stmt with fuel. Qed.
Hint Resolve no_fuel_in_scan no_fuel_scan_stmt no_fuel_read_now no_fuel_or_panic no_fuel_scan_progress : fuel.

Lemma no_fuel_stream_local scope acc :
  no_fuel (StreamObjectsInScope (fun f => in_scan (run_query E f)) scope add_local acc).
Proof.
  unfold StreamObjectsInScope, run_query. apply no_fuel_bind; [apply no_fuel_scan_stmt; intros n; apply no_fuel_gets|]. intros [rows err]. unfold stream_rows.
  apply no_fuel_bind; [|intros ?; destruct err as [e|]; [by intros s|apply no_fuel_ret]].
  apply no_fuel_for_acc. intros l r. apply no_fuel_bind; [auto with fuel|]. intros o. apply no_fuel_or_panic.
Qed.

Lemma no_fuel_evaluate listed l u acc p : no_fuel (evaluate listed l u acc p).
Proof.
  unfold evaluate. apply no_fuel_bind; [auto with fuel|]. intros f. apply no_fuel_bind; [auto with fuel|]. intros g.
  repeat case_match; auto with fuel.
Qed.

Lemma no_fuel_escalate runID bucketID prefix ids p : no_fuel (escalate E runID bucketID prefix ids p).
Proof.
  unfold escalate, createPartitionSyncJob. apply no_fuel_bind; [auto with fuel|]. intros q.
  apply no_fuel_bind; auto with fuel.
Qed.

Section Pages.
Context (client : ObjectClient) (b : Bucket) (prefix : string) (rank : string -> string -> nat).
Context (Hadv : advances client (bBucketName b) prefix rank).
Notation options := (scan_list_options E client b prefix).

Lemma no_fuel_visits kept n objects : no_fuel (scan_page options add_upstream kept n objects).
Proof.
  revert kept n. induction objects as [|o os IH]; intros kept n; cbn [scan_page]; [auto with fuel|].
  destruct (filtered_out options o); [done|]. unfold allows, records, add_upstream. cbn.
  apply no_fuel_bind; [apply no_fuel_bind; auto with fuel|]. intros [|]; cbn [negb]; [|auto with fuel].
  apply no_fuel_bind; [apply no_fuel_bind; [auto with fuel|]; intros ?; apply no_fuel_bind; auto with fuel|].
  intros ?. apply no_fuel_bind; auto with fuel.
Qed.

Lemma scan_pages_enough fuel label tok mk n :
  (rank tok mk < fuel)%nat ->
  no_fuel (list_pages options fuel (fun input => in_scan (call_upstream client input)) add_upstream label tok mk n).
Proof.
  revert tok mk n. induction fuel as [|fuel IH]; intros tok mk n Hr; [lia|]. cbn [list_pages].
  intros s. unfold mbind at 1, M_bind at 1. unfold in_scan, call_upstream at 1, of_result.
  destruct (client (clock (sworld s)) (list_input options tok mk)) as [page|e] eqn:Ec; [|done].
  change (list_input options tok mk) with (mkListInput (bBucketName b) prefix tok mk) in Ec.
  match goal with |- context [mkScanWorld ?w ?a ?k] => generalize (mkScanWorld w a k) end.
  enough (no_fuel (scanned ← scan_page options add_upstream [] n (Objects page);
    match scanned with
    | (None, objectsListed) => mret (false, objectsListed)
    | (Some pageObjects, objectsListed) => _ end)) as Hn by (intros s'; exact (Hn s')).
  apply no_fuel_bind; [apply no_fuel_visits|]. intros [[kept|] n']; [|auto with fuel]. cbv zeta.
  destruct (_ && _); [auto with fuel|]. apply no_fuel_bind; [cbn; auto with fuel|]. intros ?.
  destruct (IsTruncated page) eqn:Et; cbn [negb]; [|auto with fuel]. unfold allows. cbn [Budget scan_list_options].
  apply no_fuel_bind; [cbn; apply no_fuel_bind; auto with fuel|]. intros allowed. destruct (negb allowed); [auto with fuel|].
  apply IH. pose proof (Hadv _ _ _ _ Ec Et). lia.
Qed.
End Pages.

(** A scan ends: the fuel of its only loop that is not over a list is enough when it
    exceeds the number of pages that the upstream can still list. *)
Theorem scan_returns fuel run w rank :
  (forall b client prefix, client_for E b = Ok client -> advances client (bBucketName b) prefix rank) ->
  (rank "" "" < fuel)%nat ->
  (run_scan E configured config fuel run w).1 <> Err OutOfFuel.
Proof.
  intros Hadv Hr. unfold run_scan. enough (no_fuel (scan_Handle E configured config fuel run)) as Hn
    by (match goal with |- context [scan_Handle _ _ _ _ _ ?s] => specialize (Hn s); by destruct (scan_Handle _ _ _ _ _ s) end).
  unfold scan_Handle. apply no_fuel_bind; [auto with fuel|]. intros input.
  apply no_fuel_bind; [apply no_fuel_scan_stmt; intros n; apply no_fuel_on_catalog, no_fuel_GetBucket|]. intros b.
  apply no_fuel_of_result_bind. intros client Hc.
  apply no_fuel_bind; [apply no_fuel_scan_stmt; intros n; apply no_fuel_on_catalog; done|]. intros count. apply no_fuel_bind; [auto with fuel|]. intros now.
  apply no_fuel_bind; [auto with fuel|]. intros ?. apply no_fuel_bind; [apply no_fuel_stream_local|]. intros l.
  apply no_fuel_bind; [auto with fuel|]. intros ?.
  apply no_fuel_bind; [cbn; apply scan_pages_enough with rank; [by apply Hadv|done]|]. intros listed.
  apply no_fuel_bind; [auto with fuel|]. intros ?. apply no_fuel_bind; [auto with fuel|]. intros ?.
  apply no_fuel_bind; [auto with fuel|]. intros u.
  apply no_fuel_bind; [apply no_fuel_for_acc; intros; apply no_fuel_evaluate|]. intros evaluated.
  apply no_fuel_bind; [destruct evaluated.1; auto with fuel|]. intros ?.
  apply no_fuel_bind; [apply no_fuel_for_acc; intros; apply no_fuel_escalate|]. auto with fuel.
Qed.
End Termination.

(** ** Witnesses: the bucket of [SyncWitnesses], which has drifted *)

Definition demo_scan_row : JobRow :=
  mkJobRow "scan" "scan" "scan_bucket" Running None None (Some "bucket") (Some "b") {["bucket_id" := VString "b"]} ∅ ∅
    1 3 0 (Some "worker") (Some 0) (Some 0) None None 0 0.
Definition demo_scan_world : World :=
  mkWorld 0 (mkStore (mkDB {["scan" := demo_scan_row]} ∅) demo_catalog) newSyncExecutionState.
Definition demo_scan : result run_error payload * World :=
  run_scan (demo_env 100) 8 (mkBudgetConfig 0 0) 3 (scanJobRun demo_scan_row) demo_scan_world.

(** The keys [a], [c] and [z] are in three of the eight partitions. *)
Lemma demo_scan_ok : childTypeCount (match demo_scan.1 with Ok p => p | Err _ => ∅ end) "sync_bucket" = 3.
Proof. vm_compute. reflexivity. Qed.

Lemma demo_scan_env : scan_env (demo_env 100) 8 "scan" (eq demo_catalog).
Proof.
  split; [lia|intros n s; by exists []|intros n s key r Hr _; by exists r|done|]. intros c <-. apply demo_sound.
Qed.

Lemma demo_scan_keyed : keyed (jobs (store demo_scan_world)).
Proof. intros key r Hr. cbn in Hr. by apply lookup_singleton_Some in Hr as [<- <-]. Qed.

Lemma scan_escalates_witness :
  exists result w', demo_scan = (Ok result, w') /\
    scanned (demo_env 100) 8 "scan" (eq demo_catalog) (scanJobRun demo_scan_row) result (jobs (store demo_scan_world)) (jobs (store w')).
Proof.
  pose proof demo_scan_ok as Hok. destruct demo_scan as [[result|e] w'] eqn:Ed; [|discriminate Hok].
  exists result, w'. split; [reflexivity|].
  exact (scan_escalates (demo_env 100) 8 (mkBudgetConfig 0 0) (eq demo_catalog) 3 (scanJobRun demo_scan_row)
    demo_scan_world result w' demo_scan_env demo_scan_keyed eq_refl Ed).
Defined.

(** The cursor [T] is the last one. *)
Definition demo_rank (tok mk : string) : nat := if String.eqb tok "T" then 0 else 1.

Lemma demo_advances b client prefix :
  client_for (demo_env 100) b = Ok client -> advances client (bBucketName b) prefix demo_rank.
Proof.
  intros [= <-] n tok mk page. unfold demo_client. cbn [iContinuationToken].
  destruct (String.eqb_spec tok ""); [intros [= <-] _; subst; vm_compute; constructor|].
  destruct (String.eqb tok "T"); [by intros [= <-]|done].
Qed.

Lemma scan_returns_witness : demo_scan.1 <> Err OutOfFuel.
Proof.
  exact (scan_returns (demo_env 100) 8 (mkBudgetConfig 0 0) 3 (scanJobRun demo_scan_row) demo_scan_world demo_rank
    demo_advances (le_n_S _ _ (le_S _ _ (le_n 1)))).
Defined.
